(* ===== verification/_CoqProject ===== *)
-Q . S2P
Prelude.v
Hoare.v
Float.v
PyList.v
Json.v
IpAddress.v
PyText.v
Regex.v
Models.v
Validation.v
Utils.v
World.v
Sim.v
K8sHelper.v
K8sHelperProofs.v
Router.v
RouterProofs.v
Http.v
Paths.v
Filesystem.v
FilesystemProofs.v
Tunnel.v
TunnelProofs.v
Connector.v
ConnectorProofs.v
Sandbox.v
SandboxClient.v
SandboxClientProofs.v
Commands.v
CommandsProofs.v
Coroutine.v
AsyncClient.v
DateTime.v
DateTimeProofs.v
Budget.v
BudgetProofs.v
Placement.v
Effects.v
ObjectStore.v
Inventory.v
InventoryProofs.v
Planner.v
PlannerProofs.v
PlanProperties.v
Publishing.v
FleetMember.v
FleetMemberProofs.v
FleetSim.v
Resolver.v
ResolverProofs.v
FacadeProofs.v
FleetComposition.v
Publisher.v
FleetTools.v
LeaseLock.v
Snapshots.v
SnapshotSandbox.v
SnapshotProofs.v
SnapshotSandboxProofs.v
SnapshotSim.v
RlResources.v
RlConfig.v
RlHandles.v
RlFleet.v
RlOwnership.v
RlSim.v
RlFleetOwnership.v
RlSlots.v
RlReaper.v
RlReaperProofs.v
RlFleetProofs.v
RlLookahead.v
RlStrategies.v
RlRecycle.v
RlRecycleProofs.v
RlShards.v
RlFailFast.v
RlPrepull.v
RlInputs.v
