(* ===== verification/Prelude.v ===== *)
(** * The Agent Sandbox Python SDK, its router and its fleets

    The repository runs isolated sandboxes on Kubernetes. This library models
    and verifies
    - the synchronous Python SDK,
      [src/clients/python/agentic-sandbox-client/k8s_agent_sandbox], with its
      snapshot extension [gke_extensions/snapshots], and the client of the
      asynchronous one;
    - the HTTP and WebSocket router, [.../sandbox-router/sandbox_router.py];
    - the multi-cluster fleet,
      [src/examples/multi-cluster-fleet/python/agent_sandbox_fleet];
    - the fleet for reinforcement learning,
      [src/examples/agent-sandbox-rl/agent_sandbox_rl].

    ** How the parts interact

    A program creates a [SandboxClient]. [create_sandbox] writes a SandboxClaim
    to the Kubernetes API, watches it until a sandbox is bound and ready, and
    returns a [Sandbox] handle, which the client tracks for cleanup. A handle owns
    a [SandboxConnector]; its file and command clients send their requests
    through it. The connector finds the sandbox by one of six strategies (a fixed
    URL, a gateway, kubectl port-forwards to the router or to the pod, or
    addresses inside the cluster) and, when a strategy goes through the router,
    adds the routing headers from which the router computes the target. A handle
    of the snapshot extension also owns a snapshot engine, which creates, lists
    and deletes snapshots of the pod; suspend, resume and restore use it. The
    asynchronous client does the same for tasks of an event loop, which interleave
    at every await and may be cancelled there.

    The fleet spreads warm pools over clusters. A planner reads an inventory of
    the clusters and what is published, places and sizes the pools, and publishes
    the assignments in an object store under compare-and-swap. A member in each
    cluster reads its assignment, makes the warm pools match, and reports its
    capacity, which the inventory reads. A resolver reads the assignments and
    sends each claim to a cluster that keeps its template warm.

    The reinforcement-learning fleet runs tasks in sandboxes of their images. It
    plans one warm pool per image, creates or adopts the pools, claims a sandbox per
    task within a hard limit, and tears everything down; a strategy decides when pools
    are warm, an executor claims a sandbox per task or recycles one, a watchdog gives
    up on pods that will not start, a warmer follows the batches of a training loop, and
    a reaper removes what crashed runs left. Before a run a preflight checks the
    clusters, and a pre-pull brings the images to the nodes. Runs share a namespace, told apart by a label.

    ** Files

    Foundations:
    - [Prelude] (this file): Python outcomes and exceptions ([outcome], [exn]),
      the state monad [M] where an exception keeps the state, characters and
      strings, shared tactics and list lemmas;
    - [Hoare]: a small program logic for [M] ([spec] for returns and exceptions,
      [stable] for predicates that code cannot falsify, stepping and inversion);
    - [Effects]: programs as trees of requests, whose interleavings are runs of
      several programs over one store;
    - [Coroutine]: coroutines that suspend, wait for a lock and are cancelled, their
      interleavings, and a rely-guarantee logic for them ([always], [steps_ok]);
    - [Json], [PyText] (numerals, [repr], MD5), [PyList], [Regex] (regular
      expressions by derivatives), [IpAddress], [Float] (binary64 as the rationals it
      holds, with its rounding), [DateTime], [DateTimeProofs]: what the code uses of
      the language and its library.
    Interfaces to the outside, each a type class over a world [W]:
    - [World]: [Clock] and [K8sApi] with the laws the proofs need ([ClockLaws]:
      the clock is monotonic and sleeping takes its time; [WatchLaws]: the events
      of a watch come in order and a watch takes time). [Sim] implements them by
      a simulated cluster, in which the examples run;
    - [Tunnel.Host] (processes, local ports, files), implemented in [TunnelProofs];
      [Connector.Net] (HTTP session, gRPC channels);
      [Commands.ProcessService] (the gRPC stub); [Http.Connector] (what the file
      client needs of a connector), implemented by
      [ConnectorProofs.conn_connector];
    - [ObjectStore.ObjectStore] (the bucket and its generations), implemented by
      [bucket]; the member's, the hub's and the SDK's interfaces of the fleet are
      implemented in [FleetSim] and [FacadeProofs], those of the snapshot
      extension in [SnapshotSim].
    Components, definitions in [X.v] and theorems in [XProofs.v] (or the same file
    where there are few):
    - [Models], [Validation], [Utils]: [models.py], [claim_adoption.py],
      [pod_metadata.py], [utils.py];
    - [K8sHelper]: [k8s_helper.py]; the three waits are instances of one
      [watch_loop];
    - [Router]: [sandbox_router.py]; a WebSocket relay is a machine over the
      interleaved events of its two directions and its watchdog;
    - [Http], [Paths], [Filesystem]: [files/filesystem.py];
    - [Tunnel]: the connection strategies of [connector.py]; [Connector]:
      [SandboxConnector], with its mutable fields in [conn];
    - [Sandbox], [SandboxClient]: [sandbox.py] and [sandbox_client.py]. Handles
      live in a heap, because the registry, the caller and the termination hook
      share them;
    - [AsyncClient]: [async_sandbox_client.py] and the life cycle of
      [async_sandbox.py], as coroutines over the registry, the heap of handles and
      the lock; [AsyncHelper] and [AsyncConnectors] are what they call. [AsyncSim]
      implements both;
    - [Commands]: [commands/command_executor.py] and
      [commands/_process_handle.py];
    - [Snapshots], [SnapshotSandbox]: [snapshot_engine.py] and [utils.py];
      [sandbox_with_snapshot_support.py] and [podsnapshot_client.py]. The state
      is the list of the engine's triggers next to the handle ([snap]);
    - [Budget], [Placement], [Inventory], [Planner]: [budget.py] and [sizing.py],
      [placement.py], [inventory.py], [planner.py]. [PlanProperties]
      holds the theorems on a plan, [Publishing] those on planners that run at the
      same time;
    - [ObjectStore]: [objectstore.py]; [FleetMember]: [fleet_member.py];
      [Publisher]: [publisher.py] and what a member reports; [LeaseLock]:
      [leaselock.py] and the life of a member;
    - [Resolver], [FacadeProofs]: [resolver.py]; [FleetTools]: [argtypes.py],
      [registry_rewrite.py], sizes of [trainer.py];
    - [FleetComposition]: what a planner publishes is what members and resolvers
      read;
    - [RlResources]: [resources.py] and [constants.py]; [RlConfig]: [config.py],
      [placement.py], [sizing.py] and [cluster.py]; [RlHandles]: [handles.py] and
      [snapshots.py]; [RlFleet]: [fleet.py], its mutable fields in [fleet] and its
      handles in a heap; [RlReaper]: [reaper.py]; [RlLookahead]: [lookahead.py];
      [RlStrategies]: [strategies.py], [run] of [fleet.py] and of [async_fleet.py];
      [RlRecycle], [RlShards]: [recycle.py], the executor and the counters its
      asynchronous shards share; [RlFailFast]: [failfast.py]; [RlPrepull]:
      [prepull.py]; [RlInputs]: [preflight.py], [sources.py] and [capacity.py].
      [RlOwnership] and
      [RlFleetOwnership] hold the theorems on what a run may write, over a history of
      every write ([Audit]); [RlSlots] lets the locked sections of concurrent callers
      interleave; [RlFleetProofs] and [RlReaperProofs] hold the others. [RlSim] is a
      cluster that keeps every version of every object, in which the examples run.

    ** What is proved

    - Router: the shape of every target URL and the one way it can be subverted
      (an IPv6 scope id); authentication, with its failure on non-ASCII
      credentials; fail-closed startup; forwarded headers; accounting keys that
      clients cannot choose; the connection limit as an invariant of the
      transition system of opening and closing connections; balanced slots on all
      exits; order of relayed messages and the watchdog; guarded proxying.
    - Waiting: soundness of the returned name, termination, no early timeout,
      resumption after a cut watch, valid gateway addresses.
    - Files: exact characterisation of safe upload paths, confinement, faithful
      endpoint encoding, bounded and complete downloads, single-request uploads.
    - Connections: no orphaned kubectl process through any sequence of calls,
      terminating connects, trusted headers, the effect of every outcome of a
      request on the connection, and transport tokens that protect a replacement
      transport from late failures.
    - Client: the registry invariant over all sequences of calls, ownership of
      caller-named claims, rollback, idempotent termination, tracked handles, and
      the claim that listing abandons.
    - Asynchronous client: under any interleaving and cancellation explicit claims
      are deleted only on request, and a creation under a generated name does not
      leave its claim behind; the exit hook deletes exactly what it should; and the
      handle that overlapping lookups lose.
    - Commands: the event protocol of processes and the effect of failed calls.
    - Validation and utilities: label syntax, pod address choice, removal of the
      temporary kubeconfig, header merging, host names.
    - Snapshots: a sandbox is not suspended without the snapshot asked for, a
      restore that succeeds was confirmed, deletion stays within its period,
      triggers are not forgotten, newest first, all polls end; and the success
      that [resume] reports when it cannot read the sandbox.
    - Plans: every model on one eligible cluster, silent clusters frozen, drained
      ones emptied, no plan without a view of the clusters, the budget kept up to
      one replica per pool, the split proportional.
    - Publishing: any interleaving of planners refines planners that read, plan
      and publish atomically.
    - Members: nothing is deleted without an instruction, a completed pass
      converges to the plan, reports are read back as they were measured; and the
      failed deletion that is not retried.
    - Resolvers: claims go to live clusters that keep the template warm, and are
      deleted where they were created. A lease is updated by one holder only.
    - Reinforcement learning: live sandboxes stay within the limit under any
      interleaving; a fleet patches and deletes only pools and templates that it
      inspected and that are not another run's, and none when it adopts; claims and
      batches of tasks are all or nothing; a run answers every task under every
      strategy; staged warming keeps its budget; the circuit breaker trips exactly on
      a sustained breach; the warmer converges; the reaper spares what other runs use;
      and the teardown that one failed release abandons, the second run that is
      refused and the failed deletion of pods that is never reported.
    - Recycling: no task meets a sandbox that another one left dirty, both executors
      meet the interface that the strategies need ([Executor]), the counters of the
      shards are exact under any interleaving; and the warm replicas that shards leave
      when they never claimed, and the sandbox that is counted out twice.
    - Watchdog: what [stop] returns is settled under any interleaving, and the grace
      period is exact over any history of polls.
    - Inputs: pre-pulling is paced, ends and is complete when it says so; a preflight
      that passes found what the tasks need; a selector covers exactly what the API
      server would match; a limit stops the read of a source; a benchmark's plan fits
      the pool it was made for.

    ** Conventions and bounds

    A Python [str] is a [string] whose characters are the code points below 256.
    Time is in nanoseconds as integers where the code only compares it with
    integers, and binary64 where it computes with floats; other floats are the
    rationals they hold. Loops that wait take fuel, and [NoFuel] is no exception:
    no handler sees it. The fuel that is enough is proved: one round per
    nanosecond of the timeout plus one for claims ([watch_claim_terminates]), 20
    rounds per second of the timeout for tunnels ([tunnel_connect_terminates]),
    the length of the stream plus one for process events
    ([process_events_complete]), the timeout over the polling interval for
    snapshots ([snapshot_waits_end]). Other loops recurse on the data.

    ** What is not modelled

    The connector, the helper, the file and the command client of the asynchronous
    SDK, the file watcher, tracing and metrics, [health] and [metadata] of a handle,
    the framework integrations, the command line and hub credentials of the fleet,
    and the other examples. Third-party code
    (kubernetes, requests, httpx, websockets, gRPC, pydantic coercion, FastAPI,
    google-cloud-storage) enters by the interfaces above or as a function
    argument. Locks are modelled in [Coroutine] only, without the queue of those that
    wait. Elsewhere each method runs alone, and interleavings are sequences of method
    calls, or of requests in [Effects]. *)

From Stdlib Require Import Ascii String ZArith NArith Lia.
From stdpp Require Import base option list strings gmap numbers pretty.

#[export] Set Warnings "-clear-no-such-hyp".

(** ** Outcomes: Python results, exceptions, and the absence of a result *)

(** The exception classes the modelled code raises, catches or lets through.
    Messages are kept only where the program forwards them to a peer. *)
Inductive exn :=
  (* builtins *)
  | ValueError
  | TypeError
  | AttributeError
  | KeyError
  | OSError
  | RuntimeError
  | NotImplementedError
  | TimeoutError
  | ImportError
  | LookupError
  | PermissionError
  | UnboundLocalError
  | ZeroDivisionError
  | OverflowError
  | IndexError
  | AssertionError
  | FileNotFoundError
  | CancelledError
  (* k8s_agent_sandbox/exceptions.py *)
  | SandboxResponseTooLargeError
  | SandboxNotReadyError
  | SandboxNoServiceError
  | SandboxNotFoundError
  | SandboxTemplateNotFoundError
  | SandboxWarmPoolNotFoundError
  | SandboxPortForwardError
  | SandboxMetadataError
  | SandboxRequestError (status_code : option Z)
  | SandboxClaimFailedError
  | SnapshotNotFoundError
  (* raised by third-party clients *)
  | ApiException (status : Z)
  | ProtocolError
  | ReadTimeoutError
  | ConnectionError
  | RequestException (status_code : option Z)
  | RpcError (code : Z)
  | TimeoutExpired
  | HttpxConnectError
  | HttpxTimeoutException
  | InvalidStatus
  | WebSocketDisconnect (code : Z) (reason : string)
  | ConnectionClosed
  | MaxRetryError
  | ConfigException
  | ArgumentTypeError
  (* sandbox_router.py *)
  | RoutingError (msg : string)
  | ConnectionLimitExceeded
  | HTTPException (status_code : Z) (detail : string)
  (* multi-cluster-fleet: placement.py, objectstore.py, resolver.py *)
  | NoClusterAvailableError
  | CASConflict
  | ResolverError
  | TemplateNotAssignedError
  | ClusterUnavailableError
  (* agent-sandbox-rl: exceptions.py *)
  | FleetError
  | PreflightError
  | PoolNotFoundError
  | OwnedByAnotherRunError (owner : string)
  | FleetOvercommitError
  | SnapshotError
  | SnapshotsUnavailable
  | SandboxStartError (reason : string)
  | SandboxLostError
  | AssignmentsMissingError
  (* raised by the object store's client *)
  | GcsNotFound
  | GcsPreconditionFailed
  (* anything else *)
  | OtherException (tag : Z).

#[global] Instance exn_eq_dec : EqDecision exn.
Proof. solve_decision. Defined.

(** The outcome of a run: a value, a raised exception, or no result within
    the fuel given to a loop. [NoFuel] is not an exception: no handler of the
    program sees it. *)
Inductive outcome (A : Type) :=
  | Ret (a : A)
  | Raise (e : exn)
  | NoFuel.
Arguments Ret {A} _.
Arguments Raise {A} _.
Arguments NoFuel {A}.

#[global] Instance outcome_ret : MRet outcome := λ A a, Ret a.
#[global] Instance outcome_bind : MBind outcome := λ A B k m,
  match m with Ret a => k a | Raise e => Raise e | NoFuel => NoFuel end.
#[global] Instance outcome_fmap : FMap outcome := λ A B f m,
  match m with Ret a => Ret (f a) | Raise e => Raise e | NoFuel => NoFuel end.

#[global] Instance outcome_eq_dec {A} `{EqDecision A} : EqDecision (outcome A).
Proof. solve_decision. Defined.

(** [isinstance(e, OSError)]: the class and its subclasses. *)
Definition is_oserror (e : exn) : bool :=
  match e with
  | OSError | PermissionError | TimeoutError | ConnectionError | FileNotFoundError => true
  | _ => false
  end.

Definition is_ret {A} (o : outcome A) : bool :=
  match o with Ret _ => true | _ => false end.

(** ** Stateful code: state passing where an exception keeps the state *)

Definition M (S A : Type) : Type := S → outcome A * S.

Section monad.
Context {S : Type}.

#[global] Instance M_ret : MRet (M S) := λ A a s, (Ret a, s).

#[global] Instance M_bind : MBind (M S) := λ A B k m s,
  match m s with
  | (Ret a, s') => k a s'
  | (Raise e, s') => (Raise e, s')
  | (NoFuel, s') => (NoFuel, s')
  end.

Definition raise {A} (e : exn) : M S A := λ s, (Raise e, s).
Definition no_fuel {A} : M S A := λ s, (NoFuel, s).
Definition get_state : M S S := λ s, (Ret s, s).
Definition gets {A} (f : S → A) : M S A := λ s, (Ret (f s), s).
Definition modify (f : S → S) : M S () := λ s, (Ret (), f s).
Definition lift {A} (o : outcome A) : M S A := λ s, (o, s).

(** [except h m] is [try: m except ...: h]: the handler returns [None] for an
    exception its clauses do not name, which is then re-raised. *)
Definition except {A} (h : exn → option (M S A)) (m : M S A) : M S A := λ s,
  match m s with
  | (Raise e, s') =>
      match h e with Some k => k s' | None => (Raise e, s') end
  | r => r
  end.

(** [finally f m] is [try: m finally: f]; an exception of [f] replaces the
    outcome of [m]. *)
Definition finally {A} (f : M S ()) (m : M S A) : M S A := λ s,
  match m s with
  | (NoFuel, s') => (NoFuel, s')
  | (r, s') =>
      match f s' with
      | (Ret _, s'') => (r, s'')
      | (Raise e, s'') => (Raise e, s'')
      | (NoFuel, s'') => (NoFuel, s'')
      end
  end.

Fixpoint for_each {A} (l : list A) (f : A → M S ()) : M S () :=
  match l with
  | [] => mret ()
  | a :: l' => _ ← f a; for_each l' f
  end.

End monad.

(** Methods of an object: code over the fields of [self] and the world. *)
Section self.
Context {X W : Type}.
Definition self : M (X * W) X := λ s, (Ret s.1, s).
Definition set_self (f : X → X) : M (X * W) () := λ s, (Ret (), (f s.1, s.2)).
Definition world {A} (m : M W A) : M (X * W) A :=
  λ s, match m s.2 with (r, w) => (r, (s.1, w)) end.
End self.

(** Run code of a sub-state inside a larger one. *)
Definition zoom {S T A} (g : S → T) (p : T → S → S) (m : M T A) : M S A :=
  λ s, match m (g s) with (r, t) => (r, p t s) end.

(** ** Characters

    A Python [str] is modelled by a [string]: its characters are the code
    points below 256. *)

Definition code (c : ascii) : N := N_of_ascii c.
Definition chr (n : N) : ascii := ascii_of_N n.

Definition in_range (lo hi : N) (c : ascii) : bool :=
  ((lo <=? code c) && (code c <=? hi))%N.

Definition is_digit (c : ascii) : bool := in_range 48 57 c.
Definition is_lower (c : ascii) : bool := in_range 97 122 c.
Definition is_upper (c : ascii) : bool := in_range 65 90 c.
Definition is_alnum (c : ascii) : bool := is_lower c || is_upper c || is_digit c.
Definition is_lower_alnum (c : ascii) : bool := is_lower c || is_digit c.

(** Characters [str.strip] and [str.split] treat as blank. *)
Definition is_space (c : ascii) : bool :=
  in_range 9 13 c || in_range 28 32 c || (code c =? 133)%N || (code c =? 160)%N.

(** [str.isdigit] on one character: the ASCII digits and the three
    superscript digits of Latin-1. *)
Definition is_digit_char (c : ascii) : bool :=
  is_digit c || (code c =? 178)%N || (code c =? 179)%N || (code c =? 185)%N.

(** [str.lower] on one character. *)
Definition lower_char (c : ascii) : ascii :=
  if is_upper c || in_range 192 214 c || in_range 216 222 c
  then chr (code c + 32) else c.

(** ** Strings *)

Definition explode (s : string) : list ascii := list_ascii_of_string s.
Definition implode (l : list ascii) : string := string_of_list_ascii l.

Definition len (s : string) : nat := length (explode s).

Definition lower (s : string) : string := implode (lower_char <$> explode s).

Fixpoint drop_while {A} (p : A → bool) (l : list A) : list A :=
  match l with
  | [] => []
  | a :: l' => if p a then drop_while p l' else l
  end.

Definition lstrip_chars (p : ascii → bool) (l : list ascii) : list ascii :=
  drop_while p l.
Definition rstrip_chars (p : ascii → bool) (l : list ascii) : list ascii :=
  reverse (drop_while p (reverse l)).

(** [str.strip()] *)
Definition strip (s : string) : string :=
  implode (rstrip_chars is_space (lstrip_chars is_space (explode s))).

(** [s.lstrip(c)] and [s.rstrip(c)] for a one-character argument. *)
Definition lstrip_char (c : ascii) (s : string) : string :=
  implode (lstrip_chars (λ d, bool_decide (d = c)) (explode s)).
Definition rstrip_char (c : ascii) (s : string) : string :=
  implode (rstrip_chars (λ d, bool_decide (d = c)) (explode s)).

(** [l.split(sep)] for a one-character separator: never empty. *)
Fixpoint split_chars (sep : ascii) (l : list ascii) : list (list ascii) :=
  match l with
  | [] => [[]]
  | c :: l' =>
      if decide (c = sep) then [] :: split_chars sep l'
      else match split_chars sep l' with
           | [] => [[c]]
           | w :: ws => (c :: w) :: ws
           end
  end.

Fixpoint join_chars (sep : list ascii) (ws : list (list ascii)) : list ascii :=
  match ws with
  | [] => []
  | [w] => w
  | w :: ws' => w ++ sep ++ join_chars sep ws'
  end.

Definition split (sep : ascii) (s : string) : list string :=
  implode <$> split_chars sep (explode s).
Definition join (sep : string) (ws : list string) : string :=
  implode (join_chars (explode sep) (explode <$> ws)).

(** [str.split()] without a separator: runs of blanks separate. *)
Definition split_blank_chars (l : list ascii) : list (list ascii) :=
  let fix go (acc : list ascii) (l : list ascii) : list (list ascii) :=
    match l with
    | [] => if acc is [] then [] else [reverse acc]
    | c :: l' =>
        if is_space c
        then (if acc is [] then go [] l' else reverse acc :: go [] l')
        else go (c :: acc) l'
    end
  in go [] l.
Definition split_blank (s : string) : list string :=
  implode <$> split_blank_chars (explode s).

(** [s.partition(sep)] for a one-character separator: the part before, whether
    the separator occurs, the part after. *)
Fixpoint partition_chars (sep : ascii) (l : list ascii)
    : list ascii * bool * list ascii :=
  match l with
  | [] => ([], false, [])
  | c :: l' =>
      if decide (c = sep) then ([], true, l')
      else let '(a, f, b) := partition_chars sep l' in (c :: a, f, b)
  end.
Definition partition (sep : ascii) (s : string) : string * bool * string :=
  let '(a, f, b) := partition_chars sep (explode s) in (implode a, f, implode b).

Fixpoint is_prefix_of (p l : list ascii) : bool :=
  match p, l with
  | [], _ => true
  | a :: p', b :: l' => bool_decide (a = b) && is_prefix_of p' l'
  | _ :: _, [] => false
  end.
Definition startswith (p s : string) : bool := is_prefix_of (explode p) (explode s).

(** [sub in s] *)
Fixpoint contains_chars (sub l : list ascii) : bool :=
  is_prefix_of sub l || match l with [] => false | _ :: l' => contains_chars sub l' end.
Definition contains (sub s : string) : bool := contains_chars (explode sub) (explode s).

(** [c in s] for one character. *)
Definition has_char (c : ascii) (s : string) : bool := bool_decide (c ∈ explode s).

Definition str_mem (s : string) (l : list string) : bool := bool_decide (s ∈ l).

Definition LF : ascii := chr 10.

(** ** Automation *)

Create HintDb py discriminated.
Create Rewrite HintDb py_str.

(** Split a [match] of the goal or of a hypothesis on its scrutinee, keeping
    the equation. *)
Ltac case_scrut :=
  match goal with
  | |- context [match ?x with _ => _ end] =>
      lazymatch x with context [match _ with _ => _ end] => fail | _ => destruct x eqn:? end
  | H : context [match ?x with _ => _ end] |- _ =>
      lazymatch x with context [match _ with _ => _ end] => fail | _ => destruct x eqn:? end
  end.

(** Turn the [bool] tests of the code into propositions. *)
Ltac bool_prop :=
  repeat match goal with
  | H : _ && _ = true |- _ => apply andb_true_iff in H; destruct H
  | H : _ || _ = false |- _ => apply orb_false_iff in H; destruct H
  | H : negb _ = true |- _ => apply negb_true_iff in H
  | H : negb _ = false |- _ => apply negb_false_iff in H
  | H : bool_decide _ = true |- _ => apply bool_decide_eq_true in H
  | H : bool_decide _ = false |- _ => apply bool_decide_eq_false in H
  | H : (_ <? _)%N = true |- _ => apply N.ltb_lt in H
  | H : (_ <? _)%N = false |- _ => apply N.ltb_ge in H
  | H : (_ <=? _)%N = true |- _ => apply N.leb_le in H
  | H : (_ <=? _)%N = false |- _ => apply N.leb_gt in H
  | H : (_ =? _)%N = true |- _ => apply N.eqb_eq in H
  | H : (_ =? _)%N = false |- _ => apply N.eqb_neq in H
  | H : (_ <? _)%Z = true |- _ => apply Z.ltb_lt in H
  | H : (_ <? _)%Z = false |- _ => apply Z.ltb_ge in H
  | H : (_ <=? _)%Z = true |- _ => apply Z.leb_le in H
  | H : (_ <=? _)%Z = false |- _ => apply Z.leb_gt in H
  | H : (_ =? _)%Z = true |- _ => apply Z.eqb_eq in H
  | H : (_ =? _)%Z = false |- _ => apply Z.eqb_neq in H
  | H : (_ =? _)%string = true |- _ => apply String.eqb_eq in H
  | H : (_ =? _)%string = false |- _ => apply String.eqb_neq in H
  end.

(** Evaluate a run of monadic code symbolically: open the binds and split on
    the outcomes of the calls. *)
Ltac run_unfold :=
  unfold mbind, M_bind, outcome_bind, mret, M_ret, outcome_ret, raise, no_fuel,
    get_state, gets, modify, lift, except, finally, zoom in *;
  cbn beta iota in *.

Ltac run_step := first [progress simplify_eq | case_scrut].
Ltac run_all := run_unfold; repeat (run_step; cbn beta iota in *).

(** ** Lemmas on strings *)

Lemma explode_implode l : explode (implode l) = l.
Proof. apply list_ascii_of_string_of_list_ascii. Qed.

Lemma implode_explode s : implode (explode s) = s.
Proof. apply string_of_list_ascii_of_string. Qed.

Lemma implode_app l1 l2 : implode (l1 ++ l2) = (implode l1 +:+ implode l2)%string.
Proof. induction l1 as [|c l1 IH]; unfold implode in *; cbn; [done|]. by rewrite IH. Qed.

Lemma explode_app s1 s2 : explode (s1 +:+ s2) = explode s1 ++ explode s2.
Proof. induction s1 as [|c s1 IH]; [done|]. change (c :: explode (s1 +:+ s2) = c :: (explode s1 ++ explode s2)). by rewrite IH. Qed.

#[global] Instance explode_inj : Inj (=) (=) explode.
Proof. intros s1 s2 H. by rewrite <-(implode_explode s1), H, implode_explode. Qed.

#[global] Instance implode_inj : Inj (=) (=) implode.
Proof. intros s1 s2 H. by rewrite <-(explode_implode s1), H, explode_implode. Qed.

Lemma explode_empty s : explode s = [] ↔ s = EmptyString.
Proof. by destruct s. Qed.

#[export] Hint Rewrite explode_implode implode_explode explode_app : py_str.

Lemma split_chars_nonempty sep l : split_chars sep l ≠ [].
Proof. destruct l; cbn; [done|]. repeat case_scrut; done. Qed.

Lemma join_split_chars sep l : join_chars [sep] (split_chars sep l) = l.
Proof.
  induction l as [|c l IH]; [done|]. cbn.
  pose proof (split_chars_nonempty sep l).
  case_decide as Hc; destruct (split_chars sep l) as [|w ws]; try done.
  - rewrite Hc. cbn in *. by rewrite IH.
  - destruct ws; cbn in *; by rewrite IH.
Qed.

Lemma split_chars_no_sep sep l : Forall (λ w, sep ∉ w) (split_chars sep l).
Proof.
  induction l as [|c l IH]; cbn.
  - constructor; [apply not_elem_of_nil|constructor].
  - case_decide.
    + constructor; [apply not_elem_of_nil|done].
    + destruct (split_chars sep l); repeat constructor.
      * rewrite list_elem_of_singleton. congruence.
      * apply Forall_cons in IH as [Hw _]. rewrite not_elem_of_cons. done.
      * by apply Forall_cons in IH as [_ IH].
Qed.

Lemma split_chars_cons_no_sep sep w ws l :
  sep ∉ w → split_chars sep l = ws →
  split_chars sep (w ++ sep :: l) = w :: ws.
Proof.
  induction w as [|c w IH]; intros Hw Hl; cbn.
  - rewrite decide_True; [by rewrite Hl|done].
  - apply not_elem_of_cons in Hw as [Hc Hw].
    rewrite decide_False by done. by rewrite (IH Hw Hl).
Qed.

Lemma split_chars_no_sep_id sep w : sep ∉ w → split_chars sep w = [w].
Proof.
  induction w as [|c w IH]; intros Hw; cbn; [done|].
  apply not_elem_of_cons in Hw as [Hc Hw].
  rewrite decide_False by done. by rewrite (IH Hw).
Qed.

(** Splitting undoes joining when no part holds the separator. *)
Lemma elem_of_join_chars c sep ws :
  c ∈ join_chars sep ws → c ∈ sep ∨ ∃ w, w ∈ ws ∧ c ∈ w.
Proof.
  induction ws as [|w ws IH]; [by intros []%not_elem_of_nil|].
  destruct ws as [|w' ws].
  - intros H. right. exists w. by rewrite list_elem_of_singleton.
  - change (join_chars sep (w :: w' :: ws)) with (w ++ sep ++ join_chars sep (w' :: ws)).
    rewrite !elem_of_app. set_solver.
Qed.

Lemma split_join_chars sep ws :
  ws ≠ [] → Forall (λ w, sep ∉ w) ws → split_chars sep (join_chars [sep] ws) = ws.
Proof.
  intros Hne Hall. induction Hall as [|w ws Hw Hall IH]; [done|].
  destruct ws as [|w' ws].
  - cbn. by apply split_chars_no_sep_id.
  - change (join_chars [sep] (w :: w' :: ws))
      with (w ++ sep :: join_chars [sep] (w' :: ws)).
    apply split_chars_cons_no_sep; [done|]. by apply IH.
Qed.

Lemma join_split sep s : join (String sep EmptyString) (split sep s) = s.
Proof.
  unfold join, split.
  replace (explode <$> (implode <$> split_chars sep (explode s)))
    with (split_chars sep (explode s)).
  - change (explode (String sep EmptyString)) with [sep].
    by rewrite join_split_chars, implode_explode.
  - rewrite <-list_fmap_compose, <-(list_fmap_id (split_chars _ _)) at 1.
    apply list_fmap_ext. intros i w _. symmetry. apply explode_implode.
Qed.

Lemma drop_while_suffix {A} (p : A → bool) l : drop_while p l `suffix_of` l.
Proof.
  induction l as [|a l IH]; cbn; [done|].
  destruct (p a); [by apply suffix_cons_r|done].
Qed.

Lemma drop_while_head {A} (p : A → bool) l a l' :
  drop_while p l = a :: l' → p a = false.
Proof.
  induction l as [|b l IH]; cbn; [done|].
  destruct (p b) eqn:Hb; [done|]. by intros [= <- <-].
Qed.

Lemma drop_while_id {A} (p : A → bool) a l : p a = false → drop_while p (a :: l) = a :: l.
Proof. cbn. by intros ->. Qed.

Lemma drop_while_none {A} (p : A → bool) l :
  (∀ a, a ∈ l → p a = false) → drop_while p l = l.
Proof. destruct l as [|a l]; [done|]. intros H. apply drop_while_id, H. by left. Qed.

Lemma strip_id s : (∀ c, c ∈ explode s → is_space c = false) → strip s = s.
Proof.
  intros H. unfold strip, rstrip_chars, lstrip_chars. rewrite (drop_while_none _ (explode s)) by done.
  rewrite drop_while_none by (intros c; rewrite elem_of_reverse; apply H).
  by rewrite reverse_involutive, implode_explode.
Qed.

Lemma elem_of_drop_while {A} (p : A → bool) l x : x ∈ drop_while p l → x ∈ l.
Proof.
  destruct (drop_while_suffix p l) as [k Hk]. rewrite Hk at 2. set_solver.
Qed.

(** ** Characters: the classes are disjoint where the code relies on it *)

Lemma code_inj c d : code c = code d → c = d.
Proof.
  unfold code. intros H.
  by rewrite <-(ascii_N_embedding c), <-(ascii_N_embedding d), H.
Qed.

Lemma in_range_spec lo hi c : in_range lo hi c = true ↔ (lo ≤ code c ≤ hi)%N.
Proof. unfold in_range. rewrite andb_true_iff, !N.leb_le. done. Qed.

Lemma code_bound c : (code c < 256)%N.
Proof. apply N_ascii_bounded. Qed.

Lemma lower_char_idemp c : lower_char (lower_char c) = lower_char c.
Proof. by destruct c as [[] [] [] [] [] [] [] []]. Qed.

Lemma lower_idemp s : lower (lower s) = lower s.
Proof.
  unfold lower. rewrite explode_implode, <-list_fmap_compose. f_equal.
  apply list_fmap_ext. intros. apply lower_char_idemp.
Qed.
