(* ===== verification/Hoare.v ===== *)
(** A small program logic for the monad of [Prelude]: what holds of the state when
    code returns and when it raises. *)

From stdpp Require Import base option list relations.
From S2P Require Import Prelude.

Section rules.
Context {S : Type}.

(** From a state with [pre], the code returns with [post] or raises with [fin].
    Code out of fuel has no final state. *)
Definition spec {A} (pre : S → Prop) (m : M S A) (post : A → S → Prop) (fin : S → Prop) : Prop :=
  ∀ s, pre s → match m s with
               | (Ret a, s') => post a s'
               | (Raise _, s') => fin s'
               | (NoFuel, _) => True
               end.

Lemma spec_bind {A B} pre (m : M S A) (k : A → M S B) mid post fin :
  spec pre m mid fin → (∀ a, spec (mid a) (k a) post fin) → spec pre (m ≫= k) post fin.
Proof.
  intros Hm Hk s Hs. specialize (Hm s Hs). unfold mbind, M_bind.
  destruct (m s) as [[a|e|] s']; [|done|done]. by apply Hk.
Qed.

Lemma spec_ret {A} (a : A) (pre : S → Prop) post fin :
  (∀ s, pre s → post a s) → spec pre (mret a) post fin.
Proof. intros H s Hs. by apply H. Qed.

Lemma spec_raise {A} e (pre : S → Prop) (post : A → S → Prop) (fin : S → Prop) :
  (∀ s, pre s → fin s) → spec pre (raise e) post fin.
Proof. intros H s Hs. by apply H. Qed.

Lemma spec_no_fuel {A} pre (post : A → S → Prop) fin : spec pre no_fuel post fin.
Proof. by intros s _. Qed.

Lemma spec_except {A} pre (h : exn → option (M S A)) (m : M S A) post fin mid :
  spec pre m post mid →
  (∀ e, match h e with Some k => spec mid k post fin | None => ∀ s, mid s → fin s end) →
  spec pre (except h m) post fin.
Proof.
  intros Hm Hh s Hs. specialize (Hm s Hs). unfold except.
  destruct (m s) as [[a|e|] s']; [done| |done]. specialize (Hh e). destruct (h e); by apply Hh.
Qed.

Lemma spec_finally {A} pre (f : M S ()) (m : M S A) post fin mid postm :
  spec pre m postm mid →
  (∀ a, spec (postm a) f (λ _, post a) fin) → spec mid f (λ _, fin) fin →
  spec pre (finally f m) post fin.
Proof.
  intros Hm Hr He s Hs. specialize (Hm s Hs). unfold finally.
  destruct (m s) as [[a|e|] s']; [| |done].
  - specialize (Hr a s' Hm). by destruct (f s') as [[]].
  - specialize (He s' Hm). by destruct (f s') as [[]].
Qed.

Lemma spec_weaken {A} (pre pre' : S → Prop) (m : M S A) post post' (fin fin' : S → Prop) :
  spec pre' m post' fin' → (∀ s, pre s → pre' s) → (∀ a s, post' a s → post a s) →
  (∀ s, fin' s → fin s) → spec pre m post fin.
Proof.
  intros Hm Hpre Hpost Hfin s Hs. specialize (Hm s (Hpre s Hs)).
  destruct (m s) as [[a|e|] s']; auto.
Qed.

Lemma spec_match_bool {A} (b : bool) pre (m1 m2 : M S A) post fin :
  spec pre m1 post fin → spec pre m2 post fin → spec pre (if b then m1 else m2) post fin.
Proof. by destruct b. Qed.

Lemma spec_lift {A} (o : outcome A) (pre : S → Prop) post (fin : S → Prop) :
  (∀ a s, o = Ret a → pre s → post a s) → (∀ s, pre s → fin s) → spec pre (lift o) post fin.
Proof. intros H1 H2 s Hs. unfold lift. destruct o; [by apply H1|by apply H2|done]. Qed.

Lemma spec_gets {A} (f : S → A) (pre : S → Prop) post fin :
  (∀ s, pre s → post (f s) s) → spec pre (gets f) post fin.
Proof. intros H s Hs. by apply H. Qed.

(** A loop keeps an invariant that its body keeps. *)
Lemma spec_for_each {A} (l : list A) (f : A → M S ()) inv fin :
  (∀ a, a ∈ l → spec inv (f a) (λ _, inv) fin) → spec inv (for_each l f) (λ _, inv) fin.
Proof.
  induction l as [|a l IH]; intros Hf; cbn [for_each]; [by apply spec_ret|].
  apply spec_bind with (mid := λ _, inv); [apply Hf; by left|]. intros _.
  apply IH. intros b Hb. apply Hf. by right.
Qed.

(** [try: m except Exception: pass] *)
Lemma spec_swallow pre (m : M S ()) (post : S → Prop) fin :
  spec pre m (λ _, post) post → spec pre (except (λ _, Some (mret ())) m) (λ _, post) fin.
Proof. intros Hm. eapply spec_except; [exact Hm|]. intros e. by apply spec_ret. Qed.

(** Reading a result off a specification. *)
Lemma spec_run {A} pre (m : M S A) post fin s r s' :
  spec pre m post fin → pre s → m s = (r, s') →
  match r with Ret a => post a s' | Raise _ => fin s' | NoFuel => True end.
Proof. intros Hm Hs E. specialize (Hm s Hs). rewrite E in Hm. by destruct r. Qed.
End rules.

Section object_rules.
Context {X W : Type}.

Lemma spec_self (pre : X * W → Prop) post fin :
  (∀ s, pre s → post s.1 s) → spec pre self post fin.
Proof. intros H s Hs. by apply H. Qed.

Lemma spec_self_bind {A} (pre : X * W → Prop) (k : X → M (X * W) A) post fin :
  (∀ x, spec (λ s, pre s ∧ s.1 = x) (k x) post fin) → spec pre (self ≫= k) post fin.
Proof. intros H s Hs. by apply (H s.1 s). Qed.

Lemma spec_set_self f (pre : X * W → Prop) post fin :
  (∀ x w, pre (x, w) → post () (f x, w)) → spec pre (set_self f) post fin.
Proof. intros H [x w] Hs. by apply H. Qed.

Lemma spec_world {A} (m : M W A) (pre : X * W → Prop) (post : A → X * W → Prop) fin :
  (∀ x w, pre (x, w) → match m w with
                       | (Ret a, w') => post a (x, w')
                       | (Raise _, w') => fin (x, w')
                       | (NoFuel, _) => True
                       end) →
  spec pre (world m) post fin.
Proof.
  intros H [x w] Hs. specialize (H x w Hs). unfold world. cbn.
  destruct (m w) as [[a|e|] w']; done.
Qed.
End object_rules.

(** ** Specifications that speak of the object only *)

Section object_specs.
Context {X W : Type}.

Definition ospec {A} (pre : X → Prop) (m : M (X * W) A) (post : A → X → Prop) (fin : X → Prop) : Prop :=
  spec (λ s, pre s.1) m (λ a s, post a s.1) (λ s, fin s.1).

Lemma ospec_bind {A B} pre (m : M (X * W) A) (k : A → M (X * W) B) mid post fin :
  ospec pre m mid fin → (∀ a, ospec (mid a) (k a) post fin) → ospec pre (m ≫= k) post fin.
Proof. apply spec_bind. Qed.
Lemma ospec_weaken {A} (pre pre' : X → Prop) (m : M (X * W) A) post post' (fin fin' : X → Prop) :
  ospec pre' m post' fin' → (∀ x, pre x → pre' x) → (∀ a x, post' a x → post a x) → (∀ x, fin' x → fin x) →
  ospec pre m post fin.
Proof. intros Hm Hp Hq Hf. eapply spec_weaken; [exact Hm|..]; cbn; auto. Qed.
Lemma ospec_ret {A} (a : A) (pre : X → Prop) post fin : (∀ x, pre x → post a x) → ospec pre (mret a) post fin.
Proof. intros Ha. apply spec_ret. intros s. apply Ha. Qed.
(** Code of the world does not touch the object. *)
Lemma ospec_world_bind {A B} (pre fin : X → Prop) (m : M W A) (k : A → M (X * W) B) post :
  (∀ x, pre x → fin x) → (∀ a w w', m w = (Ret a, w') → ospec pre (k a) post fin) →
  ospec pre (world m ≫= k) post fin.
Proof.
  intros Hf Hk [x w] Hx. unfold mbind, M_bind, world. cbn. destruct (m w) as [[a|e|] w'] eqn:E; [|by apply Hf|done].
  by apply (Hk a w w' E (x, w')).
Qed.
Lemma ospec_self {A} (pre : X → Prop) (k : X → M (X * W) A) post fin :
  (∀ x, pre x → ospec (λ x', x' = x) (k x) post fin) → ospec pre (self ≫= k) post fin.
Proof. intros Hk s Hs. by apply (Hk s.1 Hs s). Qed.
Lemma ospec_set (f : X → X) (pre post fin : X → Prop) :
  (∀ x, pre x → post (f x)) → ospec pre (set_self f) (λ _, post) fin.
Proof. intros Hf. apply spec_set_self. intros x w. apply Hf. Qed.
Lemma ospec_world {A} (pre fin : X → Prop) (m : M W A) : (∀ x, pre x → fin x) → ospec pre (world m) (λ _, pre) fin.
Proof. intros Hf. apply spec_world. intros x w Hx. destruct (m w) as [[]]; auto. Qed.
Lemma ospec_except {A} pre (h : exn → option (M (X * W) A)) (m : M (X * W) A) post fin mid :
  ospec pre m post mid →
  (∀ e, match h e with Some k => ospec mid k post fin | None => ∀ x, mid x → fin x end) →
  ospec pre (except h m) post fin.
Proof.
  intros Hm Hh. eapply spec_except; [exact Hm|]. intros e. specialize (Hh e). destruct (h e); [exact Hh|].
  intros s. apply Hh.
Qed.
Lemma ospec_when (b : bool) (pre fin : X → Prop) (m : M W ()) :
  (∀ x, pre x → fin x) → ospec pre (if b then world m else mret ()) (λ _, pre) fin.
Proof. intros Hf. destruct b; [by apply ospec_world|by apply ospec_ret]. Qed.
End object_specs.

(** ** Predicates that code cannot falsify, however it ends *)

Definition stable {S A} (P : S → Prop) (m : M S A) : Prop := ∀ s, P s → P (m s).2.

Section stable.
Context {S : Type} (P : S → Prop).

Lemma stable_bind {A B} (m : M S A) (k : A → M S B) :
  stable P m → (∀ a, stable P (k a)) → stable P (m ≫= k).
Proof.
  intros Hm Hk s Hs. specialize (Hm s Hs). unfold mbind, M_bind.
  destruct (m s) as [[a|e|] s']; [by apply Hk|done|done].
Qed.
Lemma stable_except {A} (h : exn → option (M S A)) m :
  stable P m → (∀ e k, h e = Some k → stable P k) → stable P (except h m).
Proof.
  intros Hm Hh s Hs. specialize (Hm s Hs). unfold except.
  destruct (m s) as [[a|e|] s']; [done| |done]. destruct (h e) eqn:E; [by eapply Hh|done].
Qed.
Lemma stable_ret {A} (a : A) : stable P (mret a).
Proof. by intros s Hs. Qed.
Lemma stable_raise {A} e : stable P (raise e : M S A).
Proof. by intros s Hs. Qed.
Lemma stable_no_fuel {A} : stable P (no_fuel : M S A).
Proof. by intros s Hs. Qed.
Lemma stable_lift {A} (o : outcome A) : stable P (lift o).
Proof. by intros s Hs. Qed.
Lemma stable_gets {A} (f : S → A) : stable P (gets f).
Proof. by intros s Hs. Qed.
Lemma stable_for_each {A} (l : list A) (f : A → M S ()) :
  (∀ a, stable P (f a)) → stable P (for_each l f).
Proof.
  intros Hf. induction l as [|a l IH]; cbn [for_each]; [apply stable_ret|by apply stable_bind].
Qed.
End stable.

Lemma stable_self {X W} (P : X * W → Prop) : stable P self.
Proof. by intros s Hs. Qed.
Lemma stable_set_self {X W} (P : W → Prop) (f : X → X) : stable (λ s, P s.2) (set_self f).
Proof. by intros [x w] Hs. Qed.
Lemma stable_world {X W A} (P : W → Prop) (m : M W A) :
  stable P m → stable (λ s : X * W, P s.2) (world m).
Proof. intros Hm [x w] Hs. specialize (Hm w Hs). unfold world. cbn in *. by destruct (m w). Qed.

Lemma stable_object {X W A} (P : X → Prop) (m : M W A) : stable (λ s : X * W, P s.1) (world m).
Proof. intros [x w] Hs. unfold world. cbn in *. by destruct (m w). Qed.
Lemma stable_update {X W} (P : X → Prop) (f : X → X) :
  (∀ x, P x → P (f x)) → stable (λ s : X * W, P s.1) (set_self f).
Proof. intros Hf [x w] Hs. by apply Hf. Qed.
Lemma stable_and {S A} (P Q : S → Prop) (m : M S A) : stable P m → stable Q m → stable (λ s, P s ∧ Q s) m.
Proof. intros HP HQ s [Hp Hq]. auto. Qed.
Lemma stable_run {S A} (P : S → Prop) (m : M S A) s r s' : stable P m → P s → m s = (r, s') → P s'.
Proof. intros Hm Hs E. specialize (Hm s Hs). by rewrite E in Hm. Qed.

(** A specification and a predicate that cannot be falsified. *)
Lemma spec_stable {S A} (P : S → Prop) pre (m : M S A) post fin :
  spec pre m post fin → stable P m →
  spec (λ s, pre s ∧ P s) m (λ a s, post a s ∧ P s) (λ s, fin s ∧ P s).
Proof.
  intros Hm HP s [Hs Hp]. specialize (Hm s Hs). specialize (HP s Hp).
  by destruct (m s) as [[a|e|] s'].
Qed.

Create HintDb stable.
#[export] Hint Resolve stable_ret stable_raise stable_no_fuel stable_lift stable_gets stable_self
  stable_set_self stable_world : stable.
Ltac stable := repeat first
  [ solve [eauto with stable]
  | apply stable_bind; [|intros]
  | apply stable_except; [|intros ? ? ?; repeat case_match; simplify_eq]
  | apply stable_for_each; intros
  | apply stable_world
  | match goal with |- stable _ (match ?x with _ => _ end) => destruct x end ].

(** ** Running step by step *)

Section stepping.
Context {S : Type}.

Lemma bind_step {A B} (m : M S A) (k : A → M S B) s a s' : m s = (Ret a, s') → (m ≫= k) s = k a s'.
Proof. unfold mbind, M_bind. by intros ->. Qed.

Lemma bind_raise {A B} (m : M S A) (k : A → M S B) s e s' : m s = (Raise e, s') → (m ≫= k) s = (Raise e, s').
Proof. unfold mbind, M_bind. by intros ->. Qed.

Lemma except_step {A} (h : exn → option (M S A)) (m : M S A) s a s' : m s = (Ret a, s') → except h m s = (Ret a, s').
Proof. unfold except. by intros ->. Qed.

Lemma except_caught {A} (h : exn → option (M S A)) (m : M S A) s e k s' :
  m s = (Raise e, s') → h e = Some k → except h m s = k s'.
Proof. unfold except. by intros -> ->. Qed.
End stepping.

(** ** Reading a run backwards *)

Section inversion.
Context {S : Type}.

Lemma bind_ret_inv {A B} (m : M S A) (k : A → M S B) s b s' :
  (m ≫= k) s = (Ret b, s') → ∃ a s1, m s = (Ret a, s1) ∧ k a s1 = (Ret b, s').
Proof. unfold mbind, M_bind. destruct (m s) as [[a|e|] s1]; [eauto|done|done]. Qed.

Lemma except_ret_inv {A} (h : exn → option (M S A)) (m : M S A) s b s' :
  except h m s = (Ret b, s') →
  m s = (Ret b, s') ∨ ∃ e k s1, m s = (Raise e, s1) ∧ h e = Some k ∧ k s1 = (Ret b, s').
Proof.
  unfold except. destruct (m s) as [[a|e|] s1]; [by left| |done].
  destruct (h e) as [k|] eqn:E; [|done]. right. eauto 8.
Qed.

Lemma lift_ret_inv {A} (o : outcome A) (s : S) b s' : lift o s = (Ret b, s') → o = Ret b ∧ s' = s.
Proof. unfold lift. by intros [= -> ->]. Qed.

Lemma mret_inv {A} (a : A) (s : S) b s' : (mret a : M S A) s = (Ret b, s') → a = b ∧ s' = s.
Proof. by intros [= -> ->]. Qed.
End inversion.

Lemma outcome_bind_inv {A B} (o : outcome A) (k : A → outcome B) b :
  o ≫= k = Ret b → ∃ a, o = Ret a ∧ k a = Ret b.
Proof. destruct o; [eauto|done|done]. Qed.

Lemma world_run_inv {X W A} (m : M W A) (s : X * W) r s' :
  world m s = (r, s') → m s.2 = (r, s'.2) ∧ s'.1 = s.1.
Proof. destruct s as [x w]. unfold world. cbn. destruct (m w). by intros [= <- <-]. Qed.

(** Split a run that returned into the runs of its steps. *)
Ltac run_inv := repeat match goal with
  | H : (_ ≫= _) _ = (Ret _, _) |- _ =>
      let a := fresh "a" in let s := fresh "s" in let H1 := fresh "Hrun" in
      apply bind_ret_inv in H as (a & s & H1 & H)
  | H : _ ≫= _ = Ret _ |- _ =>
      let a := fresh "a" in let H1 := fresh "Hret" in apply outcome_bind_inv in H as (a & H1 & H)
  | H : lift _ _ = (Ret _, _) |- _ =>
      let H1 := fresh "Hs" in apply lift_ret_inv in H as [H H1]; subst
  | H : mret _ _ = (Ret _, _) |- _ => apply mret_inv in H as [<- H]; subst
  | H : self _ = (Ret _, _) |- _ => injection H as <- <-
  | H : raise _ _ = (Ret _, _) |- _ => discriminate H
  end.

(** ** Code that comes to an end *)

(** The run has a result, and the states before and after it are related. *)
Definition ends {S A} (R : relation S) (m : M S A) : Prop :=
  ∀ s, (m s).1 ≠ NoFuel ∧ R s (m s).2.

(** A clock of the state does not go back. *)
Definition on_clock {S T} (le : relation T) (clock : S → T) : relation S := λ s s', le (clock s) (clock s').
(** The world next to an object is related. *)
Definition on_world {X W} (R : relation W) : relation (X * W) := λ s s', R s.2 s'.2.

#[global] Instance on_clock_preorder {S T} (le : relation T) `{!PreOrder le} (clock : S → T) :
  PreOrder (on_clock le clock).
Proof. split; unfold on_clock; [intros ?; reflexivity|intros ???; apply transitivity]. Qed.
#[global] Instance on_world_preorder {X W} (R : relation W) `{!PreOrder R} : PreOrder (on_world (X := X) R).
Proof. split; unfold on_world; [intros ?; reflexivity|intros ???; apply transitivity]. Qed.

Section ends.
Context {S : Type} (R : relation S) `{!PreOrder R}.

Lemma ends_ret {A} (a : A) : ends R (mret a).
Proof. intros s. split; [done|reflexivity]. Qed.
Lemma ends_raise {A} e : ends R (raise e : M S A).
Proof. intros s. split; [done|reflexivity]. Qed.
Lemma ends_lift {A} (o : outcome A) : o ≠ NoFuel → ends R (lift o).
Proof. intros Ho s. split; [done|reflexivity]. Qed.
Lemma ends_bind {A B} (m : M S A) (k : A → M S B) : ends R m → (∀ a, ends R (k a)) → ends R (m ≫= k).
Proof.
  intros Hm Hk s. destruct (Hm s) as [H1 H2]. unfold mbind, M_bind.
  destruct (m s) as [[a|e|] s1]; cbn in *; [|done|done].
  destruct (Hk a s1) as [H3 H4]. split; [done|by etrans].
Qed.
Lemma ends_except {A} h (m : M S A) : ends R m → (∀ e k, h e = Some k → ends R k) → ends R (except h m).
Proof.
  intros Hm Hh s. destruct (Hm s) as [H1 H2]. unfold except.
  destruct (m s) as [[a|e|] s1]; cbn in *; [done| |done].
  destruct (h e) as [k|] eqn:E; [|done]. destruct (Hh e k E s1) as [H3 H4]. split; [done|by etrans].
Qed.
End ends.

(** At one state; the continuation knows what the run returned so far. *)
Definition ends_at {S A} (R : relation S) (m : M S A) (s : S) : Prop := (m s).1 ≠ NoFuel ∧ R s (m s).2.

Section ends_at.
Context {S : Type} (R : relation S) `{!PreOrder R}.

Lemma ends_at_ret {A} (a : A) s : ends_at R (mret a) s.
Proof. split; [done|reflexivity]. Qed.
Lemma ends_at_bind {A B} (m : M S A) (k : A → M S B) s :
  ends_at R m s → (∀ a s', m s = (Ret a, s') → ends_at R (k a) s') → ends_at R (m ≫= k) s.
Proof.
  intros [H1 H2] Hk. unfold ends_at, mbind, M_bind. destruct (m s) as [[a|e|] s1]; cbn in *; [|done|done].
  destruct (Hk a s1 eq_refl) as [H3 H4]. split; [done|by etrans].
Qed.
Lemma ends_at_except {A} (h : exn → option (M S A)) m s :
  ends_at R m s → (∀ e k s', m s = (Raise e, s') → h e = Some k → ends_at R k s') → ends_at R (except h m) s.
Proof.
  intros [H1 H2] Hh. unfold ends_at, except. destruct (m s) as [[a|e|] s1]; cbn in *; [done| |done].
  destruct (h e) as [k|] eqn:E; [|done]. destruct (Hh e k s1 eq_refl E) as [H3 H4]. split; [done|by etrans].
Qed.
Lemma ends_at_finally {A} (fin : M S ()) (m : M S A) s :
  ends_at R m s → (∀ s', ends_at R fin s') → ends_at R (finally fin m) s.
Proof.
  intros [H1 H2] Hf. unfold ends_at, finally. destruct (m s) as [r s'] eqn:E. destruct (Hf s') as [H3 H4]. cbn in *.
  destruct r, (fin s') as [[]]; cbn in *; (split; [done|]) || done; by etrans.
Qed.
End ends_at.

Section ends_world.
Context {X W : Type} (R : relation W) `{!PreOrder R}.

Lemma ends_self : ends (on_world R) (self (X := X)).
Proof. intros s. split; [done|cbn; reflexivity]. Qed.
Lemma ends_set_self (f : X → X) : ends (on_world R) (set_self f).
Proof. intros [x w]. split; [done|]. unfold on_world. cbn. reflexivity. Qed.
Lemma ends_world {A} (m : M W A) : ends R m → ends (on_world R) (world (X := X) m).
Proof. intros Hm [x w]. specialize (Hm w). unfold world. cbn. by destruct (m w). Qed.
End ends_world.

Create HintDb ends.
#[export] Hint Resolve ends_ret ends_raise ends_lift ends_self ends_set_self ends_world : ends.
Ltac ends := repeat first
  [ solve [eauto with ends typeclass_instances]
  | apply ends_bind; [apply _| |intros]
  | apply ends_except; [apply _| |intros ? ? ?; repeat case_match; simplify_eq]
  | apply ends_world
  | match goal with |- ends _ (match ?x with _ => _ end) => destruct x end ].

(** ** Relating the states before and after, at one state

    [moves R m s]: wherever the run of [m] from [s] ends, the state there is related
    to [s]. What the run returned so far is known to the continuation. *)

Definition moves {S A} (R : relation S) (m : M S A) (s : S) : Prop := R s (m s).2.

Section moves.
Context {S : Type} (R : relation S) `{!PreOrder R}.

Lemma moves_bind {A B} (m : M S A) (k : A → M S B) s :
  moves R m s → (∀ a s', m s = (Ret a, s') → moves R (k a) s') → moves R (m ≫= k) s.
Proof.
  unfold moves, mbind, M_bind. intros Hm Hk. destruct (m s) as [[a|e|] s']; [|done|done].
  etrans; [exact Hm|]. by apply Hk.
Qed.
Lemma moves_except {A} (h : exn → option (M S A)) m s :
  moves R m s → (∀ e k s', m s = (Raise e, s') → h e = Some k → moves R k s') → moves R (except h m) s.
Proof.
  unfold moves, except. intros Hm Hh. destruct (m s) as [[a|e|] s']; [done| |done].
  destruct (h e) as [k|] eqn:E; [|done]. etrans; [exact Hm|]. by eapply Hh.
Qed.
Lemma moves_finally {A} (fin : M S ()) (m : M S A) s :
  moves R m s → (∀ s', moves R fin s') → moves R (finally fin m) s.
Proof.
  unfold moves, finally. intros Hm Hf. destruct (m s) as [r s'] eqn:E. cbn in *. specialize (Hf s').
  destruct r, (fin s') as [[]]; cbn in *; done || by etrans.
Qed.
Lemma moves_ret {A} (a : A) s : moves R (mret a) s.
Proof. by unfold moves. Qed.
Lemma moves_raise {A} e s : moves R (raise e : M S A) s.
Proof. by unfold moves. Qed.
Lemma moves_no_fuel {A} s : moves R (no_fuel : M S A) s.
Proof. by unfold moves. Qed.
Lemma moves_lift {A} (o : outcome A) s : moves R (lift o) s.
Proof. by unfold moves. Qed.
Lemma moves_gets {A} (f : S → A) s : moves R (gets f) s.
Proof. by unfold moves. Qed.
Lemma moves_lift_bind {A B} (o : outcome A) (k : A → M S B) s :
  (∀ a, o = Ret a → moves R (k a) s) → moves R (lift o ≫= k) s.
Proof. intros Hk. apply moves_bind; [apply moves_lift|]. intros a s' E. unfold lift in E. simplify_eq. by apply Hk. Qed.
Lemma moves_for_each {A} (l : list A) (f : A → M S ()) s :
  (∀ a s', moves R (f a) s') → moves R (for_each l f) s.
Proof.
  intros Hf. revert s. induction l as [|a l IH]; intros s; cbn [for_each]; [apply moves_ret|].
  apply moves_bind; [apply Hf|]. intros ? ? _. apply IH.
Qed.
End moves.

Section moves_world.
Context {X W : Type}.

Lemma moves_self_bind {A} (R : relation (X * W)) (k : X → M (X * W) A) s :
  moves R (k s.1) s → moves R (self ≫= k) s.
Proof. done. Qed.
Lemma moves_self (R : relation (X * W)) `{!PreOrder R} s : moves R self s.
Proof. by unfold moves. Qed.
Lemma moves_world (R : relation W) {A} (m : M W A) s :
  moves R m s.2 → moves (on_world R) (world (X := X) m) s.
Proof. unfold moves, on_world, world. destruct s as [x w]. cbn. by destruct (m w). Qed.
Lemma moves_set_self (R : relation W) `{!Reflexive R} (f : X → X) s : moves (on_world R) (set_self f) s.
Proof. unfold moves, on_world. by destruct s. Qed.
End moves_world.

Create HintDb moves.
#[export] Hint Resolve moves_ret moves_raise moves_no_fuel moves_lift moves_gets moves_self moves_set_self : moves.
Ltac moves_with t := repeat first
  [ t ()
  | solve [eauto with moves typeclass_instances]
  | simple apply moves_self_bind
  | simple apply moves_lift_bind; [apply _|intros ? ?]
  | simple apply moves_bind; [apply _| |intros ? ? ?]
  | simple apply moves_except; [apply _| |intros ? ? ? ? ?; repeat case_match; simplify_eq]
  | simple apply moves_finally; [apply _| |intros ?]
  | simple apply moves_for_each; [apply _|intros ? ?]
  | simple apply moves_world
  | match goal with |- moves _ (match ?x with _ => _ end) _ => destruct x eqn:? end ].
Ltac moves := moves_with ltac:(fun _ => fail).

(** ** What a call answered during a run

    [call] relates the states before and after each call of an interface. The call
    [m] ended with [o] at a state between the two. *)
Section during.
Context {S : Type} (call : relation S).

Definition during {A} (m : M S A) (o : outcome A) (s s' : S) : Prop :=
  ∃ s1 s2, rtc call s s1 ∧ m s1 = (o, s2) ∧ rtc call s2 s'.

Lemma during_run {A} (m : M S A) o s s' : m s = (o, s') → during m o s s'.
Proof. intros E. by exists s, s'. Qed.

Lemma during_between {A} (m : M S A) o s0 s s' s3 :
  rtc call s0 s → rtc call s' s3 → during m o s s' → during m o s0 s3.
Proof. intros H0 H3 (s1 & s2 & H1 & E & H2). exists s1, s2. split; [by etrans|]. split; [done|by etrans]. Qed.
End during.
