(* ===== verification/Float.v ===== *)
(** Python's [float]: IEEE 754 binary64 arithmetic with rounding.

    A finite float is the rational number it denotes, in lowest terms; the sign
    of a zero is not kept, since no modelled code observes it (division by zero
    raises). Every operation computes the exact result and rounds it once, to
    the nearest multiple of the unit in the last place, ties to even:
    [round64]. The accuracy lemmas give the standard error model, relative
    error [2^-53] above an underflow threshold of [2^-1075]. *)

From Stdlib Require Import Ascii String ZArith QArith Qabs Qround Qpower Lqa Lia.
From stdpp Require Import base option list strings.
From S2P Require Import Prelude.

#[local] Open Scope Q_scope.

Inductive pyfloat := PFin (q : Q) | PInf | PNegInf | PNaN.

Definition Qlt_bool (a b : Q) : bool := negb (Qle_bool b a).

(** ** Rounding *)

(** The nearest integer, ties to even. *)
Definition round_half_even (x : Q) : Z :=
  let f := Qfloor x in
  match (x - inject_Z f ?= 1 # 2)%Q with
  | Lt => f
  | Gt => (f + 1)%Z
  | Eq => if Z.even f then f else (f + 1)%Z
  end.

Definition pow2 (e : Z) : Q := Qpower 2 e.

(** The binary exponent of a positive number: [pow2 e <= q < pow2 (e + 1)]. *)
Definition exponent (q : Q) : Z :=
  let e := (Z.log2 (Qnum q) - Z.log2 (QDen q))%Z in
  if Qle_bool (pow2 e) q then e else (e - 1)%Z.

(** The unit in the last place of the floats around [q]. *)
Definition ulp_exponent (q : Q) : Z := Z.max (exponent (Qabs q) - 52) (-1074).

(** The nearest number of that grid. *)
Definition nearest (q : Q) : Q :=
  let u := pow2 (ulp_exponent q) in inject_Z (round_half_even (q / u)) * u.

Definition round64 (q : Q) : pyfloat :=
  if Qeq_bool q 0 then PFin 0
  else
    let v := nearest q in
    if Qle_bool (pow2 1024) v then PInf
    else if Qle_bool v (- pow2 1024) then PNegInf
    else PFin (Qred v).

(** ** Operations *)

Definition fneg (a : pyfloat) : pyfloat :=
  match a with
  | PFin q => PFin (Qred (- q)) | PInf => PNegInf | PNegInf => PInf | PNaN => PNaN
  end.

Definition fabs (a : pyfloat) : pyfloat :=
  match a with PFin q => PFin (Qred (Qabs q)) | PNaN => PNaN | _ => PInf end.

Definition fadd (a b : pyfloat) : pyfloat :=
  match a, b with
  | PFin p, PFin q => round64 (p + q)
  | PNaN, _ | _, PNaN | PInf, PNegInf | PNegInf, PInf => PNaN
  | PInf, _ | _, PInf => PInf
  | PNegInf, _ | _, PNegInf => PNegInf
  end.

Definition fsub (a b : pyfloat) : pyfloat := fadd a (fneg b).

(** The infinity with the sign of a product; [PNaN] for zero. *)
Definition inf_times (q : Q) (neg : bool) : pyfloat :=
  match q ?= 0 with
  | Eq => PNaN
  | Lt => if neg then PInf else PNegInf
  | Gt => if neg then PNegInf else PInf
  end.

Definition fmul (a b : pyfloat) : pyfloat :=
  match a, b with
  | PFin p, PFin q => round64 (p * q)
  | PNaN, _ | _, PNaN => PNaN
  | PFin p, PInf | PInf, PFin p => inf_times p false
  | PFin p, PNegInf | PNegInf, PFin p => inf_times p true
  | PInf, PInf | PNegInf, PNegInf => PInf
  | PInf, PNegInf | PNegInf, PInf => PNegInf
  end.

(** [a / b]: a zero divisor raises. *)
Definition fdiv (a b : pyfloat) : outcome pyfloat :=
  match a, b with
  | PFin p, PFin q => if Qeq_bool q 0 then Raise ZeroDivisionError else Ret (round64 (p / q))
  | PInf, PFin q =>
      if Qeq_bool q 0 then Raise ZeroDivisionError
      else Ret (if Qle_bool 0 q then PInf else PNegInf)
  | PNegInf, PFin q =>
      if Qeq_bool q 0 then Raise ZeroDivisionError
      else Ret (if Qle_bool 0 q then PNegInf else PInf)
  | PNaN, PFin q => if Qeq_bool q 0 then Raise ZeroDivisionError else Ret PNaN
  | PFin _, PInf | PFin _, PNegInf => Ret (PFin 0)
  | _, _ => Ret PNaN
  end.

(** [float(z)] and [a / b] on integers: correctly rounded, [OverflowError]
    beyond the range. *)
Definition float_of_int (z : Z) : outcome pyfloat :=
  match round64 (inject_Z z) with
  | PFin q => Ret (PFin q)
  | _ => Raise OverflowError
  end.

Definition int_truediv (a b : Z) : outcome pyfloat :=
  if (b =? 0)%Z then Raise ZeroDivisionError
  else match round64 (inject_Z a / inject_Z b) with
       | PFin q => Ret (PFin q)
       | _ => Raise OverflowError
       end.

(** Comparisons: nothing compares with NaN. *)
Definition flt (a b : pyfloat) : bool :=
  match a, b with
  | PFin p, PFin q => Qlt_bool p q
  | PFin _, PInf | PNegInf, PFin _ | PNegInf, PInf => true
  | _, _ => false
  end.

Definition feq (a b : pyfloat) : bool :=
  match a, b with
  | PFin p, PFin q => Qeq_bool p q
  | PInf, PInf | PNegInf, PNegInf => true
  | _, _ => false
  end.

Definition fle (a b : pyfloat) : bool := flt a b || feq a b.

(** [max(a, b)] and [min(a, b)]: the first unless the second is better. *)
Definition fmax (a b : pyfloat) : pyfloat := if flt a b then b else a.
Definition fmin (a b : pyfloat) : pyfloat := if flt b a then b else a.

(** [math.isfinite] *)
Definition isfinite (a : pyfloat) : bool := match a with PFin _ => true | _ => false end.

(** [bool(a)]: everything but zero. *)
Definition ftruthy (a : pyfloat) : bool :=
  match a with PFin q => negb (Qeq_bool q 0) | _ => true end.

(** A conversion to [int] of a float that is no number. *)
Definition to_int (f : Q → Z) (a : pyfloat) : outcome Z :=
  match a with
  | PFin q => Ret (f q)
  | PNaN => Raise ValueError
  | _ => Raise OverflowError
  end.

(** [math.floor(a)], [round(a)] and [int(a)] *)
Definition ffloor : pyfloat → outcome Z := to_int Qfloor.
Definition fround : pyfloat → outcome Z := to_int round_half_even.
Definition ftrunc : pyfloat → outcome Z := to_int (λ q, Z.quot (Qnum q) (QDen q)).

(** ** [sum] of a sequence of floats

    Left to right in Python 3.11; since 3.12 with a running compensation
    (Neumaier). The first addition, to the integer 0, is exact. *)

Definition sum_left (l : list pyfloat) : pyfloat := foldl fadd (PFin 0) l.

Definition neumaier_step (acc : pyfloat * pyfloat) (x : pyfloat) : pyfloat * pyfloat :=
  let '(s, c) := acc in
  let t := fadd s x in
  (t, fadd c (if fle (fabs x) (fabs s) then fadd (fsub s t) x else fadd (fsub x t) s)).

Definition sum_compensated (l : list pyfloat) : pyfloat :=
  let '(s, c) := foldl neumaier_step (PFin 0, PFin 0) l in
  if ftruthy c && isfinite c then fadd s c else s.

(** ** [float(s)] of a text *)

(** Digits with single underscores between them: the value, their number and
    the rest of the text. *)
Fixpoint float_digits (acc : Z) (n : nat) (l : list ascii) : Z * nat * list ascii :=
  match l with
  | c :: l' =>
      if is_digit c then float_digits (acc * 10 + Z.of_N (code c - 48)) (S n) l'
      else match l' with
           | d :: _ =>
               if bool_decide (c = "_"%char) && is_digit d && (0 <? n)%nat
               then float_digits acc n l' else (acc, n, l)
           | [] => (acc, n, l)
           end
  | [] => (acc, n, l)
  end.

Definition sign_chars (l : list ascii) : bool * list ascii :=
  match l with
  | "-"%char :: l' => (true, l')
  | "+"%char :: l' => (false, l')
  | _ => (false, l)
  end.

(** An unsigned decimal number as a rational. *)
Definition decimal (l : list ascii) : option Q :=
  let '(i, ni, l1) := float_digits 0 0 l in
  let '(m, nf, l2) :=
    match l1 with
    | "."%char :: l1' =>
        let '(f, nf, l2) := float_digits 0 0 l1' in ((i * 10 ^ Z.of_nat nf + f)%Z, nf, l2)
    | _ => (i, O, l1)
    end in
  if ((ni + nf)%nat =? 0)%nat then None
  else
    let scaled e := inject_Z m * Qpower 10 (e - Z.of_nat nf) in
    match l2 with
    | [] => Some (scaled 0%Z)
    | c :: l3 =>
        if bool_decide (c = "e"%char ∨ c = "E"%char) then
          let '(neg, l4) := sign_chars l3 in
          let '(e, ne, l5) := float_digits 0 0 l4 in
          match ne, l5 with
          | S _, [] => Some (scaled (if neg : bool then - e else e)%Z)
          | _, _ => None
          end
        else None
    end.

Definition py_float (s : string) : outcome pyfloat :=
  let '(neg, l) := sign_chars (explode (lower (strip s))) in
  let signed f := if neg : bool then fneg f else f in
  if str_mem (implode l) ["inf"; "infinity"] then Ret (signed PInf)
  else if (implode l =? "nan")%string then Ret PNaN
  else match decimal l with
       | Some q => Ret (signed (round64 q))
       | None => Raise ValueError
       end.

(** *** Numbers with a unit *)

(** [s.endswith(suffix)], and what is before the suffix *)
Definition before_suffix (suffix s : string) : option string :=
  let n := (len s - len suffix)%nat in
  if bool_decide (len suffix ≤ len s)%nat && bool_decide (drop n (explode s) = explode suffix)
  then Some (implode (take n (explode s))) else None.

Definition scaled (s : string) (mult : Z) : outcome Z :=
  f ← py_float s; ftrunc (fmul f (PFin (inject_Z mult))).

(** ** Accuracy *)

Lemma pow2_pos e : 0 < pow2 e.
Proof. by apply Qpower_0_lt. Qed.

Lemma pow2_plus a b : pow2 (a + b) == pow2 a * pow2 b.
Proof. by apply Qpower_plus. Qed.

Lemma pow2_le a b : (a ≤ b)%Z → pow2 a <= pow2 b.
Proof. intros H. by apply Qpower_le_compat_l. Qed.

Lemma pow2_lt a b : (a < b)%Z → pow2 a < pow2 b.
Proof. intros H. by apply Qpower_lt_compat_l. Qed.

Lemma pow2_inject n : (0 ≤ n)%Z → pow2 n == inject_Z (2 ^ n).
Proof. intros H. unfold pow2. by rewrite (Zpower_Qpower 2 n H). Qed.

Lemma round_half_even_err x : Qabs (inject_Z (round_half_even x) - x) <= 1 # 2.
Proof.
  apply Qabs_Qle_condition. unfold round_half_even.
  pose proof (Qfloor_le x). pose proof (Qlt_floor x) as Hlt.
  rewrite inject_Z_plus in Hlt. change (inject_Z 1) with 1 in Hlt.
  destruct (x - inject_Z (Qfloor x) ?= 1 # 2) eqn:E.
  - apply Qeq_alt in E. destruct (Z.even _); rewrite ?inject_Z_plus; change (inject_Z 1) with 1; lra.
  - apply Qlt_alt in E. lra.
  - apply Qgt_alt in E. rewrite inject_Z_plus. change (inject_Z 1) with 1. lra.
Qed.

Lemma inject_Z_lt_inv a b : inject_Z a < inject_Z b → (a < b)%Z.
Proof. intros H. by rewrite Zlt_Qlt. Qed.
Lemma inject_Z_le_inv a b : inject_Z a <= inject_Z b → (a ≤ b)%Z.
Proof. intros H. by rewrite Zle_Qle. Qed.

Lemma round_half_even_int x z : x == inject_Z z → round_half_even x = z.
Proof.
  intros Hx. unfold round_half_even. rewrite (Qfloor_comp _ _ Hx), Qfloor_Z.
  assert (x - inject_Z z == 0) as H by lra.
  destruct (x - inject_Z z ?= 1 # 2) eqn:E; [|done|].
  - apply Qeq_alt in E. lra.
  - apply Qgt_alt in E. lra.
Qed.

(** Rounding to integers is monotonic. *)
Lemma round_half_even_mono x y : x <= y → (round_half_even x ≤ round_half_even y)%Z.
Proof.
  intros Hxy. pose proof (Qfloor_resp_le x y Hxy) as Hf.
  assert (round_half_even x ≤ Qfloor x + 1)%Z as Hx.
  { unfold round_half_even. destruct (_ ?= _); [destruct (Z.even _)|..]; lia. }
  assert (Qfloor y ≤ round_half_even y)%Z as Hy.
  { unfold round_half_even. destruct (_ ?= _); [destruct (Z.even _)|..]; lia. }
  destruct (decide (Qfloor x = Qfloor y)) as [E|]; [|lia].
  unfold round_half_even in *. rewrite E in *.
  destruct (x - _ ?= _) eqn:E1; destruct (y - _ ?= _) eqn:E2; try destruct (Z.even _); try lia;
    repeat match goal with
    | H : (_ ?= _)%Q = Eq |- _ => apply Qeq_alt in H
    | H : (_ ?= _)%Q = Lt |- _ => apply Qlt_alt in H
    | H : (_ ?= _)%Q = Gt |- _ => apply Qgt_alt in H
    end; exfalso; lra.
Qed.

Lemma exponent_spec q : 0 < q → pow2 (exponent q) <= q /\ q < pow2 (exponent q + 1).
Proof.
  intros Hq. assert (0 < Qnum q)%Z as Hn by (unfold Qlt in Hq; cbn in Hq; lia).
  destruct (Z.log2_spec (Qnum q) Hn) as [Hn1 Hn2].
  destruct (Z.log2_spec (QDen q) eq_refl) as [Hd1 Hd2].
  set (a := Z.log2 (Qnum q)) in *. set (b := Z.log2 (QDen q)) in *.
  assert (0 ≤ a)%Z by apply Z.log2_nonneg. assert (0 ≤ b)%Z by apply Z.log2_nonneg.
  assert (q * inject_Z (QDen q) == inject_Z (Qnum q)) as Hval.
  { destruct q as [n d]. unfold Qeq, inject_Z. cbn. lia. }
  rewrite Zle_Qle, <-pow2_inject in Hn1, Hd1 by done.
  rewrite Zlt_Qlt, <-pow2_inject in Hn2, Hd2 by lia.
  assert (q < pow2 (a - b + 1)) as Hub.
  { assert (pow2 (a - b + 1) * pow2 b == pow2 (Z.succ a)) as E
      by (rewrite <-pow2_plus; f_equiv; lia).
    apply (Qmult_lt_r _ _ (pow2 b)); [apply pow2_pos|]. rewrite E. nra. }
  assert (pow2 (a - b - 1) < q) as Hlb.
  { assert (pow2 (a - b - 1) * pow2 (Z.succ b) == pow2 a) as E
      by (rewrite <-pow2_plus; f_equiv; lia).
    apply (Qmult_lt_r _ _ (inject_Z (QDen q))); [change 0 with (inject_Z 0); by rewrite <-Zlt_Qlt|].
    pose proof (pow2_pos (a - b - 1)). nra. }
  unfold exponent. fold a b. destruct (Qle_bool (pow2 (a - b)) q) eqn:E.
  - by apply Qle_bool_iff in E.
  - apply not_true_iff_false in E. rewrite Qle_bool_iff in E. split; [lra|].
    replace (a - b - 1 + 1)%Z with (a - b)%Z by lia. lra.
Qed.

(** The standard error model: relative error above the underflow threshold. *)
Definition unit_roundoff : Q := pow2 (-53).
Definition underflow : Q := pow2 (-1075).

Lemma Qabs_pos_neq q : ~ q == 0 → 0 < Qabs q.
Proof. intros H. apply Qabs_case; intros ?; lra. Qed.

Lemma nearest_err q : ~ q == 0 → Qabs (nearest q - q) <= unit_roundoff * Qabs q + underflow.
Proof.
  intros E0. unfold nearest. set (u := pow2 (ulp_exponent q)).
  set (m := round_half_even (q / u)). assert (0 < u) as Hu by apply pow2_pos.
  assert (Qabs (inject_Z m * u - q) <= (1 # 2) * u) as Herr.
  { pose proof (round_half_even_err (q / u)) as Hr. fold m in Hr.
    assert (inject_Z m * u - q == (inject_Z m - q / u) * u) as -> by (field; lra).
    rewrite Qabs_Qmult, (Qabs_pos u) by lra. apply Qmult_le_compat_r; [done|lra]. }
  enough ((1 # 2) * u <= unit_roundoff * Qabs q + underflow) by lra.
  destruct (exponent_spec (Qabs q) (Qabs_pos_neq q E0)) as [He _].
  assert (∀ e, (1 # 2) * pow2 e == pow2 (e - 1)) as Hhalf.
  { intros e. change (1 # 2) with (pow2 (-1)). rewrite <-pow2_plus. f_equiv. lia. }
  subst u. unfold ulp_exponent. rewrite Hhalf.
  destruct (Z.max_spec (exponent (Qabs q) - 52) (-1074)) as [[_ ->]|[_ ->]].
  - change (-1074 - 1)%Z with (-1075)%Z. unfold underflow, unit_roundoff.
    pose proof (pow2_pos (-53)). pose proof (Qabs_nonneg q). nra.
  - assert (pow2 (exponent (Qabs q) - 52 - 1) == unit_roundoff * pow2 (exponent (Qabs q))) as ->.
    { unfold unit_roundoff. rewrite <-pow2_plus. f_equiv. lia. }
    pose proof (pow2_pos (-1075)). pose proof (pow2_pos (-53)). unfold underflow, unit_roundoff in *. nra.
Qed.

Lemma round64_err q v :
  round64 q = PFin v → Qabs (v - q) <= unit_roundoff * Qabs q + underflow.
Proof.
  unfold round64. destruct (Qeq_bool q 0) eqn:E0.
  - apply Qeq_bool_iff in E0. intros [= <-].
    assert (Qabs (0 - q) == 0) as -> by (rewrite E0; reflexivity).
    assert (Qabs q == 0) as -> by (rewrite E0; reflexivity).
    pose proof (pow2_pos (-1075)). unfold underflow. lra.
  - apply Qeq_bool_neq in E0. cbv zeta. destruct (Qle_bool _ _); [done|].
    destruct (Qle_bool _ _); [done|]. intros [= <-].
    assert (Qred (nearest q) - q == nearest q - q) as -> by (by rewrite Qred_correct).
    by apply nearest_err.
Qed.

(** Below half the range nothing overflows. *)
Lemma round64_finite q : Qabs q <= pow2 1023 → ∃ v, round64 q = PFin v.
Proof.
  intros Hq. unfold round64. destruct (Qeq_bool q 0) eqn:E0; [eauto|]. cbv zeta.
  apply Qeq_bool_neq, nearest_err, Qabs_Qle_condition in E0 as [H1 H2].
  apply Qabs_Qle_condition in Hq as Hq'.
  assert (pow2 1024 == 2 * pow2 1023) as H1024
    by (change 2 with (pow2 1); rewrite <-pow2_plus; reflexivity).
  assert (unit_roundoff * Qabs q <= (1 # 4) * pow2 1023) as Hu.
  { apply Qle_trans with (unit_roundoff * pow2 1023).
    - apply Qmult_le_l; [apply pow2_pos|done].
    - apply Qmult_le_compat_r; [by vm_compute|apply Qlt_le_weak, pow2_pos]. }
  assert (underflow < (1 # 4) * pow2 1023) as Hv by (by vm_compute).
  destruct (Qle_bool (pow2 1024) (nearest q)) eqn:E1; [apply Qle_bool_iff in E1; lra|].
  destruct (Qle_bool (nearest q) (- pow2 1024)) eqn:E2; [apply Qle_bool_iff in E2; lra|]. eauto.
Qed.

Lemma nearest_nonneg q : 0 <= q → 0 <= nearest q.
Proof.
  intros Hq. unfold nearest. set (u := pow2 (ulp_exponent q)).
  assert (0 < u) as Hu by apply pow2_pos.
  apply Qmult_le_0_compat; [|lra]. change 0 with (inject_Z 0). rewrite <-Zle_Qle.
  rewrite <-(round_half_even_int 0 0) by done. apply round_half_even_mono.
  apply Qle_shift_div_l; lra.
Qed.

Lemma round64_nonneg q v : 0 <= q → round64 q = PFin v → 0 <= v.
Proof.
  intros Hq. unfold round64. destruct (Qeq_bool q 0); [by intros [= <-]|]. cbv zeta.
  destruct (Qle_bool _ _); [done|]. destruct (Qle_bool _ _); [done|]. intros [= <-].
  rewrite Qred_correct. by apply nearest_nonneg.
Qed.

(** The rounding of a non-negative number in range, with its error. *)
Lemma round64_in_range q :
  0 <= q → q <= pow2 1023 →
  ∃ v, round64 q = PFin v ∧ 0 <= v ∧ Qabs (v - q) <= unit_roundoff * q + underflow.
Proof.
  intros H0 H1. destruct (round64_finite q) as [v Hv]; [by rewrite Qabs_pos|].
  exists v. split_and!; [done|by eapply round64_nonneg|].
  apply round64_err in Hv. by rewrite (Qabs_pos q) in Hv.
Qed.

(** Integers below [2^53] are floats. *)
Lemma nearest_on_grid q z :
  q == inject_Z z * pow2 (ulp_exponent q) → nearest q == q.
Proof.
  intros Hq. unfold nearest. set (u := pow2 (ulp_exponent q)) in *.
  assert (0 < u) by apply pow2_pos.
  rewrite (round_half_even_int _ z); [by rewrite Hq|].
  apply (Qmult_inj_r _ _ u); [lra|]. assert (q / u * u == q) as -> by (field; lra). done.
Qed.

Lemma ulp_exponent_int z : z ≠ 0%Z → (Z.abs z < 2 ^ 53)%Z → (ulp_exponent (inject_Z z) ≤ 0)%Z.
Proof.
  intros H0 Hz. unfold ulp_exponent.
  assert (Qabs (inject_Z z) = inject_Z (Z.abs z)) as -> by done.
  destruct (exponent_spec (inject_Z (Z.abs z))) as [He _].
  { change 0 with (inject_Z 0). rewrite <-Zlt_Qlt. lia. }
  enough (exponent (inject_Z (Z.abs z)) < 53)%Z by lia.
  destruct (decide (exponent (inject_Z (Z.abs z)) < 53)%Z) as [|Hge]; [done|exfalso].
  assert (pow2 53 <= inject_Z (Z.abs z)) as Hp.
  { eapply Qle_trans; [|exact He]. apply pow2_le. lia. }
  rewrite pow2_inject in Hp by lia. rewrite <-Zle_Qle in Hp. lia.
Qed.

Lemma Qred_inject_Z z : Qred (inject_Z z) = inject_Z z.
Proof.
  unfold inject_Z, Qred. pose proof (Z.ggcd_gcd z 1) as Hg.
  pose proof (Z.ggcd_correct_divisors z 1) as Hd.
  destruct (Z.ggcd z 1) as [g [a b]]. cbn in *. rewrite Z.gcd_1_r in Hg. subst g.
  destruct Hd as [-> Hb]. f_equal; [lia|]. by assert (b = 1%Z) as -> by lia.
Qed.

Lemma round64_int z : (Z.abs z < 2 ^ 53)%Z → round64 (inject_Z z) = PFin (inject_Z z).
Proof.
  intros Hz. unfold round64. destruct (Qeq_bool (inject_Z z) 0) eqn:E0.
  { apply Qeq_bool_iff in E0. unfold Qeq in E0. cbn in E0. by assert (z = 0)%Z as -> by lia. }
  assert (z ≠ 0%Z) as Hz0 by (intros ->; by apply Qeq_bool_neq in E0).
  pose proof (ulp_exponent_int z Hz0 Hz) as Hu. cbv zeta.
  assert (nearest (inject_Z z) == inject_Z z) as Hn.
  { apply (nearest_on_grid _ (z * 2 ^ (- ulp_exponent (inject_Z z)))%Z).
    rewrite inject_Z_mult, <-pow2_inject by lia.
    assert (inject_Z z * pow2 (- ulp_exponent (inject_Z z)) * pow2 (ulp_exponent (inject_Z z))
            == inject_Z z * (pow2 (- ulp_exponent (inject_Z z)) * pow2 (ulp_exponent (inject_Z z))))
      as -> by lra.
    rewrite <-pow2_plus, Z.add_opp_diag_l. change (pow2 0) with 1. lra. }
  rewrite (Qred_complete _ _ Hn), Qred_inject_Z.
  assert (2 ^ 53 <= 2 ^ 1024)%Z as Hp by (by vm_compute).
  assert (pow2 1024 == inject_Z (2 ^ 1024)) as Hp2 by (by apply pow2_inject).
  destruct (Qle_bool (pow2 1024) _) eqn:E1.
  { apply Qle_bool_iff in E1. rewrite Hn, Hp2, <-Zle_Qle in E1. lia. }
  destruct (Qle_bool _ (- pow2 1024)) eqn:E2; [|done].
  apply Qle_bool_iff in E2. rewrite Hn, Hp2, <-inject_Z_opp, <-Zle_Qle in E2. lia.
Qed.

Lemma float_of_int_exact z :
  (Z.abs z < 2 ^ 53)%Z → float_of_int z = Ret (PFin (inject_Z z)).
Proof. intros Hz. unfold float_of_int. by rewrite round64_int. Qed.

(** ** Rounding does not cross an integer *)

Lemma exponent_small q z : 0 < q → q <= inject_Z z → (0 ≤ z < 2 ^ 53)%Z → (exponent q < 53)%Z.
Proof.
  intros Hq Hz Hb. destruct (exponent_spec q Hq) as [He _].
  destruct (decide (exponent q < 53)%Z) as [|Hge]; [done|exfalso].
  assert (pow2 53 <= inject_Z z) as Hp.
  { eapply Qle_trans; [|exact Hz]. eapply Qle_trans; [|exact He]. apply pow2_le. lia. }
  rewrite pow2_inject in Hp by lia. rewrite <-Zle_Qle in Hp. lia.
Qed.

Lemma int_on_grid z e : (e ≤ 0)%Z → inject_Z z == inject_Z (z * 2 ^ (- e)) * pow2 e.
Proof.
  intros He. rewrite inject_Z_mult, <-pow2_inject by lia.
  assert (inject_Z z * pow2 (- e) * pow2 e == inject_Z z * (pow2 (- e) * pow2 e)) as -> by lra.
  rewrite <-pow2_plus, Z.add_opp_diag_l. change (pow2 0) with 1. lra.
Qed.

Lemma nearest_le_int q z : 0 < q → q <= inject_Z z → (0 ≤ z < 2 ^ 53)%Z → nearest q <= inject_Z z.
Proof.
  intros Hq Hz Hb. unfold nearest.
  assert (exponent (Qabs q) < 53)%Z as He by (apply (exponent_small _ z); rewrite ?Qabs_pos; lra || lia).
  assert (ulp_exponent q ≤ 0)%Z as Hu by (unfold ulp_exponent; lia).
  set (e := ulp_exponent q) in *. set (u := pow2 e). assert (0 < u) as Hup by apply pow2_pos.
  assert (inject_Z z == inject_Z (z * 2 ^ (- e)) * u) as Hg by (by apply int_on_grid).
  rewrite Hg. apply Qmult_le_compat_r; [|lra]. rewrite <-Zle_Qle.
  rewrite <-(round_half_even_int (inject_Z (z * 2 ^ (- e))) (z * 2 ^ (- e))) by done.
  apply round_half_even_mono. apply Qle_shift_div_r; [done|]. by rewrite <-Hg.
Qed.

Lemma nearest_ge_int q z : 0 < q → inject_Z z <= q → (0 ≤ z < 2 ^ 53)%Z → inject_Z z <= nearest q.
Proof.
  intros Hq Hz Hb. unfold nearest. set (e := ulp_exponent q). set (u := pow2 e).
  assert (0 < u) as Hup by apply pow2_pos. destruct (decide (e ≤ 0)%Z) as [He|He].
  - rewrite (int_on_grid z e He). fold u. apply Qmult_le_compat_r; [|lra]. rewrite <-Zle_Qle.
    rewrite <-(round_half_even_int (inject_Z (z * 2 ^ (- e))) (z * 2 ^ (- e))) by done.
    apply round_half_even_mono, Qle_shift_div_l; [done|]. unfold u. by rewrite <-(int_on_grid z e He).
  - assert (e = exponent q - 52)%Z as Ee.
    { subst e. unfold ulp_exponent in *. destruct (exponent_spec (Qabs q)) as [He1 _]; [by rewrite Qabs_pos; lra|].
      assert (exponent (Qabs q) = exponent q) as <-; [|lia].
      destruct q as [n d]. unfold Qabs. rewrite Z.abs_eq; [done|]. unfold Qlt in Hq. cbn in Hq. lia. }
    destruct (exponent_spec q Hq) as [He1 _].
    assert (2 ^ 52 ≤ round_half_even (q / u))%Z as Hr.
    { rewrite <-(round_half_even_int (inject_Z (2 ^ 52)) (2 ^ 52)) by done. apply round_half_even_mono.
      apply Qle_shift_div_l; [done|]. eapply Qle_trans; [|exact He1]. rewrite <-pow2_inject by lia.
      unfold u. rewrite <-pow2_plus. apply pow2_le. lia. }
    assert (inject_Z (2 ^ 52) * pow2 1 <= inject_Z (round_half_even (q / u)) * u) as Hm.
    { eapply Qle_trans; [apply Qmult_le_compat_r; [rewrite <-Zle_Qle; exact Hr|apply Qlt_le_weak, pow2_pos]|].
      rewrite !(Qmult_comm (inject_Z (round_half_even _))). apply Qmult_le_compat_r; [apply pow2_le; lia|].
      change 0 with (inject_Z 0). rewrite <-Zle_Qle. lia. }
    eapply Qle_trans; [|exact Hm]. change (pow2 1) with (inject_Z 2). rewrite <-inject_Z_mult, <-Zle_Qle. lia.
Qed.

(** A number at least an integer does not round below it. *)
Lemma round64_not_below q z :
  inject_Z z <= q → (0 ≤ z < 2 ^ 53)%Z → flt (round64 q) (PFin (inject_Z z)) = false.
Proof.
  intros Hz Hb. unfold round64. destruct (Qeq_bool q 0) eqn:E0.
  - apply Qeq_bool_iff in E0. cbn. unfold Qlt_bool. apply negb_false_iff, Qle_bool_iff. lra.
  - apply Qeq_bool_neq in E0. cbv zeta.
    assert (0 < q) as Hq by (assert (inject_Z 0 <= inject_Z z) by (rewrite <-Zle_Qle; lia); change (inject_Z 0) with 0 in *; lra).
    pose proof (nearest_ge_int q z Hq Hz Hb) as Hn.
    destruct (Qle_bool (pow2 1024) _); [done|]. destruct (Qle_bool (nearest q) (- pow2 1024)) eqn:E2.
    + apply Qle_bool_iff in E2. pose proof (pow2_pos 1024).
      assert (inject_Z 0 <= inject_Z z) by (rewrite <-Zle_Qle; lia). change (inject_Z 0) with 0 in *. lra.
    + cbn. unfold Qlt_bool. apply negb_false_iff, Qle_bool_iff. by rewrite Qred_correct.
Qed.

(** A float between zero and an integer. *)
Definition within (z : Z) (f : pyfloat) : Prop := ∃ q, f = PFin q ∧ 0 <= q ∧ q <= inject_Z z.

Lemma round64_within q z : 0 <= q → q <= inject_Z z → (0 ≤ z < 2 ^ 53)%Z → within z (round64 q).
Proof.
  intros H0 Hz Hb. destruct (round64_finite q) as [v Hv].
  { rewrite Qabs_pos by done. eapply Qle_trans; [exact Hz|]. rewrite pow2_inject by lia.
    rewrite <-Zle_Qle. transitivity (2 ^ 53)%Z; [lia|]. by apply Z.pow_le_mono_r. }
  exists v. split_and!; [done|by eapply round64_nonneg|]. revert Hv. unfold round64.
  destruct (Qeq_bool q 0) eqn:E0.
  - intros [= <-]. change 0 with (inject_Z 0). rewrite <-Zle_Qle. lia.
  - cbv zeta. repeat (destruct (Qle_bool _ _); [done|]). intros [= <-]. rewrite Qred_correct.
    apply nearest_le_int; [|done|done]. apply Qeq_bool_neq in E0. lra.
Qed.

Lemma fadd_within a b x y :
  (0 ≤ a)%Z → (0 ≤ b)%Z → (a + b < 2 ^ 53)%Z → within a x → within b y → within (a + b) (fadd x y).
Proof.
  intros Ha Hb Hab (p & -> & Hp0 & Hp) (q & -> & Hq0 & Hq). cbn. apply round64_within; [lra| |lia].
  rewrite inject_Z_plus. lra.
Qed.
