(* ===== verification/PyList.v ===== *)
(** Python's [sorted], [min], [max] and slices, and the order of strings.

    Comparisons are boolean functions [lt], as the keys of the code give them.
    Where two elements compare equal, [sorted] keeps their order (also with
    [reverse=True]) and [min] and [max] take the first. *)

From Stdlib Require Import Ascii String ZArith NArith Lia Sorted.
From stdpp Require Import base option list strings sets.
From S2P Require Import Prelude.

(** ** Order of strings: by code points, a prefix first *)

Fixpoint chars_lt (a b : list ascii) : bool :=
  match a, b with
  | _, [] => false
  | [], _ :: _ => true
  | x :: a', y :: b' =>
      if (code x <? code y)%N then true
      else if (code x =? code y)%N then chars_lt a' b' else false
  end.

Definition str_lt (a b : string) : bool := chars_lt (explode a) (explode b).

(** ** Sorting and selection *)

Section order.
Context {A : Type} (lt : A → A → bool).

Fixpoint insert_sorted (x : A) (l : list A) : list A :=
  match l with
  | [] => [x]
  | y :: l' => if lt y x then y :: insert_sorted x l' else x :: y :: l'
  end.

(** [sorted(l)] *)
Fixpoint sorted (l : list A) : list A :=
  match l with
  | [] => []
  | x :: l' => insert_sorted x (sorted l')
  end.

(** [min(l)] and [max(l)] of a non-empty sequence *)
Definition min_of (x : A) (l : list A) : A := foldl (λ best y, if lt y best then y else best) x l.
Definition max_of (x : A) (l : list A) : A := foldl (λ best y, if lt best y then y else best) x l.
End order.

(** [sorted(l, key=key, reverse=True)] *)
Definition sorted_reverse {A} (lt : A → A → bool) (l : list A) : list A :=
  sorted (λ a b, lt b a) l.

(** [min(l, key=key)] and [max(l, key=key)]: an empty sequence raises. *)
Definition py_min {A} (lt : A → A → bool) (l : list A) : outcome A :=
  match l with [] => Raise ValueError | x :: l' => Ret (min_of lt x l') end.
Definition py_max {A} (lt : A → A → bool) (l : list A) : outcome A :=
  match l with [] => Raise ValueError | x :: l' => Ret (max_of lt x l') end.

(** [l[:n]]: a negative bound counts from the end. *)
Definition slice_to {A} (n : Z) (l : list A) : list A :=
  take (Z.to_nat (if (n <? 0)%Z then Z.of_nat (length l) + n else n)) l.

(** [l[i]] for [i >= 0] *)
Definition py_index {A} (l : list A) (i : nat) : outcome A :=
  match l !! i with Some a => Ret a | None => Raise IndexError end.

(** ** Strings are strictly and totally ordered *)

Lemma chars_lt_irrefl a : chars_lt a a = false.
Proof.
  induction a as [|x a IH]; [done|]. cbn. by rewrite N.ltb_irrefl, N.eqb_refl.
Qed.

Lemma chars_lt_trans a b c : chars_lt a b = true → chars_lt b c = true → chars_lt a c = true.
Proof.
  revert b c. induction a as [|x a IH]; intros [|y b] [|z c]; cbn; try done.
  repeat (case_match; bool_prop; try done; try lia). intros. by eapply IH.
Qed.

Lemma chars_lt_total a b : chars_lt a b = false → chars_lt b a = false → a = b.
Proof.
  revert b. induction a as [|x a IH]; intros [|y b]; cbn; try done.
  repeat (case_match; bool_prop; try done; try lia).
  intros. f_equal; [apply code_inj; lia|by apply IH].
Qed.

Lemma str_lt_irrefl a : str_lt a a = false.
Proof. apply chars_lt_irrefl. Qed.
Lemma str_lt_trans a b c : str_lt a b = true → str_lt b c = true → str_lt a c = true.
Proof. apply chars_lt_trans. Qed.
Lemma str_lt_total a b : str_lt a b = false → str_lt b a = false → a = b.
Proof. intros H1 H2. by apply explode_inj, chars_lt_total. Qed.

(** ** Sorting permutes *)

Section sorted_perm.
Context {A : Type} (lt : A → A → bool).

Lemma insert_sorted_perm x l : insert_sorted lt x l ≡ₚ x :: l.
Proof.
  induction l as [|y l IH]; cbn; [done|]. destruct (lt y x); [|done].
  rewrite IH. by constructor.
Qed.

Lemma sorted_perm l : sorted lt l ≡ₚ l.
Proof. induction l as [|x l IH]; cbn; [done|]. by rewrite insert_sorted_perm, IH. Qed.

Lemma length_sorted l : length (sorted lt l) = length l.
Proof. by rewrite sorted_perm. Qed.

Lemma elem_of_sorted x l : x ∈ sorted lt l ↔ x ∈ l.
Proof. by rewrite sorted_perm. Qed.

Lemma min_of_elem x l : min_of lt x l ∈ x :: l.
Proof.
  unfold min_of. revert x. induction l as [|y l IH]; intros x; cbn; [by left|].
  specialize (IH (if lt y x then y else x)). destruct (lt y x); set_solver.
Qed.

Lemma max_of_elem x l : max_of lt x l ∈ x :: l.
Proof.
  unfold max_of. revert x. induction l as [|y l IH]; intros x; cbn; [by left|].
  specialize (IH (if lt x y then y else x)). destruct (lt x y); set_solver.
Qed.

Lemma py_min_elem l x : py_min lt l = Ret x → x ∈ l.
Proof. destruct l as [|y l]; [done|]. intros [= <-]. apply min_of_elem. Qed.
Lemma py_max_elem l x : py_max lt l = Ret x → x ∈ l.
Proof. destruct l as [|y l]; [done|]. intros [= <-]. apply max_of_elem. Qed.
End sorted_perm.

(** ** Sorting by a weak order *)

Section sorted_order.
Context {A : Type} (lt : A → A → bool).
Hypothesis lt_asym : ∀ a b, lt a b = true → lt b a = false.
Hypothesis lt_neg_trans : ∀ a b c, lt b a = false → lt c b = false → lt c a = false.

Definition not_after (a b : A) : Prop := lt b a = false.

Lemma insert_sorted_sorted x l :
  StronglySorted not_after l → StronglySorted not_after (insert_sorted lt x l).
Proof.
  induction 1 as [|y l Hl IH Hy]; cbn; [repeat constructor|]. destruct (lt y x) eqn:E.
  - constructor; [done|]. rewrite insert_sorted_perm. constructor; [|done]. by apply lt_asym.
  - constructor; [by constructor|]. constructor; [done|].
    eapply Forall_impl; [exact Hy|]. intros z Hz. by eapply lt_neg_trans.
Qed.

Lemma sorted_sorted l : StronglySorted not_after (sorted lt l).
Proof. induction l; cbn; [constructor|by apply insert_sorted_sorted]. Qed.

Lemma min_of_least x l y : y ∈ x :: l → lt y (min_of lt x l) = false.
Proof.
  unfold min_of. revert x y. induction l as [|z l IH]; intros x y; cbn.
  - intros ->%list_elem_of_singleton. destruct (lt x x) eqn:E; [|done].
    rewrite (lt_asym _ _ E) in E. done.
  - intros Hy. destruct (lt z x) eqn:E.
    + assert (y ∈ z :: l ∨ y = x) as [H| ->] by set_solver; [by apply IH|].
      apply lt_neg_trans with z; [apply IH; by left|by apply lt_asym].
    + assert (y ∈ x :: l ∨ y = z) as [H| ->] by set_solver; [by apply IH|].
      apply lt_neg_trans with x; [apply IH; by left|done].
Qed.

Lemma py_min_least l x y : py_min lt l = Ret x → y ∈ l → lt y x = false.
Proof. destruct l; [done|]. intros [= <-]. apply min_of_least. Qed.
End sorted_order.

(** The sorted list of distinct elements under a strict total order is
    determined by its elements. *)
Section sorted_unique.
Context {A : Type} (lt : A → A → bool).
Hypothesis lt_asym : ∀ a b, lt a b = true → lt b a = false.
Hypothesis lt_neg_trans : ∀ a b c, lt b a = false → lt c b = false → lt c a = false.

Lemma sorted_unique l l' :
  l ≡ₚ l' → (∀ a b, a ∈ l → b ∈ l → lt a b = false → lt b a = false → a = b) →
  sorted lt l = sorted lt l'.
Proof.
  intros Hp Htot. pose proof (sorted_sorted lt lt_asym lt_neg_trans l) as H1.
  pose proof (sorted_sorted lt lt_asym lt_neg_trans l') as H2.
  assert (sorted lt l ≡ₚ sorted lt l') as H by by rewrite !sorted_perm.
  assert (∀ a b, a ∈ sorted lt l → b ∈ sorted lt l → lt a b = false → lt b a = false → a = b) as Ht
    by (intros a b; rewrite !elem_of_sorted; apply Htot).
  revert H1 H2 H Ht. generalize (sorted lt l) as m, (sorted lt l') as m'. clear l l' Hp Htot.
  induction m as [|x m IH]; intros m' H1 H2 Hp Ht; [by apply Permutation_nil in Hp|].
  destruct m' as [|y m']; [by apply Permutation_sym, Permutation_nil in Hp|].
  inversion_clear H1 as [|? ? Hm Hx]. inversion_clear H2 as [|? ? Hm' Hy].
  assert (x = y) as ->.
  { assert (x ∈ y :: m') as Hxin by (rewrite <-Hp; by left).
    assert (y ∈ x :: m) as Hyin by (rewrite Hp; by left).
    apply elem_of_cons in Hxin as [?|Hxin]; [done|]. apply elem_of_cons in Hyin as [?|Hyin]; [done|].
    rewrite Forall_forall in Hx, Hy. apply Ht; [by left|by right|by apply Hy|by apply Hx]. }
  f_equal. apply IH; [done|done|by apply Permutation_cons_inv in Hp|].
  intros a b Ha Hb. apply Ht; by right.
Qed.
End sorted_unique.

Lemma str_lt_asym a b : str_lt a b = true → str_lt b a = false.
Proof.
  intros H. destruct (str_lt b a) eqn:E; [|done].
  pose proof (str_lt_trans _ _ _ H E) as F. by rewrite str_lt_irrefl in F.
Qed.

Lemma str_lt_neg_trans a b c : str_lt b a = false → str_lt c b = false → str_lt c a = false.
Proof.
  intros H1 H2. destruct (str_lt c a) eqn:E; [|done].
  destruct (str_lt a b) eqn:E1; [by rewrite (str_lt_trans _ _ _ E E1) in H2|].
  rewrite (str_lt_total a b) in E by done. congruence.
Qed.

Lemma slice_to_nonneg {A} n (l : list A) : (0 ≤ n)%Z → slice_to n l = take (Z.to_nat n) l.
Proof. intros H. unfold slice_to. by rewrite (proj2 (Z.ltb_ge n 0)). Qed.

#[export] Hint Rewrite @length_sorted : py_str.
#[export] Hint Resolve sorted_perm str_lt_asym str_lt_irrefl : py.
