(* ===== verification/Json.v ===== *)
(** Decoded JSON values and the Python operations the SDK applies to them.

    Kubernetes objects reach the SDK as the dicts [json.loads] builds; the code
    reads them with [.get], [or], [in], [==] and [for]. Each operation is a
    function here, with the exception Python raises when the value has the
    wrong shape ([None.get] is an [AttributeError], iterating a number is a
    [TypeError]). A dict is an association list in insertion order. *)

From Stdlib Require Import String ZArith QArith.
From stdpp Require Import base option list strings sets.
From S2P Require Import Prelude Float.

#[local] Set Warnings "-register-all".

Inductive json :=
  | JNull
  | JBool (b : bool)
  | JInt (z : Z)
  | JFloat (f : pyfloat)
  | JStr (s : string)
  | JList (l : list json)
  | JObj (kvs : list (string * json)).

(** ** Association-list dicts *)

Section dict.
Context {A : Type}.

(** [d.get(k)] *)
Fixpoint dget (k : string) (d : list (string * A)) : option A :=
  match d with
  | [] => None
  | (k', v) :: d' => if decide (k = k') then Some v else dget k d'
  end.

(** [d[k] = v]: an existing key keeps its place. *)
Fixpoint dset (k : string) (v : A) (d : list (string * A)) : list (string * A) :=
  match d with
  | [] => [(k, v)]
  | (k', v') :: d' => if decide (k = k') then (k', v) :: d' else (k', v') :: dset k v d'
  end.

(** [d.pop(k, None)] *)
Fixpoint dpop (k : string) (d : list (string * A)) : list (string * A) :=
  match d with
  | [] => []
  | (k', v') :: d' => if decide (k = k') then d' else (k', v') :: dpop k d'
  end.

Lemma dget_dset_eq k v d : dget k (dset k v d) = Some v.
Proof.
  induction d as [|[k' v'] d IH]; cbn; [by rewrite decide_True|].
  case_decide; cbn; [by rewrite decide_True|by rewrite decide_False].
Qed.

Lemma dget_dset_ne k k' v d : k ≠ k' → dget k (dset k' v d) = dget k d.
Proof.
  intros Hne. induction d as [|[k0 v0] d IH]; cbn; [by rewrite decide_False|].
  case_decide; cbn; repeat case_decide; congruence.
Qed.

Lemma dget_dset k k' v d :
  dget k (dset k' v d) = if decide (k = k') then Some v else dget k d.
Proof. case_decide; [subst; apply dget_dset_eq|by apply dget_dset_ne]. Qed.

Lemma dget_None k d : dget k d = None ↔ k ∉ d.*1.
Proof.
  induction d as [|[k0 v0] d IH]; cbn; [set_solver|].
  rewrite not_elem_of_cons. case_decide; naive_solver.
Qed.

Lemma elem_of_dset_keys k k' v d : k ∈ (dset k' v d).*1 ↔ k = k' ∨ k ∈ d.*1.
Proof.
  induction d as [|[k0 v0] d IH]; cbn; [set_solver|].
  case_decide; cbn; rewrite ?elem_of_cons, ?IH; naive_solver.
Qed.

Lemma dset_NoDup k v d : NoDup d.*1 → NoDup (dset k v d).*1.
Proof.
  induction d as [|[k0 v0] d IH]; cbn; intros Hd.
  - constructor; [set_solver|constructor].
  - inversion_clear Hd. case_decide; cbn; constructor; try done.
    + rewrite elem_of_dset_keys. naive_solver.
    + by apply IH.
Qed.

Lemma dget_elem_of k v d : NoDup d.*1 → dget k d = Some v ↔ (k, v) ∈ d.
Proof.
  induction d as [|[k0 v0] d IH]; cbn; intros Hd; [set_solver|].
  inversion_clear Hd as [|? ? Hk Hd']. rewrite elem_of_cons. case_decide; subst.
  - split; [intros [= ->]; by left|intros [[= ->]|Hin]; [done|]].
    destruct Hk. apply list_elem_of_fmap. by exists (k0, v).
  - rewrite IH by done. naive_solver.
Qed.

Lemma dpop_keys k (d : list (string * A)) x : x ∈ (dpop k d).*1 → x ∈ d.*1.
Proof.
  induction d as [|[k' v] d IH]; [done|]. cbn. case_decide; [by right|].
  cbn. rewrite !elem_of_cons. naive_solver.
Qed.

Lemma dpop_NoDup k (d : list (string * A)) : NoDup d.*1 → NoDup (dpop k d).*1.
Proof.
  induction d as [|[k' v] d IH]; [done|]. cbn. inversion_clear 1 as [|? ? Hn Hd]. case_decide; [done|].
  cbn. constructor; [|by apply IH]. intros Hin%dpop_keys. done.
Qed.

Lemma dget_dpop k k' (d : list (string * A)) :
  NoDup d.*1 → dget k' (dpop k d) = if decide (k' = k) then None else dget k' d.
Proof.
  induction d as [|[k0 v] d IH]; intros Hnd; cbn in *; [by case_decide|].
  inversion_clear Hnd as [|? ? Hn Hd]. destruct (decide (k = k0)) as [<-|Hk].
  - case_decide as E; [|done]. subst. by apply dget_None.
  - cbn. rewrite IH by done. repeat case_decide; congruence.
Qed.
End dict.

(** ** Operations on values *)

(** [bool(v)] *)
Definition truthy (v : json) : bool :=
  match v with
  | JNull => false
  | JBool b => b
  | JInt z => negb (z =? 0)%Z
  | JFloat f => ftruthy f
  | JStr s => negb (s =? EmptyString)%string
  | JList l => if l is [] then false else true
  | JObj kvs => if kvs is [] then false else true
  end.

(** [a or b] *)
Definition py_or (a b : json) : json := if truthy a then a else b.

(** [v.get(k)]: [None] for an absent key. *)
Definition py_get (v : json) (k : string) : outcome json :=
  match v with
  | JObj kvs => Ret (default JNull (dget k kvs))
  | _ => Raise AttributeError
  end.

(** [v.get(k, d)] *)
Definition py_get_def (v : json) (k : string) (d : json) : outcome json :=
  match v with
  | JObj kvs => Ret (default d (dget k kvs))
  | _ => Raise AttributeError
  end.

(** [for x in v] *)
Definition py_iter (v : json) : outcome (list json) :=
  match v with
  | JList l => Ret l
  | JObj kvs => Ret (JStr <$> kvs.*1)
  | JStr s => Ret ((λ c, JStr (implode [c])) <$> explode s)
  | _ => Raise TypeError
  end.

(** [a == b]. Dicts compare by content, lists in order; [True == 1 == 1.0],
    numbers compare by their exact values. *)
Definition num_like (v : json) : option pyfloat :=
  match v with
  | JBool b => Some (PFin (if b then 1 else 0)%Q)
  | JInt z => Some (PFin (inject_Z z))
  | JFloat f => Some f
  | _ => None
  end.

Fixpoint json_eqb (a b : json) {struct a} : bool :=
  match a, b with
  | JNull, JNull => true
  | JStr s, JStr t => (s =? t)%string
  | JList l, JList m =>
      (fix go (l m : list json) : bool :=
         match l, m with
         | [], [] => true
         | x :: l', y :: m' => json_eqb x y && go l' m'
         | _, _ => false
         end) l m
  | JObj kvs, JObj kvs' =>
      bool_decide (length kvs = length kvs') &&
      (fix go (l : list (string * json)) : bool :=
         match l with
         | [] => true
         | (k, x) :: l' =>
             match dget k kvs' with
             | Some y => json_eqb x y
             | None => false
             end && go l'
         end) kvs
  | _, _ =>
      match num_like a, num_like b with
      | Some x, Some y => feq x y
      | _, _ => false
      end
  end.

(** [v == "s"] *)
Definition is_str (v : json) (s : string) : bool :=
  match v with JStr t => (t =? s)%string | _ => false end.

(** [v is None] *)
Definition is_none (v : json) : bool :=
  match v with JNull => true | _ => false end.

Definition as_str (v : json) : option string :=
  match v with JStr s => Some s | _ => None end.

Lemma is_str_true v s : is_str v s = true ↔ v = JStr s.
Proof.
  destruct v; cbn; try (split; congruence).
  rewrite String.eqb_eq. split; congruence.
Qed.

Lemma truthy_str s : truthy (JStr s) = true ↔ s ≠ EmptyString.
Proof.
  cbn. rewrite negb_true_iff, String.eqb_neq. done.
Qed.

(** Reading decoded JSON always answers. *)
Lemma py_get_answers v k : py_get v k ≠ NoFuel.
Proof. by destruct v. Qed.
Lemma py_get_def_answers v k d : py_get_def v k d ≠ NoFuel.
Proof. by destruct v. Qed.
Lemma outcome_bind_answers {A B} (o : outcome A) (k : A → outcome B) :
  o ≠ NoFuel → (∀ a, k a ≠ NoFuel) → o ≫= k ≠ NoFuel.
Proof. by destruct o; cbn; auto. Qed.
