(* ===== verification/IpAddress.v ===== *)
(** The part of Python's [ipaddress] module the SDK and the router use:
    [ip_address] and [ip_network] parsing, the canonical text of an address,
    IPv4-mapped IPv6 addresses, and the address classes the router rejects.

    An address is its integer value; an IPv6 address also has the optional
    scope id that follows a [%]. *)

From Stdlib Require Import Ascii String NArith Lia.
From stdpp Require Import base option list strings numbers pretty sets.
From S2P Require Import Prelude.

Inductive ip_addr :=
  | V4 (ip : N)
  | V6 (ip : N) (scope_id : option string).

#[global] Instance ip_addr_eq_dec : EqDecision ip_addr.
Proof. solve_decision. Defined.

(** ** Numerals *)

Definition digit_val (c : ascii) : N := code c - 48.

Definition hex_val (c : ascii) : option N :=
  if is_digit c then Some (code c - 48)%N
  else if in_range 97 102 c then Some (code c - 87)%N
  else if in_range 65 70 c then Some (code c - 55)%N
  else None.

Definition dec_value (l : list ascii) : N :=
  foldl (λ acc c, 10 * acc + digit_val c)%N 0%N l.

Fixpoint hex_value (acc : N) (l : list ascii) : option N :=
  match l with
  | [] => Some acc
  | c :: l' => v ← hex_val c; hex_value (16 * acc + v)%N l'
  end.

Definition hex_digit (n : N) : ascii :=
  if (n <? 10)%N then chr (48 + n) else chr (87 + n).

(** ['%x' % n] for a 16-bit value. *)
Definition hex16 (n : N) : list ascii :=
  match drop_while (λ d, bool_decide (d = 0%N))
          [n / 4096 mod 16; n / 256 mod 16; n / 16 mod 16; n mod 16]%N with
  | [] => [hex_digit 0]
  | ds => hex_digit <$> ds
  end.

Definition dec (n : N) : list ascii := explode (pretty n).

(** ** IPv4 *)

Definition parse_octet (l : list ascii) : option N :=
  if bool_decide (l = []) then None
  else if negb (forallb is_digit l) then None
  else if bool_decide (3 < length l) then None
  else if negb (bool_decide (l = ["0"%char])) && bool_decide (head l = Some "0"%char)
  then None
  else let n := dec_value l in
       if (255 <? n)%N then None else Some n.

Definition parse_v4 (l : list ascii) : option N :=
  match split_chars "." l with
  | [o1; o2; o3; o4] =>
      a ← parse_octet o1; b ← parse_octet o2;
      c ← parse_octet o3; d ← parse_octet o4;
      Some (a * 2 ^ 24 + b * 2 ^ 16 + c * 2 ^ 8 + d)%N
  | _ => None
  end.

Definition str_v4 (ip : N) : list ascii :=
  join_chars ["."%char]
    [dec (ip / 2 ^ 24 mod 256); dec (ip / 2 ^ 16 mod 256);
     dec (ip / 2 ^ 8 mod 256); dec (ip mod 256)].

(** ** IPv6 *)

Definition parse_hextet (l : list ascii) : option N :=
  if negb (forallb (λ c, bool_decide (is_Some (hex_val c))) l) then None
  else if bool_decide (4 < length l) then None
  else if bool_decide (l = []) then None
  else hex_value 0 l.

Fixpoint parse_hextets (acc : N) (ps : list (list ascii)) : option N :=
  match ps with
  | [] => Some acc
  | p :: ps' => v ← parse_hextet p; parse_hextets (N.lor (N.shiftl acc 16) v) ps'
  end.

(** The index of the single empty inner part, the position of ['::'].
    [None] is the error of a second ['::']. *)
Definition find_skip (parts : list (list ascii)) : option (option nat) :=
  match filter (λ i, parts !! i = Some []) (seq 1 (length parts - 2)) with
  | [] => Some None
  | [i] => Some (Some i)
  | _ => None
  end.

(** An IPv4 suffix stands for the last two hextets. *)
Definition expand_v4_suffix (parts : list (list ascii)) : option (list (list ascii)) :=
  match last parts with
  | Some p =>
      if bool_decide ("."%char ∈ p) then
        v ← parse_v4 p;
        Some (take (length parts - 1) parts
              ++ [hex16 (v / 2 ^ 16 mod 2 ^ 16)%N; hex16 (v mod 2 ^ 16)%N])
      else Some parts
  | None => Some parts
  end.

Definition first_empty (parts : list (list ascii)) : bool :=
  bool_decide (head parts = Some []).
Definition last_empty (parts : list (list ascii)) : bool :=
  bool_decide (last parts = Some []).

Definition parse_parts (parts : list (list ascii)) : option N :=
  if bool_decide (9 < length parts) then None
  else match find_skip parts with
  | None => None
  | Some (Some i) =>
      let hi := if first_empty parts then i - 1 else i in
      let lo0 := length parts - i - 1 in
      let lo := if last_empty parts then lo0 - 1 else lo0 in
      if first_empty parts && negb (bool_decide (hi = 0)) then None
      else if last_empty parts && negb (bool_decide (lo = 0)) then None
      else if bool_decide (8 - (hi + lo) < 1) then None
      else
        h ← parse_hextets 0 (take hi parts);
        parse_hextets (N.shiftl h (16 * N.of_nat (8 - (hi + lo))))
          (drop (length parts - lo) parts)
  | Some None =>
      if negb (bool_decide (length parts = 8)) then None
      else if first_empty parts || last_empty parts then None
      else parse_hextets 0 parts
  end.

Definition parse_v6_int (l : list ascii) : option N :=
  if bool_decide (l = []) then None
  else
    let parts := split_chars ":" l in
    if bool_decide (length parts < 3) then None
    else ps ← expand_v4_suffix parts; parse_parts ps.

Definition parse_v6 (l : list ascii) : option ip_addr :=
  let '(addr, sep, scope) := partition_chars "%" l in
  if sep then
    if bool_decide (scope = []) || bool_decide ("%"%char ∈ scope) then None
    else n ← parse_v6_int addr; Some (V6 n (Some (implode scope)))
  else n ← parse_v6_int addr; Some (V6 n None).

(** [ipaddress.ip_address(s)]; [None] is the [ValueError]. *)
Definition ip_address (s : string) : option ip_addr :=
  let l := explode s in
  if bool_decide ("/"%char ∈ l) then None
  else match parse_v4 l with
       | Some n => Some (V4 n)
       | None => parse_v6 l
       end.

(** The first longest run of zero hextets: start and length. *)
Fixpoint zero_runs (i start len best_start best_len : nat) (hs : list N) : nat * nat :=
  match hs with
  | [] => (best_start, best_len)
  | h :: hs' =>
      if bool_decide (h = 0%N) then
        let len' := S len in
        let start' := if bool_decide (len = 0) then i else start in
        if bool_decide (best_len < len')
        then zero_runs (S i) start' len' start' len' hs'
        else zero_runs (S i) start' len' best_start best_len hs'
      else zero_runs (S i) 0 0 best_start best_len hs'
  end.

Definition hextets (ip : N) : list N :=
  (λ k, N.shiftr ip (16 * k) mod 2 ^ 16)%N <$> [7; 6; 5; 4; 3; 2; 1; 0]%N.

(** [_compress_hextets] over the textual hextets. *)
Definition compress (hs : list N) : list (list ascii) :=
  let '(s, n) := zero_runs 0 0 0 0 0 hs in
  let txt := hex16 <$> hs in
  if bool_decide (1 < n) then
    let txt1 := if bool_decide (s + n = length hs) then txt ++ [[]] else txt in
    let txt2 := take s txt1 ++ [[]] ++ drop (s + n) txt1 in
    if bool_decide (s = 0) then [] :: txt2 else txt2
  else txt.

Definition str_v6_int (ip : N) : list ascii := join_chars [":"%char] (compress (hextets ip)).

(** [ip.ipv4_mapped] *)
Definition ipv4_mapped (a : ip_addr) : option N :=
  match a with
  | V6 ip _ => if (N.shiftr ip 32 =? 65535)%N then Some (ip mod 2 ^ 32)%N else None
  | V4 _ => None
  end.

(** [str(ip)]. The flag says whether this Python release prints an IPv4-mapped
    address with a dotted suffix ([::ffff:1.2.3.4]) or in hextets. *)
Definition str_v6 (dotted : bool) (ip : N) : list ascii :=
  match dotted, ipv4_mapped (V6 ip None) with
  | true, Some v4 => str_v6_int (ip / 2 ^ 32) ++ [":"%char] ++ str_v4 v4
  | _, _ => str_v6_int ip
  end.

Definition str_ip (dotted : bool) (a : ip_addr) : string :=
  match a with
  | V4 ip => implode (str_v4 ip)
  | V6 ip None => implode (str_v6 dotted ip)
  | V6 ip (Some z) => implode (str_v6 dotted ip ++ ["%"%char] ++ explode z)
  end.

Definition version (a : ip_addr) : Z :=
  match a with V4 _ => 4 | V6 _ _ => 6 end.

(** ** Networks *)

Record ip_net := IpNet { net_v6 : bool; net_ip : N; net_prefix : N }.

Definition width (v6 : bool) : N := if v6 then 128 else 32.

(** [ip in network]: same version, and the address masked to the prefix is the
    network address. *)
Definition in_net (a : ip_addr) (net : ip_net) : bool :=
  match a, net_v6 net with
  | V4 ip, false | V6 ip _, true =>
      let host := (width (net_v6 net) - net_prefix net)%N in
      (N.shiftl (N.shiftr ip host) host =? net_ip net)%N
  | _, _ => false
  end.

Definition parse_prefix (max : N) (l : list ascii) : option N :=
  if bool_decide (l = []) || negb (forallb is_digit l) then None
  else let n := dec_value l in if (n <=? max)%N then Some n else None.

(** [_prefix_from_ip_int] for IPv4: the number of leading ones of a mask with
    no zero before a one. *)
Definition prefix_of_mask (mask : N) : option N :=
  head (filter (λ p, mask = 2 ^ 32 - 2 ^ (32 - p))%N (N.of_nat <$> seq 0 33)).

Definition parse_netmask_v4 (l : list ascii) : option N :=
  match parse_prefix 32 l with
  | Some p => Some p
  | None =>
      m ← parse_v4 l;
      match prefix_of_mask m with
      | Some p => Some p
      | None => prefix_of_mask (N.lxor m (2 ^ 32 - 1))
      end
  end.

Definition make_net (v6 : bool) (ip prefix : N) : ip_net :=
  let host := (width v6 - prefix)%N in
  IpNet v6 (N.shiftl (N.shiftr ip host) host) prefix.

Definition ip_network_v4 (parts : list (list ascii)) : option ip_net :=
  match parts with
  | [a] => n ← parse_v4 a; Some (make_net false n 32)
  | [a; m] => n ← parse_v4 a; p ← parse_netmask_v4 m; Some (make_net false n p)
  | _ => None
  end.

Definition v6_value (a : ip_addr) : N := match a with V4 n | V6 n _ => n end.

Definition ip_network_v6 (parts : list (list ascii)) : option ip_net :=
  match parts with
  | [a] => n ← parse_v6 a; Some (make_net true (v6_value n) 128)
  | [a; m] =>
      n ← parse_v6 a; p ← parse_prefix 128 m; Some (make_net true (v6_value n) p)
  | _ => None
  end.

(** [ipaddress.ip_network(s, strict=False)]; [None] is the [ValueError]. *)
Definition ip_network (s : string) : option ip_net :=
  let parts := split_chars "/" (explode s) in
  match ip_network_v4 parts with
  | Some n => Some n
  | None => ip_network_v6 parts
  end.

(** ** Address classes (Python 3.13 and later: an IPv4-mapped address has the
    class of the IPv4 address) *)

Definition unmap (a : ip_addr) : ip_addr :=
  match ipv4_mapped a with Some n => V4 n | None => a end.

Definition is_loopback (a : ip_addr) : bool :=
  match unmap a with
  | V4 ip => (N.shiftr ip 24 =? 127)%N
  | V6 ip _ => (ip =? 1)%N
  end.

Definition is_link_local (a : ip_addr) : bool :=
  match unmap a with
  | V4 ip => (N.shiftr ip 16 =? 43518)%N   (* 169.254.0.0/16 *)
  | V6 ip _ => (N.shiftr ip 118 =? 1018)%N (* fe80::/10 *)
  end.

Definition is_multicast (a : ip_addr) : bool :=
  match unmap a with
  | V4 ip => (N.shiftr ip 28 =? 14)%N      (* 224.0.0.0/4 *)
  | V6 ip _ => (N.shiftr ip 120 =? 255)%N  (* ff00::/8 *)
  end.

Definition is_unspecified (a : ip_addr) : bool :=
  match unmap a with V4 ip | V6 ip _ => (ip =? 0)%N end.

Arguments hextets : simpl never.
Arguments compress : simpl never.
Arguments hex16 : simpl never.
Arguments dec : simpl never.

(** ** Numerals round-trip *)

#[local] Ltac Zify.zify_post_hook ::= Z.to_euclidean_division_equations.

Lemma forallb_upto (f : N → bool) (m : nat) n :
  forallb f (N.of_nat <$> seq 0 m) = true → (n < N.of_nat m)%N → f n = true.
Proof.
  rewrite forallb_forall. intros Hall Hn. apply Hall.
  apply list_elem_of_In, list_elem_of_fmap. exists (N.to_nat n).
  rewrite N2Nat.id. split; [done|]. apply elem_of_seq. lia.
Qed.

Definition octet_ok (n : N) : bool :=
  bool_decide (parse_octet (dec n) = Some n) && forallb is_digit (dec n).

Lemma octets_ok : forallb octet_ok (N.of_nat <$> seq 0 256) = true.
Proof. vm_compute. reflexivity. Qed.

Lemma octet_roundtrip n :
  (n < 256)%N → parse_octet (dec n) = Some n ∧ forallb is_digit (dec n) = true.
Proof.
  intros H. pose proof (forallb_upto _ _ n octets_ok H) as Hok.
  unfold octet_ok in Hok. by bool_prop.
Qed.

Definition nibble_ok (d : N) : bool :=
  match hex_val (hex_digit d) with Some m => (m =? d)%N | None => false end.

Lemma nibbles_ok : forallb nibble_ok (N.of_nat <$> seq 0 16) = true.
Proof. reflexivity. Qed.

Lemma hex_val_digit d : (d < 16)%N → hex_val (hex_digit d) = Some d.
Proof.
  intros H. pose proof (forallb_upto _ 16 d nibbles_ok H) as Hok.
  unfold nibble_ok in Hok. case_scrut; [|done]. by apply N.eqb_eq in Hok as ->.
Qed.

Lemma hex_value_digits acc ds :
  Forall (λ d, d < 16)%N ds →
  hex_value acc (hex_digit <$> ds) = Some (foldl (λ a d, 16 * a + d)%N acc ds).
Proof.
  intros Hds. revert acc. induction Hds as [|d ds Hd Hds IH]; intros acc; [done|].
  cbn. rewrite hex_val_digit by done. cbn. apply IH.
Qed.

Lemma parse_hextet_digits ds :
  Forall (λ d, d < 16)%N ds → ds ≠ [] → length ds ≤ 4 →
  parse_hextet (hex_digit <$> ds) = Some (foldl (λ a d, 16 * a + d)%N 0%N ds).
Proof.
  intros Hds Hne Hlen. unfold parse_hextet.
  assert (forallb (λ c, bool_decide (is_Some (hex_val c))) (hex_digit <$> ds) = true) as ->.
  { apply forallb_forall. intros c Hc%list_elem_of_In.
    apply list_elem_of_fmap in Hc as (d & -> & Hd). rewrite Forall_forall in Hds.
    by rewrite (hex_val_digit d (Hds d Hd)). }
  rewrite length_fmap. rewrite bool_decide_eq_false_2 by lia.
  rewrite bool_decide_eq_false_2 by (by destruct ds). cbn. by apply hex_value_digits.
Qed.

Lemma parse_hextet_Some l n :
  parse_hextet l = Some n → Forall (λ c, is_Some (hex_val c)) l ∧ l ≠ [].
Proof.
  unfold parse_hextet. repeat case_scrut; try done. intros _. bool_prop.
  split; [|done]. apply Forall_forall. intros c Hc%list_elem_of_In.
  apply (bool_decide_eq_true_1 (is_Some (hex_val c))).
  match goal with H : forallb _ _ = true |- _ =>
    rewrite forallb_forall in H; by apply H end.
Qed.

Lemma hex_fold_drop_zeros ds :
  foldl (λ a d, 16 * a + d)%N 0%N (drop_while (λ d, bool_decide (d = 0%N)) ds)
  = foldl (λ a d, 16 * a + d)%N 0%N ds.
Proof. induction ds as [|d ds IH]; [done|]. cbn. case_bool_decide; [by subst d|done]. Qed.

Lemma hextet_roundtrip n : (n < 65536)%N → parse_hextet (hex16 n) = Some n.
Proof.
  intros H. unfold hex16.
  set (ds := [n / 4096 mod 16; n / 256 mod 16; n / 16 mod 16; n mod 16]%N).
  assert (Forall (λ d, d < 16)%N ds) as Hds by (repeat constructor; lia).
  assert (foldl (λ a d, 16 * a + d)%N 0%N ds = n) as Hn by (cbn; lia).
  pose proof (drop_while_suffix (λ d, bool_decide (d = 0%N)) ds) as Hsuf.
  rewrite <-hex_fold_drop_zeros in Hn.
  destruct (drop_while _ ds) as [|d ds'] eqn:E.
  - cbn in Hn. by subst n.
  - rewrite <-Hn. apply parse_hextet_digits; [|done|].
    + destruct Hsuf as [k Hk]. rewrite Hk in Hds. by apply Forall_app in Hds as [_ Hds].
    + apply suffix_length in Hsuf. exact Hsuf.
Qed.

(** ** Addresses round-trip *)

Lemma digit_not_sep c l : is_digit c = false → forallb is_digit l = true → c ∉ l.
Proof.
  intros Hc Hl Hin%list_elem_of_In. rewrite forallb_forall in Hl.
  specialize (Hl _ Hin). congruence.
Qed.

Lemma parse_str_v4 n : (n < 2 ^ 32)%N → parse_v4 (str_v4 n) = Some n.
Proof.
  intros H. unfold parse_v4, str_v4.
  destruct (octet_roundtrip (n / 2 ^ 24 mod 256)) as [Ha Ha']; [lia|].
  destruct (octet_roundtrip (n / 2 ^ 16 mod 256)) as [Hb Hb']; [lia|].
  destruct (octet_roundtrip (n / 2 ^ 8 mod 256)) as [Hc Hc']; [lia|].
  destruct (octet_roundtrip (n mod 256)) as [Hd Hd']; [lia|].
  rewrite split_join_chars; [|done|].
  - rewrite Ha, Hb, Hc, Hd. cbn. f_equal. lia.
  - repeat constructor; by apply digit_not_sep.
Qed.

(** The dotted text of an IPv4 address holds digits and dots only. *)
Lemma str_v4_chars n c : c ∈ str_v4 n → is_digit c = true ∨ c = "."%char.
Proof.
  assert (∀ k, forallb is_digit (dec (k mod 256)) = true) as Hdig
    by (intros k; apply octet_roundtrip; lia).
  assert (∀ k, c ∈ dec (k mod 256) → is_digit c = true) as Hin.
  { intros k Hc%list_elem_of_In. specialize (Hdig k). rewrite forallb_forall in Hdig. auto. }
  unfold str_v4. cbn [join_chars]. rewrite !elem_of_app, !list_elem_of_singleton.
  naive_solver.
Qed.

Lemma ip_address_str_v4 d n :
  (n < 2 ^ 32)%N → ip_address (str_ip d (V4 n)) = Some (V4 n).
Proof.
  intros H. unfold ip_address, str_ip. rewrite explode_implode, parse_str_v4 by done.
  rewrite bool_decide_eq_false_2; [done|].
  intros [Hd|Hd]%str_v4_chars; done.
Qed.

(** Parsed values fit their width. *)
Lemma parse_octet_bound l n : parse_octet l = Some n → (n < 256)%N.
Proof. unfold parse_octet. repeat case_scrut; try done. intros [= <-]. bool_prop. lia. Qed.

Lemma parse_v4_bound l n : parse_v4 l = Some n → (n < 2 ^ 32)%N.
Proof.
  unfold parse_v4. intros H.
  destruct (split_chars "." l) as [|o1 [|o2 [|o3 [|o4 [|]]]]]; try done.
  apply bind_Some in H as (a & Ha%parse_octet_bound & H).
  apply bind_Some in H as (b & Hb%parse_octet_bound & H).
  apply bind_Some in H as (c & Hc%parse_octet_bound & H).
  apply bind_Some in H as (d & Hd%parse_octet_bound & H).
  injection H as <-. lia.
Qed.

(** ** IPv6 text round-trips *)

Lemma lor_shift16 acc v : (v < 65536)%N → N.lor (N.shiftl acc 16) v = (acc * 65536 + v)%N.
Proof.
  intros H. rewrite N.shiftl_mul_pow2. change (2 ^ 16)%N with 65536%N.
  assert (N.land (acc * 65536) v = 0)%N as Hl.
  { apply N.bits_inj_0. intros n. rewrite N.land_spec. change 65536%N with (2 ^ 16)%N in *.
    destruct (N.lt_ge_cases n 16) as [Hn|Hn]; [by rewrite N.mul_pow2_bits_low|].
    rewrite <-(N.mod_small v (2 ^ 16)) by done.
    by rewrite N.mod_pow2_bits_high, andb_false_r. }
  by rewrite N.add_nocarry_lxor, N.lxor_lor.
Qed.

(** The value of a list of hextets, most significant first. *)
Definition hextets_value (acc : N) (vs : list N) : N := foldl (λ a v, a * 65536 + v)%N acc vs.

Lemma hextets_value_app acc vs ws :
  hextets_value acc (vs ++ ws) = hextets_value (hextets_value acc vs) ws.
Proof. apply foldl_app. Qed.

Lemma hextets_value_zeros acc n :
  hextets_value acc (replicate n 0%N) = N.shiftl acc (16 * N.of_nat n).
Proof.
  revert acc. induction n as [|n IH]; intros acc; cbn [replicate hextets_value foldl].
  - by rewrite N.shiftl_0_r.
  - rewrite IH, N.add_0_r, !N.shiftl_mul_pow2.
    change 65536%N with (2 ^ 16)%N. rewrite <-N.mul_assoc, <-N.pow_add_r. do 2 f_equal. lia.
Qed.

Lemma parse_hextets_hex16 acc vs :
  Forall (λ v, v < 65536)%N vs → parse_hextets acc (hex16 <$> vs) = Some (hextets_value acc vs).
Proof.
  intros Hvs. revert acc. induction Hvs as [|v vs Hv Hvs IH]; intros acc; [done|].
  cbn [fmap list_fmap parse_hextets]. rewrite hextet_roundtrip by done. cbn.
  rewrite lor_shift16 by done. apply IH.
Qed.

(** A run of zero hextets: [n] zeros from position [s]. *)
Definition zero_run (hs : list N) (s n : nat) : Prop :=
  s + n ≤ length hs ∧ take n (drop s hs) = replicate n 0%N.

Lemma zero_run_app hs hs' s n : zero_run hs s n → zero_run (hs ++ hs') s n.
Proof.
  intros [Hle Ht]. split; [rewrite length_app; lia|].
  rewrite drop_app_le, take_app_le by (rewrite ?length_drop; lia). done.
Qed.

Lemma zero_run_snoc hs s n :
  zero_run hs s n → s + n = length hs → zero_run (hs ++ [0%N]) s (S n).
Proof.
  intros [Hle Ht] Heq. split; [rewrite length_app; cbn; lia|].
  rewrite drop_app_le by lia. rewrite take_ge in Ht by (rewrite length_drop; lia).
  rewrite take_ge by (rewrite length_app, length_drop; cbn; lia).
  rewrite Ht. change [0%N] with (replicate 1 0%N). rewrite <-replicate_add. f_equal. lia.
Qed.

Lemma zero_runs_spec hs p start ln bs bl :
  zero_run p bs bl → (ln = 0 ∨ zero_run p start ln ∧ start + ln = length p) →
  let r := zero_runs (length p) start ln bs bl hs in zero_run (p ++ hs) r.1 r.2.
Proof.
  revert p start ln bs bl. induction hs as [|h hs IH]; intros p start ln bs bl Hb Hc; cbn.
  - by rewrite app_nil_r.
  - replace (p ++ h :: hs) with ((p ++ [h]) ++ hs) by (by rewrite <-app_assoc).
    replace (S (length p)) with (length (p ++ [h])) by (rewrite length_app; cbn; lia).
    case_bool_decide as Hz; [subst h|apply IH; [by apply zero_run_app|by left]].
    assert (zero_run (p ++ [0%N]) (if bool_decide (ln = 0) then length p else start) (S ln)
            ∧ (if bool_decide (ln = 0) then length p else start) + S ln = length (p ++ [0%N]))
      as [Hr Hl].
    { rewrite length_app. cbn. case_bool_decide; [subst ln|].
      - split; [|lia]. split; [rewrite length_app; cbn; lia|]. by rewrite drop_app_length.
      - destruct Hc as [|[Hr Hl]]; [done|]. split; [by apply zero_run_snoc|lia]. }
    destruct (bool_decide (bl < S ln)).
    + apply IH; [done|by right].
    + apply IH; [by apply zero_run_app|by right].
Qed.

(** The parts of a compressed address: what stands before and after ['::']. *)
Definition elided (pre post : list (list ascii)) : list (list ascii) :=
  (if pre is [] then [[]] else pre) ++ [[]] ++ (if post is [] then [[]] else post).

Lemma parse_parts_elided pre post :
  Forall (.≠ []) pre → Forall (.≠ []) post → length pre + length post ≤ 6 →
  parse_parts (elided pre post) =
    (h ← parse_hextets 0 pre;
     parse_hextets (N.shiftl h (16 * N.of_nat (8 - (length pre + length post)))) post).
Proof.
  intros Hpre Hpost Hlen.
  do 7 try (destruct pre as [|[|] pre];
    [|by apply Forall_cons in Hpre as [[] _]
     |apply Forall_cons in Hpre as [_ Hpre]; cbn [length] in Hlen]); try lia;
  do 7 try (destruct post as [|[|] post];
    [|by apply Forall_cons in Hpost as [[] _]
     |apply Forall_cons in Hpost as [_ Hpost]; cbn [length] in Hlen]); try lia;
  lazy -[parse_hextets N.shiftl N.mul N.of_nat]; done.
Qed.

Lemma parse_parts_full ps :
  Forall (.≠ []) ps → length ps = 8 → parse_parts ps = parse_hextets 0 ps.
Proof.
  intros Hps Hlen.
  do 8 (destruct ps as [|[|] ps];
    [done|by apply Forall_cons in Hps as [[] _]
     |apply Forall_cons in Hps as [_ Hps]; cbn [length] in Hlen]).
  destruct ps; [|done]. lazy -[parse_hextets]; done.
Qed.

Lemma hex16_nonempty vs : Forall (λ v, v < 65536)%N vs → Forall (.≠ []) (hex16 <$> vs).
Proof.
  intros Hvs. rewrite Forall_fmap. eapply Forall_impl; [done|]. cbn. intros v Hv.
  by apply (parse_hextet_Some _ v), hextet_roundtrip.
Qed.

Lemma compress_elided hs s n :
  zero_runs 0 0 0 0 0 hs = (s, n) → 1 < n → s + n ≤ length hs →
  compress hs = elided (hex16 <$> take s hs) (hex16 <$> drop (s + n) hs).
Proof.
  intros Hz Hn Hle. unfold compress, elided. rewrite Hz, bool_decide_eq_true_2 by done.
  assert (∀ q, take s ((hex16 <$> hs) ++ q) = hex16 <$> take s hs) as Htake.
  { intros q. rewrite take_app_le by (rewrite length_fmap; lia). by rewrite fmap_take. }
  assert ((if bool_decide (s + n = length hs) then (hex16 <$> hs) ++ [[]] else hex16 <$> hs)
          = (hex16 <$> hs) ++ (if bool_decide (s + n = length hs) then [[]] else [])) as ->
    by (case_bool_decide; by rewrite ?app_nil_r).
  rewrite Htake, drop_app_le by (rewrite length_fmap; lia). rewrite <-fmap_drop.
  assert ((hex16 <$> drop (s + n) hs) ++ (if bool_decide (s + n = length hs) then [[]] else [])
          = if hex16 <$> drop (s + n) hs is [] then [[]] else hex16 <$> drop (s + n) hs) as ->.
  { case_bool_decide as Hd.
    - by rewrite Hd, drop_all.
    - destruct (drop (s + n) hs) eqn:E; [|by rewrite app_nil_r].
      apply (f_equal length) in E. rewrite length_drop in E. cbn in E. lia. }
  case_bool_decide as Hs; [by subst s|].
  destruct hs as [|h hs]; [cbn in Hle; lia|]. by destruct s.
Qed.

Lemma parse_compress hs :
  length hs = 8 → Forall (λ v, v < 65536)%N hs →
  parse_parts (compress hs) = Some (hextets_value 0 hs).
Proof.
  intros Hlen Hhs. destruct (zero_runs 0 0 0 0 0 hs) as [s n] eqn:Hz.
  destruct (decide (1 < n)) as [Hn|Hn].
  - pose proof (zero_runs_spec hs [] 0 0 0 0) as Hspec. cbn in Hspec. rewrite Hz in Hspec.
    destruct Hspec as [Hle Hzeros]; [by split|by left|]. cbn in Hle, Hzeros.
    rewrite (compress_elided hs s n) by done.
    assert (Forall (λ v, v < 65536)%N (take s hs)) as Ht by (by apply Forall_take).
    assert (Forall (λ v, v < 65536)%N (drop (s + n) hs)) as Hd by (by apply Forall_drop).
    rewrite parse_parts_elided;
      [|by apply hex16_nonempty|by apply hex16_nonempty
       |rewrite !length_fmap, length_take, length_drop; lia].
    rewrite !length_fmap, length_take, length_drop.
    replace (8 - (s `min` length hs + (length hs - (s + n)))) with n by lia.
    rewrite parse_hextets_hex16 by done. cbn [mbind option_bind].
    rewrite parse_hextets_hex16 by done. f_equal.
    rewrite <-hextets_value_zeros, <-Hzeros, <-!hextets_value_app. f_equal.
    rewrite <-(take_drop s hs) at 4. f_equal.
    rewrite <-(take_drop n (drop s hs)) at 2. by rewrite drop_drop.
  - unfold compress. rewrite Hz, bool_decide_eq_false_2 by done.
    rewrite parse_parts_full; [by apply parse_hextets_hex16|by apply hex16_nonempty|].
    by rewrite length_fmap.
Qed.

Lemma hextets_bound ip : Forall (λ v, v < 65536)%N (hextets ip).
Proof. unfold hextets. repeat constructor; cbn [fmap list_fmap]; lia. Qed.

Lemma hextets_value_hextets ip : (ip < 2 ^ 128)%N → hextets_value 0 (hextets ip) = ip.
Proof.
  intros H. unfold hextets_value, hextets. cbn [fmap list_fmap foldl].
  rewrite !N.shiftr_div_pow2.
  change (2 ^ 16)%N with 65536%N. change (2 ^ (16 * 0))%N with 1%N.
  change (2 ^ (16 * 1))%N with 65536%N.
  replace (2 ^ (16 * 2))%N with (65536 * 65536)%N by done.
  replace (2 ^ (16 * 3))%N with (65536 * 65536 * 65536)%N by done.
  replace (2 ^ (16 * 4))%N with (65536 * 65536 * 65536 * 65536)%N by done.
  replace (2 ^ (16 * 5))%N with (65536 * 65536 * 65536 * 65536 * 65536)%N by done.
  replace (2 ^ (16 * 6))%N with (65536 * 65536 * 65536 * 65536 * 65536 * 65536)%N by done.
  replace (2 ^ (16 * 7))%N
    with (65536 * 65536 * 65536 * 65536 * 65536 * 65536 * 65536)%N by done.
  rewrite <-!N.Div0.div_div, N.div_1_r.
  assert (ip / 65536 / 65536 / 65536 / 65536 / 65536 / 65536 / 65536 < 65536)%N as Htop.
  { rewrite !N.Div0.div_div. apply N.Div0.div_lt_upper_bound. exact H. }
  rewrite (N.mod_small (_ / _ / _ / _ / _ / _ / _)) by done.
  assert (∀ a, a / 65536 * 65536 + a mod 65536 = a)%N as Hdm
    by (intros a; rewrite N.mul_comm; symmetry; apply N.div_mod').
  by rewrite N.mul_0_l, N.add_0_l, !Hdm.
Qed.

Lemma hex_char_not c : hex_val c = None → ∀ v, (v < 65536)%N → c ∉ hex16 v.
Proof.
  intros Hc v Hv Hin. pose proof (hextet_roundtrip v Hv) as [Hall _]%parse_hextet_Some.
  rewrite Forall_forall in Hall. destruct (Hall c Hin) as [? ?]. congruence.
Qed.

Lemma elem_of_elided c pre post p :
  p ∈ elided pre post → c ∈ p → ∃ q, (q ∈ pre ∨ q ∈ post) ∧ c ∈ q.
Proof.
  unfold elided. rewrite !elem_of_app, list_elem_of_singleton.
  destruct pre, post; rewrite ?list_elem_of_singleton; intros Hp Hc;
    destruct Hp as [?|[?|?]]; subst; try (by apply not_elem_of_nil in Hc); eauto.
Qed.

(** The parts of the text of an IPv6 address hold hexadecimal digits only. *)
Lemma compress_chars hs p c :
  length hs = 8 → Forall (λ v, v < 65536)%N hs → p ∈ compress hs → c ∈ p → is_Some (hex_val c).
Proof.
  intros Hlen Hhs Hp Hc. destruct (hex_val c) as [v|] eqn:E; [done|]. exfalso.
  assert (∀ vs q, Forall (λ v, v < 65536)%N vs → q ∈ hex16 <$> vs → c ∉ q) as Hno.
  { intros vs q Hvs (v & -> & Hv)%list_elem_of_fmap. rewrite Forall_forall in Hvs.
    by apply hex_char_not, Hvs. }
  destruct (zero_runs 0 0 0 0 0 hs) as [s n] eqn:Hz.
  destruct (decide (1 < n)) as [Hn|Hn].
  - pose proof (zero_runs_spec hs [] 0 0 0 0) as Hspec. cbn in Hspec. rewrite Hz in Hspec.
    destruct Hspec as [Hle _]; [by split|by left|]. cbn in Hle.
    rewrite (compress_elided hs s n) in Hp by done.
    destruct (elem_of_elided c _ _ p Hp Hc) as (q & [Hq|Hq] & Hcq);
      (eapply Hno; [|exact Hq|exact Hcq]); [by apply Forall_take|by apply Forall_drop].
  - unfold compress in Hp. rewrite Hz, bool_decide_eq_false_2 in Hp by done.
    by eapply Hno.
Qed.

Lemma compress_length hs : length hs = 8 → 3 ≤ length (compress hs).
Proof.
  intros Hlen. unfold compress. destruct (zero_runs 0 0 0 0 0 hs) as [s n] eqn:Hz.
  pose proof (zero_runs_spec hs [] 0 0 0 0) as Hspec. cbn in Hspec. rewrite Hz in Hspec.
  destruct Hspec as [Hle _]; [by split|by left|]. cbn in Hle.
  repeat case_bool_decide; cbn;
    rewrite ?length_app, ?length_take, ?length_app; cbn;
    rewrite ?length_drop, ?length_app, ?length_fmap; cbn; lia.
Qed.

Lemma str_v6_int_chars ip c : c ∈ str_v6_int ip → is_Some (hex_val c) ∨ c = ":"%char.
Proof.
  intros [->%list_elem_of_singleton|(w & Hw & Hc)]%elem_of_join_chars; [by right|left].
  by apply (compress_chars (hextets ip) w c eq_refl (hextets_bound ip)).
Qed.

Lemma split_str_v6_int ip : split_chars ":" (str_v6_int ip) = compress (hextets ip).
Proof.
  apply split_join_chars.
  - pose proof (compress_length (hextets ip) eq_refl) as H. intros E. rewrite E in H.
    cbn in H. lia.
  - apply Forall_forall. intros p Hp Hc.
    pose proof (compress_chars (hextets ip) _ _ eq_refl (hextets_bound ip) Hp Hc) as [v Hv]. done.
Qed.

Lemma parse_v6_int_str ip : (ip < 2 ^ 128)%N → parse_v6_int (str_v6_int ip) = Some ip.
Proof.
  intros H. unfold parse_v6_int. rewrite split_str_v6_int.
  pose proof (compress_length (hextets ip) eq_refl) as Hlen.
  rewrite bool_decide_eq_false_2.
  2: { intros E. rewrite <-split_str_v6_int, E in Hlen. cbn in Hlen. lia. }
  rewrite bool_decide_eq_false_2 by lia. unfold expand_v4_suffix.
  destruct (last (compress (hextets ip))) as [p|] eqn:El.
  - rewrite bool_decide_eq_false_2; cbn.
    + rewrite parse_compress; [|done|apply hextets_bound].
      by rewrite hextets_value_hextets.
    + intros Hc. apply last_Some_elem_of in El.
      pose proof (compress_chars (hextets ip) _ _ eq_refl (hextets_bound ip) El Hc) as [v Hv]. done.
  - apply last_None in El. rewrite El in Hlen. cbn in Hlen. lia.
Qed.

Lemma partition_no_sep sep l : sep ∉ l → partition_chars sep l = (l, false, []).
Proof.
  induction l as [|c l IH]; [done|]. rewrite not_elem_of_cons. intros [Hc Hl]. cbn.
  by rewrite decide_False, IH.
Qed.

Lemma parse_v4_no_dot l : "."%char ∉ l → parse_v4 l = None.
Proof. intros H. unfold parse_v4. by rewrite split_chars_no_sep_id. Qed.

(** A canonical IPv6 text parses back, also with a dotted suffix. *)
Lemma parse_v6_int_str_v6 d ip : (ip < 2 ^ 128)%N → parse_v6_int (str_v6 d ip) = Some ip.
Proof.
  intros H. unfold str_v6. destruct d; [|by apply parse_v6_int_str].
  unfold ipv4_mapped. destruct (N.shiftr ip 32 =? 65535)%N eqn:E;
    [|by apply parse_v6_int_str].
  bool_prop. rewrite N.shiftr_div_pow2 in E. rewrite E.
  assert (ip mod 2 ^ 32 < 2 ^ 32)%N as Hlow by (by apply N.mod_lt).
  change (str_v6_int 65535) with (explode "::ffff").
  unfold parse_v6_int. rewrite bool_decide_eq_false_2 by done.
  assert (split_chars ":" (str_v4 (ip mod 2 ^ 32)) = [str_v4 (ip mod 2 ^ 32)]) as Hs
    by (apply split_chars_no_sep_id; by intros [|]%str_v4_chars).
  assert (split_chars ":" (explode "::ffff" ++ [":"%char] ++ str_v4 (ip mod 2 ^ 32))
          = [[]; []; explode "ffff"; str_v4 (ip mod 2 ^ 32)]) as ->
    by (cbn [explode list_ascii_of_string app split_chars]; rewrite Hs; reflexivity).
  cbn [length]. rewrite bool_decide_eq_false_2 by lia. unfold expand_v4_suffix. cbn [last].
  rewrite bool_decide_eq_true_2 by (unfold str_v4; cbn [join_chars]; set_solver).
  rewrite parse_str_v4 by done. cbn [mbind option_bind length take app Nat.sub].
  set (w1 := (_ / _ mod _)%N). set (w2 := (_ mod 2 ^ 16)%N).
  assert (Forall (λ v, v < 65536)%N [65535; w1; w2]%N) as Hw
    by (subst w1 w2; repeat constructor; apply N.mod_lt; done).
  pose proof (parse_parts_elided [] (hex16 <$> [65535; w1; w2]%N)) as Hp.
  etrans; [apply Hp; [done|by apply hex16_nonempty|cbn; lia]|]. clear Hp.
  cbn [parse_hextets mbind option_bind].
  rewrite (parse_hextets_hex16 _ [65535; w1; w2]%N) by done. rewrite N.shiftl_0_l. f_equal.
  subst w1 w2. cbn [hextets_value foldl].
  change (2 ^ 16)%N with 65536%N.
  rewrite (N.mod_small (ip mod 2 ^ 32 / 65536))
    by (apply N.Div0.div_lt_upper_bound; exact Hlow).
  pose proof (N.div_mod' (ip mod 2 ^ 32) 65536) as H1.
  pose proof (N.div_mod' ip (2 ^ 32)) as H2. rewrite E in H2.
  change (2 ^ 32)%N with 4294967296%N in *. clear -H1 H2.
  generalize dependent (ip mod 4294967296)%N. intros v. generalize (v / 65536)%N (v mod 65536)%N.
  lia.
Qed.

Lemma str_v6_chars d ip c :
  c ∈ str_v6 d ip → is_Some (hex_val c) ∨ c = ":"%char ∨ c = "."%char.
Proof.
  assert (is_digit c = true → is_Some (hex_val c)) as Hdig
    by (unfold hex_val; intros ->; done).
  assert (∀ k, c ∈ str_v6_int k → is_Some (hex_val c) ∨ c = ":"%char ∨ c = "."%char) as Hint
    by (intros k [|]%str_v6_int_chars; auto).
  unfold str_v6. repeat case_scrut; try apply Hint.
  rewrite !elem_of_app, list_elem_of_singleton.
  intros [H|[H|[H|H]%str_v4_chars]]; eauto.
Qed.

Lemma parse_octet_digits l n : parse_octet l = Some n → forallb is_digit l = true.
Proof. unfold parse_octet. repeat case_scrut; try done. intros _. by bool_prop. Qed.

Lemma parse_v4_chars l n c : parse_v4 l = Some n → c ∈ l → is_digit c = true ∨ c = "."%char.
Proof.
  unfold parse_v4. rewrite <-(join_split_chars "." l) at 2. intros H Hc.
  destruct (split_chars "." l) as [|o1 [|o2 [|o3 [|o4 [|]]]]]; try done.
  apply bind_Some in H as (? & H1%parse_octet_digits & H).
  apply bind_Some in H as (? & H2%parse_octet_digits & H).
  apply bind_Some in H as (? & H3%parse_octet_digits & H).
  apply bind_Some in H as (? & H4%parse_octet_digits & _).
  apply elem_of_join_chars in Hc as [Hc|(w & Hw & Hc)];
    [right; by apply list_elem_of_singleton in Hc|left].
  apply list_elem_of_In in Hc. rewrite forallb_forall in H1, H2, H3, H4.
  rewrite !elem_of_cons in Hw. destruct Hw as [->|[->|[->|[->|[]%not_elem_of_nil]]]]; auto.
Qed.

(** ** Printing then parsing gives the address back *)

Lemma str_v6_has_colon d ip : ":"%char ∈ str_v6 d ip.
Proof.
  assert (∀ k, ":"%char ∈ str_v6_int k) as Hint.
  { intros k. pose proof (compress_length (hextets k) eq_refl) as Hlen. unfold str_v6_int.
    destruct (compress (hextets k)) as [|w [|w' ws]]; try (cbn in Hlen; lia).
    change (join_chars [":"%char] (w :: w' :: ws))
      with (w ++ [":"%char] ++ join_chars [":"%char] (w' :: ws)). set_solver. }
  unfold str_v6. repeat case_scrut; rewrite ?elem_of_app; auto.
Qed.

Definition ip_in_range (a : ip_addr) : Prop :=
  match a with
  | V4 n => (n < 2 ^ 32)%N
  | V6 n z => (n < 2 ^ 128)%N ∧ z = None
  end.

Lemma ip_address_str_ip d a : ip_in_range a → ip_address (str_ip d a) = Some a.
Proof.
  destruct a as [n|n [z|]]; cbn.
  - apply (ip_address_str_v4 d).
  - by intros [_ ?].
  - intros [Hn _]. unfold ip_address. rewrite explode_implode.
    rewrite bool_decide_eq_false_2 by (by intros [[]|[|]]%str_v6_chars).
    assert (parse_v6 (str_v6 d n) = Some (V6 n None)) as Hv6.
    { unfold parse_v6. rewrite partition_no_sep by (by intros [[]|[|]]%str_v6_chars).
      by rewrite parse_v6_int_str_v6. }
    destruct (parse_v4 (str_v6 d n)) as [m|] eqn:E; [|done].
    exfalso. by destruct (parse_v4_chars _ _ _ E (str_v6_has_colon d n)).
Qed.

(** ** Parsed addresses are in range *)

Lemma hex_val_bound c v : hex_val c = Some v → (v < 16)%N.
Proof.
  unfold hex_val. repeat case_scrut; try done; intros [= <-];
    match goal with H : _ = true |- _ => apply in_range_spec in H; lia end.
Qed.

Lemma hex_value_bound acc l n :
  hex_value acc l = Some n → (n < (acc + 1) * 16 ^ N.of_nat (length l))%N.
Proof.
  revert acc. induction l as [|c l IH]; intros acc; cbn [hex_value length].
  - intros [= ->]. cbn. lia.
  - intros (v & Hv%hex_val_bound & Hn%IH)%bind_Some.
    rewrite Nat2N.inj_succ, N.pow_succ_r'. eapply N.lt_le_trans; [exact Hn|].
    rewrite N.mul_assoc. apply N.mul_le_mono_r. lia.
Qed.

Lemma parse_hextet_bound l n : parse_hextet l = Some n → (n < 65536)%N.
Proof.
  unfold parse_hextet. repeat case_scrut; try done. intros Hn%hex_value_bound.
  bool_prop. eapply N.lt_le_trans; [exact Hn|].
  rewrite N.add_0_l, N.mul_1_l. change 65536%N with (16 ^ 4)%N.
  apply N.pow_le_mono_r; lia.
Qed.

Lemma parse_hextets_bound acc ps n k :
  parse_hextets acc ps = Some n → (acc < 2 ^ (16 * N.of_nat k))%N →
  (n < 2 ^ (16 * N.of_nat (k + length ps)))%N.
Proof.
  revert acc k. induction ps as [|p ps IH]; intros acc k; cbn [parse_hextets length].
  - intros [= ->]. by rewrite Nat.add_0_r.
  - intros (v & Hv%parse_hextet_bound & Hn)%bind_Some Hacc.
    rewrite lor_shift16 in Hn by done.
    replace (k + S (length ps)) with (S k + length ps) by lia. eapply IH; [exact Hn|].
    rewrite Nat2N.inj_succ, N.mul_succ_r, N.pow_add_r. change (2 ^ 16)%N with 65536%N. lia.
Qed.

Lemma two_pass_bound hi lo (ps qs : list (list ascii)) n h :
  hi + lo ≤ 8 → length ps ≤ hi → length qs ≤ lo →
  parse_hextets 0 ps = Some h →
  parse_hextets (N.shiftl h (16 * N.of_nat (8 - (hi + lo)))) qs = Some n →
  (n < 2 ^ 128)%N.
Proof.
  intros Hle Hps Hqs Hh Hn. apply (parse_hextets_bound _ _ _ 0) in Hh; [|done].
  eapply (parse_hextets_bound _ _ _ (8 - lo)) in Hn.
  - eapply N.lt_le_trans; [exact Hn|]. apply N.pow_le_mono_r; [done|]. lia.
  - rewrite N.shiftl_mul_pow2.
    replace (16 * N.of_nat (8 - lo))%N
      with (16 * N.of_nat hi + 16 * N.of_nat (8 - (hi + lo)))%N by lia.
    rewrite N.pow_add_r. apply N.mul_lt_mono_pos_r; [apply N.neq_0_lt_0, N.pow_nonzero; done|].
    eapply N.lt_le_trans; [exact Hh|]. apply N.pow_le_mono_r; [done|]. lia.
Qed.

Lemma parse_parts_bound ps n : parse_parts ps = Some n → (n < 2 ^ 128)%N.
Proof.
  unfold parse_parts. case_bool_decide; [done|]. destruct (find_skip ps) as [[i|]|]; [| |done].
  - set (hi := if first_empty ps then i - 1 else i).
    set (lo := if last_empty ps then _ else _).
    repeat case_scrut; try done. bool_prop. intros (h & Hh & Hn)%bind_Some.
    eapply (two_pass_bound hi lo _ _ n h); [lia| | |exact Hh|exact Hn].
    + rewrite length_take. lia.
    + rewrite length_drop. lia.
  - repeat case_scrut; try done. bool_prop. intros Hn%(parse_hextets_bound _ _ _ 0); [|done].
    match goal with H : length ps = 8 |- _ => rewrite H in Hn end. exact Hn.
Qed.

Lemma parse_v6_int_bound l n : parse_v6_int l = Some n → (n < 2 ^ 128)%N.
Proof.
  unfold parse_v6_int. repeat case_scrut; try done.
  by intros (ps & _ & ?%parse_parts_bound)%bind_Some.
Qed.

(** A parsed address without a scope id is in range. *)
Definition ip_bounded (a : ip_addr) : Prop :=
  match a with V4 n => (n < 2 ^ 32)%N | V6 n _ => (n < 2 ^ 128)%N end.

Lemma ip_address_bounded s a : ip_address s = Some a → ip_bounded a.
Proof.
  unfold ip_address. case_bool_decide; [done|].
  destruct (parse_v4 (explode s)) eqn:E.
  - intros [= <-]. by apply parse_v4_bound in E.
  - unfold parse_v6. destruct (partition_chars _ _) as [[addr sep] scope].
    repeat case_scrut; try done;
      intros (n & Hn%parse_v6_int_bound & [= <-])%bind_Some; done.
Qed.
