(* ===== verification/PyText.v ===== *)
(** The text of values: decimal digits ([str(n)] and zero-padded numbers are read back
    by [int()] and by fixed-width parsers), [str] and [repr] of decoded JSON with [int]
    and [float] of them, and MD5 of a text ([hashlib.md5(s.encode()).hexdigest()], RFC
    1321 on the UTF-8 bytes), which the fleets use to spread images over clusters and to
    shorten labels. *)

From Stdlib Require Import Ascii String ZArith NArith Lia QArith Qround.
From stdpp Require Import base option list strings pretty.
From S2P Require Import Prelude Float IpAddress Json PyList.

#[local] Open Scope Z_scope.

(** Digits with single underscores between them, as a value and a count. *)
Fixpoint int_digits (acc : Z) (n : nat) (after_digit : bool) (l : list ascii) : option (Z * nat) :=
  match l with
  | [] => if after_digit then Some (acc, n) else None
  | c :: l' =>
      if is_digit c then int_digits (acc * 10 + Z.of_N (digit_val c)) (S n) true l'
      else if bool_decide (c = "_"%char) && after_digit then int_digits acc n false l'
      else None
  end.

(** [int(s)]: blanks around, an optional sign, at most 4300 digits. *)
Definition py_int (s : string) : option Z :=
  let '(neg, ds) := sign_chars (explode (strip s)) in
  '(v, n) ← int_digits 0 0 false ds;
  if bool_decide (4300 < n)%nat then None else Some (if neg : bool then - v else v).


(** A Python number given as an argument. *)
Inductive py_number := NInt (z : Z) | NFloat (f : pyfloat).

(** [math.isfinite(v) and v > 0] *)
Definition finite_positive (v : py_number) : bool :=
  match v with
  | NInt z => 0 <? z
  | NFloat (PFin q) => Qlt_bool 0 q
  | NFloat _ => false
  end.

(** [a < b] on numbers; nothing compares with NaN. *)
Definition num_lt (a b : py_number) : bool :=
  let f v := match v with NInt z => PFin (inject_Z z) | NFloat f => f end in
  match f a, f b with
  | PFin p, PFin q => Qlt_bool p q
  | PFin _, PInf | PNegInf, PFin _ | PNegInf, PInf => true
  | _, _ => false
  end.

(** [max(a, b)]: the first one unless the second is greater. *)
Definition num_max (a b : py_number) : py_number := if num_lt a b then b else a.

(** [a + n]; floats are exact here, binary rounding is not modelled. *)
Definition num_add (a : py_number) (n : Z) : py_number :=
  match a with
  | NInt z => NInt (z + n)
  | NFloat (PFin q) => NFloat (PFin (q + inject_Z n)%Q)
  | NFloat f => NFloat f
  end.

(** The number a sequence of digits continues. *)
Definition digits_value (acc : Z) (l : list ascii) : Z :=
  foldl (λ a c, a * 10 + Z.of_N (code c - 48)) acc l.

Lemma digits_value_app acc l l' : digits_value acc (l ++ l') = digits_value (digits_value acc l) l'.
Proof. apply foldl_app. Qed.

Lemma digits_value_zeros n l : digits_value 0 (replicate n "0"%char ++ l) = digits_value 0 l.
Proof. induction n as [|n IH]; [done|]. cbn. exact IH. Qed.

Lemma pretty_N_char_digit x :
  (x < 10)%N → is_digit (pretty_N_char x) = true ∧ (code (pretty_N_char x) - 48 = x)%N.
Proof.
  intros H. assert (x ∈ [0; 1; 2; 3; 4; 5; 6; 7; 8; 9])%N as Hin.
  { rewrite !elem_of_cons. lia. }
  repeat (apply elem_of_cons in Hin as [->|Hin]; [by vm_compute|]). by apply elem_of_nil in Hin.
Qed.

Lemma pretty_N_go_spec x s :
  ∃ l, explode (pretty_N_go x s) = l ++ explode s ∧ Forall (λ c, is_digit c = true) l ∧
    digits_value 0 l = Z.of_N x ∧ (∀ n, Z.of_N x < 10 ^ Z.of_nat n → (length l ≤ n)%nat) ∧
    (x ≠ 0%N → l ≠ []).
Proof.
  revert s. induction (N.lt_wf_0 x) as [x _ IH]. intros s.
  destruct (decide (x = 0%N)) as [->|Hx].
  { rewrite pretty_N_go_0. exists []. split_and!; [done|constructor|done|cbn; lia|done]. }
  rewrite pretty_N_go_step by lia.
  destruct (IH (x / 10)%N) with (s := String (pretty_N_char (x mod 10)) s) as (l & Hl & Hd & Hv & Hn & _).
  { apply N.div_lt; lia. }
  destruct (pretty_N_char_digit (x mod 10)) as [Hc1 Hc2]; [by apply N.mod_lt|].
  exists (l ++ [pretty_N_char (x mod 10)]). split_and!.
  - rewrite Hl, <-app_assoc. done.
  - apply Forall_app. split; [done|]. by constructor.
  - rewrite digits_value_app, Hv. unfold digits_value. cbn [foldl]. rewrite Hc2.
    pose proof (N.div_mod x 10 ltac:(done)). lia.
  - intros n Hxn. rewrite length_app. cbn [length]. destruct n as [|n]; [cbn in Hxn; lia|].
    enough (length l ≤ n)%nat by lia. apply Hn.
    rewrite Nat2Z.inj_succ, Z.pow_succ_r in Hxn by lia. rewrite N2Z.inj_div. cbn.
    apply Z.div_lt_upper_bound; lia.
  - intros _ ?%app_nil. naive_solver.
Qed.

(** [str(z)] of a natural number: its digits. *)
Lemma pretty_Z_digits z :
  0 ≤ z → Forall (λ c, is_digit c = true) (explode (pretty z)) ∧
    digits_value 0 (explode (pretty z)) = z ∧ explode (pretty z) ≠ [] ∧
    ∀ n, z < 10 ^ Z.of_nat n → (1 ≤ n)%nat → (length (explode (pretty z)) ≤ n)%nat.
Proof.
  intros Hz. destruct z as [|p|p]; [|clear Hz|lia].
  { split_and!; [by repeat constructor|done|done|]. intros n _ Hn. cbn. lia. }
  assert (pretty (Z.pos p) = pretty_N_go (N.pos p) "") as ->.
  { unfold pretty, pretty_Z, pretty, pretty_positive, pretty, pretty_N. by rewrite decide_False. }
  destruct (pretty_N_go_spec (N.pos p) "") as (l & Hl & Hd & Hv & Hn & Hne).
  rewrite app_nil_r in Hl. rewrite Hl. split_and!; [done|done|by apply Hne|].
  intros n Hp _. apply Hn. done.
Qed.

Lemma digit_not_space c : is_digit c = true → is_space c = false.
Proof.
  unfold is_digit, is_space. rewrite in_range_spec. intros H. apply not_true_iff_false.
  rewrite !orb_true_iff, !in_range_spec, !N.eqb_eq. lia.
Qed.

Lemma int_digits_all l : ∀ acc n,
  Forall (λ c, is_digit c = true) l → (l ≠ [] ∨ (0 < n)%nat) →
  int_digits acc n (bool_decide (0 < n)%nat) l = Some (digits_value acc l, (n + length l)%nat).
Proof.
  induction l as [|c l IH]; intros acc n Hd Hne.
  - destruct Hne as [|Hn]; [done|]. cbn [int_digits length]. rewrite bool_decide_true by done.
    by rewrite Nat.add_0_r.
  - apply Forall_cons in Hd as [Hc Hd]. cbn [int_digits]. rewrite Hc.
    specialize (IH (acc * 10 + Z.of_N (digit_val c)) (S n) Hd ltac:(right; lia)).
    rewrite bool_decide_true in IH by lia. rewrite IH. cbn [length]. f_equal. f_equal. lia.
Qed.

Lemma sign_chars_digit c l : is_digit c = true → sign_chars (c :: l) = (false, c :: l).
Proof. by destruct c as [[] [] [] [] [] [] [] []]. Qed.

Lemma under_digit_limit n : (n ≤ 18)%nat → bool_decide (4300 < n)%nat = false.
Proof.
  intros H. apply bool_decide_eq_false_2. intros H'.
  assert (4300 < 18)%nat as F by (by eapply Nat.lt_le_trans).
  by apply Nat.ltb_lt in F.
Qed.

(** [int(str(z)) == z], for numbers of up to 18 digits. *)
Lemma py_int_pretty z : Z.abs z < 10 ^ 18 → py_int (pretty z) = Some z.
Proof.
  intros Hz. set (a := Z.abs z). assert (0 ≤ a) as Ha by (subst a; lia).
  destruct (pretty_Z_digits a Ha) as (Hd & Hv & Hne & Hl).
  specialize (Hl 18%nat Hz ltac:(lia)).
  assert (explode (pretty z) = (if decide (z < 0) then ["-"%char] else []) ++ explode (pretty a)) as He.
  { subst a. destruct z; [done|done|]. done. }
  assert (strip (pretty z) = pretty z) as Hs.
  { apply strip_id. rewrite He. intros c [Hc|Hc]%elem_of_app.
    - case_decide; [|by apply elem_of_nil in Hc]. apply list_elem_of_singleton in Hc as ->. done.
    - rewrite Forall_forall in Hd. by apply digit_not_space, Hd. }
  unfold py_int. rewrite Hs, He. destruct (explode (pretty a)) as [|c l] eqn:El; [done|].
  pose proof (int_digits_all (c :: l) 0 0 Hd (or_introl Hne)) as Hi.
  rewrite bool_decide_false in Hi by lia. rewrite Nat.add_0_l, Hv in Hi.
  apply Forall_cons in Hd as [Hc _].
  destruct (decide (z < 0)).
  - cbn [app sign_chars]. rewrite Hi. cbn [mbind option_bind]. rewrite under_digit_limit by done.
    f_equal. subst a. lia.
  - cbn [app]. rewrite sign_chars_digit by done. rewrite Hi. cbn [mbind option_bind].
    rewrite under_digit_limit by done. f_equal. subst a. lia.
Qed.

(** * [str] and [repr] *)

Section repr_text.
#[local] Open Scope Z_scope.

(** ** Floats

    The shortest decimal that rounds to the float, the closest one of that
    length. *)

Definition pow10 (e : Z) : Q := Qpower 10 e.

Definition z_digits (z : Z) : list ascii := explode (pretty z).

(** [10^e ≤ q < 10^(e+1)], for a positive [q] *)
Definition decimal_exponent (q : Q) : Z :=
  if Qle_bool 1 q then Z.of_nat (length (z_digits (Qfloor q))) - 1
  else - Z.of_nat (length (z_digits (Qceiling (/ q) - 1))).

Definition rounds_to (q : Q) (scale : Q) (c : Z) : bool :=
  Qeq_bool (nearest (Qred (inject_Z c * scale))) q.

Fixpoint shortest (fuel : nat) (n : Z) (q : Q) (e : Z) : Z * Z :=
  let k := e - n + 1 in
  let x := Qred (q * pow10 (- k)) in
  let c := round_half_even x in
  match fuel with
  | O => (c, k)
  | S fuel' =>
      match filter (λ d, rounds_to q (pow10 k) d = true) [c; Qfloor x; Qfloor x + 1] with
      | d :: _ => (d, k)
      | [] => shortest fuel' (n + 1) q e
      end
  end.

Definition zeros (n : Z) : list ascii := replicate (Z.to_nat n) "0"%char.

(** The digits and the place of the point, as [repr] writes them. *)
Definition format_r (ds : list ascii) (decpt : Z) : list ascii :=
  let n := Z.of_nat (length ds) in
  if (decpt <=? -4) || (16 <? decpt) then
    let e := decpt - 1 in
    let ed := z_digits (Z.abs e) in
    take 1 ds ++ (if n =? 1 then [] else "."%char :: drop 1 ds) ++ ["e"%char; if e <? 0 then "-"%char else "+"%char]
      ++ zeros (2 - Z.of_nat (length ed)) ++ ed
  else if decpt <=? 0 then ["0"%char; "."%char] ++ zeros (- decpt) ++ ds
  else if n <=? decpt then ds ++ zeros (decpt - n) ++ ["."%char; "0"%char]
  else take (Z.to_nat decpt) ds ++ "."%char :: drop (Z.to_nat decpt) ds.

Definition positive_repr (q : Q) : list ascii :=
  let '(c, k) := shortest 16 1 q (decimal_exponent q) in
  let ds := z_digits c in
  format_r (rstrip_chars (λ c, bool_decide (c = "0"%char)) ds) (Z.of_nat (length ds) + k).

(** The model has one zero: [-0.0] is written as [0.0]. *)
Definition float_repr (f : pyfloat) : string :=
  match f with
  | PInf => "inf"
  | PNegInf => "-inf"
  | PNaN => "nan"
  | PFin q =>
      if Qeq_bool q 0 then "0.0"
      else if Qlt_bool 0 q then implode (positive_repr q)
      else implode ("-"%char :: positive_repr (- q)%Q)
  end.

(** ** Strings; characters are code points below 256 *)

Definition nibble_char (n : N) : ascii := chr (if (n <? 10)%N then 48 + n else 87 + n).

Definition hex_escape (c : ascii) : list ascii :=
  ["\"%char; "x"%char; nibble_char (code c / 16); nibble_char (code c mod 16)].

Definition repr_char (quote c : ascii) : list ascii :=
  if bool_decide (c = quote ∨ c = "\"%char) then ["\"%char; c]
  else if (code c =? 9)%N then ["\"%char; "t"%char]
  else if (code c =? 10)%N then ["\"%char; "n"%char]
  else if (code c =? 13)%N then ["\"%char; "r"%char]
  else if in_range 32 126 c then [c]
  else if in_range 161 172 c || in_range 174 255 c then [c]
  else hex_escape c.

Definition str_repr (s : string) : string :=
  let dq := chr 34 in
  let sq := chr 39 in
  let quote := if has_char sq s && negb (has_char dq s) then dq else sq in
  implode (quote :: concat (repr_char quote <$> explode s) ++ [quote]).

(** ** Values *)

Fixpoint repr (v : json) : string :=
  match v with
  | JNull => "None"
  | JBool b => if b then "True" else "False"
  | JInt z => pretty z
  | JFloat f => float_repr f
  | JStr s => str_repr s
  | JList l => "[" +:+ join ", " (map repr l) +:+ "]"
  | JObj kvs =>
      "{" +:+ join ", "
        ((fix go (l : list (string * json)) : list string :=
            match l with
            | [] => []
            | (k, x) :: l' => (str_repr k +:+ ": " +:+ repr x) :: go l'
            end) kvs) +:+ "}"
  end.

(** [str(v)] *)
Definition py_str (v : json) : string :=
  match v with JStr s => s | _ => repr v end.

(** [int(v)] *)
Definition int_of_json (v : json) : outcome Z :=
  match v with
  | JInt z => Ret z
  | JBool b => Ret (if b then 1 else 0)
  | JFloat f => ftrunc f
  | JStr s => match py_int s with Some z => Ret z | None => Raise ValueError end
  | _ => Raise TypeError
  end.

(** [float(v)] *)
Definition float_of_json (v : json) : outcome pyfloat :=
  match v with
  | JInt z => float_of_int z
  | JBool b => Ret (PFin (if b then 1 else 0)%Q)
  | JFloat f => Ret f
  | JStr s => py_float s
  | _ => Raise TypeError
  end.
End repr_text.

(** * MD5 *)

(** The UTF-8 bytes of a text of code points below 256. *)
Definition utf8_bytes (l : list ascii) : list ascii :=
  l ≫= λ c, if (code c <? 128)%N then [c]
            else [chr (192 + code c / 64)%N; chr (128 + code c mod 64)%N].

Section md5_text.
#[local] Open Scope Z_scope.

Definition w32 (z : Z) : Z := z mod 2 ^ 32.

Definition rotl (z n : Z) : Z := Z.lor (w32 (Z.shiftl z n)) (Z.shiftr z (32 - n)).

(** [floor(2^32 * abs(sin(i + 1)))] *)
Definition md5_k : list Z :=
  [3614090360; 3905402710; 606105819; 3250441966; 4118548399; 1200080426;
   2821735955; 4249261313; 1770035416; 2336552879; 4294925233; 2304563134;
   1804603682; 4254626195; 2792965006; 1236535329; 4129170786; 3225465664;
   643717713; 3921069994; 3593408605; 38016083; 3634488961; 3889429448;
   568446438; 3275163606; 4107603335; 1163531501; 2850285829; 4243563512;
   1735328473; 2368359562; 4294588738; 2272392833; 1839030562; 4259657740;
   2763975236; 1272893353; 4139469664; 3200236656; 681279174; 3936430074;
   3572445317; 76029189; 3654602809; 3873151461; 530742520; 3299628645;
   4096336452; 1126891415; 2878612391; 4237533241; 1700485571; 2399980690;
   4293915773; 2240044497; 1873313359; 4264355552; 2734768916; 1309151649;
   4149444226; 3174756917; 718787259; 3951481745].

Definition md5_s : list Z :=
  let r l := l ++ l ++ l ++ l in
  r [7; 12; 17; 22] ++ r [5; 9; 14; 20] ++ r [4; 11; 16; 23] ++ r [6; 10; 15; 21].

Definition nth0 (l : list Z) (i : Z) : Z := default 0 (l !! Z.to_nat i).

(** One of the 64 operations on a block of sixteen words. *)
Definition md5_op (block : list Z) (st : Z * Z * Z * Z) (i : Z) : Z * Z * Z * Z :=
  let '(a, b, c, d) := st in
  let not_ x := Z.lxor x (2 ^ 32 - 1) in
  let '(f, g) :=
    if i <? 16 then (Z.lor (Z.land b c) (Z.land (not_ b) d), i)
    else if i <? 32 then (Z.lor (Z.land d b) (Z.land (not_ d) c), (5 * i + 1) mod 16)
    else if i <? 48 then (Z.lxor b (Z.lxor c d), (3 * i + 5) mod 16)
    else (Z.lxor c (Z.lor b (not_ d)), (7 * i) mod 16) in
  let x := w32 (a + f + nth0 md5_k i + nth0 block g) in
  (d, w32 (b + rotl x (nth0 md5_s i)), b, c).

Definition md5_block (st : Z * Z * Z * Z) (block : list Z) : Z * Z * Z * Z :=
  let '(a, b, c, d) := st in
  let '(a', b', c', d') := foldl (md5_op block) st (seqZ 0 64) in
  (w32 (a + a'), w32 (b + b'), w32 (c + c'), w32 (d + d')).

(** [n] bytes of a number, least significant first *)
Fixpoint le_bytes (n : nat) (z : Z) : list Z :=
  match n with O => [] | S n' => z mod 256 :: le_bytes n' (z / 256) end.

Definition of_le_bytes (l : list Z) : Z := foldr (λ b acc, b + 256 * acc) 0 l.

Definition md5_pad (l : list Z) : list Z :=
  let n := Z.of_nat (length l) in
  l ++ [128] ++ replicate (Z.to_nat ((55 - n) mod 64)) 0 ++ le_bytes 8 (8 * n).

(** Pieces of [n] elements *)
Fixpoint chunks {A} (fuel n : nat) (l : list A) : list (list A) :=
  match fuel, l with
  | S fuel', _ :: _ => take n l :: chunks fuel' n (drop n l)
  | _, _ => []
  end.

(** The sixteen bytes of the digest. *)
Definition md5_bytes (l : list Z) : list Z :=
  let p := md5_pad l in
  let blocks := chunks (length p) 64 p in
  let words b := of_le_bytes <$> chunks (length b) 4 b in
  let '(a, b, c, d) := foldl md5_block (1732584193, 4023233417, 2562383102, 271733878)
                             (words <$> blocks) in
  le_bytes 4 a ++ le_bytes 4 b ++ le_bytes 4 c ++ le_bytes 4 d.

Definition hex_digit (z : Z) : ascii := chr (Z.to_N (if z <? 10 then 48 + z else 87 + z)).

Definition hex (l : list Z) : string := implode (l ≫= λ b, [hex_digit (b / 16); hex_digit (b mod 16)]).

Definition str_bytes (s : string) : list Z := (λ c, Z.of_N (code c)) <$> utf8_bytes (explode s).

Definition md5_hexdigest (s : string) : string := hex (md5_bytes (str_bytes s)).

(** [int(md5(s).hexdigest(), 16)] *)
Definition md5_int (s : string) : Z := foldl (λ acc b, 256 * acc + b) 0 (md5_bytes (str_bytes s)).

Lemma md5_int_nonneg s : 0 ≤ md5_int s.
Proof.
  unfold md5_int, md5_bytes. destruct (foldl md5_block _ _) as [[[a b] c] d].
  assert (∀ n z, Forall (λ b, 0 ≤ b) (le_bytes n z)) as Hle.
  { induction n as [|n IH]; intros z; cbn; constructor; [by apply Z.mod_pos_bound|apply IH]. }
  assert (∀ l acc, Forall (λ b, 0 ≤ b) l → 0 ≤ acc → 0 ≤ foldl (λ acc b, 256 * acc + b) acc l) as Hf.
  { induction l as [|b' l IH]; intros acc Hl Ha; [done|]. apply Forall_cons in Hl as [Hb Hl].
    cbn [foldl]. apply IH; [done|]. lia. }
  apply Hf; [|done]. by repeat (apply Forall_app; split).
Qed.
End md5_text.
