(* ===== verification/Regex.v ===== *)
(** The fragment of Python's [re] the validators use: character sets,
    concatenation, alternation and repetition, anchored with [^] and [$].

    Matching runs by derivatives; [rmatch_lang] relates it to the language of
    the expression. [re_match] and [re_fullmatch] are the two entry points of
    the code: with [match], the final [$] also matches before a trailing
    newline, with [fullmatch] it does not. *)

From Stdlib Require Import Ascii String.
From stdpp Require Import base list strings sets.
From S2P Require Import Prelude.

Inductive regex :=
  | REmpty
  | REps
  | RSet (p : ascii → bool)
  | RSeq (r1 r2 : regex)
  | RAlt (r1 r2 : regex)
  | RStar (r : regex).

Definition ROpt (r : regex) : regex := RAlt r REps.

Fixpoint nullable (r : regex) : bool :=
  match r with
  | REmpty | RSet _ => false
  | REps | RStar _ => true
  | RSeq r1 r2 => nullable r1 && nullable r2
  | RAlt r1 r2 => nullable r1 || nullable r2
  end.

Fixpoint deriv (r : regex) (c : ascii) : regex :=
  match r with
  | REmpty | REps => REmpty
  | RSet p => if p c then REps else REmpty
  | RSeq r1 r2 =>
      if nullable r1 then RAlt (RSeq (deriv r1 c) r2) (deriv r2 c)
      else RSeq (deriv r1 c) r2
  | RAlt r1 r2 => RAlt (deriv r1 c) (deriv r2 c)
  | RStar r1 => RSeq (deriv r1 c) (RStar r1)
  end.

Definition rmatch (r : regex) (l : list ascii) : bool := nullable (foldl deriv r l).

(** [re.compile("^r$").match(s)]: [$] stands at the end, or before a newline
    that ends the string. *)
Definition re_match (r : regex) (s : string) : bool :=
  let l := explode s in
  rmatch r l ||
  match last l with
  | Some c => bool_decide (c = LF) && rmatch r (take (length l - 1) l)
  | None => false
  end.

(** [re.compile("^r$").fullmatch(s)] *)
Definition re_fullmatch (r : regex) (s : string) : bool := rmatch r (explode s).

(** ** The language of an expression *)

Inductive lang : regex → list ascii → Prop :=
  | lang_eps : lang REps []
  | lang_set p c : p c = true → lang (RSet p) [c]
  | lang_seq r1 r2 l1 l2 : lang r1 l1 → lang r2 l2 → lang (RSeq r1 r2) (l1 ++ l2)
  | lang_alt_l r1 r2 l : lang r1 l → lang (RAlt r1 r2) l
  | lang_alt_r r1 r2 l : lang r2 l → lang (RAlt r1 r2) l
  | lang_star_nil r : lang (RStar r) []
  | lang_star_cons r l1 l2 : lang r l1 → lang (RStar r) l2 → lang (RStar r) (l1 ++ l2).

Create HintDb regex.
#[export] Hint Constructors lang : regex.

Lemma nullable_lang r : nullable r = true ↔ lang r [].
Proof.
  split.
  - induction r; cbn; intros H; try done; try by constructor.
    + bool_prop. apply (lang_seq r1 r2 [] []); auto.
    + apply orb_true_iff in H as [|]; auto with regex.
  - remember [] as l eqn:Hl. induction 1; cbn; try done.
    + apply app_nil in Hl as [-> ->]. by rewrite IHlang1, IHlang2.
    + by rewrite IHlang.
    + rewrite IHlang by done. apply orb_true_r.
Qed.

Lemma lang_star_head r c l :
  lang (RStar r) (c :: l) → ∃ l1 l2, l = l1 ++ l2 ∧ lang r (c :: l1) ∧ lang (RStar r) l2.
Proof.
  remember (RStar r) as s eqn:Hs. remember (c :: l) as w eqn:Hw. intros H.
  revert Hs c l Hw. induction H as [| | | | | |r' l1 l2 H1 _ H2 IH]; try done.
  intros [= ->] c l Hw. destruct l1 as [|a l1].
  - cbn in Hw. subst l2. destruct (IH eq_refl c l eq_refl) as (k1 & k2 & -> & ? & ?). eauto.
  - injection Hw as -> <-. eauto.
Qed.

Lemma lang_set_inv p l : lang (RSet p) l ↔ ∃ c, l = [c] ∧ p c = true.
Proof. split; [inversion 1; eauto|intros (c & -> & ?); auto with regex]. Qed.

Lemma lang_seq_inv r1 r2 l :
  lang (RSeq r1 r2) l ↔ ∃ l1 l2, l = l1 ++ l2 ∧ lang r1 l1 ∧ lang r2 l2.
Proof. split; [inversion 1; eauto 6|intros (? & ? & -> & ? & ?); auto with regex]. Qed.

Lemma lang_opt_inv r l : lang (ROpt r) l ↔ l = [] ∨ lang r l.
Proof.
  unfold ROpt. split.
  - inversion 1 as [| | |? ? ? H'|? ? ? H'| |]; subst; [by right|]. inversion H'. by left.
  - intros [->|]; auto with regex.
Qed.

Lemma deriv_lang r c l : lang (deriv r c) l ↔ lang r (c :: l).
Proof.
  revert l. induction r as [| |p|r1 IH1 r2 IH2|r1 IH1 r2 IH2|r IH]; intros l; cbn.
  - split; inversion 1.
  - split; inversion 1.
  - destruct (p c) eqn:Hp; split; inversion 1; subst; try congruence; auto with regex.
  - assert (lang (RSeq (deriv r1 c) r2) l → lang (RSeq r1 r2) (c :: l)) as Hl.
    { rewrite !lang_seq_inv. intros (l1 & l2 & -> & H1%IH1 & H2). by exists (c :: l1), l2. }
    assert (lang (RSeq r1 r2) (c :: l) →
            lang (RSeq (deriv r1 c) r2) l ∨ lang r1 [] ∧ lang r2 (c :: l)) as Hr.
    { rewrite !lang_seq_inv. intros (l1 & l2 & Heq & H1 & H2). destruct l1 as [|a l1].
      - cbn in Heq. subst. auto.
      - injection Heq as -> ->. left. apply IH1 in H1. eauto. }
    destruct (nullable r1) eqn:Hn.
    + rewrite nullable_lang in Hn. split.
      * inversion 1; subst; [by apply Hl|].
        match goal with H : lang (deriv r2 c) l |- _ => apply IH2 in H end.
        apply (lang_seq r1 r2 []); auto.
      * intros [H|[_ H]]%Hr; [auto with regex|]. apply IH2 in H. auto with regex.
    + split; [done|]. intros [H|[H _]]%Hr; [done|].
      apply nullable_lang in H. congruence.
  - split; inversion 1; subst; firstorder auto with regex.
  - split.
    + intros (l1 & l2 & -> & H1%IH & H2)%lang_seq_inv. by apply (lang_star_cons r (c :: l1)).
    + intros (l1 & l2 & -> & H1 & H2)%lang_star_head. apply IH in H1. auto with regex.
Qed.

Theorem rmatch_lang r l : rmatch r l = true ↔ lang r l.
Proof.
  unfold rmatch. revert r. induction l as [|c l IH]; intros r; cbn.
  - apply nullable_lang.
  - by rewrite IH, deriv_lang.
Qed.

Lemma re_match_spec r s :
  re_match r s = true ↔
  lang r (explode s) ∨ ∃ l, explode s = l ++ [LF] ∧ lang r l.
Proof.
  unfold re_match. rewrite orb_true_iff, rmatch_lang. apply or_iff_compat_l.
  destruct (last (explode s)) as [c|] eqn:Hlast.
  - apply last_Some in Hlast as [k Hk]. rewrite Hk, length_app. cbn.
    rewrite Nat.add_sub, take_app_length, andb_true_iff, bool_decide_eq_true, rmatch_lang.
    split.
    + intros [-> ?]. eauto.
    + intros (l & Heq & ?). by apply app_inj_tail in Heq as [<- ->].
  - apply last_None in Hlast. rewrite Hlast. split; [done|].
    intros (l & Heq & _). by destruct l.
Qed.

Lemma re_fullmatch_spec r s : re_fullmatch r s = true ↔ lang r (explode s).
Proof. apply rmatch_lang. Qed.

(** ** Languages of the shapes the validators use *)

Lemma lang_star_set p l : lang (RStar (RSet p)) l ↔ Forall (λ c, p c = true) l.
Proof.
  split.
  - remember (RStar (RSet p)) as r eqn:Hr. induction 1; try done.
    injection Hr as ->. apply Forall_app. split; [|by apply IHlang2].
    apply lang_set_inv in H as (c & -> & ?). by constructor.
  - induction 1 as [|c l Hc Hl IH]; [constructor|].
    apply (lang_star_cons _ [c]); auto with regex.
Qed.

(** [edge (mid* edge)?]: a non-empty word that starts and ends in [edge] and
    stays in [mid]. *)
Definition bounded_word (edge mid : ascii → bool) : regex :=
  RSeq (RSet edge) (ROpt (RSeq (RStar (RSet mid)) (RSet edge))).

Definition word_ok (edge mid : ascii → bool) (l : list ascii) : Prop :=
  (∃ c, head l = Some c ∧ edge c = true) ∧ (∃ c, last l = Some c ∧ edge c = true)
  ∧ Forall (λ c, mid c = true) l.

Lemma lang_bounded_word edge mid l :
  (∀ c, edge c = true → mid c = true) →
  lang (bounded_word edge mid) l ↔ word_ok edge mid l.
Proof.
  intros Hsub. unfold bounded_word. rewrite lang_seq_inv. split.
  - intros (l1 & l2 & -> & (c & -> & Hc)%lang_set_inv & Hl2).
    apply lang_opt_inv in Hl2 as [->|(m & k & -> & Hm & (d & -> & Hd)%lang_set_inv)%lang_seq_inv].
    + split_and!; [by exists c|by exists c|]. constructor; auto.
    + apply lang_star_set in Hm. split_and!; [by exists c| |].
      * exists d. split; [|done]. change ([c] ++ m ++ [d]) with ((c :: m) ++ [d]). apply last_snoc.
      * constructor; [by apply Hsub|]. apply Forall_app. auto.
  - intros ((c & Hh & Hc) & (d & Hl & Hd) & Hall). destruct l as [|a l]; [done|].
    injection Hh as ->. exists [c], l. split_and!; [done|auto with regex|].
    apply lang_opt_inv. destruct (decide (l = [])) as [->|Hne]; [by left|right].
    apply last_Some in Hl as [k Hk]. destruct k as [|b k]; [by injection Hk as -> ->|].
    injection Hk as <- ->. apply lang_seq_inv. exists k, [d]. split_and!; auto with regex.
    apply lang_star_set. apply Forall_cons in Hall as [_ Hall]. by apply Forall_app in Hall as [? _].
Qed.

(** [r(\.r)*] where [r] never matches a dot: the parts between the dots match. *)
Definition dotted (r : regex) : regex :=
  RSeq r (RStar (RSeq (RSet (λ c, bool_decide (c = "."%char))) r)).

Lemma lang_star_dot_sep (r : regex) l :
  lang (RStar (RSeq (RSet (λ c, bool_decide (c = "."%char))) r)) l →
  (∀ w, lang r w → "."%char ∉ w) →
  ∀ w, "."%char ∉ w → Forall (lang r) (tail (split_chars "." (w ++ l)))
       ∧ head (split_chars "." (w ++ l)) = Some w.
Proof.
  intros H Hdot. remember (RStar _) as s eqn:Hs.
  induction H as [| | | | | |r' l1 l2 H1 _ H2 IH]; try done; intros w Hw.
  - rewrite app_nil_r, split_chars_no_sep_id by done. cbn. auto.
  - injection Hs as ->. apply lang_seq_inv in H1 as (d & k & -> & Hd & Hk).
    apply lang_set_inv in Hd as (c & -> & Hc). bool_prop. subst c.
    destruct (IH eq_refl k (Hdot _ Hk)) as [Htl Hhd].
    replace (w ++ (["."%char] ++ k) ++ l2) with (w ++ "."%char :: (k ++ l2))
      by (by rewrite <-app_assoc).
    rewrite (split_chars_cons_no_sep "." w (split_chars "." (k ++ l2))) by done.
    cbn. split; [|done]. destruct (split_chars "." (k ++ l2)) as [|k' ks]; [done|].
    cbn in Hhd, Htl. injection Hhd as ->. by constructor.
Qed.

Lemma lang_dotted r l :
  (∀ w, lang r w → "."%char ∉ w) →
  lang (dotted r) l ↔ Forall (lang r) (split_chars "." l).
Proof.
  intros Hdot. unfold dotted. rewrite lang_seq_inv. split.
  - intros (w & k & -> & Hw & Hk).
    destruct (lang_star_dot_sep r k Hk Hdot w (Hdot _ Hw)) as [Htl Hhd].
    destruct (split_chars "." (w ++ k)) as [|w' ws]; [done|].
    injection Hhd as ->. by constructor.
  - intros Hall. pose proof (join_split_chars "." l) as Hj.
    pose proof (split_chars_nonempty "." l) as Hne.
    destruct (split_chars "." l) as [|w ws]; [done|].
    apply Forall_cons in Hall as [Hw Hws]. clear Hne. subst l.
    assert (∀ ws, Forall (lang r) ws →
      lang (RStar (RSeq (RSet (λ c, bool_decide (c = "."%char))) r))
           (flat_map (λ v, "."%char :: v) ws)) as Hflat.
    { clear. induction 1 as [|v vs Hv Hvs IH]; [constructor|]. cbn.
      change ("."%char :: v ++ ?k) with (("."%char :: v) ++ k). constructor; [|done].
      change ("."%char :: v) with (["."%char] ++ v). auto with regex. }
    exists w, (flat_map (λ v, "."%char :: v) ws). split_and!; [|done|by apply Hflat].
    clear. revert w. induction ws as [|v ws IH]; intros w; cbn; [by rewrite app_nil_r|].
    f_equal. f_equal. apply IH.
Qed.
