(* ===== verification/Models.v ===== *)
(** Connection configurations and the validators of [models.py].

    A pydantic model is a record; its field and model validators are the
    [validate_*] functions, run in declaration order by the [*_config]
    constructors. *)

From Stdlib Require Import Ascii String ZArith Lia.
From stdpp Require Import base list strings sets.
From S2P Require Import Prelude Json Regex.

(** ** Character classes and expressions of the module *)

Definition env_name_start (c : ascii) : bool :=
  is_lower c || is_upper c || str_mem (implode [c]) ["-"; "."; "_"].
Definition env_name_char (c : ascii) : bool := env_name_start c || is_digit c.

(** [^[-._a-zA-Z][-._a-zA-Z0-9]*$] *)
Definition ENV_VAR_NAME_RE : regex := RSeq (RSet env_name_start) (RStar (RSet env_name_char)).

Definition dash_or_lower_alnum (c : ascii) : bool :=
  bool_decide (c = "-"%char) || is_lower_alnum c.

(** [^[a-z0-9]([-a-z0-9]*[a-z0-9])?$] *)
Definition NAMESPACE_RE : regex := bounded_word is_lower_alnum dash_or_lower_alnum.

(** [[\x21-\x7e]+] *)
Definition AUTH_TOKEN_RE : regex :=
  RSeq (RSet (in_range 33 126)) (RStar (RSet (in_range 33 126))).

Definition RESERVED_HEADER_PREFIX : string := "x-sandbox-".

(** ** Validators *)

Definition validate_sandboxd_auth_token (token : string) : outcome string :=
  if re_fullmatch AUTH_TOKEN_RE token then Ret token else Raise ValueError.

(** [PtySize._validate_positive] *)
Definition validate_positive (v : Z) : outcome Z :=
  if ((v <? 1) || (65535 <? v))%Z then Raise ValueError else Ret v.

Record pty_size := PtySize { cols : Z; rows : Z }.
Definition pty_size_config (c r : Z) : outcome pty_size :=
  c ← validate_positive c; r ← validate_positive r; Ret (PtySize c r).

Record SandboxClaimEnvVar := EnvVar {
  ev_name : string;
  ev_value : string;
  ev_container_name : option string;
}.

Definition validate_env_name (v : string) : outcome string :=
  if negb (re_match ENV_VAR_NAME_RE v) then Raise ValueError
  else if (v =? ".")%string || (v =? "..")%string || startswith ".." v
  then Raise ValueError
  else Ret v.

Definition env_var (name value : string) : outcome SandboxClaimEnvVar :=
  n ← validate_env_name name; Ret (EnvVar n value None).

Record SandboxDirectConnectionConfig := DirectConfig {
  api_url : string;
  direct_server_port : Z;
  extra_headers : list (string * string);
  client_cert : option (string * string);
  ca_cert : option string;
}.

Fixpoint validate_extra_headers (v : list (string * string)) : outcome () :=
  match v with
  | [] => Ret ()
  | (name, _) :: v' =>
      if startswith RESERVED_HEADER_PREFIX (lower name) then Raise ValueError
      else validate_extra_headers v'
  end.

Definition truthy_str_opt (o : option string) : bool :=
  match o with Some s => negb (s =? EmptyString)%string | None => false end.

Definition validate_tls_requires_https (c : SandboxDirectConnectionConfig) : outcome () :=
  if (bool_decide (client_cert c ≠ None) || truthy_str_opt (ca_cert c))
     && negb (startswith "https://" (lower (api_url c)))
  then Raise ValueError else Ret ().

Definition direct_config (c : SandboxDirectConnectionConfig)
    : outcome SandboxDirectConnectionConfig :=
  _ ← validate_extra_headers (extra_headers c);
  _ ← validate_tls_requires_https c; Ret c.

Record SandboxGatewayConnectionConfig := GatewayConfig {
  gateway_name : string;
  gateway_namespace : string;
  gateway_ready_timeout : Z;
  gateway_server_port : Z;
}.

Record SandboxLocalTunnelConnectionConfig := LocalTunnelConfig {
  lt_port_forward_ready_timeout : Z;
  lt_server_port : Z;
  router_namespace : string;
}.

Definition validate_namespace (v : string) : outcome string :=
  if re_match NAMESPACE_RE v then Ret v else Raise ValueError.

Definition local_tunnel_config (c : SandboxLocalTunnelConnectionConfig)
    : outcome SandboxLocalTunnelConnectionConfig :=
  _ ← validate_namespace (router_namespace c); Ret c.

Record SandboxdPodTunnelConnectionConfig := PodTunnelConfig {
  pt_auth_token : option string;
  pt_rest_port : Z;
  pt_grpc_port : Z;
  pt_port_forward_ready_timeout : Z;
}.

Definition validate_port (v : Z) : outcome Z :=
  if ((v <? 1) || (65535 <? v))%Z then Raise ValueError else Ret v.

Definition validate_token_opt (t : option string) : outcome () :=
  match t with
  | None => Ret ()
  | Some t => _ ← validate_sandboxd_auth_token t; Ret ()
  end.

Definition pod_tunnel_config (c : SandboxdPodTunnelConnectionConfig)
    : outcome SandboxdPodTunnelConnectionConfig :=
  _ ← validate_token_opt (pt_auth_token c);
  _ ← validate_port (pt_rest_port c);
  _ ← validate_port (pt_grpc_port c); Ret c.

Inductive in_cluster_mode := InClusterService | InClusterPodIp.

#[global] Instance in_cluster_mode_eq_dec : EqDecision in_cluster_mode.
Proof. solve_decision. Defined.

Record SandboxdInClusterConnectionConfig := InClusterdConfig {
  ic_auth_token : option string;
  ic_mode : in_cluster_mode;
  ic_rest_port : Z;
  ic_grpc_port : Z;
}.

(** The [mode] field: deprecated spellings are mapped before the literal is
    checked. *)
Definition map_deprecated_mode (v : json) : json :=
  match v with
  | JStr "service-dns" => JStr "in-cluster-service"
  | JStr "pod-ip" => JStr "in-cluster-pod-ip"
  | _ => v
  end.

Definition parse_mode (v : json) : outcome in_cluster_mode :=
  match map_deprecated_mode v with
  | JStr "in-cluster-service" => Ret InClusterService
  | JStr "in-cluster-pod-ip" => Ret InClusterPodIp
  | _ => Raise ValueError
  end.

Definition validate_distinct_ports (c : SandboxdInClusterConnectionConfig) : outcome () :=
  if (ic_rest_port c =? ic_grpc_port c)%Z then Raise ValueError else Ret ().

Definition sandboxd_in_cluster_config (token : option string) (mode : json) (rest grpc : Z)
    : outcome SandboxdInClusterConnectionConfig :=
  _ ← validate_token_opt token;
  m ← parse_mode mode;
  r ← validate_port rest;
  g ← validate_port grpc;
  let c := InClusterdConfig token m r g in
  _ ← validate_distinct_ports c; Ret c.

Record SandboxInClusterConnectionConfig := InClusterConfig { in_server_port : Z }.

(** The union [SandboxConnectionConfig]. *)
Inductive SandboxConnectionConfig :=
  | CDirect (c : SandboxDirectConnectionConfig)
  | CGateway (c : SandboxGatewayConnectionConfig)
  | CLocalTunnel (c : SandboxLocalTunnelConnectionConfig)
  | CInCluster (c : SandboxInClusterConnectionConfig)
  | CSandboxdPodTunnel (c : SandboxdPodTunnelConnectionConfig)
  | CSandboxdInCluster (c : SandboxdInClusterConnectionConfig).

Record AdditionalPodMetadata := PodMetadata {
  pm_labels : option (list (string * string));
  pm_annotations : option (list (string * string));
}.

(** [max_download_size: int | None = Field(default=None, strict=True, gt=0)] *)
Record SandboxFileConfig := FileConfig { max_download_size : option Z }.
Definition file_config (m : option Z) : outcome SandboxFileConfig :=
  match m with
  | Some n => if (n <=? 0)%Z then Raise ValueError else Ret (FileConfig m)
  | None => Ret (FileConfig None)
  end.

(** ** Facts *)

Lemma validate_port_ok v w : validate_port v = Ret w → w = v ∧ (1 ≤ v ≤ 65535)%Z.
Proof.
  unfold validate_port. destruct (v <? 1)%Z eqn:E1, (65535 <? v)%Z eqn:E2; try done.
  intros [= <-]. bool_prop. lia.
Qed.

Lemma validate_extra_headers_ok v :
  validate_extra_headers v = Ret () ↔
  ∀ name value, (name, value) ∈ v → startswith RESERVED_HEADER_PREFIX (lower name) = false.
Proof.
  induction v as [|[name value] v IH]; cbn -[startswith lower]; [set_solver|].
  destruct (startswith _ (lower name)) eqn:E.
  - split; [done|]. intros H. rewrite (H name value) in E by set_solver. done.
  - rewrite IH. set_solver.
Qed.
