(* ===== verification/Validation.v ===== *)
(** Claim and label validation: [claim_adoption.py] and [pod_metadata.py]. *)

From Stdlib Require Import Ascii String ZArith Lia.
From stdpp Require Import base list strings sets.
From S2P Require Import Prelude Json Regex Models.

(** ** claim_adoption.py *)

(** [^[a-z0-9]([-a-z0-9]*[a-z0-9])?(\.[a-z0-9]([-a-z0-9]*[a-z0-9])?)*$] *)
Definition DNS1123_SUBDOMAIN_RE : regex :=
  dotted (bounded_word is_lower_alnum dash_or_lower_alnum).
Definition DNS1123_SUBDOMAIN_MAX_LENGTH : nat := 253.

Definition validate_claim_name (name : json) : outcome () :=
  match name with
  | JStr s =>
      if (s =? EmptyString)%string
         || bool_decide (DNS1123_SUBDOMAIN_MAX_LENGTH < len s)
         || negb (re_fullmatch DNS1123_SUBDOMAIN_RE s)
      then Raise ValueError else Ret ()
  | _ => Raise ValueError
  end.

(** A [metadata] field that must be a non-empty string. *)
Definition check_identity_field (metadata : json) (field : string) : outcome () :=
  v ← py_get metadata field;
  match v with
  | JStr s => if (s =? EmptyString)%string then Raise ValueError else Ret ()
  | _ => Raise ValueError
  end.

Definition validate_claim_for_adoption (claim : json) (claim_name warmpool : string)
    : outcome () :=
  if is_none claim then Raise SandboxNotFoundError
  else
    m ← py_get claim "metadata";
    let metadata := py_or m (JObj []) in
    deletion ← py_get metadata "deletionTimestamp";
    if truthy deletion then Raise ValueError
    else
      s ← py_get claim "spec";
      ref ← py_get_def (py_or s (JObj [])) "warmPoolRef" (JObj []);
      existing_pool ← py_get ref "name";
      if negb (is_str existing_pool warmpool) then Raise ValueError
      else
        _ ← check_identity_field metadata "uid";
        check_identity_field metadata "resourceVersion".

(** ** pod_metadata.py *)

Definition label_char (c : ascii) : bool :=
  is_alnum c || bool_decide (c = "-"%char) || bool_decide (c = "_"%char)
  || bool_decide (c = "."%char).

(** [^[A-Za-z0-9][-A-Za-z0-9_.]*[A-Za-z0-9]$|^[A-Za-z0-9]$] *)
Definition LABEL_NAME_RE : regex :=
  RAlt (RSeq (RSet is_alnum) (RSeq (RStar (RSet label_char)) (RSet is_alnum)))
       (RSet is_alnum).

Definition prefix_char (c : ascii) : bool :=
  dash_or_lower_alnum c || bool_decide (c = "."%char).

(** [^[a-z0-9]([-a-z0-9.]*[a-z0-9])?$] *)
Definition LABEL_PREFIX_RE : regex := bounded_word is_lower_alnum prefix_char.
Definition LABEL_NAME_MAX_LENGTH : nat := 63.
Definition LABEL_PREFIX_MAX_LENGTH : nat := 253.

Definition validate_label_name (name : string) : outcome () :=
  if bool_decide (LABEL_NAME_MAX_LENGTH < len name) then Raise ValueError
  else if negb (re_match LABEL_NAME_RE name) then Raise ValueError
  else Ret ().

Definition validate_label_key (key : string) : outcome () :=
  if (key =? EmptyString)%string then Raise ValueError
  else
    let '(prefix, slash, name) := partition "/" key in
    if slash then
      if (prefix =? EmptyString)%string || bool_decide (LABEL_PREFIX_MAX_LENGTH < len prefix)
      then Raise ValueError
      else if negb (re_match LABEL_PREFIX_RE prefix) then Raise ValueError
      else if (name =? EmptyString)%string then Raise ValueError
      else validate_label_name name
    else validate_label_name key.

Fixpoint validate_labels (labels : list (string * string)) : outcome () :=
  match labels with
  | [] => Ret ()
  | (key, value) :: labels' =>
      _ ← validate_label_key key;
      _ ← (if (value =? EmptyString)%string then Ret () else validate_label_name value);
      validate_labels labels'
  end.

(** [d or None] *)
Definition non_empty {A} (d : option (list A)) : option (list A) :=
  match d with Some (a :: l) => Some (a :: l) | _ => None end.

Definition build_pod_metadata
    (pod_labels pod_annotations : option (list (string * string)))
    : outcome (option AdditionalPodMetadata) :=
  _ ← (match non_empty pod_labels with Some l => validate_labels l | None => Ret () end);
  match non_empty pod_labels, non_empty pod_annotations with
  | None, None => Ret None
  | l, a => Ret (Some (PodMetadata l a))
  end.

(** ** Claim names are DNS-1123 subdomains *)

Definition dns_label (w : list ascii) : Prop := word_ok is_lower_alnum dash_or_lower_alnum w.

Lemma lower_alnum_dash c : is_lower_alnum c = true → dash_or_lower_alnum c = true.
Proof. unfold dash_or_lower_alnum. intros ->. apply orb_true_r. Qed.

Lemma dns_label_no_dot w :
  lang (bounded_word is_lower_alnum dash_or_lower_alnum) w → "."%char ∉ w.
Proof.
  intros [_ [_ Hall]]%(lang_bounded_word _ _ _ lower_alnum_dash) Hin.
  rewrite Forall_forall in Hall. by specialize (Hall _ Hin).
Qed.

(** An explicit claim name is accepted exactly when it is a string of at
    most 253 characters whose dot-separated parts are all DNS-1123 labels:
    non-empty, lowercase alphanumeric or dash, with an alphanumeric at both
    ends. *)
Theorem validate_claim_name_spec (name : json) :
  validate_claim_name name = Ret () ↔
  ∃ s, name = JStr s ∧ len s ≤ 253 ∧ Forall dns_label (split_chars "." (explode s)).
Proof.
  destruct name; cbn; try (split; [done|naive_solver]).
  assert (re_fullmatch DNS1123_SUBDOMAIN_RE s = true
          ↔ Forall dns_label (split_chars "." (explode s))) as Hre.
  { rewrite re_fullmatch_spec. unfold DNS1123_SUBDOMAIN_RE.
    rewrite (lang_dotted _ _ dns_label_no_dot).
    apply Forall_iff. intros w. by rewrite (lang_bounded_word _ _ _ lower_alnum_dash). }
  unfold DNS1123_SUBDOMAIN_MAX_LENGTH.
  destruct (s =? "")%string eqn:E1, (bool_decide (253 < len s)) eqn:E2,
    (re_fullmatch DNS1123_SUBDOMAIN_RE s) eqn:E3; bool_prop; cbn;
    (split; [try done; intros _|intros (s' & [= <-] & Hl & Hf)]); try lia;
    try (apply Hre in Hf; congruence); subst; try done.
  exists s. rewrite <-Hre. split_and!; [done|lia|done].
Qed.

Lemma validate_claim_name_witness :
  validate_claim_name (JStr "team-a.sandbox-1") = Ret ()
  ∧ validate_claim_name (JStr "team-a..sandbox") = Raise ValueError
  ∧ validate_claim_name (JStr (implode (explode "sandbox" ++ [LF]))) = Raise ValueError.
Proof. split_and!; vm_compute; reflexivity. Defined.

(** ** Adoption *)

Lemma check_identity_field_ok metadata field :
  check_identity_field metadata field = Ret () ↔
  ∃ s, s ≠ EmptyString ∧ py_get metadata field = Ret (JStr s).
Proof.
  unfold check_identity_field, mbind, outcome_bind.
  destruct (py_get metadata field) as [v| |]; [|naive_solver|naive_solver].
  destruct v; try naive_solver. case_scrut; bool_prop; naive_solver.
Qed.

(** What adoption needs of a claim: it exists, is not being deleted, is bound
    to the requested pool, and carries the identity a UID-pinned watch uses. *)
Definition adoptable (claim : json) (warmpool : string) : Prop :=
  ∃ m s ref uid rv d,
    py_get claim "metadata" = Ret m ∧ py_get claim "spec" = Ret s ∧
    py_get (py_or m (JObj [])) "deletionTimestamp" = Ret d ∧ truthy d = false ∧
    py_get_def (py_or s (JObj [])) "warmPoolRef" (JObj []) = Ret ref ∧
    py_get ref "name" = Ret (JStr warmpool) ∧
    py_get (py_or m (JObj [])) "uid" = Ret (JStr uid) ∧ uid ≠ EmptyString ∧
    py_get (py_or m (JObj [])) "resourceVersion" = Ret (JStr rv) ∧ rv ≠ EmptyString.

(** An existing claim is accepted for adoption exactly when it is not
    terminating, references the requested warm pool, and its metadata has a
    non-empty [uid] and [resourceVersion]. *)
Theorem validate_claim_for_adoption_spec (claim : json) (claim_name warmpool : string) :
  validate_claim_for_adoption claim claim_name warmpool = Ret () ↔ adoptable claim warmpool.
Proof.
  unfold validate_claim_for_adoption, adoptable, mbind, outcome_bind. split.
  - destruct (is_none claim); [done|].
    destruct (py_get claim "metadata") as [m| |] eqn:?; try done.
    destruct (py_get (py_or m (JObj [])) "deletionTimestamp") as [d| |] eqn:?; try done.
    destruct (truthy d) eqn:?; [done|].
    destruct (py_get claim "spec") as [s| |] eqn:?; try done.
    destruct (py_get_def (py_or s (JObj [])) _ _) as [ref| |] eqn:?; try done.
    destruct (py_get ref "name") as [pool| |] eqn:?; try done.
    destruct (is_str pool warmpool) eqn:Es; try done. apply is_str_true in Es as ->.
    cbn [negb].
    destruct (check_identity_field _ "uid") as [[]| |] eqn:Eu; try done.
    apply check_identity_field_ok in Eu as (uid & ? & ?).
    intros (rv & ? & ?)%check_identity_field_ok. exists m, s, ref, uid, rv, d. by split_and!.
  - intros (m & s & ref & uid & rv & d & Hm & Hs & Hd & Htd & Hr & Hn & Hu & ? & Hv & ?).
    destruct claim; try done. cbn [is_none]. rewrite Hm, Hd, Htd, Hs, Hr, Hn. cbn [is_str].
    rewrite String.eqb_refl. cbn [negb].
    rewrite (proj2 (check_identity_field_ok _ "uid")) by eauto.
    apply check_identity_field_ok. eauto.
Qed.

Definition adoptable_claim : json :=
  JObj [("metadata", JObj [("uid", JStr "u-1"); ("resourceVersion", JStr "7")]);
        ("spec", JObj [("warmPoolRef", JObj [("name", JStr "pool")])])].

Lemma validate_claim_for_adoption_witness :
  validate_claim_for_adoption adoptable_claim "c" "pool" = Ret ()
  ∧ validate_claim_for_adoption adoptable_claim "c" "other" = Raise ValueError.
Proof. split; reflexivity. Defined.

(** ** Labels *)

Lemma alnum_label c : is_alnum c = true → label_char c = true.
Proof. unfold label_char. by intros ->. Qed.

Lemma lower_alnum_prefix c : is_lower_alnum c = true → prefix_char c = true.
Proof. unfold prefix_char. by intros ->%lower_alnum_dash. Qed.

Lemma lang_label_name l : lang LABEL_NAME_RE l ↔ word_ok is_alnum label_char l.
Proof.
  rewrite <-(lang_bounded_word _ _ _ alnum_label). unfold LABEL_NAME_RE, bounded_word.
  split.
  - inversion 1 as [| | |? ? ? H1|? ? ? H1| |]; subst.
    + apply lang_seq_inv in H1 as (a & b & -> & ? & ?).
      apply lang_seq_inv. exists a, b. rewrite lang_opt_inv. auto.
    + rewrite <-(app_nil_r l). apply lang_seq_inv. exists l, []. rewrite lang_opt_inv. auto.
  - intros (a & b & -> & Ha & Hb)%lang_seq_inv. apply lang_opt_inv in Hb as [->|Hb].
    + rewrite app_nil_r. by apply lang_alt_r.
    + apply lang_alt_l. by constructor.
Qed.

(** A word, or a word followed by the newline that [$] lets through. *)
Definition word_or_newline (edge mid : ascii → bool) (s : string) : Prop :=
  ∃ l, word_ok edge mid l ∧ (explode s = l ∨ explode s = l ++ [LF]).

Definition label_name_ok (s : string) : Prop :=
  len s ≤ 63 ∧ word_or_newline is_alnum label_char s.

Definition label_key_ok (k : string) : Prop :=
  let '(prefix, slash, name) := partition "/" k in
  if slash
  then len prefix ≤ 253 ∧ word_or_newline is_lower_alnum prefix_char prefix
       ∧ label_name_ok name
  else label_name_ok k.

Lemma word_ok_nonempty edge mid l : word_ok edge mid l → l ≠ [].
Proof. intros ((c & Hc & _) & _). by destruct l. Qed.

Lemma word_or_newline_nonempty edge mid s : word_or_newline edge mid s → s ≠ EmptyString.
Proof.
  intros (l & Hl%word_ok_nonempty & [H|H]) ->; cbn in H; [done|].
  by apply (f_equal length) in H; rewrite length_app in H; destruct l.
Qed.

Lemma re_match_word r edge mid s :
  (∀ l, lang r l ↔ word_ok edge mid l) → re_match r s = true ↔ word_or_newline edge mid s.
Proof.
  intros Hr. rewrite re_match_spec. setoid_rewrite Hr. unfold word_or_newline. naive_solver.
Qed.

Lemma validate_label_name_ok s : validate_label_name s = Ret () ↔ label_name_ok s.
Proof.
  unfold validate_label_name, label_name_ok, LABEL_NAME_MAX_LENGTH.
  rewrite <-(re_match_word _ _ _ _ lang_label_name).
  case_bool_decide; [split; [done|lia]|].
  destruct (re_match LABEL_NAME_RE s); cbn; split; try done; try lia; naive_solver.
Qed.

Lemma validate_label_key_ok k : validate_label_key k = Ret () ↔ label_key_ok k.
Proof.
  unfold validate_label_key, label_key_ok. destruct (k =? "")%string eqn:Ek; bool_prop.
  - subst k. cbn. split; [done|]. intros [_ ?%word_or_newline_nonempty]. done.
  - destruct (partition "/" k) as [[prefix slash] name]. destruct slash.
    2: apply validate_label_name_ok.
    rewrite <-validate_label_name_ok.
    rewrite <-(re_match_word LABEL_PREFIX_RE)
      by (intros; apply (lang_bounded_word _ _ _ lower_alnum_prefix)).
    unfold LABEL_PREFIX_MAX_LENGTH.
    destruct (prefix =? "")%string eqn:Ep; cbn [orb]; bool_prop.
    + subst. split; [done|]. intros (_ & H & _). vm_compute in H. done.
    + case_bool_decide; [split; [done|lia]|].
      destruct (re_match LABEL_PREFIX_RE prefix); cbn [negb]; [|split; [done|naive_solver]].
      destruct (name =? "")%string eqn:En; bool_prop; [subst; split; [done|]|].
      * intros (_ & _ & Hname). vm_compute in Hname. done.
      * split; [|tauto]. intros ?. split_and!; [lia|done|done].
Qed.

Lemma validate_labels_ok labels :
  validate_labels labels = Ret () ↔
  Forall (λ '(k, v), label_key_ok k ∧ (v = EmptyString ∨ label_name_ok v)) labels.
Proof.
  induction labels as [|[k v] labels IH]; cbn -[validate_label_key validate_label_name];
    [by split|].
  rewrite Forall_cons, <-IH, <-validate_label_key_ok, <-validate_label_name_ok.
  unfold mbind, outcome_bind.
  destruct (validate_label_key k) as [[]| |]; [|split; [done|naive_solver]..].
  destruct (v =? "")%string eqn:Ev; bool_prop; [naive_solver|].
  destruct (validate_label_name v) as [[]| |]; naive_solver.
Qed.

(** Label validation accepts a dict exactly when every key is a label name
    of at most 63 characters, optionally after a DNS-style prefix of at most
    253 and a slash, and every non-empty value is a label name. Each of these
    words may also carry one trailing newline. *)
Theorem validate_labels_spec (labels : list (string * string)) :
  validate_labels labels = Ret () ↔
  Forall (λ '(k, v), label_key_ok k ∧ (v = EmptyString ∨ label_name_ok v)) labels.
Proof. apply validate_labels_ok. Qed.

Lemma validate_labels_witness :
  validate_labels [("app.kubernetes.io/name", "web"); ("tier", "")] = Ret ()
  ∧ validate_labels [("app", "-web")] = Raise ValueError.
Proof. split; vm_compute; reflexivity. Defined.

(** A label value that is a valid name of at most 62 characters is also
    accepted with a newline appended, although Kubernetes rejects it: the
    pattern is applied with [match] and [$] stops before a final newline. *)
Theorem validate_labels_trailing_newline (k v : string) :
  label_key_ok k → label_name_ok v → len v < 63 → LF ∉ explode v →
  validate_labels [(k, implode (explode v ++ [LF]))] = Ret ().
Proof.
  intros Hk (Hl & l & Hw & [Hv|Hv]) Hlen Hlf.
  - apply validate_labels_ok. constructor; [|constructor]. split; [done|right].
    split; [unfold len; rewrite explode_implode, length_app; cbn; unfold len in Hlen; lia|].
    exists l. rewrite explode_implode, Hv. auto.
  - exfalso. apply Hlf. rewrite Hv. set_solver.
Qed.

Lemma validate_labels_trailing_newline_witness :
  validate_labels [("app", implode (explode "web" ++ [LF]))] = Ret ().
Proof.
  apply validate_labels_trailing_newline.
  - apply validate_label_key_ok. vm_compute. reflexivity.
  - apply validate_label_name_ok. vm_compute. reflexivity.
  - vm_compute. lia.
  - apply (bool_decide_eq_false_1 (LF ∈ explode "web")). vm_compute. reflexivity.
Defined.
