(* ===== verification/Utils.v ===== *)
(** The pure helpers of [utils.py]: header merging, claim lifecycle, pod IP
    selection, gateway host names, kubeconfig assembly, and the temporary
    kubeconfig context manager. *)

From Stdlib Require Import Ascii String ZArith Lia.
From stdpp Require Import base option list strings gmap numbers pretty sets.
From S2P Require Import Prelude Json IpAddress Regex Models.

(** ** Headers *)

Definition bearer (token : string) : string := "Bearer " +:+ token.

Definition sandboxd_auth_headers (config : SandboxConnectionConfig)
    : list (string * string) :=
  match config with
  | CSandboxdPodTunnel c =>
      match pt_auth_token c with
      | Some t => [("authorization", bearer t)]
      | None => []
      end
  | CSandboxdInCluster c =>
      match ic_auth_token c with
      | Some t => [("authorization", bearer t)]
      | None => []
      end
  | _ => []
  end.

(** The dict [merged] maps a lower-cased name to the name and value last seen;
    an existing key keeps its place. *)
Definition merge_layer (merged : list (string * (string * string)))
    (layer : list (string * string)) : list (string * (string * string)) :=
  foldl (λ m '(name, value), dset (lower name) (name, value) m) merged layer.

(** [dict(pairs)]: a later pair with the same key replaces the value. *)
Definition dict_of {A} (pairs : list (string * A)) : list (string * A) :=
  foldl (λ d '(k, v), dset k v d) [] pairs.

Definition merge_headers (layers : list (option (list (string * string))))
    : list (string * string) :=
  dict_of (foldl (λ m layer, merge_layer m (default [] layer)) [] layers).*2.

(** ** Claim lifecycle *)

(** Microseconds since 0001-01-01T00:00:00Z; the last representable instant is
    9999-12-31T23:59:59.999999Z. *)
Definition DATETIME_MAX_US : Z := 315537897599999999.

(** Proleptic Gregorian date of a day number, day 0 being 0001-01-01. *)
Definition civil_of_days (days : Z) : Z * Z * Z :=
  (let z := days + 306 in
   let era := z / 146097 in
   let doe := z mod 146097 in
   let yoe := (doe - doe / 1460 + doe / 36524 - doe / 146096) / 365 in
   let y := yoe + era * 400 in
   let doy := doe - (365 * yoe + yoe / 4 - yoe / 100) in
   let mp := (5 * doy + 2) / 153 in
   let d := doy - (153 * mp + 2) / 5 + 1 in
   let m := if mp <? 10 then mp + 3 else mp - 9 in
   (if m <=? 2 then y + 1 else y, m, d))%Z.

Definition pad (n : nat) (z : Z) : string :=
  let s := explode (pretty z) in
  implode (replicate (n - length s) "0"%char ++ s).

(** [strftime("%Y-%m-%dT%H:%M:%SZ")] *)
Definition format_utc (us : Z) : string :=
  (let secs := us / 1000000 in
   let '(y, m, d) := civil_of_days (secs / 86400) in
   let t := secs mod 86400 in
   pad 4 y +:+ "-" +:+ pad 2 m +:+ "-" +:+ pad 2 d +:+ "T" +:+
   pad 2 (t / 3600) +:+ ":" +:+ pad 2 (t / 60 mod 60) +:+ ":" +:+ pad 2 (t mod 60) +:+ "Z")%Z.

(** [now_us] is the clock reading of [datetime.now(timezone.utc)]. *)
Definition construct_sandbox_claim_lifecycle_spec (now_us : Z) (shutdown_after_seconds : json)
    : outcome (list (string * string)) :=
  match shutdown_after_seconds with
  | JInt n =>
      if (n <=? 0)%Z then Raise ValueError
      else if (DATETIME_MAX_US <? now_us + n * 1000000)%Z then Raise ValueError
      else Ret [("shutdownTime", format_utc (now_us + n * 1000000));
                ("shutdownPolicy", "Delete")]
  | _ => Raise ValueError
  end.

(** ** Pod IP selection *)

(** An element of the list: a decoded JSON value, or another object with the
    value its [ip] attribute has, if any. *)
Inductive ip_entry :=
  | EJson (j : json)
  | EObject (ip : option json).

Definition entry_ip (e : ip_entry) : option string :=
  match e with
  | EJson (JStr s) => Some s
  | EJson (JObj kvs) => v ← dget "ip" kvs; as_str v
  | EJson _ => None
  | EObject v => v ← v; as_str v
  end.

(** The parsed address of an entry; [None] when the loop skips it. *)
Definition entry_addr (e : ip_entry) : option ip_addr :=
  s ← entry_ip e;
  let cleaned := strip s in
  if (s =? EmptyString)%string || (cleaned =? EmptyString)%string then None
  else ip_address cleaned.

Section select.
Variable dotted : bool.

Fixpoint select_pod_ip_loop (first_valid : option string) (ips : list ip_entry)
    : option string :=
  match ips with
  | [] => first_valid
  | e :: ips' =>
      match entry_addr e with
      | None => select_pod_ip_loop first_valid ips'
      | Some (V4 n) => Some (str_ip dotted (V4 n))
      | Some a =>
          match ipv4_mapped a with
          | Some n => Some (str_ip dotted (V4 n))
          | None =>
              select_pod_ip_loop
                (match first_valid with
                 | None => Some (str_ip dotted a)
                 | Some _ => first_valid
                 end) ips'
          end
      end
  end.

Definition select_pod_ip (ips : list ip_entry) : option string :=
  select_pod_ip_loop None ips.

(** As the SDK calls it, on a decoded [status.podIPs]. *)
Definition select_pod_ip_json (ips : json) : outcome (option string) :=
  if truthy ips then l ← py_iter ips; Ret (select_pod_ip (EJson <$> l))
  else Ret None.

End select.

(** ** Gateway host names *)

Definition is_valid_ip (s : json) : bool :=
  match s with JStr s => bool_decide (is_Some (ip_address s)) | _ => false end.

Definition is_hex_lower (c : ascii) : bool := is_digit c || in_range 97 102 c.

Definition is_integer_label (label : list ascii) : bool :=
  if bool_decide (label = []) then false
  else if forallb is_digit_char label then true
  else if is_prefix_of (explode "0x") (lower_char <$> label)
  then forallb is_hex_lower (lower_char <$> drop 2 label)
  else false.

(** The loop over [enumerate(s)]: [prev] is [s[i-1]], [None] at [i = 0]. *)
Fixpoint hostname_chars_ok (prev : option ascii) (l : list ascii) : bool :=
  match l with
  | [] => true
  | c :: l' =>
      (if is_alnum c then true
       else if bool_decide (c = "-"%char) then
         match prev with None => false | Some p => negb (bool_decide (p = "."%char)) end
       else if bool_decide (c = "."%char) then
         match prev with
         | None => false
         | Some p => negb (bool_decide (p = "."%char) || bool_decide (p = "-"%char))
         end
       else false)
      && hostname_chars_ok (Some c) l'
  end.

Definition is_valid_gateway_hostname (s : json) : bool :=
  match s with
  | JStr s =>
      let l := explode s in
      let labels := split_chars "." l in
      if bool_decide (l = []) || bool_decide (253 < length l) then false
      else if forallb is_integer_label labels then false
      else if existsb (λ label, bool_decide (63 < length label)) labels then false
      else if hostname_chars_ok None l then
        match last l with
        | Some c => negb (bool_decide (c = "-"%char)) && negb (bool_decide (c = "."%char))
        | None => false
        end
      else false
  | _ => false
  end.

(** ** Sandbox name hash *)

Definition SANDBOX_NAME_HASH_LABEL : string := "agents.x-k8s.io/sandbox-name-hash".

Fixpoint find_name_hash (requirements : list string) : option string :=
  match requirements with
  | [] => None
  | r :: rs =>
      let '(key, sep, value) := partition "=" r in
      if sep && (strip key =? SANDBOX_NAME_HASH_LABEL)%string
      then (if (strip value =? EmptyString)%string then None else Some (strip value))
      else find_name_hash rs
  end.

Definition extract_sandbox_name_hash (sandbox_object : json) : outcome (option string) :=
  st ← py_get sandbox_object "status";
  sel ← py_get (py_or st (JObj [])) "selector";
  match py_or sel (JStr EmptyString) with
  | JStr s => Ret (find_name_hash (split "," s))
  | _ => Raise AttributeError
  end.

(** ** Environment variables of a claim *)

Fixpoint env_vars (env : list (string * string)) : outcome (list SandboxClaimEnvVar) :=
  match env with
  | [] => Ret []
  | (name, value) :: env' => v ← env_var name value; vs ← env_vars env'; Ret (v :: vs)
  end.

Definition construct_sandbox_claim_env_spec (env : option (list (string * string)))
    : outcome (list SandboxClaimEnvVar) :=
  env_vars (default [] env).

(** ** Kubeconfig for kubectl subprocesses *)

(** The fields of a Kubernetes [Configuration] the function reads; absent and
    empty strings are both falsy. *)
Record Configuration := K8sConfiguration {
  cfg_host : string;
  cfg_verify_ssl : bool;
  cfg_ssl_ca_cert : option string;
  cfg_tls_server_name : option string;
  cfg_proxy : option string;
  cfg_cert_file : option string;
  cfg_key_file : option string;
}.

(** [if v: d[k] = v] for a string option. *)
Definition add_if (k : string) (v : option string) (d : list (string * json))
    : list (string * json) :=
  if truthy_str_opt v then dset k (JStr (default EmptyString v)) d else d.

Definition kubeconfig_cluster (c : Configuration) : list (string * json) :=
  let d := [("server", JStr (cfg_host c))] in
  let d := if negb (cfg_verify_ssl c) then dset "insecure-skip-tls-verify" (JBool true) d
           else add_if "certificate-authority" (cfg_ssl_ca_cert c) d in
  let d := add_if "tls-server-name" (cfg_tls_server_name c) d in
  add_if "proxy-url" (cfg_proxy c) d.

(** [a or b] on string options. *)
Definition str_or (a b : option string) : option string :=
  if truthy_str_opt a then a else b.

Definition kubeconfig_user (c : Configuration) (authorization : option string)
    (default_headers : option (list (string * string))) : list (string * json) :=
  let d := add_if "client-certificate" (cfg_cert_file c) [] in
  let d := add_if "client-key" (cfg_key_file c) d in
  let headers := dict_of ((λ '(k, v), (lower k, v)) <$> default [] default_headers) in
  let '(scheme, _, credential) :=
    partition " " (default EmptyString (str_or authorization (dget "authorization" headers))) in
  let d := if (lower scheme =? "bearer")%string && negb (credential =? EmptyString)%string
           then dset "token" (JStr credential) d else d in
  let d := add_if "as" (dget "impersonate-user" headers) d in
  if truthy_str_opt (dget "impersonate-group" headers)
  then dset "as-groups"
         (JList [JStr (default EmptyString (dget "impersonate-group" headers))]) d
  else d.

Definition kubeconfig_from_configuration (c : Configuration)
    (authorization : option string) (default_headers : option (list (string * string)))
    : json :=
  JObj [("apiVersion", JStr "v1");
        ("kind", JStr "Config");
        ("clusters", JList [JObj [("name", JStr "sandbox");
                                  ("cluster", JObj (kubeconfig_cluster c))]]);
        ("users", JList [JObj [("name", JStr "sandbox");
                               ("user", JObj (kubeconfig_user c authorization default_headers))]]);
        ("contexts", JList [JObj [("name", JStr "sandbox");
                                  ("context", JObj [("cluster", JStr "sandbox");
                                                    ("user", JStr "sandbox")])]]);
        ("current-context", JStr "sandbox")].

Record ApiClient := K8sApiClient {
  ac_configuration : Configuration;
  ac_default_headers : option (list (string * string));
  (** [configuration.get_api_key_with_prefix] *)
  ac_api_key : string → option string;
}.

Definition AUTHORIZATION_KEYS : list string := ["BearerToken"; "authorization"].

(** The loop over the keys: the first truthy value, else the last one tried. *)
Fixpoint find_authorization (api_key : string → option string) (auth : option string)
    (keys : list string) : option string :=
  match keys with
  | [] => auth
  | k :: ks =>
      if truthy_str_opt (api_key k) then api_key k
      else find_authorization api_key (api_key k) ks
  end.

Section temporary_kubeconfig.
Context {S : Type}.
(** The file system: [mkstemp] picks a name, the descriptor is written, and
    [unlink] removes the name. *)
Variable files : S → gmap string json.
Variable set_files : gmap string json → S → S.
(** [tempfile.mkstemp] creates an empty file; [None] stands for its [OSError]. *)
Variable mkstemp : S → option (string * S).

Definition unlink (path : string) : M S () :=
  modify (λ s, set_files (delete path (files s)) s).

(** [_temporary_kubeconfig]: the body runs with the file present; the file is
    removed on every exit. [FileNotFoundError] on removal is suppressed. *)
Definition temporary_kubeconfig {A} (api_client : ApiClient) (authorization : option string)
    (body : list string → M S A) : M S A := λ s,
  match mkstemp s with
  | None => (Raise OSError, s)
  | Some (path, s1) =>
      finally (unlink path)
        (_ ← modify (λ s, set_files (<[path :=
               kubeconfig_from_configuration (ac_configuration api_client) authorization
                 (ac_default_headers api_client)]> (files s)) s);
         body ["--kubeconfig"; path]) s1
  end.

Definition kubectl_kubeconfig_args {A} (api_client : option ApiClient)
    (body : list string → M S A) : M S A :=
  match api_client with
  | None => body []
  | Some a =>
      temporary_kubeconfig a (find_authorization (ac_api_key a) None AUTHORIZATION_KEYS) body
  end.
End temporary_kubeconfig.

(** ** Latency metric *)

(** [record_latency]: the handle's [_skip_latency_metric] flag and the labels
    observed on the metric so far. A response is [None] or an object whose
    [success] attribute is given. *)
Record latency_state := LatencyState { skip_metric : bool; observed : list string }.

Definition observe (status : string) : M latency_state () :=
  modify (λ s, LatencyState (skip_metric s) (observed s ++ [status])).

Definition record_latency (func : M latency_state (option bool))
    : M latency_state (option bool) := λ s0,
  match func (LatencyState false (observed s0)) with
  | (Ret response, s) =>
      match response with
      | Some success =>
          if skip_metric s then (Ret response, s)
          else (Ret response, (observe (if success then "success" else "failure") s).2)
      | None => (Ret response, s)
      end
  | (Raise e, s) =>
      if skip_metric s then (Raise e, s) else (Raise e, (observe "failure" s).2)
  | (NoFuel, s) => (NoFuel, s)
  end.

(** ** Pod IP selection: the first IPv4 address, else the first address *)

(** The IPv4 address an entry denotes, directly or mapped into IPv6. *)
Definition v4_of (a : ip_addr) : option N :=
  match a with V4 n => Some n | V6 _ _ => ipv4_mapped a end.

Definition select_pod_ip_spec (dotted : bool) (ips : list ip_entry) : option string :=
  let addrs := omap entry_addr ips in
  match head (omap v4_of addrs) with
  | Some n => Some (str_ip dotted (V4 n))
  | None => str_ip dotted <$> head addrs
  end.

Lemma select_pod_ip_loop_spec dotted first_valid ips :
  select_pod_ip_loop dotted first_valid ips =
  match head (omap v4_of (omap entry_addr ips)) with
  | Some n => Some (str_ip dotted (V4 n))
  | None => match first_valid with
            | Some s => Some s
            | None => str_ip dotted <$> head (omap entry_addr ips)
            end
  end.
Proof.
  revert first_valid. induction ips as [|e ips IH]; intros fv; [by destruct fv|].
  cbn [select_pod_ip_loop list_omap omap]. destruct (entry_addr e) as [[n|n sc]|]; [done| |apply IH].
  cbn [omap list_omap v4_of]. destruct (ipv4_mapped (V6 n sc)) as [m|]; [done|].
  rewrite IH. unfold omap. by destruct (head _), fv.
Qed.

(** The pod address chosen from a list is the first entry that denotes an
    IPv4 address, whether written as IPv4 or as IPv4-mapped IPv6, printed as
    IPv4; without one it is the first entry that parses; entries that are not
    addresses are skipped. *)
Theorem select_pod_ip_prefers_v4 (dotted : bool) (ips : list ip_entry) :
  select_pod_ip dotted ips = select_pod_ip_spec dotted ips.
Proof. apply select_pod_ip_loop_spec. Qed.

Lemma ipv4_mapped_bounded a n : ip_bounded a → ipv4_mapped a = Some n → (n < 2 ^ 32)%N.
Proof.
  destruct a as [m|m sc]; [done|]. unfold ipv4_mapped. intros _. case_scrut; [|done].
  intros [= <-]. by apply N.mod_lt.
Qed.

Definition unscoped (a : ip_addr) : Prop :=
  match a with V6 _ (Some _) => False | _ => True end.

Lemma str_ip_chars d a c :
  unscoped a → c ∈ explode (str_ip d a) → is_Some (hex_val c) ∨ c = ":"%char ∨ c = "."%char.
Proof.
  destruct a as [n|n [z|]]; cbn; [|done|]; intros _; rewrite explode_implode.
  - intros [H| ->]%str_v4_chars; [|by auto]. left. unfold hex_val. by rewrite H.
  - apply str_v6_chars.
Qed.

Lemma ip_char_not_space c :
  is_Some (hex_val c) ∨ c = ":"%char ∨ c = "."%char → is_space c = false.
Proof.
  intros [H|[->| ->]]; [|done|done]. destruct (is_space c) eqn:E; [|done]. exfalso.
  unfold is_space in E. rewrite !orb_true_iff, !in_range_spec, !N.eqb_eq in E.
  unfold hex_val, is_digit, in_range in H. destruct H as [v H].
  repeat case_scrut; try done; bool_prop; lia.
Qed.

Lemma entry_addr_str_ip d a :
  unscoped a → ip_in_range a → entry_addr (EJson (JStr (str_ip d a))) = Some a.
Proof.
  intros Hs Hr. pose proof (ip_address_str_ip d a Hr) as Hp.
  unfold entry_addr. cbn [entry_ip mbind option_bind].
  rewrite strip_id by (intros c Hc; eapply ip_char_not_space, str_ip_chars; eauto).
  destruct (str_ip d a =? "")%string eqn:E; [|done].
  bool_prop. by rewrite E in Hp.
Qed.

Lemma entry_addr_bounded e a : entry_addr e = Some a → ip_bounded a.
Proof.
  unfold entry_addr. intros (s & _ & H)%bind_Some. case_scrut; [done|].
  by apply ip_address_bounded in H.
Qed.

(** The chosen pod address is in canonical form: offered back as the only
    entry it is chosen unchanged. Entries with an IPv6 scope id are excluded,
    their id is kept as written. *)
Theorem select_pod_ip_canonical (dotted : bool) (ips : list ip_entry) (s : string) :
  (∀ e a, e ∈ ips → entry_addr e = Some a → unscoped a) →
  select_pod_ip dotted ips = Some s →
  select_pod_ip dotted [EJson (JStr s)] = Some s.
Proof.
  intros Hsc. unfold select_pod_ip. rewrite !select_pod_ip_loop_spec.
  destruct (head (omap v4_of (omap entry_addr ips))) as [n|] eqn:Hv4.
  - intros Heq. assert (s = str_ip dotted (V4 n)) as -> by congruence.
    apply head_Some_elem_of, list_elem_of_omap in Hv4 as (a & Ha & Hn).
    apply list_elem_of_omap in Ha as (e & He & Ha).
    cbn [omap list_omap]. rewrite (entry_addr_str_ip dotted (V4 n)); [done|done|].
    destruct a; cbn in *; [apply entry_addr_bounded in Ha; by simplify_eq|].
    eapply ipv4_mapped_bounded; [by eapply entry_addr_bounded|done].
  - intros (a & Ha & ->)%fmap_Some.
    pose proof Ha as Hin. apply head_Some_elem_of in Hin.
    pose proof Hin as (e & He & Hea)%list_elem_of_omap.
    assert (v4_of a = None) as Hna.
    { destruct (v4_of a) as [n|] eqn:E; [|done]. exfalso.
      assert (n ∈ omap v4_of (omap entry_addr ips)) as Hbad
        by (apply list_elem_of_omap; eauto).
      destruct (omap v4_of (omap entry_addr ips)); [by apply elem_of_nil in Hbad|done]. }
    pose proof (Hsc _ _ He Hea) as Hu. pose proof (entry_addr_bounded _ _ Hea) as Hb.
    assert (ip_in_range a) by (destruct a as [?|? []]; cbn in *; done).
    cbn [omap list_omap]. rewrite entry_addr_str_ip by done. cbn. by rewrite Hna.
Qed.

Lemma select_pod_ip_canonical_witness :
  select_pod_ip true [EJson (JStr "2001:DB8:0::1"); EJson (JObj [("ip", JStr "::ffff:10.0.0.7")])]
    = Some "10.0.0.7"
  ∧ select_pod_ip true [EJson (JStr "10.0.0.7")] = Some "10.0.0.7".
Proof.
  split; [vm_compute; reflexivity|].
  apply (select_pod_ip_canonical true
    [EJson (JStr "2001:DB8:0::1"); EJson (JObj [("ip", JStr "::ffff:10.0.0.7")])]);
    [|vm_compute; reflexivity].
  intros e a He Ha. rewrite !elem_of_cons in He.
  destruct He as [->|[->|[]%not_elem_of_nil]]; vm_compute in Ha; by injection Ha as <-.
Defined.

(** ** Header merging: case-insensitive, the last layer wins *)

Lemma dict_of_snoc {A} (l : list (string * A)) k v :
  dict_of (l ++ [(k, v)]) = dset k v (dict_of l).
Proof. unfold dict_of. by rewrite foldl_app. Qed.

Lemma dset_fresh {A} k (v : A) d : k ∉ d.*1 → dset k v d = d ++ [(k, v)].
Proof.
  induction d as [|[k' v'] d IH]; cbn; [done|]. rewrite not_elem_of_cons. intros [? ?].
  rewrite decide_False by done. by rewrite IH.
Qed.

Lemma dict_of_NoDup {A} (l : list (string * A)) : NoDup l.*1 → dict_of l = l.
Proof.
  induction l as [|[k v] l IH] using rev_ind; [done|].
  rewrite fmap_app, NoDup_app. intros (Hl & Hk & _).
  rewrite dict_of_snoc, IH by done. apply dset_fresh. intros Hin. apply (Hk k Hin). by left.
Qed.

(** The intermediate dict: keys are the lower-cased names, each holding the
    last pair of that name. *)
Lemma merge_layer_spec pairs :
  let m := merge_layer [] pairs in
  NoDup m.*1 ∧
  ∀ k p, dget k m = Some p ↔ last (filter (λ q, lower q.1 = k) pairs) = Some p.
Proof.
  induction pairs as [|[n v] pairs [IHd IH]] using rev_ind; cbn zeta in *; [by split; [constructor|]|].
  unfold merge_layer in *. rewrite foldl_app. cbn [foldl]. split; [by apply dset_NoDup|].
  intros k p. rewrite dget_dset, filter_app, filter_cons, filter_nil. cbn [fst].
  repeat case_decide; subst; try done.
  - by rewrite last_snoc.
  - by rewrite app_nil_r.
Qed.

Lemma foldl_merge_layer m layers :
  foldl (λ m layer, merge_layer m (default [] layer)) m layers
  = merge_layer m (concat (default [] <$> layers)).
Proof.
  revert m. induction layers as [|l layers IH]; intros m; cbn; [done|].
  rewrite IH. unfold merge_layer. by rewrite foldl_app.
Qed.

Lemma merged_keys pairs :
  (merge_layer [] pairs).*1 = lower <$> (merge_layer [] pairs).*2.*1.
Proof.
  destruct (merge_layer_spec pairs) as [Hd Hm]. cbn zeta in *.
  assert (∀ k p, (k, p) ∈ merge_layer [] pairs → k = lower p.1) as Hk.
  { intros k p Hin%dget_elem_of; [|done]. apply Hm, last_Some_elem_of in Hin.
    by apply list_elem_of_filter in Hin as [-> _]. }
  clear Hd Hm. induction (merge_layer [] pairs) as [|[k p] m IH]; [done|].
  cbn [fmap list_fmap fst snd]. rewrite IH by (intros; apply Hk; by right).
  f_equal. apply Hk. by left.
Qed.

Lemma merge_headers_NoDup layers :
  NoDup (merge_layer [] (concat (default [] <$> layers))).*2.*1.
Proof.
  eapply (NoDup_fmap_1 lower). rewrite <-merged_keys. apply merge_layer_spec.
Qed.

Lemma merge_headers_entries (layers : list (option (list (string * string)))) :
  NoDup (lower <$> (merge_headers layers).*1) ∧
  ∀ name value,
    (name, value) ∈ merge_headers layers ↔
    last (filter (λ q, lower q.1 = lower name) (concat (default [] <$> layers)))
      = Some (name, value).
Proof.
  unfold merge_headers. rewrite foldl_merge_layer, dict_of_NoDup by apply merge_headers_NoDup.
  pose proof (merge_layer_spec (concat (default [] <$> layers))) as [Hd Hm]. cbn zeta in Hd, Hm.
  split; [by rewrite <-merged_keys|]. intros name value. rewrite <-Hm, dget_elem_of by done.
  split.
  - intros ([k p] & Hp & Hin)%list_elem_of_fmap. cbn in Hp. subst p.
    enough (k = lower name) by (by subst).
    apply dget_elem_of, Hm, last_Some_elem_of in Hin; [|done].
    by apply list_elem_of_filter in Hin as [<- _].
  - intros Hin. apply list_elem_of_fmap. by exists (lower name, (name, value)).
Qed.

(** Merging header layers leaves one entry per case-insensitive name, and
    the entry is the last one of that name in the concatenated layers, in the
    spelling of that layer: a later layer always overrides an earlier one. *)
Theorem merge_headers_last_wins (layers : list (option (list (string * string)))) :
  NoDup (lower <$> (merge_headers layers).*1) ∧
  ∀ name value,
    (name, value) ∈ merge_headers layers ↔
    last (filter (λ q, lower q.1 = lower name) (concat (default [] <$> layers)))
      = Some (name, value).
Proof. apply merge_headers_entries. Qed.

(** ** Gateway host names *)

Definition host_char (c : ascii) : bool := is_alnum c || bool_decide (c = "-"%char).

Lemma alnum_host c : is_alnum c = true → host_char c = true.
Proof. unfold host_char. by intros ->. Qed.

Lemma dot_not_alnum : is_alnum "." = false.
Proof. done. Qed.
Lemma dash_not_alnum : is_alnum "-" = false.
Proof. done. Qed.

Definition prev_ok (prev : option ascii) : Prop :=
  match prev with
  | None => True
  | Some c => is_alnum c = true ∨ c = "-"%char ∨ c = "."%char
  end.

(** A label starts here when nothing or a dot precedes. *)
Definition at_start (prev : option ascii) : Prop :=
  match prev with None => True | Some c => c = "."%char end.

(** The rest [w] of a label whose last character so far is [prev]. *)
Definition label_rest_ok (prev : option ascii) (w : list ascii) : Prop :=
  Forall (λ c, host_char c = true) w ∧
  (∃ c, last (default [] ((λ c, [c]) <$> prev) ++ w) = Some c ∧ is_alnum c = true) ∧
  (at_start prev → ∃ c, head w = Some c ∧ is_alnum c = true).

Lemma label_rest_start prev w :
  at_start prev → label_rest_ok prev w ↔ word_ok is_alnum host_char w.
Proof.
  intros Hs. unfold label_rest_ok, word_ok. destruct w as [|a w].
  - split; [intros (_ & _ & H); by destruct (H Hs) as (? & ? & _)|intros ((? & ? & _) & _); done].
  - destruct prev as [p|]; cbn [fmap option_fmap option_map default app];
      rewrite ?last_cons_cons; naive_solver.
Qed.

Lemma label_rest_cons prev c w :
  host_char c = true → (at_start prev → is_alnum c = true) →
  label_rest_ok prev (c :: w) ↔ label_rest_ok (Some c) w.
Proof.
  intros Hc Hs. unfold label_rest_ok.
  assert (last (default [] ((λ c, [c]) <$> prev) ++ c :: w) = last (c :: w)) as ->
    by (destruct prev; cbn [fmap option_fmap option_map default app]; rewrite ?last_cons_cons; done).
  cbn [fmap option_fmap option_map default app]. rewrite Forall_cons.
  assert (¬ at_start (Some c)) by (intros ->; done). naive_solver.
Qed.

Lemma label_rest_bad prev c w :
  host_char c = false ∨ (at_start prev ∧ is_alnum c = false) → ¬ label_rest_ok prev (c :: w).
Proof.
  intros Hbad (Hall & _ & Hs). apply Forall_cons in Hall as [Hc _].
  destruct Hbad as [|[Hst Hna]]; [congruence|]. destruct (Hs Hst) as (d & [= <-] & ?). congruence.
Qed.

Definition end_ok (prev : option ascii) (l : list ascii) : bool :=
  match last (default [] ((λ c, [c]) <$> prev) ++ l) with
  | Some c => negb (bool_decide (c = "-"%char)) && negb (bool_decide (c = "."%char))
  | None => false
  end.

Lemma end_ok_cons prev c l : end_ok prev (c :: l) = end_ok (Some c) l.
Proof. unfold end_ok. destruct prev; cbn [fmap option_fmap option_map default app]; by rewrite ?last_cons_cons. Qed.

Lemma end_ok_nil prev :
  prev_ok prev → end_ok prev [] = true ↔ label_rest_ok prev [].
Proof.
  unfold end_ok, label_rest_ok. destruct prev as [c|]; cbn.
  2: { intros _. split; [done|]. by intros (_ & (? & ? & _) & _). }
  intros [Hc|[->| ->]]; (split; [|try (intros (_ & (d & [= <-] & Hd) & Hs); cbn in *; try done)]);
    try (vm_compute; done).
  - intros _. split_and!; [done|eauto|]. intros ->; done.
  - destruct (decide (c = "-"%char)) as [->|]; [done|].
    destruct (decide (c = "."%char)) as [->|]; [done|].
    by rewrite !bool_decide_eq_false_2.
Qed.

(** The character loop accepts exactly the texts whose labels are words. *)
Lemma hostname_chars_ok_spec prev l w ws :
  prev_ok prev → split_chars "." l = w :: ws →
  (hostname_chars_ok prev l = true ∧ end_ok prev l = true) ↔
  (label_rest_ok prev w ∧ Forall (word_ok is_alnum host_char) ws).
Proof.
  revert prev w ws. induction l as [|c l IH]; intros prev w ws Hp Hsp.
  { injection Hsp as <- <-. rewrite <-end_ok_nil by done. cbn. naive_solver. }
  cbn [split_chars] in Hsp. rewrite end_ok_cons. cbn [hostname_chars_ok].
  destruct (split_chars "." l) as [|w' ws'] eqn:El; [by apply split_chars_nonempty in El|].
  destruct (decide (c = "."%char)) as [->|Hdot].
  - injection Hsp as <- <-. rewrite dot_not_alnum, bool_decide_eq_false_2, bool_decide_eq_true_2 by done.
    rewrite Forall_cons, <-(label_rest_start (Some "."%char) w') by done.
    rewrite <-(IH (Some "."%char) w' ws') by (cbn; auto).
    rewrite <-end_ok_nil by done. rewrite andb_true_iff.
    assert (match prev with
            | None => false
            | Some p => negb (bool_decide (p = "."%char) || bool_decide (p = "-"%char))
            end = end_ok prev []) as ->; [|naive_solver].
    destruct prev as [p|]; [|done]. unfold end_ok. cbn. by rewrite negb_orb, andb_comm.
  - injection Hsp as <- <-. destruct (is_alnum c) eqn:Ha.
    { rewrite label_rest_cons by auto using alnum_host. rewrite andb_true_l.
      apply IH; [by left|done]. }
    destruct (decide (c = "-"%char)) as [->|Hdash].
    2: { rewrite !bool_decide_eq_false_2 by done. cbn [andb]. split; [by intros []|].
         intros [H _]. eapply label_rest_bad in H; [done|]. left. unfold host_char.
         by rewrite Ha, bool_decide_eq_false_2. }
    rewrite bool_decide_eq_true_2 by done. destruct prev as [p|].
    + destruct (decide (p = "."%char)) as [->|Hpd].
      * cbn [andb negb bool_decide]. rewrite bool_decide_eq_true_2 by done. split; [by intros []|].
        intros [H _]. eapply label_rest_bad in H; [done|]. by right.
      * rewrite bool_decide_eq_false_2 by done. cbn [negb andb].
        rewrite label_rest_cons by (try done; intros ->; done).
        apply IH; [cbn; auto|done].
    + split; [by intros []|]. intros [H _]. eapply label_rest_bad in H; [done|]. by right.
Qed.

Lemma forallb_false_Exists {A} (f : A → bool) l :
  forallb f l = false ↔ Exists (λ a, f a = false) l.
Proof.
  induction l as [|a l IH]; cbn; [split; [done|by inversion 1]|].
  by rewrite Exists_cons, <-IH, andb_false_iff.
Qed.

Lemma existsb_false_Forall {A} (f : A → bool) l :
  existsb f l = false ↔ Forall (λ a, f a = false) l.
Proof.
  induction l as [|a l IH]; cbn; [done|]. by rewrite Forall_cons, <-IH, orb_false_iff.
Qed.

Definition hostname_ok (l : list ascii) : Prop :=
  length l ≤ 253 ∧
  Forall (λ w, word_ok is_alnum host_char w ∧ length w ≤ 63) (split_chars "." l) ∧
  Exists (λ w, is_integer_label w = false) (split_chars "." l).

Lemma hostname_words l :
  (hostname_chars_ok None l = true ∧ end_ok None l = true) ↔
  Forall (word_ok is_alnum host_char) (split_chars "." l).
Proof.
  destruct (split_chars "." l) as [|w ws] eqn:El; [by apply split_chars_nonempty in El|].
  rewrite (hostname_chars_ok_spec None l w ws I El), (label_rest_start None) by done.
  by rewrite Forall_cons.
Qed.

Lemma gateway_hostname_json (v : json) :
  is_valid_gateway_hostname v = true ↔ ∃ s, v = JStr s ∧ hostname_ok (explode s).
Proof.
  destruct v as [| | | |s| |]; try (split; [done|by intros (? & ? & _)]).
  transitivity (hostname_ok (explode s)); [|naive_solver].
  unfold is_valid_gateway_hostname, hostname_ok. generalize (explode s) as l. intros l. cbn zeta.
  assert (existsb (λ label, bool_decide (63 < length label)) (split_chars "." l) = false ↔
          Forall (λ w, length w ≤ 63) (split_chars "." l)) as Hlen.
  { rewrite existsb_false_Forall. apply Forall_iff. intros w. rewrite bool_decide_eq_false. lia. }
  rewrite Forall_and, <-hostname_words, <-Hlen, <-forallb_false_Exists.
  unfold end_ok. cbn [fmap option_fmap option_map default app].
  case_bool_decide as Hl; [subst l; cbn; naive_solver|].
  case_bool_decide; cbn [orb]; [split; [done|lia]|].
  destruct (forallb _ _); [split; [done|naive_solver]|].
  destruct (existsb _ _); [split; [done|naive_solver]|].
  destruct (hostname_chars_ok None l); [|split; [done|naive_solver]].
  split; [intros ?; split_and!; by try lia|naive_solver].
Qed.

Lemma gateway_hostname_ok s :
  is_valid_gateway_hostname (JStr s) = true ↔ hostname_ok (explode s).
Proof. rewrite gateway_hostname_json. naive_solver. Qed.

(** A gateway host name is accepted exactly when it has at most 253
    characters, every dot-separated label is a word of 1 to 63 alphanumerics
    and dashes with an alphanumeric at both ends, and some label is not an
    integer, so that no resolver can read the name as an address. *)
Theorem is_valid_gateway_hostname_spec (v : json) :
  is_valid_gateway_hostname v = true ↔ ∃ s, v = JStr s ∧ hostname_ok (explode s).
Proof. apply gateway_hostname_json. Qed.

(** ** The temporary kubeconfig does not outlive its use *)

Section temporary_kubeconfig_facts.
Context {S : Type} (files : S → gmap string json) (set_files : gmap string json → S → S)
  (mkstemp : S → option (string * S)).
(** Writing the file system and reading it back. *)
Hypothesis files_set : ∀ f s, files (set_files f s) = f.

Lemma temporary_kubeconfig_exit {A} api_client auth (body : list string → M S A) s r s' :
  temporary_kubeconfig files set_files mkstemp api_client auth body s = (r, s') →
  r ≠ NoFuel →
  (mkstemp s = None ∧ r = Raise OSError ∧ s' = s) ∨
  ∃ path s1 s2,
    mkstemp s = Some (path, s1) ∧
    body ["--kubeconfig"; path]
      (set_files (<[path := kubeconfig_from_configuration (ac_configuration api_client) auth
                              (ac_default_headers api_client)]> (files s1)) s1) = (r, s2) ∧
    s' = set_files (delete path (files s2)) s2.
Proof.
  unfold temporary_kubeconfig. destruct (mkstemp s) as [[path s1]|]; [|naive_solver].
  run_unfold. unfold unlink, modify. intros H Hr. right. exists path, s1.
  destruct (body _ _) as [[a|e|] s2] eqn:E; simplify_eq; try done; eauto.
Qed.

(** The kubeconfig written for kubectl, which may hold a bearer token, is
    gone when the context manager exits, by return or by exception, whatever
    the body did; with no injected API client no file is written and no flag is
    passed. *)
Theorem kubectl_kubeconfig_removed {A} (api_client : option ApiClient)
    (body : list string → M S A) s r s' :
  kubectl_kubeconfig_args files set_files mkstemp api_client body s = (r, s') →
  r ≠ NoFuel →
  match api_client, mkstemp s with
  | Some _, Some (path, _) => files s' !! path = None
  | Some _, None => r = Raise OSError ∧ s' = s
  | None, _ => body [] s = (r, s')
  end.
Proof.
  unfold kubectl_kubeconfig_args. destruct api_client as [a|]; [|done].
  intros H Hr. apply temporary_kubeconfig_exit in H as [(-> & -> & ->)|H]; [done| |done].
  destruct H as (path & s1 & s2 & -> & _ & ->). rewrite files_set. apply lookup_delete_eq.
Qed.
End temporary_kubeconfig_facts.

Lemma kubectl_kubeconfig_removed_witness :
  let client := K8sApiClient (K8sConfiguration "https://k" true None None None None None) None
                  (λ k, if (k =? "BearerToken")%string then Some "Bearer t0" else None) in
  let mk s := Some ("/tmp/k.json", <["/tmp/k.json" := JNull]> s) in
  let r := kubectl_kubeconfig_args (λ s, s) (λ f _, f) mk (Some client)
             (λ args s, (Raise (A := ()) RuntimeError, <["seen" := JList (JStr <$> args)]> s)) ∅ in
  r.1 = Raise RuntimeError ∧ r.2 !! "/tmp/k.json" = None.
Proof.
  cbn zeta. split; [vm_compute; reflexivity|].
  refine (kubectl_kubeconfig_removed (λ s, s) (λ f _, f)
    (λ s, Some ("/tmp/k.json", <["/tmp/k.json" := JNull]> s)) (λ f s, eq_refl)
    (Some _) _ ∅ _ _ (surjective_pairing _) _).
  vm_compute. discriminate.
Defined.

(** The credential is the first configured API key, else the header; kubectl
    is given it only under the bearer scheme. *)
Lemma kubeconfig_user_token c auth headers t :
  dget "token" (kubeconfig_user c auth headers) = Some t →
  ∃ scheme cred,
    partition " " (default EmptyString (str_or auth
      (dget "authorization" (dict_of ((λ '(k, v), (lower k, v)) <$> default [] headers)))))
      = (scheme, true, cred) ∧ lower scheme = "bearer" ∧ t = JStr cred ∧ cred ≠ EmptyString.
Proof.
  unfold kubeconfig_user, add_if.
  destruct (partition _ _) as [[scheme sep] cred] eqn:Ep.
  set (h := dict_of _) in *. clearbody h.
  intros H. 
  assert (dget "token" (if (lower scheme =? "bearer")%string && negb (cred =? EmptyString)%string
           then [("token", JStr cred)] else []) = Some t) as Ht.
  { revert H. repeat match goal with
      | |- context [if ?b then dset _ _ _ else _] => destruct b end;
      rewrite ?dget_dset_ne, ?dget_dset_eq by done; done. }
  case_scrut; [|done]. cbn in Ht. injection Ht as <-. bool_prop.
  exists scheme, cred. split_and!; try done.
  destruct sep; [done|]. exfalso. revert Ep. unfold partition.
  destruct (partition_chars _ _) as [[a f] b] eqn:Epc. intros [= <- -> <-].
  assert (b = []) as ->; [|done].
  clear -Epc. revert a b Epc. generalize (explode (default "" (str_or auth (dget "authorization" h)))).
  intros l. induction l as [|x l IH]; intros a b; cbn; [by intros [= <- <-]|].
  case_decide; [done|]. destruct (partition_chars _ l) as [[a' f'] b']. intros [= <- -> <-].
  by eapply IH.
Qed.
