(* ===== verification/World.v ===== *)
(** The world outside the SDK: clock, Kubernetes API server and watch streams.

    These are not part of the sources; the SDK reaches them through the
    Kubernetes client and the standard library. A class gives the operations
    the SDK calls over an abstract world [W], a second class states the
    documented behaviour the theorems rely on. *)

From Stdlib Require Import String ZArith.
From stdpp Require Import base option list strings sets.
From S2P Require Import Prelude Float Json.

(** ** Watch streams *)

Record resource := Resource { group : string; api_version : string; plural : string }.

#[global] Instance resource_eq_dec : EqDecision resource.
Proof. solve_decision. Defined.

(** The arguments of [Watch().stream(list_namespaced_custom_object, ...)]. *)
Record watch_req := WatchReq {
  wr_resource : resource;
  wr_namespace : string;
  wr_field_selector : string;
  wr_resource_version : json;
  wr_timeout_seconds : Z;
}.

(** What iterating a watch yields: events, each with the world at the moment it
    is delivered, until the server closes the stream, the client raises, or neither
    ever happens and the iteration does not end ([SHang]). *)
Inductive stream (W : Type) :=
  | SEnd (w : W)
  | SFail (e : exn) (w : W)
  | SHang (w : W)
  | SEvent (ev : json) (w : W) (rest : stream W).
Arguments SEnd {W} _.
Arguments SFail {W} _ _.
Arguments SHang {W} _.
Arguments SEvent {W} _ _ _.

Fixpoint stream_events {W} (s : stream W) : list json :=
  match s with
  | SEnd _ | SFail _ _ | SHang _ => []
  | SEvent ev _ rest => ev :: stream_events rest
  end.

(** Whether the iteration goes on for ever *)
Fixpoint stream_hangs {W} (s : stream W) : bool :=
  match s with
  | SEnd _ | SFail _ _ => false
  | SHang _ => true
  | SEvent _ _ rest => stream_hangs rest
  end.

(** [itertools.chain(evs, s)] opened in world [w]. *)
Definition chain {W} (evs : list json) (w : W) (s : stream W) : stream W :=
  foldr (λ ev rest, SEvent ev w rest) s evs.

(** ** Operations *)

Class Clock (W : Type) := {
  (** [time.monotonic()], in nanoseconds *)
  monotonic : W → Z * W;
  (** [time.sleep], in nanoseconds *)
  sleep : Z → W → W;
  (** [datetime.now(UTC)]: microseconds since 0001-01-01 and [isoformat()] *)
  utcnow_us : W → Z * W;
  utcnow_isoformat : W → string * W;
}.

(** [time.time()] and [time.sleep], in seconds *)
Class WallClock (W : Type) := {
  time_time : M W pyfloat;
  time_sleep : pyfloat → M W ();
}.

Class K8sApi (W : Type) := {
  create_object : resource → string → json → M W json;
  get_object : resource → string → string → M W json;
  (** the last argument is the UID precondition *)
  delete_object : resource → string → string → option string → M W json;
  patch_object : resource → string → string → json → M W json;
  list_objects : resource → string → option string → M W json;
  watch_stream : watch_req → W → stream W;
}.

Definition SECOND : Z := 1000000000.

Definition read_clock {W} `{Clock W} : M W Z :=
  λ w, let '(t, w') := monotonic w in (Ret t, w').
Definition do_sleep {W} `{Clock W} (d : Z) : M W () := λ w, (Ret (), sleep d w).
Definition read_utc_us {W} `{Clock W} : M W Z :=
  λ w, let '(t, w') := utcnow_us w in (Ret t, w').
Definition read_isoformat {W} `{Clock W} : M W string :=
  λ w, let '(t, w') := utcnow_isoformat w in (Ret t, w').

(** ** Documented behaviour *)

(** The monotonic clock never goes back, [sleep] waits at least as long as
    asked, and events of a watch arrive in time order. *)
Section laws.
Context {W : Type} `{Clock W} (clock : W → Z).

Fixpoint stream_from (t : Z) (s : stream W) : Prop :=
  match s with
  | SEnd w | SFail _ w | SHang w => (t ≤ clock w)%Z
  | SEvent _ w rest => (t ≤ clock w)%Z ∧ stream_from (clock w) rest
  end.

(** The world in which the iteration ends, if it is run to its end. *)
Fixpoint stream_end (s : stream W) : W :=
  match s with
  | SEnd w | SFail _ w | SHang w => w
  | SEvent _ _ rest => stream_end rest
  end.
End laws.

Class ClockLaws (W : Type) `{Clock W} (clock : W → Z) := {
  monotonic_reads : ∀ w, clock (monotonic w).2 = (monotonic w).1;
  monotonic_mono : ∀ w, (clock w ≤ (monotonic w).1)%Z;
  sleep_waits : ∀ d w, (0 ≤ d)%Z → (clock w + d ≤ clock (sleep d w))%Z;
}.

(** A watch takes time: opening the connection costs at least a nanosecond. The
    server closes a watch after its [timeout_seconds]; without a positive one it may
    stay open for ever. *)
Class WatchLaws (W : Type) `{Clock W} `{K8sApi W} (clock : W → Z) := {
  watch_in_order : ∀ req w, stream_from clock (clock w) (watch_stream req w);
  watch_takes_time : ∀ req w, (clock w < clock (stream_end (watch_stream req w)))%Z;
  watch_times_out : ∀ req w, (1 ≤ wr_timeout_seconds req)%Z → stream_hangs (watch_stream req w) = false;
}.

(** ** A world with a log of the calls made in it

    An interface over [W] gives one over [W * list E] whose calls are also written
    down. Code that is generic in the interface cannot tell the difference, so what it
    asks for is what the log says. *)
Section logging.
Context {W E : Type}.

Definition logging {A} (entry : outcome A → E) (m : M W A) : M (W * list E) A := λ s,
  let '(o, w) := m s.1 in (o, (w, s.2 ++ [entry o])).
Definition unlogged {A} (m : M W A) : M (W * list E) A := λ s, let '(o, w) := m s.1 in (o, (w, s.2)).

Definition logged_clock `{Clock W} : Clock (W * list E) := {|
  monotonic := λ s, let '(t, w) := monotonic s.1 in (t, (w, s.2));
  sleep := λ d s, (sleep d s.1, s.2);
  utcnow_us := λ s, let '(t, w) := utcnow_us s.1 in (t, (w, s.2));
  utcnow_isoformat := λ s, let '(t, w) := utcnow_isoformat s.1 in (t, (w, s.2));
|}.

Lemma logged_clock_laws `{Clock W} (clock : W → Z) `{!ClockLaws W clock} :
  @ClockLaws (W * list E) logged_clock (λ s, clock s.1).
Proof.
  split; cbn.
  - intros [w l]. pose proof (monotonic_reads w). cbn. by destruct (monotonic w).
  - intros [w l]. pose proof (monotonic_mono w). cbn. by destruct (monotonic w).
  - intros d [w l]. apply sleep_waits.
Qed.
End logging.

(** What the API server is asked to change *)
Inductive api_write :=
  | ACreate (r : resource) (ns : string) (body : json)
  | APatch (r : resource) (ns name : string) (body : json)
  | ADelete (r : resource) (ns name : string) (uid : option string).

Fixpoint log_stream {W E} (l : list E) (s : stream W) : stream (W * list E) :=
  match s with
  | SEnd w => SEnd (w, l)
  | SFail e w => SFail e (w, l)
  | SHang w => SHang (w, l)
  | SEvent ev w rest => SEvent ev (w, l) (log_stream l rest)
  end.

(** Writes are logged when they are asked for, whatever comes of them. *)
Definition logged_k8s {W} `{K8sApi W} : K8sApi (W * list api_write) := {|
  create_object r ns body := logging (λ _, ACreate r ns body) (create_object r ns body);
  get_object r ns n := unlogged (get_object r ns n);
  delete_object r ns n uid := logging (λ _, ADelete r ns n uid) (delete_object r ns n uid);
  patch_object r ns n body := logging (λ _, APatch r ns n body) (patch_object r ns n body);
  list_objects r ns sel := unlogged (list_objects r ns sel);
  watch_stream req s := log_stream s.2 (watch_stream req s.1);
|}.
