(* ===== verification/Sim.v ===== *)
(** A small simulated world: a clock, an object store and scripted watch
    streams. It instantiates the interface of [World] and satisfies its laws,
    and the worked examples of the development run in it. *)

From Stdlib Require Import String ZArith Lia.
From stdpp Require Import base option list strings gmap pretty.
From S2P Require Import Prelude Json World.

Record sim := Sim {
  sim_now : Z;
  (** keyed by plural, namespace and name *)
  sim_objects : gmap (string * string * string) json;
  (** what the next watches deliver, and how each of them ends *)
  sim_streams : list (list json * option exn);
  sim_next_uid : Z;
}.

Definition sim_empty : sim := Sim 0 ∅ [] 0.

Definition advance (d : Z) (w : sim) : sim :=
  Sim (sim_now w + d) (sim_objects w) (sim_streams w) (sim_next_uid w).

#[global] Instance sim_clock : Clock sim := {
  monotonic w := (sim_now w, w);
  sleep d w := advance (Z.max 0 d) w;
  utcnow_us w := ((63838000000000000 + sim_now w / 1000)%Z, w);
  utcnow_isoformat w := ("2023-12-18T00:00:00+00:00", w);
}.

(** Events arrive one second apart. When the script is over, a watch runs to its
    timeout, and without one for ever. *)
Fixpoint scripted (evs : list json) (fin : option exn) (w : sim) : stream sim :=
  let w' := advance SECOND w in
  match evs with
  | [] => match fin with None => SEnd w' | Some e => SFail e w' end
  | ev :: evs' => SEvent ev w' (scripted evs' fin w')
  end.

Definition sim_watch (req : watch_req) (w : sim) : stream sim :=
  match sim_streams w with
  | [] => if (wr_timeout_seconds req <? 1)%Z then SHang (advance SECOND w)
          else scripted [] None (advance (SECOND * wr_timeout_seconds req) w)
  | (evs, fin) :: rest =>
      scripted evs fin (Sim (sim_now w) (sim_objects w) rest (sim_next_uid w))
  end.

Definition sim_name (body : json) : string :=
  match py_get body "metadata" with
  | Ret m => match py_get m "name" with Ret (JStr s) => s | _ => EmptyString end
  | _ => EmptyString
  end.

(** Creation stamps a UID and a resourceVersion on the metadata. *)
Definition sim_stamp (uid : Z) (body : json) : json :=
  match body with
  | JObj kvs =>
      match dget "metadata" kvs with
      | Some (JObj m) =>
          JObj (dset "metadata"
            (JObj (dset "uid" (JStr ("uid-" +:+ pretty uid))
                    (dset "resourceVersion" (JStr (pretty (uid + 1)%Z)) m))) kvs)
      | _ => body
      end
  | _ => body
  end.

Definition sim_uid (o : json) : option string :=
  match py_get o "metadata" with
  | Ret m => match py_get m "uid" with Ret (JStr s) => Some s | _ => None end
  | _ => None
  end.

Definition sim_key (r : resource) (ns name : string) := (plural r, ns, name).

#[global] Instance sim_api : K8sApi sim := {
  create_object r ns body w :=
    let k := sim_key r ns (sim_name body) in
    match sim_objects w !! k with
    | Some _ => (Raise (ApiException 409), w)
    | None =>
        let o := sim_stamp (sim_next_uid w) body in
        (Ret o, Sim (sim_now w) (<[k := o]> (sim_objects w)) (sim_streams w) (sim_next_uid w + 1))
    end;
  get_object r ns name w :=
    match sim_objects w !! sim_key r ns name with
    | Some o => (Ret o, w)
    | None => (Raise (ApiException 404), w)
    end;
  delete_object r ns name uid w :=
    let k := sim_key r ns name in
    match sim_objects w !! k with
    | None => (Raise (ApiException 404), w)
    | Some o =>
        if bool_decide (uid = None ∨ uid = sim_uid o)
        then (Ret o, Sim (sim_now w) (delete k (sim_objects w)) (sim_streams w) (sim_next_uid w))
        else (Raise (ApiException 409), w)
    end;
  patch_object r ns name body w :=
    match sim_objects w !! sim_key r ns name with
    | Some o => (Ret o, w)
    | None => (Raise (ApiException 404), w)
    end;
  list_objects r ns sel w :=
    (Ret (JObj [("items", JList (map snd (filter (λ p, p.1.1 = (plural r, ns))
                                        (map_to_list (sim_objects w)))))]), w);
  watch_stream := sim_watch;
}.

#[global] Instance sim_clock_laws : ClockLaws sim sim_now.
Proof. split; cbn; intros; lia. Qed.

Lemma scripted_from evs fin w t :
  (t ≤ sim_now w)%Z → stream_from sim_now t (scripted evs fin w).
Proof.
  revert w t. induction evs as [|ev evs IH]; intros w t Ht; cbn.
  - destruct fin; cbn; unfold SECOND; lia.
  - split; [unfold SECOND; lia|]. by apply IH.
Qed.

Lemma scripted_end evs fin w : (sim_now w < sim_now (stream_end (scripted evs fin w)))%Z.
Proof.
  revert w. induction evs as [|ev evs IH]; intros w; cbn [scripted].
  - destruct fin; cbn; unfold SECOND; lia.
  - cbn [stream_end]. specialize (IH (advance SECOND w)). cbn in *. unfold SECOND in *. lia.
Qed.

Lemma scripted_ends evs fin w : stream_hangs (scripted evs fin w) = false.
Proof. revert w. induction evs as [|ev evs IH]; intros w; cbn; [by destruct fin|done]. Qed.

#[global] Instance sim_watch_laws : WatchLaws sim sim_now.
Proof.
  split; intros req w; cbn [watch_stream sim_api]; unfold sim_watch;
    (destruct (sim_streams w) as [|[evs fin] rest]; [case_match eqn:E; bool_prop|]).
  - cbn. unfold SECOND. lia.
  - apply scripted_from. cbn. unfold SECOND. lia.
  - by apply scripted_from.
  - cbn. unfold SECOND. lia.
  - eapply Z.le_lt_trans; [|apply scripted_end]. cbn. unfold SECOND. lia.
  - apply (scripted_end evs fin (Sim (sim_now w) _ rest _)).
  - lia.
  - intros _. apply scripted_ends.
  - intros _. apply scripted_ends.
Qed.

(** ** A quiet world: nothing exists and every watch runs to its timeout *)

Record quiet := Quiet { quiet_now : Z }.

#[global] Instance quiet_clock : Clock quiet := {
  monotonic w := (quiet_now w, w);
  sleep d w := Quiet (quiet_now w + Z.max 0 d);
  utcnow_us w := ((63838000000000000 + quiet_now w / 1000)%Z, w);
  utcnow_isoformat w := ("2023-12-18T00:00:00+00:00", w);
}.

#[global] Instance quiet_api : K8sApi quiet := {
  create_object _ _ body w := (Raise (ApiException 403), w);
  get_object _ _ _ w := (Raise (ApiException 404), w);
  delete_object _ _ _ _ w := (Raise (ApiException 404), w);
  patch_object _ _ _ _ w := (Raise (ApiException 404), w);
  list_objects _ _ _ w := (Ret (JObj [("items", JList [])]), w);
  watch_stream req w :=
    if (wr_timeout_seconds req <? 1)%Z then SHang (Quiet (quiet_now w + SECOND))
    else SEnd (Quiet (quiet_now w + SECOND * wr_timeout_seconds req));
}.

#[global] Instance quiet_clock_laws : ClockLaws quiet quiet_now.
Proof. split; cbn; intros; lia. Qed.

#[global] Instance quiet_watch_laws : WatchLaws quiet quiet_now.
Proof. split; intros req w; cbn; case_match eqn:E; bool_prop; cbn; unfold SECOND; try done; lia. Qed.
