(* ===== verification/K8sHelper.v ===== *)
(** [k8s_helper.py]: SandboxClaim manifests, the claim, sandbox and gateway
    watch loops, and the thin wrappers over the custom-object API. *)

From Stdlib Require Import Ascii String ZArith Lia.
From stdpp Require Import base option list strings sets.
From S2P Require Import Prelude Json IpAddress Models Utils World.

(** ** Constants ([constants.py]) *)

Definition CLAIM : resource := Resource "extensions.agents.x-k8s.io" "v1beta1" "sandboxclaims".
Definition SANDBOX : resource := Resource "agents.x-k8s.io" "v1beta1" "sandboxes".
Definition GATEWAY : resource := Resource "gateway.networking.k8s.io" "v1" "gateways".
Definition CLIENT_REQUEST_TIME_ANNOTATION : string := "agents.x-k8s.io/client-first-requested-at".
Definition CREATED_BY_LABEL : string := "agents.x-k8s.io/created-by".

Definition TERMINAL_CLAIM_READY_REASONS : list string :=
  ["InvalidMetadata"; "EnvVarsInjectionRejected"; "VolumeClaimTemplatesError";
   "ClaimExpired"; "SandboxExpired"; "InvalidConfiguration"; "PodFailed"; "PodSucceeded"].

(** ** The watch loop shared by the three waits

    Each wait of the source is the same [while True]: read the clock, give up
    at the deadline, open a watch, run the body on each event, and let the
    [except] clauses decide between reconnecting and re-raising. The waits
    differ in the request, the body and the clauses. *)

(** [d[k]] *)
Definition py_index (v : json) (k : string) : outcome json :=
  match v with
  | JObj kvs => match dget k kvs with Some x => Ret x | None => Raise KeyError end
  | _ => Raise TypeError
  end.

(** What an [except] clause does with an exception: continue the loop in a new
    state, after a pause or at once. An exception no clause names is re-raised. *)
Inductive retry (St : Type) :=
  | Reconnect (st : St)
  | Restart (st : St).
Arguments Reconnect {St} _.
Arguments Restart {St} _.

Section watch.
Context {W : Type} `{Clock W} `{K8sApi W} {St R : Type}.

(** The body of a wait: a new state and the result, if the wait is over. *)
Variable on_event : St → json → outcome (St * option R).

Fixpoint consume (st : St) (s : stream W) : outcome (option R) * (St * W) :=
  match s with
  | SEnd w => (Ret None, (st, w))
  | SFail e w => (Raise e, (st, w))
  | SHang w => (NoFuel, (st, w))
  | SEvent ev w rest =>
      match on_event st ev with
      | Ret (st', Some r) => (Ret (Some r), (st', w))
      | Ret (st', None) => consume st' rest
      | Raise e => (Raise e, (st, w))
      | NoFuel => (NoFuel, (st, w))
      end
  end.

Variable initial : St → list json * St.
Variable request : St → Z → watch_req.
Variable on_error : exn → St → option (retry St).
Variable deadline : Z.

(** [math.ceil(deadline - time.monotonic())] in seconds *)
Definition ceil_seconds (ns : Z) : Z := (- ((- ns) / SECOND))%Z.

(** [time.sleep(min(0.5, max(0.0, deadline - time.monotonic())))] *)
Definition reconnect_pause : M W () :=
  now ← read_clock;
  do_sleep (Z.min (SECOND / 2) (Z.max 0 (deadline - now))).

Fixpoint watch_loop (fuel : nat) (st : St) : M W R :=
  match fuel with
  | O => no_fuel
  | S fuel' =>
      now ← read_clock;
      let remaining := ceil_seconds (deadline - now) in
      if (remaining <=? 0)%Z then raise TimeoutError
      else λ w,
        let '(evs, st0) := initial st in
        match consume st0 (chain evs w (watch_stream (request st remaining) w)) with
        | (Ret (Some r), (_, w')) => (Ret r, w')
        | (Ret None, (st', w')) => watch_loop fuel' st' w'
        | (Raise e, (st', w')) =>
            match on_error e st' with
            | Some (Reconnect st'') => (_ ← reconnect_pause; watch_loop fuel' st'') w'
            | Some (Restart st'') => watch_loop fuel' st'' w'
            | None => (Raise e, w')
            end
        | (NoFuel, (_, w')) => (NoFuel, w')
        end
  end.
End watch.

(** The connection losses the claim and sandbox waits reconnect after. *)
Definition is_disconnect (e : exn) : bool :=
  match e with ProtocolError | ReadTimeoutError | ConnectionError => true | _ => false end.

(** ** Waiting for a claim *)

Record claim_wait := ClaimWait {
  cw_require_ready : bool;
  cw_expected_uid : option string;
  cw_require_current_generation : bool;
}.

(** [rv] and the not yet delivered [initial_claim]. *)
Record claim_watch := ClaimWatch { cs_rv : json; cs_initial : option json }.

Definition is_ready_status (cond : list (string * json)) (s : string) : bool :=
  is_str (default JNull (dget "type" cond)) "Ready"
  && is_str (default JNull (dget "status" cond)) s.

(** [reason in TERMINAL_CLAIM_READY_REASONS]; a list or dict is unhashable. *)
Definition is_terminal_reason (reason : json) : outcome bool :=
  match reason with
  | JStr s => Ret (str_mem s TERMINAL_CLAIM_READY_REASONS)
  | JList _ | JObj _ => Raise TypeError
  | _ => Ret false
  end.

(** One pass of [for cond in ...]: whether the condition makes the claim ready,
    or the failure it reports. *)
Definition claim_condition (p : claim_wait) (metadata cond : json) : outcome bool :=
  match cond with
  | JObj c =>
      let reason := default JNull (dget "reason" c) in
      if is_ready_status c "False" && is_str reason "TemplateNotFound"
      then Raise SandboxTemplateNotFoundError
      else if is_str reason "WarmPoolNotFound" then Raise SandboxWarmPoolNotFoundError
      else
        terminal ← (if is_ready_status c "False" then is_terminal_reason reason else Ret false);
        if terminal : bool then Raise SandboxClaimFailedError
        else if is_ready_status c "True" then
          if negb (cw_require_current_generation p) then Ret true
          else
            g ← py_get metadata "generation";
            Ret (negb (is_none g) && json_eqb (default JNull (dget "observedGeneration" c)) g)
        else Ret false
  | _ => Raise AttributeError
  end.

Fixpoint claim_conditions (p : claim_wait) (metadata : json) (ready : bool) (conds : list json)
    : outcome bool :=
  match conds with
  | [] => Ret ready
  | c :: conds' =>
      r ← claim_condition p metadata c; claim_conditions p metadata (ready || r) conds'
  end.

(** The name in [status.sandbox], under its current or its legacy key. *)
Definition claim_sandbox_name (status : json) : outcome json :=
  sandbox_status ← py_get_def status "sandbox" (JObj []);
  name ← py_get_def sandbox_status "name" (JStr EmptyString);
  if truthy name then Ret name else py_get_def sandbox_status "Name" (JStr EmptyString).

Definition check_expected_uid (p : claim_wait) (metadata : json) : outcome () :=
  match cw_expected_uid p with
  | None => Ret ()
  | Some u =>
      uid ← py_get metadata "uid";
      if negb (is_str uid u) then Raise SandboxNotFoundError
      else
        d ← py_get metadata "deletionTimestamp";
        if truthy d then Raise SandboxNotFoundError else Ret ()
  end.

(** The body for an [ADDED] or [MODIFIED] claim: the new [rv] and the name. *)
Definition claim_object_step (p : claim_wait) (rv claim_object : json)
    : outcome (json * option json) :=
  m ← py_get claim_object "metadata";
  let metadata := py_or m (JObj []) in
  _ ← check_expected_uid p metadata;
  seen_rv ← py_get metadata "resourceVersion";
  let rv := if truthy seen_rv then seen_rv else rv in
  st ← py_get claim_object "status";
  let status := py_or st (JObj []) in
  cs ← py_get_def status "conditions" (JList []);
  conds ← py_iter cs;
  ready ← claim_conditions p metadata false conds;
  name ← claim_sandbox_name status;
  Ret (rv, if truthy name && (ready || negb (cw_require_ready p)) then Some name else None).

Definition is_added_or_modified (type : json) : bool :=
  is_str type "ADDED" || is_str type "MODIFIED".

Definition claim_event (p : claim_wait) (st : claim_watch) (event : json)
    : outcome (claim_watch * option json) :=
  if is_none event then Ret (st, None)
  else
    type ← py_index event "type";
    if is_str type "DELETED" then Raise SandboxMetadataError
    else if is_added_or_modified type then
      o ← py_index event "object";
      '(rv, r) ← claim_object_step p (cs_rv st) o;
      Ret (ClaimWatch rv (cs_initial st), r)
    else Ret (st, None).

(** [initial_events], delivered once before the stream. *)
Definition claim_initial (st : claim_watch) : list json * claim_watch :=
  (match cs_initial st with
   | None => []
   | Some c => [JObj [("type", JStr "ADDED"); ("object", c)]]
   end, ClaimWatch (cs_rv st) None).

Definition claim_error (e : exn) (st : claim_watch) : option (retry claim_watch) :=
  match e with
  | ApiException s =>
      if (s =? 410)%Z then Some (Restart (ClaimWatch (JStr "0") (cs_initial st))) else None
  | _ => if is_disconnect e then Some (Reconnect st) else None
  end.

Section helper.
Context {W : Type} `{Clock W} `{K8sApi W}.

Definition claim_request (claim_name namespace : string) (st : claim_watch) (remaining : Z)
    : watch_req :=
  WatchReq CLAIM namespace ("metadata.name=" +:+ claim_name) (cs_rv st) remaining.

(** [deadline = time.monotonic() + timeout] *)
Definition deadline_after (timeout : Z) : M W Z :=
  now ← read_clock; mret (now + timeout * SECOND)%Z.

Definition watch_claim (fuel : nat) (claim_name namespace : string) (timeout : Z)
    (p : claim_wait) (resource_version : option string) (initial_claim : option json)
    : M W json :=
  deadline ← deadline_after timeout;
  let rv := JStr (default "0" (str_or resource_version None)) in
  watch_loop (claim_event p) claim_initial (claim_request claim_name namespace) claim_error
    deadline fuel (ClaimWatch rv initial_claim).

Definition resolve_sandbox_name (fuel : nat) (claim_name namespace : string) (timeout : Z)
    (resource_version : option string) : M W json :=
  watch_claim fuel claim_name namespace timeout (ClaimWait false None false) resource_version None.

Definition wait_for_claim_ready (fuel : nat) (claim_name namespace : string) (timeout : Z)
    (resource_version expected_uid : option string) (initial_claim : option json)
    (require_current_generation : bool) : M W json :=
  watch_claim fuel claim_name namespace timeout
    (ClaimWait true expected_uid require_current_generation) resource_version initial_claim.

(** ** Waiting for a sandbox *)

(** [for cond in conditions]: whether one says Ready. *)
Fixpoint sandbox_conditions (conds : list json) : outcome bool :=
  match conds with
  | [] => Ret false
  | JObj c :: conds' =>
      if is_ready_status c "True" then Ret true else sandbox_conditions conds'
  | _ :: _ => Raise AttributeError
  end.

Definition sandbox_event (dotted : bool) (st : ()) (event : json)
    : outcome (() * option (option string)) :=
  if is_none event then Ret ((), None)
  else
    type ← py_index event "type";
    if is_added_or_modified type then
      o ← py_index event "object";
      s ← py_get o "status";
      let status := py_or s (JObj []) in
      cs ← py_get_def status "conditions" (JList []);
      conds ← py_iter cs;
      ready ← sandbox_conditions conds;
      if ready : bool then
        pod_ips ← py_get_def status "podIPs" (JList []);
        ip ← select_pod_ip_json dotted pod_ips;
        Ret ((), Some ip)
      else Ret ((), None)
    else if is_str type "DELETED" then Raise SandboxNotFoundError
    else Ret ((), None).

Definition sandbox_error (e : exn) (st : ()) : option (retry ()) :=
  if is_disconnect e then Some (Reconnect st) else None.

Definition wait_for_sandbox_ready (dotted : bool) (fuel : nat) (name namespace : string)
    (timeout : Z) : M W (option string) :=
  deadline ← deadline_after timeout;
  watch_loop (sandbox_event dotted) (λ st, ([], st))
    (λ _ remaining, WatchReq SANDBOX namespace ("metadata.name=" +:+ name) JNull remaining)
    sandbox_error deadline fuel ().

(** ** Waiting for a gateway address *)

Fixpoint gateway_addresses (addresses : list json) : outcome (option string) :=
  match addresses with
  | [] => Ret None
  | JObj a :: addresses' =>
      match default JNull (dget "value" a) with
      | JStr s =>
          if negb (truthy (JStr s)) then gateway_addresses addresses'
          else if negb (is_valid_ip (JStr s)) && negb (is_valid_gateway_hostname (JStr s))
          then gateway_addresses addresses'
          else Ret (Some s)
      | _ => gateway_addresses addresses'
      end
  | _ :: addresses' => gateway_addresses addresses'
  end.

Definition gateway_event (st : ()) (event : json) : outcome (() * option string) :=
  if is_none event then Ret ((), None)
  else
    type ← py_index event "type";
    if is_added_or_modified type then
      o ← py_index event "object";
      s ← py_get o "status";
      addresses ← py_get_def (py_or s (JObj [])) "addresses" (JList []);
      l ← py_iter addresses;
      r ← gateway_addresses l;
      Ret ((), r)
    else Ret ((), None).

Definition wait_for_gateway_ip (fuel : nat) (gateway_name namespace : string) (timeout : Z)
    : M W string :=
  deadline ← deadline_after timeout;
  watch_loop gateway_event (λ st, ([], st))
    (λ _ remaining, WatchReq GATEWAY namespace ("metadata.name=" +:+ gateway_name) JNull remaining)
    (λ _ _, None) deadline fuel ().

(** ** Manifests and API wrappers *)

Definition str_dict (d : list (string * string)) : json := JObj ((λ '(k, v), (k, JStr v)) <$> d).

(** [AdditionalPodMetadata.model_dump(exclude_none=True)] *)
Definition dump_pod_metadata (p : AdditionalPodMetadata) : json :=
  JObj (match pm_labels p with Some l => [("labels", str_dict l)] | None => [] end ++
        match pm_annotations p with Some a => [("annotations", str_dict a)] | None => [] end).

(** [SandboxClaimEnvVar.model_dump(by_alias=True, exclude_none=True)] *)
Definition dump_env_var (e : SandboxClaimEnvVar) : json :=
  JObj ([("name", JStr (ev_name e)); ("value", JStr (ev_value e))] ++
        match ev_container_name e with Some c => [("containerName", JStr c)] | None => [] end).

(** [d or {}] on an optional dict *)
Definition or_empty {A} (d : option (list A)) : list A := default [] d.

(** [if v: spec[k] = v] *)
Definition add_section {A} (k : string) (dump : list A → json) (v : option (list A))
    (spec : list (string * json)) : list (string * json) :=
  match v with Some (a :: l) => dset k (dump (a :: l)) spec | _ => spec end.

Definition claim_annotations (annotations : option (list (string * string))) (now : string)
    : list (string * string) :=
  let d := or_empty annotations in
  match dget CLIENT_REQUEST_TIME_ANNOTATION d with
  | None => dset CLIENT_REQUEST_TIME_ANNOTATION now d
  | Some _ => d
  end.

Definition claim_manifest (name warmpool : string) (annotations : list (string * string))
    (labels lifecycle : option (list (string * string)))
    (volume_claim_templates : option (list json)) (pod_metadata : option AdditionalPodMetadata)
    (env_spec : list SandboxClaimEnvVar) : json :=
  let metadata := JObj
    [("name", JStr name);
     ("annotations", str_dict annotations);
     ("labels", str_dict (dset CREATED_BY_LABEL "python-client" (or_empty labels)))] in
  let spec := [("warmPoolRef", JObj [("name", JStr warmpool)])] in
  let spec := add_section "lifecycle" str_dict lifecycle spec in
  let spec := add_section "volumeClaimTemplates" JList volume_claim_templates spec in
  let spec := match pod_metadata with
              | Some p => dset "additionalPodMetadata" (dump_pod_metadata p) spec
              | None => spec
              end in
  let spec := add_section "env" (λ l, JList (dump_env_var <$> l)) (Some env_spec) spec in
  JObj [("apiVersion", JStr (group CLAIM +:+ "/" +:+ api_version CLAIM));
        ("kind", JStr "SandboxClaim");
        ("metadata", metadata);
        ("spec", JObj spec)].

Definition create_sandbox_claim (name warmpool namespace : string)
    (annotations labels lifecycle : option (list (string * string)))
    (volume_claim_templates : option (list json)) (pod_metadata : option AdditionalPodMetadata)
    (env : option (list (string * string))) : M W json :=
  updated_annotations ←
    (match dget CLIENT_REQUEST_TIME_ANNOTATION (or_empty annotations) with
     | Some _ => mret (or_empty annotations)
     | None => now ← read_isoformat; mret (claim_annotations annotations now)
     end);
  env_spec ← lift (construct_sandbox_claim_env_spec env);
  create_object CLAIM namespace
    (claim_manifest name warmpool updated_annotations labels lifecycle
       volume_claim_templates pod_metadata env_spec).

(** [except ApiException as e: if e.status == 404: return None; raise] *)
Definition none_on_404 (m : M W json) : M W (option json) :=
  except (λ e, match e with
               | ApiException s => if (s =? 404)%Z then Some (mret None) else None
               | _ => None
               end)
    (v ← m; mret (Some v)).

Definition delete_sandbox_claim (name namespace : string) (expected_uid : option string)
    : M W () :=
  _ ← none_on_404 (delete_object CLAIM namespace name expected_uid); mret ().

Definition get_sandbox (name namespace : string) : M W (option json) :=
  none_on_404 (get_object SANDBOX namespace name).

Definition patch_sandbox_claim (name namespace : string) (body : json) : M W json :=
  patch_object CLAIM namespace name body.

Definition get_sandbox_claim (name namespace : string) : M W (option json) :=
  none_on_404 (get_object CLAIM namespace name).

(** The names of the listed items; items without one are left out. *)
Fixpoint item_names (items : list json) : outcome (list json) :=
  match items with
  | [] => Ret []
  | item :: items' =>
      m ← py_get_def item "metadata" (JObj []);
      name ← py_get m "name";
      names ← item_names items';
      Ret (if truthy name then name :: names else names)
  end.

Definition list_sandbox_claims (namespace : string) (label_selector : option string)
    : M W (list json) :=
  response ← list_objects CLAIM namespace label_selector;
  items ← lift (py_get_def response "items" (JList []));
  l ← lift (py_iter items);
  lift (item_names l).

End helper.
