(* ===== verification/K8sHelperProofs.v ===== *)
(** Theorems on [k8s_helper.py]: the waits return only what an event reported,
    do not give up early, and end; manifests and deletions. *)

From Stdlib Require Import Ascii String ZArith Lia.
From stdpp Require Import base option list strings gmap sets.
From S2P Require Import Prelude Json IpAddress Models Utils World Sim K8sHelper.

(** ** The watch loop *)

(** How the iteration of a stream ends, if run to its end. *)
Fixpoint stream_error {W} (s : stream W) : option exn :=
  match s with
  | SEnd _ | SHang _ => None
  | SFail e _ => Some e
  | SEvent _ _ rest => stream_error rest
  end.

Lemma stream_events_chain {W} evs (w : W) s :
  stream_events (chain evs w s) = evs ++ stream_events s.
Proof. induction evs as [|ev evs IH]; cbn; [done|]. by rewrite <-IH. Qed.

Lemma stream_end_chain {W} evs (w : W) s : stream_end (chain evs w s) = stream_end s.
Proof. by induction evs. Qed.

Lemma stream_error_chain {W} evs (w : W) s : stream_error (chain evs w s) = stream_error s.
Proof. by induction evs. Qed.

Lemma stream_hangs_chain {W} evs (w : W) s : stream_hangs (chain evs w s) = stream_hangs s.
Proof. by induction evs. Qed.

Lemma stream_from_chain {W} (clock : W → Z) evs (w : W) s :
  stream_from clock (clock w) s → stream_from clock (clock w) (chain evs w s).
Proof. induction evs; cbn; [done|]. auto with lia. Qed.

Section loop.
Context {W : Type} `{Clock W} `{K8sApi W} {St R : Type}.
Context (on_event : St → json → outcome (St * option R)) (initial : St → list json * St)
  (request : St → Z → watch_req) (on_error : exn → St → option (retry St)) (deadline : Z).

Abbreviation loop := (watch_loop on_event initial request on_error deadline).

(** A result comes from an event of the stream. *)
Lemma consume_result st (s : stream W) r st' w' :
  consume on_event st s = (Ret (Some r), (st', w')) →
  ∃ ev st0, ev ∈ stream_events s ∧ on_event st0 ev = Ret (st', Some r).
Proof.
  revert st. induction s as [w|e w|w|ev w rest IH]; intros st; cbn; [done..|].
  destruct (on_event st ev) as [[st1 [r1|]]|e|] eqn:E; try done.
  - intros [= <- <- <-]. exists ev, st. split; [by left|done].
  - intros (ev' & st0 & Hin & Hev)%IH. exists ev', st0. split; [by right|done].
Qed.

(** Without a result the stream ran to its end, or the body raised. *)
Lemma consume_no_result st (s : stream W) o st' w' :
  consume on_event st s = (o, (st', w')) →
  match o with
  | Ret (Some _) => True
  | Ret None => stream_error s = None ∧ w' = stream_end s
  | Raise e =>
      (stream_error s = Some e ∧ w' = stream_end s) ∨
      ∃ ev st0, ev ∈ stream_events s ∧ on_event st0 ev = Raise e
  | NoFuel => stream_hangs s = true ∨ ∃ ev st0, ev ∈ stream_events s ∧ on_event st0 ev = NoFuel
  end.
Proof.
  revert st. induction s as [w|e w|w|ev w rest IH]; intros st; cbn.
  - by intros [= <- <- <-].
  - intros [= <- <- <-]. by left.
  - intros [= <- <- <-]. by left.
  - destruct (on_event st ev) as [[st1 [r1|]]|e|] eqn:E.
    + by intros [= <- <- <-].
    + intros Hc%IH. destruct o as [[]| |]; [done|done| |].
      * destruct Hc as [Hc|(ev' & st2 & Hin & Hev)]; [by left|right].
        exists ev', st2. split; [by right|done].
      * destruct Hc as [Hc|(ev' & st2 & Hin & Hev)]; [by left|right]. exists ev', st2. split; [by right|done].
    + intros [= <- <- <-]. right. exists ev, st. split; [by left|done].
    + intros [= <- <- <-]. right. exists ev, st. split; [by left|done].
Qed.

(** One turn of the loop. *)
Lemma watch_loop_S fuel st w :
  loop (S fuel) st w =
  let '(now, w0) := monotonic w in
  if (ceil_seconds (deadline - now) <=? 0)%Z then (Raise TimeoutError, w0)
  else
    let '(evs, st0) := initial st in
    match consume on_event st0
            (chain evs w0 (watch_stream (request st (ceil_seconds (deadline - now))) w0)) with
    | (Ret (Some r), (_, w')) => (Ret r, w')
    | (Ret None, (st', w')) => loop fuel st' w'
    | (Raise e, (st', w')) =>
        match on_error e st' with
        | Some (Reconnect st'') => (_ ← reconnect_pause deadline; loop fuel st'') w'
        | Some (Restart st'') => loop fuel st'' w'
        | None => (Raise e, w')
        end
    | (NoFuel, (_, w')) => (NoFuel, w')
    end.
Proof.
  cbn [watch_loop]. unfold read_clock, mbind, M_bind. destruct (monotonic w) as [now w0].
  cbn zeta. by case_match.
Qed.

Lemma reconnect_pause_run w :
  ∃ w', reconnect_pause deadline w = (Ret (), w').
Proof.
  unfold reconnect_pause, read_clock, do_sleep, mbind, M_bind. destruct (monotonic w). eauto.
Qed.

Lemma consume_inv (I : St → Prop) st (s : stream W) o st' w' :
  (∀ st ev st1 r, I st → on_event st ev = Ret (st1, r) → I st1) →
  consume on_event st s = (o, (st', w')) → I st → I st'.
Proof.
  intros HI. revert st. induction s as [w|e w|w|ev w rest IH]; intros st; cbn;
    [by intros [= <- <- <-]..|].
  destruct (on_event st ev) as [[st1 [r1|]]|e|] eqn:E; try by intros [= <- <- <-].
  - intros [= <- <- <-] ?. by eapply HI.
  - intros Hc Hst. eapply IH; [done|]. by eapply HI.
Qed.

(** What the states of a loop satisfy: an invariant kept by the initial
    events, the body and the clauses, under which initial events satisfy [Q]. *)
Record loop_inv (Q : json → Prop) (I : St → Prop) : Prop := {
  inv_initial : ∀ st, I st → I (initial st).2 ∧ ∀ ev, ev ∈ (initial st).1 → Q ev;
  inv_event : ∀ st ev st1 r, I st → on_event st ev = Ret (st1, r) → I st1;
  inv_error : ∀ e st, I st →
    match on_error e st with Some (Reconnect st') | Some (Restart st') => I st' | None => True end;
}.

(** A property [Q] of every event the world can deliver is a property of the
    event that ended the wait. *)
Lemma watch_loop_result (Q : json → Prop) (I : St → Prop) fuel st w r w' :
  (∀ req w ev, ev ∈ stream_events (watch_stream req w) → Q ev) →
  loop_inv Q I → I st →
  loop fuel st w = (Ret r, w') →
  ∃ ev st0 st1, Q ev ∧ on_event st0 ev = Ret (st1, Some r).
Proof.
  intros HQ [Hinit Hev Herr]. revert st w. induction fuel as [|fuel IH]; intros st w Hst; [done|].
  rewrite watch_loop_S. destruct (monotonic w) as [now w0]. case_match; [done|].
  specialize (Hinit st Hst). destruct (initial st) as [evs st0], Hinit as [Hst0 Hinit].
  destruct (consume _ _ _) as [o [st' w1]] eqn:Ec.
  assert (I st') as Hst' by (by eapply consume_inv).
  destruct o as [[r'|]|e|]; [|by eauto| |done].
  - intros [= <- <-]. apply consume_result in Ec as (ev & st1 & Hin & Hr).
    exists ev, st1, st'. split; [|done]. rewrite stream_events_chain in Hin.
    apply elem_of_app in Hin as [Hin|Hin]; [by apply Hinit|by eapply HQ].
  - specialize (Herr e st' Hst'). destruct (on_error e st') as [[st2|st2]|]; [|by eauto|done].
    unfold mbind, M_bind. destruct (reconnect_pause_run w1) as [w2 ->]. by eapply IH.
Qed.
End loop.

Lemma ceil_seconds_pos ns : (0 < ceil_seconds ns)%Z ↔ (0 < ns)%Z.
Proof.
  unfold ceil_seconds, SECOND.
  pose proof (Z.div_mod (- ns) 1000000000 ltac:(done)).
  pose proof (Z.mod_pos_bound (- ns) 1000000000 ltac:(done)). lia.
Qed.

Section loop_time.
Context {W : Type} {Hclock : Clock W} {Hapi : K8sApi W} {St R : Type} (clock : W → Z)
  {Hcl : ClockLaws W clock} {Hwl : WatchLaws W clock}.
Context (on_event : St → json → outcome (St * option R)) (initial : St → list json * St)
  (request : St → Z → watch_req) (on_error : exn → St → option (retry St)) (deadline : Z).
(** The body neither diverges nor raises an exception the clauses retry on. *)
Context (body_ends : ∀ st ev, on_event st ev ≠ NoFuel)
  (body_not_retried : ∀ st ev e st', on_event st ev = Raise e → on_error e st' = None)
  (request_timed : ∀ st remaining, wr_timeout_seconds (request st remaining) = remaining).

Abbreviation loop := (watch_loop on_event initial request on_error deadline).

Lemma reconnect_pause_time w w' :
  reconnect_pause deadline w = (Ret (), w') → (clock w ≤ clock w')%Z.
Proof.
  unfold reconnect_pause, read_clock, do_sleep, mbind, M_bind.
  pose proof (monotonic_mono w). pose proof (monotonic_reads w).
  destruct (monotonic w) as [t w1]. cbn in *. intros [= <-].
  change (SECOND / 2)%Z with 500000000%Z.
  pose proof (sleep_waits (Z.min 500000000 (Z.max 0 (deadline - t))) w1). lia.
Qed.

(** A turn of the loop ends the wait, or continues at a later instant. *)
Lemma watch_loop_turn fuel st w :
  let now := (monotonic w).1 in
  (deadline ≤ now)%Z ∧ loop (S fuel) st w = (Raise TimeoutError, (monotonic w).2) ∨
  (now < deadline)%Z ∧
  ((∃ r w', loop (S fuel) st w = (Ret r, w')) ∨
   (∃ e w', loop (S fuel) st w = (Raise e, w') ∧
      ((∃ req w0, stream_error (watch_stream req w0) = Some e) ∨
       (∃ st0 ev, on_event st0 ev = Raise e))) ∨
   (∃ st' w', (now < clock w')%Z ∧ loop (S fuel) st w = loop fuel st' w')).
Proof.
  cbn zeta. rewrite watch_loop_S. pose proof (monotonic_reads w) as Hnow.
  destruct (monotonic w) as [now w0]. cbn [fst snd] in *.
  pose proof (ceil_seconds_pos (deadline - now)). case_match eqn:Erem; bool_prop; [left; split; [lia|done]|].
  right. split; [lia|]. destruct (initial st) as [evs st0].
  set (req := request st _). pose proof (watch_takes_time req w0) as Htime.
  destruct (consume _ _ _) as [o [st' w1]] eqn:Ec. pose proof Ec as Hc.
  apply consume_no_result in Hc. rewrite stream_error_chain, stream_end_chain in Hc.
  destruct o as [[r|]|e|].
  - left. eauto.
  - destruct Hc as [_ ->]. right; right. exists st', (stream_end (watch_stream req w0)).
    split; [lia|done].
  - destruct Hc as [[Hs Hw1]|(ev & st1 & _ & Hev)].
    2: { rewrite (body_not_retried _ _ _ st' Hev). right; left. eauto 10. }
    subst w1. destruct (on_error e st') as [[st2|st2]|].
    + destruct (reconnect_pause_run deadline (stream_end (watch_stream req w0))) as [w2 Hp].
      pose proof (reconnect_pause_time _ _ Hp). right; right. exists st2, w2.
      split; [lia|]. unfold mbind, M_bind. by rewrite Hp.
    + right; right. exists st2, (stream_end (watch_stream req w0)). split; [lia|done].
    + right; left. eauto 10.
  - destruct Hc as [Hc|(ev & st1 & _ & Hev)]; [|by apply body_ends in Hev].
    rewrite stream_hangs_chain in Hc. rewrite watch_times_out in Hc; [done|]. subst req. rewrite request_timed. lia.
Qed.

Lemma watch_loop_terminates fuel st w :
  (deadline - clock w < Z.of_nat fuel)%Z → (0 < fuel) → (loop fuel st w).1 ≠ NoFuel.
Proof.
  revert st w. induction fuel as [|fuel IH]; intros st w Hf Hpos; [lia|].
  pose proof (monotonic_mono w).
  destruct (watch_loop_turn fuel st w) as
    [[_ ->]|[Hlt [(r & w' & ->)|[(e & w' & -> & _)|(st' & w' & Ht & ->)]]]]; try done.
  apply IH; lia.
Qed.

Lemma watch_loop_not_early fuel st w w' :
  (∀ req w, stream_error (watch_stream req w) ≠ Some TimeoutError) →
  (∀ st ev, on_event st ev ≠ Raise TimeoutError) →
  loop fuel st w = (Raise TimeoutError, w') → (deadline ≤ clock w')%Z.
Proof.
  intros Hs Hb. revert st w. induction fuel as [|fuel IH]; intros st w Hl; [done|].
  pose proof (monotonic_reads w).
  destruct (watch_loop_turn fuel st w) as
    [[Hd Hl']|[Hlt [(r & w1 & Hl')|[(e & w1 & Hl' & Hwhy)|(st' & w1 & Ht & Hl')]]]];
    rewrite Hl' in Hl; simplify_eq.
  - lia.
  - destruct Hwhy as [(req & w0 & Hf)|(st0 & ev & Hf)]; [by apply Hs in Hf|by apply Hb in Hf].
  - by eapply IH.
Qed.
End loop_time.

(** ** The event bodies raise only exceptions of their own *)

Definition local_exn (e : exn) : bool :=
  match e with
  | ApiException _ | ProtocolError | ReadTimeoutError | ConnectionError | TimeoutError => false
  | _ => true
  end.

(** The code ends, and an exception it raises is none that a watch is retried
    on and not a timeout. *)
Definition local {A} (o : outcome A) : Prop :=
  match o with Ret _ => True | Raise e => local_exn e = true | NoFuel => False end.

Create HintDb local discriminated.

Lemma local_bind {A B} (m : outcome A) (k : A → outcome B) :
  local m → (∀ a, local (k a)) → local (m ≫= k).
Proof. destruct m; cbn; auto. Qed.

Lemma local_ret {A} (a : A) : local (Ret a).
Proof. done. Qed.
Lemma local_raise {A} e : local_exn e = true → local (Raise (A := A) e).
Proof. done. Qed.
Lemma local_if {A} (b : bool) (m1 m2 : outcome A) :
  local m1 → local m2 → local (if b then m1 else m2).
Proof. by destruct b. Qed.
Lemma local_py_get v k : local (py_get v k).
Proof. by destruct v. Qed.
Lemma local_py_get_def v k d : local (py_get_def v k d).
Proof. by destruct v. Qed.
Lemma local_py_index v k : local (py_index v k).
Proof. destruct v; try done. cbn. by case_match. Qed.
Lemma local_py_iter v : local (py_iter v).
Proof. by destruct v. Qed.

#[export] Hint Resolve local_bind local_ret local_raise local_if local_py_get local_py_get_def
  local_py_index local_py_iter : local.

Ltac solve_local :=
  repeat first
    [ apply local_ret | apply local_if | (apply local_raise; reflexivity)
    | apply local_bind; [|intros ?]
    | solve [auto with local nocore]
    | match goal with |- local (match ?x with _ => _ end) => destruct x end
    | progress cbn zeta ].

Lemma local_claim_condition p metadata c : local (claim_condition p metadata c).
Proof. unfold claim_condition, is_terminal_reason. solve_local. Qed.

Lemma local_claim_conditions p metadata ready cs : local (claim_conditions p metadata ready cs).
Proof.
  revert ready. induction cs as [|c cs IH]; intros ready; cbn [claim_conditions]; [done|].
  apply local_bind; [apply local_claim_condition|auto].
Qed.
#[export] Hint Resolve local_claim_conditions : local.

Lemma local_claim_event p st ev : local (claim_event p st ev).
Proof.
  unfold claim_event, claim_object_step, check_expected_uid, claim_sandbox_name. solve_local.
Qed.

Lemma local_sandbox_conditions cs : local (sandbox_conditions cs).
Proof. induction cs as [|[] cs IH]; cbn [sandbox_conditions]; solve_local. Qed.

Lemma local_gateway_addresses l : local (gateway_addresses l).
Proof. induction l as [|[] l IH]; cbn [gateway_addresses]; solve_local. Qed.
#[export] Hint Resolve local_sandbox_conditions local_gateway_addresses : local.

Lemma local_sandbox_event dotted st ev : local (sandbox_event dotted st ev).
Proof. unfold sandbox_event, select_pod_ip_json. solve_local. Qed.

Lemma local_gateway_event st ev : local (gateway_event st ev).
Proof. unfold gateway_event. solve_local. Qed.

(** ** Claims *)

(** A condition says the claim is ready, for its current generation if asked. *)
Definition cond_ready (p : claim_wait) (metadata : json) (c : list (string * json)) : Prop :=
  is_ready_status c "True" = true ∧
  (cw_require_current_generation p = true →
   ∃ g, py_get metadata "generation" = Ret g ∧ is_none g = false ∧
        json_eqb (default JNull (dget "observedGeneration" c)) g = true).

(** A condition reports a failure the wait does not sit out. *)
Definition cond_failed (c : list (string * json)) : Prop :=
  let reason := default JNull (dget "reason" c) in
  reason = JStr "WarmPoolNotFound" ∨
  is_ready_status c "False" = true ∧
  ∃ s, reason = JStr s ∧ (s = "TemplateNotFound" ∨ s ∈ TERMINAL_CLAIM_READY_REASONS).

(** What a wait returns a sandbox name for: the claim names its sandbox, has
    the expected identity and is not being deleted, reports no failure, and is
    ready if readiness is asked for. *)
Definition claim_offers (p : claim_wait) (claim name : json) : Prop :=
  ∃ m s cs conds,
    py_get claim "metadata" = Ret m ∧ py_get claim "status" = Ret s ∧
    let metadata := py_or m (JObj []) in
    let status := py_or s (JObj []) in
    claim_sandbox_name status = Ret name ∧ truthy name = true ∧
    (∀ u, cw_expected_uid p = Some u →
       py_get metadata "uid" = Ret (JStr u) ∧
       ∃ d, py_get metadata "deletionTimestamp" = Ret d ∧ truthy d = false) ∧
    py_get_def status "conditions" (JList []) = Ret cs ∧ py_iter cs = Ret conds ∧
    (∀ c, JObj c ∈ conds → ¬ cond_failed c) ∧
    (cw_require_ready p = true → ∃ c, JObj c ∈ conds ∧ cond_ready p metadata c).

(** The claim an event carries. *)
Definition event_claim (ev claim : json) : Prop :=
  ∃ type, py_index ev "type" = Ret type ∧ is_added_or_modified type = true ∧
          py_index ev "object" = Ret claim.

Lemma ready_true_not_false c :
  is_ready_status c "True" = true → is_ready_status c "False" = false.
Proof.
  unfold is_ready_status. intros [-> Hs]%andb_true_iff. cbn.
  apply is_str_true in Hs as ->. done.
Qed.

Lemma claim_condition_ret p metadata c b :
  claim_condition p metadata (JObj c) = Ret b →
  ¬ cond_failed c ∧ (b = true → cond_ready p metadata c).
Proof.
  unfold claim_condition, cond_failed, cond_ready. set (reason := default JNull (dget "reason" c)).
  unfold mbind, outcome_bind. intros H.
  destruct (is_ready_status c "False" && is_str reason "TemplateNotFound") eqn:E1; [done|].
  destruct (is_str reason "WarmPoolNotFound") eqn:E2; [done|].
  assert (¬ (reason = JStr "WarmPoolNotFound")) as Hwp
    by (intros ->; done).
  destruct (is_ready_status c "False") eqn:E3; cbn [andb] in E1.
  - destruct (is_ready_status c "True") eqn:E4; [by rewrite ready_true_not_false in E3|].
    destruct (is_terminal_reason reason) as [[]| |] eqn:E5; try done. simplify_eq.
    split; [|done]. intros [?|(_ & s & Hr & Hs)]; [done|]. rewrite Hr in *.
    destruct Hs as [->|Hs]; [done|]. cbn in E5. unfold str_mem in E5.
    by rewrite bool_decide_eq_true_2 in E5.
  - split; [naive_solver|]. intros ->. destruct (is_ready_status c "True"); [|done].
    split; [done|]. intros Hg. rewrite Hg in H. cbn [negb] in H.
    destruct (py_get metadata "generation") as [g| |]; try done. injection H as H.
    exists g. by bool_prop.
Qed.

Lemma claim_conditions_ret p metadata ready conds b :
  claim_conditions p metadata ready conds = Ret b →
  (∀ c, JObj c ∈ conds → ¬ cond_failed c) ∧
  (b = true → ready = true ∨ ∃ c, JObj c ∈ conds ∧ cond_ready p metadata c).
Proof.
  revert ready. induction conds as [|c conds IH]; intros ready; cbn [claim_conditions].
  - intros [= ->]. split; [|auto]. intros c Hc. by apply not_elem_of_nil in Hc.
  - unfold mbind, outcome_bind. destruct (claim_condition p metadata c) as [r| |] eqn:Ec; try done.
    intros [Hf Hr]%IH.
    destruct c as [| | | | | |c]; try done. apply claim_condition_ret in Ec as [Hnf Hrdy].
    split.
    + intros c' [Heq|?]%elem_of_cons; [|by apply Hf]. injection Heq as ->. done.
    + intros ->. destruct (Hr eq_refl) as [[->| ->]%orb_true_iff|(c' & ? & ?)]; [by left|right..].
      * exists c. split; [by left|auto].
      * exists c'. split; [by right|done].
Qed.

Lemma check_expected_uid_ret p metadata :
  check_expected_uid p metadata = Ret () →
  ∀ u, cw_expected_uid p = Some u →
    py_get metadata "uid" = Ret (JStr u) ∧
    ∃ d, py_get metadata "deletionTimestamp" = Ret d ∧ truthy d = false.
Proof.
  unfold check_expected_uid, mbind, outcome_bind. intros H u Hu. rewrite Hu in H.
  destruct (py_get metadata "uid") as [uid| |] eqn:?; try done.
  destruct (is_str uid u) eqn:Es; [|done]. apply is_str_true in Es as ->. cbn in H.
  destruct (py_get metadata "deletionTimestamp") as [d| |]; try done.
  destruct (truthy d) eqn:?; [done|]. eauto.
Qed.

Lemma claim_object_step_offers p rv claim rv' name :
  claim_object_step p rv claim = Ret (rv', Some name) → claim_offers p claim name.
Proof.
  unfold claim_object_step, claim_offers, mbind, outcome_bind.
  destruct (py_get claim "metadata") as [m| |] eqn:Em; try done.
  destruct (check_expected_uid p _) as [[]| |] eqn:Eu; try done.
  destruct (py_get (py_or m _) "resourceVersion") as [srv| |]; try done.
  destruct (py_get claim "status") as [s| |] eqn:Es; try done.
  destruct (py_get_def (py_or s _) "conditions" _) as [cs| |] eqn:Ecs; try done.
  destruct (py_iter cs) as [conds| |] eqn:Econds; try done.
  destruct (claim_conditions p _ false conds) as [ready| |] eqn:Er; try done.
  destruct (claim_sandbox_name _) as [nm| |] eqn:En; try done.
  apply claim_conditions_ret in Er as [Hnf Hready].
  destruct (truthy nm && (ready || negb (cw_require_ready p))) eqn:Ht; [|done].
  intros [= _ <-]. bool_prop. exists m, s, cs, conds.
  split_and!; try done; [by apply check_expected_uid_ret|].
  intros Hrr. rewrite Hrr, orb_false_r in *. destruct (Hready ltac:(done)) as [|]; done.
Qed.

Lemma claim_event_offers p st ev st' name :
  claim_event p st ev = Ret (st', Some name) →
  ∃ claim, event_claim ev claim ∧ claim_offers p claim name.
Proof.
  unfold claim_event, mbind, outcome_bind. destruct (is_none ev); [done|].
  destruct (py_index ev "type") as [type| |] eqn:Et; try done.
  destruct (is_str type "DELETED"); [done|]. destruct (is_added_or_modified type) eqn:Ea; [|done].
  destruct (py_index ev "object") as [o| |] eqn:Eo; try done.
  destruct (claim_object_step _ _ _) as [[rv r]| |] eqn:Es; try done.
  intros [= _ ->]. apply claim_object_step_offers in Es. exists o. split; [|done].
  exists type. done.
Qed.

Definition added (claim : json) : json := JObj [("type", JStr "ADDED"); ("object", claim)].

Lemma claim_loop_inv p (Q : json → Prop) initial_claim :
  (∀ c, initial_claim = Some c → Q (added c)) →
  loop_inv (claim_event p) claim_initial claim_error Q
    (λ st, cs_initial st = None ∨ cs_initial st = initial_claim).
Proof.
  intros HQ. split.
  - intros [rv ini] Hst. cbn in *. split; [by left|]. destruct ini as [c|]; [|set_solver].
    intros ev ->%list_elem_of_singleton. apply HQ. naive_solver.
  - intros st ev st1 r Hst. unfold claim_event, mbind, outcome_bind.
    repeat case_scrut; intros; simplify_eq; done.
  - intros e st Hst. unfold claim_error. repeat case_scrut; simplify_eq; done.
Qed.

Section claims.
Context {W : Type} {Hclock : Clock W} {Hapi : K8sApi W}.

Lemma deadline_after_run timeout w :
  deadline_after timeout w =
  (Ret ((monotonic w).1 + timeout * SECOND)%Z, (monotonic w).2).
Proof. unfold deadline_after, read_clock, mbind, M_bind. by destruct (monotonic w). Qed.

(** C28. A wait on a claim returns a sandbox name only if some event it was
    delivered (from the initial claim or a watch) carried a claim that names
    that sandbox, has the expected UID and no deletion timestamp, reports no
    failure, and, when readiness is asked for, has a true Ready condition for
    the required generation. [Q] is any property the delivered events have. *)
Theorem watch_claim_sound (Q : json → Prop) fuel claim_name namespace timeout p rv
    initial_claim (w : W) name w' :
  (∀ req w ev, ev ∈ stream_events (watch_stream req w) → Q ev) →
  (∀ c, initial_claim = Some c → Q (added c)) →
  watch_claim fuel claim_name namespace timeout p rv initial_claim w = (Ret name, w') →
  ∃ ev claim, Q ev ∧ event_claim ev claim ∧ claim_offers p claim name.
Proof.
  intros HQ Hini. unfold watch_claim, mbind at 1, M_bind at 1. rewrite deadline_after_run.
  intros H. eapply watch_loop_result in H as (ev & st0 & st1 & Hev & Hr);
    [|done|by apply claim_loop_inv|by right].
  apply claim_event_offers in Hr as (claim & ? & ?). by exists ev, claim.
Qed.

Context (clock : W → Z) {Hcl : ClockLaws W clock} {Hwl : WatchLaws W clock}.

Lemma claim_body_ends p st ev : claim_event p st ev ≠ NoFuel.
Proof. intros E. pose proof (local_claim_event p st ev) as Hl. by rewrite E in Hl. Qed.

Lemma claim_body_not_retried p st ev e st' :
  claim_event p st ev = Raise e → claim_error e st' = None.
Proof.
  intros E. pose proof (local_claim_event p st ev) as Hl. rewrite E in Hl. by destruct e.
Qed.

Lemma claim_body_no_timeout p st ev : claim_event p st ev ≠ Raise TimeoutError.
Proof. intros E. pose proof (local_claim_event p st ev) as Hl. by rewrite E in Hl. Qed.

(** C29. A wait on a claim ends: given one turn of the loop per nanosecond of
    its timeout, plus one, it returns or raises, whatever events the API server sends
    and however often the watch is cut or restarted. Every watch it opens asks for a
    timeout of a second or more, after which the server closes it; without one a watch
    may never end, and then neither does the wait. *)
Theorem watch_claim_terminates fuel claim_name namespace timeout p rv initial_claim (w : W) :
  (0 ≤ timeout)%Z → (timeout * SECOND < Z.of_nat fuel)%Z →
  (watch_claim fuel claim_name namespace timeout p rv initial_claim w).1 ≠ NoFuel.
Proof.
  intros Ht Hf. unfold watch_claim, mbind, M_bind. rewrite deadline_after_run.
  pose proof (monotonic_reads w). unfold SECOND in *.
  apply (watch_loop_terminates clock); [apply claim_body_ends|apply claim_body_not_retried|done|lia..].
Qed.

(** A wait on a claim does not give up early: it raises a timeout only
    once the monotonic clock is past the deadline computed at its start. *)
Theorem watch_claim_not_early fuel claim_name namespace timeout p rv initial_claim (w w' : W) :
  (∀ req w, stream_error (watch_stream req w) ≠ Some TimeoutError) →
  watch_claim fuel claim_name namespace timeout p rv initial_claim w = (Raise TimeoutError, w') →
  (clock w + timeout * SECOND ≤ clock w')%Z.
Proof.
  intros Hs. unfold watch_claim, mbind at 1, M_bind at 1. rewrite deadline_after_run. intros H.
  pose proof (monotonic_mono w).
  apply (watch_loop_not_early clock) in H; [lia|apply claim_body_ends
    |apply claim_body_not_retried|done|done|apply claim_body_no_timeout].
Qed.
End claims.

(** *** Worked runs in the simulated worlds *)

Definition ready_claim (rv : string) : json :=
  JObj [("metadata", JObj [("uid", JStr "u-1"); ("resourceVersion", JStr rv)]);
        ("status", JObj
          [("conditions", JList [JObj [("type", JStr "Ready"); ("status", JStr "True")]]);
           ("sandbox", JObj [("name", JStr "sbx-7")])])].

Definition pending_claim (rv : string) : json :=
  JObj [("metadata", JObj [("uid", JStr "u-1"); ("resourceVersion", JStr rv)]);
        ("status", JObj [("sandbox", JObj [("name", JStr "sbx-7")])])].

(** A cut watch, a compacted version, then the claim becomes ready. *)
Definition flaky_world : sim :=
  Sim 0 ∅ [([added (pending_claim "3")], Some ProtocolError);
           ([], Some (ApiException 410));
           ([added (pending_claim "9"); added (ready_claim "10")], None)] 0.

Definition uid_wait : claim_wait := ClaimWait true (Some "u-1") false.

Lemma watch_claim_sound_witness :
  (watch_claim 5 "c" "default" 60 uid_wait (Some "2") None flaky_world).1 = Ret (JStr "sbx-7")
  ∧ ∃ ev claim, event_claim ev claim ∧ claim_offers uid_wait claim (JStr "sbx-7").
Proof.
  split; [vm_compute; reflexivity|].
  destruct (watch_claim_sound (λ _, True) 5 "c" "default" 60 uid_wait (Some "2") None flaky_world
    (JStr "sbx-7") (watch_claim 5 "c" "default" 60 uid_wait (Some "2") None flaky_world).2)
    as (ev & claim & _ & H1 & H2);
    [done|done|vm_compute; reflexivity|by exists ev, claim].
Defined.

Lemma watch_claim_terminates_witness :
  (watch_claim (Z.to_nat (60 * SECOND + 1)) "c" "default" 60 uid_wait None None flaky_world).1
  ≠ NoFuel.
Proof. apply (watch_claim_terminates sim_now); unfold SECOND; lia. Defined.

Lemma watch_claim_not_early_witness :
  let r := watch_claim 5 "c" "default" 60 uid_wait None None (Quiet 7) in
  r.1 = Raise TimeoutError ∧ (60 * SECOND + 7 ≤ quiet_now r.2)%Z.
Proof.
  cbn zeta. split; [vm_compute; reflexivity|].
  etransitivity; [|apply (watch_claim_not_early quiet_now 5 "c" "default" 60 uid_wait None None
    (Quiet 7)); [intros ? ?; cbn; by case_match|vm_compute; reflexivity]].
  unfold SECOND. cbn [quiet_now]. lia.
Defined.

(** *** Resuming an interrupted watch *)

(** The resourceVersion of the claim an event carries, when it has one. *)
Definition event_rv (ev : json) : option json :=
  match py_index ev "type", py_index ev "object" with
  | Ret type, Ret claim =>
      if is_added_or_modified type then
        match py_get claim "metadata" with
        | Ret m => match py_get (py_or m (JObj [])) "resourceVersion" with
                   | Ret v => if truthy v then Some v else None
                   | _ => None
                   end
        | _ => None
        end
      else None
  | _, _ => None
  end.

Definition last_seen_rv (rv : json) (evs : list json) : json := default rv (last (omap event_rv evs)).

Lemma claim_event_rv p st ev st' r :
  claim_event p st ev = Ret (st', r) → cs_rv st' = default (cs_rv st) (event_rv ev).
Proof.
  unfold claim_event, claim_object_step, event_rv, mbind, outcome_bind.
  destruct ev; try done; [by intros [= <- _]|]. cbn [is_none].
  destruct (py_index (JObj kvs) "type") as [type| |]; try done.
  destruct (is_str type "DELETED"); [done|].
  destruct (py_index (JObj kvs) "object") as [o| |], (is_added_or_modified type);
    try done; try by intros [= <- _].
  destruct (py_get o "metadata") as [m| |]; try done.
  destruct (check_expected_uid p _) as [[]| |]; try done.
  destruct (py_get (py_or m _) "resourceVersion") as [srv| |]; try done.
  repeat case_scrut; intros; simplify_eq; done.
Qed.

Lemma last_seen_rv_cons rv ev evs :
  last_seen_rv rv (ev :: evs) = last_seen_rv (default rv (event_rv ev)) evs.
Proof.
  unfold last_seen_rv. destruct (event_rv ev) as [v|] eqn:E; cbn; rewrite E; [|done].
  rewrite last_cons. by destruct (last _).
Qed.

Lemma consume_claim_rv {W} p st (s : stream W) o st' w' :
  consume (claim_event p) st s = (o, (st', w')) →
  match o with Ret None => True | Raise e => local_exn e = false | _ => False end →
  cs_rv st' = last_seen_rv (cs_rv st) (stream_events s).
Proof.
  revert st. induction s as [w|e w|w|ev w rest IH]; intros st; cbn [consume stream_events].
  - by intros [= <- <- <-].
  - by intros [= <- <- <-].
  - by intros [= <- <- <-].
  - pose proof (local_claim_event p st ev) as Hl.
    destruct (claim_event p st ev) as [[st1 [r|]]|e|] eqn:E.
    + by intros [= <- <- <-].
    + intros Hc Ho. rewrite last_seen_rv_cons, <-(claim_event_rv _ _ _ _ _ E). by apply IH.
    + intros [= <- <- <-]. cbn in Hl. by rewrite Hl.
    + by intros [= <- <- <-].
Qed.

(** A claim watch that is cut without a result is reopened where it
    stopped: after a connection loss from the last resourceVersion seen in its
    events, after a 410 from ["0"], the watch cache's current state; any other
    API error ends the wait. *)
Theorem watch_claim_resumes {W} `{Clock W} `{K8sApi W} p claim_name namespace deadline fuel
    st (w : W) e st' w' :
  let loop := watch_loop (claim_event p) claim_initial (claim_request claim_name namespace)
                claim_error deadline in
  let now := monotonic w in
  let remaining := ceil_seconds (deadline - now.1) in
  let s := watch_stream (claim_request claim_name namespace st remaining) now.2 in
  (0 < remaining)%Z → cs_initial st = None → local_exn e = false →
  consume (claim_event p) (ClaimWatch (cs_rv st) None) s = (Raise e, (st', w')) →
  cs_rv st' = last_seen_rv (cs_rv st) (stream_events s) ∧
  loop (S fuel) st w =
    (if decide (e = ApiException 410) then loop fuel (ClaimWatch (JStr "0") (cs_initial st')) w'
     else if is_disconnect e then (_ ← reconnect_pause deadline; loop fuel st') w'
     else (Raise e, w')).
Proof.
  cbn zeta. intros Hrem Hini He Hc. split; [by apply (consume_claim_rv _ _ _ _ _ _ Hc)|].
  rewrite watch_loop_S. destruct (monotonic w) as [now w0]. cbn [fst snd] in *.
  rewrite (proj2 (Z.leb_gt _ _)) by lia. unfold claim_initial. rewrite Hini. cbn [chain foldr].
  rewrite Hc. unfold claim_error.
  case_decide as Hd; [by subst|]. destruct e; try done.
  destruct (Z.eqb_spec status 410); [congruence|done].
Qed.

Lemma watch_claim_resumes_witness :
  let loop := watch_loop (claim_event uid_wait) claim_initial (claim_request "c" "default")
                claim_error (60 * SECOND) in
  loop 5 (ClaimWatch (JStr "2") None) flaky_world
  = (_ ← reconnect_pause (60 * SECOND); loop 4 (ClaimWatch (JStr "3") None))
      (Sim (2 * SECOND) ∅ (tail (sim_streams flaky_world)) 0).
Proof.
  cbn zeta.
  refine (proj2 (watch_claim_resumes uid_wait "c" "default" (60 * SECOND) 4
    (ClaimWatch (JStr "2") None) flaky_world ProtocolError (ClaimWatch (JStr "3") None)
    (Sim (2 * SECOND) ∅ (tail (sim_streams flaky_world)) 0) _ _ _ _)); vm_compute; reflexivity.
Defined.

(** ** Gateways and sandboxes *)

Lemma gateway_addresses_valid l s :
  gateway_addresses l = Ret (Some s) →
  s ≠ EmptyString ∧
  (is_valid_ip (JStr s) = true ∨ is_valid_gateway_hostname (JStr s) = true).
Proof.
  induction l as [|a l IH]; cbn [gateway_addresses]; [done|].
  destruct a as [| | | | | |a]; try done. destruct (default JNull (dget "value" a)) as [| | | |v| |]; try done.
  destruct (truthy (JStr v)) eqn:Ev; [|done]. cbn [negb].
  destruct (is_valid_ip (JStr v)) eqn:E1, (is_valid_gateway_hostname (JStr v)) eqn:E2;
    cbn [negb andb]; try done; intros [= <-]; apply truthy_str in Ev; auto.
Qed.

Lemma gateway_event_valid st ev st' s :
  gateway_event st ev = Ret (st', Some s) →
  s ≠ EmptyString ∧
  (is_valid_ip (JStr s) = true ∨ is_valid_gateway_hostname (JStr s) = true).
Proof.
  unfold gateway_event, mbind, outcome_bind. intros H.
  destruct (is_none ev); [done|].
  destruct (py_index ev "type") as [type| |]; try done.
  destruct (is_added_or_modified type); [|done].
  destruct (py_index ev "object") as [o| |]; try done.
  destruct (py_get o "status") as [st0| |]; try done.
  destruct (py_get_def _ "addresses" _) as [a| |]; try done.
  destruct (py_iter a) as [l| |]; try done.
  destruct (gateway_addresses l) as [r| |] eqn:E; try done.
  injection H as _ ->. by apply gateway_addresses_valid in E.
Qed.

Lemma stateless_loop_inv {R} (on_event : () → json → outcome (() * option R)) on_error Q :
  loop_inv on_event (λ st, ([], st)) on_error Q (λ _, True).
Proof.
  split; [|done|].
  - intros st _. split; [done|]. intros ev []%not_elem_of_nil.
  - intros e st _. by destruct (on_error e st) as [[]|].
Qed.

(** A wait for a gateway returns only an address the SDK may put in a URL:
    a text that parses as an IP address or a valid host name with a
    non-integer label. *)
Theorem wait_for_gateway_ip_valid {W} `{Clock W} `{K8sApi W} fuel gateway_name namespace
    timeout (w : W) s w' :
  wait_for_gateway_ip fuel gateway_name namespace timeout w = (Ret s, w') →
  s ≠ EmptyString ∧ (is_Some (ip_address s) ∨ hostname_ok (explode s)).
Proof.
  unfold wait_for_gateway_ip, mbind at 1, M_bind at 1. rewrite deadline_after_run.
  intros Hl. eapply (watch_loop_result _ _ _ _ _ (λ _, True)) in Hl as (ev & st0 & st1 & _ & Hr);
    [|done|apply stateless_loop_inv|done].
  apply gateway_event_valid in Hr as [? [Hip|Hh]]; (split; [done|]).
  - left. by apply bool_decide_eq_true in Hip.
  - right. by apply gateway_hostname_ok.
Qed.

Lemma wait_for_gateway_ip_witness :
  let ev := added (JObj [("status", JObj [("addresses", JList
               [JObj [("value", JStr "2130706433")]; JObj [("value", JStr "gw.example.com")]])])]) in
  let w := Sim 0 ∅ [([ev], None)] 0 in
  (wait_for_gateway_ip 3 "gw" "default" 30 w).1 = Ret "gw.example.com" ∧
  (is_Some (ip_address "gw.example.com") ∨ hostname_ok (explode "gw.example.com")).
Proof.
  cbn zeta. split; [vm_compute; reflexivity|].
  refine (proj2 (wait_for_gateway_ip_valid 3 "gw" "default" 30 (Sim 0 ∅ [([added (JObj [("status",
    JObj [("addresses", JList [JObj [("value", JStr "2130706433")];
                               JObj [("value", JStr "gw.example.com")]])])])], None)] 0)
    "gw.example.com" _ _)).
  vm_compute. reflexivity.
Defined.

(** A sandbox event that ends the wait is of a Ready sandbox, and the result is
    the address selected from its pod IPs. *)
Definition sandbox_offers (dotted : bool) (ev : json) (ip : option string) : Prop :=
  ∃ o s cs conds pod_ips c,
    event_claim ev o ∧ py_get o "status" = Ret s ∧
    py_get_def (py_or s (JObj [])) "conditions" (JList []) = Ret cs ∧ py_iter cs = Ret conds ∧
    JObj c ∈ conds ∧ is_ready_status c "True" = true ∧
    py_get_def (py_or s (JObj [])) "podIPs" (JList []) = Ret pod_ips ∧
    select_pod_ip_json dotted pod_ips = Ret ip.

Lemma sandbox_conditions_ready conds :
  sandbox_conditions conds = Ret true → ∃ c, JObj c ∈ conds ∧ is_ready_status c "True" = true.
Proof.
  induction conds as [|c conds IH]; cbn [sandbox_conditions]; [done|].
  destruct c as [| | | | | |c]; try done. destruct (is_ready_status c "True") eqn:E.
  - intros _. exists c. split; [by left|done].
  - intros (c' & ? & ?)%IH. exists c'. split; [by right|done].
Qed.

Lemma sandbox_event_offers dotted st ev st' ip :
  sandbox_event dotted st ev = Ret (st', Some ip) → sandbox_offers dotted ev ip.
Proof.
  unfold sandbox_event, sandbox_offers, event_claim, mbind, outcome_bind. intros H.
  destruct (is_none ev); [done|].
  destruct (py_index ev "type") as [type| |] eqn:?; try done.
  destruct (is_added_or_modified type) eqn:?; [|by destruct (is_str type "DELETED")].
  destruct (py_index ev "object") as [o| |] eqn:?; try done.
  destruct (py_get o "status") as [s| |] eqn:?; try done.
  destruct (py_get_def _ "conditions" _) as [cs| |] eqn:?; try done.
  destruct (py_iter cs) as [conds| |] eqn:?; try done.
  destruct (sandbox_conditions conds) as [[]| |] eqn:E; try done.
  apply sandbox_conditions_ready in E as (c & ? & ?).
  destruct (py_get_def _ "podIPs" _) as [pod_ips| |] eqn:?; try done.
  destruct (select_pod_ip_json dotted pod_ips) as [ip'| |] eqn:?; try done.
  injection H as _ ->. exists o, s, cs, conds, pod_ips, c. split_and!; eauto.
Qed.

(** A wait for a sandbox returns the pod address only from an event that
    shows the sandbox Ready, and the address is the one selected from that
    event's pod IPs. [Q] is any property the delivered events have. *)
Theorem wait_for_sandbox_ready_sound {W} `{Clock W} `{K8sApi W} (Q : json → Prop) dotted fuel
    name namespace timeout (w : W) ip w' :
  (∀ req w ev, ev ∈ stream_events (watch_stream req w) → Q ev) →
  wait_for_sandbox_ready dotted fuel name namespace timeout w = (Ret ip, w') →
  ∃ ev, Q ev ∧ sandbox_offers dotted ev ip.
Proof.
  intros HQ. unfold wait_for_sandbox_ready, mbind at 1, M_bind at 1. rewrite deadline_after_run.
  intros Hl. eapply (watch_loop_result _ _ _ _ _ Q) in Hl as (ev & st0 & st1 & ? & Hr);
    [|done|apply stateless_loop_inv|done].
  apply sandbox_event_offers in Hr. by exists ev.
Qed.

Definition ready_sandbox : json :=
  JObj [("status", JObj
    [("conditions", JList [JObj [("type", JStr "Ready"); ("status", JStr "True")]]);
     ("podIPs", JList [JObj [("ip", JStr "fd00::5")]; JObj [("ip", JStr "10.1.2.3")]])])].

Lemma wait_for_sandbox_ready_witness :
  let w := Sim 0 ∅ [([], Some ConnectionError); ([added ready_sandbox], None)] 0 in
  (wait_for_sandbox_ready true 4 "s" "default" 30 w).1 = Ret (Some "10.1.2.3") ∧
  ∃ ev, sandbox_offers true ev (Some "10.1.2.3").
Proof.
  cbn zeta. split; [vm_compute; reflexivity|].
  destruct (wait_for_sandbox_ready_sound (λ _, True) true 4 "s" "default" 30
    (Sim 0 ∅ [([], Some ConnectionError); ([added ready_sandbox], None)] 0) (Some "10.1.2.3")
    (wait_for_sandbox_ready true 4 "s" "default" 30
      (Sim 0 ∅ [([], Some ConnectionError); ([added ready_sandbox], None)] 0)).2)
    as (ev & _ & ?); [done|vm_compute; reflexivity|by exists ev].
Defined.
