(* ===== verification/Router.v ===== *)
(** [sandbox_router.py]: the reverse proxy in front of the sandboxes.

    Request headers reach the router through an object with [get]
    (case-insensitive) and [items]; [Headers] is that interface, [starlette] the
    instance the web framework provides. The globals computed when the module is
    loaded are the record [config], built by [startup]. *)

From Stdlib Require Import Ascii String ZArith QArith Lia.
From stdpp Require Import base option list strings gmap pretty sets.
From S2P Require Import Prelude Float Json IpAddress PyText Regex Models Utils.

#[local] Open Scope Z_scope.

(** ** Headers *)

Record Headers := MkHeaders {
  header : string → option string;
  items : list (string * string);
}.

(** Starlette's headers: all the pairs as received, the first match wins. *)
Definition starlette (l : list (string * string)) : Headers :=
  MkHeaders (λ name, snd <$> find (λ p, (lower p.1 =? lower name)%string) l) l.

(** [{k: v for k, v in items if p(k)}] *)
Definition dict_filter (p : string → bool) (l : list (string * string))
    : list (string * string) :=
  dict_of (filter (λ q, p q.1 = true) l).

Definition ROUTER_HEADER_NAMES : list string :=
  ["x-sandbox-id"; "x-sandbox-namespace"; "x-sandbox-port"; "x-sandbox-pod-ip";
   "x-sandbox-timeout"].
Definition HOP_BY_HOP_HEADERS : list string :=
  ["connection"; "keep-alive"; "proxy-authenticate"; "proxy-authorization"; "te";
   "trailers"; "transfer-encoding"; "upgrade"].
Definition WEBSOCKET_HANDSHAKE_HEADERS : list string :=
  ["sec-websocket-key"; "sec-websocket-version"; "sec-websocket-extensions";
   "sec-websocket-protocol"].

(** The non-empty names listed in a [Connection] header. *)
Definition connection_tokens (connection : string) : list string :=
  filter (λ n, n ≠ EmptyString) ((λ t, lower (strip t)) <$> split "," connection).

Definition hop_by_hop_header_names (h : Headers) : list string :=
  HOP_BY_HOP_HEADERS ++
  match header h "connection" with
  | Some c => if (c =? EmptyString)%string then [] else connection_tokens c
  | None => []
  end.

Definition proxy_headers (websocket : bool) (h : Headers) : list (string * string) :=
  let excluded := ROUTER_HEADER_NAMES ++ hop_by_hop_header_names h ++ ["host"; "authorization"]
                    ++ (if websocket then WEBSOCKET_HANDSHAKE_HEADERS else []) in
  dict_filter (λ key, negb (str_mem (lower key) excluded)) (items h).

Definition response_headers (h : Headers) : list (string * string) :=
  dict_filter (λ key, negb (str_mem (lower key) (hop_by_hop_header_names h))) (items h).

(** ** Configuration from the environment *)

Definition environ : Type := list (string * string).

Section config.
Variable py_float : string → option pyfloat.

Definition get_positive_float_env (env : environ) (name : string) (default : Q)
    (allow_zero : bool) : Q :=
  match dget name env with
  | None => default
  | Some raw =>
      match py_float raw with
      | Some (PFin v) =>
          if Qlt_bool v 0 || (Qeq_bool v 0 && negb allow_zero) then default else v
      | Some _ => default
      | None => default
      end
  end.

Definition get_non_negative_int_env (env : environ) (name : string) (default : Z)
    (allow_zero : bool) : Z :=
  match dget name env with
  | None => default
  | Some raw =>
      match py_int raw with
      | Some v => if (v <? 0) || ((v =? 0) && negb allow_zero) then default else v
      | None => default
      end
  end.

Definition DEFAULT_PROXY_TIMEOUT : Q := 180.
Definition DEFAULT_CLUSTER_DOMAIN : string := "cluster.local".
Definition DEFAULT_MAX_KEEPALIVE_CONNECTIONS : Z := 20.

Definition get_proxy_timeout (env : environ) : Q :=
  get_positive_float_env env "PROXY_TIMEOUT_SECONDS" DEFAULT_PROXY_TIMEOUT false.

Definition get_cluster_domain (env : environ) : string :=
  match dget "CLUSTER_DOMAIN" env with
  | None => DEFAULT_CLUSTER_DOMAIN
  | Some d => if (d =? EmptyString)%string then DEFAULT_CLUSTER_DOMAIN else d
  end.

Definition get_max_keepalive_connections (env : environ) : Z :=
  match dget "MAX_KEEPALIVE_CONNECTIONS" env with
  | None => DEFAULT_MAX_KEEPALIVE_CONNECTIONS
  | Some raw =>
      match py_int raw with
      | Some v => if v <? 0 then DEFAULT_MAX_KEEPALIVE_CONNECTIONS else v
      | None => DEFAULT_MAX_KEEPALIVE_CONNECTIONS
      end
  end.

Definition parse_trusted_proxy_networks (raw : option string) : list ip_net :=
  match raw with
  | None => []
  | Some r =>
      if (r =? EmptyString)%string then []
      else omap (λ item, let cidr := strip item in
                         if (cidr =? EmptyString)%string then None else ip_network cidr)
             (split "," r)
  end.

Definition env_var_is_truthy (env : environ) (name : string) : bool :=
  match dget name env with
  | None => false
  | Some raw => str_mem (lower (strip raw)) ["1"; "true"; "t"; "yes"; "y"; "on"]
  end.

Record config := Config {
  proxy_timeout : Q;
  max_keepalive_connections : Z;
  websocket_idle_timeout : Q;
  websocket_max_lifetime : Q;
  websocket_max_connections_per_client : Z;
  websocket_max_message_bytes : Z;
  trusted_proxy_networks : list ip_net;
  ROUTER_AUTH_TOKEN : option string;
  ALLOW_UNAUTHENTICATED_ROUTER : bool;
  cluster_domain : string;
}.

(** The statements run when the module is loaded. *)
Definition startup (env : environ) : outcome config :=
  let token := strip (default EmptyString (dget "ROUTER_AUTH_TOKEN" env)) in
  let c := Config
    (get_proxy_timeout env)
    (get_max_keepalive_connections env)
    (get_positive_float_env env "WEBSOCKET_IDLE_TIMEOUT_SECONDS" 3600 true)
    (get_positive_float_env env "WEBSOCKET_MAX_LIFETIME_SECONDS" 86400 true)
    (get_non_negative_int_env env "WEBSOCKET_MAX_CONNECTIONS_PER_CLIENT" 64 true)
    (get_non_negative_int_env env "WEBSOCKET_MAX_MESSAGE_BYTES" (16 * 1024 * 1024) false)
    (parse_trusted_proxy_networks (dget "TRUSTED_PROXY_CIDRS" env))
    (if (token =? EmptyString)%string then None else Some token)
    (env_var_is_truthy env "ALLOW_UNAUTHENTICATED_ROUTER")
    (get_cluster_domain env) in
  match ROUTER_AUTH_TOKEN c with
  | Some _ => Ret c
  | None => if ALLOW_UNAUTHENTICATED_ROUTER c then Ret c else Raise RuntimeError
  end.

(** [_get_request_timeout] *)
Definition get_request_timeout (c : config) (h : Headers) : Q :=
  match header h "X-Sandbox-Timeout" with
  | None => proxy_timeout c
  | Some raw =>
      match py_float raw with
      | Some (PFin v) =>
          if Qle_bool v 0 then proxy_timeout c
          else if Qlt_bool (proxy_timeout c) v then proxy_timeout c
          else v
      | _ => proxy_timeout c
      end
  end.
End config.

(** ** Client addresses *)

Definition is_trusted_address (host : string) (trusted : list ip_net) : bool :=
  if (host =? EmptyString)%string || bool_decide (trusted = []) then false
  else match ip_address host with
       | None => false
       | Some ip => existsb (in_net ip) trusted
       end.

Definition is_trusted_proxy (peer_host : option string) (trusted : list ip_net) : bool :=
  match peer_host with
  | None => false
  | Some h => if (h =? EmptyString)%string then false else is_trusted_address h trusted
  end.

Definition forwarded_hops (forwarded_for : string) : list string :=
  filter (λ h, h ≠ EmptyString) (strip <$> split "," forwarded_for).

Definition client_ip_from_forwarded_for (forwarded_for : string) (trusted : list ip_net)
    : option string :=
  let hops := forwarded_hops forwarded_for in
  match find (λ h, negb (is_trusted_address h trusted)) (reverse hops) with
  | Some h => Some h
  | None => head hops
  end.

(** [websocket.client.host] is [None] without a client; the empty string is
    falsy. *)
Definition client_connection_key (peer_host : option string) (h : Headers)
    (trusted : list ip_net) : string :=
  let from_peer := match peer_host with
                   | Some p => if (p =? EmptyString)%string then "unknown" else p
                   | None => "unknown"
                   end in
  match header h "x-forwarded-for" with
  | Some f =>
      if negb (f =? EmptyString)%string && is_trusted_proxy peer_host trusted then
        match client_ip_from_forwarded_for f trusted with
        | Some ip => if (ip =? EmptyString)%string then from_peer else ip
        | None => from_peer
        end
      else from_peer
  | None => from_peer
  end.

(** ** Routing *)

(** [^[a-z0-9](?:[-a-z0-9]*[a-z0-9])?$] *)
Definition DNS_LABEL_REGEX : regex := bounded_word is_lower_alnum dash_or_lower_alnum.

Definition is_valid_dns_label (label : string) : bool :=
  if (label =? EmptyString)%string || bool_decide (63 < len label)%nat then false
  else re_match DNS_LABEL_REGEX label.

(** A value of the ASGI scope: bytes, text, or neither. *)
Inductive scope_value := SBytes (b : list ascii) | SText (s : string) | SNone.

Record url_parts := Url { url_path : string; url_query : string }.
Record asgi_scope := Scope { raw_path : scope_value; query_string : scope_value }.

(** [raw.decode("ascii")] with the fall-back on [UnicodeDecodeError]. *)
Definition decode_or (v : scope_value) (fallback : string) : string :=
  match v with
  | SBytes b => if forallb (in_range 0 127) b then implode b else fallback
  | SText s => s
  | SNone => fallback
  end.

Definition raw_path_with_query (url : url_parts) (scope : asgi_scope) : string :=
  let path := decode_or (raw_path scope) (url_path url) in
  let path := if startswith "/" path then path else "/" +:+ path in
  let query := decode_or (query_string scope) (url_query url) in
  if (query =? EmptyString)%string then path else path +:+ "?" +:+ query.

(** [f"[{ip}]" if ip.version == 6 else str(ip)] *)
Definition bracketed (dotted : bool) (ip : ip_addr) : string :=
  if version ip =? 6 then "[" +:+ str_ip dotted ip +:+ "]" else str_ip dotted ip.

Definition forbidden_target (ip : ip_addr) : bool :=
  is_loopback ip || is_link_local ip || is_multicast ip || is_unspecified ip.

Definition resolve_port (h : Headers) : outcome Z :=
  match (match header h "X-Sandbox-Port" with Some s => py_int s | None => Some 8888 end) with
  | Some port =>
      if (1 <=? port) && (port <=? 65535) then Ret port
      else Raise (RoutingError "Invalid port format.")
  | None => Raise (RoutingError "Invalid port format.")
  end.

Definition resolve_host (dotted : bool) (c : config) (h : Headers) (sandbox_id namespace : string)
    : outcome string :=
  let dns := sandbox_id +:+ "." +:+ namespace +:+ ".svc." +:+ cluster_domain c in
  match header h "X-Sandbox-Pod-IP" with
  | Some pod_ip =>
      if (pod_ip =? EmptyString)%string then Ret dns
      else match ip_address pod_ip with
           | None => Raise (RoutingError "Invalid target IP address format.")
           | Some ip =>
               if forbidden_target ip then Raise (RoutingError "Invalid target IP address.")
               else Ret (bracketed dotted ip)
           end
  | None => Ret dns
  end.

Definition resolve_target (dotted : bool) (c : config) (h : Headers) (url : url_parts)
    (scheme : string) (scope : asgi_scope) : outcome (string * string) :=
  match header h "X-Sandbox-ID" with
  | None => Raise (RoutingError "X-Sandbox-ID header is required.")
  | Some sandbox_id =>
      if (sandbox_id =? EmptyString)%string
      then Raise (RoutingError "X-Sandbox-ID header is required.")
      else if negb (is_valid_dns_label sandbox_id)
      then Raise (RoutingError "Invalid sandbox ID format.")
      else
        let namespace := default "default" (header h "X-Sandbox-Namespace") in
        if negb (is_valid_dns_label namespace)
        then Raise (RoutingError "Invalid namespace format.")
        else
          port ← resolve_port h;
          target_host ← resolve_host dotted c h sandbox_id namespace;
          Ret (scheme +:+ "://" +:+ target_host +:+ ":" +:+ pretty port +:+
                 raw_path_with_query url scope, sandbox_id)
  end.

(** [target_url.split("?", 1)[0]] *)
Definition url_for_log (target_url : string) : string :=
  let '(before, _, _) := partition "?" target_url in before.

(** ** Authentication *)

(** [secrets.compare_digest] on text takes ASCII only. *)
Definition compare_digest (a b : string) : outcome bool :=
  if forallb (in_range 0 127) (explode a) && forallb (in_range 0 127) (explode b)
  then Ret (a =? b)%string else Raise TypeError.

Definition check_router_auth (c : config) (h : Headers) : outcome () :=
  match ROUTER_AUTH_TOKEN c with
  | None => Ret ()
  | Some token =>
      match header h "Authorization" with
      | None => Raise (HTTPException 401 "Missing or invalid Authorization header.")
      | Some auth_header =>
          if (auth_header =? EmptyString)%string
          then Raise (HTTPException 401 "Missing or invalid Authorization header.")
          else match split_blank auth_header with
               | [scheme; credential] =>
                   if negb (lower scheme =? "bearer")%string
                   then Raise (HTTPException 401 "Missing or invalid Authorization header.")
                   else
                     ok ← compare_digest credential token;
                     if negb ok then Raise (HTTPException 401 "Invalid token.") else Ret ()
               | _ => Raise (HTTPException 401 "Missing or invalid Authorization header.")
               end
      end
  end.

(** ** Per-client connection limit *)

(** [WebSocketConnectionTracker]; its methods run under its lock. *)
Record tracker := Tracker { max_per_client : Z; counts : gmap string Z }.

Definition acquire (client_key : string) : M tracker () := λ t,
  if max_per_client t <=? 0 then (Ret (), t)
  else
    let count := default 0 (counts t !! client_key) in
    if max_per_client t <=? count then (Raise ConnectionLimitExceeded, t)
    else (Ret (), Tracker (max_per_client t) (<[client_key := count + 1]> (counts t))).

Definition release (client_key : string) : M tracker () := λ t,
  if max_per_client t <=? 0 then (Ret (), t)
  else
    let count := default 0 (counts t !! client_key) in
    if count <=? 1 then (Ret (), Tracker (max_per_client t) (delete client_key (counts t)))
    else (Ret (), Tracker (max_per_client t) (<[client_key := count - 1]> (counts t))).

(** ** HTTP requests *)

Record http_request := HttpRequest {
  rq_headers : Headers;
  rq_url : url_parts;
  rq_scope : asgi_scope;
  rq_method : string;
}.

(** What is handed to the HTTP client: method, URL, headers, timeouts. *)
Record backend_request := BackendRequest {
  br_method : string;
  br_url : string;
  br_headers : list (string * string);
  br_timeout : Q;
  br_connect_timeout : Q;
}.

Record backend_response := BackendResponse { rs_status : Z; rs_headers : Headers }.
Record proxy_response := ProxyResponse {
  pr_status : Z;
  pr_headers : list (string * string);
}.

Definition Qmin_bool (a b : Q) : Q := if Qle_bool a b then a else b.

(** The exceptions [proxy_request] turns into responses. *)
Definition proxy_error (sandbox_id : string) (e : exn) : exn :=
  match e with
  | HttpxConnectError =>
      HTTPException 502 ("Could not connect to the backend sandbox: " +:+ sandbox_id)
  | HTTPException s d => HTTPException s d
  | HttpxTimeoutException =>
      HTTPException 504 ("Timed out waiting for the backend sandbox: " +:+ sandbox_id)
  | _ => HTTPException 500 "An internal error occurred in the proxy."
  end.

Section proxy_request.
Context {S : Type}.
Variable py_float : string → option pyfloat.
(** [client.send(req, stream=True)] and [resp.aclose()] *)
Variable send : backend_request → M S backend_response.
Variable aclose : backend_response → M S ().

Definition build_request (c : config) (r : http_request) (target_url : string) : backend_request :=
  let timeout := get_request_timeout py_float c (rq_headers r) in
  BackendRequest (rq_method r) target_url (proxy_headers false (rq_headers r)) timeout
    (Qmin_bool timeout 5).

Definition forward_request (c : config) (r : http_request) (target_url : string)
    : M S proxy_response :=
  resp ← send (build_request c r target_url);
  if rs_status resp =? 101 then
    _ ← aclose resp;
    raise (HTTPException 502 ("Backend attempted a WebSocket upgrade over HTTP. " +:+
             "Connect using the WebSocket protocol instead."))
  else mret (ProxyResponse (rs_status resp) (response_headers (rs_headers resp))).

Definition proxy_request (dotted : bool) (c : config) (r : http_request) : M S proxy_response :=
  _ ← lift (check_router_auth c (rq_headers r));
  match resolve_target dotted c (rq_headers r) (rq_url r) "http" (rq_scope r) with
  | Ret (target_url, sandbox_id) =>
      except (λ e, Some (raise (proxy_error sandbox_id e))) (forward_request c r target_url)
  | Raise (RoutingError msg) => raise (HTTPException 400 msg)
  | Raise e => raise e
  | NoFuel => no_fuel
  end.
End proxy_request.

(** ** WebSocket connections *)

Record ws_request := WsRequest {
  wq_headers : Headers;
  wq_url : url_parts;
  wq_scope : asgi_scope;
  wq_peer : option string;
}.

(** What a connection needs once it holds a slot of the tracker. *)
Record admitted := AdmittedSession {
  ad_url : string;
  ad_sandbox_id : string;
  ad_key : string;
  ad_headers : list (string * string);
  ad_subprotocols : option (list string);
}.

Definition limit_message (limit : Z) : string :=
  "Too many concurrent WebSocket connections (limit: " +:+ pretty limit +:+ ").".

Definition requested_subprotocols (h : Headers) : option (list string) :=
  match header h "sec-websocket-protocol" with
  | Some s =>
      if (s =? EmptyString)%string then None
      else Some (filter (λ i, i ≠ EmptyString) (strip <$> split "," s))
  | None => None
  end.

(** [proxy_websocket] up to the slot: the refusal to send, or the connection
    to open. *)
Definition ws_admit (dotted : bool) (c : config) (r : ws_request)
    : M tracker ((Z * string) + admitted) := λ t,
  match check_router_auth c (wq_headers r) with
  | Raise (HTTPException _ detail) => (Ret (inl (1008, detail)), t)
  | Raise e => (Raise e, t)
  | NoFuel => (NoFuel, t)
  | Ret _ =>
      match resolve_target dotted c (wq_headers r) (wq_url r) "ws" (wq_scope r) with
      | Raise (RoutingError msg) => (Ret (inl (1008, msg)), t)
      | Raise e => (Raise e, t)
      | NoFuel => (NoFuel, t)
      | Ret (target_url, sandbox_id) =>
          let key := client_connection_key (wq_peer r) (wq_headers r) (trusted_proxy_networks c) in
          match acquire key t with
          | (Raise ConnectionLimitExceeded, t') =>
              (Ret (inl (1008, limit_message (max_per_client t))), t')
          | (Raise e, t') => (Raise e, t')
          | (NoFuel, t') => (NoFuel, t')
          | (Ret _, t') =>
              (Ret (inr (AdmittedSession target_url sandbox_id key
                           (proxy_headers true (wq_headers r))
                           (requested_subprotocols (wq_headers r)))), t')
          end
      end
  end.

(** The close frame sent when the backend session raises. *)
Definition ws_error_close (sandbox_id : string) (e : exn) : Z * string :=
  match e with
  | InvalidStatus => (1011, "Backend WebSocket handshake failed.")
  | _ =>
      if is_oserror e
      then (1011, "Could not connect to the backend sandbox: " +:+ sandbox_id)
      else (1011, "An internal error occurred in the proxy.")
  end.

Section proxy_websocket.
Context {S : Type}.
Variable get_tracker : S → tracker.
Variable put_tracker : tracker → S → S.
(** [websocket.close], and the body of [async with websockets.connect(...)]
    (connect, accept, relay) *)
Variable ws_close : Z → string → M S ().
Variable session : admitted → M S ().

Definition proxy_websocket (dotted : bool) (c : config) (r : ws_request) : M S () :=
  a ← zoom get_tracker put_tracker (ws_admit dotted c r);
  match a with
  | inl (code, reason) => ws_close code reason
  | inr a =>
      finally (zoom get_tracker put_tracker (release (ad_key a)))
        (except (λ e, let '(code, reason) := ws_error_close (ad_sandbox_id a) e in
                      Some (ws_close code reason))
           (session a))
  end.
End proxy_websocket.

(** *** Concurrent connections

    Handlers interleave at their [await]s; the tracker's methods hold its lock,
    so taking and giving back a slot are single steps. A handler between the two
    is live, whatever its session does. *)
Record router_state := RouterState { rt_tracker : tracker; rt_live : gmap nat string }.

Inductive ws_step (dotted : bool) (c : config) : router_state → router_state → Prop :=
  | ws_refused s r code reason t :
      ws_admit dotted c r (rt_tracker s) = (Ret (inl (code, reason)), t) →
      ws_step dotted c s (RouterState t (rt_live s))
  | ws_failed s r e t :
      ws_admit dotted c r (rt_tracker s) = (Raise e, t) →
      ws_step dotted c s (RouterState t (rt_live s))
  | ws_opened s r id a t :
      rt_live s !! id = None →
      ws_admit dotted c r (rt_tracker s) = (Ret (inr a), t) →
      ws_step dotted c s (RouterState t (<[id := ad_key a]> (rt_live s)))
  | ws_ended s id key t :
      rt_live s !! id = Some key →
      release key (rt_tracker s) = (Ret (), t) →
      ws_step dotted c s (RouterState t (delete id (rt_live s))).

Definition ws_initial (c : config) : router_state :=
  RouterState (Tracker (websocket_max_connections_per_client c) ∅) ∅.

(** ** The relay *)

Inductive ws_payload := WText (s : string) | WBytes (b : list ascii).

(** What [client_ws.receive()] gives: a payload, a message with neither text
    nor bytes, or the disconnect; what iterating the backend gives: a payload,
    the end of the stream, or a frame over the limit. *)
Inductive client_msg := CPayload (p : ws_payload) | CEmpty | CDisconnect (code : Z) (reason : string).
Inductive backend_msg := BPayload (p : ws_payload) | BClosed | BTooBig.

(** Events in the order the event loop runs them. A payload carries the result
    of sending it on, [None] or the exception raised. *)
Inductive relay_event :=
  | EvClient (now : Z) (m : client_msg) (sent : option exn)
  | EvBackend (now : Z) (m : backend_msg) (sent : option exn)
  | EvTick (now : Z).

Record relay := Relay {
  to_backend : list ws_payload;
  to_client : list ws_payload;
  client_close : option (Z * string);
  message_too_big : bool;
  started_at : Z;
  last_activity : Z;
  (** the result of a finished task *)
  c2b_done : option (outcome ());
  b2c_done : option (outcome ());
  watchdog_done : option string;
}.

Definition relay_start (now : Z) : relay := Relay [] [] None false now now None None None.

(** One pass of [client_to_backend]. *)
Definition client_step (st : relay) (now : Z) (m : client_msg) (sent : option exn) : relay :=
  let '(Relay tb tc cc big t0 la c b w) := st in
  match c with
  | Some _ => st
  | None =>
      match m with
      | CDisconnect code reason => Relay tb tc (Some (code, reason)) big t0 la (Some (Ret ())) b w
      | CEmpty => Relay tb tc cc big t0 now None b w
      | CPayload p =>
          match sent with
          | None => Relay (tb ++ [p]) tc cc big t0 now None b w
          | Some (WebSocketDisconnect code reason) =>
              Relay tb tc (Some (code, reason)) big t0 now (Some (Ret ())) b w
          | Some e => Relay tb tc cc big t0 now (Some (Raise e)) b w
          end
      end
  end.

(** One pass of [backend_to_client]. *)
Definition backend_step (st : relay) (now : Z) (m : backend_msg) (sent : option exn) : relay :=
  let '(Relay tb tc cc big t0 la c b w) := st in
  match b with
  | Some _ => st
  | None =>
      match m with
      | BClosed => Relay tb tc cc big t0 la c (Some (Ret ())) w
      | BTooBig => Relay tb tc cc true t0 la c (Some (Ret ())) w
      | BPayload p =>
          match sent with
          | None => Relay tb (tc ++ [p]) cc big t0 now c None w
          | Some ConnectionClosed => Relay tb tc cc big t0 now c (Some (Ret ())) w
          | Some e => Relay tb tc cc big t0 now c (Some (Raise e)) w
          end
      end
  end.

(** [timeout and elapsed >= timeout]; times in nanoseconds. *)
Definition expired (timeout : Q) (elapsed : Z) : bool :=
  negb (Qeq_bool timeout 0) && Qle_bool (timeout * inject_Z 1000000000) (inject_Z elapsed).

(** One wake-up of [watchdog], which exists only with a limit set. *)
Definition tick_step (idle_timeout max_lifetime : Q) (st : relay) (now : Z) : relay :=
  let '(Relay tb tc cc big t0 la c b w) := st in
  match w with
  | Some _ => st
  | None =>
      if expired idle_timeout (now - la)
      then Relay tb tc cc big t0 la c b (Some "idle timeout exceeded")
      else if expired max_lifetime (now - t0)
      then Relay tb tc cc big t0 la c b (Some "max lifetime exceeded")
      else st
  end.

Definition relay_step (idle_timeout max_lifetime : Q) (st : relay) (ev : relay_event) : relay :=
  match ev with
  | EvClient now m sent => client_step st now m sent
  | EvBackend now m sent => backend_step st now m sent
  | EvTick now => tick_step idle_timeout max_lifetime st now
  end.

(** The events handled before [asyncio.wait] returns. *)
Definition relay_run (idle_timeout max_lifetime : Q) (st : relay) (evs : list relay_event) : relay :=
  foldl (relay_step idle_timeout max_lifetime) st evs.

Inductive peer := Client | Backend.

(** [await task] on the finished tasks: a disconnect is swallowed. *)
Definition task_exn (t : option (outcome ())) : option exn :=
  match t with
  | Some (Raise (WebSocketDisconnect _ _)) | Some (Raise ConnectionClosed) => None
  | Some (Raise e) => Some e
  | _ => None
  end.

(** The close frames [_relay_websocket] sends once a task is done;
    [backend_close] is the backend's [close_code] and [close_reason]. *)
Definition relay_closes (backend_close : option Z * string) (st : relay)
    : outcome (list (peer * Z * string)) :=
  match task_exn (c2b_done st), task_exn (b2c_done st) with
  | Some e, _ | None, Some e => Raise e
  | None, None =>
      Ret (match watchdog_done st with
           | Some reason => [(Client, 1001, reason); (Backend, 1001, reason)]
           | None =>
               if message_too_big st
               then [(Client, 1009, "message too big"); (Backend, 1009, "message too big")]
               else match b2c_done st, c2b_done st, client_close st with
                    | Some _, _, _ =>
                        let code := default 0 backend_close.1 in
                        [(Client, if code =? 0 then 1000 else code, backend_close.2)]
                    | None, Some _, Some (code, reason) =>
                        [(Backend, if code =? 0 then 1000 else code, reason)]
                    | _, _, _ => []
                    end
           end)
  end.
