(* ===== verification/RouterProofs.v ===== *)
(** Theorems on [sandbox_router.py]: where requests are sent, who may send
    them, what is forwarded, and how many connections a client may hold. *)

From Stdlib Require Import Ascii String ZArith QArith Lia Lqa.
From stdpp Require Import base option list strings gmap pretty sets fin_maps relations.
From S2P Require Import Prelude Float Json IpAddress PyText Regex Models Validation Utils Router.

#[local] Open Scope Z_scope.

(** ** Targets *)

Definition dns_label_text (s : string) : Prop :=
  (len s ≤ 63)%nat ∧ word_or_newline is_lower_alnum dash_or_lower_alnum s.

Lemma is_valid_dns_label_ok s : is_valid_dns_label s = true ↔ dns_label_text s.
Proof.
  unfold is_valid_dns_label, dns_label_text.
  rewrite <-(re_match_word DNS_LABEL_REGEX)
    by (intros; apply (lang_bounded_word _ _ _ lower_alnum_dash)).
  destruct (s =? "")%string eqn:E; bool_prop; cbn [orb].
  - subst. split; [done|]. intros [_ H]. vm_compute in H. done.
  - case_bool_decide; [split; [done|lia]|]. split; [intros ->; split; [lia|done]|by intros []].
Qed.

Lemma resolve_port_ok h port : resolve_port h = Ret port → 1 ≤ port ≤ 65535.
Proof. unfold resolve_port. repeat case_scrut; try done; intros [= <-]; bool_prop; lia. Qed.

Lemma raw_path_slash url scope : startswith "/" (raw_path_with_query url scope) = true.
Proof.
  unfold raw_path_with_query. cbn zeta. set (p := decode_or (raw_path scope) (url_path url)).
  assert (∀ q, startswith "/" ((if startswith "/" p then p else "/" +:+ p) +:+ q) = true) as H.
  { intros q. destruct (startswith "/" p) eqn:E; unfold startswith in *; rewrite explode_app.
    - destruct (explode p) as [|a l]; [done|]. cbn in *. by rewrite E.
    - by rewrite explode_app. }
  case_scrut; [|apply H]. specialize (H EmptyString).
  by rewrite <-(implode_explode (_ +:+ "")), explode_app, app_nil_r, implode_explode in H.
Qed.

(** A character that ends a URL authority or splits it. *)
Definition authority_safe (c : ascii) : Prop :=
  is_Some (hex_val c) ∨ c = ":"%char ∨ c = "."%char ∨ c = "["%char ∨ c = "]"%char.

Lemma bracketed_safe dotted ip c :
  unscoped ip → c ∈ explode (bracketed dotted ip) → authority_safe c.
Proof.
  intros Hu. unfold bracketed, authority_safe. case_scrut.
  - rewrite !explode_app, !elem_of_app.
    intros [->%list_elem_of_singleton|[H| ->%list_elem_of_singleton]]; [tauto| |tauto].
    apply str_ip_chars in H; tauto.
  - intros H. apply str_ip_chars in H; tauto.
Qed.

(** What a resolved host is: the service name of the sandbox, or the canonical
    text of an address outside the refused ranges. *)
Definition host_ok (dotted : bool) (c : config) (h : Headers) (id ns host : string) : Prop :=
  (header h "X-Sandbox-Pod-IP" = None ∨ header h "X-Sandbox-Pod-IP" = Some EmptyString)
    ∧ host = id +:+ "." +:+ ns +:+ ".svc." +:+ cluster_domain c ∨
  ∃ pod_ip ip,
    header h "X-Sandbox-Pod-IP" = Some pod_ip ∧ ip_address pod_ip = Some ip ∧
    forbidden_target ip = false ∧ host = bracketed dotted ip ∧
    (unscoped ip →
       ip_address (str_ip dotted ip) = Some ip ∧ ∀ ch, ch ∈ explode host → authority_safe ch).

Lemma resolve_host_ok dotted c h id ns host :
  resolve_host dotted c h id ns = Ret host → host_ok dotted c h id ns host.
Proof.
  unfold resolve_host, host_ok. destruct (header h "X-Sandbox-Pod-IP") as [pod_ip|]; [|naive_solver].
  destruct (pod_ip =? "")%string eqn:E; bool_prop; [subst; naive_solver|].
  destruct (ip_address pod_ip) as [ip|] eqn:Eip; [|done].
  destruct (forbidden_target ip) eqn:Ef; [done|]. intros [= <-]. right. exists pod_ip, ip.
  split_and!; try done. intros Hu. split; [|by intros; eapply bracketed_safe].
  apply ip_address_str_ip. apply ip_address_bounded in Eip. by destruct ip as [|? []].
Qed.


Definition plain_config : config :=
  Config 180 20 3600 86400 2 1024 [] (Some "secret") false "cluster.local".

Definition no_url : url_parts := Url "/files" EmptyString.
Definition plain_scope : asgi_scope := Scope (SBytes (explode "/files")) (SBytes []).


(** The host of a URL as RFC 3986 delimits it: the authority ends at the first
    slash, question mark or hash; the part before the last at sign is user
    information; a colon starts the port. *)
Fixpoint take_until (p : ascii → bool) (l : list ascii) : list ascii :=
  match l with
  | [] => []
  | c :: l' => if p c then [] else c :: take_until p l'
  end.

Definition url_host (url : string) : string :=
  let rest := drop 3 (drop_while (λ c, negb (bool_decide (c = ":"%char))) (explode url)) in
  let authority := take_until (λ c, str_mem (implode [c]) ["/"; "?"; "#"]) rest in
  implode (take_until (λ c, bool_decide (c = ":"%char))
             (List.last (split_chars "@" authority) [])).

(** An IPv6 scope id is copied into the URL unchecked: a pod-IP header whose
    scope id closes the bracket passes the range checks, and the resulting URL
    has the loopback address as its host. *)
Theorem resolve_target_scope_injection :
  let h := starlette [("x-sandbox-id", "sbx-1");
                      ("x-sandbox-pod-ip", "2001:db8::1%]@127.0.0.1#")] in
  ∃ target,
    resolve_target true plain_config h no_url "http" plain_scope = Ret (target, "sbx-1") ∧
    url_host target = "127.0.0.1" ∧ option_map is_loopback (ip_address "127.0.0.1") = Some true.
Proof. eexists. split_and!; vm_compute; reflexivity. Qed.

(** ** Authentication *)

Definition ascii_text (s : string) : Prop := forallb (in_range 0 127) (explode s) = true.

Lemma compare_digest_true a b : compare_digest a b = Ret true ↔ a = b ∧ ascii_text a.
Proof.
  unfold compare_digest, ascii_text.
  destruct (forallb _ (explode a)) eqn:Ea, (forallb _ (explode b)) eqn:Eb; cbn [andb];
    (split; [intros H|intros [-> ?]]); try congruence; try done.
  - injection H as H%String.eqb_eq. done.
  - by rewrite String.eqb_refl.
Qed.

(** With a token configured, a request passes authentication exactly when
    its Authorization header is the bearer scheme, in any case, followed by
    that token and nothing else; without one every request passes. *)
Theorem check_router_auth_spec c h :
  check_router_auth c h = Ret () ↔
  ∀ token, ROUTER_AUTH_TOKEN c = Some token →
    ascii_text token ∧
    ∃ auth scheme, header h "Authorization" = Some auth ∧
      split_blank auth = [scheme; token] ∧ lower scheme = "bearer".
Proof.
  unfold check_router_auth. destruct (ROUTER_AUTH_TOKEN c) as [token|]; [|by split].
  transitivity (ascii_text token ∧ ∃ auth scheme, header h "Authorization" = Some auth ∧
      split_blank auth = [scheme; token] ∧ lower scheme = "bearer"); [|naive_solver].
  destruct (header h "Authorization") as [auth|]; [|naive_solver].
  destruct (auth =? "")%string eqn:Ea; bool_prop.
  { subst. split; [done|]. intros (_ & auth & scheme & [= <-] & H & _). by vm_compute in H. }
  destruct (split_blank auth) as [|scheme [|cred [|]]] eqn:Es;
    try (split; [done|]; intros (_ & ? & ? & [= <-] & Heq & _); by rewrite Es in Heq).
  transitivity (lower scheme = "bearer" ∧ cred = token ∧ ascii_text cred).
  2: { split; [intros (? & -> & ?); eauto 10|].
       intros (? & ? & ? & [= <-] & Heq & ?). rewrite Es in Heq. by simplify_eq. }
  rewrite <-compare_digest_true. unfold mbind, outcome_bind.
  destruct (String.eqb_spec (lower scheme) "bearer"); cbn [negb]; [|naive_solver].
  destruct (compare_digest cred token) as [[]| |]; cbn [negb]; naive_solver.
Qed.

(** A bearer credential with a non-ASCII character is not answered with a
    401: the comparison raises [TypeError], which no handler of the router
    catches. *)
Theorem check_router_auth_non_ascii c h token auth scheme cred :
  ROUTER_AUTH_TOKEN c = Some token → header h "Authorization" = Some auth →
  split_blank auth = [scheme; cred] → lower scheme = "bearer" → ¬ ascii_text cred →
  check_router_auth c h = Raise TypeError.
Proof.
  intros Ht Ha Hs Hb Hc. unfold check_router_auth. rewrite Ht, Ha, Hs, Hb.
  destruct (auth =? "")%string eqn:E; bool_prop; [by subst|]. cbn [negb String.eqb].
  unfold ascii_text in Hc. apply not_true_iff_false in Hc.
  unfold mbind, outcome_bind, compare_digest. by rewrite Hc.
Qed.

Lemma check_router_auth_non_ascii_witness :
  let h := starlette [("authorization", "Bearer " +:+ implode [chr 233])] in
  check_router_auth plain_config h = Raise TypeError.
Proof.
  cbn zeta.
  apply (check_router_auth_non_ascii plain_config _ "secret" ("Bearer " +:+ implode [chr 233])
    "Bearer" (implode [chr 233])); try (vm_compute; reflexivity).
  unfold ascii_text. vm_compute. discriminate.
Defined.

(** The router refuses to start unauthenticated: it comes up only with a
    token that is not blank, or with the explicit opt-out set. *)
Theorem startup_fails_closed py_float env c :
  startup py_float env = Ret c →
  (∃ token, ROUTER_AUTH_TOKEN c = Some token ∧ token ≠ EmptyString) ∨
  env_var_is_truthy env "ALLOW_UNAUTHENTICATED_ROUTER" = true.
Proof.
  unfold startup. cbn zeta. cbn [ROUTER_AUTH_TOKEN ALLOW_UNAUTHENTICATED_ROUTER].
  case_scrut; bool_prop.
  - destruct (env_var_is_truthy _ _); [auto|done].
  - intros [= <-]. left. eauto.
Qed.

Lemma startup_fails_closed_witness :
  startup (λ _, None) [("ROUTER_AUTH_TOKEN", "   ")] = Raise RuntimeError ∧
  ∃ c, startup (λ _, None) [("ROUTER_AUTH_TOKEN", " t ")] = Ret c ∧
    ((∃ token, ROUTER_AUTH_TOKEN c = Some token ∧ token ≠ EmptyString) ∨
     env_var_is_truthy [("ROUTER_AUTH_TOKEN", " t ")] "ALLOW_UNAUTHENTICATED_ROUTER" = true).
Proof.
  split; [vm_compute; reflexivity|]. eexists. split; [vm_compute; reflexivity|].
  eapply (startup_fails_closed (λ _, None)). vm_compute. reflexivity.
Defined.

(** ** Timeouts *)

Lemma Qlt_bool_iff a b : Qlt_bool a b = true ↔ (a < b)%Q.
Proof.
  unfold Qlt_bool. rewrite negb_true_iff, <-not_true_iff_false, Qle_bool_iff.
  split; [apply Qnot_le_lt|apply Qlt_not_le].
Qed.

Lemma get_positive_float_env_pos py_float env name dflt :
  (0 < dflt)%Q → (0 < get_positive_float_env py_float env name dflt false)%Q.
Proof.
  intros Hd. unfold get_positive_float_env. destruct (dget name env) as [raw|]; [|done].
  destruct (py_float raw) as [[q| | |]|]; try done. case_scrut; [done|]. bool_prop.
  rewrite andb_true_r in *.
  destruct (Q_dec 0 q) as [[?|?]|Heq]; [done| |].
  - exfalso. by apply not_true_iff_false in H; rewrite Qlt_bool_iff in H.
  - exfalso. apply not_true_iff_false in H0. apply H0, Qeq_bool_iff. by symmetry.
Qed.

(** The timeout applied to a proxied request is positive and never above
    the router's own; a valid timeout header within that bound is used as is. *)
Theorem get_request_timeout_bounds py_float env c h :
  startup py_float env = Ret c →
  let t := get_request_timeout py_float c h in
  (0 < t)%Q ∧ (t <= proxy_timeout c)%Q ∧
  ∀ raw v, header h "X-Sandbox-Timeout" = Some raw → py_float raw = Some (PFin v) →
    (0 < v)%Q → (v <= proxy_timeout c)%Q → t = v.
Proof.
  intros Hs. assert (0 < proxy_timeout c)%Q as Hpos.
  { assert (proxy_timeout c = get_proxy_timeout py_float env) as ->.
    { revert Hs. unfold startup. cbn zeta. repeat case_scrut; try done; by intros [= <-]. }
    by apply get_positive_float_env_pos. }
  clear Hs. cbn zeta. unfold get_request_timeout.
  destruct (header h "X-Sandbox-Timeout") as [raw|].
  2: { split_and!; [done|apply Qle_refl|done]. }
  destruct (py_float raw) as [[q| | |]|] eqn:Ef;
    try (split_and!; [done|apply Qle_refl|intros; simplify_eq; congruence]).
  destruct (Qle_bool q 0) eqn:E1.
  { apply Qle_bool_iff in E1. split_and!; [done|apply Qle_refl|]. intros; simplify_eq.
    by apply Qle_not_lt in E1. }
  destruct (Qlt_bool (proxy_timeout c) q) eqn:E2.
  { apply Qlt_bool_iff in E2. split_and!; [done|apply Qle_refl|]. intros; simplify_eq.
    by apply Qlt_not_le in E2. }
  apply not_true_iff_false in E1, E2. rewrite Qle_bool_iff in E1. rewrite Qlt_bool_iff in E2.
  split_and!; [by apply Qnot_le_lt|by apply Qnot_lt_le|]. intros; by simplify_eq.
Qed.

Lemma get_request_timeout_witness :
  let py_float s := if (s =? "30")%string then Some (PFin 30) else None in
  let env := [("ROUTER_AUTH_TOKEN", "t"); ("PROXY_TIMEOUT_SECONDS", "30")] in
  ∃ c, startup py_float env = Ret c ∧
    (0 < get_request_timeout py_float c (starlette [("x-sandbox-timeout", "bad")]))%Q.
Proof.
  cbn zeta. eexists. split; [vm_compute; reflexivity|].
  eapply (get_request_timeout_bounds
    (λ s, if (s =? "30")%string then Some (PFin 30) else None)
    [("ROUTER_AUTH_TOKEN", "t"); ("PROXY_TIMEOUT_SECONDS", "30")]).
  vm_compute. reflexivity.
Defined.

(** ** Forwarded headers *)

Lemma dict_of_spec {A} (l : list (string * A)) :
  NoDup (dict_of l).*1 ∧
  ∀ k v, (k, v) ∈ dict_of l ↔ last (filter (λ q, q.1 = k) l) = Some (k, v).
Proof.
  induction l as [|[k0 v0] l [IHd IH]] using rev_ind; [split; [constructor|set_solver]|].
  rewrite dict_of_snoc. pose proof (dset_NoDup k0 v0 _ IHd) as Hd. split; [done|].
  intros k v. rewrite <-dget_elem_of, dget_dset by done.
  rewrite filter_app, filter_cons, filter_nil. cbn [fst]. repeat case_decide; simplify_eq.
  - rewrite last_snoc. naive_solver.
  - by rewrite app_nil_r, <-IH, dget_elem_of.
Qed.

Lemma dict_filter_spec (p : string → bool) l k v :
  (k, v) ∈ dict_filter p l ↔
  p k = true ∧ last (filter (λ q, q.1 = k) l) = Some (k, v).
Proof.
  unfold dict_filter. rewrite (proj2 (dict_of_spec _)), list_filter_filter.
  destruct (p k) eqn:E.
  - rewrite (list_filter_iff _ (λ q, q.1 = k)); [naive_solver|].
    intros [k' v']. cbn. split; [by intros []|]. by intros ->.
  - split; [|naive_solver]. intros H%last_Some_elem_of.
    apply list_elem_of_filter in H as [[_ H] _]. cbn in H. congruence.
Qed.

(** The names a router does not forward. *)
Definition stripped (websocket : bool) (h : Headers) (n : string) : Prop :=
  n ∈ ROUTER_HEADER_NAMES ∨ n ∈ HOP_BY_HOP_HEADERS ∨ n = "host" ∨ n = "authorization" ∨
  (∃ c, header h "connection" = Some c ∧ n ∈ connection_tokens c) ∨
  (websocket = true ∧ n ∈ WEBSOCKET_HANDSHAKE_HEADERS).

Lemma connection_tokens_empty : connection_tokens EmptyString = [].
Proof. done. Qed.

Lemma elem_of_hop_by_hop h n :
  n ∈ hop_by_hop_header_names h ↔
  n ∈ HOP_BY_HOP_HEADERS ∨ ∃ c, header h "connection" = Some c ∧ n ∈ connection_tokens c.
Proof.
  unfold hop_by_hop_header_names. rewrite elem_of_app.
  destruct (header h "connection") as [c|].
  - destruct (c =? "")%string eqn:E; bool_prop; [subst|]; [|naive_solver].
    rewrite elem_of_nil. split; [tauto|]. intros [?|(c & [= <-] & Hc)]; [tauto|].
    by rewrite connection_tokens_empty, elem_of_nil in Hc.
  - rewrite elem_of_nil. naive_solver.
Qed.

(** The router forwards exactly the request headers whose name is not a
    routing header, hop-by-hop, named by Connection, Host, Authorization or, for
    WebSockets, part of the handshake; a repeated name keeps its last value. The
    router's own bearer token never reaches a sandbox. *)
Theorem proxy_headers_spec websocket h k v :
  (k, v) ∈ proxy_headers websocket h ↔
  ¬ stripped websocket h (lower k) ∧ last (filter (λ q, q.1 = k) (items h)) = Some (k, v).
Proof.
  unfold proxy_headers. cbn zeta. rewrite dict_filter_spec. unfold str_mem.
  rewrite negb_true_iff, bool_decide_eq_false, !elem_of_app, elem_of_hop_by_hop.
  unfold stripped. rewrite !elem_of_cons, elem_of_nil.
  assert (lower k ∈ (if websocket then WEBSOCKET_HANDSHAKE_HEADERS else []) ↔
          websocket = true ∧ lower k ∈ WEBSOCKET_HANDSHAKE_HEADERS) as ->
    by (destruct websocket; rewrite ?elem_of_nil; naive_solver).
  tauto.
Qed.

(** ** Forwarded addresses *)

Lemma find_reverse_last {A} (p : A → bool) pre x post :
  p x = true → Forall (λ y, p y = false) post →
  find p (reverse (pre ++ x :: post)) = Some x.
Proof.
  intros Hx Hpost. rewrite reverse_app, reverse_cons, <-app_assoc.
  assert (Forall (λ y, p y = false) (reverse post)) as Hr by by apply Forall_reverse.
  induction (reverse post) as [|y ys IH]; cbn; [by rewrite Hx|].
  apply Forall_cons in Hr as [-> Hr]. by apply IH.
Qed.

(** A client cannot choose its own accounting key: unless the connection
    comes from a trusted proxy the key is the peer's address whatever
    X-Forwarded-For says, and behind one it is the last hop that is not itself
    a trusted proxy, so hops a client prepends have no effect. *)
Theorem client_connection_key_unspoofable peer h trusted :
  (is_trusted_proxy peer trusted = false →
     client_connection_key peer h trusted = default "unknown" (str_or peer None)) ∧
  (∀ f pre hop post,
     is_trusted_proxy peer trusted = true → header h "x-forwarded-for" = Some f →
     forwarded_hops f = pre ++ hop :: post →
     is_trusted_address hop trusted = false →
     Forall (λ p, is_trusted_address p trusted = true) post →
     client_connection_key peer h trusted = hop).
Proof.
  unfold client_connection_key. split.
  - intros Ht. unfold str_or, truthy_str_opt.
    destruct (header h "x-forwarded-for") as [f|], peer as [p|]; rewrite ?Ht, ?andb_false_r;
      try done; by destruct (p =? "")%string.
  - intros f pre hop post Ht Hf Hhops Hhop Hpost. rewrite Hf, Ht, andb_true_r.
    assert (hop ≠ EmptyString) as Hne.
    { assert (hop ∈ forwarded_hops f) as Hin by (rewrite Hhops; set_solver).
      by apply list_elem_of_filter in Hin as [? _]. }
    destruct (f =? "")%string eqn:E; bool_prop; cbn [negb].
    { subst f. vm_compute in Hhops. by destruct pre. }
    unfold client_ip_from_forwarded_for. rewrite Hhops, find_reverse_last.
    + by rewrite (proj2 (String.eqb_neq _ _)).
    + by rewrite Hhop.
    + eapply Forall_impl; [done|]. by intros ? ->.
Qed.

(** ** The connection limit *)

(** The number of live connections of a client. *)
Definition live_count (key : string) (live : gmap nat string) : Z :=
  Z.of_nat (size (filter (λ p, p.2 = key) live)).

Lemma live_count_insert key key' live id :
  live !! id = None →
  live_count key (<[id := key']> live) = live_count key live + (if decide (key' = key) then 1 else 0).
Proof.
  intros Hid. unfold live_count. case_decide as Hk; subst.
  - rewrite map_filter_insert_True by done. rewrite map_size_insert_None; [lia|].
    apply map_lookup_filter_None. by left.
  - rewrite map_filter_insert_False by done. rewrite delete_id by done. lia.
Qed.

Lemma live_count_delete key key' live id :
  live !! id = Some key' →
  live_count key (delete id live) = live_count key live - (if decide (key' = key) then 1 else 0).
Proof.
  intros Hid. rewrite <-(insert_delete_id live id key') at 2 by done.
  rewrite live_count_insert by apply lookup_delete_eq. lia.
Qed.

Lemma live_count_pos key live id : live !! id = Some key → 1 ≤ live_count key live.
Proof.
  intros Hid. rewrite <-(insert_delete_id live id key) by done.
  rewrite live_count_insert by apply lookup_delete_eq. rewrite decide_True by done.
  unfold live_count. lia.
Qed.

(** The tracker counts the live connections, within its limit. *)
Definition tracker_inv (limit : Z) (s : router_state) : Prop :=
  max_per_client (rt_tracker s) = limit ∧
  (0 < limit → ∀ key,
     counts (rt_tracker s) !! key =
       (if decide (live_count key (rt_live s) = 0) then None
        else Some (live_count key (rt_live s))) ∧
     live_count key (rt_live s) ≤ limit).

Lemma tracker_inv_count limit s key :
  tracker_inv limit s → 0 < limit →
  default 0 (counts (rt_tracker s) !! key) = live_count key (rt_live s).
Proof. intros [_ H] Hl. destruct (H Hl key) as [-> _]. by case_decide. Qed.

Lemma acquire_inv limit s id key t :
  tracker_inv limit s → rt_live s !! id = None → acquire key (rt_tracker s) = (Ret (), t) →
  tracker_inv limit (RouterState t (<[id := key]> (rt_live s))).
Proof.
  intros Hinv Hid. pose proof (tracker_inv_count _ s key Hinv) as Hc.
  destruct Hinv as [Hm Hinv]. unfold acquire. rewrite Hm.
  destruct (limit <=? 0) eqn:E0; bool_prop.
  { intros [= <-]. split; [done|cbn; lia]. }
  specialize (Hc E0). rewrite Hc. destruct (limit <=? live_count key (rt_live s)) eqn:E1; bool_prop; [done|].
  intros [= <-]. split; [done|]. cbn [counts rt_tracker rt_live]. intros _ key'.
  rewrite live_count_insert by done. destruct (Hinv E0 key') as [Hk Hle].
  destruct (decide (key = key')) as [->|Hne].
  - rewrite lookup_insert_eq, decide_False by (unfold live_count; lia). split; [done|lia].
  - rewrite lookup_insert_ne, Z.add_0_r by done. done.
Qed.

Lemma release_inv limit s id key t :
  tracker_inv limit s → rt_live s !! id = Some key → release key (rt_tracker s) = (Ret (), t) →
  tracker_inv limit (RouterState t (delete id (rt_live s))).
Proof.
  intros Hinv Hid. pose proof (tracker_inv_count _ s key Hinv) as Hc.
  destruct Hinv as [Hm Hinv]. unfold release. rewrite Hm.
  destruct (limit <=? 0) eqn:E0; bool_prop.
  { intros [= <-]. split; [done|cbn; lia]. }
  specialize (Hc E0). rewrite Hc. pose proof (live_count_pos _ _ _ Hid).
  assert (∀ key', live_count key' (delete id (rt_live s)) ≤ limit) as Hle.
  { intros key'. rewrite (live_count_delete key' key) by done.
    destruct (Hinv E0 key') as [_ ?]. case_decide; lia. }
  destruct (live_count key (rt_live s) <=? 1) eqn:E1; bool_prop; intros [= <-];
    (split; [done|]); cbn [counts rt_tracker rt_live]; intros _ key'; (split; [|done]);
    rewrite (live_count_delete key' key) by done; destruct (Hinv E0 key') as [Hk _];
    destruct (decide (key = key')) as [->|Hne]; cbv beta iota.
  - rewrite lookup_delete_eq, decide_True by lia. done.
  - rewrite lookup_delete_ne, Z.sub_0_r by done. done.
  - rewrite lookup_insert_eq, decide_False by lia. done.
  - rewrite lookup_insert_ne, Z.sub_0_r by done. done.
Qed.

Lemma ws_admit_tracker dotted c r t o t' :
  ws_admit dotted c r t = (o, t') →
  match o with
  | Ret (inr a) => acquire (ad_key a) t = (Ret (), t')
  | _ => t' = t
  end.
Proof.
  assert (∀ key e t', acquire key t = (Raise e, t') → t' = t) as Hacq.
  { intros key e t''. unfold acquire. repeat case_scrut; try done. by intros [= _ <-]. }
  assert (∀ key t', acquire key t ≠ (NoFuel, t')) as Hnf.
  { intros key t''. unfold acquire. by repeat case_scrut. }
  unfold ws_admit.
  destruct (check_router_auth _ _) as [|[]|]; try (intros [= <- <-]; done).
  destruct (resolve_target _ _ _ _ _ _) as [[url sid]|[]|]; try (intros [= <- <-]; done).
  destruct (acquire _ t) as [[[]|e|] t1] eqn:Ea.
  - by intros [= <- <-].
  - pose proof (Hacq _ _ _ Ea) as ->. destruct e; by intros [= <- <-].
  - by apply Hnf in Ea.
Qed.

Lemma ws_step_inv limit dotted c s s' :
  tracker_inv limit s → ws_step dotted c s s' → tracker_inv limit s'.
Proof.
  intros Hinv Hstep. destruct Hstep as [s r code reason t Ha|s r e t Ha|s r id a t Hid Ha|s id key t Hid Hr].
  - apply ws_admit_tracker in Ha as ->. by destruct s.
  - apply ws_admit_tracker in Ha as ->. by destruct s.
  - apply ws_admit_tracker in Ha. by eapply acquire_inv.
  - by eapply release_inv.
Qed.

Lemma ws_initial_inv c : tracker_inv (websocket_max_connections_per_client c) (ws_initial c).
Proof.
  split; [done|]. intros Hl key. cbn. unfold live_count. rewrite map_filter_empty, map_size_empty.
  split; [done|]. cbn. lia.
Qed.

(** C2. Whatever connections open, are refused, fail and end, in any order, a
    client never holds more WebSocket connections than the configured limit,
    and the tracker's count for a client is exactly the number of its live
    connections, with no entry left once they have ended. *)
Theorem ws_connection_limit dotted c s :
  0 < websocket_max_connections_per_client c →
  rtc (ws_step dotted c) (ws_initial c) s →
  ∀ key,
    live_count key (rt_live s) ≤ websocket_max_connections_per_client c ∧
    counts (rt_tracker s) !! key =
      (if decide (live_count key (rt_live s) = 0) then None
       else Some (live_count key (rt_live s))).
Proof.
  intros Hl Hrtc.
  assert (tracker_inv (websocket_max_connections_per_client c) s) as Hinv.
  { revert Hrtc. generalize (ws_initial_inv c). generalize (ws_initial c).
    intros s0 Hs0 Hrtc. induction Hrtc as [|s0 s1 s2 Hstep _ IH]; [done|].
    apply IH. by eapply ws_step_inv. }
  intros key. destruct (proj2 Hinv Hl key). done.
Qed.

Definition ws_from (peer : string) : ws_request :=
  WsRequest (starlette [("x-sandbox-id", "sbx-1"); ("authorization", "bearer secret")])
    no_url plain_scope (Some peer).

Definition admitted_from (peer : string) : admitted :=
  AdmittedSession "ws://sbx-1.default.svc.cluster.local:8888/files" "sbx-1" peer [] None.

Lemma ws_connection_limit_witness :
  let s := RouterState (Tracker 2 {["10.0.0.9" := 2]}) {[0%nat := "10.0.0.9"; 1%nat := "10.0.0.9"]} in
  live_count "10.0.0.9" (rt_live s) ≤ 2.
Proof.
  cbn zeta.
  apply (ws_connection_limit true plain_config
    (RouterState (Tracker 2 {["10.0.0.9" := 2]}) {[0%nat := "10.0.0.9"; 1%nat := "10.0.0.9"]})
    eq_refl).
  eapply rtc_l; [eapply (ws_opened _ _ _ (ws_from "10.0.0.9") 1%nat (admitted_from "10.0.0.9")
    (Tracker 2 {["10.0.0.9" := 1]})); vm_compute; reflexivity|].
  eapply rtc_l; [eapply (ws_opened _ _ _ (ws_from "10.0.0.9") 0%nat (admitted_from "10.0.0.9")
    (Tracker 2 {["10.0.0.9" := 2]})); vm_compute; reflexivity|].
  eapply rtc_l; [eapply (ws_refused _ _ _ (ws_from "10.0.0.9") 1008 (limit_message 2)
    (Tracker 2 {["10.0.0.9" := 2]})); vm_compute; reflexivity|].
  vm_compute. apply rtc_refl.
Defined.

(** *** One connection gives back what it took *)

Lemma acquire_release key t t1 t2 :
  (∀ k n, counts t !! k = Some n → 1 ≤ n) →
  acquire key t = (Ret (), t1) → release key t1 = (Ret (), t2) → t2 = t.
Proof.
  intros Hpos. destruct t as [m cs]. unfold acquire, release. cbn [max_per_client counts] in *.
  destruct (m <=? 0) eqn:E0.
  { intros [= <-]. cbn [max_per_client]. rewrite E0. by intros [= <-]. }
  destruct (m <=? default 0 (cs !! key)) eqn:E1; [done|]. intros [= <-].
  cbn [max_per_client counts]. rewrite E0, lookup_insert_eq. cbn [from_option].
  destruct (cs !! key) as [n|] eqn:Ek; cbn [from_option]; unfold id.
  - pose proof (Hpos _ _ Ek). rewrite (proj2 (Z.leb_gt _ _)) by lia. intros [= <-].
    f_equal. rewrite insert_insert_eq. apply insert_id. rewrite Ek. f_equal. lia.
  - intros [= <-]. f_equal. rewrite delete_insert_eq. by apply delete_id.
Qed.

Section balanced.
Context {S : Type} (get_tracker : S → tracker) (put_tracker : tracker → S → S)
  (ws_close : Z → string → M S ()) (session : admitted → M S ()).
Hypothesis get_put : ∀ t s, get_tracker (put_tracker t s) = t.
(** Other connections aside, the session and the close leave the tracker alone. *)
Hypothesis close_keeps : ∀ code reason s, get_tracker (ws_close code reason s).2 = get_tracker s.
Hypothesis session_keeps : ∀ a s, get_tracker (session a s).2 = get_tracker s.

(** A WebSocket request gives its slot back on every path: refused, ended
    normally, or ended by any exception of the session or of the close that
    reports it, it leaves the tracker as it found it. *)
Theorem proxy_websocket_balanced dotted c r s o s' :
  (∀ k n, counts (get_tracker s) !! k = Some n → 1 ≤ n) →
  proxy_websocket get_tracker put_tracker ws_close session dotted c r s = (o, s') →
  o ≠ NoFuel → get_tracker s' = get_tracker s.
Proof.
  intros Hpos. unfold proxy_websocket, mbind, M_bind, zoom.
  destruct (ws_admit dotted c r (get_tracker s)) as [o1 t1] eqn:Ea.
  pose proof (ws_admit_tracker _ _ _ _ _ _ Ea) as Ht. destruct o1 as [[[code reason]|a]|e|].
  - intros H _. pose proof (close_keeps code reason (put_tracker t1 s)) as Hc.
    rewrite H in Hc. cbn in Hc. by rewrite Hc, get_put.
  - unfold finally. set (body := except _ _).
    assert (∀ s, get_tracker (body s).2 = get_tracker s) as Hbody.
    { intros s0. unfold body, except. pose proof (session_keeps a s0) as Hs.
      destruct (session a s0) as [[]s1]; cbn in Hs; [done| |done].
      destruct (ws_error_close _ e) as [code reason]. by rewrite close_keeps. }
    specialize (Hbody (put_tracker t1 s)). rewrite get_put in Hbody.
    destruct (body _) as [ob s1]. cbn in Hbody. rewrite Hbody.
    destruct (release (ad_key a) t1) as [orl t2] eqn:Er.
    assert (orl = Ret ()) as -> by (revert Er; unfold release; repeat case_scrut; by intros [= <- _]).
    pose proof (acquire_release _ _ _ _ Hpos Ht Er) as ->.
    destruct ob; intros [= <- <-] Hnf; [by rewrite get_put..|done].
  - intros [= <- <-] _. by rewrite get_put, Ht.
  - by intros [= <- <-].
Qed.
End balanced.

Lemma proxy_websocket_balanced_witness :
  let run := proxy_websocket (λ t, t) (λ t _, t) (λ _ _ t, (Raise RuntimeError, t))
               (λ _ t, (Raise OSError, t)) true plain_config (ws_from "10.0.0.9") in
  let t := Tracker 2 {["10.0.0.9" := 1]} in
  (run t).1 = Raise RuntimeError ∧ (run t).2 = t.
Proof.
  cbn zeta. split; [vm_compute; reflexivity|].
  refine (proxy_websocket_balanced (λ t, t) (λ t _, t) (λ _ _ t, (Raise RuntimeError, t))
    (λ _ t, (Raise OSError, t)) (λ _ _, eq_refl) (λ _ _ _, eq_refl) (λ _ _, eq_refl)
    true plain_config (ws_from "10.0.0.9") (Tracker 2 {["10.0.0.9" := 1]}) _ _ _
    (surjective_pairing _) _).
  - intros k n. cbn. rewrite lookup_singleton_Some. intros [_ <-]. lia.
  - vm_compute. discriminate.
Defined.

(** ** The relay *)

Definition client_events (evs : list relay_event) : list (client_msg * option exn) :=
  omap (λ ev, match ev with EvClient _ m sent => Some (m, sent) | _ => None end) evs.
Definition backend_events (evs : list relay_event) : list (backend_msg * option exn) :=
  omap (λ ev, match ev with EvBackend _ m sent => Some (m, sent) | _ => None end) evs.

(** One direction on its own: the payloads sent on up to the first end of the
    direction, how it ended, and the close it recorded. *)
Fixpoint client_direction (evs : list (client_msg * option exn))
    : list ws_payload * option (outcome ()) * option (Z * string) :=
  match evs with
  | [] => ([], None, None)
  | (CDisconnect code reason, _) :: _ => ([], Some (Ret ()), Some (code, reason))
  | (CEmpty, _) :: evs' => client_direction evs'
  | (CPayload p, None) :: evs' =>
      let '(ps, d, cl) := client_direction evs' in (p :: ps, d, cl)
  | (CPayload p, Some (WebSocketDisconnect code reason)) :: _ =>
      ([], Some (Ret ()), Some (code, reason))
  | (CPayload p, Some e) :: _ => ([], Some (Raise e), None)
  end.

Fixpoint backend_direction (evs : list (backend_msg * option exn))
    : list ws_payload * option (outcome ()) * bool :=
  match evs with
  | [] => ([], None, false)
  | (BClosed, _) :: _ => ([], Some (Ret ()), false)
  | (BTooBig, _) :: _ => ([], Some (Ret ()), true)
  | (BPayload p, None) :: evs' =>
      let '(ps, d, big) := backend_direction evs' in (p :: ps, d, big)
  | (BPayload p, Some ConnectionClosed) :: _ => ([], Some (Ret ()), false)
  | (BPayload p, Some e) :: _ => ([], Some (Raise e), false)
  end.

Lemma relay_run_client i m st evs :
  let st' := relay_run i m st evs in
  (to_backend st', c2b_done st', client_close st') =
  match c2b_done st with
  | Some d => (to_backend st, Some d, client_close st)
  | None =>
      let '(ps, d, cl) := client_direction (client_events evs) in
      (to_backend st ++ ps, d, match cl with Some _ => cl | None => client_close st end)
  end.
Proof.
  cbn zeta. revert st. induction evs as [|ev evs IH]; intros st; cbn [relay_run foldl].
  { destruct (c2b_done st) eqn:E; cbn; rewrite ?E, ?app_nil_r; done. }
  change (foldl (relay_step i m) ?s evs) with (relay_run i m s evs). rewrite IH. clear IH.
  destruct st as [tb tc cc big t0 la c b w], ev as [now msg sent|now msg sent|now];
    cbn [relay_step client_events omap list_omap].
  - destruct c as [d|]; [done|].
    destruct msg as [p| |code reason]; cbn [client_step c2b_done to_backend client_close client_direction];
      [|done|by rewrite ?app_nil_r].
    destruct sent as [[]|]; cbn [c2b_done to_backend client_close]; rewrite ?app_nil_r; try done.
    unfold client_events, omap. destruct (client_direction _) as [[ps d] cl]. by rewrite <-app_assoc.
  - destruct b as [d|]; [done|]. destruct msg as [p| |]; cbn [backend_step]; try done.
    destruct sent as [[]|]; done.
  - unfold tick_step. destruct w; [done|]. destruct (expired i _); [done|]. by destruct (expired m _).
Qed.

Lemma relay_run_backend i m st evs :
  let st' := relay_run i m st evs in
  (to_client st', b2c_done st', message_too_big st') =
  match b2c_done st with
  | Some d => (to_client st, Some d, message_too_big st)
  | None =>
      let '(ps, d, big) := backend_direction (backend_events evs) in
      (to_client st ++ ps, d, big || message_too_big st)
  end.
Proof.
  cbn zeta. revert st. induction evs as [|ev evs IH]; intros st; cbn [relay_run foldl].
  { destruct (b2c_done st) eqn:E; cbn; rewrite ?E, ?app_nil_r; done. }
  change (foldl (relay_step i m) ?s evs) with (relay_run i m s evs). rewrite IH. clear IH.
  destruct st as [tb tc cc big t0 la c b w], ev as [now msg sent|now msg sent|now];
    cbn [relay_step backend_events omap list_omap].
  - destruct c as [d|]; [done|]. destruct msg as [p| |]; cbn [client_step]; try done.
    destruct sent as [[]|]; done.
  - destruct b as [d|]; [done|].
    destruct msg as [p| |]; cbn [backend_step b2c_done to_client message_too_big backend_direction];
      [|by rewrite ?app_nil_r..].
    destruct sent as [[]|]; cbn [b2c_done to_client message_too_big]; rewrite ?app_nil_r; try done.
    unfold backend_events, omap. destruct (backend_direction _) as [[ps d] bg]. by rewrite <-app_assoc.
  - unfold tick_step. destruct w; [done|]. destruct (expired i _); [done|]. by destruct (expired m _).
Qed.

(** The relay forwards each direction in order and unchanged, up to the
    first message that ends that direction; what one side receives does not
    depend on how the event loop interleaves the two directions and the
    watchdog. *)
Theorem relay_directions_independent idle life now evs :
  let st := relay_run idle life (relay_start now) evs in
  (to_backend st, c2b_done st, client_close st) = client_direction (client_events evs) ∧
  (to_client st, b2c_done st, message_too_big st) = backend_direction (backend_events evs).
Proof.
  cbn zeta. split.
  - rewrite relay_run_client. cbn. by destruct (client_direction _) as [[ps d] []].
  - rewrite relay_run_backend. cbn. destruct (backend_direction _) as [[ps d] big].
    by rewrite orb_false_r.
Qed.

Lemma relay_started_at i m st evs : started_at (relay_run i m st evs) = started_at st.
Proof.
  revert st. induction evs as [|ev evs IH]; intros st; [done|].
  change (started_at (relay_run i m (relay_step i m st ev) evs) = started_at st). rewrite IH.
  destruct st, ev; cbn; unfold client_step, backend_step, tick_step; by repeat case_scrut.
Qed.

(** The watchdog closes a relay at a wake-up exactly when a limit is set
    and reached: no message was relayed for the idle timeout, or the connection
    has lasted the maximum lifetime; a limit of zero never closes it. *)
Theorem relay_watchdog idle life start evs now :
  let st := relay_run idle life (relay_start start) evs in
  watchdog_done (relay_run idle life (relay_start start) (evs ++ [EvTick now])) =
  match watchdog_done st with
  | Some reason => Some reason
  | None =>
      if expired idle (now - last_activity st) then Some "idle timeout exceeded"
      else if expired life (now - start) then Some "max lifetime exceeded"
      else None
  end.
Proof.
  cbn zeta. unfold relay_run at 1. rewrite foldl_app. cbn [foldl relay_step].
  change (foldl (relay_step idle life) (relay_start start) evs)
    with (relay_run idle life (relay_start start) evs).
  pose proof (relay_started_at idle life (relay_start start) evs) as Ht. cbn in Ht. revert Ht.
  destruct (relay_run idle life (relay_start start) evs). cbn. intros ->.
  by repeat case_scrut.
Qed.

(** ** HTTP requests *)

Lemma resolve_target_raises dotted c h url scheme scope e :
  resolve_target dotted c h url scheme scope = Raise e → ∃ msg, e = RoutingError msg.
Proof.
  unfold resolve_target, resolve_port, resolve_host, mbind, outcome_bind.
  repeat (case_scrut; try done); intros; simplify_eq; eauto.
Qed.

Lemma resolve_target_ends dotted c h url scheme scope :
  resolve_target dotted c h url scheme scope ≠ NoFuel.
Proof.
  unfold resolve_target, resolve_port, resolve_host, mbind, outcome_bind.
  repeat (case_scrut; try done); intros; simplify_eq; done.
Qed.

Section proxy_request_facts.
Context {S : Type} (py_float : string → option pyfloat)
  (send : backend_request → M S backend_response) (aclose : backend_response → M S ()).

(** A request reaches a sandbox only after authentication and routing both
    succeed, and then once, as the request built for the resolved target.
    Otherwise nothing is sent, and the answer is the authentication error or a
    400. A backend response is passed on with its status and end-to-end headers,
    except that a protocol switch is refused; every failure behind the router
    becomes an HTTP error. *)
Theorem proxy_request_guarded dotted c r s o s' :
  proxy_request py_float send aclose dotted c r s = (o, s') →
  (∃ e, check_router_auth c (rq_headers r) = Raise e ∧ o = Raise e ∧ s' = s) ∨
  (∃ msg, resolve_target dotted c (rq_headers r) (rq_url r) "http" (rq_scope r)
            = Raise (RoutingError msg) ∧ o = Raise (HTTPException 400 msg) ∧ s' = s) ∨
  (∃ target id so s1,
     check_router_auth c (rq_headers r) = Ret () ∧
     resolve_target dotted c (rq_headers r) (rq_url r) "http" (rq_scope r) = Ret (target, id) ∧
     send (build_request py_float c r target) s = (so, s1) ∧
     match so with
     | Ret resp =>
         if rs_status resp =? 101 then s' = (aclose resp s1).2 ∧ is_ret o = false
         else o = Ret (ProxyResponse (rs_status resp) (response_headers (rs_headers resp))) ∧ s' = s1
     | Raise e => o = Raise (proxy_error id e) ∧ s' = s1
     | NoFuel => o = NoFuel
     end ∧
     (∀ e, o = Raise e → ∃ code detail, e = HTTPException code detail)).
Proof.
  unfold proxy_request, mbind, M_bind, lift.
  destruct (check_router_auth c (rq_headers r)) as [[]|e|] eqn:Ea.
  - destruct (resolve_target _ _ _ _ _ _) as [[target id]|e|] eqn:Er.
    + intros H. right; right. destruct (send (build_request py_float c r target) s) as [so s1] eqn:Es.
      exists target, id, so, s1.
      assert (∀ e, ∃ code detail, proxy_error id e = HTTPException code detail) as Herr
        by (intros []; cbn; eauto).
      revert H. unfold except, forward_request, mbind, M_bind. rewrite Es.
      destruct so as [resp|e|]; [destruct (rs_status resp =? 101)| |].
      * destruct (aclose resp s1) as [[]s2]; intros [= <- <-]; split_and!; try done;
          intros; simplify_eq; eauto.
      * intros [= <- <-]. by split_and!.
      * intros [= <- <-]. split_and!; try done. intros; simplify_eq; eauto.
      * intros [= <- <-]. by split_and!.
    + destruct (resolve_target_raises _ _ _ _ _ _ _ Er) as [msg ->].
      intros [= <- <-]. right; left. eauto.
    + by apply resolve_target_ends in Er.
  - intros [= <- <-]. left. eauto.
  - exfalso. revert Ea. unfold check_router_auth, compare_digest, mbind, outcome_bind.
    repeat (case_scrut; try done); intros; simplify_eq; done.
Qed.
End proxy_request_facts.

Lemma proxy_request_guarded_witness :
  let send (_ : backend_request) (n : nat) := (Raise (A := backend_response) HttpxConnectError, S n) in
  let rq := HttpRequest (starlette [("x-sandbox-id", "sbx-1"); ("authorization", "Bearer secret")])
              no_url plain_scope "GET" in
  let run := proxy_request (λ _, None) send (λ _, mret ()) true plain_config rq in
  (run 0%nat).2 = 1%nat ∧
  (run 0%nat).1 = Raise (HTTPException 502 "Could not connect to the backend sandbox: sbx-1") ∧
  ∃ code detail, HTTPException 502 "Could not connect to the backend sandbox: sbx-1"
                 = HTTPException code detail.
Proof.
  cbn zeta. split_and!; [vm_compute; reflexivity..|].
  destruct (proxy_request_guarded (λ _, None)
    (λ _ n, (Raise (A := backend_response) HttpxConnectError, S n)) (λ _, mret ()) true plain_config
    (HttpRequest (starlette [("x-sandbox-id", "sbx-1"); ("authorization", "Bearer secret")])
       no_url plain_scope "GET") 0%nat
    (Raise (HTTPException 502 "Could not connect to the backend sandbox: sbx-1")) 1%nat)
    as [(e & H & _)|[(msg & H & _)|(t & i & so & s1 & _ & _ & _ & _ & H)]].
  - vm_compute. reflexivity.
  - vm_compute in H. discriminate H.
  - vm_compute in H. discriminate H.
  - exact (H _ eq_refl).
Defined.
