(* ===== verification/Http.v ===== *)
(** HTTP requests and responses as the SDK passes them between its layers, and
    the interface the connector offers to the file and command clients. *)

From Stdlib Require Import Ascii String ZArith.
From stdpp Require Import base option list strings sets.
From S2P Require Import Prelude Json IpAddress PyText.

(** A [bytes] object. *)
Abbreviation bytes := (list ascii).

(** The body of a request: raw bytes, a one-shot iterator of chunks and the
    exception that ends it early, a multipart form with one in-memory file, a JSON
    document, or the JSON document of a [LegacyExecuteRequest], whose limit is a
    float. *)
Inductive http_body :=
  | BNone
  | BBytes (b : bytes)
  | BStream (chunks : list bytes) (error : option exn)
  | BFiles (filename : string) (content : bytes)
  | BJson (j : json)
  | BExecute (command : string) (timeout_seconds : option py_number).

(** The [timeout] argument: absent, a number of seconds, a tuple such as
    (connect, read), or any other object. *)
Inductive py_timeout :=
  | TNone
  | TNumber (v : py_number)
  | TTuple (vs : list (option py_number))
  | TOther.

(** The arguments of [SandboxConnector.send_request]. *)
Record request := Request {
  hr_method : string;
  hr_endpoint : string;
  hr_body : http_body;
  hr_headers : option (list (string * string));
  hr_timeout : py_timeout;
  hr_stream : bool;
  hr_allowed_statuses : list Z;
  hr_disable_retries : bool;
}.

(** A response: the chunks [iter_content] yields and the exception that cuts it
    short, if any; [json()] as decoded by the HTTP library; the transport token
    the connector attaches to a streamed in-cluster response. *)
Record response := Response {
  resp_status : Z;
  resp_headers : list (string * string);
  resp_chunks : list bytes;
  resp_error : option exn;
  resp_json : outcome json;
  resp_token : option nat;
}.

(** [headers.get(name)] on a case-insensitive mapping. *)
Definition header_get (name : string) (h : list (string * string)) : option string :=
  snd <$> find (λ p, (lower p.1 =? lower name)%string) h.

(** What the connector promises its clients. *)
Class Connector (S : Type) := {
  is_sandboxd : S → bool;
  send_request : request → M S response;
  (** the arguments are the gRPC channel and the transport token *)
  invalidate_sandboxd_transport : option nat → option nat → M S ();
  close_response : response → M S ();
}.
