(* ===== verification/Paths.v ===== *)
(** Path handling of [files/filesystem.py]: the safe upload path and the
    percent-encoded sandboxd endpoint, with the parts of [posixpath] and
    [urllib.parse] they use. *)

From Stdlib Require Import Ascii String ZArith NArith Lia.
From stdpp Require Import base option list strings sets.
From S2P Require Import Prelude.

(** ** posixpath.normpath *)

(** [posixpath.splitroot]: the leading slashes kept (none, one, or exactly two)
    and the rest. *)
Definition splitroot (l : list ascii) : list ascii * list ascii :=
  match l with
  | "/"%char :: "/"%char :: "/"%char :: _ => (["/"%char], tail l)
  | "/"%char :: "/"%char :: rest => (["/"%char; "/"%char], rest)
  | "/"%char :: rest => (["/"%char], rest)
  | _ => ([], l)
  end.

Definition dot : list ascii := ["."%char].
Definition dotdot : list ascii := ["."%char; "."%char].

(** One pass of the loop over the components; [new_comps] is reversed. *)
Definition norm_step (rooted : bool) (new_comps : list (list ascii)) (comp : list ascii)
    : list (list ascii) :=
  if bool_decide (comp = []) || bool_decide (comp = dot) then new_comps
  else if bool_decide (comp ≠ dotdot)
          || (negb rooted && bool_decide (new_comps = []))
          || bool_decide (head new_comps = Some dotdot)
  then comp :: new_comps
  else tail new_comps.

Definition normpath (s : string) : string :=
  let l := explode s in
  if bool_decide (l = []) then "."
  else
    let '(root, path) := splitroot l in
    let comps := reverse (foldl (norm_step (bool_decide (root ≠ []))) [] (split_chars "/" path)) in
    let out := root ++ join_chars ["/"%char] comps in
    if bool_decide (out = []) then "." else implode out.

(** ** Filesystem._safe_upload_path *)

Definition is_control (c : ascii) : bool := (code c <? 32)%N || (code c =? 127)%N.

Definition safe_upload_path (path : string) : outcome string :=
  if existsb is_control (explode path) then Raise ValueError
  else if (strip path =? EmptyString)%string then Raise ValueError
  else
    let normalized := lstrip_char "/" (normpath path) in
    if (normalized =? EmptyString)%string || (normalized =? ".")%string then Raise ValueError
    else if existsb (λ part, (part =? "..")%string) (split "/" normalized)
    then Raise ValueError
    else Ret normalized.

(** ** urllib.parse.quote(s, safe='') *)

Definition is_unreserved (c : ascii) : bool :=
  is_alnum c || bool_decide (c = "_"%char) || bool_decide (c = "."%char)
  || bool_decide (c = "-"%char) || bool_decide (c = "~"%char).

(** The UTF-8 encoding of a character below 256. *)
Definition utf8_char (c : ascii) : list ascii :=
  if (code c <? 128)%N then [c]
  else [chr (192 + code c / 64); chr (128 + code c mod 64)].

Definition utf8 (l : list ascii) : list ascii := concat (utf8_char <$> l).

(** A hexadecimal digit in upper case. *)
Definition upper_hex (n : N) : ascii := if (n <? 10)%N then chr (48 + n) else chr (55 + n).

Definition quote_byte (c : ascii) : list ascii :=
  if is_unreserved c then [c]
  else ["%"%char; upper_hex (code c / 16); upper_hex (code c mod 16)].

Definition quote (l : list ascii) : list ascii := concat (quote_byte <$> utf8 l).

(** ** _sandboxd_files_endpoint *)

Definition encode_segment (segment : list ascii) : list ascii :=
  if bool_decide (segment = dot) then explode "%2E"
  else if bool_decide (segment = dotdot) then explode "%2E%2E"
  else quote segment.

Definition sandboxd_files_endpoint (path : string) : string :=
  "v1/files/" +:+
  implode (join_chars (explode "%2F") (encode_segment <$> split_chars "/" (explode path))).

(** ** Safe paths: lexical resolution below the root *)

(** Resolve a component against the directories entered so far (innermost
    first); a relative path that leaves its start has no resolution, an
    absolute one stays at the root. *)
Definition lex_step (rooted : bool) (st : option (list (list ascii))) (comp : list ascii)
    : option (list (list ascii)) :=
  match st with
  | None => None
  | Some dirs =>
      if bool_decide (comp = []) || bool_decide (comp = dot) then Some dirs
      else if bool_decide (comp = dotdot) then
        match dirs with
        | [] => if rooted then Some [] else None
        | _ :: dirs' => Some dirs'
        end
      else Some (comp :: dirs)
  end.

Definition is_absolute (path : string) : bool := startswith "/" path.

(** The components below the root that a path names. *)
Definition lexical (path : string) : option (list (list ascii)) :=
  reverse <$> foldl (lex_step (is_absolute path)) (Some []) (split_chars "/" (explode path)).

Definition name_comp (c : list ascii) : Prop := c ≠ [] ∧ c ≠ dot ∧ c ≠ dotdot ∧ "/"%char ∉ c.

Lemma lex_none rooted comps : foldl (lex_step rooted) None comps = None.
Proof. by induction comps. Qed.

(** A component list that climbed out stays out. *)
Lemma norm_dirty rooted comps dirs :
  last dirs = Some dotdot → last (foldl (norm_step rooted) dirs comps) = Some dotdot.
Proof.
  revert dirs. induction comps as [|c comps IH]; intros dirs Hl; [done|]. cbn. apply IH.
  assert (∀ x : list ascii, last (x :: dirs) = Some dotdot) as Hc
    by (intros x; rewrite last_cons, Hl; done).
  unfold norm_step. destruct (_ || _); [done|].
  destruct (bool_decide (c ≠ dotdot) || _ || _) eqn:E; [apply Hc|].
  apply orb_false_iff in E as [_ E]. bool_prop.
  destruct dirs as [|d [|d' dirs]]; cbn in *; [done|congruence|done].
Qed.

Lemma norm_lex rooted comps dirs :
  Forall name_comp dirs → Forall (λ c, "/"%char ∉ c) comps →
  match foldl (lex_step rooted) (Some dirs) comps with
  | Some dirs' => foldl (norm_step rooted) dirs comps = dirs' ∧ Forall name_comp dirs'
  | None => last (foldl (norm_step rooted) dirs comps) = Some dotdot
  end.
Proof.
  revert dirs. induction comps as [|c comps IH]; intros dirs Hd Hc; [done|].
  apply Forall_cons in Hc as [Hc Hcs]. cbn [foldl].
  assert (head dirs ≠ Some dotdot) as Hh.
  { intros Hh. destruct dirs as [|d dirs]; [done|]. injection Hh as ->.
    apply Forall_cons in Hd as [(_ & _ & ? & _) _]. done. }
  unfold norm_step at 2 4, lex_step at 2.
  destruct (decide (c = [])) as [->|Hne]; [cbn [bool_decide orb]; by apply IH|].
  destruct (decide (c = dot)) as [->|Hnd]; [cbn [bool_decide orb]; by apply IH|].
  rewrite (bool_decide_eq_false_2 (c = [])), (bool_decide_eq_false_2 (c = dot)) by done.
  cbn [orb]. destruct (decide (c = dotdot)) as [->|Hndd].
  - rewrite (bool_decide_eq_true_2 (dotdot = dotdot)), (bool_decide_eq_false_2 (dotdot ≠ dotdot)),
      (bool_decide_eq_false_2 (head dirs = _)), orb_false_r by naive_solver. cbn [orb].
    destruct dirs as [|d dirs].
    + destruct rooted; cbn [negb andb]; [by apply IH|]. rewrite bool_decide_eq_true_2 by done.
      rewrite lex_none. by apply norm_dirty.
    + rewrite (bool_decide_eq_false_2 (d :: dirs = [])), andb_false_r by done.
      apply Forall_cons in Hd as [_ Hd]. by apply IH.
  - rewrite (bool_decide_eq_false_2 (c = dotdot)), (bool_decide_eq_true_2 (c ≠ dotdot)) by done.
    cbn [orb]. apply IH; [|done]. constructor; done.
Qed.

Lemma splitroot_spec l :
  let '(root, path) := splitroot l in
  l = root ++ path ∧ Forall (λ c, c = "/"%char) root ∧
  bool_decide (root ≠ []) = is_prefix_of (explode "/") l.
Proof.
  assert (∀ c : ascii, c ≠ "/"%char → ∀ l, splitroot (c :: l) = ([], c :: l)) as Hother.
  { intros c Hc l'. unfold splitroot. by repeat (case_match; subst; try done). }
  assert (∀ c : ascii, c ≠ "/"%char → ∀ l, splitroot ("/"%char :: c :: l) = (["/"%char], c :: l)) as H2.
  { intros c Hc l'. unfold splitroot. by repeat (case_match; subst; try done). }
  assert (∀ c : ascii, c ≠ "/"%char → ∀ l,
    splitroot ("/"%char :: "/"%char :: c :: l) = (["/"%char; "/"%char], c :: l)) as H3.
  { intros c Hc l'. unfold splitroot. by repeat (case_match; subst; try done). }
  destruct l as [|a l]; [done|]. destruct (decide (a = "/"%char)) as [->|Ha].
  2: { rewrite Hother by done. split_and!; [done|constructor|].
       change (false = bool_decide ("/"%char = a) && true).
       by rewrite bool_decide_eq_false_2 by congruence. }
  destruct l as [|b l]; [split_and!; try done; by repeat constructor|].
  destruct (decide (b = "/"%char)) as [->|Hb].
  2: { rewrite H2 by done. split_and!; try done; by repeat constructor. }
  destruct l as [|c l]; [split_and!; try done; by repeat constructor|].
  destruct (decide (c = "/"%char)) as [->|Hc].
  - split_and!; try done; by repeat constructor.
  - rewrite H3 by done. split_and!; try done; by repeat constructor.
Qed.

(** Leading slashes only add empty components. *)
Lemma foldl_root {B} (f : B → list ascii → B) b root path :
  Forall (λ c, c = "/"%char) root → (∀ b, f b [] = b) →
  foldl f b (split_chars "/" (root ++ path)) = foldl f b (split_chars "/" path).
Proof.
  intros Hr Hf. induction Hr as [|c root -> Hr IH]; [done|].
  cbn [app split_chars]. rewrite decide_True by done. cbn [foldl]. by rewrite Hf.
Qed.

Lemma join_names_no_slash comps :
  Forall name_comp comps → comps ≠ [] →
  ∃ c l, join_chars ["/"%char] comps = c :: l ∧ c ≠ "/"%char.
Proof.
  intros H Hne. destruct comps as [|w comps]; [done|]. apply Forall_cons in H as [(Hw & _ & _ & Hs) _].
  destruct w as [|a w]; [done|]. apply not_elem_of_cons in Hs as [? _].
  destruct comps; cbn; eauto.
Qed.

Lemma lstrip_slashes root l :
  Forall (λ c, c = "/"%char) root → (∀ l', l ≠ "/"%char :: l') →
  lstrip_chars (λ d, bool_decide (d = "/"%char)) (root ++ l) = l.
Proof.
  intros Hr Hl. unfold lstrip_chars. induction Hr as [|c root -> Hr IH]; cbn; [|done].
  destruct l as [|a l]; [done|]. apply drop_while_id.
  apply bool_decide_eq_false. intros ->. by eapply Hl.
Qed.

(** What [normpath] then [lstrip] leaves: the resolved components, nothing at
    the root, or a path that still climbs. *)
Lemma normpath_lstrip path :
  path ≠ EmptyString →
  match lexical path with
  | Some [] => lstrip_char "/" (normpath path) = EmptyString ∨ lstrip_char "/" (normpath path) = "."
  | Some comps =>
      lstrip_char "/" (normpath path) = implode (join_chars ["/"%char] comps) ∧ Forall name_comp comps
  | None => existsb (λ part, (part =? "..")%string) (split "/" (lstrip_char "/" (normpath path))) = true
  end.
Proof.
  intros Hne. unfold normpath, lexical, is_absolute, startswith.
  assert (explode path ≠ []) as Hl by (by rewrite explode_empty).
  rewrite (bool_decide_eq_false_2 (explode path = [])) by done.
  pose proof (splitroot_spec (explode path)) as Hs.
  destruct (splitroot (explode path)) as [root rest]. destruct Hs as (Hsplit & Hroot & Hrooted).
  rewrite <-Hrooted. set (rooted := bool_decide (root ≠ [])).
  replace (split_chars "/" (explode path)) with (split_chars "/" (root ++ rest)) by (by rewrite <-Hsplit).
  rewrite (foldl_root (lex_step rooted)) by (done || by intros []).
  pose proof (norm_lex rooted (split_chars "/" rest) [] ltac:(constructor)
                (split_chars_no_sep "/" rest)) as Hn.
  set (comps := foldl (norm_step rooted) [] (split_chars "/" rest)) in *.
  destruct (foldl (lex_step rooted) (Some []) (split_chars "/" rest)) as [dirs|]; cbn [fmap option_fmap option_map].
  - destruct Hn as [Hc Hnames]. rewrite Hc. clearbody comps.
    assert (Forall name_comp (reverse dirs)) as Hrev by by apply Forall_reverse.
    destruct (reverse dirs) as [|w ws] eqn:Er.
    + cbn [join_chars]. rewrite app_nil_r.
      destruct (bool_decide (root = [])); [by right|]. left.
      unfold lstrip_char. rewrite explode_implode. rewrite <-(app_nil_r root).
      by rewrite lstrip_slashes.
    + destruct (join_names_no_slash (w :: ws) Hrev ltac:(done)) as (a & l & Hj & Ha). split; [|done].
      rewrite Hj. rewrite bool_decide_eq_false_2 by (by destruct root).
      unfold lstrip_char. rewrite explode_implode, lstrip_slashes; [done|done|]. congruence.
  - assert (∃ ds, reverse comps = dotdot :: ds) as [ds ->].
    { apply last_Some in Hn as [ds ->]. exists (reverse ds). by rewrite reverse_snoc. }
    set (j := join_chars ["/"%char] (dotdot :: ds)).
    assert (∃ l, j = "."%char :: l) as [l Hj] by (unfold j; destruct ds; cbn; eauto).
    rewrite bool_decide_eq_false_2 by (rewrite Hj; by destruct root).
    unfold lstrip_char. rewrite explode_implode, lstrip_slashes; [|done|by rewrite Hj].
    apply existsb_exists. exists "..". split; [|done].
    unfold split. rewrite explode_implode. apply list_elem_of_In, list_elem_of_fmap.
    exists dotdot. split; [done|]. unfold j.
    destruct ds as [|d ds]; [by left|].
    change (join_chars ["/"%char] (dotdot :: d :: ds))
      with (dotdot ++ "/"%char :: join_chars ["/"%char] (d :: ds)).
    rewrite (split_chars_cons_no_sep "/" dotdot
               (split_chars "/" (join_chars ["/"%char] (d :: ds)))); [by left| |done].
    unfold dotdot. rewrite !not_elem_of_cons. split_and!; [done|done|apply not_elem_of_nil].
Qed.

Lemma split_names comps :
  Forall name_comp comps → comps ≠ [] →
  split_chars "/" (join_chars ["/"%char] comps) = comps.
Proof.
  intros H Hne. apply split_join_chars; [done|]. eapply Forall_impl; [done|]. by intros c (_ & _ & _ & ?).
Qed.

Lemma names_not_dotdot comps :
  Forall name_comp comps → existsb (λ part, (part =? "..")%string) (implode <$> comps) = false.
Proof.
  intros H. induction H as [|c comps (? & ? & ? & ?) _ IH]; cbn; [done|]. rewrite IH, orb_false_r.
  apply String.eqb_neq. intros Heq. apply (f_equal explode) in Heq. by rewrite explode_implode in Heq.
Qed.

(** The specification: a path is accepted when it has no control character, is
    not blank, and resolves to at least one component without leaving its
    start; the result is those components. *)
Definition safe_path_spec (path q : string) : Prop :=
  Forall (λ c, is_control c = false) (explode path) ∧ strip path ≠ EmptyString ∧
  ∃ comps, lexical path = Some comps ∧ comps ≠ [] ∧ q = implode (join_chars ["/"%char] comps).

Lemma no_control_Forall l :
  existsb is_control l = false ↔ Forall (λ c, is_control c = false) l.
Proof.
  induction l as [|c l IH]; cbn; [done|]. by rewrite orb_false_iff, IH, Forall_cons.
Qed.

Lemma safe_upload_path_ok path q : safe_upload_path path = Ret q ↔ safe_path_spec path q.
Proof.
  unfold safe_upload_path, safe_path_spec. rewrite <-no_control_Forall.
  destruct (existsb is_control (explode path)); [split; [done|by intros [? _]]|].
  destruct (String.eqb_spec (strip path) EmptyString) as [Hs|Hs]; [split; [done|by intros (_ & ? & _)]|].
  assert (path ≠ EmptyString) as Hne by (intros ->; done).
  pose proof (normpath_lstrip path Hne) as Hn. cbn zeta.
  destruct (lexical path) as [[|w ws]|].
  - split; [|naive_solver]. by destruct Hn as [-> | ->].
  - destruct Hn as [-> Hnames]. set (comps := w :: ws) in *.
    assert (comps ≠ []) as Hcne by done.
    destruct (join_names_no_slash comps Hnames Hcne) as (c & l & Hj & _).
    assert (implode (join_chars ["/"%char] comps) ≠ EmptyString) as H1.
    { intros Heq%(f_equal explode). rewrite explode_implode, Hj in Heq. done. }
    assert (implode (join_chars ["/"%char] comps) ≠ ".") as H2.
    { intros Heq%(f_equal explode). rewrite explode_implode in Heq.
      pose proof (split_names comps Hnames Hcne) as Hsp. rewrite Heq in Hsp.
      apply Forall_cons in Hnames as [(_ & ? & _) _]. by injection Hsp as <-. }
    apply String.eqb_neq in H1 as ->. apply String.eqb_neq in H2 as ->. cbn [orb].
    unfold split. rewrite explode_implode, split_names, names_not_dotdot by done.
    split; [intros [= <-]; eauto 10|]. intros (_ & _ & comps' & [= <-] & _ & ->). done.
  - rewrite Hn. split; [by repeat case_scrut|naive_solver].
Qed.

Lemma lex_subset rooted comps dirs dirs' c :
  foldl (lex_step rooted) (Some dirs) comps = Some dirs' → c ∈ dirs' → c ∈ dirs ∨ c ∈ comps.
Proof.
  revert dirs. induction comps as [|d comps IH]; intros dirs; cbn [foldl].
  { intros [= ->]. by left. }
  unfold lex_step at 2. destruct (_ || _).
  { intros H Hc. destruct (IH _ H Hc); [by left|right; by right]. }
  destruct (bool_decide (d = dotdot)).
  - destruct dirs as [|d' dirs].
    + destruct rooted; [|by rewrite lex_none]. intros H Hc.
      destruct (IH _ H Hc) as [|]; [by left|right; by right].
    + intros H Hc. destruct (IH _ H Hc); [left; by right|right; by right].
  - intros H Hc. destruct (IH _ H Hc) as [[->|]%elem_of_cons|]; [right; by left|by left|right; by right].
Qed.

Lemma elem_of_split_char sep l w c : w ∈ split_chars sep l → c ∈ w → c ∈ l.
Proof.
  revert w. induction l as [|a l IH]; intros w; cbn [split_chars].
  { by intros ->%list_elem_of_singleton ?%not_elem_of_nil. }
  case_decide.
  - intros [->|Hw]%elem_of_cons Hc; [by apply not_elem_of_nil in Hc|right; by eapply IH].
  - destruct (split_chars sep l) as [|w' ws] eqn:E; [by apply split_chars_nonempty in E|].
    intros [->|Hw]%elem_of_cons Hc.
    + apply elem_of_cons in Hc as [->|Hc]; [by left|right]. eapply IH; [by left|done].
    + right. eapply IH; [by right|done].
Qed.

Lemma lexical_names path comps : lexical path = Some comps → Forall name_comp comps.
Proof.
  unfold lexical. intros (dirs & Hd & ->)%fmap_Some.
  pose proof (norm_lex (is_absolute path) (split_chars "/" (explode path)) [] ltac:(constructor)
                (split_chars_no_sep "/" (explode path))) as Hn.
  rewrite Hd in Hn. apply Forall_reverse. by destruct Hn.
Qed.

Lemma lexical_chars path comps c w :
  lexical path = Some comps → w ∈ comps → c ∈ w → c ∈ explode path.
Proof.
  unfold lexical. intros (dirs & Hd & ->)%fmap_Some Hw Hc.
  rewrite elem_of_reverse in Hw.
  destruct (lex_subset _ _ _ _ _ Hd Hw) as [H|H]; [by apply not_elem_of_nil in H|].
  by eapply elem_of_split_char.
Qed.

Lemma lex_push rooted comps dirs :
  Forall name_comp comps → foldl (lex_step rooted) (Some dirs) comps = Some (reverse comps ++ dirs).
Proof.
  intros H. revert dirs. induction H as [|c comps (? & ? & ? & ?) _ IH]; intros dirs; [done|].
  cbn [foldl]. unfold lex_step at 2. rewrite !bool_decide_eq_false_2 by done. cbn [orb].
  by rewrite IH, reverse_cons, <-app_assoc.
Qed.

Lemma lexical_join comps :
  Forall name_comp comps → comps ≠ [] →
  lexical (implode (join_chars ["/"%char] comps)) = Some comps.
Proof.
  intros H Hne. unfold lexical. rewrite explode_implode, split_names, lex_push by done.
  by rewrite app_nil_r; cbn; rewrite reverse_involutive.
Qed.


(** The path sent to the sandbox stays below the runtime's base directory:
    it is relative, none of its components is empty, a dot or a double dot, it
    holds no control character, and sanitising it again changes nothing. *)
Theorem safe_upload_path_confined (path q : string) :
  safe_upload_path path = Ret q →
  Forall name_comp (split_chars "/" (explode q)) ∧
  Forall (λ c, is_control c = false) (explode q) ∧
  (strip q ≠ EmptyString → safe_upload_path q = Ret q).
Proof.
  intros (Hctl & _ & comps & Hlex & Hne & ->)%safe_upload_path_ok.
  pose proof (lexical_names _ _ Hlex) as Hnames. rewrite explode_implode.
  assert (Forall (λ c, is_control c = false) (join_chars ["/"%char] comps)) as Hc.
  { apply Forall_forall. intros c [->%list_elem_of_singleton|(w & Hw & Hcw)]%elem_of_join_chars; [done|].
    rewrite Forall_forall in Hctl. apply Hctl. by eapply lexical_chars. }
  split_and!; [by rewrite split_names|done|].
  intros Hs. apply safe_upload_path_ok. split_and!; [by rewrite explode_implode|done|].
  exists comps. by rewrite lexical_join.
Qed.

Lemma safe_upload_path_confined_witness :
  safe_upload_path "/work/../data/./in.csv" = Ret "data/in.csv"
  ∧ safe_upload_path "a/../../etc/passwd" = Raise ValueError
  ∧ Forall name_comp (split_chars "/" (explode "data/in.csv")).
Proof.
  split_and!; [vm_compute; reflexivity..|].
  refine (proj1 (safe_upload_path_confined "/work/../data/./in.csv" "data/in.csv" _)).
  vm_compute. reflexivity.
Defined.

(** ** Endpoints: percent-encoding is reversible *)

Definition unhex (c : ascii) : N :=
  if is_digit c then (code c - 48)%N else (code c - 55)%N.

(** Percent-decoding, as a server applies it to a path segment. *)
Fixpoint unquote (l : list ascii) : list ascii :=
  match l with
  | "%"%char :: a :: b :: l' => chr (unhex a * 16 + unhex b) :: unquote l'
  | c :: l' => c :: unquote l'
  | [] => []
  end.

Lemma unquote_quote_byte c l : unquote (quote_byte c ++ l) = c :: unquote l.
Proof. destruct c as [[] [] [] [] [] [] [] []]; reflexivity. Qed.

Lemma quote_byte_safe c d : d ∈ quote_byte c → is_unreserved d = true ∨ d = "%"%char.
Proof.
  assert (forallb (λ d, is_unreserved d || bool_decide (d = "%"%char)) (quote_byte c) = true) as H
    by (destruct c as [[] [] [] [] [] [] [] []]; reflexivity).
  rewrite forallb_forall in H. intros Hd%list_elem_of_In%H.
  apply orb_true_iff in Hd as [|?%bool_decide_eq_true]; auto.
Qed.

Lemma unquote_bytes bs l : unquote (concat (quote_byte <$> bs) ++ l) = bs ++ unquote l.
Proof.
  induction bs as [|b bs IH]; [done|]. cbn [fmap list_fmap concat]. rewrite <-app_assoc.
  rewrite unquote_quote_byte. cbn. by rewrite IH.
Qed.

Lemma unquote_segment w l : unquote (encode_segment w ++ l) = utf8 w ++ unquote l.
Proof.
  unfold encode_segment. case_bool_decide; [by subst|]. case_bool_decide; [by subst|].
  apply unquote_bytes.
Qed.

Lemma utf8_app l1 l2 : utf8 (l1 ++ l2) = utf8 l1 ++ utf8 l2.
Proof. unfold utf8. by rewrite fmap_app, concat_app. Qed.

Lemma unquote_segments ws :
  unquote (join_chars (explode "%2F") (encode_segment <$> ws)) = utf8 (join_chars ["/"%char] ws).
Proof.
  induction ws as [|w ws IH]; [done|]. destruct ws as [|w' ws].
  - cbn [fmap list_fmap join_chars]. rewrite <-(app_nil_r (encode_segment w)), unquote_segment.
    cbn. by rewrite app_nil_r.
  - change (join_chars (explode "%2F") (encode_segment <$> w :: w' :: ws))
      with (encode_segment w ++ explode "%2F"
            ++ join_chars (explode "%2F") (encode_segment <$> w' :: ws)).
    change (join_chars ["/"%char] (w :: w' :: ws))
      with (w ++ ["/"%char] ++ join_chars ["/"%char] (w' :: ws)).
    rewrite unquote_segment, !utf8_app. f_equal.
    change (unquote (explode "%2F" ++ ?r)) with ("/"%char :: unquote r). by rewrite IH.
Qed.

Lemma utf8_char_inj c1 c2 r1 r2 :
  utf8_char c1 ++ r1 = utf8_char c2 ++ r2 → c1 = c2 ∧ r1 = r2.
Proof.
  unfold utf8_char.
  assert (∀ n, (n < 256)%N → code (chr n) = n) as Hcc by (apply N_ascii_embedding).
  pose proof (code_bound c1). pose proof (code_bound c2).
  pose proof (N.div_mod' (code c1) 64) as E1. pose proof (N.div_mod' (code c2) 64) as E2.
  pose proof (N.mod_lt (code c1) 64 ltac:(done)). pose proof (N.mod_lt (code c2) 64 ltac:(done)).
  assert (code c1 / 64 < 4)%N by (apply N.Div0.div_lt_upper_bound; lia).
  assert (code c2 / 64 < 4)%N by (apply N.Div0.div_lt_upper_bound; lia).
  destruct (code c1 <? 128)%N eqn:Hb1, (code c2 <? 128)%N eqn:Hb2; bool_prop; cbn [app].
  - by intros [= -> ->].
  - intros [= Hc _]. apply (f_equal code) in Hc. rewrite Hcc in Hc by lia. lia.
  - intros [= Hc _]. apply (f_equal code) in Hc. rewrite Hcc in Hc by lia. lia.
  - intros [= Ha Hb ->]. split; [|done]. apply code_inj.
    apply (f_equal code) in Ha, Hb. rewrite !Hcc in Ha by lia. rewrite !Hcc in Hb by lia. lia.
Qed.

Lemma utf8_inj l1 l2 : utf8 l1 = utf8 l2 → l1 = l2.
Proof.
  revert l2. assert (∀ c, utf8_char c ≠ []) as Hne by (intros c; unfold utf8_char; by case_scrut).
  induction l1 as [|c1 l1 IH]; intros [|c2 l2]; [done| | |]; unfold utf8; cbn [fmap list_fmap concat];
    intros H.
  - pose proof (Hne c2). by destruct (utf8_char c2).
  - pose proof (Hne c1). by destruct (utf8_char c1).
  - apply utf8_char_inj in H as [-> H]. f_equal. by apply IH.
Qed.

Lemma encode_segment_safe w d :
  d ∈ encode_segment w → is_unreserved d = true ∨ d = "%"%char.
Proof.
  unfold encode_segment. case_bool_decide; [|case_bool_decide].
  - cbn. rewrite !elem_of_cons, elem_of_nil. intros [->|[->|[->|[]]]]; auto.
  - cbn. rewrite !elem_of_cons, elem_of_nil. intros [->|[->|[->|[->|[->|[->|[]]]]]]]; auto.
  - unfold quote. intros (w' & Hw & Hd)%list_elem_of_In%in_concat.
    apply list_elem_of_In, list_elem_of_fmap in Hw as (c & -> & _).
    eapply quote_byte_safe. by apply list_elem_of_In.
Qed.

Definition endpoint_tail (path : string) : list ascii :=
  join_chars (explode "%2F") (encode_segment <$> split_chars "/" (explode path)).

Lemma unquote_endpoint path : unquote (endpoint_tail path) = utf8 (explode path).
Proof. unfold endpoint_tail. by rewrite unquote_segments, join_split_chars. Qed.

(** C32. A file path reaches sandboxd as one path segment that decodes to exactly
    that path: the segment holds only unreserved and percent characters, so no
    slash, query or fragment can come from the path; it is never a dot segment
    a URL normaliser would collapse; and different paths never share an
    endpoint. *)
Theorem sandboxd_files_endpoint_faithful (path : string) :
  sandboxd_files_endpoint path = "v1/files/" +:+ implode (endpoint_tail path) ∧
  (∀ c, c ∈ endpoint_tail path → is_unreserved c = true ∨ c = "%"%char) ∧
  endpoint_tail path ≠ dot ∧ endpoint_tail path ≠ dotdot ∧
  unquote (endpoint_tail path) = utf8 (explode path) ∧
  (∀ path', sandboxd_files_endpoint path' = sandboxd_files_endpoint path → path' = path).
Proof.
  pose proof (unquote_endpoint path) as Hu.
  assert (∀ d, d = dot ∨ d = dotdot → endpoint_tail path ≠ d) as Hdot.
  { intros d Hd Heq. rewrite Heq in Hu. assert (explode path = d) as Hp.
    { apply utf8_inj. rewrite <-Hu. by destruct Hd as [-> | ->]. }
    unfold endpoint_tail in Heq. rewrite Hp in Heq. by destruct Hd as [-> | ->]. }
  split_and!; [done| |auto..|done|].
  - intros c [Hc|(w & (v & -> & _)%list_elem_of_fmap & Hc)]%elem_of_join_chars.
    + cbn in Hc. rewrite !elem_of_cons, elem_of_nil in Hc.
      destruct Hc as [->|[->|[->|[]]]]; auto.
    + by eapply encode_segment_safe.
  - intros path' Heq. apply (f_equal explode) in Heq. unfold sandboxd_files_endpoint in Heq.
    rewrite !explode_app, !explode_implode in Heq. apply app_inv_head in Heq.
    apply explode_inj, utf8_inj. rewrite <-!unquote_endpoint. unfold endpoint_tail. by rewrite Heq.
Qed.
