(* ===== verification/Filesystem.v ===== *)
(** [files/filesystem.py]: uploads, bounded downloads, listings, existence and
    deletion, against the connector interface. *)

From Stdlib Require Import Ascii String ZArith Lia.
From stdpp Require Import base option list strings sets.
From S2P Require Import Prelude Json IpAddress PyText Models Http Paths.

#[local] Open Scope Z_scope.

(** ** Download limits *)

Definition download_limit (config : SandboxFileConfig) (max_bytes : json) : outcome (option Z) :=
  let tighten (m : option Z) : option Z :=
    match max_download_size config, m with
    | None, _ => m
    | Some d, None => Some d
    | Some d, Some n => Some (Z.min d n)
    end in
  match max_bytes with
  | JNull => Ret (tighten None)
  | JInt n => if n <? 0 then Raise ValueError else Ret (tighten (Some n))
  | _ => Raise ValueError
  end.

Definition check_download_headers (headers : list (string * string)) (max_bytes : option Z)
    : outcome () :=
  match max_bytes with
  | None => Ret ()
  | Some limit =>
      let encoding := default "identity" (header_get "Content-Encoding" headers) in
      if negb (lower (strip encoding) =? "identity")%string then Ret ()
      else match header_get "Content-Length" headers with
           | None => Ret ()
           | Some raw =>
               match py_int raw with
               | None => Ret ()
               | Some declared_size =>
                   if limit <? declared_size then Raise SandboxResponseTooLargeError else Ret ()
               end
           end
  end.

(** ** Upload bodies *)

(** What [read] on a file object returns. *)
Inductive read_result := ReadBytes (b : bytes) | ReadText | ReadOther.

Definition read_binary_chunk (r : read_result) : outcome bytes :=
  match r with ReadBytes b => Ret b | ReadText | ReadOther => Raise TypeError end.

(** [_iter_binary_chunks]: the chunks yielded up to the first empty one, and the
    exception that ends the iteration. A file at its end keeps returning an
    empty chunk. *)
Fixpoint iter_binary_chunks (reads : list read_result) : list bytes * option exn :=
  match reads with
  | [] => ([], None)
  | r :: reads' =>
      match read_binary_chunk r with
      | Ret [] => ([], None)
      | Ret b => let '(bs, e) := iter_binary_chunks reads' in (b :: bs, e)
      | Raise e => ([], Some e)
      | NoFuel => ([], None)
      end
  end.

Definition CRLF : string := implode [chr 13; chr 10].

(** [_multipart_framing]; the boundary is random and the field headers are
    rendered by the HTTP library. *)
Definition multipart_framing (boundary : string) (render_headers : string → string)
    (path : string) : bytes * bytes * string :=
  (explode ("--" +:+ boundary +:+ CRLF +:+ render_headers path),
   explode (CRLF +:+ "--" +:+ boundary +:+ "--" +:+ CRLF),
   "multipart/form-data; boundary=" +:+ boundary).

Definition iter_multipart_body (prefix : bytes) (reads : list read_result) (suffix : bytes)
    : list bytes * option exn :=
  match iter_binary_chunks reads with
  | (bs, None) => (prefix :: bs ++ [suffix], None)
  | (bs, Some e) => (prefix :: bs, Some e)
  end.

(** The [content] argument of [write]: text, a bytes-like object, a binary file
    object, or something else. *)
Inductive upload := UText (s : string) | UBytes (b : bytes) | UFile (reads : list read_result)
  | UInvalid.

(** The bytes to send, or the reads of the file object. *)
Definition upload_content (u : upload) : outcome (bytes + list read_result) :=
  match u with
  | UText s => Ret (inl (utf8 (explode s)))
  | UBytes b => Ret (inl b)
  | UFile reads => Ret (inr reads)
  | UInvalid => Raise TypeError
  end.

Definition octet_stream : list (string * string) := [("Content-Type", "application/octet-stream")].

(** [if not allow_unsafe_paths: path = self._safe_upload_path(path)] *)
Definition checked_path (allow_unsafe_paths : bool) (path : string) : outcome string :=
  if allow_unsafe_paths then Ret path else safe_upload_path path.

(** ** Downloads *)

Section download.
Context {T : Type}.
Variable send : request → M T response.
Variable close : response → M T ().
Variable invalidate : option nat → option nat → M T ().
(** [destination.write]; [None] when the method returns [None]. *)
Variable dest_write : bytes → M T (option Z).

(** [_write_all] from [written] on. *)
Fixpoint write_all_loop (fuel : nat) (content : bytes) (written : Z) : M T Z :=
  if written <? Z.of_nat (length content) then
    match fuel with
    | O => no_fuel
    | S fuel' =>
        count ← dest_write (drop (Z.to_nat written) content);
        match count with
        | None => raise OSError
        | Some n =>
            if n <=? 0 then raise OSError
            else if Z.of_nat (length content) - written <? n then raise OSError
            else write_all_loop fuel' content (written + n)
        end
    end
  else mret written.

Definition write_all (content : bytes) : M T Z := write_all_loop (length content) content 0.

(** The loop over [response.iter_content]. *)
Fixpoint download_chunks (max_bytes : option Z) (total : Z) (chunks : list bytes)
    (error : option exn) : M T Z :=
  match chunks with
  | [] => match error with Some e => raise e | None => mret total end
  | [] :: chunks' => download_chunks max_bytes total chunks' error
  | chunk :: chunks' =>
      match max_bytes with
      | Some limit =>
          let remaining := limit - total in
          if remaining <? Z.of_nat (length chunk) then
            _ ← (if 0 <? remaining then write_all (take (Z.to_nat remaining) chunk) else mret 0);
            raise SandboxResponseTooLargeError
          else
            n ← write_all chunk; download_chunks max_bytes (total + n) chunks' error
      | None => n ← write_all chunk; download_chunks max_bytes (total + n) chunks' error
      end
  end.

Definition is_request_exception (e : exn) : bool :=
  match e with RequestException _ => true | _ => false end.

(** [except RequestException]: drop the transport the response came over. *)
Definition on_stream_error (resp : response) (e : exn) : option (M T Z) :=
  if is_request_exception e then
    Some (match resp_token resp with
          | Some token => _ ← invalidate None (Some token); raise e
          | None => raise e
          end)
  else None.

Definition download_response (max_bytes : option Z) (resp : response) : M T Z :=
  finally (close resp)
    (except (on_stream_error resp)
       (if (200 <=? resp_status resp) && (resp_status resp <? 300) then
          _ ← lift (check_download_headers (resp_headers resp) max_bytes);
          download_chunks max_bytes 0 (resp_chunks resp) (resp_error resp)
        else raise (SandboxRequestError (Some (resp_status resp))))).

(** [download/...] or [v1/files/...] *)
Definition download_endpoint (sandboxd : bool) (path : string) : string :=
  if sandboxd then sandboxd_files_endpoint path
  else "download/" +:+ implode (quote (explode path)).

(** [_read_to]; the destination is known to have a [write] method. *)
Definition read_to_dest (sandboxd : bool) (config : SandboxFileConfig) (path : string)
    (timeout : py_timeout) (allow_unsafe_paths : bool) (max_bytes : json) : M T Z :=
  limit ← lift (download_limit config max_bytes);
  path ← lift (checked_path allow_unsafe_paths path);
  resp ← send (Request "GET" (download_endpoint sandboxd path) BNone None timeout true [] false);
  download_response limit resp.
End download.

(** ** The client *)

Record file_entry := FileEntry {
  fe_name : string;
  fe_size : Z;
  fe_type : string;
  fe_modified : Z;
  fe_mode : option string;
}.

(** [entry[k]] *)
Definition entry_index (v : json) (k : string) : outcome json :=
  match v with
  | JObj kvs => match dget k kvs with Some x => Ret x | None => Raise KeyError end
  | _ => Raise TypeError
  end.

Section client.
Context {S : Type} `{Connector S}.
(** The pydantic constructor of [FileEntry] and the date parsers. *)
Variable new_file_entry : json → json → json → Z → json → outcome file_entry.
Variable fromisoformat : string → outcome Z.
Variable fromtimestamp : json → outcome Z.
Variable boundary : string.
Variable render_headers : string → string.

Definition from_legacy (entry : json) : outcome file_entry :=
  name ← entry_index entry "name";
  size ← entry_index entry "size";
  type ← entry_index entry "type";
  t ← py_get_def entry "mod_time" (JInt 0);
  modified ← fromtimestamp t;
  new_file_entry name size type modified JNull.

(** [s.replace("Z", "+00:00")] *)
Definition replace_Z (s : string) : string :=
  implode (concat ((λ c, if bool_decide (c = "Z"%char) then explode "+00:00" else [c]) <$> explode s)).

Definition from_sandboxd (entry : json) : outcome file_entry :=
  name ← entry_index entry "name";
  size ← entry_index entry "size";
  type ← entry_index entry "type";
  m ← entry_index entry "modified_at";
  modified ← match m with JStr s => fromisoformat (replace_Z s) | _ => Raise AttributeError end;
  mode ← py_get entry "mode";
  new_file_entry name size type modified mode.

Definition file_write (path : string) (content : upload) (timeout : py_timeout)
    (allow_unsafe_paths : bool) : M S () :=
  c ← lift (upload_content content);
  path ← lift (checked_path allow_unsafe_paths path);
  sandboxd ← gets is_sandboxd;
  _ ← send_request
    (if sandboxd : bool then
       match c with
       | inl b =>
           Request "PUT" (sandboxd_files_endpoint path) (BBytes b) (Some octet_stream) timeout
             false [] false
       | inr reads =>
           let '(bs, e) := iter_binary_chunks reads in
           Request "PUT" (sandboxd_files_endpoint path) (BStream bs e) (Some octet_stream) timeout
             false [] true
       end
     else
       match c with
       | inr reads =>
           let '(prefix, suffix, content_type) := multipart_framing boundary render_headers path in
           let '(bs, e) := iter_multipart_body prefix reads suffix in
           Request "POST" "upload" (BStream bs e) (Some [("Content-Type", content_type)]) timeout
             false [] true
       | inl b => Request "POST" "upload" (BFiles path b) None timeout false [] false
       end);
  mret ().

(** [read_to] into a destination in the caller's state. *)
Definition file_read_to (config : SandboxFileConfig) (dest_write : bytes → M S (option Z))
    (path : string) (timeout : py_timeout) (allow_unsafe_paths : bool) (max_bytes : json) : M S Z :=
  sandboxd ← gets is_sandboxd;
  read_to_dest send_request close_response invalidate_sandboxd_transport dest_write sandboxd config
    path timeout allow_unsafe_paths max_bytes.

(** Run connector code beside a local [BytesIO]. *)
Definition on_fst {D A} (m : M S A) : M (S * D) A := zoom fst (λ s p, (s, p.2)) m.

(** [BytesIO.write] *)
Definition bytesio_write (b : bytes) : M (S * bytes) (option Z) :=
  _ ← modify (λ p, (p.1, p.2 ++ b)); mret (Some (Z.of_nat (length b))).

Definition file_read (config : SandboxFileConfig) (path : string) (timeout : py_timeout)
    (allow_unsafe_paths : bool) : M S bytes :=
  match max_download_size config with
  | Some _ => λ s,
      let '(r, (s', buffer)) :=
        read_to_dest (λ q, on_fst (send_request q)) (λ r, on_fst (close_response r))
          (λ c t, on_fst (invalidate_sandboxd_transport c t)) bytesio_write (is_sandboxd s) config
          path timeout allow_unsafe_paths JNull (s, []) in
      (match r with Ret _ => Ret buffer | Raise e => Raise e | NoFuel => NoFuel end, s')
  | None =>
      path ← lift (checked_path allow_unsafe_paths path);
      sandboxd ← gets is_sandboxd;
      resp ← send_request (Request "GET" (download_endpoint sandboxd path) BNone None timeout
                             false [] false);
      mret (concat (resp_chunks resp))
  end.

(** [response.json()] with [ValueError] turned into [RuntimeError]. *)
Definition decode_json (resp : response) : outcome json :=
  match resp_json resp with Raise ValueError => Raise RuntimeError | r => r end.

(** Any exception of an entry becomes a [RuntimeError]. *)
Definition entry_or_runtime_error {A} (o : outcome A) : outcome A :=
  match o with Raise _ => Raise RuntimeError | r => r end.

Fixpoint sandboxd_entries (entries : list json) : outcome (list file_entry) :=
  match entries with
  | [] => Ret []
  | entry :: entries' =>
      type ← py_get entry "type";
      if is_str type "file" || is_str type "directory" then
        e ← entry_or_runtime_error (from_sandboxd entry);
        es ← sandboxd_entries entries'; Ret (e :: es)
      else sandboxd_entries entries'
  end.

Fixpoint legacy_entries (entries : list json) : outcome (list file_entry) :=
  match entries with
  | [] => Ret []
  | entry :: entries' => e ← from_legacy entry; es ← legacy_entries entries'; Ret (e :: es)
  end.

Definition file_list (path : string) (timeout : py_timeout) : M S (list file_entry) :=
  sandboxd ← gets is_sandboxd;
  if sandboxd : bool then
    resp ← send_request (Request "GET" (sandboxd_files_endpoint path) BNone None timeout false [] false);
    listing ← lift (decode_json resp);
    match listing with
    | JObj kvs =>
        match dget "entries" kvs with
        | None => raise RuntimeError
        | Some es => l ← lift (py_iter (py_or es (JList []))); lift (sandboxd_entries l)
        end
    | _ => raise RuntimeError
    end
  else
    resp ← send_request (Request "GET" ("list/" +:+ implode (quote (explode path))) BNone None
                           timeout false [] false);
    entries ← lift (decode_json resp);
    if negb (truthy entries) then mret []
    else lift (entry_or_runtime_error (l ← py_iter entries; legacy_entries l)).

Definition file_exists (path : string) (timeout : py_timeout) : M S bool :=
  sandboxd ← gets is_sandboxd;
  if sandboxd : bool then
    resp ← send_request (Request "HEAD" (sandboxd_files_endpoint path) BNone None timeout false
                           [404] false);
    mret (negb (resp_status resp =? 404))
  else
    resp ← send_request (Request "GET" ("exists/" +:+ implode (quote (explode path))) BNone None
                           timeout false [] false);
    data ← lift (decode_json resp);
    e ← lift (py_get_def data "exists" (JBool false));
    mret (truthy e).

Definition file_delete (path : string) (recursive : bool) (timeout : py_timeout) : M S () :=
  sandboxd ← gets is_sandboxd;
  if negb sandboxd then raise NotImplementedError
  else if (path =? EmptyString)%string then raise ValueError
  else
    let endpoint := sandboxd_files_endpoint path in
    let endpoint := if recursive then endpoint +:+ "?recursive=true" else endpoint in
    _ ← send_request (Request "DELETE" endpoint BNone None timeout false [] false);
    mret ().
End client.
