(* ===== verification/FilesystemProofs.v ===== *)
(** Theorems on [files/filesystem.py]: downloads write a prefix of the body
    within the limit and all of it on success, responses are always closed, and
    uploads send one request for a confined path. *)

From Stdlib Require Import Ascii String ZArith Lia.
From stdpp Require Import base option list strings sets.
From S2P Require Import Prelude Json IpAddress PyText Models Http Paths Filesystem.

#[local] Open Scope Z_scope.

(** ** Writing to a destination *)

Section download.
Context {T : Type} (send : request → M T response) (close : response → M T ())
  (invalidate : option nat → option nat → M T ()) (dest_write : bytes → M T (option Z))
  (contents : T → bytes).

(** A destination that accepted as many bytes as it says, and none when it
    raises or returns [None]. *)
Definition honest_write : Prop := ∀ b t,
  match dest_write b t with
  | (Ret (Some n), t') => contents t' = contents t ++ take (Z.to_nat n) b
  | (Ret None, t') | (Raise _, t') => contents t' = contents t
  | (NoFuel, _) => False
  end.
Hypothesis honest : honest_write.

Lemma write_all_loop_spec fuel content written t o t' :
  0 ≤ written ≤ Z.of_nat (length content) →
  (length content - Z.to_nat written ≤ fuel)%nat →
  write_all_loop dest_write fuel content written t = (o, t') →
  ∃ k : nat,
    contents t' = contents t ++ take k (drop (Z.to_nat written) content) ∧
    match o with
    | Ret n => n = Z.of_nat (length content) ∧ (length content - Z.to_nat written ≤ k)%nat
    | Raise _ => True
    | NoFuel => False
    end.
Proof.
  revert written t. induction fuel as [|fuel IH]; intros written t Hw Hf; cbn [write_all_loop].
  - rewrite (proj2 (Z.ltb_ge _ _)) by lia. intros [= <- <-]. exists 0%nat.
    rewrite take_0, app_nil_r. split; [done|lia].
  - destruct (written <? Z.of_nat (length content)) eqn:E; bool_prop.
    2: { intros [= <- <-]. exists 0%nat. rewrite take_0, app_nil_r. split; [done|lia]. }
    unfold mbind, M_bind. pose proof (honest (drop (Z.to_nat written) content) t) as Hd.
    destruct (dest_write _ t) as [[[n|]|e|] t1]; [| | |done].
    2,3: intros [= <- <-]; exists 0%nat; rewrite take_0, app_nil_r; done.
    destruct (n <=? 0) eqn:E1; bool_prop.
    { intros [= <- <-]. eauto. }
    destruct (Z.of_nat (length content) - written <? n) eqn:E2; bool_prop.
    { intros [= <- <-]. eauto. }
    intros (k & Hk & Ho)%IH; [|lia..]. exists (Z.to_nat n + k)%nat.
    rewrite Hk, Hd, <-app_assoc. split.
    + f_equal. rewrite <-take_take_drop, drop_drop. do 3 f_equal. lia.
    + destruct o; [|done|done]. lia.
Qed.

Lemma write_all_spec content t o t' :
  write_all dest_write content t = (o, t') →
  ∃ k : nat,
    contents t' = contents t ++ take k content ∧
    match o with
    | Ret n => n = Z.of_nat (length content) ∧ contents t' = contents t ++ content
    | Raise _ => True
    | NoFuel => False
    end.
Proof.
  intros (k & Hk & Ho)%write_all_loop_spec; [|lia..].
  change (Z.to_nat 0) with 0%nat in *. rewrite drop_0 in Hk. exists k. split; [done|].
  destruct o; [|done|done]. destruct Ho as [-> Hlen]. split; [done|]. rewrite Hk.
  rewrite take_ge; [done|lia].
Qed.

(** ** The download loop *)

Definition within (limit : option Z) (n : Z) : Prop :=
  match limit with Some l => n ≤ l | None => True end.

Lemma download_chunks_cons limit total chunk chunks error :
  chunk ≠ [] →
  download_chunks dest_write limit total (chunk :: chunks) error =
  let continue :=
    n ← write_all dest_write chunk; download_chunks dest_write limit (total + n) chunks error in
  match limit with
  | Some l =>
      if l - total <? Z.of_nat (length chunk) then
        _ ← (if 0 <? l - total then write_all dest_write (take (Z.to_nat (l - total)) chunk)
             else mret 0);
        raise SandboxResponseTooLargeError
      else continue
  | None => continue
  end.
Proof. by destruct chunk. Qed.

Lemma download_chunks_spec limit total chunks error t o t' :
  within limit total → 0 ≤ total →
  download_chunks dest_write limit total chunks error t = (o, t') →
  ∃ data,
    contents t' = contents t ++ data ∧ data `prefix_of` concat chunks ∧
    within limit (total + Z.of_nat (length data)) ∧
    match o with
    | Ret n => error = None ∧ data = concat chunks ∧ n = total + Z.of_nat (length data)
    | Raise _ => True
    | NoFuel => False
    end.
Proof.
  intros Hl. revert total t Hl. induction chunks as [|chunk chunks IH]; intros total t Hl H0.
  { cbn. intros H. exists []. rewrite app_nil_r, Z.add_0_r.
    destruct error as [e|]; injection H as <- <-; split_and!; try done. }
  destruct (decide (chunk = [])) as [->|Hne]; [apply IH; done|].
  rewrite download_chunks_cons by done. cbn zeta. rename chunk into ch.
  assert ((n ← write_all dest_write ch; download_chunks dest_write limit (total + n) chunks error) t
                = (o, t') → within limit (total + Z.of_nat (length ch)) →
    ∃ data, contents t' = contents t ++ data ∧ data `prefix_of` ch ++ concat chunks ∧
      within limit (total + Z.of_nat (length data)) ∧
      match o with
      | Ret n => error = None ∧ data = ch ++ concat chunks ∧ n = total + Z.of_nat (length data)
      | Raise _ => True
      | NoFuel => False
      end) as Hstep.
  { intros H Hfit. unfold mbind, M_bind in H.
    destruct (write_all dest_write ch t) as [ow tw] eqn:Ew.
    apply write_all_spec in Ew as (k & Hk & How). destruct ow as [n|e|]; [| |done].
    - destruct How as [-> Hc]. apply IH in H as (data & Hd & Hp & Hw & Ho); [|done|lia].
      exists (ch ++ data). rewrite Hd, Hc, app_assoc. split_and!; [done|by apply prefix_app| |].
      + rewrite length_app. replace (total + Z.of_nat (length ch + length data))
          with (total + Z.of_nat (length ch) + Z.of_nat (length data)) by lia. done.
      + destruct o; [|done|done]. destruct Ho as (-> & -> & ->). rewrite length_app.
        split_and!; [done|done|lia].
    - injection H as <- <-. exists (take k ch). split_and!; [done| |destruct limit; [|done]|done].
      + trans ch; [apply prefix_take|by apply prefix_app_r].
      + unfold within in *. rewrite length_take. lia. }
  cbn [concat]. destruct limit as [l|]; [|by intros H; apply Hstep].
  destruct (l - total <? Z.of_nat (length ch)) eqn:E; bool_prop;
    [|intros H; apply Hstep; [done|unfold within; lia]].
  unfold mbind, M_bind. destruct (0 <? l - total) eqn:E0; bool_prop; cbv beta iota.
  2: { intros [= <- <-]. exists []. rewrite app_nil_r. split_and!; try done; [apply prefix_nil|unfold within in *; cbn [length]; lia]. }
  destruct (write_all dest_write _ t) as [ow tw] eqn:Ew.
  apply write_all_spec in Ew as (k & Hk & How).
  set (r := take (Z.to_nat (l - total)) ch) in *.
  assert (∃ data, contents tw = contents t ++ data ∧ data `prefix_of` ch ++ concat chunks ∧
                  within (Some l) (total + Z.of_nat (length data))) as (data & ? & ? & ?).
  { exists (take k r). split_and!; [done| |].
    - trans r; [apply prefix_take|]. trans ch; [apply prefix_take|by apply prefix_app_r].
    - unfold within, r. rewrite !length_take. lia. }
  destruct ow as [n|e|]; [| |done]; intros [= <- <-]; eauto 10.
Qed.

(** The connector does not touch the destination. *)
Definition keeps {A} (m : M T A) : Prop := ∀ t, contents (m t).2 = contents t.
Hypothesis send_keeps : ∀ q, keeps (send q).
Hypothesis close_keeps : ∀ r, keeps (close r).
Hypothesis invalidate_keeps : ∀ c k, keeps (invalidate c k).

(** What a download leaves behind: the destination got [data], a prefix of the
    body within the limit, and all of it if the download succeeded. *)
Definition downloaded (limit : option Z) (resp : response) (t : T) (o : outcome Z) (t' : T) : Prop :=
  ∃ data,
    contents t' = contents t ++ data ∧ data `prefix_of` concat (resp_chunks resp) ∧
    within limit (Z.of_nat (length data)) ∧
    match o with
    | Ret n =>
        resp_error resp = None ∧ data = concat (resp_chunks resp) ∧ n = Z.of_nat (length data)
    | _ => True
    end.

Lemma downloaded_nothing limit resp t e t' :
  within limit 0 → contents t' = contents t → downloaded limit resp t (Raise e) t'.
Proof. intros Hl Hc. exists []. rewrite app_nil_r. split_and!; try done. apply prefix_nil. Qed.

Lemma downloaded_raise limit resp t o e t1 t2 :
  downloaded limit resp t o t1 → contents t2 = contents t1 → downloaded limit resp t (Raise e) t2.
Proof. intros (data & ? & ? & ? & _) Hc. exists data. by rewrite Hc. Qed.

Lemma download_body_spec limit resp t o t' :
  within limit 0 →
  (if (200 <=? resp_status resp) && (resp_status resp <? 300) then
     _ ← lift (check_download_headers (resp_headers resp) limit);
     download_chunks dest_write limit 0 (resp_chunks resp) (resp_error resp)
   else raise (SandboxRequestError (Some (resp_status resp)))) t = (o, t') →
  downloaded limit resp t o t' ∧ o ≠ NoFuel.
Proof.
  intros Hl. destruct (_ && _).
  2: { intros [= <- <-]. split; [by apply downloaded_nothing|done]. }
  unfold mbind, M_bind, lift.
  destruct (check_download_headers (resp_headers resp) limit) as [[]|e|] eqn:Ec.
  - intros (data & Hd & Hp & Hw & Ho)%download_chunks_spec; [|done|lia]. rewrite Z.add_0_l in *.
    split; [|by destruct o]. exists data. split_and!; try done. by destruct o.
  - intros [= <- <-]. split; [by apply downloaded_nothing|done].
  - exfalso. revert Ec. unfold check_download_headers. by repeat case_scrut.
Qed.

Lemma download_response_spec limit resp t o t' :
  within limit 0 → o ≠ NoFuel →
  download_response close invalidate dest_write limit resp t = (o, t') →
  downloaded limit resp t o t' ∧ ∃ t2, t' = (close resp t2).2.
Proof.
  intros Hl Hnf. unfold download_response, finally, except.
  match goal with |- context [(if ?b then ?m else ?k) t] => set (core := if b then m else k) end.
  destruct (core t) as [oc tc] eqn:Ecore. apply download_body_spec in Ecore as [Hd Hoc]; [|done].
  assert (∀ ob tb, downloaded limit resp t ob tb → ob ≠ NoFuel →
    match ob with
    | NoFuel => (NoFuel, tb)
    | r => match close resp tb with
           | (Ret _, s'') => (r, s'')
           | (Raise e, s'') => (Raise e, s'')
           | (NoFuel, s'') => (NoFuel, s'')
           end
    end = (o, t') → downloaded limit resp t o t' ∧ ∃ t2, t' = (close resp t2).2) as Hclose.
  { intros ob tb Hob Hne H. pose proof (close_keeps resp tb) as Hk.
    destruct (close resp tb) as [oc' tc'] eqn:Ecl. cbn in Hk.
    destruct ob as [n|e|]; [| |done]; destruct oc' as [[]|e'|]; simplify_eq;
      (split; [|exists tb; by rewrite Ecl]);
      try (by eapply downloaded_raise); destruct Hob as (data & ? & ? & ? & ?);
      exists data; by rewrite Hk. }
  destruct oc as [n|e|]; [|  |done].
  { intros H. eapply (Hclose (Ret n)); [exact Hd|done|]. exact H. }
  unfold on_stream_error. destruct (is_request_exception e).
  2: { intros H. eapply (Hclose (Raise e)); [exact Hd|done|]. exact H. }
  destruct (resp_token resp) as [token|].
  2: { intros H. eapply (Hclose (Raise e)); [exact Hd|done|]. exact H. }
  unfold mbind, M_bind. pose proof (invalidate_keeps None (Some token) tc) as Hk.
  destruct (invalidate None (Some token) tc) as [[[]|e'|] ti]; cbn in Hk.
  - intros H. eapply (Hclose (Raise e)); [by eapply downloaded_raise|done|exact H].
  - intros H. eapply (Hclose (Raise e')); [by eapply downloaded_raise|done|exact H].
  - intros [= <- <-]. done.
Qed.

Definition valid_file_config (config : SandboxFileConfig) : Prop :=
  ∀ d, max_download_size config = Some d → 0 < d.

Lemma download_limit_spec config max_bytes limit :
  valid_file_config config → download_limit config max_bytes = Ret limit →
  within limit 0 ∧
  ∀ k, within limit k →
    within (max_download_size config) k ∧ ∀ n, max_bytes = JInt n → k ≤ n.
Proof.
  unfold valid_file_config, download_limit, within. cbn zeta.
  intros Hv. destruct max_bytes as [| |n| | | |]; try done.
  - intros [= <-]. destruct (max_download_size config) as [d|]; [|done].
    specialize (Hv d eq_refl). split; [lia|naive_solver].
  - destruct (n <? 0) eqn:E; bool_prop; [done|]. intros [= <-].
    destruct (max_download_size config) as [d|]; [specialize (Hv d eq_refl)|];
      (split; [lia|]); intros k Hk; (split; [lia || done|]); intros ? [= <-]; lia.
Qed.

Lemma read_to_ok sandboxd config path timeout unsafe max_bytes t o t' :
  valid_file_config config → o ≠ NoFuel →
  read_to_dest send close invalidate dest_write sandboxd config path timeout unsafe max_bytes t
    = (o, t') →
  ∃ data,
    contents t' = contents t ++ data ∧
    within (max_download_size config) (Z.of_nat (length data)) ∧
    (∀ n, max_bytes = JInt n → 0 ≤ n → Z.of_nat (length data) ≤ n) ∧
    (∀ n, o = Ret n →
       n = Z.of_nat (length data) ∧
       ∃ path' resp t1 t2,
         checked_path unsafe path = Ret path' ∧
         send (Request "GET" (download_endpoint sandboxd path') BNone None timeout true [] false) t
           = (Ret resp, t1) ∧
         resp_error resp = None ∧ data = concat (resp_chunks resp) ∧ t' = (close resp t2).2).
Proof.
  intros Hv Hnf. unfold read_to_dest, mbind, M_bind, lift.
  assert (∀ t', contents t' = contents t → ∃ data,
    contents t' = contents t ++ data ∧
    within (max_download_size config) (Z.of_nat (length data)) ∧
    (∀ n, max_bytes = JInt n → 0 ≤ n → Z.of_nat (length data) ≤ n)) as Hno.
  { intros t'' Hc. exists []. rewrite app_nil_r. split_and!; try done. unfold within, valid_file_config in *.
    destruct (max_download_size config); [|done]. specialize (Hv _ eq_refl). cbn [length]. lia. }
  destruct (download_limit config max_bytes) as [limit|e|] eqn:El.
  2: { intros [= <- <-]. destruct (Hno t eq_refl) as (data & ? & ? & ?). by exists data. }
  2: { by intros [= <- <-]. }
  pose proof (download_limit_spec _ _ _ Hv El) as [Hl0 Hlk].
  destruct (checked_path unsafe path) as [path'|e|] eqn:Ep.
  2: { intros [= <- <-]. destruct (Hno t eq_refl) as (data & ? & ? & ?). by exists data. }
  2: { by intros [= <- <-]. }
  set (q := Request "GET" _ _ _ _ _ _ _). pose proof (send_keeps q t) as Hk.
  destruct (send q t) as [[resp|e|] t1] eqn:Es; cbn in Hk.
  2: { intros [= <- <-]. destruct (Hno t1 Hk) as (data & ? & ? & ?). by exists data. }
  2: { by intros [= <- <-]. }
  intros H. apply download_response_spec in H as [(data & Hd & _ & Hw & Ho) (t2 & Hcl)]; [|done|done].
  destruct (Hlk _ Hw) as [Hw1 Hw2]. exists data. rewrite <-Hk. split_and!; [done|done|auto|].
  intros n ->. destruct Ho as (? & ? & ?). split; [done|]. exists path', resp, t1, t2. done.
Qed.

(** A download into a caller's destination appends only a prefix of the file
    and never more bytes than the configured limit or the limit of the call,
    whichever is smaller, whatever the server sends and the destination accepts
    per write. If it returns, the whole body was written, the count is its
    length, and the response was closed. *)
Theorem read_to_bounded sandboxd config path timeout unsafe max_bytes t o t' :
  valid_file_config config → o ≠ NoFuel →
  read_to_dest send close invalidate dest_write sandboxd config path timeout unsafe max_bytes t
    = (o, t') →
  ∃ data,
    contents t' = contents t ++ data ∧
    within (max_download_size config) (Z.of_nat (length data)) ∧
    (∀ n, max_bytes = JInt n → 0 ≤ n → Z.of_nat (length data) ≤ n) ∧
    (∀ n, o = Ret n →
       n = Z.of_nat (length data) ∧
       ∃ path' resp t1 t2,
         checked_path unsafe path = Ret path' ∧
         send (Request "GET" (download_endpoint sandboxd path') BNone None timeout true [] false) t
           = (Ret resp, t1) ∧
         resp_error resp = None ∧ data = concat (resp_chunks resp) ∧ t' = (close resp t2).2).
Proof. apply read_to_ok. Qed.
End download.

(** A server that sends [hello world] in two chunks, and a destination that
    takes two bytes per write. *)
Definition hello_response : response :=
  Response 200 [] [explode "hello "; explode "world"] None (Raise ValueError) None.
Definition short_write (b : bytes) (t : bytes) : outcome (option Z) * bytes :=
  (Ret (Some (Z.min 2 (Z.of_nat (length b)))), t ++ take 2 b).

Lemma short_write_honest : honest_write short_write id.
Proof.
  intros b t. cbn. f_equal. destruct b as [|x [|y b]]; [done|done|].
  replace (Z.min 2 (Z.of_nat (length (x :: y :: b)))) with 2; [done|]. cbn [length]. lia.
Qed.

Lemma read_to_bounded_witness :
  let run := read_to_dest (λ _ t, (Ret hello_response, t)) (λ _ t, (Ret (), t))
               (λ _ _ t, (Ret (), t)) short_write true (FileConfig (Some 8)) "a.txt" TNone false in
  run (JInt 7) [] = (Raise SandboxResponseTooLargeError, explode "hello w") ∧
  run JNull [] = (Raise SandboxResponseTooLargeError, explode "hello wo") ∧
  ∃ data, explode "hello w" = [] ++ data ∧ Z.of_nat (length data) ≤ 7.
Proof.
  cbn zeta. split_and!; [vm_compute; reflexivity..|].
  destruct (read_to_bounded (λ _ t, (Ret hello_response, t)) (λ _ t, (Ret (), t))
    (λ _ _ t, (Ret (), t)) short_write id short_write_honest (λ _ _, eq_refl) (λ _ _, eq_refl)
    (λ _ _ _, eq_refl) true (FileConfig (Some 8)) "a.txt" TNone false (JInt 7) []
    (Raise SandboxResponseTooLargeError) (explode "hello w")) as (data & H1 & _ & H2 & _).
  - intros d [= <-]. lia.
  - discriminate.
  - vm_compute. reflexivity.
  - exists data. split; [exact H1|]. apply H2; [reflexivity|lia].
Defined.

(** ** Whole-file reads and uploads *)

Section client.
Context {S : Type} {Hconn : Connector S}.

Lemma bytesio_honest : honest_write bytesio_write (λ p : S * bytes, p.2).
Proof.
  intros b [s buf]. unfold bytesio_write, mbind, M_bind, modify, mret, M_ret. cbn [fst snd].
  by rewrite Nat2Z.id, take_ge.
Qed.

Lemma on_fst_keeps {A} (m : M S A) (p : S * bytes) : ((on_fst m p).2).2 = p.2.
Proof. unfold on_fst, zoom. by destruct (m p.1). Qed.

Lemma on_fst_inv {A} (m : M S A) (p : S * bytes) o p' :
  on_fst m p = (o, p') → m p.1 = (o, p'.1).
Proof. unfold on_fst, zoom. destruct (m p.1) as [o1 s1]. by intros [= <- <-]. Qed.

(** C6. A read under a configured limit returns the complete file, of at most
    that many bytes, or raises; it never returns a part of the file. *)
Theorem file_read_complete config path timeout unsafe d s b s' :
  max_download_size config = Some d → 0 < d →
  file_read config path timeout unsafe s = (Ret b, s') →
  Z.of_nat (length b) ≤ d ∧
  ∃ path' resp s1,
    checked_path unsafe path = Ret path' ∧
    send_request (Request "GET" (download_endpoint (is_sandboxd s) path') BNone None timeout
                    true [] false) s = (Ret resp, s1) ∧
    resp_error resp = None ∧ b = concat (resp_chunks resp).
Proof.
  intros Hd Hpos. unfold file_read. rewrite Hd.
  destruct (read_to_dest _ _ _ _ _ _ _ _ _ _ _) as [o [s1 buf]] eqn:Er.
  intros H. destruct o as [n|e|]; try done. injection H as -> ->.
  apply (read_to_ok _ _ _ _ (λ p : S * bytes, p.2) bytesio_honest) in Er;
    [|intros ? ?; apply on_fst_keeps|intros ? ?; apply on_fst_keeps
     |intros ? ? ?; apply on_fst_keeps|intros ? ?; simplify_eq; lia|done].
  destruct Er as (data & Hb & Hw & _ & Hr). cbn in Hb. subst data.
  destruct (Hr n eq_refl) as (_ & path' & resp & t1 & t2 & ? & Hs & ? & ? & _).
  apply on_fst_inv in Hs. rewrite Hd in Hw. cbn in Hw. split; [done|].
  exists path', resp, t1.1. done.
Qed.

(** The reads of a binary file object, as the bytes it holds. *)
Lemma iter_binary_chunks_bytes bs :
  Forall (.≠ []) bs → iter_binary_chunks (ReadBytes <$> bs) = (bs, None).
Proof.
  induction 1 as [|b bs Hb _ IH]; [done|]. cbn. rewrite IH. by destruct b.
Qed.

(** An upload sends at most one request. It is addressed to the sanitised
    path, it carries exactly the bytes given, and a body that can be read only
    once is sent with retries disabled, so it is never replayed empty. *)
Theorem file_write_single_request boundary render path content timeout unsafe s o s' :
  file_write boundary render path content timeout unsafe s = (o, s') →
  (∃ e, o = Raise e ∧ s' = s ∧
        (upload_content content = Raise e ∨ checked_path unsafe path = Raise e)) ∨
  ∃ path' r,
    checked_path unsafe path = Ret path' ∧ (send_request r s).2 = s' ∧
    hr_endpoint r = (if is_sandboxd s then sandboxd_files_endpoint path' else "upload") ∧
    (hr_disable_retries r = true ↔ ∃ bs e, hr_body r = BStream bs e) ∧
    (∀ bs, content = UFile (ReadBytes <$> bs) → Forall (.≠ []) bs → is_sandboxd s = true →
       hr_body r = BStream bs None) ∧
    (∀ b, content = UBytes b → hr_body r = BBytes b ∨ hr_body r = BFiles path' b).
Proof.
  unfold file_write, mbind, M_bind, lift, gets.
  destruct (upload_content content) as [c|e|] eqn:Ec.
  2: { intros [= <- <-]. left. eauto 10. }
  2: { by destruct content. }
  destruct (checked_path unsafe path) as [path'|e|] eqn:Ep.
  2: { intros [= <- <-]. left. eauto 10. }
  2: { exfalso. revert Ep. unfold checked_path, safe_upload_path. by repeat case_scrut. }
  match goal with |- context [send_request ?q s] => set (r := q) end.
  intros H. right. exists path', r.
  assert ((send_request r s).2 = s') as Hs.
  { destruct (send_request r s) as [[]]; by injection H as <- <-. }
  clear H. destruct (is_sandboxd s), c as [b|reads]; subst r; cbn [hr_endpoint].
  - split_and!; try done; [split; [done|by intros (? & ? & ?)]| |]; intros; subst; simplify_eq;
      cbn in Ec; simplify_eq; cbn; eauto.
  - destruct (iter_binary_chunks reads) as [bs e] eqn:Ei.
    split_and!; try done; [cbn; split; eauto| |intros; subst; done].
    intros bs' -> Hne _. injection Ec as <-. by rewrite iter_binary_chunks_bytes in Ei; simplify_eq.
  - split_and!; try done; [split; [done|by intros (? & ? & ?)]|]; intros; subst; simplify_eq;
      cbn in Ec; simplify_eq; cbn; eauto.
  - unfold multipart_framing in *. destruct (iter_multipart_body _ reads _) as [bs e].
    split_and!; try done; [cbn; split; eauto|intros; subst; done].
Qed.
End client.

(** A connector that counts the requests it sent. *)
#[local] Instance hello_connector : Connector nat := {
  is_sandboxd _ := true;
  send_request _ n := (Ret hello_response, S n);
  invalidate_sandboxd_transport _ _ n := (Ret (), n);
  close_response _ n := (Ret (), n);
}.

Lemma file_read_complete_witness :
  file_read (FileConfig (Some 11)) "/in/../a.txt" TNone false 0%nat
    = (Ret (explode "hello world"), 1%nat) ∧
  Z.of_nat (length (explode "hello world")) ≤ 11.
Proof.
  split; [vm_compute; reflexivity|].
  refine (proj1 (file_read_complete (FileConfig (Some 11)) "/in/../a.txt" TNone false 11 0%nat
    (explode "hello world") 1%nat eq_refl _ _)); [lia|vm_compute; reflexivity].
Defined.

Lemma file_write_single_request_witness :
  file_write "b0" (λ p, p) "dir/../a.txt" (UBytes (explode "x")) TNone false 0%nat = (Ret (), 1%nat) ∧
  ∃ path', checked_path false "dir/../a.txt" = Ret path'.
Proof.
  split; [vm_compute; reflexivity|].
  destruct (file_write_single_request "b0" (λ p, p) "dir/../a.txt" (UBytes (explode "x")) TNone false
    0%nat (Ret ()) 1%nat) as [(e & H & _)|(path' & r & H & _)].
  - vm_compute. reflexivity.
  - discriminate H.
  - exists path'. exact H.
Defined.
