(* ===== verification/Tunnel.v ===== *)
(** The connection strategies of [connector.py]: how a connector finds the base
    URL of a sandbox, and the kubectl port-forward processes two of them own. *)

From Stdlib Require Import Ascii String ZArith Lia.
From stdpp Require Import base option list strings gmap pretty sets.
From S2P Require Import Prelude Json IpAddress Models Utils World K8sHelper.

#[local] Open Scope Z_scope.

(** ** The host the SDK runs on *)

(** Processes, local ports and temporary files; [poll] is [None] while a process
    runs. *)
Class Host (W : Type) := {
  free_port : M W Z;
  port_open : Z → M W bool;
  (** [subprocess.run(["kubectl", "get", ...])]: return code and stderr *)
  kubectl_get : list string → M W (Z * string);
  temporary_file : M W ();
  popen : list string → M W nat;
  poll : nat → M W (option Z);
  terminate_process : nat → M W ();
  wait_process : nat → M W ();
  kill_process : nat → M W ();
  host_files : W → gmap string json;
  set_host_files : gmap string json → W → W;
  host_mkstemp : W → option (string * W);
}.

Definition ROUTER_SERVICE_NAME : string := "svc/sandbox-router-svc".

(** [f"[{host}]" if ":" in host else host] *)
Definition url_host_of (host : string) : string :=
  if has_char ":" host then "[" +:+ host +:+ "]" else host.

(** ** Port-forward tunnels *)

(** The process, log and addresses of a tunnel object. The pod tunnel also has
    a gRPC target. *)
Record tunnel := Tunnel {
  tn_process : option nat;
  tn_stderr_log : bool;
  tn_base_url : option string;
  tn_grpc_target : option string;
}.

Definition tunnel_new : tunnel := Tunnel None false None None.

Section tunnels.
Context {W : Type} `{Clock W} `{Host W}.

(** The tunnel object and the world. *)
Abbreviation TM := (M (tunnel * W)).

(** [terminate], then [wait], then [kill] and [wait] after a timeout. *)
Definition stop_process (pid : nat) : M W () :=
  _ ← terminate_process pid;
  except (λ e, match e with
               | TimeoutExpired => Some (_ ← kill_process pid; wait_process pid)
               | _ => None
               end) (wait_process pid).

(** [_close] of both tunnels: a process that cannot be stopped is kept. *)
Definition tunnel_close : TM () :=
  st ← self;
  _ ← match tn_process st with
      | None => mret ()
      | Some pid =>
          except (λ e, Some (mret ()))
            (_ ← world (stop_process pid);
             set_self (λ st, Tunnel None (tn_stderr_log st) None None))
      end;
  set_self (λ st, match tn_process st with
                  | None => Tunnel None false (tn_base_url st) (tn_grpc_target st)
                  | Some _ => st
                  end).

(** The reusable URL of a live tunnel. *)
Definition live_url : TM (option string) :=
  st ← self;
  match tn_process st with
  | Some pid =>
      if truthy_str_opt (tn_base_url st) then
        code ← world (poll pid);
        mret (match code with None => tn_base_url st | Some _ => None end)
      else mret None
  | None => mret None
  end.

(** Drop the old process before a new one is started. *)
Definition drop_old_tunnel : TM () :=
  st ← self;
  match tn_process st with
  | None => mret ()
  | Some _ =>
      _ ← tunnel_close;
      st ← self;
      match tn_process st with
      | Some _ => raise SandboxPortForwardError
      | None => mret ()
      end
  end.

(** Start kubectl with its stderr in a temporary file. *)
Definition start_process (argv : list string) : TM nat :=
  _ ← world temporary_file;
  _ ← set_self (λ st, Tunnel (tn_process st) true (tn_base_url st) (tn_grpc_target st));
  pid ← except (λ e, Some (
            _ ← set_self (λ st, Tunnel (tn_process st) false (tn_base_url st) (tn_grpc_target st));
            raise e))
          (world (popen argv));
  _ ← set_self (λ st, Tunnel (Some pid) (tn_stderr_log st) (tn_base_url st) (tn_grpc_target st));
  mret pid.

Definition POLL_INTERVAL : Z := SECOND / 20.

(** The wait for the local ports: [ready] is the probe, [publish] records the
    addresses. *)
Section wait.
Variable pid : nat.
Variable start timeout : Z.
Variable ready : M W bool.
Variable publish : tunnel → tunnel.
Variable url : string.

Fixpoint wait_ready (fuel : nat) : TM string :=
  now ← world read_clock;
  if now - start <? timeout * SECOND then
    match fuel with
    | O => no_fuel
    | S fuel' =>
        code ← world (poll pid);
        match code with
        | Some _ => raise SandboxPortForwardError
        | None =>
            ok ← world ready;
            if ok : bool then _ ← set_self publish; mret url
            else _ ← world (do_sleep POLL_INTERVAL); wait_ready fuel'
        end
    end
  else _ ← tunnel_close; raise TimeoutError.
End wait.

Definition with_kubeconfig {A} (api_client : option ApiClient) (body : list string → TM A) : TM A :=
  kubectl_kubeconfig_args (λ s : tunnel * W, host_files s.2) (λ f s, (s.1, set_host_files f s.2))
    (λ s, match host_mkstemp s.2 with Some (p, w) => Some (p, (s.1, w)) | None => None end)
    api_client body.

(** *** LocalTunnelConnectionStrategy *)

Definition preflight_check_router_service (cfg : SandboxLocalTunnelConnectionConfig)
    (kube_args : list string) : TM () :=
  except (λ e, match e with SandboxPortForwardError => None | _ => Some (mret ()) end)
    ('(returncode, stderr) ←
       world (kubectl_get (["kubectl"; "get"; ROUTER_SERVICE_NAME; "-n"; router_namespace cfg]
                             ++ kube_args));
     if negb (returncode =? 0) && contains "not found" (lower (strip stderr))
     then raise SandboxPortForwardError else mret ()).

Definition local_start_tunnel (fuel : nat) (cfg : SandboxLocalTunnelConnectionConfig)
    (kube_args : list string) : TM string :=
  _ ← preflight_check_router_service cfg kube_args;
  local_port ← world free_port;
  pid ← start_process (["kubectl"; "port-forward"; ROUTER_SERVICE_NAME;
                        pretty local_port +:+ ":8080"; "-n"; router_namespace cfg] ++ kube_args);
  start ← world read_clock;
  let url := "http://127.0.0.1:" +:+ pretty local_port in
  wait_ready pid start (lt_port_forward_ready_timeout cfg) (port_open local_port)
    (λ st, Tunnel (tn_process st) (tn_stderr_log st) (Some url) (tn_grpc_target st)) url fuel.

Definition local_connect (fuel : nat) (cfg : SandboxLocalTunnelConnectionConfig)
    (api_client : option ApiClient) : TM string :=
  u ← live_url;
  match u with
  | Some url => mret url
  | None => _ ← drop_old_tunnel; with_kubeconfig api_client (local_start_tunnel fuel cfg)
  end.

(** *** SandboxdPodTunnelStrategy *)

(** [a and b] on the two probes *)
Definition both_open (a b : Z) : M W bool :=
  ok ← port_open a; if ok : bool then port_open b else mret false.

Definition pod_start_tunnel (fuel : nat) (cfg : SandboxdPodTunnelConnectionConfig)
    (namespace pod_name : string) (kube_args : list string) : TM string :=
  start ← world read_clock;
  rest_local ← world free_port;
  grpc_local ← world free_port;
  pid ← start_process (["kubectl"; "port-forward"; "pod/" +:+ pod_name;
                        pretty rest_local +:+ ":" +:+ pretty (pt_rest_port cfg);
                        pretty grpc_local +:+ ":" +:+ pretty (pt_grpc_port cfg);
                        "-n"; namespace] ++ kube_args);
  let url := "http://127.0.0.1:" +:+ pretty rest_local in
  let target := "127.0.0.1:" +:+ pretty grpc_local in
  wait_ready pid start (pt_port_forward_ready_timeout cfg) (both_open rest_local grpc_local)
    (λ st, Tunnel (tn_process st) (tn_stderr_log st) (Some url) (Some target)) url fuel.

Definition pod_connect (fuel : nat) (cfg : SandboxdPodTunnelConnectionConfig) (namespace : string)
    (get_pod_name : option (M W (option string))) (api_client : option ApiClient) : TM string :=
  u ← live_url;
  match u with
  | Some url => mret url
  | None =>
      _ ← drop_old_tunnel;
      pod_name ← match get_pod_name with Some f => world f | None => mret None end;
      match str_or pod_name None with
      | Some pod_name => with_kubeconfig api_client (pod_start_tunnel fuel cfg namespace pod_name)
      | None => raise SandboxPortForwardError
      end
  end.

(** [verify_connection] of both tunnels *)
Definition tunnel_verify : TM () :=
  st ← self;
  match tn_process st with
  | None => mret ()
  | Some pid =>
      code ← world (poll pid);
      match code with Some _ => raise SandboxPortForwardError | None => mret () end
  end.
End tunnels.

(** ** Strategies without a process *)

(** GatewayConnectionStrategy: the cached base URL *)
Section gateway.
Context {W : Type} `{Clock W} `{K8sApi W}.

Definition gateway_connect (fuel : nat) (cfg : SandboxGatewayConnectionConfig)
    : M (option string * W) string :=
  base_url ← self;
  match str_or base_url None with
  | Some u => mret u
  | None =>
      ip_address ← world (wait_for_gateway_ip fuel (gateway_name cfg) (gateway_namespace cfg)
                            (gateway_ready_timeout cfg));
      let u := "http://" +:+ url_host_of ip_address in
      _ ← set_self (λ _, Some u);
      mret u
  end.
End gateway.

(** SandboxdInClusterStrategy *)
Record in_clusterd := InClusterd {
  icd_service_fqdn : option string;
  icd_grpc_target : option string;
}.

(** InClusterConnectionStrategy *)
Record in_cluster := InCluster {
  icl_resolved : bool;
  icl_cached_pod_ip_url : option string;
}.

Section in_cluster.
Context {W : Type}.

Definition clusterd_connect (cfg : SandboxdInClusterConnectionConfig)
    (get_pod_ip get_service_fqdn : option (M W (option string))) : M (in_clusterd * W) string :=
  let call f := match f with Some g => world g | None => mret None end in
  _ ← set_self (λ st, InClusterd (icd_service_fqdn st) None);
  st ← self;
  host ← match ic_mode cfg with
         | InClusterService =>
             match icd_service_fqdn st with
             | Some fqdn => mret fqdn
             | None =>
                 f ← call get_service_fqdn;
                 match str_or f None with
                 | None => raise SandboxNoServiceError
                 | Some fqdn =>
                     _ ← set_self (λ st, InClusterd (Some fqdn) (icd_grpc_target st));
                     mret fqdn
                 end
             end
         | InClusterPodIp =>
             p ← call get_pod_ip;
             match str_or p None with
             | None => raise SandboxNotReadyError
             | Some ip => mret ip
             end
         end;
  let formatted := url_host_of host in
  _ ← set_self (λ st, InClusterd (icd_service_fqdn st)
                        (Some (formatted +:+ ":" +:+ pretty (ic_grpc_port cfg))));
  mret ("http://" +:+ formatted +:+ ":" +:+ pretty (ic_rest_port cfg)).

Definition cluster_connect (sandbox_id namespace : string) (cfg : SandboxInClusterConnectionConfig)
    (get_pod_ip : option (M W (option string))) : M (in_cluster * W) string :=
  let dns_url := "http://" +:+ sandbox_id +:+ "." +:+ namespace +:+ ".svc.cluster.local:" +:+
                   pretty (in_server_port cfg) in
  match get_pod_ip with
  | None => mret dns_url
  | Some f =>
      st ← self;
      if icl_resolved st then mret (default dns_url (str_or (icl_cached_pod_ip_url st) None))
      else
        pod_ip ← world f;
        match str_or pod_ip None with
        | Some ip =>
            let u := "http://" +:+ url_host_of ip +:+ ":" +:+ pretty (in_server_port cfg) in
            _ ← set_self (λ _, InCluster true (Some u));
            mret u
        | None => mret dns_url
        end
  end.
End in_cluster.
