(* ===== verification/TunnelProofs.v ===== *)
(** Theorems on the connection strategies: no kubectl process is ever orphaned,
    a returned tunnel URL belongs to a live process, and the wait for a tunnel
    ends. A simulated host, in which the examples run. *)

From Stdlib Require Import Ascii String ZArith Lia.
From stdpp Require Import base option list strings gmap pretty sets.
From S2P Require Import Prelude Hoare Json IpAddress Models Utils World K8sHelper Tunnel.

#[local] Open Scope Z_scope.

Record hostsim := HostSim {
  hs_now : Z;
  hs_running : gset nat;
  hs_next_pid : nat;
  (** ports open this long after boot *)
  hs_opens_at : Z;
  (** processes that ignore [terminate] *)
  hs_stubborn : gset nat;
  hs_files : gmap string json;
}.

Definition hs_with_running (r : gset nat) (w : hostsim) : hostsim :=
  HostSim (hs_now w) r (hs_next_pid w) (hs_opens_at w) (hs_stubborn w) (hs_files w).

Definition hs_advance (d : Z) (w : hostsim) : hostsim :=
  HostSim (hs_now w + d) (hs_running w) (hs_next_pid w) (hs_opens_at w) (hs_stubborn w) (hs_files w).

#[global] Instance hostsim_clock : Clock hostsim := {
  monotonic w := (hs_now w, w);
  sleep d w := hs_advance (Z.max 0 d) w;
  utcnow_us w := (hs_now w / 1000, w);
  utcnow_isoformat w := ("2023-12-18T00:00:00+00:00", w);
}.

#[global] Instance hostsim_host : Host hostsim := {
  free_port w := (Ret 40000, w);
  port_open p w := (Ret (hs_opens_at w <=? hs_now w), w);
  kubectl_get _ w := (Ret (0, EmptyString), w);
  temporary_file w := (Ret (), w);
  popen _ w :=
    (Ret (hs_next_pid w),
     HostSim (hs_now w) ({[hs_next_pid w]} ∪ hs_running w) (S (hs_next_pid w)) (hs_opens_at w)
       (hs_stubborn w) (hs_files w));
  poll p w := (Ret (if bool_decide (p ∈ hs_running w) then None else Some 0), w);
  terminate_process p w :=
    (Ret (), if bool_decide (p ∈ hs_stubborn w) then w
             else hs_with_running (hs_running w ∖ {[p]}) w);
  wait_process p w :=
    if bool_decide (p ∈ hs_running w) then (Raise TimeoutExpired, hs_advance (2 * SECOND) w)
    else (Ret (), w);
  kill_process p w := (Ret (), hs_with_running (hs_running w ∖ {[p]}) w);
  host_files := hs_files;
  set_host_files f w :=
    HostSim (hs_now w) (hs_running w) (hs_next_pid w) (hs_opens_at w) (hs_stubborn w) f;
  host_mkstemp w := Some ("/tmp/kubeconfig", w);
}.

#[global] Instance hostsim_clock_laws : ClockLaws hostsim hs_now.
Proof. split; cbn; intros; lia. Qed.

Create HintDb tunnel.

(** ** Processes *)

(** The kubectl processes that run, as far as the host can tell. *)
Class HostLaws (W : Type) `{Clock W} `{Host W} (running : W → gset nat) := {
  running_clock : ∀ w, running (monotonic w).2 ⊆ running w;
  running_sleep : ∀ d w, running (sleep d w) ⊆ running w;
  running_free_port : ∀ w, running (free_port w).2 ⊆ running w;
  running_port_open : ∀ p w, running (port_open p w).2 ⊆ running w;
  running_kubectl_get : ∀ a w, running (kubectl_get a w).2 ⊆ running w;
  running_temporary_file : ∀ w, running (temporary_file w).2 ⊆ running w;
  running_poll : ∀ p w, running (poll p w).2 ⊆ running w;
  running_terminate : ∀ p w, running (terminate_process p w).2 ⊆ running w;
  running_kill : ∀ p w, running (kill_process p w).2 ⊆ running w;
  running_wait : ∀ p w, running (wait_process p w).2 ⊆ running w;
  (** a process that was waited for has ended *)
  running_waited : ∀ p w w', wait_process p w = (Ret (), w') → p ∉ running w';
  (** starting a process adds it and nothing else *)
  running_popen : ∀ a w,
    match popen a w with
    | (Ret p, w') => running w' ⊆ {[p]} ∪ running w
    | (_, w') => running w' ⊆ running w
    end;
  running_files : ∀ f w, running (set_host_files f w) ⊆ running w;
  running_mkstemp : ∀ w p w', host_mkstemp w = Some (p, w') → running w' ⊆ running w;
}.

Section tunnels.
Context {W : Type} {Hclock : Clock W} {Hhost : Host W} (running : W → gset nat)
  {Hlaws : HostLaws W running}.

(** Every running process is the one the tunnel object holds. *)
Definition no_orphans (s : tunnel * W) : Prop :=
  match tn_process s.1 with
  | Some pid => running s.2 ⊆ {[pid]}
  | None => running s.2 ⊆ ∅
  end.

(** Code that starts no process and leaves the object alone. *)
Definition quiet {A} (m : M W A) : Prop := ∀ w, running (m w).2 ⊆ running w.

Lemma no_orphans_mono x w w' : running w' ⊆ running w → no_orphans (x, w) → no_orphans (x, w').
Proof. unfold no_orphans. cbn. intros ?. destruct (tn_process x); set_solver. Qed.

Lemma spec_quiet {A} (m : M W A) :
  quiet m → spec no_orphans (world m) (λ _, no_orphans) no_orphans.
Proof.
  intros Hq. apply spec_world. intros x w Hs. specialize (Hq w).
  destruct (m w) as [[a|e|] w']; [|  |done]; cbn in Hq; by eapply no_orphans_mono.
Qed.

(** ... even with a property of the object that the world does not matter for. *)
Lemma spec_quiet_at {A} (m : M W A) (P : tunnel → Prop) :
  quiet m →
  spec (λ s, no_orphans s ∧ P s.1) (world m) (λ _ s, no_orphans s ∧ P s.1) no_orphans.
Proof.
  intros Hq. apply spec_world. intros x w [Hs HP]. specialize (Hq w).
  destruct (m w) as [[a|e|] w']; [|  |done]; cbn in Hq.
  - split; [by eapply no_orphans_mono|done].
  - by eapply no_orphans_mono.
Qed.

Lemma quiet_read_clock : quiet read_clock.
Proof. intros w. unfold read_clock. pose proof (running_clock w). by destruct (monotonic w). Qed.
Lemma quiet_sleep d : quiet (do_sleep d).
Proof. intros w. apply running_sleep. Qed.

Lemma stop_process_quiet pid : quiet (stop_process pid).
Proof.
  intros w. unfold stop_process, mbind, M_bind, except.
  pose proof (running_terminate pid w). destruct (terminate_process pid w) as [[[]|e|] w1]; try done.
  pose proof (running_wait pid w1). destruct (wait_process pid w1) as [[[]|e|] w2]; cbn in *;
    [set_solver| |set_solver].
  destruct e; cbn; try set_solver. pose proof (running_kill pid w2).
  destruct (kill_process pid w2) as [[[]|e|] w3]; cbn in *; [|set_solver|set_solver].
  pose proof (running_wait pid w3). set_solver.
Qed.

Lemma stop_process_done pid w w' : stop_process pid w = (Ret (), w') → pid ∉ running w'.
Proof.
  unfold stop_process, mbind, M_bind, except.
  destruct (terminate_process pid w) as [[[]|e|] w1]; try done.
  destruct (wait_process pid w1) as [[[]|e|] w2] eqn:E; try done.
  - intros [= <-]. by eapply running_waited.
  - destruct e; try done. destruct (kill_process pid w2) as [[[]|e|] w3]; try done.
    apply running_waited.
Qed.

(** Code that keeps the invariant however it ends. *)
Definition keeps {A} (m : M (tunnel * W) A) : Prop := spec no_orphans m (λ _, no_orphans) no_orphans.

(** Closing keeps a process only if it could not be stopped. *)
Lemma tunnel_close_keeps : keeps tunnel_close.
Proof.
  unfold keeps, tunnel_close. eapply spec_bind with (mid := λ st s, no_orphans s ∧ st = s.1).
  { apply spec_self. by intros s Hs. }
  intros st. eapply spec_bind with (mid := λ _, no_orphans).
  - destruct (tn_process st) as [pid|] eqn:Ep.
    2: { apply spec_ret. by intros s [? _]. }
    eapply spec_except with (mid := no_orphans); [|intros e; apply spec_ret; auto].
    eapply spec_bind with (mid := λ _ s, running s.2 ⊆ ∅).
    + apply spec_world. intros x w [Hs ->]. cbn in Ep.
      pose proof (stop_process_quiet pid w) as Hq. pose proof (stop_process_done pid w) as Hd.
      unfold no_orphans in Hs. cbn in Hs. rewrite Ep in Hs.
      destruct (stop_process pid w) as [[[]|e|] w']; cbn in Hq; [| |done].
      * specialize (Hd w' eq_refl). cbn. set_solver.
      * unfold no_orphans. cbn. rewrite Ep. set_solver.
    + intros _. apply spec_set_self. intros x w Hs. done.
  - intros _. apply spec_set_self. intros x w Hs. unfold no_orphans in *. cbn in *.
    destruct (tn_process x) eqn:E; cbn; [by rewrite E|done].
Qed.

Lemma keeps_bind {A B} (m : M (tunnel * W) A) (k : A → M (tunnel * W) B) :
  keeps m → (∀ a, keeps (k a)) → keeps (m ≫= k).
Proof. apply spec_bind. Qed.
Lemma keeps_then {A B} pre (m : M (tunnel * W) A) (k : A → M (tunnel * W) B) post :
  (∀ s, pre s → no_orphans s) → keeps m → (∀ a, spec no_orphans (k a) post no_orphans) →
  spec pre (m ≫= k) post no_orphans.
Proof.
  intros Hpre Hm Hk. apply spec_bind with (mid := λ _, no_orphans); [|exact Hk].
  eapply spec_weaken; [exact Hm|done|done|done].
Qed.
(** Code that only looks at the world keeps what is known of the object. *)
Lemma quiet_then {A B} P (m : M W A) (k : A → M (tunnel * W) B) post :
  quiet m → (∀ a, spec (λ s, no_orphans s ∧ P s.1) (k a) post no_orphans) →
  spec (λ s, no_orphans s ∧ P s.1) (world m ≫= k) post no_orphans.
Proof. intros Hm Hk. eapply spec_bind; [by apply spec_quiet_at|exact Hk]. Qed.
Lemma keeps_raise {A} e : keeps (raise e : M (tunnel * W) A).
Proof. by apply spec_raise. Qed.
Lemma keeps_ret {A} (a : A) : keeps (mret a).
Proof. by apply spec_ret. Qed.
Lemma keeps_no_fuel {A} : keeps (no_fuel : M (tunnel * W) A).
Proof. apply spec_no_fuel. Qed.
Lemma keeps_self : keeps self.
Proof. by apply spec_self. Qed.
Lemma keeps_quiet {A} (m : M W A) : quiet m → keeps (world m).
Proof. apply spec_quiet. Qed.
(** Setting other attributes does not matter. *)
Lemma keeps_set f : (∀ st, tn_process (f st) = tn_process st) → keeps (set_self f).
Proof. intros Hf. apply spec_set_self. intros x w. unfold no_orphans. cbn. by rewrite Hf. Qed.
Lemma keeps_except {A} (h : exn → option (M (tunnel * W) A)) m :
  keeps m → (∀ e k, h e = Some k → keeps k) → keeps (except h m).
Proof.
  intros Hm Hh. eapply spec_except; [exact Hm|]. intros e. destruct (h e) eqn:E; [by eapply Hh|auto].
Qed.

Lemma quiet_poll pid : quiet (poll pid).
Proof. intros w. apply running_poll. Qed.
Lemma quiet_port_open p : quiet (port_open p).
Proof. intros w. apply running_port_open. Qed.
Lemma quiet_free_port : quiet free_port.
Proof. intros w. apply running_free_port. Qed.
Lemma quiet_kubectl_get a : quiet (kubectl_get a).
Proof. intros w. apply running_kubectl_get. Qed.
Lemma quiet_temporary_file : quiet temporary_file.
Proof. intros w. apply running_temporary_file. Qed.

Lemma quiet_both_open a b : quiet (both_open a b).
Proof.
  intros w. unfold both_open, mbind, M_bind. pose proof (running_port_open a w).
  destruct (port_open a w) as [[[]|e|] w1]; try done. pose proof (running_port_open b w1). cbn in *.
  set_solver.
Qed.

#[local] Hint Resolve keeps_raise keeps_ret keeps_no_fuel keeps_self keeps_quiet keeps_set
  tunnel_close_keeps quiet_read_clock quiet_sleep quiet_poll quiet_port_open quiet_free_port
  quiet_kubectl_get quiet_temporary_file quiet_both_open : tunnel.
(** One command at a time; [case] splits what the command decides on. *)
#[local] Ltac keep := repeat first
  [ solve [eauto with tunnel]
  | apply keeps_bind; [|intros]
  | match goal with |- keeps (match ?x with _ => _ end) => destruct x end ].

Lemma live_url_keeps : keeps live_url.
Proof. unfold live_url. keep. Qed.

(** After the old tunnel is dropped no process is left. *)
Lemma drop_old_tunnel_spec :
  spec no_orphans drop_old_tunnel (λ _ s, no_orphans s ∧ tn_process s.1 = None) no_orphans.
Proof.
  unfold drop_old_tunnel. eapply spec_bind with (mid := λ st s, no_orphans s ∧ st = s.1).
  { by apply spec_self. }
  intros st. destruct (tn_process st) as [pid|] eqn:E.
  2: { apply spec_ret. by intros s [? ->]. }
  apply keeps_then; [by intros ? [? _]|apply tunnel_close_keeps|].
  intros _. eapply spec_bind with (mid := λ st s, no_orphans s ∧ st = s.1).
  { by apply spec_self. }
  intros st'. destruct (tn_process st') eqn:E'.
  - apply spec_raise. by intros s [? _].
  - apply spec_ret. by intros s [? ->].
Qed.

(** A started process is the one the object holds. *)
Lemma start_process_spec argv :
  spec (λ s, no_orphans s ∧ tn_process s.1 = None) (start_process argv)
    (λ pid s, no_orphans s ∧ tn_process s.1 = Some pid) no_orphans.
Proof.
  unfold start_process.
  apply (quiet_then (λ x, tn_process x = None)); [apply quiet_temporary_file|].
  intros _. eapply spec_bind with (mid := λ _ s, no_orphans s ∧ tn_process s.1 = None).
  { apply spec_set_self. intros x w [Hs Hn]. by unfold no_orphans in *; cbn in *. }
  intros _. eapply spec_bind with (mid := λ pid s, running s.2 ⊆ {[pid]}).
  - eapply spec_except with (mid := λ s, no_orphans s).
    + apply spec_world. intros x w [Hs Hn]. cbn in Hn. pose proof (running_popen argv w) as Hp.
      unfold no_orphans in *. cbn in *. rewrite Hn in *.
      destruct (popen argv w) as [[pid|e|] w']; cbn; [set_solver|set_solver|done].
    + intros e. apply keeps_then; [done|by apply keeps_set|]. intros _. by apply spec_raise.
  - intros pid. eapply spec_bind with (mid := λ _ s, no_orphans s ∧ tn_process s.1 = Some pid).
    + apply spec_set_self. intros x w Hs. by unfold no_orphans; cbn.
    + intros _. by apply spec_ret.
Qed.

(** The wait keeps the invariant, and returns once the process was seen alive
    and the ports open. *)
Lemma wait_ready_spec pid start timeout ready publish url fuel :
  quiet ready → (∀ st, tn_process (publish st) = tn_process st) →
  (∀ st, tn_base_url (publish st) = Some url) →
  spec (λ s, no_orphans s ∧ tn_process s.1 = Some pid)
    (wait_ready pid start timeout ready publish url fuel)
    (λ u s, no_orphans s ∧ u = url ∧ tn_base_url s.1 = Some url ∧ tn_process s.1 = Some pid ∧
            ∃ w w' w'', poll pid w = (Ret None, w') ∧ ready w' = (Ret true, w'')) no_orphans.
Proof.
  intros Hr Hp Hu. induction fuel as [|fuel IH]; cbn [wait_ready];
    (apply (quiet_then (λ x, tn_process x = Some pid)); [apply quiet_read_clock|]);
    intros now; destruct (_ <? _).
  1: apply spec_no_fuel.
  1,3: apply keeps_then; [by intros ? [? _]|apply tunnel_close_keeps|intros _; by apply spec_raise].
  eapply spec_bind with (mid := λ code s, no_orphans s ∧ tn_process s.1 = Some pid ∧
                                          ∃ w, poll pid w = (Ret code, s.2)).
  { apply spec_world. intros x w [Hs Hx]. pose proof (running_poll pid w).
    destruct (poll pid w) as [[a|e|] w'] eqn:E; cbn in *; [|by eapply no_orphans_mono|done].
    split_and!; [by eapply no_orphans_mono|done|by exists w]. }
  intros [code|]; [apply spec_raise; by intros s [? _]|].
  eapply spec_bind with (mid := λ ok s, no_orphans s ∧ tn_process s.1 = Some pid ∧
                       (ok = true → ∃ w w' w'', poll pid w = (Ret None, w') ∧ ready w' = (Ret true, w''))).
  { apply spec_world. intros x w [Hs [Hx [w0 Hw0]]]. pose proof (Hr w).
    destruct (ready w) as [[ok|e|] w'] eqn:E; cbn in *; [|by eapply no_orphans_mono|done].
    split_and!; [by eapply no_orphans_mono|done|]. intros ->. by exists w0, w, w'. }
  intros [].
  - eapply spec_bind with (mid := λ _ s, no_orphans s ∧ tn_base_url s.1 = Some url ∧
        tn_process s.1 = Some pid ∧ ∃ w w' w'', poll pid w = (Ret None, w') ∧ ready w' = (Ret true, w'')).
    + apply spec_set_self. intros x w (Hs & Hx & Hw). unfold no_orphans in *. cbn in *.
      rewrite Hp. split_and!; [by destruct (tn_process x)|by rewrite Hu|done|by apply Hw].
    + intros _. apply spec_ret. by intros s (? & ? & ? & ?).
  - eapply spec_weaken with (pre' := λ s, no_orphans s ∧ tn_process s.1 = Some pid);
      [|by intros ? (? & ? & _)|intros ? ? Hpost; exact Hpost|intros ? Hfin; exact Hfin].
    apply (quiet_then (λ x, tn_process x = Some pid)); [apply quiet_sleep|intros _; exact IH].
Qed.

Lemma preflight_keeps cfg kube_args P :
  spec (λ s, no_orphans s ∧ P s.1) (preflight_check_router_service cfg kube_args)
    (λ _ s, no_orphans s ∧ P s.1) no_orphans.
Proof.
  unfold preflight_check_router_service.
  eapply spec_except with (mid := λ s, no_orphans s ∧ P s.1).
  - eapply spec_bind with (mid := λ _ s, no_orphans s ∧ P s.1).
    + apply spec_world. intros x w [Hs HP]. pose proof (running_kubectl_get
        (["kubectl"; "get"; ROUTER_SERVICE_NAME; "-n"; router_namespace cfg] ++ kube_args) w).
      destruct (kubectl_get _ w) as [[a|e|] w']; [| |done]; (split; [by eapply no_orphans_mono|done]).
    + intros [code err]. destruct (_ && _); [by apply spec_raise|by apply spec_ret].
  - intros []; first [by apply spec_ret|by intros s [? _]].
Qed.

(** What a returned URL means. *)
Definition connected (url : string) (st : tunnel) : Prop :=
  tn_base_url st = Some url ∧ ∃ pid w w', tn_process st = Some pid ∧ poll pid w = (Ret None, w').

Lemma local_start_tunnel_spec fuel cfg kube_args :
  spec (λ s, no_orphans s ∧ tn_process s.1 = None) (local_start_tunnel fuel cfg kube_args)
    (λ url s, no_orphans s ∧ connected url s.1) no_orphans.
Proof.
  unfold local_start_tunnel.
  eapply spec_bind; [apply (preflight_keeps _ _ (λ x, tn_process x = None))|intros []].
  apply (quiet_then (λ x, tn_process x = None)); [apply quiet_free_port|intros port].
  eapply spec_bind; [apply start_process_spec|intros pid].
  apply (quiet_then (λ x, tn_process x = Some pid)); [apply quiet_read_clock|intros start].
  eapply spec_weaken; [by apply wait_ready_spec; [apply quiet_port_open|..]|done| |done].
  intros u s (Hs & -> & Hu & Hp & w & w' & _ & Hw & _). split; [done|].
  split; [done|by exists pid, w, w'].
Qed.

Lemma pod_start_tunnel_spec fuel cfg namespace pod_name kube_args :
  spec (λ s, no_orphans s ∧ tn_process s.1 = None)
    (pod_start_tunnel fuel cfg namespace pod_name kube_args)
    (λ url s, no_orphans s ∧ connected url s.1) no_orphans.
Proof.
  unfold pod_start_tunnel.
  apply (quiet_then (λ x, tn_process x = None)); [apply quiet_read_clock|intros start].
  apply (quiet_then (λ x, tn_process x = None)); [apply quiet_free_port|intros rest].
  apply (quiet_then (λ x, tn_process x = None)); [apply quiet_free_port|intros grpc].
  eapply spec_bind; [apply start_process_spec|intros pid].
  eapply spec_weaken; [by apply wait_ready_spec; [apply quiet_both_open|..]|done| |done].
  intros u s (Hs & -> & Hu & Hp & w & w' & _ & Hw & _). split; [done|].
  split; [done|by exists pid, w, w'].
Qed.

Lemma spec_files pre f (P : tunnel → Prop) :
  (∀ s, pre s → no_orphans s ∧ P s.1) →
  spec pre (modify (λ s : tunnel * W, (s.1, set_host_files (f s) s.2)))
    (λ _ s, no_orphans s ∧ P s.1) no_orphans.
Proof.
  intros Hpre s Hs. destruct (Hpre s Hs) as [Ho HP]. destruct s as [x w]. cbn.
  split; [|done]. eapply no_orphans_mono; [apply running_files|done].
Qed.

(** The kubeconfig file is no matter of processes. *)
Lemma with_kubeconfig_spec {A} api_client (body : list string → M (tunnel * W) A) P Q :
  (∀ args, spec (λ s, no_orphans s ∧ P s.1) (body args) (λ a s, no_orphans s ∧ Q a s.1) no_orphans) →
  spec (λ s, no_orphans s ∧ P s.1) (with_kubeconfig api_client body)
    (λ a s, no_orphans s ∧ Q a s.1) no_orphans.
Proof.
  intros Hb. unfold with_kubeconfig, kubectl_kubeconfig_args. destruct api_client as [ac|]; [|apply Hb].
  intros [x w] [Hs HP]. unfold temporary_kubeconfig. cbn [fst snd].
  destruct (host_mkstemp w) as [[path w1]|] eqn:Em; [|done].
  apply running_mkstemp in Em.
  refine (spec_finally (λ s, no_orphans s ∧ P s.1) _ _ (λ a s, no_orphans s ∧ Q a s.1) no_orphans
            no_orphans (λ a s, no_orphans s ∧ Q a s.1) _ _ _ (x, w1) _).
  - eapply spec_bind; [apply (spec_files _ _ P); auto|intros []; apply Hb].
  - intros a. apply spec_files. auto.
  - eapply spec_weaken; [apply (spec_files no_orphans _ (λ _, True)); auto|auto|by intros ? ? [? _]|auto].
  - split; [by eapply no_orphans_mono|done].
Qed.

Lemma live_url_spec :
  spec no_orphans live_url
    (λ u s, no_orphans s ∧ ∀ url, u = Some url → connected url s.1) no_orphans.
Proof.
  unfold live_url. eapply spec_bind with (mid := λ st s, no_orphans s ∧ st = s.1).
  { by apply spec_self. }
  intros st. destruct (tn_process st) as [pid|] eqn:Ep; [|apply spec_ret; by intros s [? _]].
  destruct (truthy_str_opt (tn_base_url st)); [|apply spec_ret; by intros s [? _]].
  eapply spec_bind with (mid := λ code s, no_orphans s ∧ st = s.1 ∧
                                          ∃ w w', poll pid w = (Ret code, w')).
  - apply spec_world. intros x w [Hs Hx]. pose proof (running_poll pid w).
    destruct (poll pid w) as [[a|e|] w'] eqn:E; cbn in *; [|by eapply no_orphans_mono|done].
    split_and!; [by eapply no_orphans_mono|done|by exists w, w'].
  - intros [code|]; apply spec_ret; intros s (Hs & -> & w & w' & Hw); [done|].
    split; [done|]. intros url Hu. split; [done|by exists pid, w, w'].
Qed.

Lemma local_connect_spec fuel cfg api_client :
  spec no_orphans (local_connect fuel cfg api_client)
    (λ url s, no_orphans s ∧ connected url s.1) no_orphans.
Proof.
  unfold local_connect. eapply spec_bind; [apply live_url_spec|].
  intros [url|]; [apply spec_ret; intros s [? Hc]; auto|].
  eapply spec_bind with (mid := λ _ s, no_orphans s ∧ tn_process s.1 = None).
  { eapply spec_weaken; [apply drop_old_tunnel_spec|by intros ? [? _]|auto|auto]. }
  intros []. apply (with_kubeconfig_spec _ _ (λ st, tn_process st = None) connected).
  intros args. apply local_start_tunnel_spec.
Qed.

Lemma pod_connect_spec fuel cfg namespace get_pod_name api_client :
  (∀ f, get_pod_name = Some f → quiet f) →
  spec no_orphans (pod_connect fuel cfg namespace get_pod_name api_client)
    (λ url s, no_orphans s ∧ connected url s.1) no_orphans.
Proof.
  intros Hq. unfold pod_connect. eapply spec_bind; [apply live_url_spec|].
  intros [url|]; [apply spec_ret; intros s [? Hc]; auto|].
  eapply spec_bind with (mid := λ _ s, no_orphans s ∧ tn_process s.1 = None).
  { eapply spec_weaken; [apply drop_old_tunnel_spec|by intros ? [? _]|auto|auto]. }
  intros []. eapply spec_bind with (mid := λ _ s, no_orphans s ∧ tn_process s.1 = None).
  { destruct get_pod_name as [f|]; [|by apply spec_ret].
    apply (spec_quiet_at _ (λ st, tn_process st = None)). auto. }
  intros name. destruct (str_or name None) as [pod_name|]; [|apply spec_raise; by intros s [? _]].
  apply (with_kubeconfig_spec _ _ (λ st, tn_process st = None) connected).
  intros args. apply pod_start_tunnel_spec.
Qed.

Lemma tunnel_verify_keeps : keeps tunnel_verify.
Proof. unfold tunnel_verify. keep. Qed.

(** ** Sequences of calls *)

(** What a caller can do with a tunnel object. *)
Inductive tunnel_call :=
  | LocalConnect (fuel : nat) (cfg : SandboxLocalTunnelConnectionConfig) (c : option ApiClient)
  | PodConnect (fuel : nat) (cfg : SandboxdPodTunnelConnectionConfig) (namespace : string)
      (get_pod_name : option (M W (option string))) (c : option ApiClient)
  | CloseTunnel
  | VerifyTunnel.

Definition call_tunnel (c : tunnel_call) : M (tunnel * W) (option string) :=
  match c with
  | LocalConnect fuel cfg ac => u ← local_connect fuel cfg ac; mret (Some u)
  | PodConnect fuel cfg ns f ac => u ← pod_connect fuel cfg ns f ac; mret (Some u)
  | CloseTunnel => _ ← tunnel_close; mret None
  | VerifyTunnel => _ ← tunnel_verify; mret None
  end.

Definition call_ok (c : tunnel_call) : Prop :=
  match c with PodConnect _ _ _ (Some f) _ => quiet f | _ => True end.

Lemma call_tunnel_spec c :
  call_ok c →
  spec no_orphans (call_tunnel c)
    (λ u s, no_orphans s ∧ ∀ url, u = Some url → connected url s.1) no_orphans.
Proof.
  intros Hc. destruct c as [fuel cfg ac|fuel cfg ns f ac| |]; cbn [call_tunnel].
  - eapply spec_bind; [apply local_connect_spec|]. intros u. apply spec_ret.
    intros s [? ?]. split; [done|]. by intros ? [= ->].
  - eapply spec_bind; [apply pod_connect_spec; by intros g ->|]. intros u. apply spec_ret.
    intros s [? ?]. split; [done|]. by intros ? [= ->].
  - apply keeps_then; [done|apply tunnel_close_keeps|]. intros _. by apply spec_ret.
  - apply keeps_then; [done|apply tunnel_verify_keeps|]. intros _. by apply spec_ret.
Qed.

(** The state of the object after calls whose callers catch what is raised. *)
Fixpoint run_calls (cs : list tunnel_call) (s : tunnel * W) : option (tunnel * W) :=
  match cs with
  | [] => Some s
  | c :: cs' =>
      match call_tunnel c s with
      | (NoFuel, _) => None
      | (_, s') => run_calls cs' s'
      end
  end.

Lemma run_calls_no_orphans cs s s' :
  Forall call_ok cs → no_orphans s → run_calls cs s = Some s' → no_orphans s'.
Proof.
  revert s. induction cs as [|c cs IH]; intros s Hok Hs H; [by simplify_eq/=|].
  apply Forall_cons in Hok as [Hc Hok]. pose proof (call_tunnel_spec c Hc s Hs) as Hspec.
  cbn [run_calls] in H. destruct (call_tunnel c s) as [[u|e|] s1]; [|by eapply IH|done].
  eapply IH; [done|apply Hspec|done].
Qed.

(** C13. Whatever sequence of connects, closes and checks a tunnel object goes
    through, and whichever of them raise, every kubectl port-forward process
    still running is the one the object holds, so a later close can stop it: a
    reconnect, a start-up timeout or a failed start never leaves one behind. *)
Theorem tunnel_no_orphan_process (w : W) (cs : list tunnel_call) (st : tunnel) (w' : W) :
  running w = ∅ → Forall call_ok cs → run_calls cs (tunnel_new, w) = Some (st, w') →
  ∀ pid, pid ∈ running w' → tn_process st = Some pid.
Proof.
  intros Hw Hok H pid Hpid.
  assert (no_orphans (tunnel_new, w)) as H0 by (unfold no_orphans; cbn; set_solver).
  pose proof (run_calls_no_orphans _ _ _ Hok H0 H) as Hs. unfold no_orphans in Hs. cbn in Hs.
  destruct (tn_process st) as [pid'|]; [|set_solver]. f_equal. set_solver.
Qed.

(** A URL that connecting a tunnel returns is the one the object publishes,
    and the object's kubectl process was found alive before it was returned: a
    tunnel whose process has ended is never reused. *)
Theorem tunnel_connect_live (c : tunnel_call) s url s' :
  call_ok c → no_orphans s → call_tunnel c s = (Ret (Some url), s') →
  tn_base_url s'.1 = Some url ∧
  ∃ pid w w', tn_process s'.1 = Some pid ∧ poll pid w = (Ret None, w').
Proof.
  intros Hc Hs H. pose proof (call_tunnel_spec c Hc s Hs) as Hspec. rewrite H in Hspec.
  by apply Hspec.
Qed.
End tunnels.

(** ** Time *)

(** Calls to the host return or raise, and time does not run backwards. *)
Abbreviation takes_time clock := (ends (on_clock Z.le clock)).

Class HostTime (W : Type) `{Host W} (clock : W → Z) := {
  time_free_port : takes_time clock free_port;
  time_port_open : ∀ p, takes_time clock (port_open p);
  time_kubectl_get : ∀ a, takes_time clock (kubectl_get a);
  time_temporary_file : takes_time clock temporary_file;
  time_popen : ∀ a, takes_time clock (popen a);
  time_poll : ∀ p, takes_time clock (poll p);
  time_terminate : ∀ p, takes_time clock (terminate_process p);
  time_kill : ∀ p, takes_time clock (kill_process p);
  time_wait : ∀ p, takes_time clock (wait_process p);
  time_files : ∀ f w, clock (set_host_files f w) = clock w;
  time_mkstemp : ∀ w p w', host_mkstemp w = Some (p, w') → clock w ≤ clock w';
}.

Section time.
Context {W : Type} {Hclock : Clock W} {Hhost : Host W} (clock : W → Z).
Context {Hclocklaws : ClockLaws W clock} {Htime : HostTime W clock}.

(** Code on the object that ends, with time going on. *)
Abbreviation goes_on := (ends (on_world (X := tunnel) (on_clock Z.le clock))).

(** ... when the clock has reached [t]. *)
Definition ends_from {A} (t : Z) (m : M (tunnel * W) A) : Prop :=
  ∀ s, t ≤ clock s.2 → (m s).1 ≠ NoFuel.

Lemma ends_from_bind {A B} t (m : M (tunnel * W) A) (k : A → M (tunnel * W) B) :
  goes_on m → (∀ a, ends_from t (k a)) → ends_from t (m ≫= k).
Proof.
  intros Hm Hk s Hs. unfold mbind, M_bind. specialize (Hm s) as [Hn Hc]. unfold on_world, on_clock in Hc.
  destruct (m s) as [[a|e|] s1]; cbn in *; [|done|done]. apply Hk. lia.
Qed.

Lemma ends_start {A} t (m : M (tunnel * W) A) : goes_on m → ends_from t m.
Proof. intros Hm s _. apply Hm. Qed.

Lemma takes_time_clock : takes_time clock read_clock.
Proof.
  intros w. unfold read_clock, on_clock. pose proof (monotonic_mono w). pose proof (monotonic_reads w).
  destruct (monotonic w). cbn in *. split; [done|lia].
Qed.
Lemma takes_time_sleep : takes_time clock (do_sleep POLL_INTERVAL).
Proof.
  intros w. split; [done|]. change (clock w ≤ clock (sleep POLL_INTERVAL w)).
  pose proof (sleep_waits POLL_INTERVAL w). assert (0 ≤ POLL_INTERVAL) by done. lia.
Qed.
Lemma ends_from_sleep {B} t (k : () → M (tunnel * W) B) :
  (∀ u, ends_from (t + POLL_INTERVAL) (k u)) → ends_from t (world (do_sleep POLL_INTERVAL) ≫= k).
Proof.
  intros Hk [st w] Hs. apply Hk. cbn [fst snd] in *. pose proof (sleep_waits POLL_INTERVAL w).
  assert (0 ≤ POLL_INTERVAL) by done. lia.
Qed.
#[local] Hint Resolve time_terminate time_wait time_kill time_port_open : ends.
Lemma takes_time_stop pid : takes_time clock (stop_process pid).
Proof. unfold stop_process. ends. Qed.
Lemma takes_time_both a b : takes_time clock (both_open a b).
Proof. unfold both_open. ends. Qed.

#[local] Hint Resolve takes_time_clock takes_time_sleep takes_time_stop takes_time_both time_free_port
  time_port_open time_kubectl_get time_temporary_file time_popen time_poll : ends.

Lemma ends_close : goes_on tunnel_close.
Proof. unfold tunnel_close. ends. Qed.
#[local] Hint Resolve ends_close : ends.
Lemma ends_live_url : goes_on live_url.
Proof. unfold live_url. ends. Qed.
Lemma ends_drop : goes_on drop_old_tunnel.
Proof. unfold drop_old_tunnel. ends. Qed.
Lemma ends_start_process argv : goes_on (start_process argv).
Proof. unfold start_process. ends. Qed.
Lemma ends_preflight cfg args : goes_on (preflight_check_router_service cfg args).
Proof. unfold preflight_check_router_service. ends. Qed.

(** Each round of the wait sleeps 50 ms, so [20 * timeout] rounds are enough. *)
Lemma wait_ready_ends pid start timeout ready publish url fuel t :
  takes_time clock ready →
  start + timeout * SECOND ≤ t + Z.of_nat fuel * POLL_INTERVAL →
  ends_from t (wait_ready pid start timeout ready publish url fuel).
Proof.
  intros Hr. revert t. induction fuel as [|fuel IH]; intros t Ht; cbn [wait_ready];
    intros [st w] Hs; unfold mbind at 1, M_bind at 1, world at 1, read_clock; cbn [fst snd] in *;
    pose proof (monotonic_mono w); pose proof (monotonic_reads w);
    destruct (monotonic w) as [now w1]; cbn [fst snd] in *;
    (destruct (Z.ltb_spec (now - start) (timeout * SECOND));
     [|apply (ends_start (clock w1) (_ ← tunnel_close; raise TimeoutError)); [ends|done]]).
  - lia.
  - assert (t ≤ clock (st, w1).2) as Ht1 by (cbn [snd]; lia). revert Ht1. generalize (st, w1).
    change (ends_from t (code ← world (poll pid); match code with
      | Some _ => raise SandboxPortForwardError
      | None => ok ← world ready; if ok : bool then _ ← set_self publish; mret url
                else _ ← world (do_sleep POLL_INTERVAL);
                     wait_ready pid start timeout ready publish url fuel end)).
    apply ends_from_bind; [ends|]. intros [code|]; [apply ends_start; ends|].
    apply ends_from_bind; [ends|]. intros []; [apply ends_start; ends|].
    apply ends_from_sleep. intros _. apply IH. lia.
Qed.

(** How many rounds of the wait a timeout allows. *)
Definition tunnel_fuel (timeout : Z) : nat := Z.to_nat (20 * timeout).

Lemma tunnel_fuel_enough timeout fuel :
  (tunnel_fuel timeout ≤ fuel)%nat → timeout * SECOND ≤ Z.of_nat fuel * POLL_INTERVAL.
Proof. unfold tunnel_fuel. change POLL_INTERVAL with 50000000. unfold SECOND. lia. Qed.

Lemma local_start_ends fuel cfg args :
  (tunnel_fuel (lt_port_forward_ready_timeout cfg) ≤ fuel)%nat →
  ∀ s, (local_start_tunnel fuel cfg args s).1 ≠ NoFuel.
Proof.
  intros Hf s. apply (ends_from_bind (clock s.2)); [apply ends_preflight| |done]. intros _.
  apply ends_from_bind; [ends|]. intros port.
  apply ends_from_bind; [apply ends_start_process|]. intros pid [st w] _.
  unfold mbind, M_bind, world, read_clock. cbn [fst snd].
  pose proof (monotonic_reads w). destruct (monotonic w) as [now w1]. cbn [fst snd] in *.
  eapply wait_ready_ends; [ends| |reflexivity]. apply tunnel_fuel_enough in Hf. cbn [snd]. lia.
Qed.

Lemma pod_start_ends fuel cfg namespace pod_name args :
  (tunnel_fuel (pt_port_forward_ready_timeout cfg) ≤ fuel)%nat →
  ∀ s, (pod_start_tunnel fuel cfg namespace pod_name args s).1 ≠ NoFuel.
Proof.
  intros Hf [st w]. unfold pod_start_tunnel, mbind at 1, M_bind at 1, world at 1, read_clock.
  cbn [fst snd]. pose proof (monotonic_reads w). destruct (monotonic w) as [now w1]. cbn [fst snd] in *.
  refine (ends_from_bind now _ _ _ _ (st, w1) _); [ends| |cbn [snd]; lia]. intros rest.
  apply ends_from_bind; [ends|]. intros grpc.
  apply ends_from_bind; [apply ends_start_process|]. intros pid.
  apply wait_ready_ends; [ends|]. apply tunnel_fuel_enough in Hf. lia.
Qed.

Lemma with_kubeconfig_ends {A} api_client (body : list string → M (tunnel * W) A) s :
  (∀ args s, (body args s).1 ≠ NoFuel) → (with_kubeconfig api_client body s).1 ≠ NoFuel.
Proof.
  intros Hb. unfold with_kubeconfig, kubectl_kubeconfig_args. destruct api_client as [ac|]; [|apply Hb].
  unfold temporary_kubeconfig. destruct (host_mkstemp s.2) as [[path w1]|]; [|done].
  unfold finally, mbind, M_bind, modify. cbn [fst snd].
  match goal with |- context [body ?a ?s] => pose proof (Hb a s); destruct (body a s) as [[]] end; done.
Qed.

Lemma local_connect_ends fuel cfg ac s :
  (tunnel_fuel (lt_port_forward_ready_timeout cfg) ≤ fuel)%nat →
  (local_connect fuel cfg ac s).1 ≠ NoFuel.
Proof.
  intros Hf. apply (ends_from_bind (clock s.2)); [apply ends_live_url| |done].
  intros [url|]; [apply ends_start; ends|]. apply ends_from_bind; [apply ends_drop|].
  intros _ s1 _. apply with_kubeconfig_ends. intros args s2. by apply local_start_ends.
Qed.

Lemma pod_connect_ends fuel cfg namespace get_pod_name ac s :
  (tunnel_fuel (pt_port_forward_ready_timeout cfg) ≤ fuel)%nat →
  (∀ f, get_pod_name = Some f → takes_time clock f) →
  (pod_connect fuel cfg namespace get_pod_name ac s).1 ≠ NoFuel.
Proof.
  intros Hf Hg. apply (ends_from_bind (clock s.2)); [apply ends_live_url| |done].
  intros [url|]; [apply ends_start; ends|]. apply ends_from_bind; [apply ends_drop|].
  intros _. apply ends_from_bind; [destruct get_pod_name; [apply ends_world; auto|ends]|].
  intros name. destruct (str_or name None); [|apply ends_start; ends].
  intros s1 _. apply with_kubeconfig_ends. intros args s2. by apply pod_start_ends.
Qed.

Lemma then_ret_ends {A B} (m : M (tunnel * W) A) (f : A → B) s :
  (m s).1 ≠ NoFuel → ((a ← m; mret (f a)) s).1 ≠ NoFuel.
Proof. unfold mbind, M_bind. by destruct (m s) as [[]]. Qed.

(** Connecting a tunnel always ends, with the URL or an exception, within
    the rounds its timeout allows: every round of the wait sleeps 50 ms, so 20
    rounds per second of timeout are enough, whatever kubectl and the ports
    do. *)
Theorem tunnel_connect_terminates (c : tunnel_call) (s : tunnel * W) :
  match c with
  | LocalConnect fuel cfg _ => (tunnel_fuel (lt_port_forward_ready_timeout cfg) ≤ fuel)%nat
  | PodConnect fuel cfg _ get_pod_name _ =>
      (tunnel_fuel (pt_port_forward_ready_timeout cfg) ≤ fuel)%nat ∧
      ∀ f, get_pod_name = Some f → takes_time clock f
  | _ => True
  end →
  (call_tunnel c s).1 ≠ NoFuel.
Proof.
  intros Hc. destruct c as [fuel cfg ac|fuel cfg ns f ac| |]; cbn [call_tunnel].
  - by apply then_ret_ends, local_connect_ends.
  - destruct Hc. by apply then_ret_ends, pod_connect_ends.
  - apply then_ret_ends, ends_close.
  - apply then_ret_ends. unfold tunnel_verify. apply (ends_start (clock s.2)); [ends|done].
Qed.
End time.

#[global] Instance hostsim_laws : HostLaws hostsim hs_running.
Proof.
  split; intros; cbn in *; repeat case_bool_decide; cbn; try set_solver; simplify_eq; done.
Qed.

#[global] Instance hostsim_time : HostTime hostsim hs_now.
Proof.
  split; unfold ends, on_clock; intros; cbn in *; simplify_eq; repeat case_bool_decide; cbn;
    first [split; [done|cbn; unfold SECOND; lia]|lia].
Qed.

(** The ports open after five seconds: the first connect, which waits one second,
    times out and stops its process although the process ignores [terminate];
    the second connect waits long enough. *)
Definition slow_host : hostsim := HostSim 0 ∅ 1 (5 * SECOND) {[1%nat]} ∅.

Definition two_connects : list (tunnel_call (W := hostsim)) :=
  [LocalConnect 30 (LocalTunnelConfig 1 8888 "default") None;
   LocalConnect 200 (LocalTunnelConfig 9 8888 "default") None].

Lemma tunnel_no_orphan_process_witness :
  ∃ st w', run_calls two_connects (tunnel_new, slow_host) = Some (st, w') ∧
    hs_running w' = {[2%nat]} ∧ (∀ pid, pid ∈ hs_running w' → tn_process st = Some pid).
Proof.
  destruct (run_calls two_connects (tunnel_new, slow_host)) as [[st w']|] eqn:E;
    [|exfalso; vm_compute in E; done].
  exists st, w'. split; [done|]. split; [vm_compute in E; simplify_eq; reflexivity|].
  refine (tunnel_no_orphan_process hs_running slow_host two_connects st w' eq_refl _ E).
  repeat constructor.
Defined.

Lemma tunnel_connect_terminates_witness :
  (call_tunnel (LocalConnect 20 (LocalTunnelConfig 1 8888 "default") None) (tunnel_new, slow_host)).1
    ≠ NoFuel ∧
  (call_tunnel (LocalConnect 20 (LocalTunnelConfig 1 8888 "default") None) (tunnel_new, slow_host)).1
    = Raise TimeoutError.
Proof.
  split; [|vm_compute; reflexivity].
  apply (tunnel_connect_terminates hs_now (LocalConnect 20 (LocalTunnelConfig 1 8888 "default") None)).
  vm_compute. lia.
Defined.

Lemma tunnel_connect_live_witness :
  ∃ s', call_tunnel (LocalConnect 200 (LocalTunnelConfig 9 8888 "default") None) (tunnel_new, slow_host)
          = (Ret (Some "http://127.0.0.1:40000"), s') ∧
        tn_base_url s'.1 = Some "http://127.0.0.1:40000".
Proof.
  destruct (call_tunnel (LocalConnect 200 (LocalTunnelConfig 9 8888 "default") None)
              (tunnel_new, slow_host)) as [r s'] eqn:E.
  exists s'. assert (r = Ret (Some "http://127.0.0.1:40000")) as -> by (vm_compute in E; congruence).
  split; [done|]. refine (proj1 (tunnel_connect_live hs_running _ _ _ _ _ _ E)); [exact I|vm_compute; done].
Defined.
