(* ===== verification/Connector.v ===== *)
(** [SandboxConnector] of [connector.py]: strategy selection, the request path
    with its headers and failure handling, the gRPC channel cache and the
    in-cluster transport token. *)

From Stdlib Require Import Ascii String ZArith QArith Lia.
From stdpp Require Import base option list strings gmap pretty sets.
From S2P Require Import Prelude Json IpAddress PyText Models Utils World K8sHelper Http Tunnel.

#[local] Open Scope Z_scope.

(** ** Error bodies and timeouts *)

Definition ERROR_BODY_LIMIT : Z := 64 * 1024.

(** The loop of [_capture_streamed_error_body]: the chunks kept. *)
Fixpoint capture_chunks (captured : Z) (chunks : list bytes) : list bytes :=
  match chunks with
  | [] => []
  | [] :: chunks' => capture_chunks captured chunks'
  | chunk :: chunks' =>
      let remaining := ERROR_BODY_LIMIT - captured in
      if remaining <=? 0 then []
      else
        let chunk := take (Z.to_nat remaining) chunk in
        let captured := captured + Z.of_nat (length chunk) in
        if ERROR_BODY_LIMIT <=? captured then [chunk] else chunk :: capture_chunks captured chunks'
  end.

(** The body left on the response: [None] when reading it failed first. *)
Definition capture_streamed_error_body (resp : response) : option bytes :=
  match resp_error resp with
  | None => Some (concat (capture_chunks 0 (resp_chunks resp)))
  | Some _ =>
      let kept := concat (capture_chunks 0 (resp_chunks resp)) in
      if ERROR_BODY_LIMIT <=? Z.of_nat (length kept) then Some kept else None
  end.

(** [_router_timeout_header_value]; [number_str] is [str] of a number. A [bool]
    is among the other objects. *)
Definition router_timeout_header_value (number_str : py_number → string) (timeout : py_timeout)
    : option string :=
  let value := match timeout with
               | TNumber v => Some v
               | TTuple vs => mjoin (last vs)
               | TNone | TOther => None
               end in
  match value with
  | Some v => if finite_positive v then Some (number_str v) else None
  | None => None
  end.

(** ** State *)

Inductive strategy :=
  | StDirect
  | StGateway (base_url : option string)
  | StLocalTunnel (t : tunnel)
  | StInCluster (s : in_cluster)
  | StPodTunnel (t : tunnel)
  | StInClusterd (s : in_clusterd).

(** The fields [send_request], [connect] and [close] change. The gRPC channel is
    kept with its target; a transport token is a number, a new one is the next. *)
Record conn := Conn {
  cn_pod_ip : option string;
  cn_pod_ip_resolved : bool;
  cn_pod_ip_auth_failed : bool;
  cn_channel : option (nat * string);
  cn_incluster_target : option string;
  cn_token : nat;
  cn_strategy : strategy;
}.

(** The fields fixed by the constructor. *)
Record conn_config := ConnConfig {
  cc_id : string;
  cc_namespace : string;
  cc_connection : SandboxConnectionConfig;
  cc_api_client : option ApiClient;
}.

(** [_connection_strategy] *)
Definition connection_strategy (c : SandboxConnectionConfig) : strategy :=
  match c with
  | CDirect _ => StDirect
  | CGateway _ => StGateway None
  | CLocalTunnel _ => StLocalTunnel tunnel_new
  | CInCluster _ => StInCluster (InCluster false None)
  | CSandboxdPodTunnel _ => StPodTunnel tunnel_new
  | CSandboxdInCluster _ => StInClusterd (InClusterd None None)
  end.

Definition conn_new (c : conn_config) : conn :=
  Conn None false false None None 0 (connection_strategy (cc_connection c)).

Definition conn_is_sandboxd (c : SandboxConnectionConfig) : bool :=
  match c with CSandboxdPodTunnel _ | CSandboxdInCluster _ => true | _ => false end.

Definition is_clusterd (st : strategy) : bool :=
  match st with StInClusterd _ => true | _ => false end.

Definition should_inject_router_headers (st : strategy) : bool :=
  match st with StDirect | StGateway _ | StLocalTunnel _ => true | _ => false end.

Definition strategy_grpc_target (st : strategy) : option string :=
  match st with
  | StPodTunnel t => tn_grpc_target t
  | StInClusterd s => icd_grpc_target s
  | _ => None
  end.

Definition with_strategy (st : strategy) (c : conn) : conn :=
  Conn (cn_pod_ip c) (cn_pod_ip_resolved c) (cn_pod_ip_auth_failed c) (cn_channel c)
    (cn_incluster_target c) (cn_token c) st.
Definition with_pod_ip (ip : option string) (resolved failed : bool) (c : conn) : conn :=
  Conn ip resolved failed (cn_channel c) (cn_incluster_target c) (cn_token c) (cn_strategy c).
Definition with_channel (ch : option (nat * string)) (c : conn) : conn :=
  Conn (cn_pod_ip c) (cn_pod_ip_resolved c) (cn_pod_ip_auth_failed c) ch
    (cn_incluster_target c) (cn_token c) (cn_strategy c).
(** A new transport token, with the target it stands for. *)
Definition new_transport (target : option string) (c : conn) : conn :=
  Conn (cn_pod_ip c) (cn_pod_ip_resolved c) (cn_pod_ip_auth_failed c) (cn_channel c)
    target (S (cn_token c)) (cn_strategy c).

(** ** HTTP and gRPC libraries *)

(** What [Session.request] is called with: which session, and whether an
    explicit [auth] keeps the library from replacing the bearer header.
    Redirects are always disabled. *)
Record http_call := HttpCall {
  hc_no_retry : bool;
  hc_method : string;
  hc_url : string;
  hc_headers : list (string * string);
  hc_body : http_body;
  hc_timeout : py_timeout;
  hc_stream : bool;
  hc_keep_auth : bool;
  hc_verify : option string;
  hc_cert : option (string * string);
}.

Class Net (W : Type) := {
  session_request : http_call → M W response;
  session_close : M W ();
  response_close : response → M W ();
  (** [grpc.insecure_channel] with the optional bearer interceptor *)
  grpc_open : string → option string → M W nat;
  grpc_close : nat → M W ();
}.

(** [response.is_redirect] *)
Definition is_redirect (resp : response) : bool :=
  bool_decide (is_Some (header_get "location" (resp_headers resp)))
  && bool_decide (resp_status resp ∈ [301; 302; 303; 307; 308]).

(** [e.response.status_code], for the exceptions that carry a response *)
Definition response_status (e : exn) : option Z :=
  match e with RequestException s | SandboxRequestError s => s | _ => None end.

Section connector.
Context {W : Type} `{Clock W} `{K8sApi W} `{Host W} `{Net W}.
Variable cfg : conn_config.
Variable fuel : nat.
Variable number_str : py_number → string.
Variable get_pod_ip get_pod_name get_service_fqdn : option (M W (option string)).

Abbreviation CM := (M (conn * W)).

(** Run a method of the strategy object. *)
Definition on_strategy {X A} (mk : X → strategy) (x : X) (m : M (X * W) A) : CM A := λ s,
  match m (x, s.2) with (r, (x', w)) => (r, (with_strategy (mk x') s.1, w)) end.

Definition strategy_connect : CM string :=
  c ← self;
  match cn_strategy c, cc_connection cfg with
  | StDirect, CDirect d => mret (api_url d)
  | StGateway u, CGateway g => on_strategy StGateway u (gateway_connect fuel g)
  | StLocalTunnel t, CLocalTunnel l =>
      on_strategy StLocalTunnel t (local_connect fuel l (cc_api_client cfg))
  | StInCluster i, CInCluster ic =>
      on_strategy StInCluster i (cluster_connect (cc_id cfg) (cc_namespace cfg) ic get_pod_ip)
  | StPodTunnel t, CSandboxdPodTunnel p =>
      on_strategy StPodTunnel t
        (pod_connect fuel p (cc_namespace cfg) get_pod_name (cc_api_client cfg))
  | StInClusterd i, CSandboxdInCluster ic =>
      on_strategy StInClusterd i (clusterd_connect ic get_pod_ip get_service_fqdn)
  | _, _ => raise ValueError
  end.

Definition strategy_verify : CM () :=
  c ← self;
  match cn_strategy c with
  | StLocalTunnel t => on_strategy StLocalTunnel t tunnel_verify
  | StPodTunnel t => on_strategy StPodTunnel t tunnel_verify
  | _ => mret ()
  end.

Definition strategy_close : CM () :=
  c ← self;
  match cn_strategy c with
  | StDirect => mret ()
  | StGateway _ => set_self (with_strategy (StGateway None))
  | StLocalTunnel t => on_strategy StLocalTunnel t tunnel_close
  | StInCluster _ => set_self (with_strategy (StInCluster (InCluster false None)))
  | StPodTunnel t => on_strategy StPodTunnel t tunnel_close
  | StInClusterd _ => set_self (with_strategy (StInClusterd (InClusterd None None)))
  end.

(** [strategy.invalidate_pod_ip] *)
Definition strategy_invalidate_pod_ip (c : conn) : conn :=
  match cn_strategy c with
  | StInCluster _ => with_strategy (StInCluster (InCluster false None)) c
  | _ => c
  end.

(** Close the cached channel, ignoring errors. *)
Definition drop_channel : CM () :=
  c ← self;
  _ ← match cn_channel c with
      | None => mret ()
      | Some (ch, _) => except (λ _, Some (mret ())) (world (grpc_close ch))
      end;
  set_self (with_channel None).

(** *** grpc_channel *)
Definition grpc_channel : CM nat :=
  if negb (conn_is_sandboxd (cc_connection cfg)) then raise RuntimeError
  else
    c ← self;
    match str_or (strategy_grpc_target (cn_strategy c)) None with
    | None => raise (SandboxRequestError None)
    | Some target =>
        match cn_channel c with
        | Some (ch, t) =>
            if (t =? target)%string then mret ch
            else
              _ ← drop_channel;
              ch' ← world (grpc_open target (dget "authorization"
                             (sandboxd_auth_headers (cc_connection cfg))));
              _ ← set_self (with_channel (Some (ch', target)));
              mret ch'
        | None =>
            ch' ← world (grpc_open target (dget "authorization"
                           (sandboxd_auth_headers (cc_connection cfg))));
            _ ← set_self (with_channel (Some (ch', target)));
            mret ch'
        end
    end.

(** *** invalidate_sandboxd_transport *)
Definition conn_invalidate (channel : option nat) (transport_token : option nat) : CM () :=
  c ← self;
  if negb (is_clusterd (cn_strategy c)) then mret ()
  else if bool_decide (is_Some channel) && negb (bool_decide (channel = fst <$> cn_channel c))
  then mret ()
  else if bool_decide (is_Some transport_token)
          && negb (bool_decide (transport_token = Some (cn_token c)))
  then mret ()
  else
    _ ← set_self (new_transport None);
    _ ← drop_channel;
    set_self (with_strategy (StInClusterd (InClusterd None None))).

(** *** connect and close *)
Definition connect : CM string :=
  c ← self;
  base_url ← except (λ e, if is_clusterd (cn_strategy c)
                          then Some (_ ← set_self (new_transport None); raise e) else None)
               strategy_connect;
  c ← self;
  _ ← (if is_clusterd (cn_strategy c) then
         let target := strategy_grpc_target (cn_strategy c) in
         if bool_decide (target = cn_incluster_target c) then mret ()
         else set_self (new_transport target)
       else mret ());
  mret base_url.

Definition conn_close : CM () :=
  _ ← set_self (λ c, with_pod_ip None false (cn_pod_ip_auth_failed c) (new_transport None c));
  _ ← drop_channel;
  _ ← strategy_close;
  world (_ ← session_close; session_close).

(** *** send_request *)

Definition extra_headers_of (c : SandboxConnectionConfig) : list (string * string) :=
  match c with CDirect d => extra_headers d | _ => [] end.

Definition server_port_of (c : SandboxConnectionConfig) : option Z :=
  match c with
  | CDirect d => Some (direct_server_port d)
  | CGateway g => Some (gateway_server_port g)
  | CLocalTunnel l => Some (lt_server_port l)
  | CInCluster i => Some (in_server_port i)
  | CSandboxdPodTunnel _ | CSandboxdInCluster _ => None
  end.

(** The lookup of the pod IP for direct routing; its exceptions are noted. *)
Definition resolve_pod_ip : CM () :=
  c ← self;
  match get_pod_ip with
  | Some f =>
      if cn_pod_ip_auth_failed c || cn_pod_ip_resolved c then mret ()
      else
        except (λ e,
            Some (if bool_decide (response_status e ∈ [Some 401; Some 403])
                  then set_self (λ c, with_pod_ip (cn_pod_ip c) (cn_pod_ip_resolved c) true c)
                  else mret ()))
          (ip ← world f;
           match str_or ip None with
           | Some ip => set_self (λ c, with_pod_ip (Some ip) true (cn_pod_ip_auth_failed c) c)
           | None => mret ()
           end)
  | None => mret ()
  end.

Definition set_opt (k : string) (v : option string) (h : list (string * string)) :=
  match v with Some v => dset k v h | None => h end.

Definition request_headers (rq : request) : CM (list (string * string)) :=
  let h := merge_headers [Some (extra_headers_of (cc_connection cfg)); hr_headers rq;
                          Some (sandboxd_auth_headers (cc_connection cfg))] in
  c ← self;
  if should_inject_router_headers (cn_strategy c) then
    let h := dset "X-Sandbox-ID" (cc_id cfg) h in
    let h := dset "X-Sandbox-Namespace" (cc_namespace cfg) h in
    let h := set_opt "X-Sandbox-Port" (pretty <$> server_port_of (cc_connection cfg)) h in
    let h := set_opt "X-Sandbox-Timeout"
               (router_timeout_header_value number_str (hr_timeout rq)) h in
    auth_failed ← gets (λ s : conn * W, cn_pod_ip_auth_failed s.1);
    _ ← resolve_pod_ip;
    c ← self;
    mret (if auth_failed : bool then h
          else match get_pod_ip, str_or (cn_pod_ip c) None with
               | Some _, Some ip => dset "X-Sandbox-Pod-IP" ip h
               | _, _ => h
               end)
  else mret h.

(** [f"{base_url.rstrip('/')}/{endpoint.lstrip('/')}"] *)
Definition join_url (base_url endpoint : string) : string :=
  rstrip_char "/" base_url +:+ "/" +:+ lstrip_char "/" endpoint.

Definition build_call (rq : request) (url : string) (headers : list (string * string)) : http_call :=
  let auth := sandboxd_auth_headers (cc_connection cfg) in
  HttpCall (hr_disable_retries rq) (hr_method rq) url headers (hr_body rq) (hr_timeout rq)
    (hr_stream rq) (negb (bool_decide (auth = [])))
    (match cc_connection cfg with CDirect d => str_or (ca_cert d) None | _ => None end)
    (match cc_connection cfg with CDirect d => client_cert d | _ => None end).

(** A response is accepted, or is the one carried by the exception raised. *)
Definition classify (rq : request) (resp : response) : response + response :=
  if is_redirect resp then inr resp
  else if bool_decide (resp_status resp ∈ hr_allowed_statuses rq) then inl resp
  else if (400 <=? resp_status resp) && (resp_status resp <? 600) then inr resp
  else inl resp.

Definition with_token (t : option nat) (r : response) : response :=
  Response (resp_status r) (resp_headers r) (resp_chunks r) (resp_error r) (resp_json r) t.

(** The [except RequestException] clause. The local variables [transport_token]
    and [url] are unbound when the exception comes from [connect]. *)
Definition on_request_failure (token : option nat) (status : option Z) : CM response :=
  c ← self;
  _ ← match status with
      | None =>
          _ ← set_self (λ c, with_pod_ip None false (cn_pod_ip_auth_failed c) c);
          if is_clusterd (cn_strategy c) then
            match token with
            | Some t => conn_invalidate None (Some t)
            | None => raise UnboundLocalError
            end
          else conn_close
      | Some s =>
          if 500 <=? s then
            set_self (λ c, strategy_invalidate_pod_ip
                             (with_pod_ip None false (cn_pod_ip_auth_failed c) c))
          else mret ()
      end;
  match token with
  | Some _ => raise (SandboxRequestError status)
  | None => raise UnboundLocalError
  end.

(** The [try] up to the call of the HTTP library. *)
Definition prepare_call (rq : request) : CM (nat * http_call) :=
  base_url ← connect;
  token ← gets (λ s : conn * W, cn_token s.1);
  _ ← strategy_verify;
  let url := join_url base_url (hr_endpoint rq) in
  headers ← request_headers rq;
  mret (token, build_call rq url headers).

(** What the clauses do with an exception of the [try]. *)
Definition on_send_exception (token : option nat) (e : exn) : CM response :=
  match e with
  | SandboxPortForwardError => _ ← conn_close; raise SandboxPortForwardError
  | RequestException status => on_request_failure token status
  | _ => raise e
  end.

(** The response of the library, accepted or refused. *)
Definition finish_call (rq : request) (token : nat) (resp : response) : CM response :=
  match classify rq resp with
  | inl resp =>
      c ← self;
      mret (if hr_stream rq && is_clusterd (cn_strategy c)
            then with_token (Some token) resp else resp)
  | inr resp =>
      _ ← (if hr_stream rq then world (response_close resp) else mret ());
      on_request_failure (Some token) (Some (resp_status resp))
  end.

Definition conn_send_request (rq : request) : CM response := λ s,
  match prepare_call rq s with
  | (Ret (token, call), s1) =>
      match world (session_request call) s1 with
      | (Ret resp, s2) => finish_call rq token resp s2
      | (Raise e, s2) => on_send_exception (Some token) e s2
      | (NoFuel, s2) => (NoFuel, s2)
      end
  | (Raise e, s1) => on_send_exception None e s1
  | (NoFuel, s1) => (NoFuel, s1)
  end.
End connector.
