(* ===== verification/ConnectorProofs.v ===== *)
(** Theorems on [SandboxConnector]: the headers a request goes out with, what a
    failure does to the connection, and that a late failure cannot close a
    replacement transport. *)

From Stdlib Require Import Ascii String ZArith QArith Lia.
From stdpp Require Import base option list strings gmap pretty sets.
From S2P Require Import Prelude Json IpAddress PyText Models Utils World Sim K8sHelper Http Tunnel.
From S2P Require Import Connector.

#[local] Open Scope Z_scope.

(** ** The connector as the file and command clients see it *)

Definition conn_connector {W} `{Clock W} `{K8sApi W} `{Host W} `{Net W}
    (cfg : conn_config) (fuel : nat) (number_str : py_number → string)
    (get_pod_ip get_pod_name get_service_fqdn : option (M W (option string)))
    : Connector (conn * W) := {|
  is_sandboxd _ := conn_is_sandboxd (cc_connection cfg);
  send_request := conn_send_request cfg fuel number_str get_pod_ip get_pod_name get_service_fqdn;
  invalidate_sandboxd_transport := conn_invalidate;
  close_response r := world (response_close r);
|}.

(** ** Error bodies *)

Lemma capture_chunks_take captured chunks :
  captured < ERROR_BODY_LIMIT →
  concat (capture_chunks captured chunks)
  = take (Z.to_nat (ERROR_BODY_LIMIT - captured)) (concat chunks).
Proof.
  revert captured. induction chunks as [|[|b chunk] chunks IH]; intros captured Hc;
    cbn [capture_chunks concat]; [by rewrite take_nil|by apply IH|].
  destruct (Z.leb_spec (ERROR_BODY_LIMIT - captured) 0); [lia|].
  set (n := Z.to_nat (ERROR_BODY_LIMIT - captured)). set (c := b :: chunk). cbn zeta.
  rewrite length_take.
  destruct (Z.leb_spec ERROR_BODY_LIMIT (captured + Z.of_nat (n `min` length c))) as [Hf|Hf].
  - cbn [concat]. rewrite app_nil_r, take_app. replace (n - length c)%nat with 0%nat by lia.
    by rewrite take_0, app_nil_r.
  - cbn [concat]. rewrite IH, take_app by lia. do 2 f_equal. lia.
Qed.

(** Of the body of a failed streamed request the SDK keeps exactly the first
    64 KiB, however the server cuts it into chunks; the rest is never read into
    memory. *)
Theorem capture_streamed_error_body_bounded (resp : response) :
  match capture_streamed_error_body resp with
  | Some body => body = take (Z.to_nat ERROR_BODY_LIMIT) (concat (resp_chunks resp))
  | None => is_Some (resp_error resp)
  end.
Proof.
  unfold capture_streamed_error_body. rewrite capture_chunks_take by done. rewrite Z.sub_0_r.
  destruct (resp_error resp); [|done]. by destruct (_ <=? _).
Qed.

(** ** Headers on the wire *)

(** The value of a header for the receiver: the SDK's HTTP library keeps the
    last of the entries whose names differ in case only. *)
Definition effective (name : string) (h : list (string * string)) : option string :=
  snd <$> last (filter (λ q, lower q.1 = name) h).

Lemma filter_dset_other n k v (h : list (string * string)) :
  lower k ≠ n → filter (λ q, lower q.1 = n) (dset k v h) = filter (λ q, lower q.1 = n) h.
Proof.
  intros Hk. induction h as [|[k' v'] h IH]; cbn [dset].
  - rewrite filter_cons, filter_nil. by rewrite decide_False.
  - destruct (decide (k = k')) as [<-|]; rewrite !filter_cons; cbn [fst];
      [by rewrite !decide_False|by rewrite IH].
Qed.

Lemma effective_dset_other n k v h : lower k ≠ n → effective n (dset k v h) = effective n h.
Proof. intros. unfold effective. by rewrite filter_dset_other. Qed.

Lemma effective_dset k v h :
  (length (filter (λ q, lower q.1 = lower k) h) ≤ 1)%nat → effective (lower k) (dset k v h) = Some v.
Proof.
  unfold effective. induction h as [|[k' v'] h IH]; cbn [dset]; intros Hl.
  - rewrite filter_cons, filter_nil, decide_True by done. done.
  - rewrite filter_cons in Hl. cbn [fst] in Hl. destruct (decide (k = k')) as [<-|Hne].
    + rewrite decide_True in Hl by done. cbn [length] in Hl.
      rewrite filter_cons, decide_True by done.
      destruct (filter (λ q, lower q.1 = lower k) h); [done|cbn in Hl; lia].
    + rewrite filter_cons. cbn [fst]. destruct (decide (lower k' = lower k)); [|by apply IH].
      cbn [length] in Hl. rewrite last_cons.
      specialize (IH ltac:(lia)). by destruct (last (filter _ (dset k v h))) eqn:E.
Qed.

Lemma merged_at_most_once n layers :
  (length (filter (λ q, lower q.1 = n) (merge_headers layers)) ≤ 1)%nat.
Proof.
  destruct (merge_headers_entries layers) as [Hd _]. revert Hd. generalize (merge_headers layers).
  intros h. induction h as [|[k v] h IH]; cbn [fmap list_fmap fst]; intros Hd; [cbn; lia|].
  apply NoDup_cons in Hd as [Hk Hd]. rewrite filter_cons. cbn [fst].
  destruct (decide (lower k = n)) as [<-|]; [|by apply IH].
  cbn [length]. enough (filter (λ q, lower q.1 = lower k) h = []) as -> by done.
  clear IH Hd. induction h as [|[k' v'] h IH]; [done|]. cbn [fmap list_fmap fst] in Hk.
  rewrite not_elem_of_cons in Hk. destruct Hk. rewrite filter_cons. cbn [fst].
  rewrite decide_False by auto. by apply IH.
Qed.

Lemma effective_merge n layers :
  effective n (merge_headers layers) = effective n (concat (default [] <$> layers)).
Proof.
  unfold effective. f_equal.
  destruct (merge_headers_entries layers) as [_ He]. pose proof (merged_at_most_once n layers) as Hl.
  destruct (filter (λ q, lower q.1 = n) (merge_headers layers)) as [|[k v] l] eqn:Ef.
  - symmetry. destruct (last _) as [[k v]|] eqn:El; [|done].
    assert (lower k = n) as Hk.
    { apply last_Some_elem_of, list_elem_of_filter in El. apply El. }
    rewrite <-Hk in El. apply He in El.
    assert ((k, v) ∈ filter (λ q, lower q.1 = n) (merge_headers layers)) as Hin
      by (by apply list_elem_of_filter).
    rewrite Ef in Hin. by apply elem_of_nil in Hin.
  - destruct l; [|cbn in Hl; lia]. cbn [last].
    assert ((k, v) ∈ filter (λ q, lower q.1 = n) (merge_headers layers)) as Hin
      by (rewrite Ef; by left).
    apply list_elem_of_filter in Hin as [Hk Hin]. cbn in Hk. subst n. symmetry. by apply He.
Qed.

Section requests.
Context {W : Type} {Hclock : Clock W} {Hk8s : K8sApi W} {Hhost : Host W} {Hnet : Net W}.
Variable cfg : conn_config.
Variable fuel : nat.
Variable number_str : py_number → string.
Variable get_pod_ip get_pod_name get_service_fqdn : option (M W (option string)).

#[local] Abbreviation headers_of := (request_headers cfg number_str get_pod_ip).
#[local] Abbreviation prepare := (prepare_call cfg fuel number_str get_pod_ip get_pod_name get_service_fqdn).
#[local] Abbreviation send := (conn_send_request cfg fuel number_str get_pod_ip get_pod_name get_service_fqdn).
#[local] Abbreviation connect := (connect cfg fuel get_pod_ip get_pod_name get_service_fqdn).

(** The headers as a chain of assignments on the merged layers. *)
Lemma request_headers_shape rq s h s' :
  headers_of rq s = (Ret h, s') →
  let merged := merge_headers [Some (extra_headers_of (cc_connection cfg)); hr_headers rq;
                               Some (sandboxd_auth_headers (cc_connection cfg))] in
  if should_inject_router_headers (cn_strategy s.1) then
    ∃ ip, h = set_opt "X-Sandbox-Pod-IP" ip
                (set_opt "X-Sandbox-Timeout" (router_timeout_header_value number_str (hr_timeout rq))
                (set_opt "X-Sandbox-Port" (pretty <$> server_port_of (cc_connection cfg))
                (dset "X-Sandbox-Namespace" (cc_namespace cfg)
                (dset "X-Sandbox-ID" (cc_id cfg) merged)))) ∧
          (ip = None ∨ (ip = cn_pod_ip s'.1 ∧ is_Some get_pod_ip))
  else h = merged.
Proof.
  unfold request_headers. run_unfold. unfold self, gets. cbn zeta.
  destruct (should_inject_router_headers _); [|intros [= <- <-]; done].
  destruct (resolve_pod_ip get_pod_ip s) as [[[]|e|] s1]; [|done|done].
  intros [= <- <-]. set (base := set_opt "X-Sandbox-Timeout" _ _).
  destruct (cn_pod_ip_auth_failed s.1); [exists None; by auto|].
  destruct get_pod_ip as [f|]; [|exists None; by auto].
  unfold str_or. destruct (truthy_str_opt (cn_pod_ip s1.1)); [|exists None; by auto].
  exists (cn_pod_ip s1.1). split; [|by eauto]. by destruct (cn_pod_ip s1.1).
Qed.

Lemma effective_set_opt_other n k v h :
  lower k ≠ n → effective n (set_opt k v h) = effective n h.
Proof. destruct v; [apply effective_dset_other|done]. Qed.

Lemma filter_set_opt_other n k v h :
  lower k ≠ n →
  filter (λ q, lower q.1 = n) (set_opt k v h) = filter (λ q, lower q.1 = n) h.
Proof. destruct v; [apply filter_dset_other|done]. Qed.


(** ** How commands change the connector *)

Section respects.
Context (R : relation conn) `{!PreOrder R}.

(** Every command takes the connector to a related one, however it ends. *)
Definition respects {A} (m : M (conn * W) A) : Prop := ∀ s, R s.1 (m s).2.1.

Lemma respects_bind {A B} (m : M (conn * W) A) (k : A → M (conn * W) B) :
  respects m → (∀ a, respects (k a)) → respects (m ≫= k).
Proof.
  intros Hm Hk s. specialize (Hm s). unfold mbind, M_bind.
  destruct (m s) as [[a|e|] s1]; cbn in *; [|done|done]. etrans; [done|apply Hk].
Qed.
Lemma respects_except {A} (h : exn → option (M (conn * W) A)) m :
  respects m → (∀ e k, h e = Some k → respects k) → respects (except h m).
Proof.
  intros Hm Hh s. specialize (Hm s). unfold except.
  destruct (m s) as [[a|e|] s1]; cbn in *; [done| |done].
  destruct (h e) eqn:E; [|done]. etrans; [done|by eapply Hh].
Qed.
Lemma respects_ret {A} (a : A) : respects (mret a).
Proof. intros s. reflexivity. Qed.
Lemma respects_raise {A} e : respects (raise e : M (conn * W) A).
Proof. intros s. reflexivity. Qed.
Lemma respects_self : respects self.
Proof. intros s. reflexivity. Qed.
Lemma respects_gets {A} (f : conn * W → A) : respects (gets f).
Proof. intros s. reflexivity. Qed.
Lemma respects_world {A} (m : M W A) : respects (world m).
Proof. intros [c w]. unfold world. cbn. destruct (m w). reflexivity. Qed.
Lemma respects_set f : (∀ c, R c (f c)) → respects (set_self f).
Proof. intros Hf [c w]. apply Hf. Qed.
Lemma respects_on_strategy {X A} mk (x : X) (m : M (X * W) A) :
  (∀ c st, R c (with_strategy st c)) → respects (on_strategy mk x m).
Proof.
  intros Hs [c w]. unfold on_strategy. cbn. destruct (m (x, w)) as [r [x' w']]. apply Hs.
Qed.
End respects.

Create HintDb respects.
#[local] Hint Resolve respects_ret respects_raise respects_self respects_gets respects_world
  respects_set respects_on_strategy : respects.
#[local] Ltac respect := repeat first
  [ solve [eauto with respects]
  | apply respects_bind; [apply _| |intros]
  | apply respects_except; [apply _| |intros ? ? ?; repeat case_match; simplify_eq]
  | match goal with |- respects _ (match ?x with _ => _ end) => destruct x end ].

(** The transport of the in-cluster sandboxd mode: tokens only grow, and a
    transport with the same token has the same target. *)
Definition transport_le (c c' : conn) : Prop :=
  (cn_token c ≤ cn_token c')%nat ∧
  (cn_token c' = cn_token c → cn_incluster_target c' = cn_incluster_target c).

#[local] Instance transport_le_preorder : PreOrder transport_le.
Proof.
  split; [done|]. intros c1 c2 c3 [H1 H1'] [H2 H2']. split; [lia|]. intros H.
  rewrite H2', H1' by lia. done.
Qed.

Lemma transport_le_strategy c st : transport_le c (with_strategy st c).
Proof. done. Qed.
Lemma transport_le_new target c : transport_le c (new_transport target c).
Proof. split; cbn; [lia|]. lia. Qed.
Lemma transport_le_pod_ip ip b b' c : transport_le c (with_pod_ip ip b b' c).
Proof. done. Qed.
Lemma transport_le_channel ch c : transport_le c (with_channel ch c).
Proof. done. Qed.
Lemma transport_le_invalidate_ip c : transport_le c (strategy_invalidate_pod_ip c).
Proof. unfold strategy_invalidate_pod_ip. by destruct (cn_strategy c). Qed.
Lemma transport_le_close c :
  transport_le c (with_pod_ip None false (cn_pod_ip_auth_failed c) (new_transport None c)).
Proof. split; cbn; lia. Qed.
Lemma transport_le_5xx c :
  transport_le c (strategy_invalidate_pod_ip (with_pod_ip None false (cn_pod_ip_auth_failed c) c)).
Proof. etrans; [|apply transport_le_invalidate_ip]. done. Qed.
#[local] Hint Resolve transport_le_preorder transport_le_strategy transport_le_new transport_le_pod_ip
  transport_le_channel transport_le_close transport_le_5xx : respects.

Lemma connect_respects : respects transport_le connect.
Proof. unfold Connector.connect. respect. Qed.
Lemma drop_channel_respects : respects transport_le drop_channel.
Proof. unfold drop_channel. respect. Qed.
Lemma verify_respects : respects transport_le strategy_verify.
Proof. unfold strategy_verify. respect. Qed.
Lemma strategy_close_respects : respects transport_le strategy_close.
Proof. unfold strategy_close. respect. Qed.
#[local] Hint Resolve connect_respects drop_channel_respects verify_respects
  strategy_close_respects : respects.

Lemma conn_close_respects : respects transport_le conn_close.
Proof. unfold conn_close. respect. Qed.
Lemma conn_invalidate_respects ch t : respects transport_le (conn_invalidate ch t).
Proof. unfold conn_invalidate. respect. Qed.
#[local] Hint Resolve conn_close_respects conn_invalidate_respects : respects.

Lemma headers_respects rq : respects transport_le (headers_of rq).
Proof. unfold request_headers. respect. Qed.
#[local] Hint Resolve headers_respects : respects.

Lemma prepare_respects rq : respects transport_le (prepare rq).
Proof. unfold prepare_call. respect. Qed.
Lemma on_failure_respects t st : respects transport_le (on_request_failure t st).
Proof. unfold on_request_failure. respect. Qed.
#[local] Hint Resolve on_failure_respects : respects.
Lemma on_exception_respects t e : respects transport_le (on_send_exception t e).
Proof. unfold on_send_exception. respect. Qed.
Lemma finish_respects rq t resp : respects transport_le (finish_call rq t resp).
Proof. unfold finish_call. respect. Qed.

Lemma send_respects rq : respects transport_le (send rq).
Proof.
  intros s. unfold conn_send_request. pose proof (prepare_respects rq s) as Hp.
  destruct (prepare rq s) as [[[t call]|e|] s1]; cbn [snd] in *; [| |done].
  - etrans; [exact Hp|]. pose proof (respects_world transport_le (session_request call) s1) as Hw.
    destruct (world _ s1) as [[resp|e|] s2]; cbn [snd] in Hw; [| |done]; (etrans; [exact Hw|]).
    + apply finish_respects.
    + apply on_exception_respects.
  - etrans; [exact Hp|]. apply on_exception_respects.
Qed.

Lemma grpc_channel_respects : respects transport_le (grpc_channel cfg).
Proof. unfold grpc_channel. respect. Qed.

(** ** Late failures *)

(** The calls other users of the connector make meanwhile. *)
Inductive conn_call :=
  | CallConnect
  | CallClose
  | CallChannel
  | CallSend (rq : request)
  | CallInvalidate (channel : option nat) (token : option nat).

Definition call_conn (c : conn_call) (s : conn * W) : conn * W :=
  match c with
  | CallConnect => (connect s).2
  | CallClose => (conn_close s).2
  | CallChannel => (grpc_channel cfg s).2
  | CallSend rq => (send rq s).2
  | CallInvalidate ch t => (conn_invalidate ch t s).2
  end.

Definition call_all (cs : list conn_call) (s : conn * W) : conn * W :=
  foldl (λ s c, call_conn c s) s cs.

Lemma call_conn_transport c s : transport_le s.1 (call_conn c s).1.
Proof.
  destruct c; cbn [call_conn]; [apply connect_respects|apply conn_close_respects
    |apply grpc_channel_respects|apply send_respects|apply conn_invalidate_respects].
Qed.

Lemma call_all_transport cs s : transport_le s.1 (call_all cs s).1.
Proof.
  revert s. induction cs as [|c cs IH]; intros s; [reflexivity|].
  etrans; [apply call_conn_transport|]. apply IH.
Qed.

Lemma conn_invalidate_stale s t :
  cn_token s.1 ≠ t → conn_invalidate None (Some t) s = (Ret (), s).
Proof.
  intros Ht. unfold conn_invalidate. run_unfold. unfold self. destruct (is_clusterd _); [|done].
  cbn. by rewrite bool_decide_eq_false_2 by congruence.
Qed.

Lemma conn_invalidate_other ch t s :
  is_clusterd (cn_strategy s.1) = false → conn_invalidate ch t s = (Ret (), s).
Proof. intros Hi. unfold conn_invalidate. run_unfold. unfold self. by rewrite Hi. Qed.

Lemma conn_invalidate_renews s t :
  is_clusterd (cn_strategy s.1) = true → cn_token (conn_invalidate None (Some t) s).2.1 ≠ t.
Proof.
  intros Hi. destruct (decide (cn_token s.1 = t)) as [<-|Ht].
  2: by rewrite conn_invalidate_stale.
  unfold conn_invalidate, mbind at 1, M_bind at 1, self. rewrite Hi.
  change (bool_decide (is_Some (@None nat))) with false.
  rewrite (bool_decide_eq_true_2 (Some _ = Some _)) by done. cbn [negb andb]. rewrite andb_false_r.
  unfold mbind at 1, M_bind at 1, set_self at 1.
  enough (transport_le (new_transport None s.1)
    ((_ ← drop_channel; set_self (with_strategy (StInClusterd (InClusterd None None))))
       (new_transport None s.1, s.2)).2.1) as [Hle _]; [cbn in Hle; lia|].
  refine (respects_bind transport_le _ _ _ _ (new_transport None s.1, s.2)); respect.
Qed.

(** A failed in-cluster request, reported with the token of the transport it
    used, after any other use of the connector: either that very transport, with
    its token and target, is still in place, or the report changes nothing. A
    second report with the same token never has an effect, so a replacement
    transport survives late failures of the old one. *)
Theorem late_failure_harmless (cs : list conn_call) (s : conn * W) :
  let t := cn_token s.1 in
  let s' := call_all cs s in
  let s'' := (conn_invalidate None (Some t) s').2 in
  (s'' = s' ∨
   (cn_token s'.1 = t ∧ cn_incluster_target s'.1 = cn_incluster_target s.1)) ∧
  conn_invalidate None (Some t) s'' = (Ret (), s'').
Proof.
  cbn zeta. pose proof (call_all_transport cs s) as [Hle Htarget].
  destruct (decide (cn_token (call_all cs s).1 = cn_token s.1)) as [Heq|Hne].
  - split; [right; auto|].
    destruct (is_clusterd (cn_strategy (call_all cs s).1)) eqn:Hi.
    + by apply conn_invalidate_stale, conn_invalidate_renews.
    + rewrite (conn_invalidate_other _ _ _ Hi). cbn [snd]. by rewrite conn_invalidate_other.
  - rewrite conn_invalidate_stale by done. split; [by left|]. by apply conn_invalidate_stale.
Qed.

(** ** What closing leaves behind *)

Definition tunnel_closed (t t' : tunnel) : Prop :=
  tn_process t' = None ∨ (is_Some (tn_process t) ∧ t' = t).

(** Caches are empty and no process is left but one that could not be stopped. *)
Definition strategy_closed (st st' : strategy) : Prop :=
  match st, st' with
  | StDirect, StDirect => True
  | StGateway _, StGateway u => u = None
  | StLocalTunnel t, StLocalTunnel t' | StPodTunnel t, StPodTunnel t' => tunnel_closed t t'
  | StInCluster _, StInCluster i => i = InCluster false None
  | StInClusterd _, StInClusterd i => i = InClusterd None None
  | _, _ => False
  end.

Lemma tunnel_close_closed (s : tunnel * W) r s' :
  tunnel_close s = (r, s') → r ≠ NoFuel → r = Ret () ∧ tunnel_closed s.1 s'.1.
Proof.
  destruct s as [t w]. unfold tunnel_close, except. run_unfold. unfold self, set_self, world. cbn [fst snd].
  destruct (tn_process t) as [pid|] eqn:Ep; cbn [fst snd].
  2: { rewrite Ep. intros [= <- <-] _. split; [done|by left]. }
  destruct (stop_process pid w) as [[[]|e|] w1]; cbn [fst snd tn_process]; [| |intros [= <- <-]; done].
  - intros [= <- <-] _. split; [done|by left].
  - rewrite Ep. intros [= <- <-] _. split; [done|]. right. by rewrite Ep.
Qed.

Lemma drop_channel_closed (s : conn * W) r s' :
  drop_channel s = (r, s') → r ≠ NoFuel → r = Ret () ∧ s'.1 = with_channel None s.1.
Proof.
  destruct s as [c w]. unfold drop_channel, except. run_unfold. unfold self, set_self, world. cbn [fst snd].
  destruct (cn_channel c) as [[ch t]|]; [|intros [= <- <-]; done].
  cbn [fst snd]. destruct (grpc_close ch w) as [[[]|e|] w1]; intros [= <- <-]; done.
Qed.

Lemma on_strategy_run {X A} mk (x : X) (m : M (X * W) A) s r s' :
  on_strategy mk x m s = (r, s') →
  ∃ x' w', m (x, s.2) = (r, (x', w')) ∧ s' = (with_strategy (mk x') s.1, w').
Proof.
  unfold on_strategy. destruct (m (x, s.2)) as [r0 [x' w']]. intros [= <- <-]. by exists x', w'.
Qed.

Lemma world_keeps {A} (m : M W A) (s : conn * W) r s' : world m s = (r, s') → s'.1 = s.1.
Proof. unfold world. destruct (m s.2). by intros [= _ <-]. Qed.

Lemma strategy_close_closed (s : conn * W) r s' :
  strategy_close s = (r, s') → r ≠ NoFuel →
  r = Ret () ∧ s'.1 = with_strategy (cn_strategy s'.1) s.1 ∧
  strategy_closed (cn_strategy s.1) (cn_strategy s'.1).
Proof.
  destruct s as [c w]. unfold strategy_close. unfold mbind at 1, M_bind at 1, self. cbn [fst snd].
  destruct (cn_strategy c) eqn:Es.
  1: { intros [= <- <-] _. cbn. rewrite Es. split_and!; try done. by destruct c; cbn in *; subst. }
  1,3,5: by intros [= <- <-] _.
  all: intros (t' & w' & Ht & ->)%on_strategy_run Hr; cbn [fst snd];
    by destruct (tunnel_close_closed _ _ _ Ht Hr).
Qed.

(** A closed connector: nothing cached, a new transport token. *)
Definition conn_closed (c c' : conn) : Prop :=
  cn_pod_ip c' = None ∧ cn_pod_ip_resolved c' = false ∧
  cn_pod_ip_auth_failed c' = cn_pod_ip_auth_failed c ∧
  cn_channel c' = None ∧ cn_incluster_target c' = None ∧ cn_token c' = S (cn_token c) ∧
  strategy_closed (cn_strategy c) (cn_strategy c').

Lemma conn_close_closed (s : conn * W) r s' :
  conn_close s = (r, s') → r ≠ NoFuel → conn_closed s.1 s'.1.
Proof.
  destruct s as [c w]. unfold conn_close. unfold mbind at 1, M_bind at 1, set_self at 1. cbn [fst snd].
  set (c1 := with_pod_ip _ _ _ _). unfold mbind at 1, M_bind at 1.
  destruct (drop_channel (c1, w)) as [r1 s1] eqn:E1. intros H Hr.
  assert (r1 ≠ NoFuel) as Hr1 by (intros ->; by simplify_eq).
  destruct (drop_channel_closed _ _ _ E1 Hr1) as [-> Hc]. cbn [fst] in Hc.
  unfold mbind at 1, M_bind at 1 in H. destruct (strategy_close s1) as [r2 s2] eqn:E2.
  assert (r2 ≠ NoFuel) as Hr2 by (intros ->; by simplify_eq).
  destruct (strategy_close_closed _ _ _ E2 Hr2) as (-> & Hc2 & Hst).
  rewrite (world_keeps _ _ _ _ H).
  rewrite Hc2. unfold conn_closed. cbn. rewrite Hc in *. by cbn in *.
Qed.

(** ** Requests *)

Lemma conn_invalidate_current (s : conn * W) r s' :
  is_clusterd (cn_strategy s.1) = true →
  conn_invalidate None (Some (cn_token s.1)) s = (r, s') → r ≠ NoFuel →
  r = Ret () ∧
  s'.1 = Conn (cn_pod_ip s.1) (cn_pod_ip_resolved s.1) (cn_pod_ip_auth_failed s.1) None None
           (S (cn_token s.1)) (StInClusterd (InClusterd None None)).
Proof.
  intros Hi. unfold conn_invalidate, mbind at 1, M_bind at 1, self. rewrite Hi.
  change (bool_decide (is_Some (@None nat))) with false.
  rewrite (bool_decide_eq_true_2 (Some _ = Some _)) by done. cbn [negb andb]. rewrite andb_false_r.
  unfold mbind at 1, M_bind at 1, set_self at 1. unfold mbind at 1, M_bind at 1.
  destruct (drop_channel _) as [r1 s1] eqn:E1. intros H Hr.
  assert (r1 ≠ NoFuel) as Hr1 by (intros ->; by simplify_eq).
  destruct (drop_channel_closed _ _ _ E1 Hr1) as [-> Hc].
  unfold set_self in H. injection H as <- <-. cbn [fst]. by rewrite Hc.
Qed.

Definition same_token (c c' : conn) : Prop := cn_token c = cn_token c'.
#[local] Instance same_token_preorder : PreOrder same_token.
Proof. unfold same_token. split; [done|intros ???; congruence]. Qed.
Lemma same_token_strategy c st : same_token c (with_strategy st c).
Proof. done. Qed.
Lemma same_token_pod_ip ip b b' c : same_token c (with_pod_ip ip b b' c).
Proof. done. Qed.
#[local] Hint Resolve same_token_preorder same_token_strategy same_token_pod_ip : respects.

(** The token of a request is the connector's when the request is sent. *)
Lemma prepare_token rq s t call s1 : prepare rq s = (Ret (t, call), s1) → t = cn_token s1.1.
Proof.
  unfold prepare_call. unfold mbind at 1, M_bind at 1. destruct (connect s) as [[url|e|] s0]; try done.
  unfold mbind at 1, M_bind at 1, gets at 1.
  set (m := _ ← strategy_verify; h ← headers_of rq;
            mret (build_call cfg rq (join_url url (hr_endpoint rq)) h)).
  assert (respects same_token m) as Hm.
  { unfold m, strategy_verify, request_headers, resolve_pod_ip. respect. }
  specialize (Hm s0). unfold m in Hm. revert Hm. run_unfold.
  destruct (strategy_verify s0) as [[[]|e|] s2]; try done.
  destruct (headers_of rq s2) as [[h|e|] s3]; try done.
  cbn. intros Hm [= <- _ <-]. exact Hm.
Qed.

(** The pod IP is forgotten, everything else is kept. *)
Definition pod_ip_dropped (c c' : conn) : Prop :=
  cn_pod_ip c' = None ∧ cn_pod_ip_resolved c' = false ∧
  cn_pod_ip_auth_failed c' = cn_pod_ip_auth_failed c ∧
  cn_channel c' = cn_channel c ∧ cn_incluster_target c' = cn_incluster_target c ∧
  cn_token c' = cn_token c ∧
  cn_strategy c' = match cn_strategy c with
                   | StInCluster _ => StInCluster (InCluster false None)
                   | st => st
                   end.

Lemma on_failure_no_response (s : conn * W) r s' :
  on_request_failure (Some (cn_token s.1)) None s = (r, s') → r ≠ NoFuel →
  conn_closed s.1 s'.1 ∧ ∃ e, r = Raise e.
Proof.
  destruct s as [c w]. unfold on_request_failure. unfold mbind at 1, M_bind at 1, self. cbn [fst snd].
  unfold mbind at 1, M_bind at 1. unfold mbind at 1, M_bind at 1, set_self. cbn [fst snd].
  set (c1 := with_pod_ip None false (cn_pod_ip_auth_failed c) c).
  destruct (is_clusterd (cn_strategy c)) eqn:Hi.
  - destruct (conn_invalidate _ _ _) as [r1 s1] eqn:E. intros H Hr.
    assert (r1 ≠ NoFuel) as Hr1 by (intros ->; by simplify_eq).
    apply (conn_invalidate_current (c1, w)) in E as [-> Hc]; [|done|done].
    injection H as <- <-. rewrite Hc. cbn. split; [|eauto].
    destruct (cn_strategy c) eqn:Es; try done. unfold conn_closed. cbn. by rewrite Es.
  - destruct (conn_close (c1, w)) as [r1 s1] eqn:E. intros H Hr.
    assert (r1 ≠ NoFuel) as Hr1 by (intros ->; by simplify_eq).
    apply conn_close_closed in E; [|done].
    destruct r1; [|by simplify_eq; eauto|done]. injection H as <- <-. eauto.
Qed.

Lemma on_failure_response t st (s : conn * W) :
  ∃ s', on_request_failure (Some t) (Some st) s = (Raise (SandboxRequestError (Some st)), s') ∧
        if 500 <=? st then pod_ip_dropped s.1 s'.1 else s' = s.
Proof.
  destruct s as [c w]. unfold on_request_failure. run_unfold. unfold self, set_self. cbn [fst snd].
  destruct (500 <=? st); [|by eexists]. eexists. split; [done|].
  unfold pod_ip_dropped, strategy_invalidate_pod_ip. cbn.
  by destruct (cn_strategy c) eqn:Es; cbn; rewrite ?Es.
Qed.

Lemma finish_call_outcome rq token resp (s : conn * W) r s' :
  finish_call rq token resp s = (r, s') → r ≠ NoFuel →
  match classify rq resp with
  | inl _ =>
      s'.1 = s.1 ∧
      ∃ resp', r = Ret resp' ∧ resp_status resp' = resp_status resp ∧
               resp_chunks resp' = resp_chunks resp
  | inr _ =>
      (hr_stream rq = true ∧ s'.1 = s.1 ∧ ∃ e, r = Raise e) ∨
      (r = Raise (SandboxRequestError (Some (resp_status resp))) ∧
       if 500 <=? resp_status resp then pod_ip_dropped s.1 s'.1 else s'.1 = s.1)
  end.
Proof.
  unfold finish_call. destruct (classify rq resp) as [a|a] eqn:Ec;
    (assert (a = resp) as -> by (unfold classify in Ec; repeat case_match; congruence)).
  - run_unfold. unfold self. intros [= <- <-] _. split; [done|]. eexists. split; [done|].
    by destruct (_ && _).
  - unfold mbind, M_bind. intros H Hr.
    destruct ((if hr_stream rq then world (response_close resp) else mret ()) s) as [r1 s1] eqn:E1.
    assert (s1.1 = s.1) as Hs.
    { destruct (hr_stream rq); [by eapply world_keeps|by injection E1 as _ <-]. }
    destruct r1 as [[]|e|]; [| |by simplify_eq].
    + right. destruct (on_failure_response token (resp_status resp) s1) as (s2 & Hf & Hc).
      rewrite Hf in H. injection H as <- <-. split; [done|].
      destruct (500 <=? _); [by rewrite <-Hs|by subst].
    + left. injection H as <- <-. split_and!; [|done|eauto]. by destruct (hr_stream rq).
Qed.

Lemma on_failure_raises token st (s : conn * W) resp s' :
  on_request_failure token st s = (Ret resp, s') → False.
Proof.
  unfold on_request_failure, mbind, M_bind, self.
  match goal with |- match ?x with _ => _ end = _ → _ => destruct x as [[[]|e|] s1] end; try done.
  by destruct token.
Qed.
Lemma on_exception_raises token e (s : conn * W) resp s' :
  on_send_exception token e s = (Ret resp, s') → False.
Proof.
  intros H. destruct e; try done; [|by eapply on_failure_raises].
  revert H. unfold on_send_exception, mbind, M_bind. by destruct (conn_close s) as [[]].
Qed.
Lemma refused_raises stream resp token st (s : conn * W) resp' s' :
  (_ ← (if stream : bool then world (response_close resp) else mret ());
   on_request_failure token st) s = (Ret resp', s') → False.
Proof.
  unfold mbind, M_bind. match goal with |- match ?x with _ => _ end = _ → _ => destruct x as [[[]|e|] s1] end;
    [apply on_failure_raises|done|done].
Qed.


(** A response that [send_request] returns is never a redirect, and its
    status is an error only if the caller listed it as acceptable. *)
Theorem send_request_returns rq s resp s' :
  send rq s = (Ret resp, s') →
  is_redirect resp = false ∧
  (resp_status resp ∈ hr_allowed_statuses rq ∨ resp_status resp < 400 ∨ 600 ≤ resp_status resp).
Proof.
  unfold conn_send_request. destruct (prepare rq s) as [[[token call]|e|] s1]; [|intros H|done].
  2: by apply on_exception_raises in H.
  destruct (world _ s1) as [[resp0|e|] s2]; [|intros H|done].
  2: by apply on_exception_raises in H.
  unfold finish_call, classify.
  destruct (is_redirect resp0) eqn:Er; [intros H; exfalso; by eapply refused_raises|].
  destruct (bool_decide (resp_status resp0 ∈ _)) eqn:Ea.
  { run_unfold. unfold self. intros [= <- _]. apply bool_decide_eq_true in Ea.
    destruct (_ && is_clusterd _); auto. }
  destruct (_ && _) eqn:Es; [intros H; exfalso; by eapply refused_raises|].
  run_unfold. unfold self. intros [= <- _].
  assert (resp_status resp0 < 400 ∨ 600 ≤ resp_status resp0) as Hst.
  { apply andb_false_iff in Es as [?%Z.leb_gt|?%Z.ltb_ge]; lia. }
  destruct (_ && is_clusterd _); auto.
Qed.

(** The gRPC channel handed out always leads to the listener the strategy is
    connected to now: a channel to an earlier target is closed and replaced, and
    with no target there is no channel. *)
Theorem grpc_channel_current (s : conn * W) ch s' :
  grpc_channel cfg s = (Ret ch, s') →
  conn_is_sandboxd (cc_connection cfg) = true ∧
  ∃ target, strategy_grpc_target (cn_strategy s'.1) = Some target ∧
            cn_strategy s'.1 = cn_strategy s.1 ∧ cn_channel s'.1 = Some (ch, target) ∧
            (cn_channel s.1 = Some (ch, target) ∨
             ∃ w w', grpc_open target (dget "authorization" (sandboxd_auth_headers (cc_connection cfg))) w
                     = (Ret ch, w')).
Proof.
  unfold grpc_channel. destruct (conn_is_sandboxd _); [|done]. cbn [negb]. intros H. split; [done|].
  revert H. unfold mbind at 1, M_bind at 1, self. unfold str_or.
  destruct (strategy_grpc_target (cn_strategy s.1)) as [target|] eqn:Et; [|done].
  destruct (truthy_str_opt (Some target)); [|done].
  assert (∀ s0, cn_strategy s0.1 = cn_strategy s.1 →
    (ch' ← world (grpc_open target (dget "authorization" (sandboxd_auth_headers (cc_connection cfg))));
     _ ← set_self (with_channel (Some (ch', target))); mret ch') s0 = (Ret ch, s') →
    strategy_grpc_target (cn_strategy s'.1) = Some target ∧ cn_strategy s'.1 = cn_strategy s.1 ∧
    cn_channel s'.1 = Some (ch, target) ∧
    ∃ w w', grpc_open target (dget "authorization" (sandboxd_auth_headers (cc_connection cfg))) w
            = (Ret ch, w')) as Hopen.
  { intros s0 Hs0. run_unfold. unfold world, set_self. cbn [fst snd].
    destruct (grpc_open _ _ s0.2) as [[c|e|] w'] eqn:Eo; try done. intros [= <- <-]. cbn.
    rewrite Hs0, Et. split_and!; eauto. }
  destruct (cn_channel s.1) as [[c t]|] eqn:Ech.
  - destruct (String.eqb_spec t target) as [->|].
    + intros [= <- <-]. exists target. rewrite Et. auto.
    + unfold mbind at 1, M_bind at 1. destruct (drop_channel s) as [r1 s1] eqn:Ed.
      destruct r1 as [[]|e|]; try done.
      apply drop_channel_closed in Ed as [_ Ed]; [|done]. intros H.
      apply Hopen in H as (? & ? & ? & ?); [|by rewrite Ed]. exists target. auto.
  - intros H. apply Hopen in H as (? & ? & ? & ?); [|done]. exists target. auto.
Qed.
End requests.

(** ** Examples *)

(** A host without kubectl, and servers with a fixed answer. *)
#[local] Instance quiet_host : Host quiet := {
  free_port w := (Ret 40000, w);
  port_open _ w := (Ret false, w);
  kubectl_get _ w := (Raise OSError, w);
  temporary_file w := (Ret (), w);
  popen _ w := (Raise OSError, w);
  poll _ w := (Ret (Some 1), w);
  terminate_process _ w := (Ret (), w);
  wait_process _ w := (Ret (), w);
  kill_process _ w := (Ret (), w);
  host_files _ := ∅;
  set_host_files _ w := w;
  host_mkstemp _ := None;
}.

Definition answering (r : outcome response) : Net quiet := {|
  session_request _ w := (r, w);
  session_close w := (Ret (), w);
  response_close _ w := (Ret (), w);
  grpc_open _ _ w := (Ret 7%nat, w);
  grpc_close _ w := (Ret (), w);
|}.

Definition direct_cfg : conn_config :=
  ConnConfig "sbx" "team-a" (CDirect (DirectConfig "http://router:8080/" 8888 [("x-sandbox-id", "evil")]
    None None)) None.
Definition status_response (n : Z) : response := Response n [] [] None (Raise ValueError) None.
Definition get_request : request :=
  Request "GET" "/execute" BNone (Some [("X-SANDBOX-NAMESPACE", "other")]) TNone false [404] false.
Definition pod_ip_of : option (M quiet (option string)) := Some (λ w, (Ret (Some "10.0.0.7"), w)).
Definition no_number (_ : py_number) : string := EmptyString.



(** A 404 the caller asked for is returned. *)
Lemma send_request_returns_witness :
  let net := answering (Ret (status_response 404)) in
  is_redirect (status_response 404) = false ∧
  (resp_status (status_response 404) ∈ [404] ∨ resp_status (status_response 404) < 400 ∨
   600 ≤ resp_status (status_response 404)).
Proof.
  intros net.
  refine (send_request_returns direct_cfg 0 no_number pod_ip_of None None get_request
            (conn_new direct_cfg, Quiet 0) (status_response 404) _ _).
  vm_compute. reflexivity.
Defined.

(** A channel to an old target is replaced. *)
Definition clusterd_cfg : conn_config :=
  ConnConfig "sbx" "team-a" (CSandboxdInCluster (InClusterdConfig (Some "tok") InClusterService 8081 8082))
    None.
Definition stale_channel : conn :=
  Conn None false false (Some (3%nat, "old:8082")) (Some "new:8082") 1
    (StInClusterd (InClusterd (Some "new") (Some "new:8082"))).

Lemma grpc_channel_current_witness :
  let net := answering (Raise OSError) in
  ∃ ch s', grpc_channel clusterd_cfg (stale_channel, Quiet 0) = (Ret ch, s') ∧
    cn_channel s'.1 = Some (ch, "new:8082").
Proof.
  intros net.
  destruct (grpc_channel clusterd_cfg (stale_channel, Quiet 0)) as [r s'] eqn:E.
  assert (strategy_grpc_target (cn_strategy s'.1) = Some "new:8082") as Ht
    by (vm_compute in E; injection E as <- <-; done).
  destruct r as [ch|e|]; [|exfalso; vm_compute in E; done..].
  exists ch, s'. split; [done|].
  destruct (proj2 (grpc_channel_current clusterd_cfg _ _ _ E)) as (target & Htarget & _ & Hch & _).
  rewrite Ht in Htarget. by injection Htarget as <-.
Defined.
