(* ===== verification/Sandbox.v ===== *)
(** [Sandbox] of [sandbox.py]: the handle on one running sandbox, what it reads
    from the cluster, and how it is closed. *)

From Stdlib Require Import Ascii String ZArith QArith Lia.
From stdpp Require Import base option list strings gmap pretty sets.
From S2P Require Import Prelude Json IpAddress PyText Models Utils World K8sHelper Http Tunnel.
From S2P Require Import Connector.

#[local] Open Scope Z_scope.

Definition POD_NAME_ANNOTATION : string := "agents.x-k8s.io/pod-name".

(** A handle. The three engines [_commands], [_files] and [_watcher] are set and
    cleared together; [h_hook] says that the client's [_on_terminated] hook is
    set. *)
Record handle := Handle {
  h_claim_name : option string;
  h_sandbox_id : string;
  h_namespace : string;
  h_closed : bool;
  h_engines : bool;
  h_pod_name : option json;
  h_name_hash : option string;
  h_hook : bool;
  h_conn : conn;
}.

(** [Sandbox.__init__] *)
Definition handle_new (claim_name sandbox_id namespace : string)
    (connection : SandboxConnectionConfig) (api_client : option ApiClient) : handle :=
  Handle (Some claim_name) sandbox_id namespace false true None None false
    (conn_new (ConnConfig sandbox_id namespace connection api_client)).

Definition is_active (h : handle) : bool := negb (h_closed h) && h_engines h.

Definition with_pod_name (p : option json) (h : handle) : handle :=
  Handle (h_claim_name h) (h_sandbox_id h) (h_namespace h) (h_closed h) (h_engines h) p
    (h_name_hash h) (h_hook h) (h_conn h).
Definition with_name_hash (x : option string) (h : handle) : handle :=
  Handle (h_claim_name h) (h_sandbox_id h) (h_namespace h) (h_closed h) (h_engines h)
    (h_pod_name h) x (h_hook h) (h_conn h).
Definition with_conn (c : conn) (h : handle) : handle :=
  Handle (h_claim_name h) (h_sandbox_id h) (h_namespace h) (h_closed h) (h_engines h)
    (h_pod_name h) (h_name_hash h) (h_hook h) c.
Definition set_closed (h : handle) : handle :=
  Handle (h_claim_name h) (h_sandbox_id h) (h_namespace h) true false
    (h_pod_name h) (h_name_hash h) (h_hook h) (h_conn h).
Definition with_hook (b : bool) (h : handle) : handle :=
  Handle (h_claim_name h) (h_sandbox_id h) (h_namespace h) (h_closed h) (h_engines h)
    (h_pod_name h) (h_name_hash h) b (h_conn h).
Definition clear_claim (h : handle) : handle :=
  Handle None (h_sandbox_id h) (h_namespace h) (h_closed h) (h_engines h)
    (h_pod_name h) (h_name_hash h) (h_hook h) (h_conn h).

(** [sandbox_object or {}] *)
Definition object_or_empty (o : option json) : json := py_or (default JNull o) (JObj []).

Section sandbox.
Context {W : Type} `{Clock W} `{K8sApi W} `{Host W} `{Net W}.

Abbreviation HM := (M (handle * W)).

Definition the_sandbox : HM (option json) :=
  h ← self; world (get_sandbox (h_sandbox_id h) (h_namespace h)).

Definition get_pod_name : HM json :=
  h ← self;
  match h_pod_name h with
  | Some p => mret p
  | None =>
      o ← the_sandbox;
      metadata ← lift (py_get (object_or_empty o) "metadata");
      annotations ← lift (py_get (py_or metadata (JObj [])) "annotations");
      pod_name ← lift (py_get (py_or annotations (JObj [])) POD_NAME_ANNOTATION);
      let pod_name := py_or pod_name (JStr (h_sandbox_id h)) in
      _ ← set_self (with_pod_name (Some pod_name));
      mret pod_name
  end.

Definition get_sandbox_name_hash : HM (option string) :=
  h ← self;
  match h_name_hash h with
  | Some x => mret (Some x)
  | None =>
      o ← the_sandbox;
      name_hash ← lift (extract_sandbox_name_hash (object_or_empty o));
      _ ← (if truthy_str_opt name_hash then set_self (with_name_hash name_hash) else mret ());
      mret name_hash
  end.

(** [dotted]: whether IPv4-mapped addresses print in dotted form (see [Utils]). *)
Definition get_pod_ip (dotted : bool) : HM (option string) :=
  o ← the_sandbox;
  status ← lift (py_get (object_or_empty o) "status");
  pod_ips ← lift (py_get_def (py_or status (JObj [])) "podIPs" (JList []));
  lift (select_pod_ip_json dotted pod_ips).

Definition get_service_fqdn : HM (option string) :=
  o ← the_sandbox;
  status ← lift (py_get (object_or_empty o) "status");
  fqdn ← lift (py_get (py_or status (JObj [])) "serviceFQDN");
  mret (match fqdn with
        | JStr s => if truthy_str_opt (Some s) then Some s else None
        | _ => None
        end).

(** The loop of [status] over the conditions *)
Fixpoint ready_condition (conds : list json) : outcome (string * json) :=
  match conds with
  | [] => Ret ("SandboxNotReady", JStr "Unknown message")
  | cond :: conds' =>
      type ← py_get cond "type";
      if is_str type "Ready" then
        message ← py_get_def cond "message" (JStr EmptyString);
        status ← py_get cond "status";
        Ret (if is_str status "True" then "SandboxReady" else "SandboxNotReady", message)
      else ready_condition conds'
  end.

Definition status : HM (string * json) :=
  o ← the_sandbox;
  if negb (truthy (default JNull o))
  then mret ("SandboxNotFound", JStr "Sandbox object not found in Kubernetes.")
  else
    status_data ← lift (py_get (default JNull o) "status");
    conds ← lift (py_get (py_or status_data (JObj [])) "conditions");
    conds ← lift (py_iter (py_or conds (JList [])));
    lift (ready_condition conds).

(** Run a method of the handle's connector. *)
Definition on_conn {A} (m : M (conn * W) A) : HM A := λ s,
  match m (h_conn s.1, s.2) with (r, (c, w)) => (r, (with_conn c s.1, w)) end.

Definition close_connection : HM () :=
  h ← self;
  if h_closed h then mret ()
  else
    _ ← set_self (with_pod_name None);
    _ ← on_conn conn_close;
    set_self set_closed.
End sandbox.
