(* ===== verification/SandboxClient.v ===== *)
(** [SandboxClient] of [sandbox_client.py]: the registry of handles, creation
    with rollback, attachment, and the cleanup that spares caller-owned claims. *)

From Stdlib Require Import Ascii String ZArith QArith Lia.
From stdpp Require Import base option list strings gmap pretty sets.
From S2P Require Import Prelude Json IpAddress PyText Models Validation Utils World K8sHelper Http.
From S2P Require Import Tunnel Connector Sandbox.

#[local] Open Scope Z_scope.

(** ** A Python dict with tuple keys, in insertion order *)

Section registry.
Context {K V : Type} `{EqDecision K}.

Fixpoint rget (k : K) (d : list (K * V)) : option V :=
  match d with
  | [] => None
  | (k', v) :: d' => if decide (k = k') then Some v else rget k d'
  end.

(** [d[k] = v]: an existing key keeps its place. *)
Fixpoint rset (k : K) (v : V) (d : list (K * V)) : list (K * V) :=
  match d with
  | [] => [(k, v)]
  | (k', v') :: d' => if decide (k = k') then (k', v) :: d' else (k', v') :: rset k v d'
  end.

(** [d.pop(k, None)] *)
Definition rdel (k : K) (d : list (K * V)) : list (K * V) := filter (λ p, p.1 ≠ k) d.
End registry.

(** [(namespace, claim_name)] *)
Abbreviation claim_key := (string * string)%type.

(** The client. Handles live in a heap, since the registry, the caller and the
    termination hook share them; a reference is an index. *)
Record client := Client {
  cl_registry : list (claim_key * nat);
  cl_explicit : gset claim_key;
  cl_heap : list handle;
}.

Definition client_new : client := Client [] ∅ [].

Definition with_registry (r : list (claim_key * nat)) (c : client) : client :=
  Client r (cl_explicit c) (cl_heap c).
Definition with_explicit (e : gset claim_key) (c : client) : client :=
  Client (cl_registry c) e (cl_heap c).
Definition with_heap (h : list handle) (c : client) : client :=
  Client (cl_registry c) (cl_explicit c) h.

(** [uuid.uuid4().hex] *)
Class Uuid (W : Type) := uuid4_hex : M W string.

(** The arguments of [create_sandbox]. *)
Record create_args := CreateArgs {
  ca_warmpool : string;
  ca_namespace : string;
  ca_ready_timeout : Z;
  ca_labels : option (list (string * string));
  ca_claim_name : option string;
  ca_adopt_existing : bool;
  ca_shutdown_after : option json;
  ca_volume_claim_templates : option (list json);
  ca_pod_labels : option (list (string * string));
  ca_pod_annotations : option (list (string * string));
  ca_env : option (list (string * string));
}.

(** The local variables of [create_sandbox] that its [except] clause reads. *)
Record create_locals := CreateLocals {
  cleanup_generated : bool;
  claim_uid : option string;
}.

(** [status.sandbox.name] is a string in the resource's schema. *)
Definition sandbox_name (v : json) : outcome string :=
  match v with JStr s => Ret s | _ => Raise TypeError end.

Section client.
Context {W : Type} `{Clock W} `{K8sApi W} `{Host W} `{Net W} `{Uuid W}.
Variable connection : SandboxConnectionConfig.
Variable api_client : option ApiClient.
(** [tracing_manager.get_trace_context_json()], if tracing is on *)
Variable trace_context : option string.
Variable fuel : nat.

Abbreviation KM := (M (client * W)).

(** ** Handles *)

Definition deref (r : nat) : KM handle := λ s,
  match cl_heap s.1 !! r with Some h => (Ret h, s) | None => (Raise AttributeError, s) end.

(** Run a method of the handle [r]. *)
Definition on_handle {A} (r : nat) (m : M (handle * W) A) : KM A := λ s,
  match cl_heap s.1 !! r with
  | Some h =>
      match m (h, s.2) with
      | (res, (h', w)) => (res, (with_heap (<[r := h']> (cl_heap s.1)) s.1, w))
      end
  | None => (Raise AttributeError, s)
  end.

Definition lookup_key (key : claim_key) : KM (option nat) :=
  gets (λ s : client * W, rget key (cl_registry s.1)).

Definition pop_key (key : claim_key) : KM () :=
  set_self (λ c, with_registry (rdel key (cl_registry c)) c).

(** [_untrack]: remove the entry only if it is this very handle. *)
Definition untrack (r : nat) : KM () :=
  h ← deref r;
  match h_claim_name h with
  | None => mret ()
  | Some claim_name =>
      let key := (h_namespace h, claim_name) in
      cur ← lookup_key key;
      if bool_decide (cur = Some r) then pop_key key else mret ()
  end.

Definition terminate (r : nat) : KM () :=
  _ ← on_handle r close_connection;
  h ← deref r;
  match str_or (h_claim_name h) None with
  | None => mret ()
  | Some claim_name =>
      _ ← world (delete_sandbox_claim claim_name (h_namespace h) None);
      _ ← (if h_hook h
           then _ ← untrack r; on_handle r (set_self (with_hook false))
           else mret ());
      on_handle r (set_self clear_claim)
  end.

(** A new handle in the registry, with the hook set. *)
Definition register (key : claim_key) (sandbox_id : string) : KM nat := λ s,
  let h := with_hook true (handle_new key.2 sandbox_id key.1 connection api_client) in
  (Ret (length (cl_heap s.1)),
   (Client (rset key (length (cl_heap s.1)) (cl_registry s.1)) (cl_explicit s.1)
      (cl_heap s.1 ++ [h]), s.2)).

(** ** create_sandbox *)

(** [_create_claim] *)
Definition create_claim (a : create_args) (claim_name : string)
    (lifecycle : option (list (string * string))) (pod_metadata : option AdditionalPodMetadata)
    : M W json :=
  let annotations := match str_or trace_context None with
                     | Some t => [("opentelemetry.io/trace-context", t)]
                     | None => []
                     end in
  create_sandbox_claim claim_name (ca_warmpool a) (ca_namespace a) (Some annotations) (ca_labels a)
    lifecycle (ca_volume_claim_templates a) pod_metadata (ca_env a).

(** The local variables, then the client and the world. *)
Abbreviation LM := (M (create_locals * (client * W))).

(** The claim: created, or the existing one when the name is taken and may be
    adopted. *)
Definition create_or_adopt (a : create_args) (claim_name : string)
    (lifecycle : option (list (string * string))) (pod_metadata : option AdditionalPodMetadata)
    : LM json :=
  except (λ e, match e with
               | ApiException s =>
                   if s =? 409 then
                     Some (_ ← set_self (λ l, CreateLocals false (claim_uid l));
                           if ca_adopt_existing a then
                             o ← world (world (get_sandbox_claim claim_name (ca_namespace a)));
                             mret (default JNull o)
                           else raise e)
                   else None
               | _ => None
               end)
    (world (world (create_claim a claim_name lifecycle pod_metadata))).

(** The [resourceVersion] of the claim; its [uid] goes to the local variable. *)
Definition read_identity (created : json) : LM (option string) :=
  match created with
  | JObj _ =>
      m ← lift (py_get created "metadata");
      let metadata := py_or m (JObj []) in
      rv ← lift (py_get metadata "resourceVersion");
      uid ← lift (py_get metadata "uid");
      _ ← set_self (λ l, CreateLocals (cleanup_generated l) (as_str uid));
      mret (as_str rv)
  | _ => mret None
  end.

(** From the claim to the name of its sandbox, once it is ready. *)
Definition await_claim (a : create_args) (generated : bool) (claim_name : string) (created : json)
    : LM string :=
  _ ← (if generated then mret ()
       else lift (validate_claim_for_adoption created claim_name (ca_warmpool a)));
  rv ← read_identity created;
  l ← self;
  id ← world (world (wait_for_claim_ready fuel claim_name (ca_namespace a) (ca_ready_timeout a) rv
         (if generated then None else claim_uid l)
         (if generated then None else match created with JNull => None | _ => Some created end)
         false));
  lift (sandbox_name id).

(** The body of the outer [try] up to the sandbox's name. *)
Definition create_body (a : create_args) (generated : bool) (claim_name : string)
    (lifecycle : option (list (string * string))) (pod_metadata : option AdditionalPodMetadata)
    : LM string :=
  created ← create_or_adopt a claim_name lifecycle pod_metadata;
  await_claim a generated claim_name created.

(** A tracked handle that can be returned instead of a new one. *)
Definition reusable (key : claim_key) (sandbox_id : string) : KM (option nat) :=
  existing ← lookup_key key;
  match existing with
  | None => mret None
  | Some r =>
      h ← deref r;
      mret (if is_active h && (h_sandbox_id h =? sandbox_id)%string then Some r else None)
  end.

(** The rollback of the [except] clause; its own failure is only logged. *)
Definition roll_back (claim_name namespace : string) (l : create_locals) : KM () :=
  if cleanup_generated l
  then except (λ _, Some (mret ()))
         (world (delete_sandbox_claim claim_name namespace (str_or (claim_uid l) None)))
  else mret ().

(** The handle of a ready sandbox: the tracked one if it is still good, else a new
    one that replaces it. *)
Definition attach (key : claim_key) (sandbox_id : string) : KM nat :=
  existing ← reusable key sandbox_id;
  match existing with
  | Some r => mret r
  | None =>
      previous ← lookup_key key;
      r ← register key sandbox_id;
      _ ← match previous with
          | Some p => on_handle p close_connection
          | None => mret ()
          end;
      mret r
  end.

(** From the claim's name to the handle. *)
Definition provision (a : create_args) (generated : bool) (claim_name : string)
    (lifecycle : option (list (string * string))) (pod_metadata : option AdditionalPodMetadata)
    : KM nat := λ s,
  match create_body a generated claim_name lifecycle pod_metadata (CreateLocals generated None, s) with
  | (Ret sandbox_id, (_, s1)) => attach (ca_namespace a, claim_name) sandbox_id s1
  | (Raise e, (l, s1)) => (_ ← roll_back claim_name (ca_namespace a) l; raise e) s1
  | (NoFuel, (_, s1)) => (NoFuel, s1)
  end.

Definition read_utcnow : M W Z := λ w, match utcnow_us w with (t, w') => (Ret t, w') end.

Definition create_sandbox (a : create_args) : KM nat :=
  if (ca_warmpool a =? EmptyString)%string then raise ValueError
  else
    _ ← match non_empty (ca_labels a) with
        | Some l => lift (validate_labels l)
        | None => mret ()
        end;
    pod_metadata ← lift (build_pod_metadata (ca_pod_labels a) (ca_pod_annotations a));
    lifecycle ← match ca_shutdown_after a with
                | Some n =>
                    now ← world read_utcnow;
                    l ← lift (construct_sandbox_claim_lifecycle_spec now n);
                    mret (Some l)
                | None => mret None
                end;
    match ca_claim_name a with
    | None =>
        if ca_adopt_existing a then raise ValueError
        else
          hex ← world uuid4_hex;
          provision a true ("sandbox-claim-" +:+ String.substring 0 8 hex) lifecycle pod_metadata
    | Some claim_name =>
        _ ← lift (validate_claim_name (JStr claim_name));
        _ ← set_self (λ c, with_explicit ({[(ca_namespace a, claim_name)]} ∪ cl_explicit c) c);
        provision a false claim_name lifecycle pod_metadata
    end.

(** ** Attaching, listing, deleting *)

Definition client_get_sandbox (claim_name namespace : string) (resolve_timeout : Z) : KM nat :=
  let key := (namespace, claim_name) in
  existing ← lookup_key key;
  sandbox_id ← except (λ e, Some (
      _ ← match existing with Some r => on_handle r close_connection | None => mret () end;
      raise SandboxNotFoundError))
    (id ← world (resolve_sandbox_name fuel claim_name namespace resolve_timeout None);
     sandbox_id ← lift (sandbox_name id);
     o ← world (get_sandbox sandbox_id namespace);
     if truthy (default JNull o) then mret sandbox_id else raise SandboxNotFoundError);
  match existing with
  | Some r =>
      h ← deref r;
      if is_active h then mret r
      else _ ← pop_key key; register key sandbox_id
  | None => register key sandbox_id
  end.

Definition list_active_sandboxes : KM (list claim_key) :=
  c ← self;
  _ ← for_each (cl_registry c) (λ p,
        h ← deref p.2; if is_active h then mret () else pop_key p.1);
  c ← self;
  mret (cl_registry c).*1.

Definition list_all_sandboxes (namespace : string) (label_selector : option string)
    : KM (list json) :=
  world (list_sandbox_claims namespace label_selector).

Definition delete_sandbox (claim_name namespace : string) : KM () :=
  let key := (namespace, claim_name) in
  sandbox ← lookup_key key;
  except (λ _, Some (mret ()))
    (match sandbox with
     | Some r => _ ← terminate r; pop_key key
     | None => world (delete_sandbox_claim claim_name namespace None)
     end).

Definition delete_all : KM () :=
  c ← self;
  for_each (cl_registry c) (λ p,
    except (λ _, Some (mret ())) (delete_sandbox p.1.2 p.1.1)).

Definition delete_automatic_sandboxes : KM () :=
  c ← self;
  for_each (cl_registry c) (λ p,
    except (λ _, Some (mret ()))
      (e ← gets (λ s : client * W, cl_explicit s.1);
       if bool_decide (p.1 ∈ e) then on_handle p.2 close_connection
       else delete_sandbox p.1.2 p.1.1)).

Definition get_sandbox_claim_warmpool_name (claim_name namespace : string) : KM string :=
  o ← world (get_sandbox_claim claim_name namespace);
  if negb (truthy (default JNull o)) then raise SandboxNotFoundError
  else
    spec ← lift (py_get_def (default JNull o) "spec" (JObj []));
    ref ← lift (py_get_def spec "warmPoolRef" (JObj []));
    name ← lift (py_get ref "name");
    match name with
    | JStr s => if (s =? EmptyString)%string then raise SandboxMetadataError else mret s
    | _ => raise SandboxMetadataError
    end.
End client.
