(* ===== verification/SandboxClientProofs.v ===== *)
(** Theorems on [SandboxClient]: the registry invariant, ownership of claims,
    rollback, and termination of handles. *)

From Stdlib Require Import Ascii String ZArith QArith Lia.
From stdpp Require Import base option list strings gmap pretty sets.
From S2P Require Import Prelude Hoare Json IpAddress PyText Models Validation Utils World Sim.
From S2P Require Import K8sHelper K8sHelperProofs Http Tunnel Connector Sandbox SandboxClient.

#[local] Open Scope Z_scope.

(** ** The dict of handles *)

Section registry_facts.
Context {K V : Type} `{EqDecision K}.
Implicit Types (d : list (K * V)).

Lemma rget_elem_of k v d : NoDup d.*1 → rget k d = Some v ↔ (k, v) ∈ d.
Proof.
  induction d as [|[k' v'] d IH]; cbn [rget fmap list_fmap]; intros Hd.
  - split; [done|]. by intros ?%elem_of_nil.
  - apply NoDup_cons in Hd as [Hk Hd]. rewrite elem_of_cons.
    destruct (decide (k = k')) as [<-|Hne]; [|rewrite IH by done; split; [by auto|by intros [[=]|?]]].
    split; [intros [= <-]; by left|]. intros [[= <-]|Hin]; [done|]. exfalso. apply Hk.
    by apply (list_elem_of_fmap_2 fst) in Hin.
Qed.

Lemma rget_None k d : rget k d = None ↔ k ∉ d.*1.
Proof.
  induction d as [|[k' v'] d IH]; cbn [rget fmap list_fmap fst].
  - split; [|done]. intros _. apply not_elem_of_nil.
  - rewrite not_elem_of_cons. destruct (decide (k = k')); [naive_solver|]. rewrite IH. naive_solver.
Qed.

Lemma rset_keys k v d k' : k' ∈ (rset k v d).*1 ↔ k' = k ∨ k' ∈ d.*1.
Proof.
  induction d as [|[k0 v0] d IH]; cbn [rset fmap list_fmap fst].
  - rewrite list_elem_of_singleton. rewrite elem_of_nil. naive_solver.
  - destruct (decide (k = k0)) as [<-|]; cbn [fmap list_fmap fst]; rewrite !elem_of_cons; [naive_solver|].
    rewrite IH. naive_solver.
Qed.

Lemma rset_NoDup k v d : NoDup d.*1 → NoDup (rset k v d).*1.
Proof.
  induction d as [|[k0 v0] d IH]; cbn [rset fmap list_fmap fst]; intros Hd.
  - apply NoDup_singleton.
  - apply NoDup_cons in Hd as [Hk Hd]. destruct (decide (k = k0)) as [<-|]; cbn [fmap list_fmap fst];
      apply NoDup_cons; [done|]. split; [|by apply IH]. rewrite rset_keys. naive_solver.
Qed.

Lemma elem_of_rset k v d p : NoDup d.*1 → p ∈ rset k v d ↔ p = (k, v) ∨ (p ∈ d ∧ p.1 ≠ k).
Proof.
  destruct p as [k1 v1]. intros Hd. rewrite <-rget_elem_of by (by apply rset_NoDup).
  rewrite <-(rget_elem_of k1 v1) by done. cbn [fst].
  clear Hd. induction d as [|[k0 v0] d IH]; cbn [rset rget].
  - destruct (decide (k1 = k)); naive_solver.
  - destruct (decide (k = k0)) as [->|]; cbn [rget]; repeat case_decide; naive_solver.
Qed.

Lemma elem_of_rdel k d p : p ∈ rdel k d ↔ p ∈ d ∧ p.1 ≠ k.
Proof. unfold rdel. rewrite list_elem_of_filter. naive_solver. Qed.

Lemma rdel_NoDup k d : NoDup d.*1 → NoDup (rdel k d).*1.
Proof.
  unfold rdel. induction d as [|[k0 v0] d IH]; cbn [fmap list_fmap fst]; intros Hd; [done|].
  apply NoDup_cons in Hd as [Hk Hd]. rewrite filter_cons. case_decide; [|by apply IH].
  cbn [fmap list_fmap fst]. apply NoDup_cons. split; [|by apply IH].
  intros (p & -> & [_ Hp]%list_elem_of_filter)%list_elem_of_fmap. apply Hk.
  by apply (list_elem_of_fmap_2 fst) in Hp.
Qed.
End registry_facts.

(** ** Closing a handle *)

(** The fields closing leaves alone. *)
Definition same_identity (h h' : handle) : Prop :=
  h_claim_name h' = h_claim_name h ∧ h_namespace h' = h_namespace h ∧
  h_sandbox_id h' = h_sandbox_id h ∧ h_hook h' = h_hook h.

(** ** Code that leaves a claim alone *)

(** Every world of a stream satisfies [Q]. *)
Fixpoint stream_all {W} (Q : W → Prop) (st : stream W) : Prop :=
  match st with
  | SEnd w | SFail _ w | SHang w => Q w
  | SEvent _ w rest => Q w ∧ stream_all Q rest
  end.

(** No call but the deletion of a claim falsifies [Q]; for example, that a claim
    exists. *)
Class Neutral (W : Type) `{Clock W} `{K8sApi W} `{Host W} `{Net W} `{Uuid W} (Q : W → Prop) := {
  neutral_clock : ∀ w, Q w → Q (monotonic w).2;
  neutral_sleep : ∀ d w, Q w → Q (sleep d w);
  neutral_utcnow : ∀ w, Q w → Q (utcnow_us w).2;
  neutral_isoformat : ∀ w, Q w → Q (utcnow_isoformat w).2;
  neutral_uuid : stable Q uuid4_hex;
  neutral_create : ∀ r ns o, stable Q (create_object r ns o);
  neutral_get : ∀ r ns n, stable Q (get_object r ns n);
  neutral_watch : ∀ req w, Q w → stream_all Q (watch_stream req w);
  neutral_terminate : ∀ p, stable Q (terminate_process p);
  neutral_wait : ∀ p, stable Q (wait_process p);
  neutral_kill : ∀ p, stable Q (kill_process p);
  neutral_grpc_close : ∀ ch, stable Q (grpc_close ch);
  neutral_session_close : stable Q session_close;
}.

Section neutral.
Context {W : Type} {Hclock : Clock W} {Hk8s : K8sApi W} {Hhost : Host W} {Hnet : Net W}
  {Huuid : Uuid W} (Q : W → Prop) {HQ : Neutral W Q}.

Lemma stable_read_clock : stable Q read_clock.
Proof. intros w Hw. unfold read_clock. pose proof (neutral_clock w Hw). by destruct (monotonic w). Qed.
Lemma stable_do_sleep d : stable Q (do_sleep d).
Proof. intros w Hw. by apply neutral_sleep. Qed.
Lemma stable_utcnow : stable Q read_utcnow.
Proof. intros w Hw. unfold read_utcnow. pose proof (neutral_utcnow w Hw). by destruct (utcnow_us w). Qed.
Lemma stable_isoformat : stable Q read_isoformat.
Proof.
  intros w Hw. unfold read_isoformat. pose proof (neutral_isoformat w Hw). by destruct (utcnow_isoformat w).
Qed.
#[local] Hint Resolve stable_isoformat stable_read_clock stable_do_sleep stable_utcnow neutral_uuid neutral_create
  neutral_get neutral_terminate neutral_wait neutral_kill neutral_grpc_close
  neutral_session_close : stable.

(** *** Closing *)
Lemma stable_stop pid : stable Q (stop_process pid).
Proof. unfold stop_process. stable. Qed.
#[local] Hint Resolve stable_stop : stable.
Lemma stable_tunnel_close : stable (λ s : tunnel * W, Q s.2) tunnel_close.
Proof. unfold tunnel_close. stable. Qed.
Lemma stable_drop_channel : stable (λ s : conn * W, Q s.2) drop_channel.
Proof. unfold drop_channel. stable. Qed.
Lemma stable_on_strategy {X A} mk (x : X) (m : M (X * W) A) :
  stable (λ s, Q s.2) m → stable (λ s : conn * W, Q s.2) (on_strategy mk x m).
Proof.
  intros Hm [c w] Hs. specialize (Hm (x, w) Hs). unfold on_strategy. cbn in *.
  by destruct (m (x, w)) as [r [x' w']].
Qed.
#[local] Hint Resolve stable_tunnel_close stable_drop_channel stable_on_strategy : stable.
Lemma stable_conn_close : stable (λ s : conn * W, Q s.2) conn_close.
Proof. unfold conn_close, strategy_close. stable. Qed.
Lemma stable_on_conn {A} (m : M (conn * W) A) :
  stable (λ s, Q s.2) m → stable (λ s : handle * W, Q s.2) (on_conn m).
Proof.
  intros Hm [h w] Hs. specialize (Hm (h_conn h, w) Hs). unfold on_conn. cbn in *.
  by destruct (m (h_conn h, w)) as [r [c w']].
Qed.
#[local] Hint Resolve stable_conn_close stable_on_conn : stable.
Lemma stable_close_connection : stable (λ s : handle * W, Q s.2) close_connection.
Proof. unfold close_connection. stable. Qed.

(** *** Waiting *)
Lemma consume_neutral {St R} (f : St → json → outcome (St * option R)) st str :
  stream_all Q str → Q (consume f st str).2.2.
Proof.
  revert st. induction str as [w|e w|w|ev w rest IH]; intros st Hs; cbn [consume]; [done..|].
  destruct Hs as [Hw Hr]. destruct (f st ev) as [[st' [r|]]|e|]; [done|by apply IH|done|done].
Qed.

Lemma chain_neutral evs w str : Q w → stream_all Q str → stream_all Q (chain evs w str).
Proof. intros Hw Hs. by induction evs as [|ev evs IH]; [|split]. Qed.

Lemma stable_watch_loop {St R} (f : St → json → outcome (St * option R)) init req err deadline n st :
  stable Q (watch_loop f init req err deadline n st).
Proof.
  revert st. induction n as [|n IH]; intros st; cbn [watch_loop]; [apply stable_no_fuel|].
  apply stable_bind; [apply stable_read_clock|]. intros now.
  destruct (_ <=? _)%Z; [apply stable_raise|]. intros w Hw.
  destruct (init st) as [evs st0].
  pose proof (consume_neutral f st0 _ (chain_neutral evs w _ Hw (neutral_watch
    (req st (ceil_seconds (deadline - now))) w Hw))) as Hc.
  destruct (consume f st0 _) as [[[r|]|e|] [st' w']]; cbn [fst snd] in Hc; [done|by apply IH| |done].
  destruct (err e st') as [[st''|st'']|]; [|by apply IH|done].
  refine (stable_bind Q (reconnect_pause deadline) _ _ (λ _, IH st'') w' Hc).
  unfold reconnect_pause. stable.
Qed.
#[local] Hint Resolve stable_watch_loop : stable.

Lemma stable_watch_claim n claim ns t p rv o : stable Q (watch_claim n claim ns t p rv o).
Proof. unfold watch_claim, deadline_after. stable. Qed.
Lemma stable_none_on_404 m : stable Q m → stable Q (none_on_404 m).
Proof. intros Hm. unfold none_on_404. stable. Qed.
Lemma stable_get_claim n ns : stable Q (get_sandbox_claim n ns).
Proof. apply stable_none_on_404, neutral_get. Qed.
Lemma stable_get_sandbox n ns : stable Q (get_sandbox n ns).
Proof. apply stable_none_on_404, neutral_get. Qed.
Lemma stable_create_claim n wp ns an lb lc v p e : stable Q (create_sandbox_claim n wp ns an lb lc v p e).
Proof. unfold create_sandbox_claim. stable. Qed.
Lemma stable_on_handle {A} r (m : M (handle * W) A) :
  stable (λ s, Q s.2) m → stable (λ s : client * W, Q s.2) (on_handle r m).
Proof.
  intros Hm [c w] Hs. unfold on_handle. cbn [fst snd]. destruct (cl_heap c !! r) as [h|]; [|done].
  specialize (Hm (h, w) Hs). cbn in *. by destruct (m (h, w)) as [res [h' w']].
Qed.
Lemma stable_deref r : stable (λ s : client * W, Q s.2) (deref r).
Proof. intros [c w] Hs. unfold deref. by destruct (cl_heap _ !! r). Qed.
Lemma stable_lookup_key key : stable (λ s : client * W, Q s.2) (lookup_key key).
Proof. apply stable_gets. Qed.
Lemma stable_pop_key key : stable (λ s : client * W, Q s.2) (pop_key key).
Proof. apply stable_set_self. Qed.
Lemma stable_register con ac key id : stable (λ s : client * W, Q s.2) (register con ac key id).
Proof. by intros [c w] Hs. Qed.
End neutral.
#[local] Hint Resolve stable_utcnow neutral_uuid stable_close_connection stable_watch_claim
  stable_get_claim stable_get_sandbox stable_create_claim stable_on_handle stable_deref
  stable_lookup_key stable_pop_key stable_register : stable.

Section client.
Context {W : Type} {Hclock : Clock W} {Hk8s : K8sApi W} {Hhost : Host W} {Hnet : Net W}
  {Huuid : Uuid W}.
Variable connection : SandboxConnectionConfig.
Variable api_client : option ApiClient.
Variable trace_context : option string.
Variable fuel : nat.

#[local] Abbreviation register := (register (W := W) connection api_client).
#[local] Abbreviation create_sandbox := (create_sandbox connection api_client trace_context fuel).
#[local] Abbreviation provision := (provision connection api_client trace_context fuel).
#[local] Abbreviation client_get_sandbox := (client_get_sandbox connection api_client fuel).

Lemma close_connection_run h (w : W) r h' w' :
  close_connection (h, w) = (r, (h', w')) →
  same_identity h h' ∧ (r = Ret () → h_closed h' = true) ∧
  (h_closed h = true → r = Ret () ∧ h' = h ∧ w' = w).
Proof.
  unfold close_connection, on_conn. run_unfold. unfold self, set_self. cbn [fst snd].
  destruct (h_closed h) eqn:Ec.
  { intros [= <- <- <-]. by split_and!. }
  cbn [fst snd]. change (h_conn (with_pod_name None h)) with (h_conn h).
  destruct (conn_close (h_conn h, w)) as [[[]|e|] [c w1]]; intros [= <- <- <-]; by split_and!.
Qed.

(** ** The invariant *)

(** Every entry of the registry is a handle of that very claim, with the hook
    that removes the entry when the claim is deleted. *)
Definition tracked (c : client) (key : claim_key) (r : nat) : Prop :=
  ∃ h, cl_heap c !! r = Some h ∧ h_namespace h = key.1 ∧ h_claim_name h = Some key.2 ∧
       h_hook h = true.

Definition registry_ok (c : client) : Prop :=
  NoDup (cl_registry c).*1 ∧ ∀ key r, (key, r) ∈ cl_registry c → tracked c key r.

Definition inv (s : client * W) : Prop := registry_ok s.1.

(** The reference of an entry determines its key. *)
Lemma registry_ok_inj c key key' r :
  registry_ok c → (key, r) ∈ cl_registry c → (key', r) ∈ cl_registry c → key = key'.
Proof.
  intros [_ Hr] (h & Hh & Hn & Hc & _)%Hr (h' & Hh' & Hn' & Hc' & _)%Hr.
  rewrite Hh in Hh'. injection Hh' as <-. destruct key, key'; cbn in *. congruence.
Qed.

Lemma registry_refs_NoDup c : registry_ok c → NoDup (cl_registry c).*2.
Proof.
  intros Hok. pose proof (registry_ok_inj c) as Hinj. pose proof (proj1 Hok) as Hd.
  assert (∀ key key' r, (key, r) ∈ cl_registry c → (key', r) ∈ cl_registry c → key = key') as Hi
    by eauto.
  clear Hinj Hok. induction (cl_registry c) as [|[k r] reg IH]; [constructor|].
  cbn [fmap list_fmap fst snd] in *. apply NoDup_cons in Hd as [Hk Hd]. apply NoDup_cons. split.
  - intros ([k' r'] & Heq & Hin)%list_elem_of_fmap. cbn in Heq. subst r'.
    assert (k = k') as <- by (eapply Hi; [by left|by right]).
    apply Hk. by apply (list_elem_of_fmap_2 fst) in Hin.
  - apply IH; [done|]. intros key key' r' ? ?. eapply Hi; by right.
Qed.

(** Updating a handle that keeps its identity. *)
Lemma registry_ok_update c r h h' :
  cl_heap c !! r = Some h → same_identity h h' → registry_ok c →
  registry_ok (with_heap (<[r := h']> (cl_heap c)) c).
Proof.
  intros Hr (H1 & H2 & _ & H3) [Hd Ht]. split; [done|]. intros key r' Hin.
  destruct (Ht key r' Hin) as (h0 & Hh0 & Hn & Hc & Hk). destruct (decide (r = r')) as [<-|Hne].
  - rewrite Hr in Hh0. injection Hh0 as <-. exists h'. cbn.
    rewrite list_lookup_insert_eq by (by eapply lookup_lt_Some). split_and!; congruence.
  - exists h0. cbn. by rewrite list_lookup_insert_ne.
Qed.

(** Any update of a handle that is not tracked. *)
Lemma registry_ok_update_untracked c r h' :
  (∀ key, (key, r) ∉ cl_registry c) → registry_ok c →
  registry_ok (with_heap (<[r := h']> (cl_heap c)) c).
Proof.
  intros Hr [Hd Ht]. split; [done|]. intros key r' Hin.
  destruct (Ht key r' Hin) as (h0 & Hh0 & ?). exists h0. cbn.
  rewrite list_lookup_insert_ne; [done|]. intros <-. by eapply Hr.
Qed.

Lemma registry_ok_rdel c key : registry_ok c → registry_ok (with_registry (rdel key (cl_registry c)) c).
Proof.
  intros [Hd Ht]. split; [by apply rdel_NoDup|]. intros key' r Hin. cbn in Hin.
  apply elem_of_rdel in Hin as [Hin _]. by apply Ht.
Qed.

(** ** Terminating a handle *)

(** The registry without the entry of [r] for [key]; another handle's entry
    stays. *)
Definition untracked (r : nat) (key : claim_key) (reg : list (claim_key * nat)) :=
  if bool_decide (rget key reg = Some r) then rdel key reg else reg.

(** After the claim is deleted. *)
Definition terminated (r : nat) (claim : string) (h1 : handle) (c : client) : client :=
  Client (if h_hook h1 then untracked r (h_namespace h1, claim) (cl_registry c) else cl_registry c)
    (cl_explicit c) (<[r := clear_claim (with_hook false h1)]> (cl_heap c)).

Lemma with_hook_id h b : h_hook h = b → with_hook b h = h.
Proof. intros <-. by destruct h. Qed.

Lemma on_handle_set r c (w : W) h f :
  cl_heap c !! r = Some h →
  on_handle r (set_self f) (c, w) = (Ret (), (with_heap (<[r := f h]> (cl_heap c)) c, w)).
Proof. intros Hh. unfold on_handle. cbn. by rewrite Hh. Qed.

Lemma untrack_run r c (w : W) h n :
  cl_heap c !! r = Some h → h_claim_name h = Some n →
  untrack r (c, w)
  = (Ret (), (with_registry (untracked r (h_namespace h, n) (cl_registry c)) c, w)).
Proof.
  intros Hh Hn. unfold untrack, deref, lookup_key, pop_key. run_unfold. unfold gets, set_self.
  cbn [fst snd]. rewrite Hh, Hn. unfold untracked. cbn [fst snd].
  destruct (bool_decide _); [done|]. by destruct c.
Qed.

(** Everything [terminate] does. *)
Lemma terminate_run r c (w : W) h res c' w' :
  cl_heap c !! r = Some h → terminate r (c, w) = (res, (c', w')) → res ≠ NoFuel →
  ∃ rc h1 w1, close_connection (h, w) = (rc, (h1, w1)) ∧
    let c1 := with_heap (<[r := h1]> (cl_heap c)) c in
    match rc with
    | Ret _ =>
        match str_or (h_claim_name h1) None with
        | None => res = Ret () ∧ c' = c1 ∧ w' = w1
        | Some n =>
            ∃ rd, delete_sandbox_claim n (h_namespace h1) None w1 = (rd, w') ∧
            match rd with
            | Ret _ => res = Ret () ∧ c' = terminated r n h1 c
            | Raise e => res = Raise e ∧ c' = c1
            | NoFuel => False
            end
        end
    | Raise e => res = Raise e ∧ c' = c1 ∧ w' = w1
    | NoFuel => False
    end.
Proof.
  intros Hh. unfold terminate, mbind, M_bind, mret, M_ret, on_handle at 1. cbn [fst snd]. rewrite Hh.
  destruct (close_connection (h, w)) as [rc [h1 w1]] eqn:Ec. intros H Hres.
  exists rc, h1, w1. split; [done|]. cbn zeta.
  assert (r < length (cl_heap c))%nat as Hr by (by eapply lookup_lt_Some).
  destruct rc as [[]|e|]; [|by simplify_eq|by simplify_eq].
  unfold deref in H. cbn [fst snd cl_heap with_heap] in H. rewrite list_lookup_insert_eq in H by done.
  destruct (str_or (h_claim_name h1) None) as [n|] eqn:En; [|injection H as <- <- <-; done].
  unfold world in H. cbn [fst snd] in H.
  destruct (delete_sandbox_claim n (h_namespace h1) None w1) as [[[]|e|] w2];
    [|injection H as <- <- <-; by exists (Raise e)|by simplify_eq].
  assert (h_claim_name h1 = Some n) as Hn.
  { unfold str_or in En. by destruct (truthy_str_opt _). }
  assert ((res, (c', w')) = (Ret (), (terminated r n h1 c, w2))) as Hfin; [|injection Hfin as -> -> ->; by exists (Ret ())].
  rewrite <-H. unfold terminated. destruct (h_hook h1) eqn:Ehk.
  - rewrite (untrack_run r _ w2 h1 n) by (try done; cbn; by apply list_lookup_insert_eq). cbn [fst snd].
    rewrite (on_handle_set r _ w2 h1) by (cbn; by apply list_lookup_insert_eq).
    erewrite on_handle_set by (cbn; rewrite list_lookup_insert_eq by (by rewrite length_insert); done).
    cbn. by rewrite !list_insert_insert_eq.
  - erewrite on_handle_set by (cbn; by apply list_lookup_insert_eq).
    cbn [cl_heap with_heap]. by rewrite list_insert_insert_eq, (with_hook_id h1 false Ehk).
Qed.

(** ** The invariant is kept *)

Lemma on_handle_close_inv r : spec inv (on_handle r close_connection) (λ _, inv) inv.
Proof.
  intros [c w] Hs. unfold on_handle. cbn [fst snd]. destruct (cl_heap c !! r) as [h|] eqn:Eh; [|done].
  destruct (close_connection (h, w)) as [res [h' w']] eqn:Ec.
  apply close_connection_run in Ec as [Hid _].
  destruct res; [| |done]; unfold inv; cbn [fst]; by eapply registry_ok_update.
Qed.

Lemma pop_key_inv key : spec inv (pop_key key) (λ _, inv) inv.
Proof. apply spec_set_self. intros c w Hs. by apply registry_ok_rdel. Qed.

Lemma register_inv key id :
  spec inv (register key id) (λ r s, inv s ∧ (key, r) ∈ cl_registry s.1 ∧
    cl_heap s.1 !! r = Some (with_hook true (handle_new key.2 id key.1 connection api_client))) inv.
Proof.
  intros [c w] [Hd Ht]. unfold SandboxClient.register, inv. cbn [fst snd cl_registry cl_heap] in *.
  split_and!.
  - split; [by apply rset_NoDup|]. cbn. intros key' r Hin. apply elem_of_rset in Hin as [[= -> ->]|[Hin _]].
    + eexists. cbn. by rewrite list_lookup_middle.
    + destruct (Ht key' r Hin) as (h & Hh & ?). exists h. cbn. split; [|done].
      by apply lookup_app_l_Some.
    + done.
  - apply elem_of_rset; [done|]. by left.
  - by apply list_lookup_middle.
Qed.

Lemma terminated_ok c r n h h1 :
  cl_heap c !! r = Some h → same_identity h h1 → h_claim_name h1 = Some n → registry_ok c →
  registry_ok (terminated r n h1 c) ∧ ∀ key, (key, r) ∉ cl_registry (terminated r n h1 c).
Proof.
  intros Hh (Hc & Hns & _ & Hk) Hn Hok. pose proof Hok as [Hd Ht].
  assert (∀ key, (key, r) ∉ cl_registry (terminated r n h1 c)) as Hgone.
  { intros key. unfold terminated, untracked. cbn [cl_registry]. intros Hin.
    assert ((key, r) ∈ cl_registry c) as Hin'.
    { destruct (h_hook h1); [|done]. case_bool_decide; [|done]. by apply elem_of_rdel in Hin as [? _]. }
    destruct (Ht key r Hin') as (h0 & Hh0 & Hns0 & Hc0 & Hk0). rewrite Hh in Hh0. injection Hh0 as <-.
    assert (key = (h_namespace h1, n)) as -> by (destruct key; cbn in *; congruence).
    rewrite Hk, Hk0, bool_decide_eq_true_2 in Hin by (by apply rget_elem_of).
    by apply elem_of_rdel in Hin as [_ ?]. }
  split; [|done]. split.
  - unfold terminated, untracked. cbn. destruct (h_hook h1); [|done].
    case_bool_decide; [by apply rdel_NoDup|done].
  - intros key r' Hin. assert (r' ≠ r) as Hne by (intros ->; by eapply Hgone).
    assert ((key, r') ∈ cl_registry c) as Hin'.
    { unfold terminated, untracked in Hin. cbn in Hin. destruct (h_hook h1); [|done].
      case_bool_decide; [|done]. by apply elem_of_rdel in Hin as [? _]. }
    destruct (Ht key r' Hin') as (h0 & ?). exists h0. cbn. by rewrite list_lookup_insert_ne.
Qed.

Lemma terminated_other c r n h1 key r' :
  registry_ok c → r' ≠ r →
  (key, r') ∈ cl_registry (terminated r n h1 c) ↔ (key, r') ∈ cl_registry c.
Proof.
  intros [Hd _] Hne. unfold terminated, untracked. cbn [cl_registry]. destruct (h_hook h1); [|done].
  case_bool_decide as Hg; [|done]. rewrite elem_of_rdel. split; [by intros [? _]|].
  intros Hin. split; [done|]. cbn. intros ->. apply rget_elem_of in Hin; [|done]. congruence.
Qed.

Lemma terminate_inv r : spec inv (terminate r) (λ _, inv) inv.
Proof.
  intros [c w] Hs. destruct (terminate r (c, w)) as [res [c' w']] eqn:E.
  destruct (cl_heap c !! r) as [h|] eqn:Eh.
  2: { unfold terminate, mbind, M_bind, on_handle in E. cbn in E. rewrite Eh in E.
       injection E as <- <- <-. done. }
  destruct (decide (res = NoFuel)) as [->|Hres]; [done|].
  assert (inv (c', w')) as Hinv; [|by destruct res].
  destruct (terminate_run r c w h res c' w' Eh E Hres) as (rc & h1 & w1 & Ec & H). cbn zeta in H.
  apply close_connection_run in Ec as [Hid _].
  pose proof (registry_ok_update c r h h1 Eh Hid Hs) as Hupd. unfold inv. cbn [fst].
  destruct rc as [[]|e|]; [|by destruct H as (_ & -> & _)|done].
  destruct (str_or (h_claim_name h1) None) as [n|] eqn:En; [|by destruct H as (_ & -> & _)].
  destruct H as (rd & _ & H). destruct rd as [[]|e|]; [|by destruct H as (_ & ->)|done].
  destruct H as (_ & ->). eapply terminated_ok; [done..| |done].
  unfold str_or in En. by destruct (truthy_str_opt _).
Qed.

Lemma world_inv {A} (m : M W A) : spec inv (world m) (λ _, inv) inv.
Proof. apply spec_world. intros c w Hs. by destruct (m w) as [[]]. Qed.

Lemma delete_sandbox_inv claim ns fin : spec inv (delete_sandbox claim ns) (λ _, inv) fin.
Proof.
  unfold delete_sandbox. eapply spec_bind with (mid := λ _, inv); [by apply spec_gets|].
  intros [r|]; apply spec_swallow; [|apply world_inv].
  eapply spec_bind with (mid := λ _, inv); [apply terminate_inv|intros _; apply pop_key_inv].
Qed.

Lemma delete_all_inv fin : spec inv delete_all (λ _, inv) fin.
Proof.
  unfold delete_all. eapply spec_bind with (mid := λ _, inv); [by apply spec_self|].
  intros c. apply spec_for_each. intros p _. apply spec_swallow, delete_sandbox_inv.
Qed.

Lemma delete_automatic_inv fin : spec inv delete_automatic_sandboxes (λ _, inv) fin.
Proof.
  unfold delete_automatic_sandboxes. eapply spec_bind with (mid := λ _, inv); [by apply spec_self|].
  intros c. apply spec_for_each. intros p _. apply spec_swallow.
  eapply spec_bind with (mid := λ _, inv); [by apply spec_gets|]. intros e.
  destruct (bool_decide _); [apply on_handle_close_inv|apply delete_sandbox_inv].
Qed.

Lemma deref_spec r :
  spec inv (deref r) (λ h s, inv s ∧ cl_heap s.1 !! r = Some h) inv.
Proof. intros [c w] Hs. unfold deref. by destruct (cl_heap _ !! r) eqn:E. Qed.

Lemma list_active_inv : spec inv list_active_sandboxes (λ _, inv) inv.
Proof.
  unfold list_active_sandboxes. eapply spec_bind with (mid := λ _, inv); [by apply spec_self|].
  intros c. eapply spec_bind with (mid := λ _, inv).
  - apply spec_for_each. intros p _. eapply spec_bind; [apply deref_spec|]. intros h.
    destruct (is_active h); [apply spec_ret; by intros s [? _]|].
    eapply spec_weaken; [apply pop_key_inv|by intros s [? _]|done|done].
  - intros _. eapply spec_bind with (mid := λ _, inv); [by apply spec_self|].
    intros c'. by apply spec_ret.
Qed.

(** A handle the client hands out: it is tracked under [key] and usable. *)
Definition handed_out (key : claim_key) (r : nat) (s : client * W) : Prop :=
  (key, r) ∈ cl_registry s.1 ∧ ∃ h, cl_heap s.1 !! r = Some h ∧ is_active h = true.

Lemma register_handed_out key id :
  spec inv (register key id) (λ r s, inv s ∧ handed_out key r s) inv.
Proof.
  eapply spec_weaken; [apply register_inv|done| |done]. intros r s (? & ? & Hh).
  split; [done|]. split; [done|]. eexists. by rewrite Hh.
Qed.

Lemma lookup_key_spec key :
  spec inv (lookup_key key) (λ o s, inv s ∧ ∀ r, o = Some r → (key, r) ∈ cl_registry s.1) inv.
Proof.
  apply spec_gets. intros s Hs. split; [done|]. intros r. apply rget_elem_of, Hs.
Qed.

(** Calls to the cluster do not touch the client. *)
Lemma world_client {A} (m : M W A) (P : client → Prop) :
  spec (λ s : client * W, P s.1) (world m) (λ _ s, P s.1) (λ s, P s.1).
Proof. apply spec_world. intros c w Hs. by destruct (m w) as [[]]. Qed.

Lemma get_sandbox_spec claim ns t :
  spec inv (client_get_sandbox claim ns t) (λ r s, inv s ∧ handed_out (ns, claim) r s) inv.
Proof.
  unfold SandboxClient.client_get_sandbox. eapply spec_bind; [apply lookup_key_spec|]. intros existing.
  set (P := λ c, registry_ok c ∧ ∀ r, existing = Some r → ((ns, claim), r) ∈ cl_registry c).
  eapply spec_bind with (mid := λ _ s, P s.1).
  - eapply spec_except with (mid := λ s, P s.1).
    + eapply spec_bind; [apply (world_client _ P)|]. intros id.
      eapply spec_bind with (mid := λ _ s, P s.1); [by apply spec_lift|]. intros sandbox_id.
      eapply spec_bind; [apply (world_client _ P)|]. intros o.
      destruct (truthy _); [by apply spec_ret|by apply spec_raise].
    + intros _. eapply spec_bind with (mid := λ _, inv); [|intros _; by apply spec_raise].
      destruct existing as [r|]; [|apply spec_ret; by intros s [? _]].
      eapply spec_weaken; [apply on_handle_close_inv|by intros s [? _]|done|done].
  - intros sandbox_id. destruct existing as [r|].
    + eapply spec_bind with (mid := λ h s, P s.1 ∧ cl_heap s.1 !! r = Some h).
      { intros [c w] Hs. unfold deref. destruct (cl_heap _ !! r) eqn:E; [done|apply Hs]. }
      intros h. destruct (is_active h) eqn:Ea.
      * apply spec_ret. intros s [[Hok Hin] Hh]. split; [done|]. split; [by apply Hin|eauto].
      * eapply spec_bind with (mid := λ _, inv); [|intros _; apply register_handed_out].
        eapply spec_weaken; [apply pop_key_inv|by intros s [[? _] _]|done|done].
    + eapply spec_weaken; [apply register_handed_out|by intros s [? _]|done|done].
Qed.

(** ** Creation *)

Lemma stable_world_client {A} (m : M W A) c : stable (λ s : client * W, s.1 = c) (world m).
Proof. intros [c0 w] Hs. unfold world. cbn in *. by destruct (m w). Qed.
#[local] Hint Resolve stable_world_client : stable.

(** The body of the [try] only talks to the cluster. *)
Lemma create_body_client a g name lc pm c :
  stable (λ s : create_locals * (client * W), s.2.1 = c)
    (create_body trace_context fuel a g name lc pm).
Proof.
  unfold create_body, create_or_adopt, await_claim, read_identity.
  pose proof (λ A m, stable_world (X := create_locals) (λ s : client * W, s.1 = c) (@world client W A m)
                       (stable_world_client m c)) as Hw.
  pose proof (λ f, stable_set_self (X := create_locals) (λ s : client * W, s.1 = c) f) as Hset.
  stable.
Qed.

Lemma reusable_spec key id :
  spec inv (reusable key id) (λ o s, inv s ∧ ∀ r, o = Some r → handed_out key r s) inv.
Proof.
  unfold reusable. eapply spec_bind; [apply lookup_key_spec|]. intros [r|].
  2: { apply spec_ret. by intros s [? _]. }
  eapply spec_bind with (mid := λ h s, (inv s ∧ (key, r) ∈ cl_registry s.1) ∧ cl_heap s.1 !! r = Some h).
  { intros [c w] [Hs Hin]. unfold deref. destruct (cl_heap _ !! r) eqn:E; [|done].
    split; [split; [done|by apply Hin]|done]. }
  intros h. apply spec_ret. intros s [[Hs Hin] Hh]. split; [done|].
  destruct (is_active h) eqn:Ea; cbn [andb]; [|done]. destruct (_ =? _)%string; [|done].
  intros ? [= <-]. split; [done|eauto].
Qed.

(** Closing another handle does not matter. *)
Lemma close_other_handed_out key r p :
  p ≠ r →
  spec (λ s, inv s ∧ handed_out key r s) (on_handle p close_connection)
    (λ _ s, inv s ∧ handed_out key r s) inv.
Proof.
  intros Hne s [Hs (Hin & h & Hh & Ha)]. pose proof (on_handle_close_inv p s Hs) as Hinv.
  unfold on_handle in *. destruct s as [c w]. cbn [fst snd] in *.
  destruct (cl_heap c !! p) as [hp|]; [|done].
  destruct (close_connection (hp, w)) as [res [h' w']]. destruct res as [[]|e|]; [|done|done].
  split; [done|]. split; [done|]. exists h. cbn. by rewrite list_lookup_insert_ne.
Qed.

Lemma attach_spec key id :
  spec inv (attach connection api_client key id) (λ r s, inv s ∧ handed_out key r s) inv.
Proof.
  unfold attach. eapply spec_bind; [apply reusable_spec|]. intros [r|].
  { apply spec_ret. intros s [Hs Hr]. split; [done|by apply Hr]. }
  eapply spec_bind; [eapply spec_weaken; [apply lookup_key_spec|by intros s [? _]|..]|].
  { intros o s Hs. exact Hs. } { done. }
  intros previous.
  eapply spec_bind with (mid := λ r s, (inv s ∧ handed_out key r s) ∧ ∀ p, previous = Some p → p ≠ r).
  { intros [c w] [Hs Hp]. pose proof (register_handed_out key id (c, w) Hs) as Hreg.
    unfold SandboxClient.register in *. cbn [fst snd] in *. split; [exact Hreg|].
    intros p ->. destruct (proj2 Hs key p (Hp p eq_refl)) as (h & Hh & _).
    apply lookup_lt_Some in Hh. cbn in Hh. lia. }
  intros r. eapply spec_bind with (mid := λ _ s, inv s ∧ handed_out key r s).
  - intros s [Hs Hne]. destruct previous as [p|]; [|done]. apply close_other_handed_out; auto.
  - intros _. by apply spec_ret.
Qed.

(** If attaching fails, a handle of the claim is already tracked. *)
Lemma attach_raises_tracked key id (c : client) (w : W) e s' :
  attach connection api_client key id (c, w) = (Raise e, s') →
  ∃ r, (key, r) ∈ cl_registry s'.1.
Proof.
  intros H. enough (key ∈ (cl_registry s'.1).*1) as ([k r] & -> & Hin)%list_elem_of_fmap by eauto.
  destruct (decide (key ∈ (cl_registry c).*1)) as [Hin|Hout%rget_None].
  - set (T := λ s : client * W, key ∈ (cl_registry s.1).*1).
    assert (∀ r, stable T (deref r)) as Hd.
    { intros r [c0 w0] Hs. unfold deref. by destruct (cl_heap _ !! r). }
    assert (stable T (register key id)) as Hr.
    { intros [c0 w0] Hs. unfold T. cbn. apply rset_keys. by left. }
    assert (∀ A r (m : M (handle * W) A), stable T (on_handle r m)) as Ho.
    { intros A r m [c0 w0] Hs. unfold on_handle. cbn [fst snd]. destruct (cl_heap c0 !! r); [|done].
      by destruct (m _) as [? [? ?]]. }
    assert (stable T (attach connection api_client key id)) as Hst
      by (unfold attach, reusable, lookup_key; stable).
    specialize (Hst (c, w) Hin). by rewrite H in Hst.
  - unfold attach, reusable, lookup_key, mbind, M_bind, mret, M_ret, gets in H. cbn [fst snd] in H.
    rewrite Hout in H. cbn [fst snd] in H. by rewrite Hout in H.
Qed.

Lemma roll_back_inv name ns l : spec inv (roll_back name ns l) (λ _, inv) inv.
Proof.
  unfold roll_back. destruct (cleanup_generated l); [|by apply spec_ret].
  apply spec_swallow, world_inv.
Qed.

Lemma provision_spec a g name lc pm :
  spec inv (provision a g name lc pm)
    (λ r s, inv s ∧ handed_out (ca_namespace a, name) r s) inv.
Proof.
  intros [c w] Hs. unfold SandboxClient.provision.
  pose proof (create_body_client a g name lc pm c (CreateLocals g None, (c, w)) eq_refl) as Hc.
  destruct (create_body _ _ _ _ _ _ _ _) as [[id|e|] [l s1]]; cbn [snd] in Hc; [| |done].
  - apply attach_spec. unfold inv. by rewrite Hc.
  - refine (spec_bind inv (roll_back name (ca_namespace a) l) _ (λ _, inv) _ inv _ _ s1 _);
      [apply roll_back_inv|intros _; by apply spec_raise|unfold inv; by rewrite Hc].
Qed.

Lemma create_sandbox_spec a :
  spec inv (create_sandbox a)
    (λ r s, inv s ∧ ∃ name, handed_out (ca_namespace a, name) r s ∧
                     ∀ n, ca_claim_name a = Some n → name = n) inv.
Proof.
  unfold SandboxClient.create_sandbox. destruct (_ =? _)%string; [by apply spec_raise|].
  eapply spec_bind with (mid := λ _, inv).
  { destruct (non_empty _); [by apply spec_lift|by apply spec_ret]. }
  intros _. eapply spec_bind with (mid := λ _, inv); [by apply spec_lift|]. intros pm.
  eapply spec_bind with (mid := λ _, inv).
  { destruct (ca_shutdown_after a); [|by apply spec_ret].
    eapply spec_bind; [apply world_inv|]. intros now.
    eapply spec_bind with (mid := λ _, inv); [by apply spec_lift|]. intros l. by apply spec_ret. }
  intros lc. destruct (ca_claim_name a) as [n|].
  - eapply spec_bind with (mid := λ _, inv); [by apply spec_lift|]. intros _.
    eapply spec_bind with (mid := λ _, inv); [by apply spec_set_self|]. intros _.
    eapply spec_weaken; [apply provision_spec|done| |done]. intros r s [? ?]. split; [done|].
    exists n. split; [done|]. by intros ? [= <-].
  - destruct (ca_adopt_existing a); [by apply spec_raise|].
    eapply spec_bind; [apply world_inv|]. intros hex.
    eapply spec_weaken; [apply provision_spec|done| |done]. intros r s [? ?]. split; [done|].
    by eexists.
Qed.

(** ** Sequences of calls *)

Inductive client_call :=
  | CallCreate (a : create_args)
  | CallGet (claim_name namespace : string) (timeout : Z)
  | CallList
  | CallDelete (claim_name namespace : string)
  | CallDeleteAll
  | CallCleanup
  | CallTerminate (r : nat)
  | CallCloseConnection (r : nat).

Definition call_client (c : client_call) : M (client * W) () :=
  match c with
  | CallCreate a => _ ← create_sandbox a; mret ()
  | CallGet claim ns t => _ ← client_get_sandbox claim ns t; mret ()
  | CallList => _ ← list_active_sandboxes; mret ()
  | CallDelete claim ns => delete_sandbox claim ns
  | CallDeleteAll => delete_all
  | CallCleanup => delete_automatic_sandboxes
  | CallTerminate r => terminate r
  | CallCloseConnection r => on_handle r close_connection
  end.

(** The state after calls whose callers catch what is raised. *)
Fixpoint run_client (cs : list client_call) (s : client * W) : option (client * W) :=
  match cs with
  | [] => Some s
  | c :: cs' =>
      match call_client c s with (NoFuel, _) => None | (_, s') => run_client cs' s' end
  end.

Lemma call_client_inv c : spec inv (call_client c) (λ _, inv) inv.
Proof.
  destruct c; cbn [call_client].
  - eapply spec_bind; [apply create_sandbox_spec|]. intros r. apply spec_ret. by intros s [? _].
  - eapply spec_bind; [apply get_sandbox_spec|]. intros r. apply spec_ret. by intros s [? _].
  - eapply spec_bind; [apply list_active_inv|]. intros r. by apply spec_ret.
  - apply delete_sandbox_inv.
  - apply delete_all_inv.
  - apply delete_automatic_inv.
  - apply terminate_inv.
  - apply on_handle_close_inv.
Qed.

Lemma run_client_inv cs s s' : run_client cs s = Some s' → inv s → inv s'.
Proof.
  revert s. induction cs as [|c cs IH]; intros s; cbn [run_client]; [by intros [= <-]|].
  intros H Hs. pose proof (call_client_inv c s Hs) as Hc.
  destruct (call_client c s) as [[]]; try done; by eapply IH.
Qed.

(** C27. Through any sequence of creations, attachments, listings, deletions,
    cleanups and calls on the handles themselves, failed ones included, every
    entry of the client's registry is a handle of exactly that claim and
    namespace which still has its claim and its hook, and no handle is tracked
    twice. *)
Theorem client_registry_consistent (cs : list client_call) (w : W) c w' :
  run_client cs (client_new, w) = Some (c, w') →
  NoDup (cl_registry c).*1 ∧ NoDup (cl_registry c).*2 ∧
  ∀ ns name r, ((ns, name), r) ∈ cl_registry c →
    ∃ h, cl_heap c !! r = Some h ∧ h_namespace h = ns ∧ h_claim_name h = Some name ∧
         h_hook h = true.
Proof.
  intros H. apply run_client_inv in H as [Hd Ht].
  2: { split; [constructor|]. by intros key r ?%elem_of_nil. }
  cbn [fst] in *. split; [done|]. split.
  - by apply registry_refs_NoDup.
  - intros ns name r Hin. by apply (Ht (ns, name)).
Qed.

(** A handle that [create_sandbox] or [get_sandbox] returns is usable, its
    connection open, and the client tracks it under its namespace and claim
    name, which is the caller's when one was given. *)
Theorem returned_handle_tracked (s : client * W) :
  registry_ok s.1 →
  (∀ a r s', create_sandbox a s = (Ret r, s') →
     ∃ name h, ((ca_namespace a, name), r) ∈ cl_registry s'.1 ∧
       cl_heap s'.1 !! r = Some h ∧ is_active h = true ∧ h_claim_name h = Some name ∧
       ∀ n, ca_claim_name a = Some n → name = n) ∧
  (∀ claim ns t r s', client_get_sandbox claim ns t s = (Ret r, s') →
     ∃ h, ((ns, claim), r) ∈ cl_registry s'.1 ∧
       cl_heap s'.1 !! r = Some h ∧ is_active h = true ∧ h_claim_name h = Some claim).
Proof.
  intros Hs. split.
  - intros a r s' E. pose proof (spec_run _ _ _ _ _ _ _ (create_sandbox_spec a) Hs E) as H.
    cbn in H. destruct H as (Hinv & name & (Hin & h & Hh & Ha) & Hn).
    exists name, h. split_and!; try done.
    destruct (proj2 Hinv _ _ Hin) as (h' & Hh' & _ & Hc & _). cbn in Hc. congruence.
  - intros claim ns t r s' E.
    pose proof (spec_run _ _ _ _ _ _ _ (get_sandbox_spec claim ns t) Hs E) as H.
    cbn in H. destruct H as (Hinv & Hin & h & Hh & Ha).
    exists h. split_and!; try done.
    destruct (proj2 Hinv _ _ Hin) as (h' & Hh' & _ & Hc & _). cbn in Hc. congruence.
Qed.

(** ** Listing *)

Definition active_at (heap : list handle) (r : nat) : bool :=
  match heap !! r with Some h => is_active h | None => true end.

(** The registry after the loop of [list_active_sandboxes]. *)
Definition prune (heap : list handle) (l reg : list (claim_key * nat)) : list (claim_key * nat) :=
  foldl (λ reg p, if active_at heap p.2 then reg else rdel p.1 reg) reg l.

Lemma elem_of_prune heap l reg p :
  p ∈ prune heap l reg ↔ p ∈ reg ∧ ∀ q, q ∈ l → q.1 = p.1 → active_at heap q.2 = true.
Proof.
  unfold prune. revert reg. induction l as [|q l IH]; intros reg; cbn [foldl].
  - split; [|by intros [? _]]. intros Hp. split; [done|]. by intros ? ?%elem_of_nil.
  - rewrite IH. destruct (active_at heap q.2) eqn:Ea.
    + split; intros [Hp Hq]; (split; [done|]); [|intros q' ?; apply Hq; by right].
      intros q' [->|?]%elem_of_cons; auto.
    + rewrite elem_of_rdel. split.
      * intros [[Hp Hne] Hq]. split; [done|]. intros q' [->|?]%elem_of_cons ?; [congruence|auto].
      * intros [Hp Hq]. split; [split; [done|]|].
        -- intros Heq. rewrite (Hq q) in Ea; [done|by left|done].
        -- intros q' ?. apply Hq. by right.
Qed.

Lemma list_active_loop l c (w : W) :
  Forall (λ p, is_Some (cl_heap c !! p.2)) l →
  for_each l (λ p, h ← deref p.2; if is_active h then mret () else pop_key p.1) (c, w)
  = (Ret (), (with_registry (prune (cl_heap c) l (cl_registry c)) c, w)).
Proof.
  revert c. induction l as [|[k r] l IH]; intros c Hl; cbn [for_each].
  - by destruct c.
  - apply Forall_cons in Hl as [[h Hh] Hl]. cbn [snd] in Hh.
    unfold mbind at 1, M_bind at 1. unfold mbind at 1, M_bind at 1, deref at 1. cbn [fst snd].
    rewrite Hh. unfold prune. cbn [foldl fst snd]. unfold active_at at 2. rewrite Hh.
    destruct (is_active h).
    + unfold mret, M_ret. by rewrite IH.
    + unfold pop_key, set_self. cbn [fst snd]. by rewrite IH.
Qed.

Lemma list_active_run (s : client * W) keys s' :
  inv s → list_active_sandboxes s = (Ret keys, s') →
  s'.2 = s.2 ∧ keys = (cl_registry s'.1).*1 ∧
  ∀ k r, (k, r) ∈ cl_registry s'.1 ↔
    (k, r) ∈ cl_registry s.1 ∧ ∃ h, cl_heap s.1 !! r = Some h ∧ is_active h = true.
Proof.
  destruct s as [c w]. intros [Hd Ht]. cbn [fst snd] in *.
  assert (Forall (λ p, is_Some (cl_heap c !! p.2)) (cl_registry c)) as Hall.
  { apply Forall_forall. intros [k r] Hin. destruct (Ht k r Hin) as (h & Hh & _). by exists h. }
  unfold list_active_sandboxes. unfold mbind at 1, M_bind at 1, self at 1. cbn [fst snd].
  unfold mbind at 1, M_bind at 1. rewrite list_active_loop by done.
  intros [= <- <-]. cbn [fst snd cl_registry with_registry]. split_and!; [done|done|].
  intros k r. rewrite elem_of_prune. unfold active_at. split.
  - intros [Hin Hq]. split; [done|]. destruct (Ht k r Hin) as (h & Hh & _). exists h. split; [done|].
    specialize (Hq (k, r) Hin eq_refl). cbn in Hq. by rewrite Hh in Hq.
  - intros [Hin (h & Hh & Ha)]. split; [done|]. intros [k' r'] Hin' Hk. cbn in Hk. subst k'.
    apply rget_elem_of in Hin, Hin'; [|done..]. rewrite Hin in Hin'. injection Hin' as <-.
    cbn. by rewrite Hh.
Qed.

(** ** Ownership of claims *)

Section ownership.
(** [Q] is falsified by nothing but the deletion of the claim [key]. *)
Context (Q : W → Prop) {HQ : Neutral W Q} (key : claim_key).
Hypothesis delete_other : ∀ ns n uid, (ns, n) ≠ key → stable Q (delete_object CLAIM ns n uid).

Lemma delete_claim_stable ns n uid : (ns, n) ≠ key → stable Q (delete_sandbox_claim n ns uid).
Proof.
  intros Hne. unfold delete_sandbox_claim. apply stable_bind; [|intros _; apply stable_ret].
  by apply stable_none_on_404, delete_other.
Qed.

Definition safe (s : client * W) : Prop := inv s ∧ Q s.2.

Lemma terminate_safe r :
  spec (λ s, safe s ∧ ∀ h n, cl_heap s.1 !! r = Some h → h_claim_name h = Some n →
                        (h_namespace h, n) ≠ key)
    (terminate r) (λ _, safe) safe.
Proof.
  intros [c w] [[Hs HQw] Hkey]. cbn [fst snd] in *.
  pose proof (terminate_inv r (c, w) Hs) as Hinv.
  destruct (terminate r (c, w)) as [res [c' w']] eqn:E.
  destruct (decide (res = NoFuel)) as [->|Hres]; [done|].
  assert (Q w') as HQ'; [|by destruct res; split].
  destruct (cl_heap c !! r) as [h|] eqn:Eh.
  2: { unfold terminate, mbind, M_bind, on_handle in E. cbn in E. rewrite Eh in E.
       by injection E as _ _ <-. }
  destruct (terminate_run r c w h res c' w' Eh E Hres) as (rc & h1 & w1 & Ec & H). cbn zeta in H.
  pose proof (stable_close_connection Q (h, w) HQw) as HQ1. rewrite Ec in HQ1. cbn in HQ1.
  apply close_connection_run in Ec as [(Hc & Hns & _) _].
  destruct rc as [[]|e|]; [|by destruct H as (_ & _ & ->)|done].
  destruct (str_or (h_claim_name h1) None) as [n|] eqn:En; [|by destruct H as (_ & _ & ->)].
  destruct H as (rd & Ed & _).
  assert ((h_namespace h1, n) ≠ key) as Hne.
  { rewrite Hns. apply Hkey; [done|]. rewrite <-Hc. unfold str_or in En. by destruct (truthy_str_opt _). }
  pose proof (delete_claim_stable _ _ None Hne w1 HQ1) as Hd. by rewrite Ed in Hd.
Qed.

Lemma delete_sandbox_safe claim ns fin :
  (ns, claim) ≠ key → spec safe (delete_sandbox claim ns) (λ _, safe) fin.
Proof.
  intros Hne. unfold delete_sandbox.
  eapply spec_bind with (mid := λ o s, safe s ∧ ∀ r, o = Some r → ((ns, claim), r) ∈ cl_registry s.1).
  { apply spec_gets. intros s Hs. split; [done|]. intros r. apply rget_elem_of, Hs. }
  intros [r|]; apply spec_swallow.
  - eapply spec_bind with (mid := λ _, safe).
    + eapply spec_weaken; [apply terminate_safe|intros s [Hs Hin]|done|done].
      split; [done|]. intros h n Hh Hn.
      destruct (proj2 (proj1 Hs) _ _ (Hin r eq_refl)) as (h' & Hh' & Hns & Hc & _). cbn in *.
      congruence.
    + intros _. intros s [Hs HQs]. split; [by apply (pop_key_inv _ s)|done].
  - intros s [[Hs HQs] _].
    pose proof (world_inv (delete_sandbox_claim claim ns None) s Hs) as Hi.
    pose proof (stable_world (X := client) Q _ (delete_claim_stable _ _ None Hne) s HQs) as Hq.
    by destruct (world _ s) as [[]].
Qed.

Lemma stable_explicit_on_handle {A} r (m : M (handle * W) A) E :
  stable (λ s : client * W, cl_explicit s.1 = E) (on_handle r m).
Proof.
  intros [c w] Hs. unfold on_handle. cbn in *. destruct (cl_heap c !! r); [|done].
  by destruct (m _) as [? [? ?]].
Qed.
Lemma stable_explicit_deref r E : stable (λ s : client * W, cl_explicit s.1 = E) (deref r).
Proof. intros [c w] Hs. unfold deref. by destruct (cl_heap _ !! r). Qed.
Lemma stable_explicit_world {A} (m : M W A) E : stable (λ s : client * W, cl_explicit s.1 = E) (world m).
Proof. intros [c w] Hs. unfold world. cbn in *. by destruct (m w). Qed.
Lemma stable_explicit_pop k E : stable (λ s : client * W, cl_explicit s.1 = E) (pop_key k).
Proof. by intros [c w] Hs. Qed.
#[local] Hint Resolve stable_explicit_on_handle stable_explicit_deref stable_explicit_world
  stable_explicit_pop : stable.

Lemma stable_explicit_delete claim ns E :
  stable (λ s : client * W, cl_explicit s.1 = E) (delete_sandbox claim ns).
Proof. unfold delete_sandbox, terminate, untrack, lookup_key. stable. Qed.

(** Cleanup does not delete [key] if the caller owns it or it is not tracked. *)
Lemma cleanup_safe :
  spec (λ s, safe s ∧ (key ∈ cl_explicit s.1 ∨ key ∉ (cl_registry s.1).*1))
    delete_automatic_sandboxes (λ _, safe) safe.
Proof.
  intros [c w] [Hs Hkey]. cbn [fst] in Hkey.
  unfold delete_automatic_sandboxes, mbind at 1, M_bind at 1, self. cbn [fst].
  refine (spec_weaken _ (λ s, safe s ∧ cl_explicit s.1 = cl_explicit c) _ _
            (λ _ s, safe s ∧ cl_explicit s.1 = cl_explicit c) _ _ _ (λ s H, H) _ (λ s H, H) (c, w) _);
    [|by intros _ s [? _]|done].
  apply spec_for_each. intros [k r] Hin. apply spec_swallow. cbn [fst snd].
  eapply spec_bind with (mid := λ e s, (safe s ∧ cl_explicit s.1 = cl_explicit c) ∧ e = cl_explicit c).
  { apply spec_gets. by intros s [? ->]. }
  intros e. destruct (bool_decide (k ∈ e)) eqn:Ee.
  - eapply spec_weaken; [apply (spec_stable (λ s, cl_explicit s.1 = cl_explicit c) safe _ (λ _, safe) safe);
      [|apply stable_explicit_on_handle]|by intros s [? _]|done|done].
    intros s [Hi HQs]. pose proof (on_handle_close_inv r s Hi) as H1.
    pose proof (stable_on_handle Q r close_connection (stable_close_connection Q) s HQs) as H2.
    by destruct (on_handle r close_connection s) as [[]].
  - apply bool_decide_eq_false in Ee. intros s [Hse ->].
    assert (k ≠ key) as Hne.
    { intros ->. destruct Hkey as [Hkey|Hkey]; [done|]. apply Hkey.
      by apply (list_elem_of_fmap_2 fst) in Hin. }
    refine (spec_stable (λ s, cl_explicit s.1 = cl_explicit c) safe _ (λ _, safe) safe _ _ s Hse);
      [apply delete_sandbox_safe; by destruct k|apply stable_explicit_delete].
Qed.

(** C8. Automatic cleanup, at the end of a [with] block or of the program, never
    asks for the deletion of a claim the caller named: no fact that only such a
    deletion could falsify is falsified by it, whatever is tracked and whatever
    fails on the way. *)
Theorem cleanup_spares_explicit_claims (s : client * W) r s' :
  registry_ok s.1 → key ∈ cl_explicit s.1 → Q s.2 →
  delete_automatic_sandboxes s = (r, s') → r ≠ NoFuel → Q s'.2.
Proof.
  intros Hok Hkey HQs E Hr.
  pose proof (spec_run _ _ _ _ s r s' cleanup_safe (conj (conj Hok HQs) (or_introl Hkey)) E) as H.
  destruct r; [apply H|apply H|done].
Qed.

(** Listing the active sandboxes stops tracking every handle whose connection
    was closed, and a claim that is no longer tracked is never deleted by the
    cleanup that follows, generated name or not: closing a handle and listing
    leaves its claim behind in the cluster. *)
Theorem list_active_abandons_closed (s : client * W) r h keys s1 res s2 :
  registry_ok s.1 → (key, r) ∈ cl_registry s.1 → cl_heap s.1 !! r = Some h → is_active h = false →
  Q s.2 →
  list_active_sandboxes s = (Ret keys, s1) →
  delete_automatic_sandboxes s1 = (res, s2) → res ≠ NoFuel →
  (key ∉ keys) ∧ Q s2.2.
Proof.
  intros Hok Hin Hh Ha HQs E1 E2 Hres.
  pose proof (spec_run _ _ _ _ s _ s1 list_active_inv Hok E1) as Hok1. cbn in Hok1.
  destruct (list_active_run s keys s1 Hok E1) as (Hw & Hkeys & Hreg).
  assert (key ∉ (cl_registry s1.1).*1) as Hgone.
  { intros ([k r'] & -> & Hin')%list_elem_of_fmap. apply Hreg in Hin' as [Hin' (h' & Hh' & Ha')].
    apply rget_elem_of in Hin; [|apply Hok]. apply rget_elem_of in Hin'; [|apply Hok].
    cbn [fst] in *. rewrite Hin in Hin'. injection Hin' as <-. congruence. }
  split; [by rewrite Hkeys|].
  assert (Q s1.2) as HQ1 by (by rewrite Hw).
  pose proof (spec_run _ _ _ _ s1 res s2 cleanup_safe (conj (conj Hok1 HQ1) (or_intror Hgone)) E2) as H.
  destruct res; [apply H|apply H|done].
Qed.
End ownership.

(** ** Creation: rollback and caller-owned names *)

Section creation.
Context (Q : W → Prop) {HQ : Neutral W Q}.

Lemma create_body_stable a g name lc pm :
  stable (λ s : create_locals * (client * W), Q s.2.2)
    (create_body trace_context fuel a g name lc pm).
Proof.
  pose proof (λ A (m : M W A) Hm, stable_world (X := create_locals) (λ s : client * W, Q s.2)
    (world m) (stable_world (X := client) Q m Hm)) as Hw.
  pose proof (λ f, stable_set_self (X := create_locals) (λ s : client * W, Q s.2) f) as Hset.
  unfold create_body, create_or_adopt, await_claim, read_identity, wait_for_claim_ready, create_claim. stable.
Qed.

Lemma create_body_no_cleanup a name lc pm :
  stable (λ s : create_locals * (client * W), cleanup_generated s.1 = false)
    (create_body trace_context fuel a false name lc pm).
Proof.
  assert (∀ A (m : M (client * W) A),
    stable (λ s : create_locals * (client * W), cleanup_generated s.1 = false) (world m)) as Hw.
  { intros A m [l s] Hl. unfold world. cbn in *. by destruct (m s). }
  assert (stable (λ s : create_locals * (client * W), cleanup_generated s.1 = false)
    (set_self (λ l, CreateLocals false (claim_uid l)))) as H1 by (by intros [l s] Hl).
  assert (∀ u, stable (λ s : create_locals * (client * W), cleanup_generated s.1 = false)
    (set_self (λ l, CreateLocals (cleanup_generated l) u))) as H2 by (by intros u [l s] Hl).
  unfold create_body, create_or_adopt, await_claim, read_identity. stable.
Qed.

Lemma attach_stable key id :
  stable (λ s : client * W, Q s.2) (attach connection api_client key id).
Proof. unfold attach, reusable. stable. Qed.

Lemma provision_explicit_stable a name lc pm :
  stable (λ s : client * W, Q s.2) (provision a false name lc pm).
Proof.
  intros s Hs. unfold SandboxClient.provision.
  pose proof (create_body_stable a false name lc pm (CreateLocals false None, s) Hs) as HQ1.
  pose proof (create_body_no_cleanup a name lc pm (CreateLocals false None, s) eq_refl) as Hl.
  destruct (create_body _ _ _ _ _ _ _ _) as [[id|e|] [l s1]]; cbn [fst snd] in *; [| |done].
  - by apply attach_stable.
  - unfold roll_back. by rewrite Hl.
Qed.

(** Creating a sandbox under a name the caller chose never deletes a claim,
    however it fails: a conflict, an adoption refused, a timeout or a failed
    claim leave what exists in the cluster as it is. *)
Theorem create_explicit_never_deletes a n (s : client * W) r s' :
  ca_claim_name a = Some n → Q s.2 → create_sandbox a s = (r, s') → Q s'.2.
Proof.
  intros Hn Hs E.
  assert (stable (λ s : client * W, Q s.2) (create_sandbox a)) as Hst.
  { unfold SandboxClient.create_sandbox. rewrite Hn.
    pose proof (provision_explicit_stable a n) as Hp.
    pose proof (stable_world (X := client) Q _ (stable_utcnow Q)) as Hu. stable. }
  specialize (Hst s Hs). by rewrite E in Hst.
Qed.

Lemma create_or_adopt_conflict a name lc pm l0 (s : client * W) r l s1 :
  ca_adopt_existing a = false → cleanup_generated l0 = true →
  create_or_adopt trace_context a name lc pm (l0, s) = (r, (l, s1)) →
  r = Raise (ApiException 409) ∨ cleanup_generated l = true.
Proof.
  intros Ha Hl. unfold create_or_adopt, except. set (m := world (create_claim _ _ _ _ _)).
  unfold world at 1. cbn [fst snd]. destruct (m s) as [[o|e|] s2]; [by intros [= <- <- <-]; auto| |by intros [= <- <- <-]; auto].
  destruct e; try (intros [= <- <- <-]; by auto).
  destruct (Z.eqb_spec status 409) as [->|]; [|intros [= <- <- <-]; by auto].
  rewrite Ha. run_unfold. intros [= <- _ _]. by left.
Qed.

(** Without adoption the rollback flag is cleared only by the conflict raised. *)
Lemma create_body_conflict a name lc pm (s : client * W) e l s1 :
  ca_adopt_existing a = false →
  create_body trace_context fuel a true name lc pm (CreateLocals true None, s) = (Raise e, (l, s1)) →
  cleanup_generated l = false → e = ApiException 409.
Proof.
  intros Ha. unfold create_body, mbind, M_bind.
  destruct (create_or_adopt _ _ _ _ _ _) as [r [l1 s2]] eqn:E.
  apply create_or_adopt_conflict in E; [|done|done]. destruct E as [->|Hl1]; [by intros; simplify_eq/=|].
  destruct r as [created|e1|]; [|intros; simplify_eq/=; congruence|done].
  assert (stable (λ s : create_locals * (client * W), cleanup_generated s.1 = true)
            (await_claim fuel a true name created)) as Hst.
  { assert (∀ A (m : M (client * W) A),
      stable (λ s : create_locals * (client * W), cleanup_generated s.1 = true) (world m)) as Hw.
    { intros A m [l0 s0] Hl0. unfold world. cbn in *. by destruct (m s0). }
    assert (∀ u, stable (λ s : create_locals * (client * W), cleanup_generated s.1 = true)
      (set_self (λ l, CreateLocals (cleanup_generated l) u))) as H2 by (by intros u [l0 s0] Hl0).
    unfold await_claim, read_identity. stable. }
  specialize (Hst (l1, s2) Hl1). intros Hb. rewrite Hb in Hst. cbn in Hst. congruence.
Qed.

(** The UID in the answer to a creation *)
Definition answered_uid (created : json) : option string :=
  match created with
  | JObj _ =>
      match py_get created "metadata" with
      | Ret m => match py_get (py_or m (JObj [])) "uid" with Ret u => as_str u | _ => None end
      | _ => None
      end
  | _ => None
  end.

Lemma read_identity_uid created (s : client * W) r l' s' :
  read_identity created (CreateLocals true None, s) = (r, (l', s')) →
  l' = CreateLocals true (answered_uid created) ∧ s' = s.
Proof.
  unfold read_identity, answered_uid. destruct created as [| | | | | |d]; try (by intros [= _ <- <-]).
  unfold mbind, M_bind, lift, set_self. destruct (py_get (JObj d) "metadata") as [m| |]; [|by intros [= _ <- <-]..].
  destruct (py_or m (JObj [])) as [| | | | | |o] eqn:Em; cbn; by intros [= _ <- <-].
Qed.

(** The UID that the rollback knows is the one in the answer to the creation; without
    an answer it knows none. *)
Lemma create_body_uid a name lc pm (s : client * W) e l s1 :
  ca_adopt_existing a = false →
  create_body trace_context fuel a true name lc pm (CreateLocals true None, s) = (Raise e, (l, s1)) →
  cleanup_generated l = true →
  match create_claim trace_context a name lc pm s.2 with
  | (Ret created, _) => claim_uid l = answered_uid created
  | (Raise e0, w0) => e = e0 ∧ claim_uid l = None ∧ s1.2 = w0
  | (NoFuel, _) => False
  end.
Proof.
  intros Ha. unfold create_body, create_or_adopt, except, mbind at 1, M_bind at 1. unfold world at 1 2. cbn [fst snd].
  destruct (create_claim _ _ _ _ _ s.2) as [[created|e0|] w0]; [| |done].
  - unfold await_claim, mbind, M_bind. cbn. destruct (read_identity created _) as [r [l1 s2]] eqn:E.
    apply read_identity_uid in E as [-> ->]. destruct r as [rv|e1|]; [|by intros [= _ <- _]|done]. unfold lift. cbn.
    destruct (world _ _) as [o [l2 s2]] eqn:Ew. apply world_run_inv in Ew as [_ Ew]. cbn in Ew. subst l2.
    intros Hr _. by destruct o; injection Hr as _ <- _.
  - destruct e0; try (by intros [= <- <- <-]). destruct (Z.eqb_spec status 409) as [->|]; [|by intros [= <- <- <-]].
    rewrite Ha. run_unfold. by intros [= _ <- _].
Qed.

End creation.

(** ** Termination of handles *)

Lemma terminate_done r c (w : W) h :
  cl_heap c !! r = Some h → h_closed h = true → str_or (h_claim_name h) None = None →
  terminate r (c, w) = (Ret (), (c, w)).
Proof.
  intros Hh Hc Hn. unfold terminate, mbind, M_bind, on_handle. cbn [fst snd]. rewrite Hh.
  unfold close_connection. run_unfold. unfold self. cbn [fst snd]. rewrite Hc.
  rewrite list_insert_id by done. unfold deref. cbn [fst snd]. destruct c. cbn in *. by rewrite Hh, Hn.
Qed.

(** Terminating a handle that succeeds leaves it closed, without a claim and
    untracked, and touches no entry of another handle, so a newer handle of the
    same claim stays tracked; terminating it again does nothing at all, in
    particular no second deletion. *)
Theorem terminate_idempotent (s : client * W) r h s' :
  registry_ok s.1 → cl_heap s.1 !! r = Some h → h_claim_name h ≠ Some EmptyString →
  terminate r s = (Ret (), s') →
  terminate r s' = (Ret (), s') ∧
  (∃ h', cl_heap s'.1 !! r = Some h' ∧ h_closed h' = true ∧ h_claim_name h' = None) ∧
  (∀ key, (key, r) ∉ cl_registry s'.1) ∧
  (∀ key r', r' ≠ r → (key, r') ∈ cl_registry s'.1 ↔ (key, r') ∈ cl_registry s.1).
Proof.
  destruct s as [c w], s' as [c' w']. cbn [fst]. intros Hok Hh Hne E.
  destruct (terminate_run r c w h _ c' w' Hh E) as (rc & h1 & w1 & Ec & H); [done|]. cbn zeta in H.
  apply close_connection_run in Ec as (Hid & Hclosed & _).
  assert (r < length (cl_heap c))%nat as Hr by (by eapply lookup_lt_Some).
  destruct rc as [[]|e|]; [|by destruct H|done]. specialize (Hclosed eq_refl).
  assert (h_claim_name h1 = h_claim_name h) as Hcn by apply Hid.
  destruct (str_or (h_claim_name h1) None) as [n|] eqn:En.
  - destruct H as (rd & _ & H). destruct rd as [[]|e|]; [|by destruct H|done]. destruct H as [_ ->].
    assert (h_claim_name h1 = Some n) as Hn by (unfold str_or in En; by destruct (truthy_str_opt _)).
    destruct (terminated_ok c r n h h1 Hh Hid Hn Hok) as [_ Hgone].
    assert (cl_heap (terminated r n h1 c) !! r = Some (clear_claim (with_hook false h1))) as Hh'
      by (by apply list_lookup_insert_eq).
    split_and!; [by eapply terminate_done|eauto|done|]. intros key r' Hr'.
    by apply terminated_other.
  - destruct H as (_ & -> & ->).
    assert (h_claim_name h1 = None) as Hn.
    { rewrite Hcn in *. unfold str_or in En. destruct (h_claim_name h) as [[|a0 n]|]; done. }
    assert (cl_heap (with_heap (<[r:=h1]> (cl_heap c)) c) !! r = Some h1) as Hh'
      by (by apply list_lookup_insert_eq).
    split_and!; [by eapply terminate_done|eauto| |done].
    intros key Hin. destruct (proj2 Hok key r Hin) as (h0 & Hh0 & _ & Hc0 & _). congruence.
Qed.
End client.

(** ** Examples *)

(** The simulated cluster on a host without processes. *)
#[local] Instance sim_host : Host sim := {
  free_port w := (Ret 40000, w);
  port_open _ w := (Ret true, w);
  kubectl_get _ w := (Ret (0, EmptyString), w);
  temporary_file w := (Ret (), w);
  popen _ w := (Raise OSError, w);
  poll _ w := (Ret (Some 1), w);
  terminate_process _ w := (Ret (), w);
  wait_process _ w := (Ret (), w);
  kill_process _ w := (Ret (), w);
  host_files _ := ∅;
  set_host_files _ w := w;
  host_mkstemp _ := None;
}.
#[local] Instance sim_net : Net sim := {
  session_request _ w := (Raise (RequestException None), w);
  session_close w := (Ret (), w);
  response_close _ w := (Ret (), w);
  grpc_open _ _ w := (Ret 0%nat, w);
  grpc_close _ w := (Ret (), w);
}.
#[local] Instance sim_uuid : Uuid sim := λ w, (Ret "0123456789abcdef", w).

Lemma scripted_all (Q : sim → Prop) evs fin w :
  (∀ d w, Q w → Q (advance d w)) → Q w → stream_all Q (scripted evs fin w).
Proof.
  intros Hadv. revert w. induction evs as [|ev evs IH]; intros w Hw; cbn.
  - destruct fin; by apply Hadv.
  - split; [by apply Hadv|]. by apply IH, Hadv.
Qed.

(** That a claim exists is falsified by nothing but its deletion. *)
Definition claim_exists (ns name : string) (w : sim) : Prop :=
  is_Some (sim_objects w !! sim_key CLAIM ns name).

#[local] Instance claim_exists_neutral ns name : Neutral sim (claim_exists ns name).
Proof.
  split; unfold stable; try done.
  - intros r ns' o w Hw. destruct (create_object r ns' o w) as [res w'] eqn:E. cbn [snd].
    unfold create_object, sim_api in E. cbv beta zeta in E. case_match; injection E as _ <-; [done|].
    unfold claim_exists in *. cbn [sim_objects].
    destruct (decide (sim_key r ns' (sim_name o) = sim_key CLAIM ns name)) as [->|Hne].
    + rewrite lookup_insert_eq. eauto.
    + by rewrite lookup_insert_ne.
  - intros r ns' n w Hw. destruct (get_object r ns' n w) as [res w'] eqn:E. cbn [snd].
    unfold get_object, sim_api in E. case_match; by injection E as _ <-.
  - intros req w Hw. cbn [watch_stream sim_api]. unfold sim_watch.
    destruct (sim_streams w) as [|[evs fin] rest]; [case_match; [done|]|]; by apply scripted_all.
Qed.

Lemma sim_delete_other ns name ns' n uid :
  (ns', n) ≠ (ns, name) → stable (claim_exists ns name) (delete_object CLAIM ns' n uid).
Proof.
  intros Hne w Hw. destruct (delete_object CLAIM ns' n uid w) as [res w'] eqn:E. cbn [snd].
  unfold delete_object, sim_api in E. cbv beta zeta in E. case_match; [|by injection E as _ <-].
  destruct (bool_decide _); injection E as _ <-; [|done].
  unfold claim_exists in *. cbn [sim_objects]. rewrite lookup_delete_ne; [done|].
  unfold sim_key. congruence.
Qed.

Definition router_connection : SandboxConnectionConfig :=
  CDirect (DirectConfig "http://router:8080" 8888 [] None None).

Definition generated_args : create_args :=
  CreateArgs "pool" "default" 30 None None false None None None None None.
Definition named_args : create_args :=
  CreateArgs "pool" "default" 30 None (Some "mine") false None None None None None.

(** A sandbox comes up, a second creation finds its name taken, the first handle
    is closed and listed away. *)
Definition busy_world : sim :=
  Sim 0 {[ sim_key CLAIM "default" "mine" := ready_claim "5" ]} [([added (ready_claim "6")], None)] 0.

#[local] Abbreviation run_sim := (run_client router_connection None None 3).

Lemma client_registry_consistent_witness :
  ∃ c w', run_sim [CallCreate generated_args; CallCreate named_args] (client_new, busy_world)
            = Some (c, w') ∧
    (cl_registry c).*1 = [("default", "sandbox-claim-01234567")] ∧
    NoDup (cl_registry c).*1.
Proof.
  destruct (run_sim [CallCreate generated_args; CallCreate named_args] (client_new, busy_world))
    as [[c w']|] eqn:E; [|exfalso; vm_compute in E; done].
  exists c, w'. split; [done|].
  split; [vm_compute in E; injection E as <- <-; reflexivity|].
  exact (proj1 (client_registry_consistent router_connection None None 3 _ _ _ _ E)).
Defined.

Lemma returned_handle_tracked_witness :
  ∃ s', create_sandbox router_connection None None 3 generated_args (client_new, busy_world)
          = (Ret 0%nat, s') ∧
    ∃ name h, (("default", name), 0%nat) ∈ cl_registry s'.1 ∧ cl_heap s'.1 !! 0%nat = Some h ∧
              is_active h = true.
Proof.
  destruct (create_sandbox router_connection None None 3 generated_args (client_new, busy_world))
    as [r s'] eqn:E.
  assert (r = Ret 0%nat) as -> by (vm_compute in E; congruence).
  exists s'. split; [done|].
  assert (registry_ok (client_new, busy_world).1) as Hok
    by (split; [constructor|by intros ? ? ?%elem_of_nil]).
  destruct (proj1 (returned_handle_tracked router_connection None None 3 (client_new, busy_world) Hok)
              generated_args _ _ E) as (name & h & H1 & H2 & H3 & _).
  exists name, h. split_and!; assumption.
Defined.

(** A client that tracks one caller-owned and one generated claim. *)
Definition owned_handle : handle :=
  with_hook true (handle_new "mine" "sbx-1" "default" router_connection None).
Definition generated_handle : handle :=
  with_hook true (handle_new "gen" "sbx-2" "default" router_connection None).
Definition two_claims : client :=
  Client [(("default", "mine"), 0%nat); (("default", "gen"), 1%nat)] {[("default", "mine")]}
    [owned_handle; generated_handle].
Definition both_exist : sim :=
  Sim 0 {[ sim_key CLAIM "default" "mine" := ready_claim "5";
           sim_key CLAIM "default" "gen" := ready_claim "6" ]} [] 0.

Lemma two_claims_ok : registry_ok two_claims.
Proof.
  split; [by repeat constructor; set_solver|].
  intros key r [[= -> ->]|[[= -> ->]|?%elem_of_nil]%elem_of_cons]%elem_of_cons; [| |done].
  - exists owned_handle. by split_and!.
  - exists generated_handle. by split_and!.
Qed.

Lemma cleanup_spares_explicit_claims_witness :
  claim_exists "default" "mine" (delete_automatic_sandboxes (two_claims, both_exist)).2.2 ∧
  sim_objects (delete_automatic_sandboxes (two_claims, both_exist)).2.2
    !! sim_key CLAIM "default" "gen" = None.
Proof.
  split; [|vm_compute; reflexivity].
  destruct (delete_automatic_sandboxes (two_claims, both_exist)) as [r s'] eqn:E.
  refine (cleanup_spares_explicit_claims (claim_exists "default" "mine") ("default", "mine")
            (sim_delete_other "default" "mine") (two_claims, both_exist) r s' two_claims_ok _ _ E _).
  - vm_compute. set_solver.
  - vm_compute. eauto.
  - intros ->. vm_compute in E. congruence.
Defined.

(** The generated claim's handle is closed, then the listing forgets it. *)
Definition closed_client : client :=
  with_heap [owned_handle; set_closed generated_handle] two_claims.

Lemma closed_client_ok : registry_ok closed_client.
Proof.
  split; [by repeat constructor; set_solver|].
  intros key r [[= -> ->]|[[= -> ->]|?%elem_of_nil]%elem_of_cons]%elem_of_cons; [| |done].
  - exists owned_handle. by split_and!.
  - exists (set_closed generated_handle). by split_and!.
Qed.

Lemma list_active_abandons_closed_witness :
  claim_exists "default" "gen"
    (delete_automatic_sandboxes (list_active_sandboxes (closed_client, both_exist)).2).2.2.
Proof.
  destruct (list_active_sandboxes (closed_client, both_exist)) as [r1 s1] eqn:E1.
  destruct (delete_automatic_sandboxes s1) as [r2 s2] eqn:E2. cbn [snd].
  assert (s1 = (list_active_sandboxes (closed_client, both_exist)).2) as Hs1 by (by rewrite E1).
  destruct r1 as [keys|e|]; [|exfalso; vm_compute in E1; congruence..].
  rewrite E2. cbn [snd].
  refine (proj2 (list_active_abandons_closed (claim_exists "default" "gen") ("default", "gen")
            (sim_delete_other "default" "gen") (closed_client, both_exist) 1 (set_closed generated_handle)
            keys s1 r2 s2 closed_client_ok _ eq_refl eq_refl _ E1 E2 _)).
  - right. left.
  - vm_compute. eauto.
  - intros ->. rewrite Hs1 in E2. vm_compute in E2. congruence.
Defined.

(** The name is taken and adoption was not asked for. *)
Lemma create_explicit_never_deletes_witness :
  (create_sandbox router_connection None None 3 named_args (client_new, busy_world)).1
    = Raise (ApiException 409) ∧
  claim_exists "default" "mine"
    (create_sandbox router_connection None None 3 named_args (client_new, busy_world)).2.2.
Proof.
  split; [vm_compute; reflexivity|].
  destruct (create_sandbox router_connection None None 3 named_args (client_new, busy_world))
    as [r s'] eqn:E.
  refine (create_explicit_never_deletes router_connection None None 3 (claim_exists "default" "mine")
            named_args "mine" (client_new, busy_world) r s' eq_refl _ E).
  vm_compute. eauto.
Defined.


Lemma terminate_idempotent_witness :
  let s' := (terminate 1 (two_claims, both_exist)).2 in
  terminate 1 s' = (Ret (), s') ∧ (cl_registry s'.1).*1 = [("default", "mine")].
Proof.
  cbn zeta. split; [|vm_compute; reflexivity].
  destruct (terminate 1 (two_claims, both_exist)) as [r s'] eqn:E. cbn [snd].
  assert (r = Ret ()) as -> by (vm_compute in E; congruence).
  refine (proj1 (terminate_idempotent (two_claims, both_exist) 1 generated_handle s' two_claims_ok
            eq_refl _ E)).
  vm_compute. congruence.
Defined.
