(* ===== verification/Commands.v ===== *)
(** Command execution: [commands/command_executor.py] and
    [commands/_process_handle.py]. *)

From Stdlib Require Import Ascii String ZArith QArith NArith Lia.
From stdpp Require Import base option list strings gmap pretty sets.
From S2P Require Import Prelude Json IpAddress PyText Models Utils World K8sHelper Http Tunnel.
From S2P Require Import Connector.

#[local] Open Scope Z_scope.

(** gRPC status codes *)
Definition CANCELLED : Z := 1.
Definition DEADLINE_EXCEEDED : Z := 4.
Definition NOT_FOUND : Z := 5.
Definition PERMISSION_DENIED : Z := 7.
Definition UNAVAILABLE : Z := 14.

(** ** Text *)

(** [bytes.decode("utf-8", errors="replace")], as code points. *)
Definition REPLACEMENT : N := 65533.

Definition between (lo hi b : N) : bool := (lo <=? b)%N && (b <=? hi)%N.

(** For a lead byte: its payload, the range of the second byte, and how many
    continuation bytes follow. *)
Definition utf8_lead (b : N) : option (N * (N * N) * nat) :=
  (if between 194 223 b then Some (b - 192, (128, 191), 1%nat)
   else if b =? 224 then Some (0, (160, 191), 2%nat)
   else if b =? 237 then Some (13, (128, 159), 2%nat)
   else if between 225 239 b then Some (b - 224, (128, 191), 2%nat)
   else if b =? 240 then Some (0, (144, 191), 3%nat)
   else if between 241 243 b then Some (b - 240, (128, 191), 3%nat)
   else if b =? 244 then Some (4, (128, 143), 3%nat)
   else None)%N.

(** [pending]: the value so far, the range of the next byte and the number of
    bytes still missing. A byte that does not fit ends the sequence with a
    replacement character and is read afresh. *)
Fixpoint utf8_decode (pending : option (N * (N * N) * nat)) (l : list ascii) : list N :=
  match l with
  | [] => match pending with Some _ => [REPLACEMENT] | None => [] end
  | c :: l' =>
      let b := code c in
      let fresh :=
        if (b <? 128)%N then b :: utf8_decode None l'
        else match utf8_lead b with
             | Some p => utf8_decode (Some p) l'
             | None => REPLACEMENT :: utf8_decode None l'
             end in
      match pending with
      | None => fresh
      | Some (v, (lo, hi), missing) =>
          if between lo hi b then
            let v := (v * 64 + (b - 128))%N in
            match missing with
            | S (S n) => utf8_decode (Some (v, (128, 191)%N, S n)) l'
            | _ => v :: utf8_decode None l'
            end
          else REPLACEMENT :: fresh
      end
  end.

Definition decode_replace (b : bytes) : list N := utf8_decode None b.

Definition code_points (s : string) : list N := code <$> explode s.

(** ** Options and results *)

Record execution_result := ExecutionResult {
  er_stdout : list N;
  er_stderr : list N;
  er_exit_code : Z;
  er_timed_out : bool;
}.

Definition extract_executable (command : string) : string :=
  match find (λ field, negb (has_char "=" field)) (split_blank command) with
  | Some field => default EmptyString (last (split "/" field))
  | None => EmptyString
  end.

(** [if not key or "=" in key: raise] over the keys *)
Definition env_keys_ok (env : list (string * string)) : bool :=
  forallb (λ kv, negb ((kv.1 =? EmptyString)%string || has_char "=" kv.1)) env.

Definition check_process_options (env : option (list (string * string))) (cwd : option string)
    (sandboxd : bool) : outcome () :=
  if negb (match env with Some (_ :: _) => true | _ => false end || truthy_str_opt cwd) then Ret ()
  else if negb sandboxd then Raise NotImplementedError
  else if env_keys_ok (default [] env) then Ret () else Raise ValueError.

Record process_config := ProcessConfig {
  pc_command : list string;
  pc_env : list (string * string);
  pc_cwd : option string;
}.

Definition mk_process_config (command : string) (env : option (list (string * string)))
    (cwd : option string) : process_config :=
  ProcessConfig ["/bin/sh"; "-c"; command] (default [] env) (str_or cwd None).

Definition COMMAND_TIMEOUT_MARGIN_SECONDS : Z := 10.

(** [_execute_request]: the payload and the read timeout to send it with. *)
Definition execute_request (command : string) (timeout : py_number)
    (command_timeout : option py_number) : http_body * py_number :=
  match command_timeout with
  | None => (BExecute command None, timeout)
  | Some c =>
      (BExecute command (Some c), num_max timeout (num_add c COMMAND_TIMEOUT_MARGIN_SECONDS))
  end.

(** ** Signals *)

Inductive proto_signal := SIGNAL_SIGINT | SIGNAL_SIGKILL | SIGNAL_SIGTERM.

(** A name; an object [int] accepts, with its value; any other object. *)
Inductive signal_arg :=
  | SigName (name : string)
  | SigNumber (v : Z)
  | SigOther.

Definition SIGNAL_NAMES : list (string * Z) := [("SIGINT", 2); ("SIGTERM", 15); ("SIGKILL", 9)].

Definition to_proto_signal (sig : signal_arg) : outcome proto_signal :=
  val ← match sig with
        | SigName n => match dget n SIGNAL_NAMES with Some v => Ret v | None => Raise ValueError end
        | SigNumber v => Ret v
        | SigOther => Raise ValueError
        end;
  if val =? 2 then Ret SIGNAL_SIGINT
  else if val =? 9 then Ret SIGNAL_SIGKILL
  else if val =? 15 then Ret SIGNAL_SIGTERM
  else Raise ValueError.

(** [_signal_error] *)
Definition signal_error (code : Z) : exn :=
  if code =? NOT_FOUND then LookupError
  else if code =? PERMISSION_DENIED then PermissionError
  else RuntimeError.

(** ** Process streams *)

(** The event of a [StartResponse] message; [RNone] carries no known event. *)
Inductive start_response :=
  | RInit (process_id : Z)
  | RStdout (data : bytes)
  | RStderr (data : bytes)
  | RExit (exit_code : Z)
  | RNone.

Inductive process_event :=
  | EStdout (data : bytes)
  | EStderr (data : bytes)
  | EExit (exit_code : Z).

Definition read_init (r : start_response) : outcome Z :=
  match r with
  | RInit pid => if pid =? 0 then Raise RuntimeError else Ret pid
  | _ => Raise RuntimeError
  end.

Definition to_event (r : start_response) (exit_seen : bool) : outcome (process_event * bool) :=
  if exit_seen then Raise RuntimeError
  else match r with
       | RStdout d => Ret (EStdout d, false)
       | RStderr d => Ret (EStderr d, false)
       | RExit c => Ret (EExit c, true)
       | RInit _ | RNone => Raise RuntimeError
       end.

(** A streaming call: what is still to come, and the error that ends it. *)
Record stream_call := StreamCall {
  st_id : nat;
  st_rest : list start_response;
  st_end : option exn;
}.

(** [cancel()]: the iterator then raises. *)
Definition cancelled (s : stream_call) : stream_call :=
  StreamCall (st_id s) [] (Some (RpcError CANCELLED)).

Record process_handle := ProcessHandle {
  ph_channel : nat;
  ph_stream : stream_call;
  ph_process_id : Z;
  ph_finished : bool;
}.

Definition with_stream (st : stream_call) (h : process_handle) : process_handle :=
  ProcessHandle (ph_channel h) st (ph_process_id h) (ph_finished h).
Definition with_finished (b : bool) (h : process_handle) : process_handle :=
  ProcessHandle (ph_channel h) (ph_stream h) (ph_process_id h) b.

(** The gRPC stub of a channel. [rpc_start] reports, besides the call, whether the
    start timer fired before the first message. *)
Class ProcessService (W : Type) := {
  rpc_execute : nat → process_config → py_number → M W (bytes * bytes * Z);
  rpc_start : nat → process_config → option (Z * Z) → py_number → M W (stream_call * bool);
  rpc_send_signal : nat → Z → proto_signal → M W ();
  rpc_cancel : nat → M W ();
}.

Section handles.
Context {W : Type} `{ProcessService W}.

(** [_cancel_quietly] *)
Definition cancel_quietly (st : stream_call) : M W () :=
  except (λ _, Some (mret ())) (rpc_cancel (st_id st)).

(** [ProcessHandle.from_stream] *)
Definition from_stream (channel : nat) (st : stream_call) : M W process_handle :=
  except (λ e, Some (_ ← cancel_quietly st; raise e))
    (match st_rest st with
     | [] => match st_end st with Some e => raise e | None => raise RuntimeError end
     | first :: rest =>
         process_id ← lift (read_init first);
         mret (ProcessHandle channel (StreamCall (st_id st) rest (st_end st)) process_id false)
     end).

(** One step of the generator [events()]: the next event, or [None] at its end. *)
Definition next_event : M (process_handle * W) (option process_event) :=
  h ← self;
  match st_rest (ph_stream h) with
  | r :: rest =>
      _ ← set_self (with_stream (StreamCall (st_id (ph_stream h)) rest (st_end (ph_stream h))));
      '(event, finished) ← lift (to_event r (ph_finished h));
      _ ← set_self (with_finished finished);
      mret (Some event)
  | [] =>
      match st_end (ph_stream h) with
      | Some (RpcError _) => raise RuntimeError
      | Some e => raise e
      | None => if ph_finished h then mret None else raise RuntimeError
      end
  end.

(** [for event in handle.events()]: the events delivered, and how it ended. *)
Fixpoint events (fuel : nat) : M (process_handle * W) (list process_event * option exn) :=
  match fuel with
  | O => no_fuel
  | S fuel' => λ s,
      match next_event s with
      | (Ret None, s') => (Ret ([], None), s')
      | (Ret (Some ev), s') =>
          ('(evs, e) ← events fuel'; mret (ev :: evs, e)) s'
      | (Raise e, s') => (Ret ([], Some e), s')
      | (NoFuel, s') => (NoFuel, s')
      end
  end.

Definition signal (sig : signal_arg) : M (process_handle * W) () :=
  h ← self;
  s ← lift (to_proto_signal sig);
  except (λ e, match e with RpcError c => Some (raise (signal_error c)) | _ => None end)
    (world (rpc_send_signal (ph_channel h) (ph_process_id h) s)).

Definition handle_close : M (process_handle * W) () :=
  h ← self;
  if ph_finished h then mret ()
  else
    _ ← set_self (λ h, with_stream (cancelled (ph_stream h)) h);
    except (λ _, Some (mret ())) (world (rpc_cancel (st_id (ph_stream h)))).
End handles.

(** ** The executor *)

Section executor.
Context {W : Type} `{Clock W} `{K8sApi W} `{Host W} `{Net W} `{ProcessService W}.
Variable cfg : conn_config.
Variable fuel : nat.
Variable number_str : py_number → string.
Variable get_pod_ip get_pod_name get_service_fqdn : option (M W (option string)).
(** [f"{timeout:g}"] *)
Variable format_g : py_number → string.
(** pydantic's conversion of the fields of [ExecutionResult] *)
Variable validate_result : json → option execution_result.

Abbreviation CM := (M (conn * W)).

Definition connector_connect : CM string :=
  connect cfg fuel get_pod_ip get_pod_name get_service_fqdn.

Definition run_sandboxd (command : string) (timeout : py_number) (report_timeout : bool)
    (env : option (list (string * string))) (cwd : option string) : CM execution_result :=
  _ ← connector_connect;
  channel ← grpc_channel cfg;
  except (λ e, match e with
               | RpcError c =>
                   Some (
                     if report_timeout && (c =? DEADLINE_EXCEEDED) then
                       mret (ExecutionResult []
                               (code_points ("Command timed out after " +:+ format_g timeout +:+ " seconds"))
                               124 true)
                     else
                       _ ← (if c =? UNAVAILABLE then conn_invalidate (Some channel) None else mret ());
                       raise RuntimeError)
               | _ => None
               end)
    ('(out, err, code) ← world (rpc_execute channel (mk_process_config command env cwd) timeout);
     mret (ExecutionResult (decode_replace out) (decode_replace err) code false)).

Definition run_legacy (command : string) (timeout : py_number) (command_timeout : option py_number)
    : CM execution_result :=
  let '(payload, read_timeout) := execute_request command timeout command_timeout in
  resp ← conn_send_request cfg fuel number_str get_pod_ip get_pod_name get_service_fqdn
           (Request "POST" "execute" payload None (TNumber read_timeout) false [] false);
  data ← match resp_json resp with
         | Ret j => mret j
         | Raise ValueError => raise RuntimeError
         | Raise e => raise e
         | NoFuel => no_fuel
         end;
  match validate_result data with
  | Some r => mret r
  | None => raise RuntimeError
  end.

Definition run (command : string) (timeout : py_number) (command_timeout : option py_number)
    (env : option (list (string * string))) (cwd : option string) : CM execution_result :=
  let sandboxd := conn_is_sandboxd (cc_connection cfg) in
  _ ← lift (check_process_options env cwd sandboxd);
  if sandboxd then
    match command_timeout with
    | None => run_sandboxd command timeout false env cwd
    | Some c => run_sandboxd command c true env cwd
    end
  else run_legacy command timeout command_timeout.

Definition start (command : string) (timeout : py_number) (env : option (list (string * string)))
    (cwd : option string) (pty : option (Z * Z)) : CM process_handle :=
  let sandboxd := conn_is_sandboxd (cc_connection cfg) in
  if negb sandboxd then raise NotImplementedError
  else
    _ ← lift (check_process_options env cwd sandboxd);
    _ ← connector_connect;
    channel ← grpc_channel cfg;
    '(call, timed_out) ← world (rpc_start channel (mk_process_config command env cwd) pty timeout);
    except (λ e, match e with
                 | RpcError c =>
                     Some (
                       if timed_out : bool then raise TimeoutError
                       else
                         _ ← (if c =? UNAVAILABLE then conn_invalidate (Some channel) None else mret ());
                         raise RuntimeError)
                 | _ => None
                 end)
      (world (from_stream channel call)).
End executor.
