(* ===== verification/CommandsProofs.v ===== *)
(** Theorems on command execution: the event stream of a process, and what a
    failed call to sandboxd does to the connection. *)

From Stdlib Require Import Ascii String ZArith QArith NArith Lia.
From stdpp Require Import base option list strings gmap pretty sets.
From S2P Require Import Prelude Json IpAddress PyText Models Utils World Sim K8sHelper Http Tunnel.
From S2P Require Import Connector ConnectorProofs Commands.

#[local] Open Scope Z_scope.

(** ** Process events *)

(** Output messages and the events they become. *)
Definition output_event (r : start_response) : option process_event :=
  match r with
  | RStdout d => Some (EStdout d)
  | RStderr d => Some (EStderr d)
  | _ => None
  end.

(** A well-behaved stream and its events: output, then the exit, then the end. *)
Definition conforming (st : stream_call) (evs : list process_event) : Prop :=
  st_end st = None ∧
  ∃ msgs outs c, Forall2 (λ r ev, output_event r = Some ev) msgs outs ∧
                 st_rest st = msgs ++ [RExit c] ∧ evs = outs ++ [EExit c].

Lemma conforming_output id r rest fin ev evs :
  output_event r = Some ev →
  conforming (StreamCall id (r :: rest) fin) (ev :: evs) ↔ conforming (StreamCall id rest fin) evs.
Proof.
  intros Hr. unfold conforming. cbn. apply and_iff_compat_l. split.
  - intros (msgs & outs & c & H2 & Hrest & Hevs). destruct H2 as [|r0 ev0 msgs outs H0 H2].
    + injection Hrest as -> ->. done.
    + injection Hrest as <- ->. injection Hevs as <- ->. by exists msgs, outs, c.
  - intros (msgs & outs & c & H2 & -> & ->). exists (r :: msgs), (ev :: outs), c. by split_and!; [constructor|..].
Qed.

Lemma conforming_exit id c rest fin :
  conforming (StreamCall id (RExit c :: rest) fin) [EExit c] ↔ rest = [] ∧ fin = None.
Proof.
  unfold conforming. cbn. split.
  - intros (-> & msgs & outs & c' & H2 & Hrest & Hevs). destruct H2 as [|r0 ev0 msgs outs H0 H2].
    + by injection Hrest as _ ->.
    + by injection Hrest as <- _.
  - intros [-> ->]. split; [done|]. by exists [], [], c.
Qed.

Lemma not_conforming id r rest fin evs :
  match r with RInit _ | RNone => True | _ => False end →
  ¬ conforming (StreamCall id (r :: rest) fin) evs.
Proof.
  intros Hr (_ & msgs & outs & c & H2 & Hrest & _). cbn in Hrest.
  destruct H2 as [|r0 ev0 msgs outs H0 H2]; injection Hrest as -> ?; [done|].
  by destruct r0.
Qed.

Section events.
Context {W : Type} {Hps : ProcessService W}.

Lemma next_event_cons h (w : W) r rest :
  st_rest (ph_stream h) = r :: rest →
  let h' := with_stream (StreamCall (st_id (ph_stream h)) rest (st_end (ph_stream h))) h in
  next_event (h, w) =
    match to_event r (ph_finished h) with
    | Ret (ev, f) => (Ret (Some ev), (with_finished f h', w))
    | Raise e => (Raise e, (h', w))
    | NoFuel => (NoFuel, (h', w))
    end.
Proof.
  intros Hr. unfold next_event. run_unfold. unfold self, set_self, lift. cbn [fst snd]. rewrite Hr.
  by destruct (to_event r (ph_finished h)) as [[ev f]|e|].
Qed.

(** After the exit only the end of the stream is accepted. *)
Lemma events_finished h (w : W) fuel :
  ph_finished h = true → (length (st_rest (ph_stream h)) < fuel)%nat →
  ∃ e s', events fuel (h, w) = (Ret ([], e), s') ∧
          (e = None ↔ st_rest (ph_stream h) = [] ∧ st_end (ph_stream h) = None).
Proof.
  intros Hf Hfuel. destruct fuel as [|fuel]; [lia|]. cbn [events].
  destruct (st_rest (ph_stream h)) as [|r rest] eqn:Er.
  - unfold next_event. run_unfold. unfold self. cbn [fst snd]. rewrite Er.
    destruct (st_end (ph_stream h)) as [e|].
    + destruct e; (eexists _, _; split; [done|naive_solver]).
    + rewrite Hf. eexists _, _. split; [done|naive_solver].
  - rewrite (next_event_cons h w r rest Er). cbn zeta. rewrite Hf. cbn [to_event].
    eexists _, _. split; [done|]. naive_solver.
Qed.

Lemma events_run h (w : W) fuel :
  ph_finished h = false → (length (st_rest (ph_stream h)) < fuel)%nat →
  ∃ evs e s', events fuel (h, w) = (Ret (evs, e), s') ∧
              (e = None ↔ conforming (ph_stream h) evs).
Proof.
  revert h. induction fuel as [|fuel IH]; intros h Hf Hfuel; [lia|]. cbn [events].
  destruct h as [ch [id rest fin] pid f]. cbn in Hf. subst f. cbn [ph_stream st_rest] in *.
  destruct rest as [|r rest].
  - unfold next_event. run_unfold. unfold self. cbn [fst snd ph_stream st_rest st_end ph_finished].
    assert (∀ evs, ¬ conforming (StreamCall id [] fin) evs) as Hno.
    { intros evs (_ & [|] & outs & c & _ & Hd & _); done. }
    destruct fin as [e|]; [destruct e|];
      (eexists _, _, _; split; [reflexivity|split; [done|intros []%Hno]]).
  - erewrite next_event_cons by done. cbn [ph_finished]. cbn [length] in Hfuel.
    set (h1 := with_stream _ _).
    assert (∀ ev, output_event r = Some ev → ∃ evs e s',
      ('(evs, e) ← events fuel; mret (ev :: evs, e)) (with_finished false h1, w) = (Ret (evs, e), s') ∧
      (e = None ↔ conforming (StreamCall id (r :: rest) fin) evs)) as Hout.
    { intros ev Hev. destruct (IH (with_finished false h1) eq_refl) as (evs & e & s' & He & Hc); [cbn; lia|].
      exists (ev :: evs), e, s'. split; [unfold mbind, M_bind; by rewrite He|].
      rewrite conforming_output by done. exact Hc. }
    destruct r as [p|d|d|c|]; cbn [to_event]; [|by apply Hout..| |].
    1,3: eexists _, _, _; split; [reflexivity|]; split; [done|by intros []%not_conforming].
    destruct (events_finished (with_finished true h1) w fuel eq_refl) as (e & s' & He & Hc); [cbn; lia|].
    exists [EExit c], e, s'. split; [unfold mbind, M_bind; by rewrite He|].
    rewrite conforming_exit. exact Hc.
Qed.

(** Iterating over the events of a started process always ends, and it ends
    without an error exactly when sandboxd sent output messages, one exit and
    nothing more; the caller has then received every byte of output in order and
    the exit code last. A lost connection, a missing or repeated exit, output
    after the exit or an unknown message always raises. *)
Theorem process_events_complete h (w : W) :
  ph_finished h = false →
  ∃ evs e s', events (S (length (st_rest (ph_stream h)))) (h, w) = (Ret (evs, e), s') ∧
    (e = None ↔
     st_end (ph_stream h) = None ∧
     ∃ msgs outs c, Forall2 (λ r ev, output_event r = Some ev) msgs outs ∧
                    st_rest (ph_stream h) = msgs ++ [RExit c] ∧ evs = outs ++ [EExit c]).
Proof. intros Hf. apply events_run; [done|lia]. Qed.
End events.

(** ** Failed calls *)

Section failures.
Context {W : Type} {Hclock : Clock W} {Hk8s : K8sApi W} {Hhost : Host W} {Hnet : Net W}
  {Hps : ProcessService W}.
Variable cfg : conn_config.
Variable fuel : nat.
Variable get_pod_ip get_pod_name get_service_fqdn : option (M W (option string)).
Variable format_g : py_number → string.

#[local] Abbreviation connect_now := (connector_connect cfg fuel get_pod_ip get_pod_name get_service_fqdn).
#[local] Abbreviation run_sandboxd :=
  (run_sandboxd cfg fuel get_pod_ip get_pod_name get_service_fqdn format_g).

(** The in-cluster transport is discarded; the next call resolves it anew. *)
Definition transport_dropped (c c' : conn) : Prop :=
  c' = Conn (cn_pod_ip c) (cn_pod_ip_resolved c) (cn_pod_ip_auth_failed c) None None
         (S (cn_token c)) (StInClusterd (InClusterd None None)).

Lemma conn_invalidate_channel (s : conn * W) ch target r s' :
  cn_channel s.1 = Some (ch, target) →
  conn_invalidate (Some ch) None s = (r, s') → r ≠ NoFuel →
  r = Ret () ∧ if is_clusterd (cn_strategy s.1) then transport_dropped s.1 s'.1 else s' = s.
Proof.
  intros Hch. unfold conn_invalidate, mbind at 1, M_bind at 1, self.
  destruct (is_clusterd (cn_strategy s.1)); [|by intros [= <- <-]].
  rewrite Hch. cbn [negb fmap option_fmap option_map fst].
  rewrite (bool_decide_eq_true_2 (Some ch = Some ch)) by done. rewrite andb_false_r.
  change (bool_decide (is_Some (@None nat))) with false. cbn [andb].
  unfold mbind at 1, M_bind at 1, set_self at 1. unfold mbind at 1, M_bind at 1.
  destruct (drop_channel _) as [r1 s1] eqn:E1. intros H Hr.
  assert (r1 ≠ NoFuel) as Hr1 by (intros ->; by simplify_eq).
  destruct (drop_channel_closed _ _ _ E1 Hr1) as [-> Hc].
  unfold set_self in H. injection H as <- <-. cbn [fst]. unfold transport_dropped. by rewrite Hc.
Qed.

(** A command whose gRPC call fails. A deadline the caller set as the
    command's limit becomes a result with exit code 124 and the timed-out flag;
    every other failure raises [RuntimeError].
    Only an unavailable server makes the connector drop its transport, and only
    in the in-cluster mode; a tunnel and its channel are kept. *)
Theorem run_sandboxd_rpc_failure command timeout report env cwd s url s1 ch s2 status w3 r s' :
  connect_now s = (Ret url, s1) → grpc_channel cfg s1 = (Ret ch, s2) →
  rpc_execute ch (mk_process_config command env cwd) timeout s2.2 = (Raise (RpcError status), w3) →
  run_sandboxd command timeout report env cwd s = (r, s') → r ≠ NoFuel →
  if report && (status =? DEADLINE_EXCEEDED) then
    s'.1 = s2.1 ∧ ∃ res, r = Ret res ∧ er_exit_code res = 124 ∧ er_timed_out res = true
  else
    r = Raise RuntimeError ∧
    if (status =? UNAVAILABLE) && is_clusterd (cn_strategy s2.1)
    then transport_dropped s2.1 s'.1 else s'.1 = s2.1.
Proof.
  intros Ec Eg Ex. unfold Commands.run_sandboxd, mbind, M_bind, except. rewrite Ec, Eg.
  unfold world. rewrite Ex. destruct (report && _).
  - run_unfold. intros [= <- <-] _. eauto 10.
  - destruct (status =? UNAVAILABLE); cbn [andb]; [|by intros [= <- <-]].
    destruct (conn_invalidate (Some ch) None (s2.1, w3)) as [r1 s4] eqn:Ei. intros H Hr.
    assert (r1 ≠ NoFuel) as Hr1 by (intros ->; by simplify_eq).
    destruct (proj2 (grpc_channel_current cfg s1 ch s2 Eg)) as (target & _ & _ & Hch & _).
    destruct (conn_invalidate_channel (s2.1, w3) ch target _ _ Hch Ei Hr1) as [-> Hs4].
    injection H as <- <-. split; [done|]. cbn [fst] in Hs4.
    by destruct (is_clusterd _); [|rewrite Hs4].
Qed.
End failures.

(** ** Examples *)

Definition clusterd_pod_cfg : conn_config :=
  ConnConfig "sbx" "team-a" (CSandboxdInCluster (InClusterdConfig None InClusterPodIp 8081 8082)) None.

(** A sandboxd whose process service is down. *)
#[local] Instance quiet_processes : ProcessService quiet := {
  rpc_execute _ _ _ w := (Raise (RpcError UNAVAILABLE), w);
  rpc_start _ _ _ _ w := (Raise (RpcError UNAVAILABLE), w);
  rpc_send_signal _ _ _ w := (Ret (), w);
  rpc_cancel _ w := (Ret (), w);
}.
#[local] Instance quiet_host' : Host quiet := quiet_host.
#[local] Instance quiet_net : Net quiet := answering (Raise OSError).

Definition hello_process : process_handle :=
  ProcessHandle 7 (StreamCall 1 [RStdout (explode "hel"); RStderr (explode "!"); RStdout (explode "lo"); RExit 3]
                     None) 42 false.

Lemma process_events_complete_witness :
  ∃ evs e, evs = [EStdout (explode "hel"); EStderr (explode "!"); EStdout (explode "lo"); EExit 3] ∧
    e = None ∧ ∃ s', events 5 (hello_process, Quiet 0) = (Ret (evs, e), s').
Proof.
  destruct (process_events_complete hello_process (Quiet 0) eq_refl) as (evs & e & s' & He & _).
  exists evs, e. vm_compute in He. injection He as <- <- <-.
  split; [reflexivity|]. split; [reflexivity|]. eexists. reflexivity.
Defined.

Lemma run_sandboxd_rpc_failure_witness :
  let s := (conn_new clusterd_pod_cfg, Quiet 0) in
  (run_sandboxd clusterd_pod_cfg 0 pod_ip_of None None no_number "ls" (NInt 60) false None None s).1
    = Raise RuntimeError ∧
  cn_channel
    (run_sandboxd clusterd_pod_cfg 0 pod_ip_of None None no_number "ls" (NInt 60) false None None s).2.1
    = None.
Proof.
  cbn zeta.
  destruct (connector_connect clusterd_pod_cfg 0 pod_ip_of None None (conn_new clusterd_pod_cfg, Quiet 0))
    as [r1 s1] eqn:E1.
  destruct r1 as [url|e|]; [|exfalso; vm_compute in E1; congruence..].
  assert (s1 = (connector_connect clusterd_pod_cfg 0 pod_ip_of None None
                  (conn_new clusterd_pod_cfg, Quiet 0)).2) as Hs1 by (by rewrite E1).
  destruct (grpc_channel clusterd_pod_cfg s1) as [r2 s2] eqn:E2.
  destruct r2 as [ch|e|]; [|exfalso; rewrite Hs1 in E2; vm_compute in E2; congruence..].
  assert (is_clusterd (cn_strategy s2.1) = true) as Hcl.
  { rewrite Hs1 in E2. vm_compute in E2. by injection E2 as _ <-. }
  destruct (run_sandboxd clusterd_pod_cfg 0 pod_ip_of None None no_number "ls" (NInt 60) false None None
              (conn_new clusterd_pod_cfg, Quiet 0)) as [r s'] eqn:E.
  assert (r ≠ NoFuel) as Hr by (intros ->; vm_compute in E; congruence).
  pose proof (run_sandboxd_rpc_failure clusterd_pod_cfg 0 pod_ip_of None None no_number "ls" (NInt 60)
                false None None _ url s1 ch s2 UNAVAILABLE s2.2 r s' E1 E2 eq_refl E Hr) as H.
  cbn [andb] in H. rewrite Z.eqb_refl, Hcl in H. destruct H as [-> H].
  split; [reflexivity|]. cbn [snd]. rewrite H. reflexivity.
Defined.
