(* ===== verification/Coroutine.v ===== *)
(** Coroutines of [asyncio] over a shared state.

    A coroutine is a tree of the points at which it may be suspended. The code between
    two of them runs without interruption ([Local]); a call that is awaited takes effect
    at one moment while the coroutine is suspended ([Await]); a lock that is free is
    taken without suspension ([Acquire]), and those that wait for one are not queued. A
    suspended coroutine may be cancelled: the await raises [CancelledError], before the
    call had its effect or after it, and the answer is lost. A shielded call has its
    effect in any case.

    [step] interleaves the tasks of a pool in every way. [always] is a logic for what
    one task does in all of them: it keeps an invariant, moves the state along a
    preorder on which the knowledge of the others rests, and ends with a postcondition. *)

From Stdlib Require Import String ZArith.
From stdpp Require Import base option list strings relations.
From S2P Require Import Prelude Hoare.

Section coro.
Context {S : Type}.

Inductive coro (A : Type) :=
  | Finished (o : outcome A)
  | Local (X : Type) (m : M S X) (k : outcome X → coro A)
  | Await (shielded : bool) (X : Type) (m : M S X) (k : outcome X → coro A)
  | Acquire (free : S → bool) (k : outcome () → coro A).
#[global] Arguments Finished {A} _.
#[global] Arguments Local {A X} _ _.
#[global] Arguments Await {A} _ {X} _ _.
#[global] Arguments Acquire {A} _ _.

Fixpoint coro_bind {A B} (c : coro A) (k : A → coro B) : coro B :=
  match c with
  | Finished (Ret a) => k a
  | Finished (Raise e) => Finished (Raise e)
  | Finished NoFuel => Finished NoFuel
  | Local m f => Local m (λ r, coro_bind (f r) k)
  | Await sh m f => Await sh m (λ r, coro_bind (f r) k)
  | Acquire free f => Acquire free (λ r, coro_bind (f r) k)
  end.

#[global] Instance coro_mret : MRet coro := λ A a, Finished (Ret a).
#[global] Instance coro_mbind : MBind coro := λ A B k c, coro_bind c k.

Definition local {A} (m : M S A) : coro A := Local m Finished.
Definition await {A} (m : M S A) : coro A := Await false m Finished.
Definition shield {A} (m : M S A) : coro A := Await true m Finished.
Definition acquire (free : S → bool) : coro () := Acquire free Finished.
Definition throw {A} (e : exn) : coro A := Finished (Raise e).
Definition of_outcome {A} (o : outcome A) : coro A := Finished o.

(** What a [try] statement goes on with: the result of its body *)
Fixpoint attempt {A} (c : coro A) : coro (exn + A) :=
  match c with
  | Finished (Ret a) => Finished (Ret (inr a))
  | Finished (Raise e) => Finished (Ret (inl e))
  | Finished NoFuel => Finished NoFuel
  | Local m f => Local m (λ r, attempt (f r))
  | Await sh m f => Await sh m (λ r, attempt (f r))
  | Acquire free f => Acquire free (λ r, attempt (f r))
  end.

(** The body of [try], what follows it when it raised, and when it did not *)
Definition try_catch {A B} (c : coro A) (h : exn → coro B) (k : A → coro B) : coro B :=
  r ← attempt c; match r with inl e => h e | inr a => k a end.

(** [try: ... except Exception: ...], which lets a cancellation pass *)
Definition logged (c : coro ()) : coro () :=
  try_catch c (λ e, if bool_decide (e = CancelledError) then throw e else mret ()) (λ _, mret ()).

Fixpoint each {A} (l : list A) (f : A → coro ()) : coro () :=
  match l with [] => mret () | a :: l' => _ ← f a; each l' f end.

(** ** Interleaving *)

(** Run on until the next suspension. *)
Fixpoint settle {A} (c : coro A) (s : S) : coro A * S :=
  match c with
  | Local m k => let '(r, s') := m s in settle (k r) s'
  | Acquire free k => if free s then settle (k (Ret ())) s else (c, s)
  | _ => (c, s)
  end.

Inductive task (A : Type) :=
  (** created, and not yet run *)
  | Ready (c : coro A)
  | Parked (c : coro A).
#[global] Arguments Ready {A} _.
#[global] Arguments Parked {A} _.

(** What the event loop does with a task *)
Inductive event := Go | Cancel | CancelLate.

Definition parked {A} (cs : coro A * S) : option (task A * S) := Some (Parked cs.1, cs.2).
Definition advance {A} (e : event) (t : task A) (s : S) : option (task A * S) :=
  match t, e with
  | Ready c, Go => parked (settle c s)
  | Parked (Await _ m k), Go => let '(r, s1) := m s in parked (settle (k r) s1)
  | Parked (Await false m k), Cancel => parked (settle (k (Raise CancelledError)) s)
  | Parked (Await _ m k), CancelLate => parked (settle (k (Raise CancelledError)) (m s).2)
  | Parked (Acquire free k), Go => if free s then parked (settle (k (Ret ())) s) else None
  | Parked (Acquire free k), Cancel => parked (settle (k (Raise CancelledError)) s)
  | _, _ => None
  end.

Inductive step {A} : list (task A) * S → list (task A) * S → Prop :=
  | step_at ts i e t s t' s' :
      ts !! i = Some t → advance e t s = Some (t', s') → step (ts, s) (<[i := t']> ts, s').

(** An execution by a schedule; events that cannot happen are skipped *)
Definition exec_step {A} (p : list (task A) * S) (ie : nat * event) : list (task A) * S :=
  match t ← p.1 !! ie.1; advance ie.2 t p.2 with
  | Some (t', s') => (<[ie.1 := t']> p.1, s')
  | None => p
  end.
Definition exec {A} (schedule : list (nat * event)) (p : list (task A) * S) : list (task A) * S :=
  foldl exec_step p schedule.

Lemma schedule_steps {A} schedule (p : list (task A) * S) : rtc step p (exec schedule p).
Proof.
  unfold exec. revert p. induction schedule as [|[i e] l IH]; intros p; [done|]. cbn. etrans; [|apply IH].
  unfold exec_step. destruct p as [ts s]. cbn. destruct (ts !! i) as [t|] eqn:Ei; cbn; [|done].
  destruct (advance e t s) as [[t' s']|] eqn:E; [|done]. apply rtc_once. by econstructor.
Qed.

(** ** What a task does in every interleaving *)

Section logic.
Context (I : S → Prop) (R : relation S) `{!PreOrder R}.

(** A section that keeps the invariant and moves along the preorder *)
Definition keeps_to {X} (m : M S X) (s : S) : Prop := I (m s).2 ∧ R s (m s).2.

(** The state was [s0] when the coroutine was last at work. *)
Fixpoint always {A} (Q : outcome A → S → Prop) (c : coro A) (s0 : S) : Prop :=
  match c with
  | Finished o => Q o s0
  | Local m k => ∀ s, R s0 s → I s → keeps_to m s ∧ always Q (k (m s).1) (m s).2
  | Await sh m k => ∀ s, R s0 s → I s →
      keeps_to m s ∧ always Q (k (m s).1) (m s).2 ∧ always Q (k (Raise CancelledError)) (m s).2
      ∧ (sh = false → always Q (k (Raise CancelledError)) s)
  | Acquire free k => ∀ s, R s0 s → I s →
      if free s then always Q (k (Ret ())) s
      else ∀ s', R s s' → I s' → always Q (k (Raise CancelledError)) s'
  end.

Definition stays {A} (Q : outcome A → S → Prop) : Prop := ∀ o s s', R s s' → Q o s → Q o s'.

Lemma always_mono {A} (Q : outcome A → S → Prop) c s s' : stays Q → R s s' → always Q c s → always Q c s'.
Proof using PreOrder0.
  intros HQ Hs. destruct c; cbn; [by apply HQ|..]; intros Hc s1 Hs1; apply Hc; by etrans.
Qed.

Lemma always_weaken {A} (Q Q' : outcome A → S → Prop) c s :
  always Q c s → (∀ o s', Q o s' → Q' o s') → always Q' c s.
Proof using.
  intros Hc HQ. revert s Hc. induction c as [o|X m k IH|sh X m k IH|free k IH]; intros s Hc; cbn in *; [by apply HQ|..].
  - intros s1 H1 H2. destruct (Hc s1 H1 H2). auto.
  - intros s1 H1 H2. destruct (Hc s1 H1 H2) as (? & ? & ? & ?). auto 10.
  - intros s1 H1 H2. specialize (Hc s1 H1 H2). destruct (free s1); auto.
Qed.

Lemma always_bind {A B} (Q : outcome B → S → Prop) (c : coro A) (k : A → coro B) s :
  always (λ o s', match o with
                  | Ret a => always Q (k a) s'
                  | Raise e => Q (Raise e) s'
                  | NoFuel => Q NoFuel s'
                  end) c s → always Q (c ≫= k) s.
Proof using.
  unfold mbind, coro_mbind. revert s. induction c as [o|X m f IH|sh X m f IH|free f IH]; intros s Hc; cbn in *.
  - by destruct o.
  - intros s1 H1 H2. destruct (Hc s1 H1 H2). auto.
  - intros s1 H1 H2. destruct (Hc s1 H1 H2) as (? & ? & ? & ?). auto 10.
  - intros s1 H1 H2. specialize (Hc s1 H1 H2). destruct (free s1); auto.
Qed.

Lemma always_attempt {A} (Q : outcome (exn + A) → S → Prop) (c : coro A) s :
  always (λ o s', match o with
                  | Ret a => Q (Ret (inr a)) s'
                  | Raise e => Q (Ret (inl e)) s'
                  | NoFuel => Q NoFuel s'
                  end) c s → always Q (attempt c) s.
Proof using.
  revert s. induction c as [o|X m f IH|sh X m f IH|free f IH]; intros s Hc; cbn in *.
  - by destruct o.
  - intros s1 H1 H2. destruct (Hc s1 H1 H2). auto.
  - intros s1 H1 H2. destruct (Hc s1 H1 H2) as (? & ? & ? & ?). auto 10.
  - intros s1 H1 H2. specialize (Hc s1 H1 H2). destruct (free s1); auto.
Qed.

Lemma always_try {A B} (Q : outcome B → S → Prop) (c : coro A) h k s :
  always (λ o s', match o with
                  | Ret a => always Q (k a) s'
                  | Raise e => always Q (h e) s'
                  | NoFuel => Q NoFuel s'
                  end) c s → always Q (try_catch c h k) s.
Proof using. intros Hc. apply always_bind, always_attempt. eapply always_weaken; [exact Hc|]. by intros [] ?. Qed.

(** What is known at the end: the invariant, and that the state moved along. *)
Lemma always_rely {A} (Q : outcome A → S → Prop) c s :
  I s → always Q c s → always (λ o s', Q o s' ∧ R s s' ∧ I s') c s.
Proof using PreOrder0.
  assert (∀ s1 s2, R s1 s2 → (∀ o s', Q o s' ∧ R s2 s' ∧ I s' → Q o s' ∧ R s1 s' ∧ I s')) as Hw.
  { intros s1 s2 H12 o s' (? & ? & ?). split; [done|]. split; [by etrans|done]. }
  revert s. induction c as [o|X m k IH|sh X m k IH|free k IH]; intros s Hs Hc; cbn in *; [done|..].
  - intros s1 H1 H2. destruct (Hc s1 H1 H2) as [[H3 H4] H5]. split; [done|].
    eapply always_weaken; [by apply IH|]. apply Hw. by etrans.
  - intros s1 H1 H2. destruct (Hc s1 H1 H2) as ([H3 H4] & H5 & H6 & H7). split; [done|].
    split; [|split; [|intros Hsh]]; (eapply always_weaken; [apply IH; auto|]); apply Hw; [by etrans..|done].
  - intros s1 H1 H2. specialize (Hc s1 H1 H2). destruct (free s1).
    + eapply always_weaken; [by apply IH|]. by apply Hw.
    + intros s2 H3 H4. eapply always_weaken; [apply IH; auto|]. apply Hw. by etrans.
Qed.

(** Composition: what the first part ended with is known to the second. *)
Lemma co_bind {A B} (Q1 : outcome A → S → Prop) (Q : outcome B → S → Prop) (c : coro A) (k : A → coro B) s :
  I s → always Q1 c s →
  (∀ a s', R s s' → I s' → Q1 (Ret a) s' → always Q (k a) s') →
  (∀ e s', R s s' → I s' → Q1 (Raise e) s' → Q (Raise e) s') →
  (∀ s', R s s' → I s' → Q1 NoFuel s' → Q NoFuel s') → always Q (c ≫= k) s.
Proof using PreOrder0.
  intros Hs Hc Hk He Hn. apply always_bind. eapply always_weaken; [by apply always_rely, Hc|].
  intros [a|e|] s' (? & ? & ?); auto.
Qed.

Lemma co_try {A B} (Q1 : outcome A → S → Prop) (Q : outcome B → S → Prop) (c : coro A) h k s :
  I s → always Q1 c s →
  (∀ a s', R s s' → I s' → Q1 (Ret a) s' → always Q (k a) s') →
  (∀ e s', R s s' → I s' → Q1 (Raise e) s' → always Q (h e) s') →
  (∀ s', R s s' → I s' → Q1 NoFuel s' → Q NoFuel s') → always Q (try_catch c h k) s.
Proof using PreOrder0.
  intros Hs Hc Hk He Hn. apply always_try. eapply always_weaken; [by apply always_rely, Hc|].
  intros [a|e|] s' (? & ? & ?); auto.
Qed.

Lemma co_local {A} (Q : outcome A → S → Prop) (m : M S A) s0 :
  (∀ s, R s0 s → I s → keeps_to m s ∧ Q (m s).1 (m s).2) → always Q (local m) s0.
Proof using. done. Qed.

(** A call whose answer may be lost *)
Lemma co_await {A} (Q : outcome A → S → Prop) (m : M S A) s0 :
  (∀ s, R s0 s → I s → keeps_to m s ∧ Q (m s).1 (m s).2 ∧ Q (Raise CancelledError) (m s).2 ∧ Q (Raise CancelledError) s) →
  always Q (await m) s0.
Proof using. intros Hm s H1 H2. destruct (Hm s H1 H2) as (? & ? & ? & ?). cbn. auto. Qed.

Lemma co_shield {A} (Q : outcome A → S → Prop) (m : M S A) s0 :
  (∀ s, R s0 s → I s → keeps_to m s ∧ Q (m s).1 (m s).2 ∧ Q (Raise CancelledError) (m s).2) →
  always Q (shield m) s0.
Proof using. intros Hm s H1 H2. destruct (Hm s H1 H2) as (? & ? & ?). cbn. by auto. Qed.

Lemma co_acquire (Q : outcome () → S → Prop) (free : S → bool) s0 :
  (∀ s, R s0 s → I s → if free s then Q (Ret ()) s else ∀ s', R s s' → I s' → Q (Raise CancelledError) s') →
  always Q (acquire free) s0.
Proof using. intros Hm s H1 H2. specialize (Hm s H1 H2). cbn. by destruct (free s). Qed.

Lemma co_each {A} (l : list A) (f : A → coro ()) s :
  I s → (∀ a s', a ∈ l → R s s' → I s' → always (λ (_ : outcome ()) (_ : S), True) (f a) s') → always (λ (_ : outcome ()) (_ : S), True) (each l f) s.
Proof using PreOrder0.
  revert s. induction l as [|a l IH]; intros s Hs Hf; cbn; [done|].
  eapply co_bind; [done|apply Hf; [by left|done|done]| |done|done].
  intros [] s' HR HI _. apply IH; [done|]. intros b s2 Hb H2. apply Hf; [by right|by etrans].
Qed.

(** Tasks of a pool *)
Definition task_ok {A} (Q : outcome A → S → Prop) (s : S) (t : task A) : Prop :=
  match t with
  | Ready c => always Q c s
  | Parked (Local _ _) => False
  | Parked (Acquire free k) => ∀ s', R s s' → I s' →
      always Q (k (Raise CancelledError)) s' ∧ (free s' = true → always Q (k (Ret ())) s')
  | Parked c => always Q c s
  end.

Lemma settle_ok {A} (Q : outcome A → S → Prop) c s :
  always Q c s → I s → let p := settle c s in I p.2 ∧ R s p.2 ∧ task_ok Q p.2 (Parked p.1).
Proof using PreOrder0.
  revert s. induction c as [o|X m k IH|sh X m k IH|free k IH]; intros s Hc Hs; cbn [settle].
  - done.
  - destruct (Hc s) as [[H1 H2] H3]; [done|done|]. destruct (m s) as [r s1]. cbn in *.
    destruct (IH r s1 H3 H1) as (? & ? & ?). split; [done|]. split; [by etrans|done].
  - done.
  - destruct (free s) eqn:Hf.
    + apply IH; [|done]. specialize (Hc s ltac:(done) Hs). by rewrite Hf in Hc.
    + split; [done|]. split; [done|]. cbn. intros s' Hs' HI'. split.
      * specialize (Hc s ltac:(done) Hs). rewrite Hf in Hc. by apply Hc.
      * intros Hf'. specialize (Hc s' Hs' HI'). by rewrite Hf' in Hc.
Qed.

Lemma advance_ok {A} (Q : outcome A → S → Prop) e t s t' s' :
  task_ok Q s t → I s → advance e t s = Some (t', s') → I s' ∧ R s s' ∧ task_ok Q s' t'.
Proof using PreOrder0.
  assert (∀ c s1, always Q c s1 → I s1 → R s s1 → parked (settle c s1) = Some (t', s') →
    I s' ∧ R s s' ∧ task_ok Q s' t') as Hp.
  { intros c s1 Hc Hs1 HR [= <- <-]. destruct (settle_ok Q c s1 Hc Hs1) as (? & ? & ?).
    split; [done|]. split; [by etrans|done]. }
  intros Ht Hs E. destruct t as [c|[o|X m k|sh X m k|free k]]; [|done|done| |].
  - destruct e; try done. by eapply Hp.
  - destruct (Ht s ltac:(done) Hs) as ([H1 H2] & H3 & H4 & H5). destruct e; cbn in E.
    + destruct (m s) as [r s1], sh; exact (Hp _ _ H3 H1 H2 E).
    + destruct sh; [done|]. exact (Hp _ _ (H5 eq_refl) Hs (reflexivity s) E).
    + destruct sh; exact (Hp _ _ H4 H1 H2 E).
  - destruct e; cbn in E; [destruct (free s) eqn:Hf; [|done]| |done];
      destruct (Ht s ltac:(done) Hs) as [H1 H2]; (eapply Hp; [|exact Hs|done|exact E]); auto.
Qed.

Lemma task_ok_mono {A} (Q : outcome A → S → Prop) s s' t : stays Q → R s s' → task_ok Q s t → task_ok Q s' t.
Proof using PreOrder0.
  intros HQ Hs. destruct t as [c|[]]; cbn [task_ok]; [by apply always_mono|by apply HQ|done| |];
    intros Ht s1 Hs1; apply Ht; by etrans.
Qed.

(** In every execution of a pool the invariant holds, the state moves along the
    preorder, and a task that has finished meets its postcondition. *)
Lemma steps_ok {A} (Qs : list (outcome A → S → Prop)) ts s ts' s' :
  Forall stays Qs → I s → Forall2 (λ Q t, task_ok Q s t) Qs ts → rtc step (ts, s) (ts', s') →
  I s' ∧ R s s' ∧ Forall2 (λ Q t, task_ok Q s' t) Qs ts'.
Proof using PreOrder0.
  intros HQ Hs Hts Hst. remember (ts, s) as p eqn:Ep. remember (ts', s') as p' eqn:Ep'.
  revert ts s Hs Hts Ep. induction Hst as [p|p1 p2 p3 Hst _ IH]; intros ts s Hs Hts ->.
  { injection Ep' as -> ->. done. }
  inversion Hst as [ts1 i e t s1 t' s2 Hi Ha]; subst.
  assert (∃ Q, Qs !! i = Some Q ∧ task_ok Q s t) as (Q & HQi & Ht).
  { destruct (Forall2_lookup_r _ _ _ _ _ Hts Hi) as (Q & ? & ?). eauto. }
  destruct (advance_ok Q e t s t' s2 Ht Hs Ha) as (Hs2 & HR & Ht').
  edestruct (IH eq_refl (<[i := t']> ts) s2) as (? & ? & ?); [done| |done|split; [done|]; split; [by etrans|done]].
  apply Forall2_same_length_lookup_2; [rewrite length_insert; by eapply Forall2_length|].
  intros j Qj tj Hj Htj. destruct (decide (i = j)) as [<-|Hne].
  - rewrite list_lookup_insert_eq in Htj by (by eapply lookup_lt_Some). by simplify_eq.
  - rewrite list_lookup_insert_ne in Htj by done.
    apply (task_ok_mono Qj s s2); [by eapply (Forall_lookup_1 _ Qs)|exact HR|].
    by apply (Forall2_lookup_lr (λ Q t, task_ok Q s t) Qs ts j).
Qed.
End logic.
End coro.
#[global] Arguments coro : clear implicits.
#[global] Arguments task : clear implicits.
