(* ===== verification/AsyncClient.v ===== *)
(** [AsyncSandboxClient] of [async_sandbox_client.py], and the life cycle of
    [AsyncSandbox] of [async_sandbox.py].

    The operations are coroutines over the client that all of them share, in any
    interleaving and with cancellation at every await ([Coroutine]). A call of the
    helper takes effect at one moment. The helper and the connectors of the handles are
    interfaces; tracing and the reuse of the TLS context are left out. *)

From Stdlib Require Import Ascii String ZArith Lia.
From stdpp Require Import base option list strings gmap sets relations.
From S2P Require Import Prelude Hoare Json Models Validation Utils SandboxClient SandboxClientProofs Coroutine.

#[local] Open Scope Z_scope.

(** ** State *)

Record ahandle := AHandle {
  (** [namespace] and the name it was made with *)
  ah_key : claim_key;
  (** [claim_name], cleared once the claim was deleted *)
  ah_claim : option string;
  ah_sandbox_id : string;
  ah_closed : bool;
  (** [_commands], [_files] and [_watcher] *)
  ah_engines : bool;
  (** [_on_terminated] is set *)
  ah_hook : bool;
}.

Definition ah_is_active (h : ahandle) : bool := negb (ah_closed h) && ah_engines h.
Definition ah_set_closed (h : ahandle) : ahandle :=
  AHandle (ah_key h) (ah_claim h) (ah_sandbox_id h) true false (ah_hook h).
Definition ah_drop_hook (h : ahandle) : ahandle :=
  AHandle (ah_key h) (ah_claim h) (ah_sandbox_id h) (ah_closed h) (ah_engines h) false.
Definition ah_clear_claim (h : ahandle) : ahandle :=
  AHandle (ah_key h) None (ah_sandbox_id h) (ah_closed h) (ah_engines h) (ah_hook h).

(** What was done to claims, in order; nothing reads it. *)
Inductive deed :=
  | Deleting (key : claim_key)
  | Registered (key : claim_key) (r : nat).

Record aclient := AClient {
  ac_registry : list (claim_key * nat);
  ac_explicit : gset claim_key;
  ac_heap : list ahandle;
  (** [_lock] is held across an await *)
  ac_locked : bool;
  ac_deeds : list deed;
}.

Definition aclient_new : aclient := AClient [] ∅ [] false [].

Definition set_registry (r : list (claim_key * nat)) (c : aclient) : aclient :=
  AClient r (ac_explicit c) (ac_heap c) (ac_locked c) (ac_deeds c).
Definition add_explicit (key : claim_key) (c : aclient) : aclient :=
  AClient (ac_registry c) ({[key]} ∪ ac_explicit c) (ac_heap c) (ac_locked c) (ac_deeds c).
Definition set_heap (h : list ahandle) (c : aclient) : aclient :=
  AClient (ac_registry c) (ac_explicit c) h (ac_locked c) (ac_deeds c).
Definition set_locked (b : bool) (c : aclient) : aclient :=
  AClient (ac_registry c) (ac_explicit c) (ac_heap c) b (ac_deeds c).
Definition did (d : deed) (c : aclient) : aclient :=
  AClient (ac_registry c) (ac_explicit c) (ac_heap c) (ac_locked c) (ac_deeds c ++ [d]).

(** ** Interfaces *)

(** [AsyncK8sHelper], and the synchronous helper that the exit hook builds *)
Class AsyncHelper (W : Type) := {
  helper_create : create_args → string → option (list (string * string)) → option AdditionalPodMetadata → M W json;
  helper_get_claim : string → string → M W (option json);
  (** with the UID that is expected *)
  helper_delete : string → string → option string → M W ();
  (** the name of the sandbox: claim, namespace, timeout, resourceVersion, expected UID, the claim itself *)
  helper_wait_ready : string → string → Z → option string → option string → option json → M W string;
  helper_resolve : string → string → Z → M W string;
  helper_get_sandbox : string → string → M W (option json);
  helper_list : string → option string → M W (list string);
  helper_close : M W ();
  sync_helper : M W ();
  sync_delete : string → string → M W ();
}.

(** The connectors of the handles *)
Class AsyncConnectors (W : Type) := {
  connector_close : nat → M W ();
  connector_exit : nat → M W ();
}.

(** [uuid.uuid4().hex] and [datetime.now(UTC)] *)
Class AsyncInputs (W : Type) := {
  auuid4_hex : M W string;
  autcnow : M W Z;
}.

Section client.
Context {W : Type} `{AsyncHelper W} `{AsyncConnectors W} `{AsyncInputs W}.
(** What constructing a handle raises, if anything: the connection may not be supported *)
Context (construct : outcome ()).

Abbreviation St := (aclient * W)%type.
Abbreviation SM := (M St).
Abbreviation CO := (coro St).

(** ** Sections without suspension *)

Definition adone (d : deed) : SM () := set_self (did d).

Definition aderef (r : nat) : SM ahandle := λ s,
  match ac_heap s.1 !! r with Some h => (Ret h, s) | None => (Raise AttributeError, s) end.
Definition update_handle (r : nat) (f : ahandle → ahandle) : SM () :=
  set_self (λ c, set_heap (alter f r (ac_heap c)) c).

Definition tracked (key : claim_key) : SM (option nat) := gets (λ s : St, rget key (ac_registry s.1)).
Definition pop (key : claim_key) : SM () := set_self (λ c, set_registry (rdel key (ac_registry c)) c).

(** [_untrack] *)
Definition auntrack (r : nat) : SM () :=
  h ← aderef r;
  match ah_claim h with
  | None => mret ()
  | Some name =>
      cur ← tracked ((ah_key h).1, name);
      if bool_decide (cur = Some r) then pop ((ah_key h).1, name) else mret ()
  end.

(** The constructor and [_attach_handle] *)
Definition construct_handle (key : claim_key) (sandbox_id : string) : SM nat :=
  _ ← lift construct;
  c ← self;
  _ ← set_self (λ c, set_heap (ac_heap c ++ [AHandle key (Some key.2) sandbox_id false true true]) c);
  mret (length (ac_heap c)).

(** [registry[key] = sandbox], and what was there *)
Definition enter (key : claim_key) (r : nat) : SM (option nat) :=
  previous ← tracked key;
  _ ← adone (Registered key r);
  _ ← set_self (λ c, set_registry (rset key r (ac_registry c)) c);
  mret previous.

(** ** Awaited calls *)

Definition delete_call (key : claim_key) (uid : option string) : SM () :=
  _ ← adone (Deleting key); world (helper_delete key.2 key.1 uid).

(** ** [AsyncSandbox] *)

Definition aclose_connection (r : nat) : CO () :=
  h ← local (aderef r);
  if ah_closed h then mret ()
  else _ ← await (world (connector_close r)); local (update_handle r ah_set_closed).

Definition aterminate (r : nat) : CO () :=
  _ ← aclose_connection r;
  h ← local (aderef r);
  match str_or (ah_claim h) None with
  | None => mret ()
  | Some name =>
      _ ← await (delete_call ((ah_key h).1, name) None);
      local (h ← aderef r;
             _ ← (if ah_hook h then _ ← auntrack r; update_handle r ah_drop_hook else mret ());
             update_handle r ah_clear_claim)
  end.

(** ** [AsyncSandboxClient] *)

Definition unlocked (s : St) : bool := negb (ac_locked s.1).
(** [async with self._lock] around code that does not await *)
Definition with_lock {A} (m : SM A) : CO A := _ ← acquire unlocked; local m.

(** *** [create_sandbox] *)

(** [cleanup_generated], and the claim *)
Definition acreate_or_adopt (a : create_args) (generated : bool) (name : string)
    (lifecycle : option (list (string * string))) (pod_metadata : option AdditionalPodMetadata)
    : CO (bool * (exn + json)) :=
  try_catch (await (world (helper_create a name lifecycle pod_metadata)))
    (λ e, if bool_decide (e = ApiException 409) then
            if ca_adopt_existing a then
              r ← attempt (await (world (helper_get_claim name (ca_namespace a))));
              mret (false, match r with inr o => inr (default JNull o) | inl e => inl e end)
            else mret (false, inl e)
          else mret (generated, inl e))
    (λ created, mret (generated, inr created)).

(** [resourceVersion] and [uid] of a claim that may be used *)
Definition identity (a : create_args) (generated : bool) (name : string) (created : json)
    : outcome (option string * option string) :=
  _ ← (if generated then Ret () else validate_claim_for_adoption created name (ca_warmpool a));
  match created with
  | JObj _ =>
      m ← py_get created "metadata";
      rv ← py_get (py_or m (JObj [])) "resourceVersion";
      uid ← py_get (py_or m (JObj [])) "uid";
      Ret (as_str rv, as_str uid)
  | _ => Ret (None, None)
  end.

(** The [except] clause *)
Definition aroll_back (cleanup : bool) (key : claim_key) (uid : option string) {A} (e : exn) : CO A :=
  _ ← (if cleanup then logged (shield (delete_call key (str_or uid None))) else mret ()); throw e.

(** A tracked handle of the sandbox that is still good *)
Definition areusable (key : claim_key) (sandbox_id : string) : SM (option nat) :=
  existing ← tracked key;
  match existing with
  | None => mret None
  | Some r => h ← aderef r; mret (if ah_is_active h && (ah_sandbox_id h =? sandbox_id)%string then Some r else None)
  end.

(** After the [try] statement *)
Definition aregister (key : claim_key) (r : nat) : CO nat :=
  previous ← with_lock (enter key r);
  _ ← match previous with Some p => aclose_connection p | None => mret () end;
  mret r.

(** The rest of the body, once the claim is there: a tracked handle, or a new one *)
Definition await_ready (a : create_args) (generated : bool) (name : string) (created : json)
    (rv uid : option string) : CO (nat + nat) :=
  let key := (ca_namespace a, name) in
  id ← await (world (helper_wait_ready name (ca_namespace a) (ca_ready_timeout a) rv
                       (if generated then None else uid) (if generated then None else Some created)));
  existing ← with_lock (areusable key id);
  match existing with
  | Some r => mret (inl r)
  | None => r ← local (construct_handle key id); mret (inr r)
  end.

Definition aprovision (a : create_args) (generated : bool) (name : string)
    (lifecycle : option (list (string * string))) (pod_metadata : option AdditionalPodMetadata) : CO nat :=
  let key := (ca_namespace a, name) in
  cr ← acreate_or_adopt a generated name lifecycle pod_metadata;
  match cr.2 with
  | inl e => aroll_back cr.1 key None e
  | inr created =>
      try_catch (of_outcome (identity a generated name created))
        (aroll_back cr.1 key None)
        (λ ru, try_catch (await_ready a generated name created ru.1 ru.2)
                 (aroll_back cr.1 key ru.2)
                 (λ x, match x with inl r => mret r | inr r => aregister key r end))
  end.

Definition acreate_sandbox (a : create_args) : CO nat :=
  if (ca_warmpool a =? EmptyString)%string then throw ValueError
  else
    _ ← match non_empty (ca_labels a) with Some l => of_outcome (validate_labels l) | None => mret () end;
    pod_metadata ← of_outcome (build_pod_metadata (ca_pod_labels a) (ca_pod_annotations a));
    lifecycle ← match ca_shutdown_after a with
                | Some n => now ← local (world autcnow); l ← of_outcome (construct_sandbox_claim_lifecycle_spec now n);
                            mret (Some l)
                | None => mret None
                end;
    match ca_claim_name a with
    | None =>
        if ca_adopt_existing a then throw ValueError
        else
          hex ← local (world auuid4_hex);
          aprovision a true ("sandbox-claim-" +:+ String.substring 0 8 hex) lifecycle pod_metadata
    | Some name =>
        _ ← of_outcome (validate_claim_name (JStr name));
        _ ← local (set_self (add_explicit (ca_namespace a, name)));
        aprovision a false name lifecycle pod_metadata
    end.

(** *** [get_sandbox] *)

(** The warm pool that a claim refers to is the one expected *)
Definition check_warmpool (claim : option json) (warmpool : string) : outcome () :=
  if negb (truthy (default JNull claim)) then Raise SandboxNotFoundError
  else
    spec ← py_get_def (default JNull claim) "spec" (JObj []);
    ref ← py_get_def spec "warmPoolRef" (JObj []);
    name ← py_get ref "name";
    if is_str name warmpool then Ret () else Raise ValueError.

Definition aresolve (name namespace : string) (resolve_timeout : Z) (warmpool : option string) : CO string :=
  _ ← match warmpool with
      | Some w => o ← await (world (helper_get_claim name namespace)); of_outcome (check_warmpool o w)
      | None => mret ()
      end;
  id ← await (world (helper_resolve name namespace resolve_timeout));
  o ← await (world (helper_get_sandbox id namespace));
  if truthy (default JNull o) then mret id else throw SandboxNotFoundError.

Definition aget_sandbox (name namespace : string) (resolve_timeout : Z) (warmpool : option string) : CO nat :=
  let key := (namespace, name) in
  existing ← with_lock (tracked key);
  try_catch (aresolve name namespace resolve_timeout warmpool)
    (λ e, if bool_decide (e = ValueError ∨ e = CancelledError) then throw e
          else
            _ ← match existing with Some r => aclose_connection r | None => mret () end;
            throw SandboxNotFoundError)
    (λ id,
      active ← match existing with Some r => h ← local (aderef r); mret (ah_is_active h) | None => mret false end;
      match existing with
      | Some r =>
          if active : bool then mret r
          else
            _ ← with_lock (pop key);
            r ← local (construct_handle key id); _ ← with_lock (enter key r); mret r
      | None => r ← local (construct_handle key id); _ ← with_lock (enter key r); mret r
      end).

(** *** Listing, deleting, closing *)

Definition alist_active_sandboxes : CO (list claim_key) :=
  with_lock
    (c ← self;
     _ ← for_each (ac_registry c) (λ p, h ← aderef p.2; if ah_is_active h then mret () else pop p.1);
     c ← self;
     mret (ac_registry c).*1).

Definition alist_all_sandboxes (namespace : string) (label_selector : option string) : CO (list string) :=
  await (world (helper_list namespace label_selector)).

Definition adelete_sandbox (name namespace : string) : CO () :=
  let key := (namespace, name) in
  sandbox ← with_lock (tracked key);
  logged
    match sandbox with
    | Some r => _ ← aterminate r; with_lock (pop key)
    | None => await (delete_call key None)
    end.

Definition registry_items : SM (list (claim_key * nat)) := gets (λ s : St, ac_registry s.1).

Definition adelete_all : CO () :=
  items ← with_lock registry_items; each items (λ p, logged (adelete_sandbox p.1.2 p.1.1)).

Definition adelete_automatic_sandboxes : CO () :=
  items ← with_lock registry_items;
  each items (λ p,
    e ← local (gets (λ s : St, ac_explicit s.1));
    if bool_decide (p.1 ∈ e) then mret () else adelete_sandbox p.1.2 p.1.1).

(** A connection that fails to close stays tracked. *)
Definition close_tracked (p : claim_key * nat) : CO () :=
  try_catch (aclose_connection p.2)
    (λ e, if bool_decide (e = CancelledError) then throw e else mret ())
    (λ _, local (pop p.1)).

(** The lock is held while the connections are closed. *)
Definition aclose : CO () :=
  _ ← acquire unlocked;
  _ ← local (set_self (set_locked true));
  items ← local registry_items;
  r ← attempt (each items close_tracked);
  _ ← local (set_self (set_locked false));
  match r with inl e => throw e | inr _ => await (world helper_close) end.

(** [__aexit__] *)
Definition aexit : CO () :=
  r ← attempt adelete_automatic_sandboxes;
  _ ← aclose;
  match r with inl e => throw e | inr _ => mret () end.

(** [_atexit_cleanup]: synchronous, for the interpreter's exit *)
Definition swallow (m : SM ()) : SM () := except (λ _, Some (mret ())) m.
Definition atexit_close (p : claim_key * nat) : SM () :=
  swallow (_ ← world (connector_exit p.2); update_handle p.2 ah_set_closed).
Definition atexit_delete (p : claim_key * nat) : SM () :=
  e ← gets (λ s : St, ac_explicit s.1);
  if bool_decide (p.1 ∈ e) then mret ()
  else swallow (_ ← adone (Deleting p.1); world (sync_delete p.1.2 p.1.1)).
Definition atexit_cleanup : SM () :=
  items ← registry_items;
  match items with
  | [] => mret ()
  | _ =>
      swallow
        (_ ← for_each items atexit_close;
         _ ← world sync_helper;
         for_each items atexit_delete)
  end.
End client.

(** ** What every operation keeps *)

(** Tracked handles belong to their keys. Claims in [E] stay explicit, and are not
    deleted after [base] was done. The lock is free when nothing holds it across an await. *)
Record good (E : gset claim_key) (base : list deed) (quiet : bool) (c : aclient) : Prop := {
  good_keys : NoDup (ac_registry c).*1;
  good_registry : ∀ key r, (key, r) ∈ ac_registry c →
    (∃ h, ac_heap c !! r = Some h ∧ ah_key h = key) ∧ Registered key r ∈ ac_deeds c;
  good_claims : ∀ r h, ac_heap c !! r = Some h → ah_claim h = Some (ah_key h).2 ∨ ah_claim h = None;
  good_explicit : E ⊆ ac_explicit c;
  good_base : base `prefix_of` ac_deeds c;
  good_spared : ∀ key, Deleting key ∈ drop (length base) (ac_deeds c) → key ∉ E;
  good_lock : quiet = true → ac_locked c = false;
}.

(** Handles keep their keys; explicit claims and deeds accumulate. *)
Record later (c c' : aclient) : Prop := {
  later_heap : ∀ r h, ac_heap c !! r = Some h → ∃ h', ac_heap c' !! r = Some h' ∧ ah_key h' = ah_key h;
  later_explicit : ac_explicit c ⊆ ac_explicit c';
  later_deeds : ac_deeds c `prefix_of` ac_deeds c';
}.

#[global] Instance later_preorder : PreOrder later.
Proof.
  split.
  - intros c. split; [eauto|done|done].
  - intros c1 c2 c3 [H1 H2 H3] [H4 H5 H6]. split; [|set_solver|by etrans].
    intros r h Hh. destruct (H1 r h Hh) as (h' & Hh' & <-). by apply H4.
Qed.

Section safety.
Context {W : Type} {AH : AsyncHelper W} {AC : AsyncConnectors W} {AI : AsyncInputs W}.
Context (construct : outcome ()) (E : gset claim_key) (base : list deed) (quiet : bool).

Abbreviation St := (aclient * W)%type.
Definition inv (s : St) : Prop := good E base quiet s.1.
Definition rely (s s' : St) : Prop := later s.1 s'.1.
#[local] Instance rely_preorder : PreOrder rely.
Proof. split; [by intros s|]. intros s1 s2 s3. apply transitivity. Qed.

Abbreviation al := (always inv rely).
Abbreviation kept := (keeps_to inv rely).
Abbreviation any := (λ _ _, True).

(** The handle was made for the claim. *)
Definition knows (r : nat) (key : claim_key) (s : St) : Prop := ∃ h, ac_heap s.1 !! r = Some h ∧ ah_key h = key.

Lemma known_later r key s s' : rely s s' → knows r key s → knows r key s'.
Proof. intros [Hh _ _] (h & Hr & <-). destruct (Hh r h Hr) as (h' & ? & ?). by exists h'. Qed.

Lemma kept_same {X} (m : M St X) s : inv s → (m s).2.1 = s.1 → kept m s.
Proof. intros Hs Hm. unfold keeps_to, inv, rely. rewrite Hm. by split. Qed.

Lemma kept_world {X} (m : M W X) s : inv s → kept (world m) s.
Proof. intros Hs. apply kept_same; [done|]. unfold world. by destruct (m s.2). Qed.

Lemma kept_bind {X Y} (m : M St X) (k : X → M St Y) s :
  kept m s → (∀ x s', m s = (Ret x, s') → inv s' → rely s s' → kept (k x) s') → kept (m ≫= k) s.
Proof.
  intros [H1 H2] Hk. unfold keeps_to, mbind, M_bind in *. destruct (m s) as [[x|e|] s'] eqn:Em; [|done|done].
  destruct (Hk x s' eq_refl H1 H2) as [H3 H4]. split; [done|]. by etrans.
Qed.

Lemma kept_set f s : good E base quiet (f s.1) → later s.1 (f s.1) → kept (set_self f) s.
Proof. by split. Qed.

Lemma good_pop key c : good E base quiet c → good E base quiet (set_registry (rdel key (ac_registry c)) c).
Proof.
  intros [H1 H2 H3 H4 H5 H6 H7]. split; cbn; try done; [by apply rdel_NoDup|].
  intros key' r Hin. apply elem_of_rdel in Hin as [Hin _]. by apply H2.
Qed.

Lemma kept_pop key s : inv s → kept (pop key) s.
Proof. intros Hs. apply kept_set; [by apply good_pop|by split; eauto]. Qed.

(** Changes of a handle that leave its key, and its claim or none *)
Lemma kept_update r f s :
  inv s → (∀ h, ah_key (f h) = ah_key h ∧ (ah_claim (f h) = ah_claim h ∨ ah_claim (f h) = None)) →
  kept (update_handle r f) s.
Proof.
  intros [H1 H2 H3 H4 H5 H6 H7] Hf.
  assert (∀ i h, ac_heap s.1 !! i = Some h → ∃ h', alter f r (ac_heap s.1) !! i = Some h' ∧ ah_key h' = ah_key h) as Hk.
  { intros i h Hi. destruct (decide (r = i)) as [<-|Hne].
    - rewrite list_lookup_alter_eq, Hi. cbn. eexists. split; [done|]. apply Hf.
    - rewrite list_lookup_alter_ne by done. eauto. }
  apply kept_set; split; cbn; try done.
  - intros key i Hin. destruct (H2 key i Hin) as ((h & Hh & <-) & Hd). split; [|done]. by apply Hk.
  - intros i h. destruct (decide (r = i)) as [<-|Hne].
    + rewrite list_lookup_alter_eq. destruct (ac_heap s.1 !! r) as [h0|] eqn:E0; [|done]. intros [= <-].
      destruct (Hf h0) as [-> [-> | ->]]; [exact (H3 r h0 E0)|by right].
    + rewrite list_lookup_alter_ne by done. apply H3.
Qed.

Lemma kept_did d s : inv s → (∀ key, d = Deleting key → key ∉ E) → kept (adone d) s.
Proof.
  intros [H1 H2 H3 H4 H5 H6 H7] Hd. apply kept_set; split; cbn; try done; [|by apply prefix_app_r| |eauto|by apply prefix_app_r].
  - intros key r Hin. destruct (H2 key r Hin). split; [done|set_solver].
  - intros key. rewrite drop_app_le by (by apply prefix_length).
    intros [Hin|Hin%list_elem_of_singleton]%elem_of_app; [by apply H6|by apply Hd].
Qed.

Lemma kept_delete key uid s : inv s → key ∉ E → kept (delete_call key uid) s.
Proof.
  intros Hs Hk. apply kept_bind; [apply kept_did; [done|by intros ? [= <-]]|]. intros. by apply kept_world.
Qed.

Lemma tracked_knows key s r : inv s → rget key (ac_registry s.1) = Some r → knows r key s ∧ Registered key r ∈ ac_deeds s.1.
Proof. intros [H1 H2 H3 H4 H5 H6 H7] Hr. apply H2. by apply rget_elem_of. Qed.

Lemma kept_construct key id s : inv s → kept (construct_handle construct key id) s.
Proof.
  intros Hs. unfold construct_handle. apply kept_bind; [by apply kept_same|]. intros [] s1 _ Hs1 _.
  apply kept_bind; [by apply kept_same|]. intros c s2 _ Hs2 _. apply kept_bind; [|intros; by apply kept_same].
  destruct Hs2 as [H1 H2 H3 H4 H5 H6 H7].
  assert (∀ r h, ac_heap s2.1 !! r = Some h → (ac_heap s2.1 ++ [AHandle key (Some key.2) id false true true]) !! r = Some h)
    as Hk by (intros; by apply lookup_app_l_Some).
  apply kept_set; split; cbn; try done; [| |eauto].
  - intros key' r Hin. destruct (H2 key' r Hin) as ((h & Hh & Hkey) & Hd). split; [|done]. eauto.
  - intros r h [Hr|[_ Hr]]%lookup_app_Some; [by eapply H3|].
    apply list_lookup_singleton_Some in Hr as [_ <-]. by left.
Qed.

Lemma construct_knows key id s r s' : construct_handle construct key id s = (Ret r, s') → knows r key s'.
Proof.
  unfold construct_handle. intros E0. run_inv. injection Hrun1 as <- <-. eexists. cbn.
  split; [by apply list_lookup_middle|done].
Qed.

Lemma kept_enter key r s : inv s → knows r key s → kept (enter key r) s.
Proof.
  intros Hs Hr. unfold enter. apply kept_bind; [by apply kept_same|]. intros previous s1 [= <- <-] _ _.
  apply kept_bind; [by apply kept_did|]. intros [] s1 E1 Hs1 Hr1. apply kept_bind; [|intros; by apply kept_same].
  assert (Registered key r ∈ ac_deeds s1.1) as Hd by (injection E1 as <-; cbn; set_solver).
  apply (known_later _ _ _ _ Hr1) in Hr. destruct Hs1 as [H1 H2 H3 H4 H5 H6 H7].
  apply kept_set; split; cbn; try done; [by apply rset_NoDup| |eauto].
  intros key' r' [[= -> ->]|[Hin _]]%elem_of_rset; [by split|by apply H2|done].
Qed.

Lemma enter_registered key r (s : St) : (enter key r s).1 = Ret (rget key (ac_registry s.1)) ∧ Registered key r ∈ ac_deeds (enter key r s).2.1.
Proof. cbn. set_solver. Qed.

Lemma kept_deref r s : inv s → kept (aderef r) s.
Proof. intros Hs. apply kept_same; [done|]. unfold aderef. by destruct (ac_heap s.1 !! r). Qed.

Lemma deref_known r key s : knows r key s → ∃ h, aderef r s = (Ret h, s) ∧ ah_key h = key ∧ ac_heap s.1 !! r = Some h.
Proof. intros (h & Hr & Hk). exists h. unfold aderef. by rewrite Hr. Qed.

Lemma deref_inv r (s : St) h s' : aderef r s = (Ret h, s') → s' = s ∧ ac_heap s.1 !! r = Some h.
Proof. unfold aderef. destruct (ac_heap s.1 !! r); by intros [= <- <-]. Qed.

Lemma kept_untrack r s : inv s → kept (auntrack r) s.
Proof.
  intros Hs. unfold auntrack. apply kept_bind; [by apply kept_deref|]. intros h s1 _ Hs1 _.
  destruct (ah_claim h); [|by apply kept_same]. apply kept_bind; [by apply kept_same|]. intros cur s2 _ Hs2 _.
  case_bool_decide; [by apply kept_pop|by apply kept_same].
Qed.

(** *** Handles *)

Lemma al_local {X} (m : M St X) s0 : (∀ s, rely s0 s → inv s → kept m s) → al any (local m) s0.
Proof. intros Hm. apply co_local. auto. Qed.
Lemma al_await {X} (m : M St X) s0 : (∀ s, rely s0 s → inv s → kept m s) → al any (await m) s0.
Proof. intros Hm. apply co_await. auto 10. Qed.
Lemma al_bind {X Y} (c : coro St X) (k : X → coro St Y) s :
  inv s → al any c s → (∀ x s', rely s s' → inv s' → al any (k x) s') → al any (c ≫= k) s.
Proof. intros Hs Hc Hk. eapply (co_bind inv rely); [done|exact Hc| |done|done]. auto. Qed.
Lemma al_try {X Y} (c : coro St X) h (k : X → coro St Y) s :
  inv s → al any c s → (∀ x s', rely s s' → inv s' → al any (k x) s') →
  (∀ e s', rely s s' → inv s' → al any (h e) s') → al any (try_catch c h k) s.
Proof. intros Hs Hc Hk Hh. eapply (co_try inv rely); [done|exact Hc| | |done]; auto. Qed.
Lemma al_logged c s : inv s → al any c s → al any (logged c) s.
Proof. intros Hs Hc. apply al_try; [done|done|done|]. intros e s' _ _. by case_bool_decide. Qed.

Lemma al_close_connection r s : inv s → al any (aclose_connection r) s.
Proof.
  intros Hs. apply al_bind; [done|apply al_local; intros; by apply kept_deref|]. intros h s1 _ Hs1.
  destruct (ah_closed h); [done|]. apply al_bind; [done|apply al_await; intros; by apply kept_world|].
  intros [] s2 _ Hs2. apply al_local. intros. apply kept_update; [done|]. intros h'. by split; [|left].
Qed.

Lemma kept_terminated r s : inv s →
  kept (h ← aderef r; _ ← (if ah_hook h then _ ← auntrack r; update_handle r ah_drop_hook else mret ());
        update_handle r ah_clear_claim) s.
Proof.
  intros Hs. apply kept_bind; [by apply kept_deref|]. intros h s1 _ Hs1 _. apply kept_bind.
  - destruct (ah_hook h); [|by apply kept_same]. apply kept_bind; [by apply kept_untrack|]. intros [] s2 _ Hs2 _.
    apply kept_update; [done|]. intros h'. by split; [|left].
  - intros [] s2 _ Hs2 _. apply kept_update; [done|]. intros h'. by split; [|right].
Qed.

(** Terminating a handle deletes its own claim. *)
Lemma al_terminate r s :
  inv s → (∀ key s', rely s s' → knows r key s' → key ∉ E) → al any (aterminate r) s.
Proof.
  intros Hs HE. apply al_bind; [done|by apply al_close_connection|]. intros [] s1 HR1 Hs1.
  eapply (co_bind inv rely (λ o s, ∀ h, o = Ret h → (ah_key h ∉ E) ∧ (ah_claim h = Some (ah_key h).2 ∨ ah_claim h = None)));
    [done| | |done|done].
  { apply co_local. intros s2 HR2 Hs2. split; [by apply kept_deref|]. intros h Hh.
    destruct (deref_inv r s2 h (aderef r s2).2) as [_ Hr]; [by rewrite <-Hh, <-surjective_pairing|].
    split; [|by eapply good_claims]. apply (HE _ s2); [by etrans|by eexists]. }
  intros h s2 HR2 Hs2 Hh. destruct (Hh h eq_refl) as [Hkey Hc].
  destruct (str_or (ah_claim h) None) as [name|] eqn:En; [|done].
  assert (((ah_key h).1, name) = ah_key h) as ->.
  { destruct Hc as [Hc|Hc]; rewrite Hc in En; unfold str_or in En; [|done].
    destruct (truthy_str_opt _); [|done]. injection En as <-. by destruct (ah_key h). }
  apply al_bind; [done|apply al_await; intros; by apply kept_delete|]. intros [] s3 HR3 Hs3.
  apply al_local. intros. by apply kept_terminated.
Qed.

Lemma knows_only r key key' s s' : knows r key s → rely s s' → knows r key' s' → key' = key.
Proof. intros Hk HR (h & Hh & <-). destruct (known_later _ _ _ _ HR Hk) as (h' & Hh' & <-). by simplify_eq. Qed.

(** *** The client *)

(** Only a lock that is held across an await can be waited for. *)
Lemma co_with_lock {X} (Q : outcome X → St → Prop) (m : M St X) s0 :
  (∀ s, rely s0 s → inv s → kept m s ∧ Q (m s).1 (m s).2) →
  (quiet = false → ∀ s, rely s0 s → inv s → Q (Raise CancelledError) s) → al Q (with_lock m) s0.
Proof.
  intros Hm Hc. apply always_bind, co_acquire. intros s HR Hs. destruct (unlocked s) eqn:Hl.
  - apply co_local. intros s1 HR1 Hs1. apply Hm; [by etrans|done].
  - intros s1 HR1 Hs1. apply Hc; [|by etrans|done]. unfold unlocked in Hl. apply negb_false_iff in Hl.
    destruct quiet eqn:Hq; [|done]. by rewrite (good_lock _ _ _ _ Hs Hq) in Hl.
Qed.
Lemma al_with_lock {X} (m : M St X) s0 : (∀ s, rely s0 s → inv s → kept m s) → al any (with_lock m) s0.
Proof. intros Hm. apply co_with_lock; auto. Qed.

(** The deed is done. *)
Definition has_done (d : deed) (s : St) : Prop := d ∈ ac_deeds s.1.
Lemma done_later d s s' : rely s s' → has_done d s → has_done d s'.
Proof. intros [_ _ Hd] Hin. by eapply elem_of_prefix. Qed.

(** It was done after [base]. *)
Definition has_new (d : deed) (s : St) : Prop := d ∈ drop (length base) (ac_deeds s.1).
Lemma new_later d s s' : rely s s' → has_new d s → has_new d s'.
Proof. intros [_ _ [k Hk]] Hd. unfold has_new in *. rewrite Hk, drop_app. set_solver. Qed.

Lemma delete_did key uid (s : St) : inv s → has_new (Deleting key) (delete_call key uid s).2.
Proof.
  intros [_ _ _ _ Hb%prefix_length _ _]. unfold has_new, delete_call, mbind, M_bind, adone, set_self, world. cbn.
  destruct (helper_delete key.2 key.1 uid s.2) as [[]]; cbn; rewrite drop_app_le by done; set_solver.
Qed.

Lemma al_roll_back {A} cleanup key uid e s :
  inv s → (cleanup = true → key ∉ E) →
  al (λ (o : outcome A) s', match o with
        | Ret _ => False
        | Raise e' => if cleanup : bool then has_new (Deleting key) s' else e' = e
        | NoFuel => True
        end) (aroll_back cleanup key uid e) s.
Proof.
  intros Hs HE. unfold aroll_back. destruct cleanup; [|done].
  eapply (co_bind inv rely (λ o s', o ≠ NoFuel → has_new (Deleting key) s')); [done| | | |done].
  2: { intros [] s' HR Hs' Hd. by apply Hd. }
  2: { intros e' s' HR Hs' Hd. by apply Hd. }
  eapply (co_try inv rely (λ o s', has_new (Deleting key) s')); [done| | | |].
  - apply co_shield. intros s1 HR1 Hs1. split; [by apply kept_delete, HE|]. by split; apply delete_did.
  - by intros [] s' _ _ Hd _.
  - intros e' s' _ _ Hd. by case_bool_decide; intros ?.
  - done.
Qed.

(** The claim is created by this call, or the name is taken. *)
Lemma al_create_or_adopt a generated name lifecycle pm s :
  inv s →
  al (λ o s', match o with
        | Ret (cleanup, r) => cleanup = generated
            ∨ cleanup = false ∧ (ca_adopt_existing a = true ∨ r = inl (ApiException 409))
        | Raise _ => False
        | NoFuel => True
        end) (acreate_or_adopt a generated name lifecycle pm) s.
Proof.
  intros Hs. eapply (co_try inv rely any); [done|apply al_await; intros; by apply kept_world|by left| |done].
  intros e s1 HR Hs1 _. case_bool_decide as He; [|by left].
  destruct (ca_adopt_existing a) eqn:Ha; [|by subst; right; auto].
  eapply (co_bind inv rely (λ o _, ∀ e, o ≠ Raise e)); [done| | | |done].
  - apply always_attempt. eapply always_weaken; [apply al_await; intros; by apply kept_world|]. by intros [].
  - intros r s2 _ _ _. right. auto.
  - intros e2 s2 _ _ Hne. by eapply Hne.
Qed.
Lemma kept_tracked key s : inv s → kept (tracked key) s.
Proof. intros Hs. by apply kept_same. Qed.

Lemma kept_reusable key id s : inv s → kept (areusable key id) s.
Proof.
  intros Hs. apply kept_bind; [by apply kept_tracked|]. intros [r|] s1 _ Hs1 _; [|by apply kept_same].
  apply kept_bind; [by apply kept_deref|]. intros. by apply kept_same.
Qed.

Lemma reusable_registered key id s r s' :
  inv s → areusable key id s = (Ret (Some r), s') → has_done (Registered key r) s'.
Proof.
  intros Hs E0. unfold areusable in E0. run_inv. injection Hrun as <- <-.
  destruct (rget key (ac_registry s.1)) as [r'|] eqn:Er; [|by run_inv].
  destruct (tracked_knows key s r' Hs Er) as [_ Hd]. run_inv. apply deref_inv in Hrun as [-> _].
  destruct (ah_is_active _ && _); [|done]. by injection E0 as <- <-.
Qed.

(** A tracked handle, or a new one that is not tracked yet *)
Lemma al_await_ready a generated name created rv uid s :
  inv s →
  al (λ o s', match o with
        | Ret (inl r) => has_done (Registered (ca_namespace a, name) r) s'
        | Ret (inr r) => knows r (ca_namespace a, name) s'
        | _ => True
        end) (await_ready construct a generated name created rv uid) s.
Proof.
  intros Hs. eapply (co_bind inv rely any); [done|apply al_await; intros; by apply kept_world| |done|done].
  intros id s1 _ Hs1 _.
  eapply (co_bind inv rely (λ o s', ∀ r, o = Ret (Some r) → has_done (Registered (ca_namespace a, name) r) s'));
    [done| | |done|done].
  { apply co_with_lock; [|done]. intros s2 _ Hs2. split; [by apply kept_reusable|]. intros r Hr.
    eapply (reusable_registered _ id s2); [done|]. by rewrite <-Hr, <-surjective_pairing. }
  intros [r|] s2 _ Hs2 Hd; [by apply Hd|].
  eapply (co_bind inv rely (λ o s', ∀ r, o = Ret r → knows r (ca_namespace a, name) s')); [done| |by intros r s3 _ _ Hr; apply Hr|done|done].
  apply co_local. intros s3 _ Hs3. split; [by apply kept_construct|]. intros r Hr.
  eapply (construct_knows _ id s3). by rewrite <-Hr, <-surjective_pairing.
Qed.

Lemma al_register key r s :
  inv s → knows r key s →
  al (λ o s', match o with Ret r' => r' = r | _ => True end ∧ (quiet = true → has_done (Registered key r) s'))
    (aregister key r) s.
Proof.
  intros Hs Hk.
  eapply (co_bind inv rely (λ o s', quiet = true → has_done (Registered key r) s')); [done| | |done|done].
  - apply co_with_lock; [|by intros ->]. intros s1 HR1 Hs1.
    split; [apply kept_enter; [done|by eapply known_later]|]. intros _. apply enter_registered.
  - intros previous s1 _ Hs1 Hd. eapply (co_bind inv rely any); [done| | | |].
    + destruct previous; [by apply al_close_connection|done].
    + intros [] s2 HR2 _ _. split; [done|]. intros Hq. eapply done_later; [done|]. by apply Hd.
    + intros e s2 HR2 _ _. split; [done|]. intros Hq. eapply done_later; [done|]. by apply Hd.
    + intros s2 HR2 _ _. split; [done|]. intros Hq. eapply done_later; [done|]. by apply Hd.
Qed.
(** The claim of a creation that failed was deleted, or is tracked. *)
Definition not_orphaned (key : claim_key) (o : outcome nat) (s : St) : Prop :=
  match o with
  | Ret r => has_done (Registered key r) s
  | Raise e => e ≠ ApiException 409 → has_new (Deleting key) s ∨ ∃ r, has_done (Registered key r) s
  | NoFuel => True
  end.

Lemma al_provision a generated name lifecycle pm s :
  inv s → (generated = true → (ca_namespace a, name) ∉ E) →
  al (λ o s', quiet = true → generated = true → ca_adopt_existing a = false → not_orphaned (ca_namespace a, name) o s')
    (aprovision construct a generated name lifecycle pm) s.
Proof.
  intros Hs HE. set (key := (ca_namespace a, name)).
  eapply (co_bind inv rely); [done|by apply al_create_or_adopt| |done|done].
  intros [cleanup r] s1 _ Hs1 Hcr. cbn [fst snd].
  assert (cleanup = true → key ∉ E) as Hcl by (intros ->; apply HE; by destruct Hcr as [<-|[? _]]).
  assert (∀ uid e s2, inv s2 → (cleanup = false → generated = true → ca_adopt_existing a = false → e = ApiException 409) →
    al (λ o s', quiet = true → generated = true → ca_adopt_existing a = false → not_orphaned key o s')
      (aroll_back cleanup key uid e) s2) as Hrb.
  { intros uid e s2 Hs2 He. eapply always_weaken; [by apply al_roll_back|]. intros [x|e'|] s' Ho Hq Hg Ha; [done| |done].
    destruct cleanup; [by left|]. subst e'. intros []. by apply He. }
  destruct r as [e|created].
  { apply Hrb; [done|]. intros -> -> Ha. destruct Hcr as [|[_ [Hc|[= ->]]]]; [done|by rewrite Ha in Hc|done]. }
  assert (∀ e, cleanup = false → generated = true → ca_adopt_existing a = false → e = ApiException 409) as Hno.
  { intros e -> -> Ha. destruct Hcr as [|[_ [Hc|]]]; [done|by rewrite Ha in Hc|done]. }
  eapply (co_try inv rely any); [done|by destruct (identity _ _ _ _)| |by auto|done].
  intros [rv uid] s2 _ Hs2 _. eapply (co_try inv rely); [done|by apply al_await_ready| |by auto|done].
  intros [r|r] s3 _ Hs3 Hr; [by intros _ _ _|]. eapply always_weaken; [by apply al_register|].
  intros [r'|e|] s4 [Hr' Hd] Hq _ _; cbn; [subst; by apply Hd|right; exists r; by apply Hd|done].
Qed.

Lemma al_create a s :
  inv s → (ca_claim_name a = None → ∀ hex, (ca_namespace a, "sandbox-claim-" +:+ hex) ∉ E) → al any (acreate_sandbox construct a) s.
Proof.
  intros Hs HE. unfold acreate_sandbox. destruct (ca_warmpool a =? EmptyString)%string; [done|].
  assert (∀ X (o : outcome X) s1, al any (of_outcome o) s1) as Ho by by intros X [] s1.
  apply al_bind; [done|destruct (non_empty (ca_labels a)); [apply Ho|done]|]. intros [] s1 _ Hs1.
  apply al_bind; [done|apply Ho|]. intros pm s2 _ Hs2. apply al_bind; [done| |].
  { destruct (ca_shutdown_after a); [|done]. apply al_bind; [done|apply al_local; intros; by apply kept_world|].
    intros now s3 _ Hs3. apply al_bind; [done|apply Ho|done]. }
  intros lifecycle s3 _ Hs3. destruct (ca_claim_name a) as [name|] eqn:Hname.
  - apply al_bind; [done|apply Ho|]. intros [] s4 _ Hs4. apply al_bind; [done| |].
    { apply al_local. intros s5 _ [H1 H2 H3 H4 H5 H6 H7]. apply kept_set; split; cbn; try done; [set_solver|eauto|set_solver]. }
    intros [] s5 _ Hs5. eapply always_weaken; [by apply al_provision|done].
  - destruct (ca_adopt_existing a); [done|]. apply al_bind; [done|apply al_local; intros; by apply kept_world|].
    intros hex s4 _ Hs4. eapply always_weaken; [apply al_provision; [done|]|done]. intros _. by apply HE.
Qed.

Lemma al_enter_new key id s : inv s →
  al any (r ← local (construct_handle construct key id); _ ← with_lock (enter key r); mret r) s.
Proof.
  intros Hs. eapply (co_bind inv rely (λ o s', ∀ r, o = Ret r → knows r key s')); [done| | |done|done].
  - apply co_local. intros s3 _ Hs3. split; [by apply kept_construct|]. intros r Hr.
    eapply (construct_knows _ id s3). by rewrite <-Hr, <-surjective_pairing.
  - intros r s1 _ Hs1 Hk. apply al_bind; [done| |done]. apply al_with_lock. intros s2 HR2 Hs2.
    apply kept_enter; [done|]. eapply known_later; [done|]. by apply Hk.
Qed.

Lemma al_get name namespace timeout warmpool s : inv s → al any (aget_sandbox construct name namespace timeout warmpool) s.
Proof.
  intros Hs. apply al_bind; [done|apply al_with_lock; intros; by apply kept_tracked|]. intros existing s1 _ Hs1.
  apply al_try; [done| | |].
  - apply al_bind; [done| |].
    { destruct warmpool; [|done]. apply al_bind; [done|apply al_await; intros; by apply kept_world|].
      intros o s2 _ Hs2. by destruct (check_warmpool _ _). }
    intros [] s2 _ Hs2. apply al_bind; [done|apply al_await; intros; by apply kept_world|]. intros id s3 _ Hs3.
    apply al_bind; [done|apply al_await; intros; by apply kept_world|]. intros o s4 _ _. by destruct (truthy _).
  - intros id s2 _ Hs2. apply al_bind; [done| |].
    { destruct existing; [|done]. apply al_bind; [done|apply al_local; intros; by apply kept_deref|done]. }
    intros active s3 _ Hs3. destruct existing as [r|]; [|by apply al_enter_new]. destruct active; [done|].
    apply al_bind; [done|apply al_with_lock; intros; by apply kept_pop|]. intros [] s4 _ Hs4. by apply al_enter_new.
  - intros e s2 _ Hs2. case_bool_decide; [done|]. apply al_bind; [done| |done].
    destruct existing; [by apply al_close_connection|done].
Qed.

Lemma kept_for_each {X} (l : list X) (f : X → M St ()) s :
  inv s → (∀ x s', inv s' → kept (f x) s') → kept (for_each l f) s.
Proof.
  intros Hs Hf. revert s Hs. induction l as [|x l IH]; intros s Hs; cbn [for_each]; [by apply kept_same|].
  apply kept_bind; [by apply Hf|]. intros. by apply IH.
Qed.

Lemma al_list_active s : inv s → al any alist_active_sandboxes s.
Proof.
  intros Hs. apply al_with_lock. intros s1 _ Hs1. apply kept_bind; [by apply kept_same|]. intros c s2 _ Hs2 _.
  apply kept_bind; [|intros; apply kept_bind; [by apply kept_same|intros; by apply kept_same]].
  apply kept_for_each; [done|]. intros p s3 Hs3. apply kept_bind; [by apply kept_deref|].
  intros h s4 _ Hs4 _. destruct (ah_is_active h); [by apply kept_same|by apply kept_pop].
Qed.

Lemma al_list_all namespace selector s : inv s → al any (alist_all_sandboxes namespace selector) s.
Proof. intros Hs. apply al_await. intros. by apply kept_world. Qed.

(** The claim that is named is the one that is deleted. *)
Lemma al_delete name namespace s : inv s → (namespace, name) ∉ E → al any (adelete_sandbox name namespace) s.
Proof.
  intros Hs HE.
  eapply (co_bind inv rely (λ o s', ∀ r, o = Ret (Some r) → knows r (namespace, name) s')); [done| | |done|done].
  - apply co_with_lock; [|done]. intros s1 _ Hs1. split; [by apply kept_tracked|]. cbn. intros r [= Hr].
    by eapply tracked_knows.
  - intros o s1 _ Hs1 Ho. apply al_logged; [done|]. destruct o as [r|].
    + apply al_bind; [done|apply al_terminate; [done|]|].
      { intros key s2 HR Hk. by rewrite (knows_only r (namespace, name) key s1 s2 (Ho r eq_refl) HR Hk). }
      intros [] s2 _ Hs2.
      apply al_with_lock. intros. by apply kept_pop.
    + apply al_await. intros. by apply kept_delete.
Qed.

Lemma al_items : ∀ s, inv s → al any (with_lock registry_items) s.
Proof. intros s Hs. apply al_with_lock. intros. by apply kept_same. Qed.

Lemma al_delete_all s : inv s → E = ∅ → al any adelete_all s.
Proof.
  intros Hs HE. apply al_bind; [done|by apply al_items|]. intros items s1 _ Hs1.
  apply (co_each inv rely); [done|]. intros p s2 _ _ Hs2. apply al_logged; [done|]. apply al_delete; [done|set_solver].
Qed.

(** Explicit claims are passed over. *)
Lemma al_delete_automatic s : inv s → al any adelete_automatic_sandboxes s.
Proof.
  intros Hs. apply al_bind; [done|by apply al_items|]. intros items s1 _ Hs1.
  apply (co_each inv rely); [done|]. intros p s2 _ _ Hs2.
  eapply (co_bind inv rely (λ o _, ∀ e, o = Ret e → E ⊆ e)); [done| | |done|done].
  - apply co_local. intros s3 _ Hs3. split; [by apply kept_same|]. cbn. intros e [= <-]. by apply Hs3.
  - intros e s3 _ Hs3 He. specialize (He e eq_refl). case_bool_decide; [done|].
    apply al_delete; [done|]. destruct p as [[]]. set_solver.
Qed.

Lemma kept_set_locked b s : quiet = false → inv s → kept (set_self (set_locked b)) s.
Proof. intros Hq [H1 H2 H3 H4 H5 H6 H7]. apply kept_set; split; cbn; try done; [by rewrite Hq|eauto]. Qed.

Lemma al_close s : quiet = false → inv s → al any aclose s.
Proof.
  intros Hq Hs. apply al_bind; [done|by apply co_acquire; intros s1; destruct (unlocked s1)|]. intros [] s1 _ Hs1.
  apply al_bind; [done|apply al_local; intros; by apply kept_set_locked|]. intros [] s2 _ Hs2.
  apply al_bind; [done|apply al_local; intros; by apply kept_same|]. intros items s3 _ Hs3.
  apply al_bind; [done| |].
  { apply always_attempt. eapply always_weaken; [apply (co_each inv rely items close_tracked)|by intros []]; [done|].
    intros p s4 _ _ Hs4. apply al_try; [done|by apply al_close_connection| |].
    - intros [] s5 _ Hs5. apply al_local. intros. by apply kept_pop.
    - intros e s5 _ _. by case_bool_decide. }
  intros r s4 _ Hs4. apply al_bind; [done|apply al_local; intros; by apply kept_set_locked|]. intros [] s5 _ Hs5.
  destruct r; [done|]. apply al_await. intros. by apply kept_world.
Qed.

Lemma al_exit s : quiet = false → inv s → al any aexit s.
Proof.
  intros Hq Hs. apply al_bind; [done| |].
  { apply always_attempt. eapply always_weaken; [by apply al_delete_automatic|by intros []]. }
  intros r s1 _ Hs1. apply al_bind; [done|by apply al_close|]. intros [] s2 _ Hs2. by destruct r.
Qed.
End safety.

(** ** Any number of operations at once *)

Inductive aop :=
  | OpCreate (a : create_args)
  | OpGet (name namespace : string) (resolve_timeout : Z) (warmpool : option string)
  | OpListActive
  | OpListAll (namespace : string) (label_selector : option string)
  | OpDelete (name namespace : string)
  | OpDeleteAll
  | OpTerminate (r : nat)
  | OpCloseConnection (r : nat)
  | OpClose
  | OpExit.

Section pool.
Context {W : Type} {AH : AsyncHelper W} {AC : AsyncConnectors W} {AI : AsyncInputs W}.
Context (construct : outcome ()).

Abbreviation St := (aclient * W)%type.

(** The handle that an operation returns, if it is one that does *)
Definition run_op (op : aop) : coro St (option nat) :=
  match op with
  | OpCreate a => r ← acreate_sandbox construct a; mret (Some r)
  | OpGet name namespace timeout warmpool => r ← aget_sandbox construct name namespace timeout warmpool; mret (Some r)
  | OpListActive => _ ← alist_active_sandboxes; mret None
  | OpListAll namespace selector => _ ← alist_all_sandboxes namespace selector; mret None
  | OpDelete name namespace => _ ← adelete_sandbox name namespace; mret None
  | OpDeleteAll => _ ← adelete_all; mret None
  | OpTerminate r => _ ← aterminate r; mret None
  | OpCloseConnection r => _ ← aclose_connection r; mret None
  | OpClose => _ ← aclose; mret None
  | OpExit => _ ← aexit; mret None
  end.

Definition pool (ops : list aop) : list (task St (option nat)) := (λ op, Ready (run_op op)) <$> ops.

(** The operation is not asked to delete a claim of [E], by its name, by its handle or
    with all the others, and does not give the name of one to a claim of its own. *)
Definition spares (E : gset claim_key) (c : aclient) (op : aop) : Prop :=
  match op with
  | OpCreate a => ca_claim_name a = None → ∀ hex, (ca_namespace a, "sandbox-claim-" +:+ hex) ∉ E
  | OpDelete name namespace => (namespace, name) ∉ E
  | OpDeleteAll => E = ∅
  | OpTerminate r => E = ∅ ∨ ∃ h, ac_heap c !! r = Some h ∧ (ah_key h ∉ E)
  | _ => True
  end.

(** It does not hold the lock across an await. *)
Definition lock_free (op : aop) : Prop := match op with OpClose | OpExit => False | _ => True end.

Lemma spares_empty c op : spares ∅ c op.
Proof. destruct op; cbn; [set_solver|done|done|done|set_solver|done|by left|done|done|done]. Qed.

Lemma al_op E base (quiet : bool) op s :
  good E base quiet s.1 → spares E s.1 op → (quiet = true → lock_free op) →
  always (inv E base quiet) rely (λ _ _, True) (run_op op) s.
Proof.
  intros Hs Hop Hq.
  assert (∀ X (c : coro St X) (f : X → option nat), always (inv E base quiet) rely (λ _ _, True) c s →
    always (inv E base quiet) rely (λ _ _, True) (x ← c; mret (f x)) s) as Hret.
  { intros X c f Hc. by apply al_bind. }
  destruct op; cbn in Hop; apply Hret.
  - by apply al_create.
  - by apply al_get.
  - by apply al_list_active.
  - by apply al_list_all.
  - by apply al_delete.
  - by apply al_delete_all.
  - apply al_terminate; [done|]. intros key s' HR Hk. destruct Hop as [->|(h & Hh & Hkey)]; [set_solver|].
    rewrite (knows_only r (ah_key h) key s s'); [done|by exists h|done|done].
  - by apply al_close_connection.
  - apply al_close; [|done]. by destruct quiet; [destruct Hq|].
  - apply al_exit; [|done]. by destruct quiet; [destruct Hq|].
Qed.

Lemma tasks_ok E base quiet ops s :
  good E base quiet s.1 → Forall (λ op, spares E s.1 op ∧ (quiet = true → lock_free op)) ops →
  Forall2 (λ Q t, task_ok (inv E base quiet) rely Q s t) (replicate (length ops) (λ _ _, True)) (pool ops).
Proof.
  intros Hs Hops. induction Hops as [|op ops [Hop Hq] _ IH]; cbn; [done|]. constructor; [by apply al_op|done].
Qed.

Lemma pool_good E base quiet ops s ts' s' :
  good E base quiet s.1 → Forall (λ op, spares E s.1 op ∧ (quiet = true → lock_free op)) ops →
  rtc step (pool ops, s) (ts', s') → good E base quiet s'.1.
Proof.
  intros Hs Hops Hst.
  destruct (steps_ok (inv E base quiet) rely (replicate (length ops) (λ _ _, True)) (pool ops) s ts' s') as [Hs' _];
    [by apply Forall_replicate|done|by apply tasks_ok|done|done].
Qed.

(** The client after any use *)
Definition used (s : St) : Prop := ∃ ops w ts, rtc step (pool ops, (aclient_new, w)) (ts, s).

Lemma used_good s : used s → good ∅ [] false s.1.
Proof.
  intros (ops & w & ts & Hst). eapply pool_good; [| |exact Hst].
  - split; cbn; try done; [by apply NoDup_nil|set_solver..].
  - apply Forall_forall. intros op _. split; [apply spares_empty|done].
Qed.

(** From where it is, with nothing done yet *)
Lemma good_now E quiet c :
  good ∅ [] false c → E ⊆ ac_explicit c → (quiet = true → ac_locked c = false) → good E (ac_deeds c) quiet c.
Proof.
  intros [H1 H2 H3 H4 H5 H6 H7] HE Hq. split; try done. intros key. rewrite drop_all. by intros ?%not_elem_of_nil.
Qed.

(** C9. Whatever the client was used for, and however operations on it are interleaved and
    cancelled from here: a claim with an explicit name is deleted only by an operation
    that was asked to delete it. Leaving the context deletes none of them. *)
Theorem async_cleanup_spares_explicit (E : gset claim_key) ops s ts' s' key :
  used s → E ⊆ ac_explicit s.1 → Forall (spares E s.1) ops → rtc step (pool ops, s) (ts', s') → key ∈ E →
  ∃ new, ac_deeds s'.1 = ac_deeds s.1 ++ new ∧ Deleting key ∉ new.
Proof.
  intros Hs HE Hops Hst Hkey.
  destruct (pool_good E (ac_deeds s.1) false ops s ts' s') as [_ _ _ _ [new Hnew] Hsp _]; [|by eapply Forall_impl|done|].
  { apply good_now; [by apply used_good|exact HE|done]. }
  exists new. split; [done|]. intros Hd. apply (Hsp key); [|done]. by rewrite Hnew, drop_app_length.
Qed.

End pool.

(** ** At the interpreter's exit *)

Section atexit.
Context {W : Type} {AH : AsyncHelper W} {AC : AsyncConnectors W}.
Abbreviation St := (aclient * W)%type.

(** The registry and the explicit claims stay, and the log grows as said. *)
Definition exits (e : gset claim_key) (m : M St ()) (new : list deed) : Prop := ∀ s, ac_explicit s.1 = e →
  (m s).1 = Ret () ∧ ac_registry (m s).2.1 = ac_registry s.1 ∧ ac_explicit (m s).2.1 = e
  ∧ ac_deeds (m s).2.1 = ac_deeds s.1 ++ new.

Lemma exits_bind e m1 m2 n1 n2 : exits e m1 n1 → exits e m2 n2 → exits e (_ ← m1; m2) (n1 ++ n2).
Proof.
  intros H1 H2 s Hs. destruct (H1 s Hs) as (E1 & E2 & E3 & E4). destruct (H2 (m1 s).2 E3) as (E5 & E6 & E7 & E8).
  unfold mbind, M_bind. destruct (m1 s) as [o s1]. cbn in *. subst o.
  rewrite E5, E6, E7, E8, E2, E4, app_assoc. done.
Qed.

Lemma exits_for_each {X} e (l : list X) (f : X → M St ()) (new : X → list deed) :
  (∀ x, exits e (f x) (new x)) → exits e (for_each l f) (l ≫= new).
Proof.
  intros Hf. induction l as [|x l IH]; cbn [for_each]; [by intros s Hs; rewrite app_nil_r|]. by apply exits_bind.
Qed.

Context (Hclose : ∀ r w, (connector_exit r w).1 ≠ NoFuel).
Context (Hdelete : ∀ name namespace w, (sync_delete name namespace w).1 ≠ NoFuel).

Lemma exits_close e p : exits e (atexit_close p) [].
Proof using Hclose.
  intros s Hs. unfold atexit_close. rewrite app_nil_r. pose proof (Hclose p.2 s.2) as Hne.
  unfold swallow, except, mbind, M_bind, world, update_handle, set_self.
  by destruct (connector_exit p.2 s.2) as [[[]|ex|] w].
Qed.

Lemma exits_delete e p : exits e (atexit_delete p) (if bool_decide (p.1 ∈ e) then [] else [Deleting p.1]).
Proof using Hdelete.
  intros s Hs. unfold atexit_delete, gets, mbind, M_bind. rewrite Hs. case_bool_decide; [by rewrite app_nil_r|].
  pose proof (Hdelete p.1.2 p.1.1 s.2) as Hne. unfold swallow, except, mbind, M_bind, adone, world, set_self. cbn.
  by destruct (sync_delete p.1.2 p.1.1 s.2) as [[[]|ex|] w].
Qed.

Lemma exits_closes e l : exits e (for_each l atexit_close) [].
Proof using Hclose.
  replace [] with (l ≫= λ _ : claim_key * nat, [] : list deed) by (induction l; done).
  apply exits_for_each. intros p. apply exits_close.
Qed.

Lemma exits_deletes e l : exits e (for_each l atexit_delete) (Deleting <$> filter (.∉ e) l.*1).
Proof using Hdelete.
  replace (Deleting <$> filter (.∉ e) l.*1) with (l ≫= λ p, if bool_decide (p.1 ∈ e) then [] else [Deleting p.1]).
  { apply exits_for_each. intros p. apply exits_delete. }
  induction l as [|p l IH]; [done|]. cbn [fmap list_fmap]. rewrite filter_cons, bind_cons, IH.
  case_bool_decide; [by rewrite decide_False by auto|by rewrite decide_True].
Qed.

(** The hook never raises, whether connections fail to close and deletions fail or not.
    It asks for the deletion of every tracked claim that is not explicit, of each once
    and of no other; for none if the helper cannot be built. *)
Theorem async_atexit_exact s :
  (∀ w, (sync_helper w).1 ≠ NoFuel) →
  (atexit_cleanup s).1 = Ret ()
  ∧ ac_deeds (atexit_cleanup s).2.1 = ac_deeds s.1 ++
      match (sync_helper (for_each (ac_registry s.1) atexit_close s).2.2).1 with
      | Ret _ => Deleting <$> filter (.∉ ac_explicit s.1) (ac_registry s.1).*1
      | _ => []
      end.
Proof using Hclose Hdelete.
  intros Hh. unfold atexit_cleanup, registry_items, gets, mbind, M_bind.
  destruct (ac_registry s.1) as [|p l] eqn:El.
  { cbn. destruct (sync_helper s.2).1; by rewrite app_nil_r. }
  destruct (exits_closes (ac_explicit s.1) (p :: l) s eq_refl) as (E1 & _ & E3 & E4).
  destruct (for_each (p :: l) atexit_close s) as [o s1] eqn:Es1. cbn in E1, E3, E4. subst o. cbn [fst snd].
  rewrite app_nil_r in E4. unfold swallow, except. rewrite Es1. unfold world. specialize (Hh s1.2).
  destruct (sync_helper s1.2) as [[[]|e|] w] eqn:Ew; cbn [fst snd]; [|by rewrite app_nil_r|done].
  destruct (exits_deletes (ac_explicit s.1) (p :: l) (s1.1, w) E3) as (E5 & _ & _ & E6).
  destruct (for_each (p :: l) atexit_delete (s1.1, w)) as [o s2]. cbn in E5. subst o. cbn [fst snd].
  split; [done|]. cbn [fst snd] in E6. by rewrite E6, E4.
Qed.
End atexit.

(** ** A small cluster *)

Module AsyncSim.
(** The claims that exist. Every sandbox is ready, and nothing fails. *)
Definition cluster : Type := list claim_key.

Definition claim (warmpool : string) : json :=
  JObj [("metadata", JObj [("uid", JStr "u1"); ("resourceVersion", JStr "7")]);
        ("spec", JObj [("warmPoolRef", JObj [("name", JStr warmpool)])])].

#[global] Instance sim_helper : AsyncHelper cluster := {|
  helper_create a name _ _ := λ w,
    let key := (ca_namespace a, name) in
    if bool_decide (key ∈ w) then (Raise (ApiException 409), w) else (Ret (claim (ca_warmpool a)), key :: w);
  helper_get_claim name namespace := λ w,
    (Ret (if bool_decide ((namespace, name) ∈ w) then Some (claim "pool") else None), w);
  helper_delete name namespace _ := λ w, (Ret (), filter (.≠ (namespace, name)) w);
  helper_wait_ready name _ _ _ _ _ := λ w, (Ret ("sb-" +:+ name), w);
  helper_resolve name namespace _ := λ w,
    (if bool_decide ((namespace, name) ∈ w) then Ret ("sb-" +:+ name) else Raise SandboxNotFoundError, w);
  helper_get_sandbox _ _ := λ w, (Ret (Some (JObj [("kind", JStr "Sandbox")])), w);
  helper_list namespace _ := λ w, (Ret (snd <$> filter (λ key : claim_key, key.1 = namespace) w), w);
  helper_close := λ w, (Ret (), w);
  sync_helper := λ w, (Ret (), w);
  sync_delete name namespace := λ w, (Ret (), filter (.≠ (namespace, name)) w);
|}.
#[global] Instance sim_connectors : AsyncConnectors cluster := {|
  connector_close _ := λ w, (Ret (), w);
  connector_exit _ := λ w, (Ret (), w);
|}.
#[global] Instance sim_inputs : AsyncInputs cluster := {|
  auuid4_hex := λ w, (Ret "0123456789abcdef", w);
  autcnow := λ w, (Ret 0, w);
|}.

Definition args (name : option string) : create_args :=
  CreateArgs "pool" "default" 30 None name false None None None None None.
Definition fresh : aclient * cluster := (aclient_new, []).
Definition go (i n : nat) : list (nat * event) := replicate n (i, Go).

(** A client with an explicit and a generated claim *)
Definition prepared : list (task (aclient * cluster) (option nat)) * (aclient * cluster) :=
  exec (go 0 3 ++ go 1 3) (pool (Ret ()) [OpCreate (args (Some "mine")); OpCreate (args None)], fresh).
End AsyncSim.

Import AsyncSim.

(** Leaving the context while the claim is looked up; the generated claim goes, the
    explicit one stays. *)
Lemma async_cleanup_spares_explicit_witness :
  let p := exec (go 1 1 ++ go 0 4 ++ go 1 2 ++ go 0 4) (pool (Ret ()) [OpExit; OpGet "mine" "default" 30 None], prepared.2) in
  prepared.2.2 = [("default", "sandbox-claim-01234567"); ("default", "mine")]
  ∧ p.2.2 = [("default", "mine")]
  ∧ ∃ new, ac_deeds p.2.1 = ac_deeds prepared.2.1 ++ new ∧ Deleting ("default", "mine") ∉ new.
Proof.
  intros p. split; [vm_compute; reflexivity|]. split; [vm_compute; reflexivity|].
  apply (async_cleanup_spares_explicit (Ret ()) {[("default", "mine")]} [OpExit; OpGet "mine" "default" 30 None]
           prepared.2 p.1 p.2).
  - eexists _, _, _. unfold prepared. rewrite <-surjective_pairing. apply schedule_steps.
  - vm_compute. set_solver.
  - repeat constructor.
  - rewrite <-surjective_pairing. apply schedule_steps.
  - by apply elem_of_singleton.
Defined.


(** Two lookups of one claim that overlap both make a handle, and only the later one
    stays tracked: the earlier caller holds a handle that is open and that closing the
    client does not reach. *)
Theorem overlapping_gets_lose_a_handle :
  let ops := [OpGet "mine" "default" 30 None; OpGet "mine" "default" 30 None; OpClose] in
  let p := exec (go 0 1 ++ go 1 1 ++ go 0 2 ++ go 1 2 ++ go 2 3) (pool (Ret ()) ops, (aclient_new, [("default", "mine")])) in
  p.1 = [Parked (Finished (Ret (Some 0%nat))); Parked (Finished (Ret (Some 1%nat))); Parked (Finished (Ret None))]
  ∧ ac_registry p.2.1 = []
  ∧ (ah_is_active <$> ac_heap p.2.1) = [true; false].
Proof. vm_compute. auto. Qed.

Lemma async_atexit_exact_witness :
  (atexit_cleanup prepared.2).1 = Ret ()
  ∧ ac_deeds (atexit_cleanup prepared.2).2.1 = ac_deeds prepared.2.1 ++ [Deleting ("default", "sandbox-claim-01234567")]
  ∧ (atexit_cleanup prepared.2).2.2 = [("default", "mine")].
Proof.
  destruct (async_atexit_exact (AH := sim_helper) (AC := sim_connectors)) with (s := prepared.2) as [H1 H2];
    [intros r w Hw; discriminate Hw|intros n ns w Hw; discriminate Hw|intros w Hw; discriminate Hw|].
  split; [exact H1|]. split; [rewrite H2; vm_compute; reflexivity|vm_compute; reflexivity].
Defined.
