(* ===== verification/DateTime.v ===== *)
(** Dates and times: the parts of Python's [datetime] the fleet uses.

    An instant is a number of microseconds since 0001-01-01T00:00:00; an aware
    datetime has the offset of its zone. [fromisoformat] follows the parser of
    CPython 3.11 and later on the UTF-8 bytes of the text, including its week
    dates, its optional separators and the characters it lets through. *)

From Stdlib Require Import Ascii String ZArith QArith Lia.
From stdpp Require Import base option list strings.
From S2P Require Import Prelude Float Json PyList Models Utils PyText.

#[local] Open Scope Z_scope.

Record datetime := DateTime {
  (** the fields, as microseconds since 0001-01-01T00:00:00 *)
  dt_wall : Z;
  (** [utcoffset()] in microseconds; [None] for a naive datetime *)
  dt_offset : option Z;
}.

#[global] Instance datetime_eq_dec : EqDecision datetime.
Proof. solve_decision. Defined.

Definition DAY_US : Z := 86400000000.

(** ** The calendar *)

Definition is_leap (y : Z) : bool :=
  (y mod 4 =? 0) && (negb (y mod 100 =? 0) || (y mod 400 =? 0)).

Definition days_in_month (y m : Z) : Z :=
  if m =? 2 then (if is_leap y then 29 else 28)
  else if (m =? 4) || (m =? 6) || (m =? 9) || (m =? 11) then 30 else 31.

(** The day number of a date, day 0 being 0001-01-01. *)
Definition days_of_civil (y m d : Z) : Z :=
  let y' := if m <=? 2 then y - 1 else y in
  let era := y' / 400 in
  let yoe := y' mod 400 in
  let mp := if m <=? 2 then m + 9 else m - 3 in
  let doy := (153 * mp + 2) / 5 + d - 1 in
  era * 146097 + (yoe * 365 + yoe / 4 - yoe / 100 + doy) - 306.

Definition valid_date (y m d : Z) : bool :=
  (1 <=? y) && (y <=? 9999) && (1 <=? m) && (m <=? 12) && (1 <=? d) && (d <=? days_in_month y m).

(** Monday is 0; 0001-01-01 was a Monday. *)
Definition weekday (days : Z) : Z := days mod 7.

(** The Monday of the week with the first Thursday of the year. *)
Definition iso_week1_monday (y : Z) : Z :=
  let first := days_of_civil y 1 1 in
  let wd := weekday first in
  if 3 <? wd then first - wd + 7 else first - wd.

Definition iso_to_ymd (y week day : Z) : option (Z * Z * Z) :=
  if negb ((1 <=? y) && (y <=? 9999)) then None
  else
    let wd := weekday (days_of_civil y 1 1) in
    let week_ok := ((0 <? week) && (week <? 53)) ||
                   ((week =? 53) && ((wd =? 3) || ((wd =? 2) && is_leap y))) in
    if negb week_ok || negb ((0 <? day) && (day <? 8)) then None
    else Some (civil_of_days (iso_week1_monday y + (week - 1) * 7 + day - 1)).

(** ** [isoformat()] of a UTC datetime *)

Definition isoformat_utc (us : Z) : string :=
  (let secs := us / 1000000 in
   let '(y, m, d) := civil_of_days (secs / 86400) in
   let t := secs mod 86400 in
   let f := us mod 1000000 in
   pad 4 y +:+ "-" +:+ pad 2 m +:+ "-" +:+ pad 2 d +:+ "T" +:+
   pad 2 (t / 3600) +:+ ":" +:+ pad 2 (t / 60 mod 60) +:+ ":" +:+ pad 2 (t mod 60) +:+
   (if f =? 0 then EmptyString else "." +:+ pad 6 f) +:+ "+00:00")%Z.

(** [s.replace(old, new)] for a non-empty [old] *)
Fixpoint replace_chars (fuel : nat) (old new l : list ascii) : list ascii :=
  match fuel with
  | O => l
  | S fuel' =>
      match l with
      | [] => []
      | c :: l' =>
          if is_prefix_of old l then new ++ replace_chars fuel' old new (drop (length old) l)
          else c :: replace_chars fuel' old new l'
      end
  end.
Definition replace (old new s : string) : string :=
  implode (replace_chars (S (len s)) (explode old) (explode new) (explode s)).

(** [dt.isoformat().replace("+00:00", "Z")] *)
Definition iso_z (us : Z) : string := replace "+00:00" "Z" (isoformat_utc us).

(** ** [fromisoformat] *)

Definition NUL : ascii := chr 0.

(** The byte at a position; the text ends with a zero byte. *)
Definition peek (l : list ascii) : ascii := hd NUL l.

(** Exactly [n] digits. *)
Fixpoint parse_digits (n : nat) (acc : Z) (l : list ascii) : option (Z * list ascii) :=
  match n with
  | O => Some (acc, l)
  | S n' =>
      match l with
      | c :: l' =>
          if is_digit c then parse_digits n' (acc * 10 + Z.of_N (code c - 48)) l' else None
      | [] => None
      end
  end.

Definition find_separator (l : list ascii) : nat :=
  let at_ i := default NUL (l !! i) in
  let n := length l in
  if (n =? 7)%nat then 7
  else if bool_decide (at_ 4%nat = "-"%char) then
    if bool_decide (at_ 5%nat = "W"%char) then
      if (8 <? n)%nat && bool_decide (at_ 8%nat = "-"%char) then
        if (n =? 9)%nat then 0
        else if (10 <? n)%nat && is_digit (at_ 10%nat) then 8 else 10
      else 8
    else 10
  else if bool_decide (at_ 4%nat = "W"%char) then
    let digits := (length l - 7 - length (drop_while is_digit (drop 7 l)))%nat in
    let idx := (7 + digits)%nat in
    if (idx <? 9)%nat then idx else if Nat.even idx then 7 else 8
  else 8.

Definition parse_date (l : list ascii) (n : nat) : option (Z * Z * Z) :=
  '(y, l1) ← parse_digits 4 0 l;
  let sep := bool_decide (peek l1 = "-"%char) in
  let l2 := if sep : bool then drop 1 l1 else l1 in
  if bool_decide (peek l2 = "W"%char) then
    '(week, l3) ← parse_digits 2 0 (drop 1 l2);
    if (length l - length l3 <? n)%nat then
      if sep && negb (bool_decide (peek l3 = "-"%char)) then None
      else
        '(day, _) ← parse_digits 1 0 (if sep then drop 1 l3 else l3);
        iso_to_ymd y week day
    else iso_to_ymd y week 1
  else
    '(m, l3) ← parse_digits 2 0 l2;
    if sep && negb (bool_decide (peek l3 = "-"%char)) then None
    else
      '(d, _) ← parse_digits 2 0 (if sep then drop 1 l3 else l3);
      Some (y, m, d).

(** The components of a time and whether text is left; [n] is the number of
    bytes up to the end of the time, the bytes after it can still be read. *)
Record time_parts := TimeParts { tp_vals : list Z; tp_us : Z; tp_rest : bool }.

Definition parse_fraction (vals : list Z) (l : list ascii) (n : nat) : option time_parts :=
  let k := Nat.min n 6 in
  '(us, l1) ← parse_digits k 0 l;
  if (k =? 0)%nat then None
  else Some (TimeParts vals (us * 10 ^ Z.of_nat (6 - k))
               (negb (bool_decide (drop_while is_digit l1 = [])))).

Fixpoint parse_hms (left : nat) (first has_sep : bool) (vals : list Z) (l : list ascii) (n : nat)
    : option time_parts :=
  match left with
  | O => parse_fraction vals l n
  | S left' =>
      '(v, l1) ← parse_digits 2 0 l;
      let vals' := vals ++ [v] in
      let c := peek l1 in
      let has_sep := if first then bool_decide (c = ":"%char) else has_sep in
      if (n <=? 3)%nat then Some (TimeParts vals' 0 (negb (bool_decide (c = NUL))))
      else if has_sep && bool_decide (c = ":"%char) then parse_hms left' false has_sep vals' (drop 1 l1) (n - 3)
      else if bool_decide (c = "."%char) || bool_decide (c = ","%char)
      then parse_fraction vals' (drop 1 l1) (n - 3)
      else if negb has_sep then parse_hms left' false has_sep vals' l1 (n - 2)
      else None
  end.

Definition hms_us (p : time_parts) : Z :=
  let v i := default 0 (tp_vals p !! i) in
  (v 0%nat * 3600 + v 1%nat * 60 + v 2%nat) * 1000000 + tp_us p.

Definition valid_time (p : time_parts) : bool :=
  let v i := default 0 (tp_vals p !! i) in
  (v 0%nat <=? 23) && (v 1%nat <=? 59) && (v 2%nat <=? 59).

Definition is_tz_char (c : ascii) : bool :=
  bool_decide (c = "+"%char) || bool_decide (c = "-"%char) || bool_decide (c = "Z"%char).

Fixpoint before_tz (l : list ascii) : nat :=
  match l with
  | [] => 0
  | c :: l' => if is_tz_char c then 0 else S (before_tz l')
  end.

(** The time and the offset of the zone. *)
Definition parse_time (l : list ascii) : option (time_parts * option Z) :=
  let n := before_tz l in
  p ← parse_hms 3 true true [] l n;
  match drop n l with
  | [] => if tp_rest p then None else Some (p, None)
  | c :: tz =>
      if bool_decide (c = "Z"%char) then (if tz is [] then Some (p, Some 0) else None)
      else
        o ← parse_hms 3 true true [] tz (length tz);
        if tp_rest o then None
        else
          let off := if bool_decide (c = "-"%char) then - hms_us o else hms_us o in
          if Z.abs off <? DAY_US then Some (p, Some off) else None
  end.

(** Bytes of the separator character. *)
Definition sep_len (c : ascii) : nat :=
  if (code c <? 128)%N then 1
  else if ((code c / 16) =? 14)%N then 3 else if ((code c / 16) =? 15)%N then 4 else 2.

Definition fromisoformat (s : string) : outcome datetime :=
  let l := utf8_bytes (explode s) in
  let r :=
    if (length l <? 7)%nat then None
    else
      let n := find_separator l in
      '(y, m, d) ← parse_date l n;
      if negb (valid_date y m d) then None
      else
        let day := days_of_civil y m d * DAY_US in
        if (n <? length l)%nat then
          '(p, off) ← parse_time (drop (n + sep_len (peek (drop n l))) l);
          if valid_time p then Some (DateTime (day + hms_us p) off) else None
        else Some (DateTime day None) in
  match r with Some dt => Ret dt | None => Raise ValueError end.

(** ** Differences *)

(** [(a - b).total_seconds()] for aware datetimes at instants [a] and [b] *)
Definition total_seconds (us : Z) : outcome pyfloat := int_truediv us 1000000.

(** [timedelta(seconds=q)] in microseconds: whole seconds exactly, the fraction
    scaled in floating point, rounded to even. *)
Definition timedelta_us (q : Q) : Z :=
  let whole := Z.quot (Qnum q) (QDen q) in
  let frac := (q - inject_Z whole)%Q in
  match fmul (PFin 1000000) (PFin frac) with
  | PFin f => round_half_even (inject_Z (whole * 1000000) + f)%Q
  | _ => whole * 1000000
  end.

(** The instant of an aware datetime. *)
Definition instant (dt : datetime) : Z := dt_wall dt - default 0 (dt_offset dt).
