(* ===== verification/DateTimeProofs.v ===== *)
(** The calendar is a bijection on its range, and a timestamp that [isoformat]
    writes is read back to the same instant by [fromisoformat]; the order of timestamps
    that the snapshot engine sorts by. *)

From Stdlib Require Import Ascii String ZArith NArith Lia.
From stdpp Require Import base option list strings pretty.
From S2P Require Import Prelude Float PyList Json IpAddress PyText Models Utils DateTime.

#[local] Open Scope Z_scope.

(** ** The calendar

    Both directions work within an era of 400 years, [146097] days; one era is
    checked day by day. *)

(** Year of the era, month and day of a day of the era, as in [civil_of_days]. *)
Definition era_civil (doe : Z) : Z * Z * Z :=
  let yoe := (doe - doe / 1460 + doe / 36524 - doe / 146096) / 365 in
  let doy := doe - (365 * yoe + yoe / 4 - yoe / 100) in
  let mp := (5 * doy + 2) / 153 in
  (yoe, mp, doy - (153 * mp + 2) / 5 + 1).

(** The first day of a year of the era, years beginning in March. *)
Definition year_start (yoe : Z) : Z := yoe * 365 + yoe / 4 - yoe / 100 + yoe / 400.

Definition year_of (doe : Z) : Z := (doe - doe / 1460 + doe / 36524 - doe / 146096) / 365.

Definition month_of (mp : Z) : Z := if mp <? 10 then mp + 3 else mp - 9.

Definition year_ok (y : Z) : bool :=
  (year_of (year_start y) =? y) && (year_of (year_start (y + 1) - 1) =? y) &&
  (year_start (y + 1) - year_start y <=? (if is_leap (y + 1) then 366 else 365)).

Definition doy_ok (doy : Z) : bool :=
  let mp := (5 * doy + 2) / 153 in
  let d := doy - (153 * mp + 2) / 5 + 1 in
  (0 <=? mp) && (mp <? 12) && (1 <=? d) && (0 <=? doy) &&
  (if mp =? 11 then d <=? (if doy =? 365 then 29 else 28) else d <=? days_in_month 1 (month_of mp)).

Lemma years_checked : forallb year_ok (seqZ 0 400) = true.
Proof. by vm_compute. Qed.

Lemma doys_checked : forallb doy_ok (seqZ 0 366) = true.
Proof. by vm_compute. Qed.

Lemma forallb_seqZ f n z : forallb f (seqZ 0 n) = true → 0 ≤ z < n → f z = true.
Proof.
  intros H Hz. rewrite forallb_forall in H. apply H, list_elem_of_In, elem_of_seqZ. lia.
Qed.

Lemma year_of_mono a b : 0 ≤ a ≤ b → b < 146097 → year_of a ≤ year_of b.
Proof. intros. unfold year_of. apply Z.div_le_mono; [done|]. Z.to_euclidean_division_equations. lia. Qed.

Lemma year_of_range doe : 0 ≤ doe < 146097 → 0 ≤ year_of doe < 400.
Proof. intros. unfold year_of. Z.to_euclidean_division_equations. lia. Qed.

Lemma year_start_range y : 0 ≤ y ≤ 400 → 0 ≤ year_start y ≤ 146097.
Proof. intros. unfold year_start. Z.to_euclidean_division_equations. lia. Qed.

(** The year of a day contains it. *)
Lemma year_of_spec doe :
  0 ≤ doe < 146097 → year_start (year_of doe) ≤ doe < year_start (year_of doe + 1).
Proof.
  intros H. pose proof (year_of_range doe H) as Hy. set (y := year_of doe) in *.
  assert (∀ k, 0 ≤ k < 400 → year_of (year_start k) = k ∧ year_of (year_start (k + 1) - 1) = k) as Hk.
  { intros k Hk. pose proof (forallb_seqZ _ _ k years_checked Hk) as Hok. unfold year_ok in Hok.
    bool_prop. done. }
  split.
  - destruct (decide (year_start y ≤ doe)) as [|Hlt]; [done|].
    pose proof (year_start_range y ltac:(lia)).
    assert (y ≠ 0) by (intros E; rewrite E in Hlt; change (year_start 0) with 0 in Hlt; lia).
    destruct (Hk (y - 1) ltac:(lia)) as [_ Hk']. replace (y - 1 + 1) with y in Hk' by lia.
    pose proof (year_of_mono doe (year_start y - 1) ltac:(lia) ltac:(lia)). lia.
  - destruct (decide (doe < year_start (y + 1))) as [|Hge]; [done|].
    pose proof (year_start_range (y + 1) ltac:(lia)).
    destruct (decide (y + 1 = 400)) as [E|].
    + rewrite E in *. change (year_start 400) with 146097 in *. lia.
    + destruct (Hk (y + 1) ltac:(lia)) as [Hk' _].
      pose proof (year_of_mono (year_start (y + 1)) doe ltac:(lia) ltac:(lia)). lia.
Qed.

(** A day of the era and its date. *)
Lemma era_civil_spec doe yoe mp d :
  0 ≤ doe < 146097 → era_civil doe = (yoe, mp, d) →
  year_start yoe + ((153 * mp + 2) / 5 + d - 1) = doe ∧ 0 ≤ yoe < 400 ∧ 0 ≤ mp < 12 ∧ 1 ≤ d ∧
  d ≤ days_in_month (if month_of mp <=? 2 then yoe + 1 else yoe) (month_of mp).
Proof.
  intros H. unfold era_civil. fold (year_of doe). intros [= <- <- <-].
  pose proof (year_of_range doe H) as Hy. pose proof (year_of_spec doe H) as Hs.
  set (y := year_of doe) in *.
  replace (365 * y + y / 4 - y / 100) with (year_start y)
    by (unfold year_start; rewrite (Z.div_small y 400) by done; lia).
  set (doy := doe - year_start y).
  pose proof (forallb_seqZ _ _ y years_checked Hy) as Hyok. unfold year_ok in Hyok. bool_prop.
  assert (0 ≤ doy < 366) as Hdoy by (subst doy; destruct (is_leap (y + 1)); lia).
  pose proof (forallb_seqZ _ _ doy doys_checked Hdoy) as Hdok. unfold doy_ok in Hdok.
  set (mp := (5 * doy + 2) / 153) in *. set (e := (153 * mp + 2) / 5) in *. bool_prop.
  split_and!; try lia.
  destruct (mp =? 11) eqn:E; bool_prop.
  - rewrite E. change (month_of 11) with 2. change (2 <=? 2) with true. unfold days_in_month.
    change (2 =? 2) with true. cbv iota. destruct (doy =? 365) eqn:E5; bool_prop.
    + destruct (is_leap (y + 1)) eqn:El; [done|]. subst doy. lia.
    + destruct (is_leap _); lia.
  - unfold month_of, days_in_month in *. destruct (mp <? 10) eqn:E10; bool_prop.
    + rewrite (proj2 (Z.eqb_neq (mp + 3) 2)) in * by lia. done.
    + assert (mp = 10) as Em by lia. rewrite Em in *. done.
Qed.

Lemma is_leap_shift y era : is_leap (y + era * 400) = is_leap y.
Proof.
  unfold is_leap.
  replace ((y + era * 400) mod 4) with (y mod 4)
    by (replace (era * 400) with (era * 100 * 4) by lia; by rewrite Z.mod_add).
  replace ((y + era * 400) mod 100) with (y mod 100)
    by (replace (era * 400) with (era * 4 * 100) by lia; by rewrite Z.mod_add).
  by rewrite Z.mod_add.
Qed.

Lemma days_in_month_shift y era m : days_in_month (y + era * 400) m = days_in_month y m.
Proof. unfold days_in_month. by rewrite is_leap_shift. Qed.

Lemma civil_of_days_era days :
  civil_of_days days =
    let era := (days + 306) / 146097 in
    let '(yoe, mp, d) := era_civil ((days + 306) mod 146097) in
    let m := if mp <? 10 then mp + 3 else mp - 9 in
    (if m <=? 2 then yoe + era * 400 + 1 else yoe + era * 400, m, d).
Proof. done. Qed.

(** The calendar reads a day number back. *)
Lemma civil_roundtrip days y m d :
  civil_of_days days = (y, m, d) →
  days_of_civil y m d = days ∧ 1 ≤ m ≤ 12 ∧ 1 ≤ d ≤ days_in_month y m.
Proof.
  rewrite civil_of_days_era. cbv zeta.
  pose proof (Z.div_mod (days + 306) 146097 ltac:(done)) as Hdm.
  assert (0 ≤ (days + 306) mod 146097 < 146097) as Hb by (by apply Z.mod_pos_bound).
  revert Hdm Hb. generalize ((days + 306) / 146097) as era, ((days + 306) mod 146097) as doe.
  intros era doe Hdm Hb. destruct (era_civil doe) as [[yoe mp] d'] eqn:Ec.
  apply era_civil_spec in Ec as (Hdays & Hyoe & Hmp & Hd1 & Hd2); [|done].
  fold (month_of mp). intros [= <- <- <-]. unfold days_of_civil, year_start in *.
  rewrite (Z.div_small yoe 400), Z.add_0_r in Hdays by done.
  assert (∀ e, (yoe + era * 400 + e - e) / 400 = era) as Hdiv.
  { intros e. rewrite Z.add_simpl_r, Z.div_add, Z.div_small by lia. lia. }
  assert (∀ e, (yoe + era * 400 + e - e) mod 400 = yoe) as Hmod.
  { intros e. rewrite Z.add_simpl_r, Z.mod_add, Z.mod_small by lia. lia. }
  unfold month_of in *. destruct (mp <? 10) eqn:Emp; bool_prop.
  - rewrite (proj2 (Z.leb_gt (mp + 3) 2)) in * by lia.
    specialize (Hdiv 0). specialize (Hmod 0). rewrite Z.sub_0_r, Z.add_0_r in Hdiv, Hmod.
    rewrite Hdiv, Hmod, days_in_month_shift. replace (mp + 3 - 3) with mp by lia. lia.
  - rewrite (proj2 (Z.leb_le (mp - 9) 2)) in * by lia.
    rewrite Hdiv, Hmod. replace (yoe + era * 400 + 1) with (yoe + 1 + era * 400) by lia.
    rewrite days_in_month_shift. replace (mp - 9 + 9) with mp by lia. lia.
Qed.

(** ** Fixed-width numbers *)

Lemma parse_digits_all l : ∀ acc r,
  Forall (λ c, is_digit c = true) l →
  parse_digits (length l) acc (l ++ r) = Some (digits_value acc l, r).
Proof.
  induction l as [|c l IH]; intros acc r Hd; [done|]. apply Forall_cons in Hd as [Hc Hd].
  cbn [length app parse_digits]. rewrite Hc. by rewrite IH.
Qed.

(** A zero-padded number: its digits, and the number they make. *)
Lemma pad_digits n z :
  0 ≤ z < 10 ^ Z.of_nat n → (1 ≤ n)%nat →
  length (explode (pad n z)) = n ∧ Forall (λ c, is_digit c = true) (explode (pad n z)) ∧
  digits_value 0 (explode (pad n z)) = z.
Proof.
  intros Hz Hn. destruct (pretty_Z_digits z) as (Hd & Hv & _ & Hl); [lia|].
  specialize (Hl n ltac:(lia) Hn). unfold pad. rewrite explode_implode. split_and!.
  - rewrite length_app, length_replicate. lia.
  - apply Forall_app. split; [|done]. by apply Forall_replicate.
  - by rewrite digits_value_zeros.
Qed.

(** ** Reading a timestamp back *)

Definition plain (c : ascii) : bool :=
  (code c <? 128)%N && negb (bool_decide (c = "+"%char)) && negb (bool_decide (c = "Z"%char)).

Lemma utf8_bytes_plain l : Forall (λ c, plain c = true) l → utf8_bytes l = l.
Proof.
  unfold utf8_bytes. induction 1 as [|c l Hc Hl IH]; [done|]. unfold plain in Hc. bool_prop.
  rewrite bind_cons, IH. by rewrite (proj2 (N.ltb_lt (code c) 128)).
Qed.

Lemma utf8_bytes_app a b : utf8_bytes (a ++ b) = utf8_bytes a ++ utf8_bytes b.
Proof. apply bind_app. Qed.

Lemma digit_plain c : is_digit c = true → plain c = true.
Proof. by destruct c as [[] [] [] [] [] [] [] []]. Qed.

Lemma digits_plain l : Forall (λ c, is_digit c = true) l → Forall (λ c, plain c = true) l.
Proof. intros H. eapply Forall_impl; [exact H|]. apply digit_plain. Qed.

Lemma replace_plain l fuel :
  Forall (λ c, plain c = true) l → (length l < fuel)%nat →
  replace_chars fuel (explode "+00:00") ["Z"%char] (l ++ explode "+00:00") = l ++ ["Z"%char].
Proof.
  intros Hl. revert fuel. induction Hl as [|c l Hc Hl IH]; intros fuel Hf.
  - destruct fuel as [|[|fuel]]; [lia|done|done].
  - destruct fuel as [|fuel]; [cbn in Hf; lia|]. cbn [app replace_chars].
    assert (is_prefix_of (explode "+00:00") (c :: l ++ explode "+00:00") = false) as ->.
    { unfold plain in Hc. bool_prop. cbn [explode list_ascii_of_string is_prefix_of].
      rewrite bool_decide_false by congruence. done. }
    f_equal. apply IH. cbn in Hf. lia.
Qed.

Lemma replace_zone l fuel :
  Forall (λ c, plain c = true) l → (length l < fuel)%nat →
  replace_chars fuel ["Z"%char] (explode "+00:00") (l ++ ["Z"%char]) = l ++ explode "+00:00".
Proof.
  intros Hl. revert fuel. induction Hl as [|c l Hc Hl IH]; intros fuel Hf.
  - destruct fuel as [|[|fuel]]; [lia|done|done].
  - destruct fuel as [|fuel]; [cbn in Hf; lia|]. cbn [app replace_chars].
    assert (is_prefix_of ["Z"%char] (c :: l ++ ["Z"%char]) = false) as ->.
    { unfold plain in Hc. bool_prop. cbn [is_prefix_of]. rewrite bool_decide_false by congruence. done. }
    f_equal. apply IH. cbn in Hf. lia.
Qed.

Lemma digits_head l n : Forall (λ c, is_digit c = true) l → length l = S n →
  ∃ c l', l = c :: l' ∧ is_digit c = true.
Proof. destruct 1 as [|c l Hc Hl]; [done|]. eauto. Qed.

(** The shape of a timestamp: six numbers and an optional fraction. *)
Section shape.
Context (Y Mo D H Mi S F tz : list ascii).
Let digits (l : list ascii) : Prop := Forall (λ c, is_digit c = true) l.
Hypotheses (HYd : digits Y) (HMo : digits Mo) (HD : digits D) (HH : digits H) (HMi : digits Mi)
  (HS : digits S) (HFd : digits F).
Hypotheses (HY : length Y = 4%nat) (HlMo : length Mo = 2%nat) (HlD : length D = 2%nat)
  (HlH : length H = 2%nat) (HlMi : length Mi = 2%nat) (HlS : length S = 2%nat).
Hypothesis HF : F = [] ∨ length F = 6%nat.
Hypothesis Htz : tz = ["Z"%char] ∨ tz = explode "+00:00".

Definition stamp_date : list ascii := Y ++ "-"%char :: Mo ++ "-"%char :: D.
Definition stamp_frac : list ascii := if F is [] then [] else "."%char :: F.
Definition stamp_time : list ascii :=
  H ++ ":"%char :: Mi ++ ":"%char :: S ++ stamp_frac.
Definition stamp_body : list ascii := stamp_date ++ "T"%char :: stamp_time.
Definition stamp : list ascii := stamp_date ++ "T"%char :: stamp_time ++ tz.

Let num := digits_value 0.

Lemma parse_two l r : Forall (λ c, is_digit c = true) l → length l = 2%nat →
  parse_digits 2 0 (l ++ r) = Some (num l, r).
Proof. intros Hl <-. by apply parse_digits_all. Qed.

Lemma find_separator_stamp : find_separator stamp = 10%nat.
Proof.
  assert (stamp !! 4%nat = Some "-"%char) as H4.
  { unfold stamp, stamp_date. rewrite <-app_assoc, lookup_app_r by lia. by rewrite HY. }
  assert (∃ c, stamp !! 5%nat = Some c ∧ is_digit c = true) as (c & H5 & Hc).
  { destruct (digits_head Mo 1) as (c & Mo' & E & Hc); [done..|]. exists c. split; [|done].
    unfold stamp, stamp_date. rewrite <-app_assoc, lookup_app_r by lia. by rewrite HY, E. }
  assert (length stamp ≠ 7%nat).
  { unfold stamp, stamp_date. repeat (rewrite length_app || cbn [length]). lia. }
  unfold find_separator. rewrite (proj2 (Nat.eqb_neq _ _)) by done. rewrite H4, H5. cbn [default].
  rewrite bool_decide_true by done. rewrite bool_decide_false; [done|].
  intros E. change (c = "W"%char) in E. by subst c.
Qed.

Lemma parse_date_stamp : parse_date stamp 10 = Some (num Y, num Mo, num D).
Proof.
  unfold parse_date, stamp, stamp_date. rewrite <-!app_assoc. rewrite <-HY at 1.
  rewrite parse_digits_all by done. cbn [mbind option_bind app].
  cbn [peek hd]. change (bool_decide ("-"%char = "-"%char)) with true. cbv iota. cbn [drop]. rewrite !drop_0.
  rewrite <-app_assoc. cbn [app].
  rewrite bool_decide_false.
  2:{ destruct (digits_head Mo 1) as (c & Mo' & E & Hc); [done..|]. rewrite E. cbn. by intros ->. }
  rewrite parse_two by done. cbn [mbind option_bind peek hd].
  change (bool_decide ("-"%char = "-"%char)) with true. cbn [negb andb drop]. rewrite drop_0. by rewrite parse_two.
Qed.

Lemma before_tz_digits l r : Forall (λ c, is_digit c = true) l →
  before_tz (l ++ r) = (length l + before_tz r)%nat.
Proof.
  induction 1 as [|c l Hc Hl IH]; [done|]. cbn [app before_tz length].
  assert (is_tz_char c = false) as -> by (by destruct c as [[] [] [] [] [] [] [] []]).
  by rewrite IH.
Qed.

Lemma stamp_frac_cases :
  (F = [] ∧ stamp_frac = []) ∨ (length F = 6%nat ∧ stamp_frac = "."%char :: F).
Proof. unfold stamp_frac. destruct HF as [->|HF6]; [by left|]. right. by destruct F. Qed.

Lemma before_tz_frac : before_tz (stamp_frac ++ tz) = length stamp_frac.
Proof.
  destruct stamp_frac_cases as [[_ ->]|[_ ->]]; [by destruct Htz as [->| ->]|]. cbn [app before_tz].
  change (is_tz_char "."%char) with false. cbv iota. rewrite before_tz_digits by done.
  assert (before_tz tz = 0%nat) as -> by (by destruct Htz as [->| ->]). cbn [length]. lia.
Qed.

Lemma before_tz_time : before_tz (stamp_time ++ tz) = length stamp_time.
Proof.
  unfold stamp_time. rewrite <-app_assoc. cbn [app]. rewrite before_tz_digits by done.
  cbn [before_tz]. change (is_tz_char ":"%char) with false. cbv iota. rewrite <-app_assoc. cbn [app].
  rewrite before_tz_digits by done. cbn [before_tz]. change (is_tz_char ":"%char) with false. cbv iota.
  rewrite <-app_assoc. rewrite before_tz_digits by done. rewrite before_tz_frac.
  repeat (rewrite length_app || cbn [length]). lia.
Qed.

Lemma length_stamp_time : length stamp_time = (8 + length stamp_frac)%nat.
Proof. unfold stamp_time. repeat (rewrite length_app || cbn [length]). lia. Qed.

Lemma parse_hms_stamp :
  parse_hms 3 true true [] (stamp_time ++ tz) (length stamp_time) =
    Some (TimeParts [num H; num Mi; num S] (num F) true).
Proof.
  rewrite length_stamp_time. unfold stamp_time. rewrite <-app_assoc. cbn [app].
  cbn [parse_hms]. rewrite parse_two by done. cbn [mbind option_bind peek hd app].
  rewrite (proj2 (Nat.leb_gt _ _)) by lia.
  change (bool_decide (":"%char = ":"%char)) with true. cbn [andb drop]. rewrite drop_0, <-app_assoc. cbn [app].
  rewrite parse_two by done. cbn [mbind option_bind peek hd app].
  rewrite (proj2 (Nat.leb_gt _ _)) by lia.
  change (bool_decide (":"%char = ":"%char)) with true. cbn [andb drop].
  rewrite drop_0, <-app_assoc. rewrite parse_two by done. cbn [mbind option_bind].
  destruct stamp_frac_cases as [[HF0 ->]|[HF6 ->]].
  - cbn [length app peek hd]. rewrite (proj2 (Nat.leb_le _ _)) by lia. rewrite HF0. by destruct Htz as [->| ->].
  - cbn [length app peek hd]. rewrite HF6. rewrite (proj2 (Nat.leb_gt _ _)) by lia.
    change (bool_decide ("."%char = ":"%char)) with false. cbn [andb].
    change (bool_decide ("."%char = "."%char)) with true. cbn [orb drop]. rewrite drop_0.
    unfold parse_fraction. replace (Nat.min _ 6) with (length F) by lia.
    rewrite parse_digits_all by done. cbn [mbind option_bind]. rewrite HF6. cbn [Nat.eqb Nat.sub].
    rewrite bool_decide_false by (by destruct Htz as [->| ->]). cbn [negb]. f_equal. f_equal. fold num. lia.
Qed.

Lemma parse_time_stamp :
  parse_time (stamp_time ++ tz) =
    Some (TimeParts [num H; num Mi; num S] (num F) true, Some 0).
Proof.
  unfold parse_time. rewrite before_tz_time, parse_hms_stamp. cbn [mbind option_bind].
  rewrite drop_app_length. by destruct Htz as [->| ->].
Qed.

Lemma stamp_body_plain : Forall (λ c, plain c = true) stamp_body.
Proof.
  assert (Forall (λ c, plain c = true) stamp_frac).
  { destruct stamp_frac_cases as [[_ ->]|[_ ->]]; repeat constructor. by apply digits_plain. }
  unfold stamp_body, stamp_date, stamp_time.
  repeat (rewrite Forall_app || rewrite Forall_cons). split_and!; try done; by apply digits_plain.
Qed.

(** A timestamp with valid fields is parsed. *)
Lemma fromisoformat_stamp :
  valid_date (num Y) (num Mo) (num D) = true → num H ≤ 23 → num Mi ≤ 59 → num S ≤ 59 →
  fromisoformat (implode stamp) =
    Ret (DateTime (days_of_civil (num Y) (num Mo) (num D) * DAY_US
                   + ((num H * 3600 + num Mi * 60 + num S) * 1000000 + num F)) (Some 0)).
Proof.
  intros Hv Hh Hm Hs. unfold fromisoformat. rewrite explode_implode.
  assert (length stamp_date = 10%nat) as Hdl
    by (unfold stamp_date; repeat (rewrite length_app || cbn [length]); lia).
  assert (utf8_bytes stamp = stamp) as Hp.
  { assert (stamp = stamp_body ++ tz) as -> by (unfold stamp, stamp_body; by rewrite <-app_assoc).
    rewrite utf8_bytes_app, (utf8_bytes_plain stamp_body stamp_body_plain). by destruct Htz as [->| ->]. }
  rewrite Hp. cbv zeta.
  assert (length stamp = 11 + length stamp_time + length tz)%nat as Hl
    by (unfold stamp; repeat (rewrite length_app || cbn [length]); lia).
  rewrite (proj2 (Nat.ltb_ge _ _)) by lia. rewrite find_separator_stamp, parse_date_stamp.
  cbn [mbind option_bind]. rewrite Hv. cbn [negb]. rewrite (proj2 (Nat.ltb_lt _ _)) by lia.
  assert (drop 10 stamp = "T"%char :: stamp_time ++ tz) as Hd10
    by (unfold stamp; rewrite <-Hdl; apply drop_app_length).
  rewrite Hd10. cbn [peek hd]. change (10 + sep_len "T"%char)%nat with 11%nat.
  assert (drop 11 stamp = stamp_time ++ tz) as ->
    by (change 11%nat with (10 + 1)%nat; by rewrite <-drop_drop, Hd10).
  rewrite parse_time_stamp. cbn [mbind option_bind]. unfold valid_time, hms_us.
  cbn [tp_vals tp_us lookup list_lookup default from_option id].
  rewrite !(proj2 (Z.leb_le _ _)) by done. done.
Qed.
End shape.

Lemma days_in_month_le y m : days_in_month y m ≤ 31.
Proof. unfold days_in_month. repeat case_match; lia. Qed.

(** The fields of an instant in the representable range. *)
Lemma instant_fields us :
  0 ≤ us ≤ DATETIME_MAX_US →
  let secs := us / 1000000 in
  ∃ y m d, civil_of_days (secs / 86400) = (y, m, d) ∧ valid_date y m d = true ∧
    days_of_civil y m d = secs / 86400 ∧ 0 ≤ y < 10000 ∧ 0 ≤ m < 100 ∧ 0 ≤ d < 100.
Proof.
  intros Hus secs. assert (0 ≤ secs / 86400 ≤ 3652058) as Hdays.
  { unfold DATETIME_MAX_US in Hus. subst secs. Z.to_euclidean_division_equations. lia. }
  destruct (civil_of_days (secs / 86400)) as [[y m] d] eqn:E. exists y, m, d.
  destruct (civil_roundtrip _ _ _ _ E) as (Hr & Hm & Hd).
  assert (1 ≤ y ≤ 9999) as Hy.
  { rewrite civil_of_days_era in E. cbv zeta in E. destruct (era_civil _) as [[yoe mp] d'] eqn:Ee.
    apply era_civil_spec in Ee as (He & Hyoe & Hmp & Hd1 & Hd2); [|by apply Z.mod_pos_bound].
    fold (month_of mp) in E. injection E as <- <- <-.
    assert (d' ≤ 31) by (etrans; [exact Hd2|apply days_in_month_le]). clear Hd2 Hd Hm.
    set (days := secs / 86400) in *. unfold year_start in He. unfold month_of in *.
    destruct (mp <? 10) eqn:E10; bool_prop.
    - rewrite (proj2 (Z.leb_gt (mp + 3) 2)) by lia. Z.to_euclidean_division_equations. lia.
    - rewrite (proj2 (Z.leb_le (mp - 9) 2)) by lia. Z.to_euclidean_division_equations. lia. }
  pose proof (days_in_month_le y m).
  split_and!; try lia; [done|]. unfold valid_date. rewrite !(proj2 (Z.leb_le _ _)) by lia. done.
Qed.

(** The text [isoformat] writes in UTC: a body, then the zone. *)
Lemma iso_shape us :
  0 ≤ us ≤ DATETIME_MAX_US →
  ∃ body, Forall (λ c, plain c = true) body ∧ explode (isoformat_utc us) = body ++ explode "+00:00" ∧
    ∀ tz, tz = ["Z"%char] ∨ tz = explode "+00:00" →
      fromisoformat (implode (body ++ tz)) = Ret (DateTime us (Some 0)).
Proof.
  intros Hus. destruct (instant_fields us Hus) as (y & m & d & Ec & Hv & Hdays & Hy & Hm & Hd).
  set (secs := us / 1000000) in *. set (t := secs mod 86400). set (f := us mod 1000000).
  assert (0 ≤ t < 86400) as Ht by (by apply Z.mod_pos_bound).
  assert (0 ≤ f < 1000000) as Hf by (by apply Z.mod_pos_bound).
  assert (0 ≤ t / 3600 ≤ 23 ∧ 0 ≤ t / 60 mod 60 ≤ 59 ∧ 0 ≤ t mod 60 ≤ 59) as (Hh & Hmi & Hs)
    by (Z.to_euclidean_division_equations; lia).
  destruct (pad_digits 4 y) as (LY & DY & VY); [done|lia|].
  destruct (pad_digits 2 m) as (LM & DM & VM); [done|lia|].
  destruct (pad_digits 2 d) as (LD & DD & VD); [done|lia|].
  destruct (pad_digits 2 (t / 3600)) as (LH & DH & VH); [cbn; lia|lia|].
  destruct (pad_digits 2 (t / 60 mod 60)) as (LI & DI & VI); [cbn; lia|lia|].
  destruct (pad_digits 2 (t mod 60)) as (LS & DS & VS); [cbn; lia|lia|].
  destruct (pad_digits 6 f) as (LF & DF & VF); [done|lia|].
  set (F := if f =? 0 then [] else explode (pad 6 f)).
  assert (Forall (λ c, is_digit c = true) F) as HFd by (subst F; destruct (f =? 0); [constructor|done]).
  assert (F = [] ∨ length F = 6%nat) as HF by (subst F; destruct (f =? 0); auto).
  assert (digits_value 0 F = f) as HFv
    by (subst F; destruct (f =? 0) eqn:E; [apply Z.eqb_eq in E; by rewrite E|done]).
  exists (stamp_body (explode (pad 4 y)) (explode (pad 2 m)) (explode (pad 2 d))
    (explode (pad 2 (t / 3600))) (explode (pad 2 (t / 60 mod 60))) (explode (pad 2 (t mod 60))) F).
  split_and!.
  - by apply stamp_body_plain.
  - unfold isoformat_utc. fold secs. rewrite Ec. fold t f. rewrite !explode_app.
    unfold stamp_body, stamp_date, stamp_time, stamp_frac. subst F. rewrite <-!app_assoc. cbn [app].
    repeat (f_equal; rewrite <-?app_assoc; cbn [app]).
    destruct (f =? 0); [done|]. rewrite explode_app. destruct (explode (pad 6 f)); [done|done].
  - intros tz Htz. unfold stamp_body. rewrite <-app_assoc. cbn [app].
    pose proof (fromisoformat_stamp (explode (pad 4 y)) (explode (pad 2 m)) (explode (pad 2 d))
      (explode (pad 2 (t / 3600))) (explode (pad 2 (t / 60 mod 60))) (explode (pad 2 (t mod 60))) F tz) as Hst.
    unfold stamp in Hst. rewrite Hst; rewrite ?VY, ?VM, ?VD, ?VH, ?VI, ?VS, ?HFv; try done; try lia.
    f_equal. f_equal. rewrite Hdays. unfold DAY_US. subst t f secs.
    Z.to_euclidean_division_equations. lia.
Qed.

Lemma iso_z_body us body :
  Forall (λ c, plain c = true) body → explode (isoformat_utc us) = body ++ explode "+00:00" →
  iso_z us = implode (body ++ ["Z"%char]).
Proof.
  intros Hp Hb. unfold iso_z, replace, len. f_equal. rewrite Hb, replace_plain; [done..|].
  rewrite length_app. lia.
Qed.

(** What [isoformat] writes in UTC, [fromisoformat] reads back. *)
Lemma iso_roundtrip us :
  0 ≤ us ≤ DATETIME_MAX_US → fromisoformat (iso_z us) = Ret (DateTime us (Some 0)).
Proof.
  intros Hus. destruct (iso_shape us Hus) as (body & Hp & Hb & Hr).
  rewrite (iso_z_body us body) by done. apply Hr. by left.
Qed.

(** The same after the zone has been spelled out again. *)
Lemma iso_zone_roundtrip us :
  0 ≤ us ≤ DATETIME_MAX_US → fromisoformat (replace "Z" "+00:00" (iso_z us)) = Ret (DateTime us (Some 0)).
Proof.
  intros Hus. destruct (iso_shape us Hus) as (body & Hp & Hb & Hr).
  rewrite (iso_z_body us body) by done. unfold replace, len. rewrite explode_implode, replace_zone; [|done|rewrite length_app; lia].
  apply Hr. by right.
Qed.

Lemma iso_z_nonempty us : iso_z us ≠ EmptyString.
Proof.
  unfold iso_z, replace. intros E. apply (f_equal explode) in E. rewrite explode_implode in E.
  destruct (explode (isoformat_utc us)) as [|c l] eqn:Es.
  - unfold isoformat_utc in Es. destruct (civil_of_days _) as [[y m] d]. rewrite !explode_app in Es.
    apply app_eq_nil in Es as [_ Es]. done.
  - cbn [replace_chars] in E. by destruct (is_prefix_of _ _).
Qed.

(** ** Timestamps of the API server sort as strings the way they sort in time *)

(** ** Digits of the same width *)

Lemma digits_value_bounds l acc :
  Forall (λ c, is_digit c = true) l →
  acc * 10 ^ Z.of_nat (length l) ≤ digits_value acc l < (acc + 1) * 10 ^ Z.of_nat (length l).
Proof.
  revert acc. induction l as [|c l IH]; intros acc Hd; [cbn; lia|]. apply Forall_cons in Hd as [Hc Hd].
  change (digits_value acc (c :: l)) with (digits_value (acc * 10 + Z.of_N (code c - 48)) l).
  specialize (IH (acc * 10 + Z.of_N (code c - 48)) Hd). cbn [length]. rewrite Nat2Z.inj_succ, Z.pow_succ_r by lia.
  assert (0 ≤ Z.of_N (code c - 48) ≤ 9).
  { clear -Hc. unfold is_digit, in_range in Hc. bool_prop. lia. }
  assert (0 < 10 ^ Z.of_nat (length l)) by lia. nia.
Qed.

Lemma chars_lt_prefix p a b : chars_lt (p ++ a) (p ++ b) = chars_lt a b.
Proof.
  induction p as [|c p IH]; [done|]. cbn. rewrite N.ltb_irrefl, N.eqb_refl. done.
Qed.

Lemma digits_lt l l' acc r r' :
  length l = length l' → Forall (λ c, is_digit c = true) l → Forall (λ c, is_digit c = true) l' →
  digits_value acc l < digits_value acc l' → chars_lt (l ++ r) (l' ++ r') = true.
Proof.
  revert l' acc. induction l as [|c l IH]; intros [|c' l'] acc Hlen Hd Hd' Hv; try done; [cbn in Hv; lia|].
  apply Forall_cons in Hd as [Hc Hd], Hd' as [Hc' Hd']. injection Hlen as Hlen. cbn [app chars_lt].
  destruct (code c <? code c')%N eqn:E1; [done|]. destruct (code c =? code c')%N eqn:E2; bool_prop.
  - apply (IH l' (acc * 10 + Z.of_N (code c - 48))); [done..|]. cbn in Hv. by rewrite E2 in Hv |- *.
  - exfalso. unfold digits_value in Hv. cbn [foldl] in Hv. fold (digits_value) in Hv.
    pose proof (digits_value_bounds l (acc * 10 + Z.of_N (code c - 48)) Hd) as H1.
    pose proof (digits_value_bounds l' (acc * 10 + Z.of_N (code c' - 48)) Hd') as H2.
    unfold digits_value in H1, H2. rewrite Hlen in H1.
    assert (0 < 10 ^ Z.of_nat (length l')) by lia.
    unfold is_digit, in_range in Hc, Hc'. bool_prop. nia.
Qed.

Lemma pad_lt n a b r r' :
  (1 ≤ n)%nat → 0 ≤ a → a < b → b < 10 ^ Z.of_nat n →
  chars_lt (explode (pad n a) ++ r) (explode (pad n b) ++ r') = true.
Proof.
  intros Hn Ha Hab Hb. destruct (pad_digits n a) as (L & D & V); [lia|done|].
  destruct (pad_digits n b) as (L' & D' & V'); [lia|done|]. eapply (digits_lt _ _ 0); try done; congruence || lia.
Qed.

(** ** Dates *)

Lemma days_of_civil_closed y m d :
  days_of_civil y m d =
    let y' := if m <=? 2 then y - 1 else y in
    let mp := if m <=? 2 then m + 9 else m - 3 in
    365 * y' + y' / 4 - y' / 100 + y' / 400 + (153 * mp + 2) / 5 + d - 1 - 306.
Proof.
  unfold days_of_civil. cbv zeta. generalize (if m <=? 2 then y - 1 else y) as z.
  generalize ((153 * (if m <=? 2 then m + 9 else m - 3) + 2) / 5) as e. intros e z.
  Z.to_euclidean_division_equations. lia.
Qed.

Lemma day_of_month y m d : days_of_civil y m d = days_of_civil y m 1 + (d - 1).
Proof. unfold days_of_civil. cbv zeta. lia. Qed.

Lemma leap_days y :
  y / 4 - y / 100 + y / 400 =
    (y - 1) / 4 - (y - 1) / 100 + (y - 1) / 400 + (if is_leap y then 1 else 0).
Proof.
  unfold is_leap.
  destruct (y mod 4 =? 0) eqn:E4, (y mod 100 =? 0) eqn:E1, (y mod 400 =? 0) eqn:E0; cbn; bool_prop;
    Z.to_euclidean_division_equations; lia.
Qed.

(** Evaluate the tests and day counts of a known month. *)
Ltac known_month :=
  repeat match goal with
  | |- context [?a <=? ?b] => let v := eval vm_compute in (a <=? b) in progress change (a <=? b) with v
  | H : context [?a =? ?b] |- _ => let v := eval vm_compute in (a =? b) in progress change (a =? b) with v in H
  end; cbv iota beta zeta in *;
  repeat match goal with |- context [(153 * ?a + 2) / 5] =>
    let v := eval vm_compute in ((153 * a + 2) / 5) in progress change ((153 * a + 2) / 5) with v end.

(** A day of a month comes before the first of the next month. *)
Lemma month_end y m d :
  1 ≤ m ≤ 11 → d ≤ days_in_month y m → days_of_civil y m d < days_of_civil y (m + 1) 1.
Proof.
  intros Hm Hd. rewrite !days_of_civil_closed. pose proof (leap_days y) as Hl.
  assert (m = 1 ∨ m = 2 ∨ m = 3 ∨ m = 4 ∨ m = 5 ∨ m = 6 ∨ m = 7 ∨ m = 8 ∨ m = 9 ∨ m = 10 ∨ m = 11) as Hc by lia.
  destruct Hc as [->|[->|[->|[->|[->|[->|[->|[->|[->|[->| ->]]]]]]]]]];
    unfold days_in_month in Hd; known_month; destruct (is_leap y); cbn [orb] in Hd; lia.
Qed.

Lemma year_end y d : d ≤ 31 → days_of_civil y 12 d < days_of_civil (y + 1) 1 1.
Proof. intros Hd. rewrite !days_of_civil_closed. known_month. replace (y + 1 - 1) with y by lia. lia. Qed.

Lemma month_starts y m m' : 1 ≤ m ≤ m' → m' ≤ 12 → days_of_civil y m 1 ≤ days_of_civil y m' 1.
Proof.
  intros Hm Hm'. assert (∃ k : nat, m' = m + Z.of_nat k) as [k ->] by (exists (Z.to_nat (m' - m)); lia).
  induction k as [|k IH]; [by rewrite Z.add_0_r|]. etrans; [apply IH; lia|].
  replace (m + Z.of_nat (S k)) with (m + Z.of_nat k + 1) by lia. apply Z.lt_le_incl, month_end; [lia|].
  unfold days_in_month. repeat case_match; lia.
Qed.

Lemma year_starts y y' : y ≤ y' → days_of_civil y 1 1 ≤ days_of_civil y' 1 1.
Proof.
  intros Hy. rewrite !days_of_civil_closed. known_month.
  Z.to_euclidean_division_equations. lia.
Qed.

(** The order of dates field by field *)
Definition date_lt (a b : Z * Z * Z) : Prop :=
  let '(y, m, d) := a in let '(y', m', d') := b in
  y < y' ∨ (y = y' ∧ m < m') ∨ (y = y' ∧ m = m' ∧ d < d').

Lemma days_of_civil_mono y m d y' m' d' :
  1 ≤ m ≤ 12 → 1 ≤ d ≤ days_in_month y m → 1 ≤ m' ≤ 12 → 1 ≤ d' →
  date_lt (y, m, d) (y', m', d') → days_of_civil y m d < days_of_civil y' m' d'.
Proof.
  intros Hm Hd Hm' Hd' [Hy|[[<- Hlt]|(<- & <- & Hlt)]].
  - pose proof (days_in_month_le y m). assert (days_of_civil y m d < days_of_civil (y + 1) 1 1).
    { destruct (decide (m = 12)) as [->|]; [by apply year_end; lia|].
      eapply Z.lt_le_trans; [apply month_end; lia|].
      etrans; [apply (month_starts y (m + 1) 12); lia|]. apply Z.lt_le_incl, year_end. lia. }
    pose proof (year_starts (y + 1) y' ltac:(lia)). pose proof (month_starts y' 1 m' ltac:(lia) ltac:(lia)).
    rewrite (day_of_month y' m' d'). lia.
  - pose proof (month_end y m d ltac:(lia) ltac:(lia)).
    pose proof (month_starts y (m + 1) m' ltac:(lia) ltac:(lia)).
    rewrite (day_of_month y m' d'). lia.
  - rewrite (day_of_month y m d), (day_of_month y m d'). lia.
Qed.

Lemma civil_of_days_mono a b : a < b → date_lt (civil_of_days a) (civil_of_days b).
Proof.
  intros Hab. destruct (civil_of_days a) as [[y m] d] eqn:Ea, (civil_of_days b) as [[y' m'] d'] eqn:Eb.
  apply civil_roundtrip in Ea as (Ra & Hm & Hd), Eb as (Rb & Hm' & Hd').
  destruct (decide (y < y')) as [|Hy]; [by left|].
  destruct (decide (y = y' ∧ m < m')) as [|Hmn]; [by right; left|].
  destruct (decide (y = y' ∧ m = m' ∧ d < d')) as [|Hdn]; [by right; right|exfalso].
  destruct (decide ((y, m, d) = (y', m', d'))) as [[= -> -> ->]|Hne]; [lia|].
  assert (date_lt (y', m', d') (y, m, d)) as Hlt.
  { cbn. destruct (decide (y' < y)); [by left|]. assert (y = y') as -> by lia.
    destruct (decide (m' < m)); [by right; left|]. assert (m = m') as -> by lia.
    right; right. split_and!; [done..|]. assert (d ≠ d') by congruence. lia. }
  apply days_of_civil_mono in Hlt; lia.
Qed.

(** ** Timestamps *)

(** The later of two instants, in whole seconds, has the greater timestamp. *)
Lemma format_utc_mono a b :
  0 ≤ a ≤ DATETIME_MAX_US → 0 ≤ b ≤ DATETIME_MAX_US → a / 1000000 < b / 1000000 →
  str_lt (format_utc a) (format_utc b) = true.
Proof.
  intros Ha Hb Hab. destruct (instant_fields a Ha) as (y & m & d & Ea & _ & _ & Hy & Hm & Hd).
  destruct (instant_fields b Hb) as (y' & m' & d' & Eb & _ & _ & Hy' & Hm' & Hd').
  unfold str_lt, format_utc. set (s := a / 1000000) in *. set (s' := b / 1000000) in *.
  assert (s / 86400 < s' / 86400 ∨ s / 86400 = s' / 86400 ∧ s mod 86400 < s' mod 86400) as Hs
    by (Z.to_euclidean_division_equations; lia).
  destruct Hs as [Hdays|[Hdays Htime]].
  - pose proof (civil_of_days_mono _ _ Hdays) as Hlt. rewrite Ea, Eb in Hlt |- *. rewrite !explode_app.
    destruct Hlt as [H|[[<- H]|(<- & <- & H)]]; rewrite ?chars_lt_prefix; apply pad_lt; lia || done.
  - rewrite Hdays, Eb, !explode_app, !chars_lt_prefix. set (t := s mod 86400) in *. set (t' := s' mod 86400) in *.
    assert (0 ≤ t < 86400 ∧ 0 ≤ t' < 86400) as [Ht Ht'] by (split; by apply Z.mod_pos_bound).
    assert (t / 3600 < t' / 3600 ∨ t / 3600 = t' / 3600 ∧ t / 60 mod 60 < t' / 60 mod 60 ∨
            t / 3600 = t' / 3600 ∧ t / 60 mod 60 = t' / 60 mod 60 ∧ t mod 60 < t' mod 60) as Hc
      by (Z.to_euclidean_division_equations; lia).
    assert (0 ≤ t / 3600 ∧ t' / 3600 < 100 ∧ 0 ≤ t / 60 mod 60 ∧ t' / 60 mod 60 < 100 ∧
            0 ≤ t mod 60 ∧ t' mod 60 < 100) as (? & ? & ? & ? & ? & ?)
      by (Z.to_euclidean_division_equations; lia).
    destruct Hc as [Hf|[[E Hf]|(E & E' & Hf)]]; rewrite ?E, ?E', ?chars_lt_prefix; apply pad_lt; lia || done.
Qed.
