(* ===== verification/Budget.v ===== *)
(** Splitting a budget over weighted clusters and sizing warm pools.

    Models [src/examples/multi-cluster-fleet/python/agent_sandbox_fleet]'s
    [budget.py] and [sizing.py], whose originals are [_split_budget] in
    [fleet.py] and [compute_replicas] in [sizing.py] of
    [src/examples/agent-sandbox-rl/agent_sandbox_rl]. Weights are binary64
    floats; the sum of the weights is a parameter [fsum], since Python 3.12
    changed it, and the theorems hold for any accurate one. *)

From Stdlib Require Import String ZArith QArith Qabs Qround Lqa Lia.
From stdpp Require Import base option list strings sets.
From S2P Require Import Prelude Float Json PyList.

#[local] Open Scope Z_scope.

(** [mapM] over a list, left to right *)
Fixpoint traverse {A B} (f : A → outcome B) (l : list A) : outcome (list B) :=
  match l with
  | [] => Ret []
  | a :: l' => b ← f a; bs ← traverse f l'; Ret (b :: bs)
  end.

Fixpoint zsum (l : list Z) : Z := match l with [] => 0 | z :: l' => z + zsum l' end.
Fixpoint qsum (l : list Q) : Q := match l with [] => 0 | q :: l' => q + qsum l' end%Q.

(** [alloc[k] += 1] *)
Definition bump (alloc : list (string * Z)) (k : string) : list (string * Z) :=
  dset k (default 0 (dget k alloc) + 1) alloc.

(** The allocation of [total] by largest remainders, from the quotas [ideal]. *)
Definition ideal_share (total : Z) (tw : pyfloat) (kw : string * pyfloat) : outcome (string * pyfloat) :=
  q ← fdiv kw.2 tw; t ← float_of_int total; Ret (kw.1, fmul t q).

(** [ideal[k] - alloc[k]] *)
Definition remainder_of (e : string * pyfloat * Z) : pyfloat :=
  match float_of_int e.2 with
  | Ret a => fsub e.1.2 a
  | _ => PNaN
  end.

Definition distribute (total : Z) (ideal : list (string * pyfloat)) : outcome (list (string * Z)) :=
  floors ← traverse ffloor ideal.*2;
  let alloc := zip ideal.*1 floors in
  let remainder := total - zsum floors in
  let order := sorted_reverse (λ a b, flt (remainder_of a) (remainder_of b)) (zip ideal floors) in
  Ret (foldl bump alloc (slice_to remainder order).*1.*1).

Section split.
Context (fsum : list pyfloat → pyfloat).

(** [_split_budget] of the reinforcement-learning fleet *)
Definition split_budget (total : Z) (weights : list (string * pyfloat)) : outcome (list (string * Z)) :=
  match weights with
  | [] => Ret []
  | [(k, _)] => Ret [(k, total)]
  | _ => ideal ← traverse (ideal_share total (fsum weights.*2)) weights; distribute total ideal
  end.

Definition bad_weight (w : pyfloat) : bool := negb (isfinite w) || flt w (PFin 0).

(** The recursive call on equal weights does not recurse again: their sum is
    their number. *)
Definition hamilton_split (total : Z) (weights : list (string * pyfloat)) : outcome (list (string * Z)) :=
  match weights with
  | [] => Ret []
  | _ =>
      if existsb bad_weight weights.*2 then Raise ValueError
      else match weights with
           | [(k, _)] => Ret [(k, total)]
           | _ =>
               if feq (fsum weights.*2) (PFin 0)
               then split_budget total ((λ kw, (kw.1, PFin 1)) <$> weights)
               else split_budget total weights
           end
  end.
End split.

(** ** [sizing.py] *)

Definition compute_replicas (tasks_image tasks_total max_concurrent max_pool buffer : Z)
    (per_task : bool) : outcome Z :=
  if tasks_image <=? 0 then Ret 0
  else if per_task then Ret (Z.min tasks_image max_pool)
  else
    let tasks_total := if tasks_total <=? 0 then tasks_image else tasks_total in
    share ← int_truediv (max_concurrent * tasks_image) tasks_total;
    r ← fround share;
    let replicas := Z.max 1 r + Z.max 0 buffer in
    Ret (Z.min (Z.min replicas tasks_image) max_pool).
