(* ===== verification/BudgetProofs.v ===== *)
(** The budget split sums to its total and respects quotas; the compensated and
    the plain sum are accurate enough; warm pools stay within their bounds and
    overshoot a budget by less than one replica per pool. *)

From Stdlib Require Import String ZArith QArith Qabs Qround Lqa Lia.
From stdpp Require Import base option list strings sets.
From S2P Require Import Prelude Float Json PyList Budget.

#[local] Open Scope Z_scope.

(** ** Lists of numbers *)

Lemma zsum_app l l' : zsum (l ++ l') = zsum l + zsum l'.
Proof. induction l as [|a l IH]; cbn; [done|]. rewrite IH. lia. Qed.

Lemma zsum_perm l l' : l ≡ₚ l' → zsum l = zsum l'.
Proof. induction 1; cbn; lia. Qed.

Lemma zsum_le l l' : Forall2 Z.le l l' → zsum l ≤ zsum l'.
Proof. induction 1; cbn; lia. Qed.

Lemma zsum_nonneg l : Forall (λ z, 0 ≤ z) l → 0 ≤ zsum l.
Proof. induction 1; cbn; lia. Qed.

Lemma qsum_nonneg l : Forall (λ q, 0 <= q)%Q l → (0 <= qsum l)%Q.
Proof. induction 1 as [|q l Hq Hl IH]; cbn; [done|lra]. Qed.

Lemma qsum_le l l' : Forall2 Qle l l' → (qsum l <= qsum l')%Q.
Proof. induction 1 as [|q q' l l' Hq Hl IH]; cbn; [lra|lra]. Qed.

Lemma qsum_scale c l : (qsum ((λ q, c * q) <$> l) == c * qsum l)%Q.
Proof. induction l as [|q l IH]; cbn; [lra|]. rewrite IH. lra. Qed.

Lemma qsum_elem q l : Forall (λ q, 0 <= q)%Q l → q ∈ l → (q <= qsum l)%Q.
Proof.
  induction 1 as [|q' l Hq Hl IH]; [by intros ?%elem_of_nil|].
  apply qsum_nonneg in Hl. intros [->|Hin]%elem_of_cons; cbn; [lra|]. specialize (IH Hin). lra.
Qed.

Lemma traverse_Forall2 {A B} (f : A → outcome B) l bs :
  traverse f l = Ret bs ↔ Forall2 (λ a b, f a = Ret b) l bs.
Proof.
  revert bs. induction l as [|a l IH]; intros bs; cbn.
  - split; [intros [= <-]; constructor|by inversion 1].
  - unfold mbind, outcome_bind. split.
    + destruct (f a) eqn:E; [|done|done]. destruct (traverse f l) eqn:El; [|done|done].
      intros [= <-]. constructor; [done|]. by apply IH.
    + inversion 1 as [|? b ? bs' Hb Hbs]; subst. rewrite Hb. apply IH in Hbs. by rewrite Hbs.
Qed.

Lemma traverse_total {A B} (f : A → outcome B) (P : A → B → Prop) l :
  (∀ a, a ∈ l → ∃ b, f a = Ret b ∧ P a b) →
  ∃ bs, traverse f l = Ret bs ∧ Forall2 P l bs.
Proof.
  induction l as [|a l IH]; intros H; [exists []; split; [done|constructor]|].
  destruct (H a) as (b & Hb & HP); [by left|].
  destruct IH as (bs & Hbs & HPs); [intros; apply H; by right|].
  exists (b :: bs). cbn. unfold mbind, outcome_bind. rewrite Hb, Hbs. split; [done|by constructor].
Qed.

(** ** Incrementing entries *)

Section bump.
Implicit Type d : list (string * Z).

Lemma dset_keys k v d : k ∈ d.*1 → (dset k v d).*1 = d.*1.
Proof.
  induction d as [|[k' v'] d IH]; cbn; [by intros ?%elem_of_nil|].
  intros Hk. case_decide; cbn; [done|]. f_equal. apply IH. set_solver.
Qed.

Lemma dset_zsum k v d a : dget k d = Some a → zsum (dset k v d).*2 = zsum d.*2 + (v - a).
Proof.
  induction d as [|[k' v'] d IH]; cbn; [done|]. case_decide; cbn.
  - intros [= ->]. lia.
  - intros H'. rewrite IH by done. lia.
Qed.

Lemma dget_is_Some k d : k ∈ d.*1 → ∃ a, dget k d = Some a.
Proof.
  intros Hk. destruct (dget k d) as [a|] eqn:E; [eauto|]. by apply dget_None in E.
Qed.

Lemma foldl_bump ks d :
  NoDup ks → (∀ k, k ∈ ks → k ∈ d.*1) →
  (foldl bump d ks).*1 = d.*1 ∧
  zsum (foldl bump d ks).*2 = zsum d.*2 + Z.of_nat (length ks) ∧
  ∀ k a, dget k d = Some a →
    dget k (foldl bump d ks) = Some (a + if decide (k ∈ ks) then 1 else 0).
Proof.
  revert d. induction ks as [|k ks IH]; intros d Hnd Hin; cbn [foldl].
  { cbn. split_and!; [done|lia|]. intros k a Hk. rewrite decide_False by (by intros ?%elem_of_nil).
    rewrite Hk. f_equal. lia. }
  inversion_clear Hnd as [|? ? Hk Hnd'].
  destruct (dget_is_Some k d) as [a Ha]; [apply Hin; by left|].
  assert ((bump d k).*1 = d.*1) as Hkeys by (apply dset_keys, Hin; by left).
  destruct (IH (bump d k)) as (H1 & H2 & H3); [done|rewrite Hkeys; intros; apply Hin; by right|].
  split_and!.
  - by rewrite H1.
  - rewrite H2. unfold bump. rewrite Ha, (dset_zsum _ _ _ a) by done. cbn. lia.
  - intros k' a' Hk'. destruct (decide (k' = k)) as [->|Hne].
    + assert (a' = a) as -> by congruence.
      rewrite (H3 k (a + 1)) by (unfold bump; rewrite dget_dset_eq, Ha; done).
      rewrite (decide_False (P := k ∈ ks)), (decide_True (P := k ∈ k :: ks)) by set_solver.
      f_equal. lia.
    + rewrite (H3 k' a') by (unfold bump; by rewrite dget_dset_ne).
      f_equal. f_equal. destruct (decide (k' ∈ ks)), (decide (k' ∈ k :: ks)); set_solver.
Qed.
End bump.

(** ** Distribution by largest remainders *)

Section distribute.
Implicit Types (ideal : list (string * pyfloat)).

(** If the floors of the quotas leave between 0 and [n] units, the allocation
    sums to the total and every key gets its floor or one more. *)
Lemma distribute_spec total ideal floors :
  traverse ffloor ideal.*2 = Ret floors → NoDup ideal.*1 →
  0 ≤ total - zsum floors ≤ Z.of_nat (length ideal) →
  ∃ alloc, distribute total ideal = Ret alloc ∧ alloc.*1 = ideal.*1 ∧ zsum alloc.*2 = total ∧
    ∀ k f, (k, f) ∈ zip ideal.*1 floors → ∃ b, (b = 0 ∨ b = 1) ∧ dget k alloc = Some (f + b).
Proof.
  intros Hf Hnd Hrem. unfold distribute. unfold mbind, outcome_bind. rewrite Hf.
  apply traverse_Forall2 in Hf as Hf2. apply Forall2_length in Hf2 as Hlen. rewrite length_fmap in Hlen.
  set (order := sorted_reverse _ _).
  assert (order ≡ₚ zip ideal floors) as Hperm by apply sorted_perm.
  assert (length order = length ideal) as Holen
    by (rewrite Hperm, length_zip_with; lia).
  assert (order.*1.*1 ≡ₚ ideal.*1) as Hkeys.
  { rewrite Hperm, fst_zip by lia. done. }
  set (ks := (slice_to _ order).*1.*1).
  assert (ks `prefix_of` order.*1.*1) as Hpre.
  { subst ks. rewrite slice_to_nonneg by lia. rewrite !fmap_take. apply prefix_take. }
  assert (NoDup ks) as Hks.
  { destruct Hpre as [tl Htl]. rewrite <-Hkeys, Htl in Hnd. by apply NoDup_app in Hnd as (? & _). }
  assert (length ks = Z.to_nat (total - zsum floors)) as Hklen.
  { subst ks. rewrite slice_to_nonneg by lia. rewrite !length_fmap, length_take. lia. }
  assert ((zip ideal.*1 floors).*1 = ideal.*1) as Hzk by (apply fst_zip; rewrite length_fmap; lia).
  assert ((zip ideal.*1 floors).*2 = floors) as Hzs by (apply snd_zip; rewrite length_fmap; lia).
  destruct (foldl_bump ks (zip ideal.*1 floors)) as (H1 & H2 & H3); [done| |].
  { intros k Hk. rewrite Hzk, <-Hkeys. destruct Hpre as [tl Htl]. rewrite Htl. set_solver. }
  eexists. split; [done|]. rewrite H1, H2, Hzk, Hzs, Hklen.
  split_and!; [done|lia|]. intros k f Hkf.
  exists (if decide (k ∈ ks) then 1 else 0). split; [case_decide; auto|]. apply H3.
  apply dget_elem_of; [by rewrite Hzk|done].
Qed.
End distribute.

(** ** Accuracy of the sum of the weights *)

#[local] Open Scope Q_scope.

Lemma round64_bound q B :
  Qabs q <= B → B <= pow2 1023 →
  ∃ v, round64 q = PFin v ∧ Qabs (v - q) <= unit_roundoff * B + underflow.
Proof.
  intros Hq HB. destruct (round64_finite q) as [v Hv]; [lra|]. exists v. split; [done|].
  apply round64_err in Hv. assert (0 < unit_roundoff) by apply pow2_pos.
  assert (unit_roundoff * Qabs q <= unit_roundoff * B) by (by apply Qmult_le_l). lra.
Qed.

(** A float and its value. *)
Definition denotes (x : pyfloat) (q : Q) : Prop := x = PFin q.

(** A non-negative weight far from overflow. *)
Definition ordinary (w : pyfloat) : Prop := ∃ q, w = PFin q ∧ 0 <= q ∧ q <= pow2 1000.

Definition fval (x : pyfloat) : Q := match x with PFin q => q | _ => 0 end.

Lemma fval_nonneg l : Forall ordinary l → Forall (λ q, 0 <= q) (fval <$> l).
Proof. induction 1 as [|x l (q & -> & Hq & _) Hl IH]; constructor; done. Qed.

Lemma fval_sum_nonneg l : Forall ordinary l → 0 <= qsum (fval <$> l).
Proof. intros H. by apply qsum_nonneg, fval_nonneg. Qed.

Lemma fval_sum_bound l :
  Forall ordinary l → qsum (fval <$> l) <= inject_Z (Z.of_nat (length l)) * pow2 1000.
Proof.
  induction 1 as [|x l (q & -> & Hq & Hq') Hl IH].
  - change (0 <= 0 * pow2 1000). lra.
  - rewrite fmap_cons. cbn [qsum fval length]. rewrite Nat2Z.inj_succ, <-Z.add_1_l, inject_Z_plus.
    change (inject_Z 1) with 1. lra.
Qed.

(** What the split needs of [sum]: a relative error of [2^-37] unless the
    weights are all tiny, and no noise on zeros. *)
Definition accurate_sum (fsum : list pyfloat → pyfloat) : Prop := ∀ l,
  Forall ordinary l → (length l ≤ 1024)%nat →
  (pow2 (-900) <= qsum (fval <$> l) →
     ∃ v, fsum l = PFin v ∧ Qabs (v - qsum (fval <$> l)) <= pow2 (-37) * qsum (fval <$> l)) ∧
  (Forall (λ x, x = PFin 0) l → fsum l = PFin 0).

Section sums.
(** [W] is the exact sum of the whole list. *)
Context (W : Q) (HW : pow2 (-900) <= W) (HW' : W <= pow2 1010).

Definition step_err : Q := 16 * (unit_roundoff * W).

Lemma W_pos : 0 < W.
Proof. pose proof (pow2_pos (-900)). lra. Qed.

Lemma roundoff_W_pos : 0 < unit_roundoff * W.
Proof. apply Qmult_lt_0_compat; [apply pow2_pos|apply W_pos]. Qed.

Lemma underflow_small : underflow <= unit_roundoff * W.
Proof.
  apply Qle_trans with (unit_roundoff * pow2 (-900)); [by vm_compute|].
  apply Qmult_le_l; [apply pow2_pos|done].
Qed.

Lemma steps_small k : (k ≤ 1024)%nat → inject_Z (Z.of_nat k) * step_err <= (1 # 4) * W.
Proof.
  intros Hk. unfold step_err. pose proof roundoff_W_pos.
  apply Qle_trans with (1024 * (16 * (unit_roundoff * W))).
  - apply Qmult_le_compat_r; [|lra]. change 1024 with (inject_Z 1024). rewrite <-Zle_Qle. lia.
  - assert (unit_roundoff <= 1 # 65536) as Hu by (by vm_compute). pose proof W_pos.
    assert (unit_roundoff * W <= (1 # 65536) * W) by (apply Qmult_le_compat_r; lra). lra.
Qed.

(** One rounding of a number of size at most [2 * W]. *)
Lemma fl_W q : Qabs q <= 2 * W →
  ∃ v, round64 q = PFin v ∧ Qabs (v - q) <= 3 * (unit_roundoff * W).
Proof.
  intros Hq. destruct (round64_bound q (2 * W)) as (v & Hv & He); [done| |].
  - apply Qle_trans with (2 * pow2 1010); [lra|by vm_compute].
  - exists v. split; [done|]. pose proof underflow_small. lra.
Qed.

Lemma succ_steps k : inject_Z (Z.of_nat (S k)) == inject_Z (Z.of_nat k) + 1.
Proof. rewrite Nat2Z.inj_succ, <-Z.add_1_r, inject_Z_plus. reflexivity. Qed.

(** The running sum after [k] elements of exact sum [P]. *)
Definition near (k : nat) (P s : Q) : Prop :=
  0 <= s ∧ Qabs (s - P) <= inject_Z (Z.of_nat k) * step_err.

Ltac abs_cond := repeat match goal with
  | H : Qabs _ <= _ |- _ => apply Qabs_Qle_condition in H; destruct H
  | |- Qabs _ <= _ => apply Qabs_Qle_condition; split
  end.

Lemma fadd_near k P s x :
  (k ≤ 1024)%nat → near k P s → 0 <= x → 0 <= P → P + x <= W →
  ∃ t, fadd (PFin s) (PFin x) = PFin t ∧ near (S k) (P + x) t ∧
    Qabs (t - (s + x)) <= 3 * (unit_roundoff * W).
Proof.
  intros Hk [Hs Hn] Hx HP HPx. pose proof (steps_small k Hk) as Hst.
  destruct (fl_W (s + x)) as (t & Ht & He).
  { rewrite Qabs_pos by lra. abs_cond. lra. }
  exists t. split; [done|]. split; [|done]. split.
  - eapply round64_nonneg; [|exact Ht]. lra.
  - pose proof roundoff_W_pos. unfold step_err in *.
    rewrite succ_steps. abs_cond; lra.
Qed.

Lemma sum_left_near l : ∀ k P s,
  (k + length l ≤ 1024)%nat → near k P s → Forall ordinary l → 0 <= P → P + qsum (fval <$> l) <= W →
  ∃ t, foldl fadd (PFin s) l = PFin t ∧ near (k + length l) (P + qsum (fval <$> l)) t.
Proof.
  induction l as [|x l IH]; intros k P s Hk Hn Hl HP HW2.
  { exists s. split; [done|]. cbn. rewrite Nat.add_0_r. destruct Hn as [Hs Hn].
    split; [done|]. assert (s - (P + 0) == s - P) as -> by lra. done. }
  apply Forall_cons in Hl as [(q & -> & Hq & _) Hl].
  rewrite fmap_cons in *. cbn [qsum fval foldl length] in *.
  pose proof (fval_sum_nonneg l Hl).
  destruct (fadd_near k P s q) as (t & Ht & Hnt & _); [lia|done|done|done|lra|].
  rewrite Ht. destruct (IH (S k) (P + q) t) as (t' & Ht' & Hnt'); [lia|done|done|lra|lra|].
  exists t'. split; [done|]. replace (k + S (length l))%nat with (S k + length l)%nat by lia.
  destruct Hnt' as [? Hnt']. split; [done|].
  assert (t' - (P + (q + qsum (fval <$> l))) == t' - (P + q + qsum (fval <$> l))) as -> by lra. done.
Qed.

(** The compensation: every correction is small. *)
Lemma correction_small s x t a b :
  0 <= s → 0 <= x → s + x <= 2 * W → Qabs (t - (s + x)) <= 3 * (unit_roundoff * W) →
  unit_roundoff * W <= (1 # 64) * W →
  (a = s ∧ b = x) ∨ (a = x ∧ b = s) → a <= W + (1 # 2) * W → b <= W + (1 # 2) * W →
  ∃ d, fadd (fsub (PFin a) (PFin t)) (PFin b) = PFin d ∧ Qabs d <= 10 * (unit_roundoff * W).
Proof.
  intros Hs Hx Hsx Ht Hu Hab Ha Hb. pose proof roundoff_W_pos as Hpos. pose proof W_pos as HWp.
  assert (Qabs (a - t + b) <= 3 * (unit_roundoff * W)) as Htab
    by (destruct Hab as [[-> ->]|[-> ->]]; abs_cond; lra).
  assert (0 <= b) by (destruct Hab as [[-> ->]|[-> ->]]; done).
  destruct (fl_W (a + Qred (- t))) as (v & Hv & Hve).
  { rewrite Qred_correct. abs_cond; lra. }
  destruct (fl_W (v + b)) as (d & Hd & Hde).
  { rewrite Qred_correct in Hve. abs_cond; lra. }
  exists d. unfold fsub, fneg. cbn [fadd]. rewrite Hv. cbn [fadd]. split; [done|].
  rewrite Qred_correct in Hve. abs_cond; lra.
Qed.

Definition near2 (k : nat) (P : Q) (sc : pyfloat * pyfloat) : Prop :=
  ∃ s c, sc = (PFin s, PFin c) ∧ near k P s ∧ Qabs c <= inject_Z (Z.of_nat k) * step_err.

Lemma small_roundoff : unit_roundoff * W <= (1 # 65536) * W.
Proof. pose proof W_pos. apply Qmult_le_compat_r; [by vm_compute|lra]. Qed.

Lemma neumaier_near k P sc x :
  (k < 1024)%nat → near2 k P sc → 0 <= x → 0 <= P → P + x <= W →
  near2 (S k) (P + x) (neumaier_step sc (PFin x)).
Proof.
  intros Hk (s & c & -> & Hn & Hc) Hx HP HPx. unfold neumaier_step.
  pose proof small_roundoff. pose proof roundoff_W_pos. pose proof W_pos.
  pose proof (steps_small k) as Hst. specialize (Hst ltac:(lia)). pose proof Hn as [Hs Hns].
  destruct (fadd_near k P s x) as (t & Ht & Hnt & Hte); [lia|done|done|done|done|].
  rewrite Ht. set (b := fle _ _).
  destruct (correction_small s x t (if b then s else x) (if b then x else s)) as (d & Hd & Hdb);
    [done|done|abs_cond; lra|done|lra|destruct b; auto|destruct b; abs_cond; lra|destruct b; abs_cond; lra|].
  assert ((if b then fadd (fsub (PFin s) (PFin t)) (PFin x)
           else fadd (fsub (PFin x) (PFin t)) (PFin s)) = PFin d) as -> by (by destruct b).
  destruct (fl_W (c + d)) as (c' & Hc' & Hce); [abs_cond; lra|].
  exists t, c'. split; [cbn [fadd]; by rewrite Hc'|]. split; [done|].
  rewrite succ_steps. unfold step_err in *. abs_cond; lra.
Qed.

Lemma neumaier_fold l : ∀ k P sc,
  (k + length l ≤ 1024)%nat → near2 k P sc → Forall ordinary l → 0 <= P → P + qsum (fval <$> l) <= W →
  near2 (k + length l) (P + qsum (fval <$> l)) (foldl neumaier_step sc l).
Proof.
  induction l as [|x l IH]; intros k P sc Hk Hn Hl HP HW2.
  { cbn. rewrite Nat.add_0_r. destruct Hn as (s & c & -> & [Hs Hn] & Hc). exists s, c.
    split_and!; [done| |done]. split; [done|]. assert (s - (P + 0) == s - P) as -> by lra. done. }
  apply Forall_cons in Hl as [(q & -> & Hq & _) Hl].
  rewrite fmap_cons in *. cbn [qsum fval foldl length] in *.
  pose proof (fval_sum_nonneg l Hl).
  apply neumaier_near with (x := q) in Hn; [|lia|done|done|lra].
  eapply (IH (S k) (P + q)) in Hn as (s & c & Heq & [Hs Hns] & Hc); [|lia|done|lra|lra].
  exists s, c. replace (k + S (length l))%nat with (S k + length l)%nat by lia.
  split_and!; [done| |done]. split; [done|].
  assert (s - (P + (q + qsum (fval <$> l))) == s - (P + q + qsum (fval <$> l))) as -> by lra. done.
Qed.
End sums.

Lemma start_near W : near W 0 0 0.
Proof. split; [lra|]. assert (Qabs (0 - 0) == 0) as -> by reflexivity. change (0 <= 0 * step_err W). lra. Qed.

Lemma exact_sum_range l :
  Forall ordinary l → (length l ≤ 1024)%nat → qsum (fval <$> l) <= pow2 1010.
Proof.
  intros Hl Hn. apply Qle_trans with (inject_Z (Z.of_nat (length l)) * pow2 1000);
    [by apply fval_sum_bound|].
  apply Qle_trans with (1024 * pow2 1000); [|by vm_compute].
  apply Qmult_le_compat_r; [|apply Qlt_le_weak, pow2_pos].
  change 1024 with (inject_Z 1024). rewrite <-Zle_Qle. lia.
Qed.

(** A thousand steps stay within the accuracy asked for. *)
Lemma total_err W n : 0 <= W → (n ≤ 1024)%nat →
  inject_Z (Z.of_nat n) * step_err W <= (1 # 4) * (pow2 (-37) * W).
Proof.
  intros HW Hn. apply Qle_trans with (1024 * step_err W).
  - apply Qmult_le_compat_r; [change 1024 with (inject_Z 1024); rewrite <-Zle_Qle; lia|].
    unfold step_err. pose proof (pow2_pos (-53)). unfold unit_roundoff. nra.
  - unfold step_err.
    assert (1024 * (16 * (unit_roundoff * W)) == (1024 * (16 * unit_roundoff)) * W) as -> by lra.
    assert ((1 # 4) * (pow2 (-37) * W) == ((1 # 4) * pow2 (-37)) * W) as -> by lra.
    apply Qmult_le_compat_r; [by vm_compute|done].
Qed.

Lemma sum_left_accurate : accurate_sum sum_left.
Proof.
  intros l Hl Hn. split.
  - intros HW. pose proof (exact_sum_range l Hl Hn). set (W := qsum (fval <$> l)) in *.
    pose proof (pow2_pos (-900)).
    destruct (sum_left_near W HW H l 0 0 0) as (t & Ht & _ & He);
      [lia|apply start_near|done|lra|fold W; lra|].
    exists t. split; [done|]. fold W in He. pose proof (total_err W (length l)).
    rewrite Nat.add_0_l in He. assert (t - W == t - (0 + W)) as -> by lra.
    pose proof (Qmult_le_0_compat (pow2 (-37)) W). pose proof (pow2_pos (-37)).
    specialize (H1 ltac:(lra) Hn). specialize (H2 ltac:(lra) ltac:(lra)). lra.
  - unfold sum_left. clear Hn Hl. induction 1 as [|x l -> Hl IH]; [done|]. cbn [foldl].
    by replace (fadd (PFin 0) (PFin 0)) with (PFin 0) by by vm_compute.
Qed.

Lemma sum_compensated_accurate : accurate_sum sum_compensated.
Proof.
  intros l Hl Hn. split.
  - intros HW. pose proof (exact_sum_range l Hl Hn) as HW'. set (W := qsum (fval <$> l)) in *.
    pose proof (pow2_pos (-900)). pose proof (pow2_pos (-37)) as H37.
    assert (near2 W (0 + length l) (0 + W) (foldl neumaier_step (PFin 0, PFin 0) l)) as (s & c & Heq & [Hs Hns] & Hc).
    { apply (neumaier_fold W HW HW' l 0 0); [lia| |done|lra|fold W; lra].
      exists 0, 0. split_and!; [done|apply start_near|]. change (0 <= 0 * step_err W). lra. }
    unfold sum_compensated. rewrite Heq. rewrite Nat.add_0_l in *.
    assert (0 < W) as HWp by lra. pose proof (total_err W (length l) ltac:(lra) Hn) as Hte.
    pose proof (Qmult_lt_0_compat (pow2 (-37)) W H37 HWp) as Hpos.
    assert (pow2 (-37) * W <= (1 # 4) * W) as Hsm by (apply Qmult_le_compat_r; [by vm_compute|lra]).
    destruct (ftruthy (PFin c) && isfinite (PFin c)).
    + destruct (fl_W W HW HW' (s + c)) as (v & Hv & He);
        [apply Qabs_Qle_condition in Hns as [? ?], Hc as [? ?]; apply Qabs_Qle_condition; lra|].
      exists v. split; [done|].
      assert (3 * (unit_roundoff * W) <= (1 # 4) * (pow2 (-37) * W)) as Hr.
      { assert (3 * (unit_roundoff * W) == (3 * unit_roundoff) * W) as -> by lra.
        assert ((1 # 4) * (pow2 (-37) * W) == ((1 # 4) * pow2 (-37)) * W) as -> by lra.
        apply Qmult_le_compat_r; [by vm_compute|lra]. }
      apply Qabs_Qle_condition in Hns as [? ?], Hc as [? ?], He as [? ?].
      apply Qabs_Qle_condition. lra.
    + exists s. split; [done|]. apply Qabs_Qle_condition in Hns as [? ?].
      apply Qabs_Qle_condition. lra.
  - clear Hn Hl. intros Hz. unfold sum_compensated.
    assert (foldl neumaier_step (PFin 0, PFin 0) l = (PFin 0, PFin 0)) as ->; [|by vm_compute].
    induction Hz as [|x l -> Hl IH]; [done|]. cbn [foldl].
    by replace (neumaier_step (PFin 0, PFin 0) (PFin 0)) with (PFin 0, PFin 0) by by vm_compute.
Qed.

(** ** Quotas *)

Lemma Qmul_le_l a b c : a <= b → 0 <= c → c * a <= c * b.
Proof. intros. rewrite !(Qmult_comm c). by apply Qmult_le_compat_r. Qed.

Ltac abs_cond := repeat match goal with
  | H : Qabs _ <= _ |- _ => apply Qabs_Qle_condition in H; destruct H
  | |- Qabs _ <= _ => apply Qabs_Qle_condition; split
  end.

(** Sixteen million sandboxes. *)
Definition MAX_TOTAL : Z := 2 ^ 24.

(** Dividing by an accurate sum. *)
Lemma quotient_err q v W :
  0 <= q → q <= W → 0 < W → Qabs (v - W) <= pow2 (-37) * W →
  0 < v ∧ Qabs (q / v - q / W) <= pow2 (-36) * (q / W) ∧ 0 <= q / W ∧ q / W <= 1.
Proof.
  intros Hq HqW HW Hv. pose proof (pow2_pos (-37)).
  assert (pow2 (-37) * W <= (1 # 4) * W) by (apply Qmult_le_compat_r; [by vm_compute|lra]).
  abs_cond. assert (0 < v) as Hvp by lra. assert (0 <= q / W) by (apply Qle_shift_div_l; lra).
  split_and!; [done| |done|apply Qle_shift_div_r; lra].
  assert (q / v - q / W == (q / W) * ((W - v) / v)) as -> by (field; lra).
  rewrite Qabs_Qmult, (Qabs_pos (q / W)) by done. rewrite (Qmult_comm (pow2 (-36))).
  apply Qmul_le_l; [|done].
  assert (pow2 (-36) == 2 * pow2 (-37)) as -> by (change 2 with (pow2 1); by rewrite <-pow2_plus).
  apply Qabs_Qle_condition. split; [apply Qle_shift_div_l|apply Qle_shift_div_r]; try lra; nra.
Qed.

Lemma ideal_share_accurate total k w q tw v W :
  (0 ≤ total ≤ MAX_TOTAL)%Z → w = PFin q → 0 <= q → q <= W → 0 < W →
  tw = PFin v → Qabs (v - W) <= pow2 (-37) * W →
  ∃ x, ideal_share total tw (k, w) = Ret (k, PFin x) ∧ 0 <= x ∧
    Qabs (x - inject_Z total * (q / W)) <= pow2 (-34) * (inject_Z total * (q / W)) + pow2 (-1000).
Proof.
  intros HT -> Hq HqW HW -> Hv. unfold MAX_TOTAL in HT.
  destruct (quotient_err q v W) as (Hvp & Hqe & Hr0 & Hr1); [done..|].
  set (rho := q / W) in *. set (T := inject_Z total).
  assert (0 <= T) as HT0 by (change 0 with (inject_Z 0); subst T; rewrite <-Zle_Qle; lia).
  assert (T <= pow2 24) as HT1 by (subst T; rewrite pow2_inject, <-Zle_Qle by lia; lia).
  assert (pow2 24 <= pow2 40) as H32 by (by vm_compute).
  assert (pow2 (-36) * rho <= 1 * rho) as H36
    by (apply Qmult_le_compat_r; [by vm_compute|done]).
  assert (q / v <= 2 * rho) as Hqv by (abs_cond; lra).
  assert (0 <= q / v) as Hqv0 by (apply Qle_shift_div_l; lra).
  assert (2 <= pow2 1023) by (by vm_compute).
  destruct (round64_in_range (q / v)) as (r & Hr & Hrp & Hre); [done|lra|].
  assert (unit_roundoff * (q / v) <= unit_roundoff * (2 * rho)) as Hur
    by (apply Qmult_le_l; [apply pow2_pos|lra]).
  assert (2 * unit_roundoff + pow2 (-36) <= pow2 (-35)) as Hc1 by (by vm_compute).
  assert ((2 * unit_roundoff + pow2 (-36)) * rho <= pow2 (-35) * rho) as Hc
    by (by apply Qmult_le_compat_r).
  assert (Qabs (r - rho) <= pow2 (-35) * rho + underflow) as Hrr by (abs_cond; lra).
  assert (Qabs (T * r - T * rho) <= T * (pow2 (-35) * rho + underflow)) as HTr.
  { assert (T * r - T * rho == T * (r - rho)) as -> by lra.
    rewrite Qabs_Qmult, (Qabs_pos T) by done. by apply Qmul_le_l. }
  assert (T * underflow <= pow2 (-1030)) as HTu.
  { apply Qle_trans with (pow2 40 * underflow); [|by vm_compute].
    apply Qmult_le_compat_r; [lra|apply Qlt_le_weak, pow2_pos]. }
  assert (0 <= T * rho) as Hy0 by (by apply Qmult_le_0_compat).
  assert (T * rho <= pow2 40) as Hy1.
  { apply Qle_trans with (T * 1); [by apply Qmul_le_l|lra]. }
  assert (T * (pow2 (-35) * rho + underflow) == pow2 (-35) * (T * rho) + T * underflow) as HTe by lra.
  assert (pow2 (-35) * (T * rho) <= 1 * (T * rho)) as Hs1 by (apply Qmult_le_compat_r; [by vm_compute|done]).
  assert (pow2 (-1030) <= 1) by (by vm_compute). assert (3 * pow2 40 + 1 <= pow2 1023) by (by vm_compute).
  assert (T * r <= 2 * (T * rho) + pow2 (-1030)) as Htr by (abs_cond; lra).
  assert (0 <= T * r) by (by apply Qmult_le_0_compat).
  destruct (round64_in_range (T * r)) as (x & Hx & Hx0 & Hxe); [done|lra|].
  exists x. split_and!; [|done|].
  - unfold ideal_share. cbn [fst snd fdiv].
    destruct (Qeq_bool v 0) eqn:Ev; [apply Qeq_bool_iff in Ev; lra|].
    unfold mbind, outcome_bind. rewrite float_of_int_exact by lia.
    rewrite Hr. cbn [fmul]. fold T. by rewrite Hx.
  - assert (unit_roundoff * (T * r) <= unit_roundoff * (2 * (T * rho) + pow2 (-1030))) as Hut
      by (apply Qmult_le_l; [apply pow2_pos|done]).
    assert (2 * unit_roundoff + pow2 (-35) <= pow2 (-34)) as Hd1 by (by vm_compute).
    assert ((2 * unit_roundoff + pow2 (-35)) * (T * rho) <= pow2 (-34) * (T * rho)) as Hd
      by (by apply Qmult_le_compat_r).
    assert (unit_roundoff * pow2 (-1030) + underflow + pow2 (-1030) <= pow2 (-1000)) as He
      by (by vm_compute).
    abs_cond; lra.
Qed.

Lemma floors_sum xs :
  inject_Z (zsum (Qfloor <$> xs)) <= qsum xs ∧
  qsum xs - inject_Z (Z.of_nat (length xs)) <= inject_Z (zsum (Qfloor <$> xs)).
Proof.
  induction xs as [|x xs [IH1 IH2]]; [cbn; split; by vm_compute|].
  rewrite fmap_cons. cbn [zsum qsum length]. rewrite inject_Z_plus, succ_steps.
  pose proof (Qfloor_le x). pose proof (Qlt_floor x) as Hlt. rewrite inject_Z_plus in Hlt.
  change (inject_Z 1) with 1 in Hlt. lra.
Qed.

Lemma errors_sum a b ys xs :
  Forall2 (λ y x, Qabs (x - y) <= a * y + b) ys xs →
  Qabs (qsum xs - qsum ys) <= a * qsum ys + inject_Z (Z.of_nat (length xs)) * b.
Proof.
  induction 1 as [|y x ys xs Hxy _ IH].
  - cbn [qsum length]. assert (Qabs (0 - 0) == 0) as -> by reflexivity. change (inject_Z (Z.of_nat 0)) with 0. lra.
  - cbn [qsum length]. rewrite succ_steps. abs_cond; lra.
Qed.

Lemma split_budget_cases fsum total ws :
  ws = [] ∨ (∃ k w, ws = [(k, w)]) ∨
  split_budget fsum total ws =
    (ideal ← traverse (ideal_share total (fsum ws.*2)) ws; distribute total ideal).
Proof. destruct ws as [|[k w] [|kw ws]]; eauto. Qed.

Section quotas.
Context (total : Z) (ws : list (string * pyfloat)).
Hypothesis Htotal : (0 ≤ total ≤ MAX_TOTAL)%Z.
Hypothesis Hkeys : NoDup ws.*1.
Hypothesis Hlen : (length ws ≤ 1024)%nat.
Hypothesis Hord : Forall ordinary ws.*2.

Definition weight_sum : Q := qsum (fval <$> ws.*2).

(** The exact quota of a weight. *)
Definition quota (w : pyfloat) : Q := inject_Z total * (fval w / weight_sum).

Hypothesis Hsum : pow2 (-900) <= weight_sum.

Lemma weight_sum_pos : 0 < weight_sum.
Proof. pose proof (pow2_pos (-900)). lra. Qed.

Lemma quotas_sum : qsum (quota <$> ws.*2) == inject_Z total.
Proof.
  assert (quota <$> ws.*2 = (λ q, inject_Z total * q) <$> ((λ q, q / weight_sum) <$> (fval <$> ws.*2))) as ->
    by (by rewrite <-!list_fmap_compose).
  rewrite qsum_scale.
  assert (∀ l, qsum ((λ q, q / weight_sum) <$> l) == qsum l / weight_sum) as Hdiv.
  { pose proof weight_sum_pos. intros l. induction l as [|q l IH].
    - cbn. field. lra.
    - rewrite fmap_cons. cbn [qsum]. rewrite IH. field. lra. }
  rewrite Hdiv. fold weight_sum. pose proof weight_sum_pos. field. lra.
Qed.

Lemma ordinary_bounds w : w ∈ ws.*2 → ∃ q, w = PFin q ∧ 0 <= q ∧ q <= weight_sum.
Proof.
  intros Hw. rewrite Forall_forall in Hord. destruct (Hord w Hw) as (q & -> & Hq & _).
  exists q. split_and!; [done|done|]. apply qsum_elem; [by apply fval_nonneg, Forall_forall|].
  apply list_elem_of_fmap. by exists (PFin q).
Qed.

(** The computed quotas, close to the exact ones. *)
Definition close_to (y x : Q) : Prop :=
  0 <= x ∧ Qabs (x - y) <= pow2 (-34) * y + pow2 (-1000).

Lemma ideals_exist tw v :
  tw = PFin v → Qabs (v - weight_sum) <= pow2 (-37) * weight_sum →
  ∃ xs, traverse (ideal_share total tw) ws = Ret (zip ws.*1 (PFin <$> xs)) ∧ length xs = length ws ∧
    Forall2 close_to (quota <$> ws.*2) xs.
Proof.
  intros -> Hv. pose proof weight_sum_pos as Hpos.
  assert (∀ l, (∀ w, w ∈ l.*2 → ∃ q, w = PFin q ∧ 0 <= q ∧ q <= weight_sum) →
    ∃ xs, traverse (ideal_share total (PFin v)) l = Ret (zip l.*1 (PFin <$> xs)) ∧ length xs = length l ∧
    Forall2 close_to (quota <$> l.*2) xs) as Hall.
  { induction l as [|[k w] l IH]; intros Hl; [exists []; split_and!; [done|done|constructor]|].
    destruct (Hl w) as (q & Hw & Hq & HqW); [by left|].
    destruct IH as (xs & Hxs & Hlx & HF); [intros; apply Hl; by right|].
    destruct (ideal_share_accurate total k w q (PFin v) v weight_sum) as (x & Hx & Hx0 & Hxe); [done..|].
    exists (x :: xs). cbn [traverse]. unfold mbind, outcome_bind. rewrite Hx, Hxs.
    split_and!; [done|cbn; by f_equal|]. rewrite !fmap_cons. constructor; [|done].
    unfold quota, close_to. by rewrite Hw. }
  apply Hall, ordinary_bounds.
Qed.

Lemma quota_bounds w : w ∈ ws.*2 → 0 <= quota w ∧ quota w <= inject_Z total.
Proof.
  intros Hw. destruct (ordinary_bounds w Hw) as (q & -> & Hq & HqW). unfold quota. cbn [fval].
  pose proof weight_sum_pos.
  assert (0 <= inject_Z total) by (change 0 with (inject_Z 0); rewrite <-Zle_Qle; lia).
  assert (0 <= q / weight_sum) by (apply Qle_shift_div_l; lra).
  assert (q / weight_sum <= 1) by (apply Qle_shift_div_r; lra).
  split; [by apply Qmult_le_0_compat|].
  apply Qle_trans with (inject_Z total * 1); [by apply Qmul_le_l|lra].
Qed.

Lemma total_err_small : pow2 (-34) * inject_Z total + pow2 (-1000) <= 1 # 1000.
Proof.
  apply Qle_trans with (pow2 (-34) * inject_Z MAX_TOTAL + pow2 (-1000)); [|by vm_compute].
  apply Qplus_le_l. apply Qmul_le_l; [rewrite <-Zle_Qle; lia|apply Qlt_le_weak, pow2_pos].
Qed.

Lemma floors_leave_few xs :
  length xs = length ws → Forall2 close_to (quota <$> ws.*2) xs →
  (0 ≤ total - zsum (Qfloor <$> xs) ≤ Z.of_nat (length xs))%Z.
Proof.
  intros Hl HF. destruct (floors_sum xs) as [H1 H2].
  assert (Qabs (qsum xs - inject_Z total) <= 1 # 2) as Hx.
  { rewrite <-quotas_sum at 1.
    eapply Qle_trans; [apply errors_sum; eapply Forall2_impl; [exact HF|by intros ? ? [_ ?]]|].
    rewrite quotas_sum. pose proof total_err_small. pose proof (pow2_pos (-1000)).
    assert (inject_Z (Z.of_nat (length xs)) * pow2 (-1000) <= 1024 * pow2 (-1000)).
    { apply Qmult_le_compat_r; [|lra]. change 1024 with (inject_Z 1024). rewrite <-Zle_Qle. lia. }
    assert (1024 * pow2 (-1000) <= 1 # 1000) by (by vm_compute). lra. }
  abs_cond. split.
  - enough (zsum (Qfloor <$> xs) < total + 1)%Z by lia. apply inject_Z_lt_inv.
    rewrite inject_Z_plus. change (inject_Z 1) with 1. lra.
  - enough (total - Z.of_nat (length xs) - 1 < zsum (Qfloor <$> xs))%Z by lia. apply inject_Z_lt_inv.
    unfold Z.sub. rewrite !inject_Z_plus, inject_Z_opp. change (inject_Z (-(1))) with (-(1)). lra.
Qed.

(** An allocation of the whole total, each key within one unit of its quota. *)
Definition proportional (alloc : list (string * Z)) : Prop :=
  alloc.*1 = ws.*1 ∧ zsum alloc.*2 = total ∧
  ∀ k w, (k, w) ∈ ws → ∃ a, dget k alloc = Some a ∧ (0 ≤ a)%Z ∧
    Qabs (inject_Z a - quota w) <= 1001 # 1000.

Lemma distribute_proportional xs :
  length xs = length ws → Forall2 close_to (quota <$> ws.*2) xs →
  ∃ alloc, distribute total (zip ws.*1 (PFin <$> xs)) = Ret alloc ∧ proportional alloc.
Proof.
  intros Hl HF. set (ideal := zip ws.*1 (PFin <$> xs)).
  assert (ideal.*1 = ws.*1) as Hi1 by (apply fst_zip; rewrite !length_fmap; lia).
  assert (ideal.*2 = PFin <$> xs) as Hi2 by (apply snd_zip; rewrite !length_fmap; lia).
  assert (length ideal = length xs) as Hil
    by (subst ideal; rewrite length_zip_with, !length_fmap; lia).
  destruct (distribute_spec total ideal (Qfloor <$> xs)) as (alloc & Ha & Hk & Hs & Hq).
  - rewrite Hi2. apply traverse_Forall2, Forall2_fmap, Forall_Forall2_diag, Forall_true. done.
  - by rewrite Hi1.
  - rewrite Hil. by apply floors_leave_few.
  - exists alloc. split; [done|]. split_and!; [by rewrite Hk, Hi1|done|].
    intros k w [i Hi]%list_elem_of_lookup.
    assert (ws.*2 !! i = Some w) as Hw by (by rewrite list_lookup_fmap, Hi).
    destruct (xs !! i) as [x|] eqn:Hx.
    2:{ apply lookup_ge_None in Hx. apply lookup_lt_Some in Hi. lia. }
    destruct (Forall2_lookup_lr _ _ _ i (quota w) x HF) as [Hx0 Hxe];
      [by rewrite list_lookup_fmap, Hw|done|].
    destruct (Hq k (Qfloor x)) as (b & Hb & Hget).
    { rewrite Hi1. apply (list_elem_of_lookup_2 _ i).
      rewrite lookup_zip_with, !list_lookup_fmap, Hi, Hx. done. }
    exists (Qfloor x + b)%Z. pose proof (Qfloor_le x) as Hf1. pose proof (Qlt_floor x) as Hf2.
    assert (0 ≤ Qfloor x)%Z as Hf0
      by (rewrite <-(Qfloor_Z 0); by apply Qfloor_resp_le).
    split_and!; [done|lia|]. rewrite inject_Z_plus in *. change (inject_Z 1) with 1 in Hf2.
    destruct (quota_bounds w) as [Hq0 Hq1]; [by eapply list_elem_of_lookup_2|].
    pose proof total_err_small. assert (pow2 (-34) * quota w <= pow2 (-34) * inject_Z total)
      by (apply Qmul_le_l; [done|apply Qlt_le_weak, pow2_pos]).
    assert (0 <= inject_Z b ∧ inject_Z b <= 1) as [Hb0 Hb1] by (destruct Hb as [-> | ->]; by vm_compute).
    abs_cond; lra.
Qed.

Lemma split_budget_proportional fsum :
  accurate_sum fsum → ∃ alloc, split_budget fsum total ws = Ret alloc ∧ proportional alloc.
Proof.
  intros Hacc. destruct (Hacc ws.*2) as [Ha _]; [done|by rewrite length_fmap|].
  destruct (Ha Hsum) as (v & Hv & Hve). fold weight_sum in Hve.
  pose proof weight_sum_pos as Hpos.
  destruct (split_budget_cases fsum total ws) as [Ews|[(k & w & Ews)| ->]].
  - unfold weight_sum in Hpos. rewrite Ews in Hpos. cbn in Hpos. lra.
  - exists [(k, total)]. split; [by rewrite Ews|]. unfold proportional.
    split_and!; [by rewrite Ews|cbn; lia|]. intros k' w' Hin. rewrite Ews in Hin.
    apply list_elem_of_singleton in Hin as [= -> ->].
    exists total. split_and!; [cbn; by rewrite decide_True|lia|].
    destruct (ordinary_bounds w) as (q & -> & _); [rewrite Ews; by left|].
    assert (quota (PFin q) == inject_Z total) as ->.
    { unfold quota, weight_sum in *. rewrite Ews in *. cbn in *. field. lra. }
    assert (Qabs (inject_Z total - inject_Z total) == 0) as ->
      by (assert (inject_Z total - inject_Z total == 0) as -> by lra; done). done.
  - destruct (ideals_exist (fsum ws.*2) v Hv Hve) as (xs & Hxs & Hl & HF).
    destruct (distribute_proportional xs Hl HF) as (alloc & Hal & Hp).
    exists alloc. split; [|done]. unfold mbind, outcome_bind in *. by rewrite Hxs.
Qed.
End quotas.

(** ** The split of [budget.py] *)

Definition even_weights (ws : list (string * pyfloat)) : list (string * pyfloat) :=
  (λ kw, (kw.1, PFin 1)) <$> ws.

Lemma ordinary_not_bad w : ordinary w → bad_weight w = false.
Proof.
  intros (q & -> & Hq & _). unfold bad_weight. cbn. unfold Qlt_bool.
  apply negb_false_iff. by apply Qle_bool_iff.
Qed.

Lemma hamilton_split_unfold fsum total ws :
  Forall ordinary ws.*2 →
  hamilton_split fsum total ws =
    if feq (fsum ws.*2) (PFin 0) then split_budget fsum total (even_weights ws)
    else split_budget fsum total ws.
Proof.
  intros Hord. assert (existsb bad_weight ws.*2 = false) as Hb.
  { induction Hord as [|w l Hw _ IH]; [done|]. cbn [existsb]. by rewrite (ordinary_not_bad w), IH. }
  destruct ws as [|[k w] [|kw ws]]; unfold hamilton_split; [by destruct (feq _ _)|..];
    rewrite Hb; [by destruct (feq _ _)|done].
Qed.

Lemma even_weights_sum ws : weight_sum (even_weights ws) == inject_Z (Z.of_nat (length ws)).
Proof.
  unfold weight_sum. induction ws as [|kw ws IH]; [done|].
  change (even_weights (kw :: ws)) with ((kw.1, PFin 1) :: even_weights ws).
  rewrite !fmap_cons. cbn [qsum fval fst snd length]. rewrite IH, succ_steps. lra.
Qed.

Lemma hamilton_split_weighted fsum total ws :
  accurate_sum fsum → (0 ≤ total ≤ MAX_TOTAL)%Z → NoDup ws.*1 → (length ws ≤ 1024)%nat →
  Forall ordinary ws.*2 → pow2 (-900) <= weight_sum ws →
  ∃ alloc, hamilton_split fsum total ws = Ret alloc ∧ proportional total ws alloc.
Proof.
  intros Hacc HT Hnd Hlen Hord Hsum. rewrite hamilton_split_unfold by done.
  destruct (Hacc ws.*2) as [Ha _]; [done|by rewrite length_fmap|].
  destruct (Ha Hsum) as (v & Hv & Hve). rewrite Hv. cbn [feq].
  fold (weight_sum ws) in Hve. pose proof (pow2_pos (-900)).
  assert (pow2 (-37) * weight_sum ws <= (1 # 4) * weight_sum ws)
    by (apply Qmult_le_compat_r; [by vm_compute|lra]).
  destruct (Qeq_bool v 0) eqn:E; [apply Qeq_bool_iff in E; abs_cond; lra|].
  by apply split_budget_proportional.
Qed.


Lemma ordinary_small q : 0 <= q → q <= 1000000 → ordinary (PFin q).
Proof.
  intros H0 H1. exists q. split_and!; [done|done|].
  apply Qle_trans with 1000000; [done|by vm_compute].
Qed.


(** Weights that are finite but whose sum overflows lose the budget: two
    clusters weighted [1e308] get one sandbox each of a hundred, although the
    split is documented to sum to exactly the total. *)
Theorem hamilton_split_overflow :
  let w := round64 (inject_Z (10 ^ 308)) in
  isfinite w = true ∧
  hamilton_split sum_left 100 [("a", w); ("b", w)] = Ret [("a", 1%Z); ("b", 1%Z)] ∧
  hamilton_split sum_compensated 100 [("a", w); ("b", w)] = Ret [("a", 1%Z); ("b", 1%Z)].
Proof. by vm_compute. Qed.

(** ** Pool sizes *)

(** The share of one image, as computed. *)
Lemma share_bound ti tt mc :
  (0 < ti ≤ tt)%Z → (0 ≤ mc ≤ MAX_TOTAL)%Z →
  ∃ s, int_truediv (mc * ti) tt = Ret (PFin s) ∧ 0 <= s ∧
    s <= inject_Z (mc * ti) / inject_Z tt + (1 # 1000) * (inject_Z ti / inject_Z tt) + underflow.
Proof.
  intros Hti Hmc. unfold MAX_TOTAL in Hmc.
  assert (0 < inject_Z tt) as Htt by (change 0 with (inject_Z 0); rewrite <-Zlt_Qlt; lia).
  assert (0 <= inject_Z (mc * ti)) as Hp by (change 0 with (inject_Z 0); rewrite <-Zle_Qle; lia).
  set (x := inject_Z (mc * ti) / inject_Z tt).
  assert (0 <= x) as Hx0 by (apply Qle_shift_div_l; lra).
  assert (x == inject_Z mc * (inject_Z ti / inject_Z tt)) as Hxe
    by (unfold x; rewrite inject_Z_mult; field; lra).
  set (rho := inject_Z ti / inject_Z tt) in *.
  assert (0 <= inject_Z ti) by (change 0 with (inject_Z 0); rewrite <-Zle_Qle; lia).
  assert (0 <= rho) as Hr0 by (apply Qle_shift_div_l; lra).
  assert (rho <= 1) as Hr1 by (apply Qle_shift_div_r; [done|]; rewrite Qmult_1_l, <-Zle_Qle; lia).
  assert (inject_Z mc <= inject_Z MAX_TOTAL) as Hm by (rewrite <-Zle_Qle; unfold MAX_TOTAL; lia).
  assert (x <= inject_Z MAX_TOTAL * rho) as Hx1 by (rewrite Hxe; by apply Qmult_le_compat_r).
  assert (inject_Z MAX_TOTAL * rho <= inject_Z MAX_TOTAL * 1) as Hx2 by (by apply Qmul_le_l).
  destruct (round64_in_range x) as (s & Hs & Hs0 & Hse); [done| |].
  { apply Qle_trans with (inject_Z MAX_TOTAL * 1); [lra|by vm_compute]. }
  exists s. unfold int_truediv. destruct (tt =? 0)%Z eqn:E; [apply Z.eqb_eq in E; lia|].
  fold x. rewrite Hs. split_and!; [done|done|].
  assert (unit_roundoff * x <= unit_roundoff * (inject_Z MAX_TOTAL * rho)) as Hu
    by (apply Qmul_le_l; [lra|apply Qlt_le_weak, pow2_pos]).
  assert (unit_roundoff * inject_Z MAX_TOTAL <= 1 # 1000) as Hc by (by vm_compute).
  assert (unit_roundoff * inject_Z MAX_TOTAL * rho <= (1 # 1000) * rho) by (by apply Qmult_le_compat_r).
  abs_cond. lra.
Qed.

Lemma round_half_even_le x : inject_Z (round_half_even x) <= x + (1 # 2).
Proof. pose proof (round_half_even_err x). abs_cond. lra. Qed.

Lemma round_half_even_nonneg x : 0 <= x → (0 ≤ round_half_even x)%Z.
Proof.
  intros H. rewrite <-(round_half_even_int 0 0) by done. by apply round_half_even_mono.
Qed.

(** One pool: at least one replica, at most the tasks and the cap, and at most
    one more than the proportional share. *)
Lemma compute_replicas_ok ti tt mc mp :
  (0 < ti ≤ tt)%Z → (0 ≤ mc ≤ MAX_TOTAL)%Z → (0 < mp)%Z →
  ∃ r, compute_replicas ti tt mc mp 0 false = Ret r ∧ (1 ≤ r ≤ Z.min ti mp)%Z ∧
    inject_Z r <= inject_Z (mc * ti) / inject_Z tt + (1 # 1000) * (inject_Z ti / inject_Z tt)
                  + underflow + 1.
Proof.
  intros Hti Hmc Hmp. destruct (share_bound ti tt mc) as (s & Hs & Hs0 & Hse); [done|done|].
  unfold compute_replicas. rewrite (proj2 (Z.leb_gt ti 0)), (proj2 (Z.leb_gt tt 0)) by lia.
  unfold mbind, outcome_bind. rewrite Hs. cbn [fround to_int].
  exists (Z.min (Z.min (Z.max 1 (round_half_even s) + 0) ti) mp). split; [done|]. split; [lia|].
  pose proof (round_half_even_nonneg s Hs0) as Hr0. pose proof (round_half_even_le s) as Hr1.
  apply Qle_trans with (inject_Z (Z.max 1 (round_half_even s))); [rewrite <-Zle_Qle; lia|].
  destruct (Z.max_spec 1 (round_half_even s)) as [[_ ->]|[_ ->]].
  - lra.
  - change (inject_Z 1) with 1. lra.
Qed.

(** The pools of a cluster with budget [mc] hold less than one replica per pool
    more than the budget. *)
Lemma pools_overshoot tasks mc mp rs :
  Forall (λ t, 0 < t)%Z tasks → (0 ≤ mc ≤ MAX_TOTAL)%Z → (0 < mp)%Z → (Z.of_nat (length tasks) ≤ 2 ^ 20)%Z →
  traverse (λ t, compute_replicas t (zsum tasks) mc mp 0 false) tasks = Ret rs →
  (zsum rs ≤ mc + Z.of_nat (length tasks))%Z.
Proof.
  intros Hpos Hmc Hmp Hlen Hrs.
  destruct (decide (tasks = [])) as [->|Hne]; [cbn in Hrs; injection Hrs as <-; cbn; lia|].
  set (tt := zsum tasks) in *.
  assert (∀ l, Forall (λ t, 0 < t)%Z l → (∀ t, t ∈ l → t ≤ zsum l)%Z) as Hin.
  { intros l. induction 1 as [|t l Ht Hl IH]; [by intros ? ?%elem_of_nil|].
    assert (0 ≤ zsum l)%Z by (apply zsum_nonneg; eapply Forall_impl; [exact Hl|intros ? ?; cbn in *; lia]).
    intros t' [->|H']%elem_of_cons; cbn; [lia|]. specialize (IH t' H'). lia. }
  specialize (Hin tasks Hpos). fold tt in Hin.
  assert (0 < tt)%Z as Htt.
  { destruct tasks as [|t0 tasks0]; [done|]. specialize (Hin t0 ltac:(by left)).
    apply Forall_cons in Hpos as [? _]. lia. }
  assert (0 < inject_Z tt) as HttQ by (change 0 with (inject_Z 0); by rewrite <-Zlt_Qlt).
  apply traverse_Forall2 in Hrs.
  assert (∀ l rs, Forall2 (λ t r, compute_replicas t tt mc mp 0 false = Ret r) l rs →
    (∀ t, t ∈ l → (0 < t ≤ tt)%Z) →
    inject_Z (zsum rs) <= (inject_Z mc + (1 # 1000)) * (inject_Z (zsum l) / inject_Z tt)
                          + inject_Z (Z.of_nat (length l)) * (1 + underflow)) as Hsum.
  { intros l rs'. induction 1 as [|t r l rs' Hr _ IH]; intros Hl.
    - cbn [zsum length]. change (inject_Z 0) with 0. change (inject_Z (Z.of_nat 0)) with 0.
      assert (0 / inject_Z tt == 0) as -> by (field; lra). lra.
    - destruct (compute_replicas_ok t tt mc mp) as (r' & Hr' & _ & Hb); [apply Hl; by left|done|done|].
      rewrite Hr in Hr'. injection Hr' as <-.
      specialize (IH ltac:(intros; apply Hl; by right)). cbn [zsum length].
      rewrite succ_steps, !inject_Z_plus. rewrite inject_Z_mult in Hb.
      assert ((inject_Z t + inject_Z (zsum l)) / inject_Z tt
              == inject_Z t / inject_Z tt + inject_Z (zsum l) / inject_Z tt) as -> by (field; lra).
      assert (inject_Z mc * inject_Z t / inject_Z tt == inject_Z mc * (inject_Z t / inject_Z tt)) as Hd
        by (field; lra). rewrite Hd in Hb. lra. }
  specialize (Hsum tasks rs Hrs). fold tt in Hsum.
  enough (zsum rs < mc + Z.of_nat (length tasks) + 1)%Z by lia.
  apply inject_Z_lt_inv. rewrite !inject_Z_plus. change (inject_Z 1) with 1.
  assert (inject_Z tt / inject_Z tt == 1) as H1 by (field; lra).
  specialize (Hsum ltac:(intros t Ht; split; [|by apply Hin];
    rewrite Forall_forall in Hpos; by apply Hpos)). rewrite H1 in Hsum.
  assert (inject_Z (Z.of_nat (length tasks)) * underflow <= 1 # 2); [|lra].
  apply Qle_trans with (pow2 20 * underflow); [|by vm_compute].
  apply Qmult_le_compat_r; [|apply Qlt_le_weak, pow2_pos].
  rewrite pow2_inject, <-Zle_Qle by lia. exact Hlen.
Qed.
