(* ===== verification/Placement.v ===== *)
(** Cluster placement: models [placement.py] of
    [src/examples/multi-cluster-fleet/python/agent_sandbox_fleet].

    The registry is the dict of its clusters in insertion order. The lists the
    code builds from it hold references to the registry's objects, which the
    planner mutates; a reference is the dict key together with the object, and a
    mutation is an update of the registry at that key. The lemmas on the selectors are
    at the end. *)

From Stdlib Require Import String ZArith QArith Lia.
From stdpp Require Import base option list strings sets.
From S2P Require Import Prelude Float PyList Json Models Utils DateTime PyText Budget.

#[local] Open Scope Z_scope.

Record PlannerCluster := Cluster {
  name : string;
  weight : pyfloat;
  max_replicas : option Z;
  warmpool_depth : Z;
  warmpool_ready : Z;
  (** [None]: the member could not measure it *)
  active_claims : option Z;
  claim_p90_ms : option pyfloat;
  node_pressure_score : option pyfloat;
  report_age_s : pyfloat;
  planned_replicas : Z;
}.

Definition active_replicas (c : PlannerCluster) : Z := warmpool_depth c + planned_replicas c.

Definition ready_ratio (c : PlannerCluster) : outcome pyfloat :=
  if warmpool_depth c =? 0 then Ret (PFin 1) else int_truediv (warmpool_ready c) (warmpool_depth c).

Definition has_capacity (c : PlannerCluster) (need : Z) : bool :=
  match max_replicas c with
  | None => true
  | Some m => active_replicas c + need <=? m
  end.

Record PlannerRegistry := Registry {
  clusters : list (string * PlannerCluster);
  max_report_age_s : pyfloat;
}.

(** A reference to an object of the registry. *)
Abbreviation cref := (string * PlannerCluster)%type.

(** [registry.get(name)] *)
Definition registry_get (reg : PlannerRegistry) (n : string) : outcome cref :=
  match dget n (clusters reg) with
  | Some c => Ret (n, c)
  | None => Raise KeyError
  end.

Definition is_fresh (reg : PlannerRegistry) (c : PlannerCluster) : bool :=
  fle (report_age_s c) (max_report_age_s reg).

Definition fresh (reg : PlannerRegistry) : list cref :=
  filter (λ r : cref, is_fresh reg r.2 = true) (clusters reg).

Definition eligible (reg : PlannerRegistry) : list cref :=
  filter (λ r : cref, flt (PFin 0) (weight r.2) = true) (fresh reg).

Definition names (reg : PlannerRegistry) : list string := (λ r, name r.2) <$> eligible reg.

(** [_eligible] *)
Definition eligible_with_capacity (reg : PlannerRegistry) (need : Z) : outcome (list cref) :=
  match filter (λ r : cref, has_capacity r.2 need = true) (eligible reg) with
  | [] => Raise NoClusterAvailableError
  | elig => Ret elig
  end.

(** [cluster.planned_replicas += 1] *)
Definition plan_one (c : PlannerCluster) : PlannerCluster :=
  Cluster (name c) (weight c) (max_replicas c) (warmpool_depth c) (warmpool_ready c)
    (active_claims c) (claim_p90_ms c) (node_pressure_score c) (report_age_s c)
    (planned_replicas c + 1).

Definition bump_planned (r : cref) (reg : PlannerRegistry) : PlannerRegistry :=
  Registry ((λ kc, if decide (kc.1 = r.1) then (kc.1, plan_one kc.2) else kc) <$> clusters reg)
    (max_report_age_s reg).

(** ** Selectors *)

Inductive selector :=
  | RoundRobin (counter : nat)
  | LeastLoaded
  | CapacityWeighted
  | ImageAffinity
  | CapacityAware
  | Pinned.

(** The key [(c.active_claims is None, c.active_claims or 0, c.active_replicas)],
    compared as a tuple. *)
Definition load_lt (a b : PlannerCluster) : bool :=
  match active_claims a, active_claims b with
  | Some _, None => true
  | None, Some _ => false
  | ca, cb =>
      (default 0 ca <? default 0 cb) ||
      ((default 0 ca =? default 0 cb) && (active_replicas a <? active_replicas b))
  end.

Definition least_loaded (reg : PlannerRegistry) : outcome cref :=
  elig ← eligible_with_capacity reg 1;
  py_min (λ a b, load_lt a.2 b.2) elig.

Definition round_robin (counter : nat) (reg : PlannerRegistry) : outcome cref :=
  elig ← eligible_with_capacity reg 1;
  let ordered := eligible reg in
  let n := length ordered in
  let allowed : list string := (λ r, name r.2) <$> elig in
  let hit i := match ordered !! ((counter + i) mod n)%nat with
               | Some r => if decide (name r.2 ∈ allowed) then Some r else None
               | None => None
               end in
  match omap hit (seq 0 n) with
  | r :: _ => Ret r
  | [] => py_index ordered (counter mod n)%nat
  end.

(** An element and its key, for [max(..., key=...)]. *)
Definition with_key {A} (key : A → outcome pyfloat) (a : A) : outcome (A * pyfloat) :=
  k ← key a; Ret (a, k).

Definition best_by (l : list (cref * pyfloat)) : outcome cref :=
  b ← py_max (λ a b, flt a.2 b.2) l; Ret b.1.

Definition capacity_weighted (reg : PlannerRegistry) : outcome cref :=
  elig ← eligible_with_capacity reg 1;
  keyed ← traverse (with_key (λ r : cref,
            d ← float_of_int (1 + active_replicas r.2); fdiv (weight r.2) d)) elig;
  best_by keyed.

Definition image_affinity (image : option string) (reg : PlannerRegistry) : outcome cref :=
  _ ← eligible_with_capacity reg 1;
  match image with
  | None => Raise AttributeError
  | Some img =>
      let ns := sorted str_lt (names reg) in
      n ← py_index ns (Z.to_nat (md5_int img mod Z.of_nat (length ns)));
      target ← registry_get reg n;
      if has_capacity target.2 1 then Ret target else least_loaded reg
  end.

Section aware.
Context (fsum : list pyfloat → pyfloat).

(** The pressure assumed of a cluster that did not report one. *)
Definition default_pressure (elig : list cref) : outcome pyfloat :=
  match omap (λ r : cref, node_pressure_score r.2) elig with
  | [] => Ret (PFin 0)
  | known => n ← float_of_int (Z.of_nat (length known)); fdiv (fsum known) n
  end.

Definition score (dflt : pyfloat) (c : PlannerCluster) : outcome pyfloat :=
  let raw := default dflt (node_pressure_score c) in
  let pressure := fmax (PFin 0) (fmin (PFin 1) raw) in
  ratio ← ready_ratio c;
  load ← float_of_int (active_replicas c);
  fdiv (fmul (weight c) ratio) (fadd (PFin 1) (fmul load (fadd (PFin 1) pressure))).

(** [len(set(l)) == 1] on floats *)
Definition all_tie (l : list pyfloat) : bool :=
  match l with [] => false | x :: l' => forallb (feq x) l' end.

Definition capacity_aware (reg : PlannerRegistry) : outcome cref :=
  elig ← eligible_with_capacity reg 1;
  dflt ← default_pressure elig;
  scored ← traverse (with_key (λ r : cref, score dflt r.2)) elig;
  let scores := dict_of ((λ rs : cref * pyfloat, (name rs.1.2, rs.2)) <$> scored) in
  best ← best_by ((λ rs : cref * pyfloat, (rs.1, default PNaN (dget (name rs.1.2) scores))) <$> scored);
  if all_tie scores.*2 then least_loaded reg else Ret best.

(** [selector.select(image, registry)], with the state the selector keeps. *)
Definition select (s : selector) (image : option string) (reg : PlannerRegistry)
    : outcome cref * selector :=
  match s with
  | RoundRobin n =>
      match eligible_with_capacity reg 1 with
      | Ret _ => (round_robin n reg, RoundRobin (S n))
      | _ => (Raise NoClusterAvailableError, s)
      end
  | LeastLoaded => (least_loaded reg, s)
  | CapacityWeighted => (capacity_weighted reg, s)
  | ImageAffinity => (image_affinity image reg, s)
  | CapacityAware => (capacity_aware reg, s)
  | Pinned => (Raise RuntimeError, s)
  end.
End aware.

Definition get_placement (n : string) : outcome selector :=
  match dget n [("pinned", Pinned); ("round-robin", RoundRobin 0); ("least-loaded", LeastLoaded);
                ("capacity-weighted", CapacityWeighted); ("image-affinity", ImageAffinity);
                ("capacity-aware", CapacityAware)] with
  | Some s => Ret s
  | None => Raise ValueError
  end.

(** ** What a selector promises *)

(** The providers key every cluster by its name. *)
Definition registry_wf (reg : PlannerRegistry) : Prop :=
  NoDup (clusters reg).*1 ∧ ∀ k c, (k, c) ∈ clusters reg → name c = k.

(** A cluster that may receive a pool: a recent report, a positive weight and
    room for one more. *)
Definition placeable (reg : PlannerRegistry) (r : cref) : Prop :=
  r ∈ clusters reg ∧ is_fresh reg r.2 = true ∧ flt (PFin 0) (weight r.2) = true ∧
  has_capacity r.2 1 = true.

Lemma eligible_elem reg r :
  r ∈ eligible reg ↔
  r ∈ clusters reg ∧ is_fresh reg r.2 = true ∧ flt (PFin 0) (weight r.2) = true.
Proof. unfold eligible, fresh. rewrite !list_elem_of_filter. tauto. Qed.

Lemma eligible_with_capacity_elem reg elig r :
  eligible_with_capacity reg 1 = Ret elig → r ∈ elig → placeable reg r.
Proof.
  unfold eligible_with_capacity. intros E Hr.
  assert (r ∈ filter (λ r : cref, has_capacity r.2 1 = true) (eligible reg)) as Hin
    by (destruct (filter _ _); [done|injection E as <-; done]).
  apply list_elem_of_filter in Hin as [Hcap Hel]. apply eligible_elem in Hel as (? & ? & ?). done.
Qed.

Lemma least_loaded_placeable reg r : least_loaded reg = Ret r → placeable reg r.
Proof.
  unfold least_loaded, mbind, outcome_bind. intros H. case_match; try done.
  eapply eligible_with_capacity_elem; [done|]. by eapply py_min_elem.
Qed.

Lemma traverse_with_key_elem {A} (key : A → outcome pyfloat) l keyed a k :
  traverse (with_key key) l = Ret keyed → (a, k) ∈ keyed → a ∈ l.
Proof.
  revert keyed. induction l as [|x l IH]; intros keyed; cbn.
  - intros [= <-] ?%elem_of_nil. done.
  - unfold mbind, outcome_bind. unfold with_key at 1. unfold mbind, outcome_bind.
    destruct (key x); [|done|done]. destruct (traverse _ l) eqn:E; [|done|done].
    intros [= <-] [[= -> ->]|Hin]%elem_of_cons; [by left|]. right. by eapply IH.
Qed.

(** ** What placing and picking promise *)

Lemma registry_get_elem reg n r : registry_wf reg → registry_get reg n = Ret r → r ∈ clusters reg ∧ r.1 = n.
Proof.
  intros [Hnd _]. unfold registry_get. destruct (dget n (clusters reg)) as [c|] eqn:E; [|done].
  intros [= <-]. split; [|done]. by apply dget_elem_of in E.
Qed.

Lemma wf_same_name reg r r' :
  registry_wf reg → r ∈ clusters reg → r' ∈ clusters reg → name r.2 = name r'.2 → r = r'.
Proof.
  intros [Hnd Hn] Hr Hr' E. destruct r as [k c], r' as [k' c']. cbn in E.
  rewrite (Hn k c Hr), (Hn k' c' Hr') in E. subst k'.
  apply dget_elem_of in Hr, Hr'; [|done..]. congruence.
Qed.

Lemma round_robin_placeable reg n r :
  registry_wf reg → round_robin n reg = Ret r → placeable reg r.
Proof.
  intros Hwf. unfold round_robin, mbind, outcome_bind.
  destruct (eligible_with_capacity reg 1) as [elig|e|] eqn:Ee; [|done|done].
  set (hit := λ i, _). destruct (omap hit _) as [|r' l] eqn:Eo.
  - intros Hidx. exfalso.
    assert (∃ r0, r0 ∈ elig) as [r0 Hr0].
    { unfold eligible_with_capacity in Ee. destruct (filter _ _) as [|r0 l0] eqn:Ef; [done|].
      injection Ee as <-. exists r0. by left. }
    assert (r0 ∈ eligible reg) as Hel.
    { apply (eligible_with_capacity_elem _ _ _ Ee) in Hr0 as (? & ? & ? & ?). by apply eligible_elem. }
    apply list_elem_of_lookup in Hel as [j Hj]. pose proof (lookup_lt_Some _ _ _ Hj) as Hlt.
    set (m := length (eligible reg)) in *.
    assert (r0 ∈ omap hit (seq 0 m)) as Hin; [|by rewrite Eo in Hin; apply elem_of_nil in Hin].
    apply list_elem_of_omap. exists ((j + (m - n mod m)) mod m)%nat. split.
    + apply elem_of_seq. split; [lia|]. apply Nat.mod_upper_bound. lia.
    + subst hit. cbv beta.
      replace ((n + (j + (m - n mod m)) mod m) mod m)%nat with j.
      * rewrite Hj. rewrite decide_True; [done|]. apply list_elem_of_fmap. eauto.
      * rewrite Nat.Div0.add_mod_idemp_r, <-Nat.Div0.add_mod_idemp_l.
        replace (n mod m + (j + (m - n mod m)))%nat with (j + 1 * m)%nat.
        -- rewrite Nat.Div0.mod_add, Nat.mod_small; [done|lia].
        -- pose proof (Nat.mod_upper_bound n m). lia.
  - intros [= <-]. assert (r' ∈ omap hit (seq 0 (length (eligible reg)))) as Hin by (rewrite Eo; by left).
    apply list_elem_of_omap in Hin as (i & _ & Hi). subst hit. cbv beta in Hi.
    destruct (eligible reg !! _) as [r''|] eqn:El; [|done]. case_decide as Hd; [|done].
    injection Hi as <-. apply list_elem_of_lookup_2, eligible_elem in El as (Hc & _ & _).
    apply list_elem_of_fmap in Hd as (r2 & Hn & Hr2). apply (eligible_with_capacity_elem _ _ _ Ee) in Hr2.
    by rewrite (wf_same_name reg r'' r2 Hwf Hc (proj1 Hr2) Hn).
Qed.

Lemma image_affinity_placeable reg image r :
  registry_wf reg → image_affinity image reg = Ret r → placeable reg r.
Proof.
  intros Hwf. unfold image_affinity, mbind, outcome_bind.
  destruct (eligible_with_capacity reg 1); [|done|done]. destruct image as [img|]; [|done].
  unfold py_index. destruct (sorted str_lt (names reg) !! _) as [n|] eqn:En; [|done].
  destruct (registry_get reg n) as [t|e|] eqn:Et; [|done|done].
  destruct (has_capacity t.2 1) eqn:Ec; [|apply least_loaded_placeable].
  intros [= <-]. apply list_elem_of_lookup_2, elem_of_sorted in En.
  apply list_elem_of_fmap in En as (r' & -> & Hr'). apply eligible_elem in Hr' as (Hc' & Hf & Hw).
  apply registry_get_elem in Et as [Ht Hk]; [|done]. destruct Hwf as [Hnd Hn].
  assert (t = r') as ->; [|done].
  apply (wf_same_name reg); [done|done|done|]. destruct t as [k c]. cbn in *. by rewrite (Hn k c Ht).
Qed.

Lemma best_by_elem l r : best_by l = Ret r → ∃ k, (r, k) ∈ l.
Proof.
  unfold best_by, mbind, outcome_bind. destruct (py_max _ l) as [[r' k]|e|] eqn:E; [|done|done].
  intros [= <-]. exists k. by eapply py_max_elem.
Qed.

Section select.
Context (fsum : list pyfloat → pyfloat).

Lemma capacity_aware_placeable reg r : capacity_aware fsum reg = Ret r → placeable reg r.
Proof.
  unfold capacity_aware, mbind, outcome_bind.
  destruct (eligible_with_capacity reg 1) as [elig|e|] eqn:Ee; [|done|done].
  destruct (default_pressure fsum elig) as [d|e|]; [|done|done].
  destruct (traverse _ elig) as [scored|e|] eqn:Es; [|done|done].
  destruct (best_by _) as [b|e|] eqn:Eb; [|done|done].
  destruct (all_tie _); [apply least_loaded_placeable|]. intros [= <-].
  apply best_by_elem in Eb as [k Hk]. apply list_elem_of_fmap in Hk as ([b' k'] & [= -> ->] & Hin).
  eapply eligible_with_capacity_elem; [done|]. by eapply traverse_with_key_elem.
Qed.

Lemma capacity_weighted_placeable reg r : capacity_weighted reg = Ret r → placeable reg r.
Proof.
  unfold capacity_weighted, mbind, outcome_bind.
  destruct (eligible_with_capacity reg 1) as [elig|e|] eqn:Ee; [|done|done].
  destruct (traverse _ elig) as [keyed|e|] eqn:Es; [|done|done].
  intros [k Hk]%best_by_elem. eapply eligible_with_capacity_elem; [done|]. by eapply traverse_with_key_elem.
Qed.

(** Whatever the policy, a selected cluster is a cluster of the registry with
    a recent report, a positive weight and room for one more replica. *)
Lemma select_placeable s image reg r s' :
  registry_wf reg → select fsum s image reg = (Ret r, s') → placeable reg r.
Proof.
  intros Hwf. destruct s; cbn [select].
  - destruct (eligible_with_capacity reg 1); [|done|done]. intros [= H _]. by eapply round_robin_placeable.
  - intros [= H _]. by apply least_loaded_placeable.
  - intros [= H _]. by apply capacity_weighted_placeable.
  - intros [= H _]. by eapply image_affinity_placeable.
  - intros [= H _]. by apply capacity_aware_placeable.
  - done.
Qed.
End select.

(** ** Least loaded: measured clusters first, then fewest claims, then replicas *)

Lemma load_lt_asym a b : load_lt a b = true → load_lt b a = false.
Proof.
  unfold load_lt. destruct (active_claims a), (active_claims b); try done; cbn [default from_option id];
    intros [H|H]%orb_true_iff; apply orb_false_iff; bool_prop;
    rewrite ?andb_false_iff, ?Z.ltb_ge, ?Z.eqb_neq; lia.
Qed.

Lemma load_lt_neg_trans a b c : load_lt b a = false → load_lt c b = false → load_lt c a = false.
Proof.
  unfold load_lt. destruct (active_claims a), (active_claims b), (active_claims c); try done;
    cbn [default from_option id]; rewrite !orb_false_iff, !andb_false_iff, !Z.ltb_ge, !Z.eqb_neq; lia.
Qed.

(** The chosen cluster has no better-placed competitor. *)
Lemma least_loaded_optimal reg r r' :
  least_loaded reg = Ret r → placeable reg r' → load_lt r'.2 r.2 = false.
Proof.
  unfold least_loaded, mbind, outcome_bind. intros H Hp.
  destruct (eligible_with_capacity reg 1) as [elig|e|] eqn:Ee; [|done|done].
  eapply (py_min_least (λ a b : cref, load_lt a.2 b.2)); [| |exact H|].
  - intros ? ?. apply load_lt_asym.
  - intros ? ? ?. apply load_lt_neg_trans.
  - destruct Hp as (? & ? & ? & ?).
    assert (r' ∈ filter (λ r : cref, has_capacity r.2 1 = true) (eligible reg)) as Hin
      by (apply list_elem_of_filter; split; [done|by apply eligible_elem]).
    unfold eligible_with_capacity in Ee. destruct (filter _ _); [done|]. by injection Ee as <-.
Qed.

(** Least-loaded never prefers a cluster whose claims were not measured, nor
    one with more claims, to a measured one that could take the pool. *)
Theorem least_loaded_prefers_measured reg r r' n' :
  least_loaded reg = Ret r → placeable reg r' → active_claims r'.2 = Some n' →
  ∃ n, active_claims r.2 = Some n ∧ n ≤ n'.
Proof.
  intros Hr Hp Hc. pose proof (least_loaded_optimal reg r r' Hr Hp) as H.
  unfold load_lt in H. rewrite Hc in H. destruct (active_claims r.2) as [n|]; [|done].
  exists n. split; [done|]. cbn in H. apply orb_false_iff in H as [H _]. bool_prop. done.
Qed.

(** ** Round robin *)

Lemma filter_all {A} (P : A → Prop) `{!∀ x, Decision (P x)} l : Forall P l → filter P l = l.
Proof. induction 1 as [|x l Hx Hl IH]; [done|]. rewrite filter_cons_True by done. by rewrite IH. Qed.

(** While every eligible cluster has room, the counter walks the registry. *)
Lemma round_robin_cycles reg n r :
  registry_wf reg → Forall (λ r : cref, has_capacity r.2 1 = true) (eligible reg) →
  round_robin n reg = Ret r → eligible reg !! (n mod length (eligible reg))%nat = Some r.
Proof.
  intros Hwf Hcap. unfold round_robin, mbind, outcome_bind.
  destruct (eligible_with_capacity reg 1) as [elig|e|] eqn:Ee; [|done|done].
  assert (elig = eligible reg ∧ elig ≠ []) as [-> Hne].
  { unfold eligible_with_capacity in Ee. rewrite (filter_all _ _ Hcap) in Ee.
    destruct (eligible reg); [done|]. by injection Ee as <-. }
  set (m := length (eligible reg)). assert (0 < m)%nat by (subst m; destruct (eligible reg); [done|cbn; lia]).
  destruct m as [|m'] eqn:Em; [lia|]. rewrite <-Em in *. clear Em.
  destruct (eligible reg !! (n mod m)%nat) as [r'|] eqn:El.
  2:{ apply lookup_ge_None in El. pose proof (Nat.mod_upper_bound n m). lia. }
  assert (∃ tl, seq 0 m = 0%nat :: tl) as [tl ->] by (destruct m; [lia|eexists; done]).
  cbn [omap list_omap]. rewrite Nat.add_0_r, El.
  rewrite decide_True; [congruence|]. apply list_elem_of_fmap. exists r'.
  split; [done|]. by eapply list_elem_of_lookup_2.
Qed.
