(* ===== verification/Effects.v ===== *)
(** Programs as sequences of requests to the outside.

    The multi-cluster fleet is a set of processes (planners, members, clients)
    that meet in an object store. Code that matters for their interleaving is
    written as a [prog]: a tree of requests, each followed by what the code does
    with the answer or the exception. A program can be run alone against a world
    ([run]), or step by step, one request at a time, between the requests of
    other programs ([step]). *)

From Stdlib Require Import String ZArith.
From stdpp Require Import base option list strings relations.
From S2P Require Import Prelude Float Json.

(** The bytes of a stored object, by what [json.loads] makes of them. *)
Inductive raw :=
  | RawJson (v : json)
  | RawBytes (data : list Z).

(** What the code asks of the outside, with the type of the answer. Requests can
    raise any exception. *)
Inductive request : Type → Type :=
  (* google.cloud.storage *)
  | GetBlob (path : string) : request (option Z)
  | Download (path : string) (if_generation_match : option Z) : request raw
  | Upload (path : string) (data : raw) (if_generation_match : option Z) : request unit
  | ListBlobs (prefix : string) : request (list string)
  (* datetime.now(timezone.utc), in microseconds since 0001-01-01 *)
  | UtcNow : request Z
  (* CustomObjectsApi.list_namespaced_custom_object on the hub *)
  | HubList (version namespace : string) (label_selector : option string) : request json.

Inductive prog (A : Type) :=
  | Done (o : outcome A)
  | Vis (X : Type) (r : request X) (k : outcome X → prog A).
Arguments Done {A} _.
Arguments Vis {A X} _ _.

Fixpoint prog_bind {A B} (m : prog A) (k : A → prog B) : prog B :=
  match m with
  | Done (Ret a) => k a
  | Done (Raise e) => Done (Raise e)
  | Done NoFuel => Done NoFuel
  | Vis r c => Vis r (λ x, prog_bind (c x) k)
  end.

#[global] Instance prog_mret : MRet prog := λ A a, Done (Ret a).
#[global] Instance prog_mbind : MBind prog := λ A B k m, prog_bind m k.

Definition ask {X} (r : request X) : prog X := Vis r Done.
Definition throw {A} (e : exn) : prog A := Done (Raise e).
Definition of_outcome {A} (o : outcome A) : prog A := Done o.

(** [try: m except ...: h] *)
Fixpoint catch {A} (h : exn → option (prog A)) (m : prog A) : prog A :=
  match m with
  | Done (Raise e) => match h e with Some m' => m' | None => Done (Raise e) end
  | Done o => Done o
  | Vis r c => Vis r (λ x, catch h (c x))
  end.

Fixpoint map_prog {A B} (f : A → prog B) (l : list A) : prog (list B) :=
  match l with
  | [] => mret []
  | a :: l' => b ← f a; bs ← map_prog f l'; mret (b :: bs)
  end.

(** ** Running alone *)

Class Handler (W : Type) := handle : ∀ X, request X → M W X.
Arguments handle {W _ X} _ _.

Fixpoint run {W} `{Handler W} {A} (m : prog A) : M W A :=
  match m with
  | Done o => λ w, (o, w)
  | Vis r k => λ w, let '(x, w') := handle r w in run (k x) w'
  end.

Lemma run_bind {W} `{Handler W} {A B} (m : prog A) (k : A → prog B) w :
  run (m ≫= k) w =
    match run m w with
    | (Ret a, w') => run (k a) w'
    | (Raise e, w') => (Raise e, w')
    | (NoFuel, w') => (NoFuel, w')
    end.
Proof.
  unfold mbind, prog_mbind. revert w. induction m as [o|X r c IH]; intros w; cbn; [by destruct o|].
  destruct (handle r w) as [x w']. apply IH.
Qed.

(** ** Interleaving

    A pool of programs shares a world. A step takes one program and answers its
    next request. *)

Inductive step {W} `{Handler W} {A} : list (prog A) * W → list (prog A) * W → Prop :=
  | step_request i ps X (r : request X) k w x w' :
      ps !! i = Some (Vis r k) → handle r w = (x, w') →
      step (ps, w) (<[i := k x]> ps, w').

(** Finite executions. *)
Abbreviation steps := (rtc step).

(** An execution by a schedule: program [i] takes the next step. *)
Definition exec_step {W} `{Handler W} {A} (c : list (prog A) * W) (i : nat) : list (prog A) * W :=
  match c.1 !! i with
  | Some (Vis r k) => let '(x, w') := handle r c.2 in (<[i := k x]> c.1, w')
  | _ => c
  end.

Definition exec {W} `{Handler W} {A} (schedule : list nat) (c : list (prog A) * W) : list (prog A) * W :=
  foldl exec_step c schedule.

Lemma exec_steps {W} `{Handler W} {A} schedule (c : list (prog A) * W) : steps c (exec schedule c).
Proof.
  unfold exec. revert c. induction schedule as [|i l IH]; intros c; [done|]. cbn.
  etrans; [|apply IH]. unfold exec_step. destruct c as [ps w]. cbn.
  destruct (ps !! i) as [[o|X r k]|] eqn:E; [done| |done].
  destruct (handle r w) as [x w'] eqn:Ex. apply rtc_once. by econstructor.
Qed.

(** ** Rely and guarantee

    [later w w'] is what the other programs may do between two requests of a
    program, [allowed w r] what a program may ask in the world [w]. [wp m Q w]:
    from [w], whatever happens in between, [m] asks only what is allowed and ends
    with [Q]. *)

Section wp.
Context {W : Type} `{Handler W}.
Context (later : W → W → Prop) (allowed : ∀ X, W → request X → Prop).

Fixpoint wp {A} (m : prog A) (Q : outcome A → W → Prop) (w : W) : Prop :=
  match m with
  | Done o => ∀ w', later w w' → Q o w'
  | @Vis _ X r k =>
      ∀ w', later w w' → allowed X w' r ∧
        ∀ x w'', handle r w' = (x, w'') → wp (k x) Q w''
  end.

Context `{!PreOrder later}.

Lemma wp_later {A} (m : prog A) Q w w' : wp m Q w → later w w' → wp m Q w'.
Proof.
  destruct m as [o|X r k]; cbn; intros Hm Hl w1 Hw1; apply Hm; by transitivity w'.
Qed.

Lemma wp_mono {A} (m : prog A) (Q Q' : outcome A → W → Prop) w :
  wp m Q w → (∀ o w', Q o w' → Q' o w') → wp m Q' w.
Proof.
  revert w. induction m as [o|X r k IH]; cbn; intros w Hm HQ; [eauto|].
  intros w' Hl. destruct (Hm w' Hl) as [Ha Hk]. split; [done|]. intros x w'' Hx.
  apply IH; [|done]. by apply Hk.
Qed.

(** The postcondition after a bind: an exception passes through. *)
Definition bind_post {A B} (k : A → prog B) (Q : outcome B → W → Prop) (o : outcome A) (w : W) : Prop :=
  match o with
  | Ret a => wp (k a) Q w
  | Raise e => wp (Done (Raise e)) Q w
  | NoFuel => wp (Done NoFuel) Q w
  end.

Lemma wp_bind {A B} (m : prog A) (k : A → prog B) Q w :
  wp m (bind_post k Q) w → wp (m ≫= k) Q w.
Proof.
  unfold mbind, prog_mbind. revert w. induction m as [o|X r c IH]; intros w; cbn.
  - intros Hm. destruct o as [a|e|]; cbn in *.
    + specialize (Hm w (reflexivity w)). done.
    + intros w' Hl. by apply (Hm w' Hl).
    + intros w' Hl. by apply (Hm w' Hl).
  - intros Hm w' Hl. destruct (Hm w' Hl) as [Ha Hk]. split; [done|]. intros x w'' Hx.
    apply IH. by apply Hk.
Qed.

Definition catch_post {A} (h : exn → option (prog A)) (Q : outcome A → W → Prop)
    (o : outcome A) (w : W) : Prop :=
  match o with
  | Raise e => match h e with Some m => wp m Q w | None => Q o w end
  | _ => Q o w
  end.

Lemma wp_catch {A} (h : exn → option (prog A)) (m : prog A) Q w :
  wp m (catch_post h Q) w → wp (catch h m) Q w.
Proof.
  revert w. induction m as [o|X r c IH]; intros w; cbn.
  - intros Hm. destruct o as [a|e|]; cbn in *; [done| |done].
    destruct (h e) as [m'|]; [|done]. by apply (Hm w).
  - intros Hm w' Hl. destruct (Hm w' Hl) as [Ha Hk]. split; [done|]. intros x w'' Hx.
    apply IH. by apply Hk.
Qed.

Lemma wp_ret {A} (a : A) (Q : outcome A → W → Prop) w : (∀ w', later w w' → Q (Ret a) w') → wp (mret a) Q w.
Proof. intros HQ. exact HQ. Qed.

Lemma wp_done {A} (o : outcome A) (Q : outcome A → W → Prop) w :
  (∀ w', later w w' → Q o w') → wp (Done o) Q w.
Proof. intros HQ. exact HQ. Qed.

Lemma wp_ask {X} (r : request X) (Q : outcome X → W → Prop) w :
  (∀ w', later w w' → allowed X w' r ∧ ∀ x w'' w3, handle r w' = (x, w'') → later w'' w3 → Q x w3) →
  wp (ask r) Q w.
Proof.
  intros Hr w' Hl. destruct (Hr w' Hl) as [Ha Hx]. split; [done|]. cbn. intros x w'' Hxw w3 Hl3. eauto.
Qed.

(** A program of which every request is allowed in every world. *)
Fixpoint harmless {A} (m : prog A) : Prop :=
  match m with
  | Done _ => True
  | @Vis _ X r k => (∀ w, allowed X w r) ∧ ∀ x, harmless (k x)
  end.

Lemma wp_harmless {A} (m : prog A) w : harmless m → wp m (λ _ _, True) w.
Proof.
  revert w. induction m as [o|X r k IH]; cbn; intros w Hm; [done|]. destruct Hm as [Ha Hk].
  intros w' _. split; [done|]. intros x w'' _. by apply IH.
Qed.

(** Every answer to an allowed request is something the others may see. *)
Hypothesis guarantee : ∀ X (r : request X) w x w',
  allowed X w r → handle r w = (x, w') → later w w'.

Lemma wp_harmless_frame {A} (m : prog A) (Q : outcome A → W → Prop) w :
  harmless m → (∀ o w', later w w' → Q o w') → wp m Q w.
Proof.
  revert w. induction m as [o|X r k IH]; cbn; intros w Hm HQ; [by eauto|]. destruct Hm as [Ha Hk].
  intros w' Hl. split; [done|]. intros x w'' Hx. apply IH; [done|]. intros o w3 Hl3. apply HQ.
  etrans; [exact Hl|]. etrans; [|exact Hl3]. by eapply guarantee.
Qed.

(** A pool of programs, each verified on its own against what the others may do,
    with its own postcondition. *)
Definition pool_ok {A} (Q : nat → outcome A → W → Prop) (ps : list (prog A)) (w : W) : Prop :=
  ∀ i m, ps !! i = Some m → wp m (Q i) w.

Lemma pool_step {A} (Q : nat → outcome A → W → Prop) (ps ps' : list (prog A)) w w' :
  pool_ok Q ps w → step (ps, w) (ps', w') → pool_ok Q ps' w' ∧ later w w'.
Proof.
  intros Hok Hstep. inversion Hstep as [i ? X r k ? x ? Hi Hx]; subst.
  pose proof (Hok i _ Hi w (reflexivity w)) as [Ha Hk].
  assert (later w w') as Hl by eauto. split; [|done].
  intros j m Hj. destruct (decide (i = j)) as [<-|Hne].
  - rewrite list_lookup_insert_eq in Hj by (by eapply lookup_lt_Some). injection Hj as <-. by apply Hk.
  - rewrite list_lookup_insert_ne in Hj by done. eapply wp_later; [|exact Hl]. by eapply Hok.
Qed.

Lemma pool_steps {A} (Q : nat → outcome A → W → Prop) (c c' : list (prog A) * W) :
  steps c c' → pool_ok Q c.1 c.2 → pool_ok Q c'.1 c'.2 ∧ later c.2 c'.2.
Proof.
  induction 1 as [c|c c1 c2 Hs _ IH]; intros Hok; [done|].
  destruct c as [ps w], c1 as [ps1 w1]. destruct (pool_step Q ps ps1 w w1 Hok Hs) as [Hok1 Hl].
  destruct (IH Hok1) as [Hok2 Hl2]. split; [done|]. cbn in *. by transitivity w1.
Qed.
End wp.

Lemma harmless_bind {W A B} (allowed : ∀ X, W → request X → Prop) (m : prog A) (k : A → prog B) :
  harmless allowed m → (∀ a, harmless allowed (k a)) → harmless allowed (m ≫= k).
Proof.
  unfold mbind, prog_mbind. induction m as [o|X r c IH]; cbn; intros Hm Hk.
  - by destruct o; cbn.
  - destruct Hm as [Ha Hc]. split; [done|]. intros x. by apply IH.
Qed.

Lemma harmless_catch {W A} (allowed : ∀ X, W → request X → Prop) h (m : prog A) :
  harmless allowed m → (∀ e m', h e = Some m' → harmless allowed m') → harmless allowed (catch h m).
Proof.
  induction m as [o|X r c IH]; cbn; intros Hm Hh.
  - destruct o as [a|e|]; [done| |done]. destruct (h e) eqn:E; [by eapply Hh|done].
  - destruct Hm as [Ha Hc]. split; [done|]. intros x. by apply IH.
Qed.

Lemma harmless_map {W A B} (allowed : ∀ X, W → request X → Prop) (f : A → prog B) l :
  (∀ a, harmless allowed (f a)) → harmless allowed (map_prog f l).
Proof.
  intros Hf. induction l as [|a l IH]; [done|]. cbn. apply harmless_bind; [done|]. intros b.
  by apply harmless_bind.
Qed.

Lemma harmless_ask {W X} (allowed : ∀ X, W → request X → Prop) (q : request X) :
  (∀ w, allowed X w q) → harmless allowed (ask q).
Proof. by intros Hq. Qed.
