(* ===== verification/ObjectStore.v ===== *)
(** The object-store client: models [objectstore.py] of
    [src/examples/multi-cluster-fleet/python/agent_sandbox_fleet].

    [google.cloud.storage] is third-party code. The requests of [Effects.v] are
    its calls; [ObjectStore] states what its documentation promises of them, and
    [bucket] is a store that keeps these promises. [json.dumps] and what it preserves
    are part of this file. *)

From Stdlib Require Import Ascii String ZArith QArith.
From stdpp Require Import base option list strings gmap pretty relations.
From S2P Require Import Prelude Float PyList Json PyText Models Utils Budget Effects.

#[local] Open Scope Z_scope.

Record Paths := {
  spec_path : string;
  assignments_path : string;
  capacity_prefix : string;
  weight_manifest : string;
  weight_delta_prefix : string;
}.

Definition default_paths : Paths := {|
  spec_path := "fleet/spec.json";
  assignments_path := "fleet/assignments.json";
  capacity_prefix := "fleet/capacity/";
  weight_manifest := "weights/manifest.json";
  weight_delta_prefix := "weights/deltas/";
|}.

Definition capacity_path (p : Paths) (cluster : string) : string :=
  capacity_prefix p +:+ cluster +:+ ".json".

Definition weight_delta (p : Paths) (version : Z) : string :=
  weight_delta_prefix p +:+ "v" +:+ pretty version +:+ ".bin".

(** ** JSON text

    [json.dumps(v, sort_keys=True)] read back by [json.loads] is [v] with the keys
    of every object in order. *)

Fixpoint sort_keys (v : json) : json :=
  match v with
  | JList l => JList (map sort_keys l)
  | JObj kvs =>
      JObj (sorted (λ a b, str_lt a.1 b.1)
              ((fix go (l : list (string * json)) : list (string * json) :=
                  match l with [] => [] | (k, x) :: l' => (k, sort_keys x) :: go l' end) kvs))
  | _ => v
  end.

(** [json.loads(raw.decode("utf-8"))]: what is not JSON, or not UTF-8, is a
    [ValueError]. *)
Definition loads (r : raw) : outcome json :=
  match r with RawJson v => Ret v | RawBytes _ => Raise ValueError end.

(** ** The client *)

Definition put_json (path : string) (obj : json) (if_generation_match : option Z) : prog () :=
  catch (λ e, if decide (e = GcsPreconditionFailed) then Some (throw CASConflict) else None)
    (ask (Upload path (RawJson (sort_keys obj)) if_generation_match)).

Definition get_json (path : string) : prog (option json) :=
  r ← catch (λ e, if decide (e = GcsNotFound) then Some (mret None) else None)
        (r ← ask (Download path None); mret (Some r));
  match r with
  | None => mret None
  | Some r => v ← of_outcome (loads r); mret (Some v)
  end.

(** One round of the two reads: the object and its generation come from one
    version. *)
Inductive pinned := PinAbsent | PinChanged | PinRead (r : raw) (generation : Z).

Definition pinned_read (path : string) : prog pinned :=
  blob ← ask (GetBlob path);
  match blob with
  | None => mret PinAbsent
  | Some generation =>
      catch (λ e, if decide (e = GcsNotFound) then Some (mret PinAbsent)
                  else if decide (e = GcsPreconditionFailed) then Some (mret PinChanged)
                  else None)
        (r ← ask (Download path (Some generation)); mret (PinRead r generation))
  end.

(** [for _ in range(3)]: a changed generation is read again. *)
Fixpoint read_loop {A} (n : nat) (path : string) (absent : prog A) (found : raw → Z → prog A) : prog A :=
  match n with
  | O => throw RuntimeError
  | S n' =>
      p ← pinned_read path;
      match p with
      | PinAbsent => absent
      | PinChanged => read_loop n' path absent found
      | PinRead r generation => found r generation
      end
  end.

Definition get_json_with_generation (path : string) : prog (option json * Z) :=
  read_loop 3 path (mret (None, 0))
    (λ r generation, v ← of_outcome (loads r); mret (Some v, generation)).

Definition gen_etag (generation : Z) : string := "gen:" +:+ pretty generation.

Definition get_with_etag (path : string) : prog (raw * string) :=
  read_loop 3 path (throw FileNotFoundError) (λ r generation, mret (r, gen_etag generation)).

Definition put_bytes (path : string) (data : list Z) : prog () := ask (Upload path (RawBytes data) None).

Definition list_prefix (prefix : string) : prog (list string) := ask (ListBlobs prefix).

(** ** What the store promises

    [blob w p] is the live version of the object, [written w p g r] that [r] was
    the content of its generation [g]. A write that reports an error may still
    have happened: the client retries a request of which it lost the answer. *)

Definition precondition (c : option Z) (b : option (Z * raw)) : Prop :=
  match c with
  | None => True
  | Some 0 => b = None
  | Some g => (λ v, v.1) <$> b = Some g
  end.

Class ObjectStore (W : Type) `{Handler W} := {
  blob : W → string → option (Z * raw);
  written : W → string → Z → raw → Prop;
  blob_written w p g r : blob w p = Some (g, r) → written w p g r ∧ 0 < g;
  written_pos w p g r : written w p g r → 0 < g;
  written_functional w p g r r' : written w p g r → written w p g r' → r = r';
  written_mono X (q : request X) w x w' p g r :
    handle q w = (x, w') → written w p g r → written w' p g r;
  get_blob_some w p g w' :
    handle (GetBlob p) w = (Ret (Some g), w') → ∃ r, blob w p = Some (g, r);
  get_blob_none w p w' : handle (GetBlob p) w = (Ret None, w') → blob w p = None;
  download_some w p c r w' :
    handle (Download p c) w = (Ret r, w') → ∃ g, blob w p = Some (g, r) ∧ precondition c (blob w p);
  download_missing w p c w' : handle (Download p c) w = (Raise GcsNotFound, w') → blob w p = None;
  read_blob X (q : request X) w x w' p :
    handle q w = (x, w') → match q with Upload p' _ _ => p' ≠ p | _ => True end → blob w' p = blob w p;
  upload_blob w p d c x w' :
    handle (Upload p d c) w = (x, w') →
    (blob w' p = blob w p ∧ x ≠ Ret ()) ∨
    (precondition c (blob w p) ∧ ∃ g, blob w' p = Some (g, d) ∧
       ∀ g0 r0, written w p g0 r0 → g0 < g);
}.

(** ** A store that keeps them *)

Record bucket := Bucket {
  objects : gmap string (Z * raw);
  versions : gmap (string * Z) raw;
  counter : Z;
  clock_us : Z;
  hub : json;
}.

Definition bucket_invariant (b : bucket) : Prop :=
  0 ≤ counter b ∧
  (∀ p g r, objects b !! p = Some (g, r) → versions b !! (p, g) = Some r) ∧
  (∀ p g r, versions b !! (p, g) = Some r → 0 < g ≤ counter b).

Definition precondition_holds (c : option Z) (o : option (Z * raw)) : bool :=
  match c with
  | None => true
  | Some 0 => if o is None then true else false
  | Some g => bool_decide ((λ v, v.1) <$> o = Some g)
  end.

Definition handle_bucket {X} (q : request X) : M bucket X := λ b,
  match q in request X return outcome X * bucket with
  | GetBlob p => (Ret (fst <$> objects b !! p), b)
  | Download p c =>
      match objects b !! p with
      | None => (Raise GcsNotFound, b)
      | Some (g, r) =>
          if precondition_holds c (objects b !! p) then (Ret r, b) else (Raise GcsPreconditionFailed, b)
      end
  | Upload p d c =>
      if precondition_holds c (objects b !! p) then
        let g := counter b + 1 in
        (Ret (), Bucket (<[p := (g, d)]> (objects b)) (<[(p, g) := d]> (versions b)) g
                   (clock_us b) (hub b))
      else (Raise GcsPreconditionFailed, b)
  | ListBlobs prefix =>
      (Ret (sorted str_lt (filter (λ p, startswith prefix p = true) (map_to_list (objects b)).*1)), b)
  | UtcNow => (Ret (clock_us b), b)
  | HubList _ _ _ => (Ret (hub b), b)
  end.

Definition good_bucket := { b : bucket | bucket_invariant b }.

Lemma precondition_holds_spec c o : precondition_holds c o = true ↔ precondition c o.
Proof. destruct c as [[|g|g]|], o; cbn; rewrite ?bool_decide_eq_true; naive_solver. Qed.

Lemma handle_bucket_invariant {X} (q : request X) b :
  bucket_invariant b → bucket_invariant (handle_bucket q b).2.
Proof.
  intros (Hc & Ho & Hv). destruct q as [p|p c|p d c|pf| |v ns l]; cbn; try done.
  - destruct (objects b !! p) as [[g r]|]; [|done]. by case_match.
  - case_match; [|done]. split_and!; cbn; [lia| |].
    + intros p' g r. destruct (decide (p = p')) as [<-|Hne].
      * rewrite lookup_insert_eq. intros [= <- <-]. by rewrite lookup_insert_eq.
      * rewrite lookup_insert_ne by done. intros Hp. rewrite lookup_insert_ne by congruence. by apply Ho.
    + intros p' g r. destruct (decide ((p, counter b + 1) = (p', g))) as [[= <- <-]|Hne]; [lia|].
      rewrite lookup_insert_ne by done. intros Hg%Hv. lia.
Qed.

#[global] Instance bucket_handler : Handler good_bucket := λ X q b,
  ((handle_bucket q (proj1_sig b)).1, exist _ _ (handle_bucket_invariant q _ (proj2_sig b))).

#[global, refine] Instance bucket_store : ObjectStore good_bucket := {|
  blob b p := objects (proj1_sig b) !! p;
  written b p g r := versions (proj1_sig b) !! (p, g) = Some r;
|}.
Proof.
  - intros [b (Hc & Ho & Hv)] p g r Hp. cbn in *. specialize (Ho _ _ _ Hp).
    split; [done|]. apply Hv in Ho. lia.
  - intros [b (Hc & Ho & Hv)] p g r Hr. apply Hv in Hr. lia.
  - intros [b Hb] p g r r' H1 H2. cbn in *. congruence.
  - intros X q [b (Hc & Ho & Hv)] x w' p g r [= <- <-] Hr. cbn in *.
    destruct q; cbn; try done.
    + destruct (objects b !! path) as [[? ?]|]; [|done]. by case_match.
    + case_match; [|done]. cbn. rewrite lookup_insert_ne; [done|].
      intros [= <- <-]. apply Hv in Hr. lia.
  - intros [b Hb] p g w' [= Hg _]. cbn in *. destruct (objects b !! p) as [[g' r]|]; naive_solver.
  - intros [b Hb] p w' [= Hg _]. cbn in *. by destruct (objects b !! p).
  - intros [b Hb] p c r w' [= Hg _]. cbn in *. destruct (objects b !! p) as [[g' r']|] eqn:Hp; [|done].
    case_match eqn:Hpre; [|done]. injection Hg as <-. apply precondition_holds_spec in Hpre. by exists g'.
  - intros [b Hb] p c w' [= Hg _]. cbn in *. destruct (objects b !! p) as [[g' r']|] eqn:Hp; [|done].
    by case_match.
  - intros X q [b Hb] x w' p [= <- <-] Hq. cbn. destruct q; cbn; try done.
    + destruct (objects b !! path) as [[? ?]|]; [|done]. by case_match.
    + case_match; [|done]. cbn. by rewrite lookup_insert_ne.
  - intros [b (Hc & Ho & Hv)] p d c x w' [= <- <-]. cbn. case_match eqn:Hpre; [|by left].
    right. apply precondition_holds_spec in Hpre. split; [done|]. exists (counter b + 1). cbn.
    rewrite lookup_insert_eq. split; [done|]. intros g0 r0 Hg%Hv. lia.
Defined.

(** A store with one object, at a given time. *)
Definition single (p : string) (r : raw) (now : Z) : bucket :=
  Bucket {[p := (1, r)]} {[(p, 1) := r]} 1 now JNull.

Lemma single_good p r now : bucket_invariant (single p r now).
Proof.
  split_and!; [done| |]; intros p' g r' Hp; unfold single in Hp; cbn [objects versions] in Hp.
  - apply lookup_singleton_Some in Hp as [<- [= <- <-]]. by apply lookup_singleton_eq.
  - apply lookup_singleton_Some in Hp as [[= <- <-] _]. cbn. lia.
Qed.

Definition store_with (p : string) (r : raw) (now : Z) : good_bucket :=
  exist _ (single p r now) (single_good p r now).

(** ** Reads among writers

    Whatever the others write between the two requests of a pinned read, the bytes
    it returns are those of the generation it returns. *)

Section reads.
Context {W : Type} `{Store : ObjectStore W}.
Context (later : W → W → Prop) (allowed : ∀ X, W → request X → Prop).
Context `{!PreOrder later}.
Hypothesis later_written : ∀ w w' p g r, later w w' → written w p g r → written w' p g r.
Hypothesis reads_allowed : ∀ X w (q : request X),
  match q with Upload _ _ _ => True | _ => allowed X w q end.

Abbreviation Wp := (wp later allowed).

Definition pinned_post (path : string) (o : outcome pinned) (w : W) : Prop :=
  match o with
  | Ret (PinRead r g) => written w path g r
  | _ => True
  end.

Lemma pinned_read_spec path w : Wp (pinned_read path) (pinned_post path) w.
Proof using All.
  apply wp_bind, wp_ask; [done|]. intros w1 _. split; [apply (reads_allowed _ w1 (GetBlob path))|].
  intros [[g|]|e|] w2 w3 _ _; cbn [bind_post]; [|by apply wp_ret|by apply wp_done|by apply wp_done].
  apply wp_catch; [done|]. apply wp_bind, wp_ask; [done|]. intros w4 _.
  split; [apply (reads_allowed _ w4 (Download path (Some g)))|].
  intros [r|e|] w5 w6 Hd Hl; cbn [bind_post]; [apply wp_ret|apply wp_done|by apply wp_done].
  - intros w7 Hl7. cbn. pose proof (download_some _ _ _ _ _ Hd) as (g' & Hb & Hpre).
    destruct (blob_written _ _ _ _ Hb) as [Hw Hpos]. rewrite Hb in Hpre.
    assert (g' = g) as -> by (destruct g; cbn in Hpre; naive_solver).
    eapply later_written, later_written; [..|eapply written_mono]; eassumption.
  - intros w7 _. cbn. do 2 (case_decide; [by intros w8 _|]). done.
Qed.

Lemma read_loop_spec {A} n path (absent : prog A) found Q w :
  (∀ w, Wp absent Q w) → (∀ r g w, written w path g r → Wp (found r g) Q w) →
  (∀ w, Q (Raise RuntimeError) w) → (∀ e w, Q (Raise e) w) → (∀ w, Q NoFuel w) →
  Wp (read_loop n path absent found) Q w.
Proof using All.
  intros Ha Hf Hr He Hn. revert w. induction n as [|n IH]; intros w; cbn [read_loop]; [by apply wp_done|].
  apply wp_bind; [done|]. eapply wp_mono; [apply pinned_read_spec|].
  intros [[| |r g]|e|] w' Hp; cbn in *; [apply Ha|apply IH|by apply Hf|by intros ? _..].
Qed.

Definition etag_post (path : string) (o : outcome (raw * string)) (w : W) : Prop :=
  match o with
  | Ret (r, etag) => ∃ g, etag = gen_etag g ∧ written w path g r
  | _ => True
  end.

Lemma get_with_etag_spec path w : Wp (get_with_etag path) (etag_post path) w.
Proof using All.
  apply read_loop_spec; try done.
  intros r g w' Hw w'' Hl. exists g. split; [done|]. by eapply later_written.
Qed.

Definition generation_post (path : string) (o : outcome (option json * Z)) (w : W) : Prop :=
  match o with
  | Ret (Some v, g) => written w path g (RawJson v)
  | Ret (None, g) => g = 0
  | _ => True
  end.

Lemma get_json_with_generation_spec path w :
  Wp (get_json_with_generation path) (generation_post path) w.
Proof using All.
  apply read_loop_spec; try done. intros [v|b] g w' Hw; cbn.
  - intros w'' Hl. by eapply later_written.
  - by intros ? _.
Qed.
End reads.

(** ** Reading back what [json.dumps(..., sort_keys=True)] wrote *)

(** Looks up literal keys. *)
Ltac keys := repeat first [rewrite decide_True by done | rewrite decide_False by done].

Lemma dget_perm {A} k (d d' : list (string * A)) : NoDup d.*1 → d ≡ₚ d' → dget k d = dget k d'.
Proof.
  intros Hnd Hp. assert (NoDup d'.*1) as Hnd' by (by rewrite <-Hp).
  destruct (dget k d) as [v|] eqn:E.
  - apply dget_elem_of in E; [|done]. rewrite Hp in E. by apply dget_elem_of in E.
  - symmetry. apply dget_None. apply dget_None in E. by rewrite <-Hp.
Qed.

Lemma dget_fmap {A B} (f : A → B) k (d : list (string * A)) :
  dget k ((λ kv, (kv.1, f kv.2)) <$> d) = f <$> dget k d.
Proof. induction d as [|[k' v] d IH]; [done|]. cbn. case_decide; [done|]. apply IH. Qed.

Lemma sorted_fmap {A B} (lt : A → A → bool) (lt' : B → B → bool) (f : A → B) l :
  (∀ a b, lt' (f a) (f b) = lt a b) → sorted lt' (f <$> l) = f <$> sorted lt l.
Proof.
  intros Hlt. induction l as [|a l IH]; [done|]. cbn. rewrite IH. generalize (sorted lt l). intros m.
  induction m as [|b m IHm]; [done|]. cbn. rewrite Hlt. destruct (lt _ _); cbn; [by rewrite IHm|done].
Qed.

(** The pairs inside [sort_keys], before they are sorted. *)
Lemma sort_keys_obj kvs :
  sort_keys (JObj kvs) =
    JObj (sorted (λ a b, str_lt a.1 b.1) ((λ kv, (kv.1, sort_keys kv.2)) <$> kvs)).
Proof.
  cbn [sort_keys]. f_equal. f_equal. induction kvs as [|[k v] kvs IH]; [done|]. cbn. by f_equal.
Qed.

Lemma dget_sort_keys kvs k :
  NoDup kvs.*1 →
  dget k (sorted (λ a b, str_lt a.1 b.1) ((λ kv, (kv.1, sort_keys kv.2)) <$> kvs)) = sort_keys <$> dget k kvs.
Proof.
  intros Hnd. rewrite <-dget_fmap. apply dget_perm; [|apply sorted_perm].
  rewrite sorted_perm, <-list_fmap_compose. done.
Qed.

Lemma py_get_sort_keys kvs k :
  NoDup kvs.*1 → py_get (sort_keys (JObj kvs)) k = Ret (default JNull (sort_keys <$> dget k kvs)).
Proof. intros Hnd. rewrite sort_keys_obj. cbn [py_get]. by rewrite dget_sort_keys. Qed.

Lemma py_get_def_sort_keys kvs k d v :
  NoDup kvs.*1 → dget k kvs = Some v → py_get_def (sort_keys (JObj kvs)) k d = Ret (sort_keys v).
Proof. intros Hnd Hk. rewrite sort_keys_obj. cbn [py_get_def]. by rewrite dget_sort_keys, Hk. Qed.

Lemma traverse_ret {A B} (f : A → outcome B) (g : A → B) l :
  (∀ a, a ∈ l → f a = Ret (g a)) → traverse f l = Ret (g <$> l).
Proof.
  induction l as [|a l IH]; intros H; [done|]. cbn. unfold mbind, outcome_bind.
  rewrite H by (by left). rewrite IH; [done|]. intros b Hb. apply H. by right.
Qed.

Lemma traverse_fmap {A B C} (f : B → outcome C) (g : A → B) l : traverse f (g <$> l) = traverse (λ a, f (g a)) l.
Proof.
  induction l as [|a l IH]; [done|]. cbn. unfold mbind, outcome_bind. rewrite <-IH. done.
Qed.

Lemma truthy_sort_keys v : truthy (sort_keys v) = truthy v.
Proof.
  destruct v as [| | | | |l|kvs]; try done; [by destruct l|]. rewrite sort_keys_obj. cbn.
  destruct (sorted _ _) eqn:E; destruct kvs; try done; apply (f_equal length) in E;
    rewrite length_sorted in E; done.
Qed.
