(* ===== verification/Inventory.v ===== *)
(** Where the planner learns which clusters exist: models [inventory.py] of
    [src/examples/multi-cluster-fleet/python/agent_sandbox_fleet].

    A provider is a program that ends with a registry. The weights are the
    [cluster_weights] of the spec, in order. Building the hub's API client
    ([_get_api]) is not modelled; its list call is the request [HubList]. *)

From Stdlib Require Import String ZArith QArith.
From stdpp Require Import base option list strings sets pretty.
From S2P Require Import Prelude Float Json PyList PyText DateTime Placement Effects ObjectStore.

#[local] Open Scope Z_scope.

Definition CLUSTERPROFILE_VERSION : string := "v1alpha1".
Definition CLUSTERPROFILE_NAMESPACE : string := "fleet-system".
Definition CLUSTER_MANAGER_LABEL : string := "x-k8s.io/cluster-manager".
Definition COND_CONTROL_PLANE_HEALTHY : string := "ControlPlaneHealthy".
Definition COND_JOINED : string := "Joined".

Definition PROP_PREFIX : string := "agents.x-k8s.io/".
Definition PROP_HEARTBEAT : string := PROP_PREFIX +:+ "heartbeat".
Definition PROP_WARMPOOL_DEPTH : string := PROP_PREFIX +:+ "warmpool-depth".
Definition PROP_WARMPOOL_READY : string := PROP_PREFIX +:+ "warmpool-ready".
Definition PROP_ACTIVE_CLAIMS : string := PROP_PREFIX +:+ "active-claims".
Definition PROP_CLAIM_P90_MS : string := PROP_PREFIX +:+ "claim-p90-ms".
Definition PROP_NODE_PRESSURE : string := PROP_PREFIX +:+ "node-pressure-score".
Definition PROP_MAX_REPLICAS : string := PROP_PREFIX +:+ "max-replicas".
Definition PROP_SANDBOX_CAPACITY : string := PROP_PREFIX +:+ "sandbox-capacity".

Definition STALE_AGE_S : pyfloat := PFin 1000000000.

(** ** Shared helpers *)

Definition age_seconds (ts : json) (now : Z) : outcome pyfloat :=
  if truthy ts then
    match ts with
    | JStr s =>
        match fromisoformat (replace "Z" "+00:00" s) with
        | Ret t => d ← total_seconds (now - instant t); Ret (fmax (PFin 0) d)
        | Raise e => if decide (e = ValueError) then Ret STALE_AGE_S else Raise e
        | NoFuel => NoFuel
        end
    | _ => Raise AttributeError
    end
  else Ret STALE_AGE_S.

Definition weight_map := list (string * pyfloat).

Definition empty_registry : PlannerRegistry := Registry [] (PFin 90).

(** [reg.clusters[k] = c] *)
Definition set_cluster (k : string) (c : PlannerCluster) (reg : PlannerRegistry) : PlannerRegistry :=
  Registry (dset k c (clusters reg)) (max_report_age_s reg).

Definition placeholder (n : string) (w : pyfloat) : PlannerCluster :=
  Cluster n w None 0 0 None None None STALE_AGE_S 0.

Definition stale_placeholders (reg : PlannerRegistry) (weights : weight_map) : PlannerRegistry :=
  foldl (λ reg nw, if dget nw.1 (clusters reg) is Some _ then reg
                   else set_cluster nw.1 (placeholder nw.1 nw.2) reg) reg weights.

(** ** What the inventory log line says *)

Definition LOG_DETAIL_MAX : Z := 12.

Record inventory_log := InventoryLog {
  log_clusters : Z;
  log_eligible : Z;
  log_shown : list string;
  (** clusters not shown, and of the excluded ones how many are stale and how
      many never reported *)
  log_omitted : option (Z * Z * Z);
}.

(** [f"{x:.0f}"] *)
Definition fmt0 (x : pyfloat) : string :=
  match fround x with Ret z => pretty z | _ => float_repr x end.

Definition log_label (reg : PlannerRegistry) (c : PlannerCluster) : string :=
  if fle STALE_AGE_S (report_age_s c) then name c +:+ "(NO REPORT)"
  else name c +:+ "(age=" +:+ fmt0 (report_age_s c) +:+ "s"
         +:+ (if fle (report_age_s c) (max_report_age_s reg) then "" else ", STALE") +:+ ")".

Definition by_name (a b : PlannerCluster) : bool := str_lt (name a) (name b).

Definition log_registry (reg : PlannerRegistry) : inventory_log :=
  let fresh_names := (λ r : cref, name r.2) <$> fresh reg in
  let ordered := sorted by_name (clusters reg).*2 in
  let elig := filter (λ c, name c ∈ fresh_names) ordered in
  let excluded := filter (λ c, name c ∉ fresh_names) ordered in
  let shown1 := slice_to LOG_DETAIL_MAX elig in
  let shown := sorted by_name (shown1 ++ slice_to (LOG_DETAIL_MAX - Z.of_nat (length shown1)) excluded) in
  let omitted := Z.of_nat (length ordered) - Z.of_nat (length shown) in
  let no_report := Z.of_nat (length (filter (λ c, fle STALE_AGE_S (report_age_s c) = true) excluded)) in
  InventoryLog (Z.of_nat (length (clusters reg))) (Z.of_nat (length (fresh reg)))
    (log_label reg <$> shown)
    (if omitted =? 0 then None
     else Some (omitted, Z.of_nat (length excluded) - no_report, no_report)).

(** ** The GCS provider *)

(** [None if r.get(k) is None else f(r[k])] *)
Definition optional_field {A} (f : json → outcome A) (r : json) (k : string) : outcome (option A) :=
  v ← py_get r k;
  if is_none v then Ret None else x ← f v; Ret (Some x).

(** One report as a cluster. *)
Definition report_cluster (weights : weight_map) (now : Z) (cluster : string) (r : json)
    : outcome PlannerCluster :=
  let w := default (PFin 1) (dget cluster weights) in
  depth_v ← py_get_def r "warmpool_depth" (JInt 0);
  depth ← int_of_json depth_v;
  ready_v ← py_get_def r "warmpool_ready" (JInt 0);
  ready ← int_of_json ready_v;
  claims ← optional_field int_of_json r "active_claims";
  p90 ← optional_field float_of_json r "claim_p90_ms";
  pressure ← optional_field float_of_json r "node_pressure_score";
  ts ← py_get r "updated_at";
  age ← age_seconds ts now;
  Ret (Cluster cluster w None depth ready claims p90 pressure age 0).

(** One turn of the loop over the reports. *)
Definition add_report (weights : weight_map) (now : Z) (reg : PlannerRegistry) (r : option json)
    : outcome PlannerRegistry :=
  match r with
  | Some (JObj kvs) =>
      match dget "cluster" kvs with
      | Some (JStr cluster) =>
          if decide (cluster = EmptyString) then Ret reg
          else
            match report_cluster weights now cluster (JObj kvs) with
            | Ret c => Ret (set_cluster cluster c reg)
            | Raise e => if decide (e = TypeError ∨ e = ValueError) then Ret reg else Raise e
            | NoFuel => NoFuel
            end
      | _ => Ret reg
      end
  | _ => Ret reg
  end.

Fixpoint add_reports (weights : weight_map) (now : Z) (reg : PlannerRegistry) (rs : list (option json))
    : outcome PlannerRegistry :=
  match rs with
  | [] => Ret reg
  | r :: rs' => reg' ← add_report weights now reg r; add_reports weights now reg' rs'
  end.

Definition gcs_load (paths : Paths) (weights : weight_map) : prog PlannerRegistry :=
  names ← list_prefix (capacity_prefix paths);
  reports ← map_prog get_json names;
  now ← ask UtcNow;
  reg ← of_outcome (add_reports weights now empty_registry reports);
  mret (stale_placeholders reg weights).

(** ** The ClusterProfile provider *)

Definition properties (status : json) : outcome (list (string * string)) :=
  ps ← py_get status "properties";
  l ← py_iter (py_or ps (JList []));
  foldl (λ acc p,
    out ← acc;
    n ← py_get p "name";
    if is_none n then Ret out
    else v ← py_get_def p "value" (JStr ""); Ret (dset (py_str n) (py_str v) out)) (Ret []) l.

Definition conditions (status : json) : outcome (list (string * json)) :=
  cs ← py_get status "conditions";
  l ← py_iter (py_or cs (JList []));
  foldl (λ acc c,
    out ← acc;
    t ← py_get c "type";
    if is_none t then Ret out else Ret (dset (py_str t) c out)) (Ret []) l.

Definition finite (raw : string) : option pyfloat :=
  match py_float raw with
  | Ret v => if isfinite v then Some v else None
  | _ => None
  end.

Definition float_prop (props : list (string * string)) (key : string) : option pyfloat :=
  raw ← dget key props;
  if decide (raw = EmptyString) then None else finite raw.

Definition int_prop (props : list (string * string)) (key : string) : option Z :=
  v ← float_prop props key;
  match ftrunc v with Ret z => Some z | _ => None end.

Definition weight_for (n : string) (weights : weight_map) (props : list (string * string)) : pyfloat :=
  match dget n weights with
  | Some w => w
  | None =>
      match float_prop props PROP_SANDBOX_CAPACITY with
      | Some c => if ftruthy c && flt (PFin 0) c then c else PFin 1
      | None => PFin 1
      end
  end.

(** A condition that is present and not [True]. *)
Definition failing (conds : list (string * json)) (cond_type : string) : outcome bool :=
  match dget cond_type conds with
  | None => Ret false
  | Some c => s ← py_get c "status"; Ret (negb (py_str s =? "True")%string)
  end.

(** The age, and the clusters whose freshness came from a condition only. *)
Definition freshness (require_heartbeat : bool) (n : string) (props : list (string * string))
    (conds : list (string * json)) (now : Z) (warned : list string)
    : outcome (pyfloat * list string) :=
  unhealthy ← failing conds COND_CONTROL_PLANE_HEALTHY;
  if unhealthy : bool then Ret (STALE_AGE_S, warned) else
  unjoined ← failing conds COND_JOINED;
  if unjoined : bool then Ret (STALE_AGE_S, warned) else
  match dget PROP_HEARTBEAT props with
  | Some (String _ _ as hb) => a ← age_seconds (JStr hb) now; Ret (a, warned)
  | _ =>
      if require_heartbeat then Ret (STALE_AGE_S, warned)
      else if dget COND_CONTROL_PLANE_HEALTHY conds is None then Ret (STALE_AGE_S, warned)
      else Ret (PFin 0, if decide (n ∈ warned) then warned else n :: warned)
  end.

(** [metadata.name] is a string in the objects of the API server; another value
    that is not empty is taken for a [TypeError] here. *)
Definition profile_name (profile : json) : outcome (option string) :=
  meta ← py_get profile "metadata";
  n ← py_get (py_or meta (JObj [])) "name";
  if truthy n then match n with JStr s => Ret (Some s) | _ => Raise TypeError end else Ret None.

Definition to_planner_cluster (require_heartbeat : bool) (profile : json) (weights : weight_map)
    (now : Z) (warned : list string) : outcome (option PlannerCluster * list string) :=
  on ← profile_name profile;
  match on with
  | None => Ret (None, warned)
  | Some n =>
      st ← py_get profile "status";
      let status := py_or st (JObj []) in
      props ← properties status;
      conds ← conditions status;
      let mr := m ← int_prop props PROP_MAX_REPLICAS; if 0 <? m then Some m else None in
      '(age, warned') ← freshness require_heartbeat n props conds now warned;
      Ret (Some (Cluster n (weight_for n weights props) mr
                   (default 0 (int_prop props PROP_WARMPOOL_DEPTH))
                   (default 0 (int_prop props PROP_WARMPOOL_READY))
                   (int_prop props PROP_ACTIVE_CLAIMS) (float_prop props PROP_CLAIM_P90_MS)
                   (float_prop props PROP_NODE_PRESSURE) age 0), warned')
  end.

Fixpoint add_profiles (require_heartbeat : bool) (weights : weight_map) (now : Z)
    (s : PlannerRegistry * list string) (ps : list json) : outcome (PlannerRegistry * list string) :=
  match ps with
  | [] => Ret s
  | p :: ps' =>
      '(oc, warned) ← to_planner_cluster require_heartbeat p weights now s.2;
      add_profiles require_heartbeat weights now
        (if oc is Some c then set_cluster (name c) c s.1 else s.1, warned) ps'
  end.

Record ClusterProfileInventory := {
  cp_namespace : string;
  cp_cluster_manager : string;
  cp_require_heartbeat : bool;
  cp_version : string;
}.

Definition list_profiles (self : ClusterProfileInventory) : prog (list json) :=
  resp ← ask (HubList (cp_version self) (cp_namespace self)
                (if decide (cp_cluster_manager self = EmptyString) then None
                 else Some (CLUSTER_MANAGER_LABEL +:+ "=" +:+ cp_cluster_manager self)));
  of_outcome (items ← py_get_def resp "items" (JList []); py_iter items).

Definition clusterprofile_load (self : ClusterProfileInventory) (warned : list string) (weights : weight_map)
    : prog (PlannerRegistry * list string) :=
  now ← ask UtcNow;
  profiles ← list_profiles self;
  '(reg, warned') ← of_outcome
    (add_profiles (cp_require_heartbeat self) weights now (empty_registry, warned) profiles);
  mret (stale_placeholders reg weights, warned').

(** [get_inventory] *)
Inductive provider := GCSInventory (paths : Paths) | ClusterProfiles (self : ClusterProfileInventory).

Definition get_inventory (kind : string) (gcs : bool) (paths : option Paths)
    (hub_namespace cluster_manager version : string) (require_heartbeat : bool) : outcome provider :=
  if decide (kind = "gcs") then
    if gcs then Ret (GCSInventory (default default_paths paths)) else Raise ValueError
  else if decide (kind = "clusterprofile") then
    Ret (ClusterProfiles {| cp_namespace := hub_namespace; cp_cluster_manager := cluster_manager;
                            cp_require_heartbeat := require_heartbeat; cp_version := version |})
  else Raise ValueError.

(** [provider.load(weights)], with no warning given yet *)
Definition load (p : provider) (weights : weight_map) : prog PlannerRegistry :=
  match p with
  | GCSInventory paths => gcs_load paths weights
  | ClusterProfiles self => rw ← clusterprofile_load self [] weights; mret rw.1
  end.
