(* ===== verification/InventoryProofs.v ===== *)
(** What a registry built by a provider says: one entry per known cluster, the
    last usable report of each, and a fresh entry only for a cluster that was
    heard from in the last ninety seconds. *)

From Stdlib Require Import String ZArith QArith Qabs Lqa Lia.
From stdpp Require Import base option list strings sets pretty.
From S2P Require Import Prelude Float Json PyList PyText Utils DateTime DateTimeProofs Placement Effects ObjectStore Inventory.

#[local] Open Scope Z_scope.

(** ** Ages *)

Definition FRESH_US : Z := 90000000.

Lemma seconds_fresh d a :
  total_seconds d = Ret a → fle (fmax (PFin 0) a) (PFin 90) = true ↔ d ≤ FRESH_US.
Proof.
  unfold total_seconds, int_truediv. change (1000000 =? 0) with false. cbn [negb].
  set (q := (inject_Z d / inject_Z 1000000)%Q).
  assert (q * inject_Z 1000000 == inject_Z d)%Q as Hq by (unfold q; field).
  destruct (round64 q) as [v| | |] eqn:Hv; try done. intros [= <-].
  assert (d = FRESH_US ∨ d < FRESH_US ∨ FRESH_US < d) as [->|Hd] by lia.
  - assert (v == 90)%Q as Hv90.
    { assert (q == inject_Z 90)%Q as E by (unfold q; reflexivity).
      revert Hv. vm_compute. intros [= <-]. done. }
    unfold fmax, fle, flt, feq, Qlt_bool. split; [done|]. intros _.
    destruct (Qle_bool v 0) eqn:E; [apply Qle_bool_iff in E; lra|]. cbn.
    apply orb_true_iff. right. by apply Qeq_bool_iff.
  - pose proof (round64_err _ _ Hv) as He. apply Qabs_Qle_condition in He as [He1 He2].
    assert (unit_roundoff <= 1 # 1000000000000)%Q as Hu by (by vm_compute).
    assert (underflow <= 1 # 1000000000000)%Q as Hf by (by vm_compute).
    assert (0 <= unit_roundoff)%Q as Hu0 by (by vm_compute).
    assert (0 <= underflow)%Q as Hf0 by (by vm_compute).
    change (inject_Z 1000000) with (1000000#1)%Q in Hq.
    assert (d < FRESH_US → (q <= 90 - (1 # 1000000))%Q) as Hlo.
    { intros Hle. assert (d ≤ 89999999) as Hz by (unfold FRESH_US in *; lia).
      rewrite Zle_Qle in Hz. change (inject_Z 89999999) with (89999999#1)%Q in Hz. lra. }
    assert (FRESH_US < d → (90 + (1 # 1000000) <= q)%Q) as Hhi.
    { intros Hle. assert (90000001 ≤ d) as Hz by (unfold FRESH_US in *; lia).
      rewrite Zle_Qle in Hz. change (inject_Z 90000001) with (90000001#1)%Q in Hz. lra. }
    assert ((v <= 90)%Q ↔ d ≤ FRESH_US) as Hvd.
    { split.
      - intros Hv90. destruct (Z.le_gt_cases d FRESH_US) as [?|Hgt]; [done|exfalso].
        specialize (Hhi Hgt). rewrite Qabs_pos in He1 by lra. nra.
      - intros Hle. specialize (Hlo ltac:(lia)). revert He2. apply Qabs_case; intros Hs; nra. }
    rewrite <-Hvd. unfold fmax, fle, flt, feq, Qlt_bool.
    destruct (Qle_bool v 0) eqn:E; cbn.
    + apply Qle_bool_iff in E. split; [intros _; lra|done].
    + rewrite orb_true_iff, negb_true_iff, Qeq_bool_iff.
      rewrite <-not_true_iff_false, Qle_bool_iff. split; [intros [?|?]; lra|]. intros ?.
      destruct (Qlt_le_dec v 90); [left; lra|right; lra].
Qed.

Lemma stale_not_fresh reg c :
  max_report_age_s reg = PFin 90 → report_age_s c = STALE_AGE_S → is_fresh reg c = false.
Proof. intros Hm Hc. unfold is_fresh. rewrite Hm, Hc. done. Qed.

(** A timestamp that makes a report fresh. *)
Definition recent (ts : json) (now : Z) : Prop :=
  ∃ s t, ts = JStr s ∧ fromisoformat (replace "Z" "+00:00" s) = Ret t ∧ now - instant t ≤ FRESH_US.

Lemma age_fresh ts now a :
  age_seconds ts now = Ret a → fle a (PFin 90) = true ↔ recent ts now.
Proof.
  unfold age_seconds, recent. intros Ha. destruct (truthy ts) eqn:Et.
  - destruct ts as [| | | |s| |]; try done.
    destruct (fromisoformat (replace "Z" "+00:00" s)) as [t|e|] eqn:Ef; [|case_decide|done].
    + unfold mbind, outcome_bind in Ha. destruct (total_seconds _) as [d|e|] eqn:Ed; [|done|done].
      injection Ha as <-. rewrite (seconds_fresh _ _ Ed).
      split; [intros Hd; by exists s, t|]. intros (s' & t' & Hs & Hf & Hd).
      injection Hs as Hs. rewrite <-Hs, Ef in Hf. by injection Hf as <-.
    + injection Ha as <-. split; [done|]. intros (s' & t & [= <-] & Hf & _). congruence.
    + done.
  - injection Ha as <-. split; [done|]. intros (s & t & -> & Hf & _).
    apply not_true_iff_false in Et. rewrite truthy_str in Et.
    assert (s = EmptyString) as -> by (destruct (decide (s = EmptyString)); naive_solver). done.
Qed.

(** A report written at [t] is fresh for ninety seconds, neither more nor less. *)
Lemma age_of_published t now :
  0 ≤ t ≤ DATETIME_MAX_US → recent (JStr (iso_z t)) now ↔ now - t ≤ FRESH_US.
Proof.
  intros Ht. unfold recent. split.
  - intros (s & d & [= <-] & Hf & Hle). rewrite iso_zone_roundtrip in Hf by done.
    injection Hf as <-. unfold instant in Hle. cbn in Hle. lia.
  - intros Hle. exists (iso_z t), (DateTime t (Some 0)). rewrite iso_zone_roundtrip by done.
    unfold instant. cbn. split_and!; [done..|lia].
Qed.

(** ** Registries as maps from names *)

Lemma stale_placeholders_lookup weights reg k :
  dget k (clusters (stale_placeholders reg weights)) =
    match dget k (clusters reg) with
    | Some c => Some c
    | None => placeholder k <$> dget k weights
    end.
Proof.
  unfold stale_placeholders. revert reg. induction weights as [|[n w] weights IH]; intros reg; cbn.
  - by destruct (dget k (clusters reg)).
  - rewrite IH. destruct (dget n (clusters reg)) eqn:En.
    + case_decide; [subst|done]. by rewrite En.
    + cbn. rewrite dget_dset. case_decide; [subst; by rewrite En|done].
Qed.

Lemma stale_placeholders_age weights reg :
  max_report_age_s (stale_placeholders reg weights) = max_report_age_s reg.
Proof.
  unfold stale_placeholders. revert reg. induction weights as [|[n w] weights IH]; intros reg; [done|].
  cbn. rewrite IH. by case_match.
Qed.

(** ** The reports in the bucket *)

#[local] Instance json_str_dec (o : option json) (k : string) : Decision (o = Some (JStr k)).
Proof.
  destruct o as [[| | | |s| |]|]; try (right; naive_solver).
  destruct (decide (s = k)); [left|right]; naive_solver.
Defined.

(** The cluster a report gives for [k]. *)
Definition usable (weights : weight_map) (now : Z) (k : string) (r : option json) : option PlannerCluster :=
  match r with
  | Some (JObj kvs) =>
      if decide (dget "cluster" kvs = Some (JStr k) ∧ k ≠ EmptyString) then
        match report_cluster weights now k (JObj kvs) with Ret c => Some c | _ => None end
      else None
  | _ => None
  end.

(** The last usable report wins. *)
Definition last_usable (weights : weight_map) (now : Z) (k : string) (rs : list (option json))
    : option PlannerCluster := last (omap (usable weights now k) rs).


Lemma report_cluster_inv weights now k kvs c :
  report_cluster weights now k (JObj kvs) = Ret c →
  name c = k ∧ weight c = default (PFin 1) (dget k weights) ∧ planned_replicas c = 0 ∧
  age_seconds (default JNull (dget "updated_at" kvs)) now = Ret (report_age_s c).
Proof.
  unfold report_cluster, mbind, outcome_bind. intros H. repeat case_match; try done.
  injection H as <-. cbn in *. simplify_eq. by split_and!.
Qed.

Lemma add_report_inv weights now reg r reg' :
  add_report weights now reg r = Ret reg' →
  (reg' = reg ∧ ∀ k, usable weights now k r = None) ∨
  ∃ c, reg' = set_cluster (name c) c reg ∧
       ∀ k, usable weights now k r = if decide (k = name c) then Some c else None.
Proof.
  unfold add_report, usable. destruct r as [[| | | | | |kvs]|]; try (intros [= <-]; by left).
  destruct (dget "cluster" kvs) as [[| | | |cl| |]|] eqn:Ecl;
    try (intros [= <-]; left; split; [done|]; intros k; case_decide; naive_solver).
  case_decide as Hcl.
  { intros [= <-]. left. split; [done|]. intros k. case_decide; naive_solver. }
  destruct (report_cluster weights now cl (JObj kvs)) as [c|e|] eqn:Er; [| |done].
  - intros [= <-]. right. exists c. apply report_cluster_inv in Er as Hinv. destruct Hinv as (Hn & _).
    rewrite Hn. split; [done|]. intros k. destruct (decide (k = cl)) as [->|Hk].
    + rewrite decide_True by done. by rewrite Er.
    + rewrite decide_False; [done|]. naive_solver.
  - case_decide; [|done]. intros [= <-]. left. split; [done|]. intros k. case_decide as Hk; [|done].
    destruct Hk as [[= ->] _]. by rewrite Er.
Qed.

Lemma add_reports_lookup weights now rs reg reg' k :
  add_reports weights now reg rs = Ret reg' →
  dget k (clusters reg') =
    match last_usable weights now k rs with Some c => Some c | None => dget k (clusters reg) end.
Proof.
  unfold last_usable. revert reg. induction rs as [|r rs IH]; intros reg; cbn; [by intros [= <-]|].
  unfold mbind, outcome_bind. destruct (add_report weights now reg r) as [reg1|e|] eqn:Er; [|done|done].
  intros H. rewrite (IH _ H). apply add_report_inv in Er as [[-> Hu]|(c & -> & Hu)].
  - by rewrite Hu.
  - rewrite Hu. cbn [clusters set_cluster]. rewrite dget_dset. case_decide.
    + rewrite last_cons. by destruct (last _).
    + done.
Qed.

Lemma last_usable_elem weights now k rs c :
  last_usable weights now k rs = Some c → ∃ r, r ∈ rs ∧ usable weights now k r = Some c.
Proof.
  unfold last_usable. intros H. apply last_Some_elem_of, list_elem_of_omap in H as (r & ? & ?). eauto.
Qed.

(** ** The registry of a provider *)

Definition good_weight (w : pyfloat) : Prop := isfinite w = true ∧ fle (PFin 0) w = true.

(** An entry under its name, with the weight of the spec if it names one, not yet
    planned for. *)
Definition entry_ok (weights : weight_map) (k : string) (c : PlannerCluster) : Prop :=
  name c = k ∧ (∀ w, dget k weights = Some w → weight c = w) ∧
  (dget k weights = None → good_weight (weight c)) ∧ planned_replicas c = 0.

(** [load] ends with one of these. *)
Definition loaded (weights : weight_map) (reg : PlannerRegistry) : Prop :=
  NoDup (clusters reg).*1 ∧ max_report_age_s reg = PFin 90 ∧
  (∀ k, is_Some (dget k weights) → is_Some (dget k (clusters reg))) ∧
  ∀ k c, dget k (clusters reg) = Some c → entry_ok weights k c.

Lemma loaded_wf weights reg : loaded weights reg → registry_wf reg.
Proof.
  intros (Hnd & _ & _ & He). split; [done|]. intros k c Hin. apply dget_elem_of in Hin; [|done].
  by destruct (He k c Hin).
Qed.

(** What the loops of both providers keep. *)
Definition loading (weights : weight_map) (reg : PlannerRegistry) : Prop :=
  NoDup (clusters reg).*1 ∧ max_report_age_s reg = PFin 90 ∧
  ∀ k c, dget k (clusters reg) = Some c → entry_ok weights k c.

Lemma loading_empty weights : loading weights empty_registry.
Proof. split_and!; [constructor|done|]. done. Qed.

Lemma loading_set weights reg k c :
  loading weights reg → entry_ok weights k c → loading weights (set_cluster k c reg).
Proof.
  intros (Hnd & Ha & He) Hc. split_and!; [by apply dset_NoDup|done|]. intros k' c'. cbn.
  rewrite dget_dset. case_decide; naive_solver.
Qed.

Lemma placeholder_ok weights k w : dget k weights = Some w → entry_ok weights k (placeholder k w).
Proof. intros Hk. split_and!; cbn; [done|congruence|congruence|done]. Qed.

Lemma loading_loaded weights reg : loading weights reg → loaded weights (stale_placeholders reg weights).
Proof.
  intros (Hnd & Ha & He). split_and!.
  - clear Ha He. revert reg Hnd. unfold stale_placeholders. generalize weights.
    intros ws. induction ws as [|[n w] ws IH]; intros reg Hnd; [done|]. cbn. apply IH.
    case_match; [done|]. by apply dset_NoDup.
  - by rewrite stale_placeholders_age.
  - intros k [w Hw]. rewrite stale_placeholders_lookup, Hw. case_match; eauto.
  - intros k c. rewrite stale_placeholders_lookup. case_match eqn:Ek; [intros [= <-]; by apply He|].
    destruct (dget k weights) as [w|] eqn:Ew; [|done]. intros [= <-]. by apply placeholder_ok.
Qed.

Lemma usable_inv weights now k r c :
  usable weights now k r = Some c →
  ∃ kvs, r = Some (JObj kvs) ∧ dget "cluster" kvs = Some (JStr k) ∧
    report_cluster weights now k (JObj kvs) = Ret c.
Proof.
  unfold usable. destruct r as [[| | | | | |kvs]|]; try done. case_decide as Hk; [|done].
  destruct (report_cluster _ _ _ _) eqn:Er; [|done|done]. intros [= <-]. exists kvs. naive_solver.
Qed.

Lemma report_cluster_ok weights now k kvs c :
  report_cluster weights now k (JObj kvs) = Ret c → entry_ok weights k c.
Proof.
  intros (Hn & Hw & Hp & _)%report_cluster_inv. split_and!; [done|..|done].
  - intros w Hk. by rewrite Hw, Hk.
  - intros Hk. by rewrite Hw, Hk.
Qed.

Lemma add_reports_loading weights now rs reg reg' :
  add_reports weights now reg rs = Ret reg' → loading weights reg → loading weights reg'.
Proof.
  revert reg. induction rs as [|r rs IH]; intros reg; cbn; [by intros [= <-]|].
  unfold mbind, outcome_bind. destruct (add_report weights now reg r) as [reg1|e|] eqn:Er; [|done|done].
  intros H Hl. apply (IH _ H). apply add_report_inv in Er as [[-> _]|(c & -> & Hu)]; [done|].
  apply loading_set; [done|]. specialize (Hu (name c)). rewrite decide_True in Hu by done.
  apply usable_inv in Hu as (kvs & _ & _ & Hc). by eapply report_cluster_ok.
Qed.

(** A planner reading capacity reports knows a cluster exactly when it has a
    usable report or the spec names it, takes the last usable report of each, and
    finds it fresh exactly when that report carries a timestamp at most ninety
    seconds old. *)
Theorem gcs_inventory_spec weights now reports reg0 k :
  add_reports weights now empty_registry reports = Ret reg0 →
  let reg := stale_placeholders reg0 weights in
  match dget k (clusters reg) with
  | None => last_usable weights now k reports = None ∧ dget k weights = None
  | Some c =>
      (last_usable weights now k reports = Some c ∨
       (last_usable weights now k reports = None ∧ c = placeholder k (weight c))) ∧
      (is_fresh reg c = true ↔
         ∃ kvs, Some (JObj kvs) ∈ reports ∧ usable weights now k (Some (JObj kvs)) = Some c ∧
           recent (default JNull (dget "updated_at" kvs)) now)
  end.
Proof.
  intros H reg. destruct (loading_loaded weights reg0) as (_ & Hage & _ & _).
  { by eapply add_reports_loading, loading_empty. }
  subst reg. set (reg := stale_placeholders reg0 weights) in *.
  assert (∀ c, is_fresh reg c = fle (report_age_s c) (PFin 90)) as Hfresh
    by (intros c; unfold is_fresh; by rewrite Hage).
  subst reg. rewrite stale_placeholders_lookup, (add_reports_lookup _ _ _ _ _ k H).
  destruct (last_usable weights now k reports) as [c|] eqn:El; cbn [fmap option_fmap option_map].
  - split; [by left|]. rewrite Hfresh. destruct (last_usable_elem _ _ _ _ _ El) as (r & Hr & Hu).
    assert (∀ kvs, usable weights now k (Some (JObj kvs)) = Some c →
      fle (report_age_s c) (PFin 90) = true ↔ recent (default JNull (dget "updated_at" kvs)) now) as Hrec.
    { intros kvs (kvs' & [= <-] & _ & Hc)%usable_inv.
      apply report_cluster_inv in Hc as (_ & _ & _ & Ha). by apply age_fresh. }
    destruct (usable_inv _ _ _ _ _ Hu) as (kvs & -> & _). split.
    + intros Hf. exists kvs. split_and!; [done..|]. by apply (Hrec kvs Hu).
    + intros (kvs' & _ & Hu' & Hr'). by apply (Hrec kvs' Hu').
  - destruct (dget k weights) as [w|] eqn:Ew; cbn [fmap option_fmap option_map]; [|done]. split; [by right|].
    rewrite Hfresh. split; [done|]. intros (kvs & Hin & Hu & _). exfalso.
    unfold last_usable in El. apply last_None in El.
    assert (placeholder k w ∈ omap (usable weights now k) reports) as Hin'
      by (apply list_elem_of_omap; exists (Some (JObj kvs)); by split). rewrite El in Hin'. by apply elem_of_nil in Hin'.
Qed.

(** ** The ClusterProfile provider *)

Lemma finite_finite raw v : finite raw = Some v → isfinite v = true.
Proof. unfold finite. destruct (py_float raw); [|done|done]. case_match; [|done]. by intros [= <-]. Qed.

Lemma float_prop_finite props key v : float_prop props key = Some v → isfinite v = true.
Proof.
  unfold float_prop. destruct (dget key props) as [raw|]; [|done]. cbn. case_decide; [done|].
  apply finite_finite.
Qed.

Lemma weight_for_ok k weights props :
  (∀ w, dget k weights = Some w → weight_for k weights props = w) ∧
  (dget k weights = None → good_weight (weight_for k weights props)).
Proof.
  unfold weight_for. split; [by intros w ->|]. intros ->.
  destruct (float_prop props PROP_SANDBOX_CAPACITY) as [c|] eqn:Ec; [|done].
  destruct (ftruthy c && flt (PFin 0) c) eqn:E; [|done]. apply andb_true_iff in E as [_ E]. split; [by eapply float_prop_finite|].
  unfold fle. by rewrite E.
Qed.

(** A profile the planner may place on. *)
Definition heard_from (require_heartbeat : bool) (props : list (string * string)) (conds : list (string * json))
    (now : Z) : Prop :=
  failing conds COND_CONTROL_PLANE_HEALTHY = Ret false ∧ failing conds COND_JOINED = Ret false ∧
  match dget PROP_HEARTBEAT props with
  | Some (String _ _ as hb) => recent (JStr hb) now
  | _ => require_heartbeat = false ∧ is_Some (dget COND_CONTROL_PLANE_HEALTHY conds)
  end.

Lemma freshness_spec rh n props conds now warned a warned' :
  freshness rh n props conds now warned = Ret (a, warned') →
  fle a (PFin 90) = true ↔ heard_from rh props conds now.
Proof.
  unfold freshness, heard_from, mbind, outcome_bind.
  destruct (failing conds COND_CONTROL_PLANE_HEALTHY) as [[]|e|]; [|..|done|done].
  { intros [= <- _]. naive_solver. }
  destruct (failing conds COND_JOINED) as [[]|e|]; [|..|done|done].
  { intros [= <- _]. naive_solver. }
  destruct (dget PROP_HEARTBEAT props) as [[|ch hb]|].
  2:{ destruct (age_seconds _ _) as [a'|e|] eqn:Ea; [|done|done]. intros [= -> _].
      rewrite (age_fresh _ _ _ Ea). naive_solver. }
  all: destruct rh; [intros [= <- _]; naive_solver|].
  all: destruct (dget COND_CONTROL_PLANE_HEALTHY conds); intros [= <- _].
  all: split; [intros Hf; first [done|by split_and!; eauto]|].
  all: first [done|intros (_ & _ & _ & [? ?]); done].
Qed.

(** On the hub a cluster is fresh exactly when neither of its two conditions is
    present with another status than [True] and its heartbeat is at most ninety
    seconds old; without a heartbeat, when one is not required and
    [ControlPlaneHealthy] is present. *)
Theorem profile_fresh_iff rh profile weights now warned c warned' :
  to_planner_cluster rh profile weights now warned = Ret (Some c, warned') →
  ∃ st props conds, py_get profile "status" = Ret st ∧
    properties (py_or st (JObj [])) = Ret props ∧ conditions (py_or st (JObj [])) = Ret conds ∧
    (fle (report_age_s c) (PFin 90) = true ↔ heard_from rh props conds now).
Proof.
  unfold to_planner_cluster, mbind, outcome_bind.
  destruct (profile_name profile) as [[n|]|e|]; [|done..].
  destruct (py_get profile "status") as [st|e|]; [|done..].
  destruct (properties (py_or st (JObj []))) as [props|e|] eqn:Ep; [|done..].
  destruct (conditions (py_or st (JObj []))) as [conds|e|] eqn:Ecs; [|done..].
  destruct (freshness _ _ _ _ _ _) as [[a w]|e|] eqn:Ef; [|done..]. intros [= <- <-].
  exists st, props, conds. split_and!; [done..|]. by eapply freshness_spec.
Qed.

Lemma to_planner_cluster_ok rh profile weights now warned c warned' :
  to_planner_cluster rh profile weights now warned = Ret (Some c, warned') → entry_ok weights (name c) c.
Proof.
  unfold to_planner_cluster, mbind, outcome_bind.
  destruct (profile_name profile) as [[n|]|e|]; [|done..].
  destruct (py_get profile "status") as [st|e|]; [|done..].
  destruct (properties _) as [props|e|]; [|done..]. destruct (conditions _) as [conds|e|]; [|done..].
  destruct (freshness _ _ _ _ _ _) as [[a w]|e|]; [|done..]. intros [= <- <-].
  destruct (weight_for_ok n weights props) as [H1 H2]. by split_and!.
Qed.

Lemma add_profiles_loading rh weights now ps s s' :
  add_profiles rh weights now s ps = Ret s' → loading weights s.1 → loading weights s'.1.
Proof.
  revert s. induction ps as [|p ps IH]; intros s; cbn; [by intros [= <-]|].
  unfold mbind, outcome_bind.
  destruct (to_planner_cluster rh p weights now s.2) as [[[c|] w]|e|] eqn:Ec; [|..|done|done].
  - intros H Hl. apply (IH _ H). apply loading_set; [done|]. by eapply to_planner_cluster_ok.
  - intros H Hl. by apply (IH _ H).
Qed.


(** ** One bad report *)

Lemma add_reports_app weights now reg rs rs' :
  add_reports weights now reg (rs ++ rs') =
    (reg' ← add_reports weights now reg rs; add_reports weights now reg' rs').
Proof.
  revert reg. induction rs as [|r rs IH]; intros reg; [done|]. cbn. unfold mbind, outcome_bind.
  destruct (add_report _ _ _ _); [|done..]. by rewrite IH.
Qed.

(** A report whose [updated_at] is a number is not skipped: it ends the load
    with an [AttributeError], whatever the other reports are. *)
Theorem numeric_timestamp_stops_load weights now before after n z reg :
  n ≠ EmptyString → z ≠ 0 → add_reports weights now empty_registry before = Ret reg →
  add_reports weights now empty_registry
    (before ++ Some (JObj [("cluster", JStr n); ("updated_at", JInt z)]) :: after) = Raise AttributeError.
Proof.
  intros Hn Hz Hb. rewrite add_reports_app, Hb.
  destruct n as [|a n]; [done|]. destruct z; [done|by vm_compute..].
Qed.

Lemma numeric_timestamp_stops_load_witness :
  "a" ≠ EmptyString ∧
  add_reports [] 0 empty_registry ([] ++ [Some (JObj [("cluster", JStr "a"); ("updated_at", JInt 5)])])
    = Raise AttributeError.
Proof. split; [done|]. apply (numeric_timestamp_stops_load [] 0 [] [] "a" 5 empty_registry); [done|lia|reflexivity]. Defined.

(** ** Witnesses *)

Module Demo.
(** 2026-01-01T00:01:00Z *)
Definition now : Z := 63902822460000000.

Definition reports : list (option json) :=
  [Some (JObj [("cluster", JStr "a"); ("updated_at", JStr "2026-01-01T00:00:00Z")]);
   Some (JObj [("cluster", JStr "b"); ("warmpool_depth", JNull)])].

Definition weights : weight_map := [("b", PFin 2)].

Definition registry : PlannerRegistry :=
  match add_reports weights now empty_registry reports with Ret r => r | _ => empty_registry end.

Definition profile : json :=
  JObj [("metadata", JObj [("name", JStr "a")]);
        ("status", JObj [("conditions", JList [JObj [("type", JStr "Joined"); ("status", JStr "True")]]);
                         ("properties", JList [JObj [("name", JStr "agents.x-k8s.io/heartbeat");
                                                     ("value", JStr "2026-01-01T00:00:00Z")]])])].

Definition store : good_bucket :=
  store_with "fleet/capacity/a.json"
    (RawJson (JObj [("cluster", JStr "a"); ("updated_at", JStr "2026-01-01T00:00:00Z")])) now.
End Demo.


Lemma gcs_inventory_spec_witness :
  ∃ kvs, Some (JObj kvs) ∈ Demo.reports ∧ recent (default JNull (dget "updated_at" kvs)) Demo.now.
Proof.
  pose proof (gcs_inventory_spec Demo.weights Demo.now Demo.reports Demo.registry "a"
    ltac:(vm_compute; reflexivity)) as H.
  cbv zeta in H. destruct (dget "a" _) as [c|] eqn:Ec; [|vm_compute in Ec; discriminate].
  vm_compute in Ec. injection Ec as <-. destruct H as [_ [H _]].
  destruct H as (kvs & Hin & _ & Hr); [by vm_compute|]. by exists kvs.
Defined.

Lemma profile_fresh_iff_witness :
  ∃ c, to_planner_cluster true Demo.profile [] Demo.now [] = Ret (Some c, []) ∧
    fle (report_age_s c) (PFin 90) = true ∧ ∃ props conds, heard_from true props conds Demo.now.
Proof.
  eexists. split; [vm_compute; reflexivity|]. split; [by vm_compute|].
  edestruct (profile_fresh_iff true Demo.profile [] Demo.now [])
    as (st & props & conds & _ & _ & _ & Hf); [vm_compute; reflexivity|].
  exists props, conds. apply Hf. by vm_compute.
Defined.
