(* ===== verification/Planner.v ===== *)
(** The planner: models [planner.py] of
    [src/examples/multi-cluster-fleet/python/agent_sandbox_fleet].

    [plan] turns a spec and a registry into assignments; [apply] reads what is
    published, plans, publishes under a precondition on the store's generation and
    archives the spec. Parsing a pool of a published payload is pydantic's
    ([AssignmentPool.model_validate]) and a parameter; [sum] of floats is the
    parameter [fsum] (it differs between Python versions). Log lines are left out. *)

From Stdlib Require Import String ZArith QArith.
From stdpp Require Import base option list strings sets pretty.
From S2P Require Import Prelude Float Json PyList PyText Regex Models Validation Utils DateTime Budget Placement Effects ObjectStore Inventory.

#[local] Open Scope Z_scope.

Definition SCHEMA_VERSION : Z := 1.

Record ModelSpec := Model {
  ms_image : option string;
  ms_template_name : string;
  ms_target_tasks : Z;
  ms_cluster : option string;
}.

Record FleetSpec := Spec {
  fs_schema_version : Z;
  fs_max_concurrent : Z;
  fs_max_pool : Z;
  fs_placement_policy : string;
  fs_cluster_weights : weight_map;
  fs_models : list ModelSpec;
  fs_min_clusters : Z;
  fs_stale_teardown_after_s : Z;
}.

Record AssignmentPool := Pool {
  ap_image : option string;
  ap_template : string;
  ap_warmpool : string;
  ap_replicas : Z;
}.

Record ClusterAssignment := Entry {
  ca_pools : list AssignmentPool;
  ca_stale_since : option string;
}.

Record Assignments := Assigned {
  as_schema_version : Z;
  as_generation : Z;
  as_updated_at : string;
  as_clusters : list (string * ClusterAssignment);
}.

#[global] Instance AssignmentPool_eq_dec : EqDecision AssignmentPool.
Proof. solve_decision. Defined.

(** ** Validation of a spec at load *)

Definition warmpool_name (template : string) : string := template +:+ "-pool".

(** [_template_name_renders_a_valid_pool_name] *)
Definition template_name_ok (v : string) : bool :=
  let pool := warmpool_name v in
  negb (bool_decide (253 < len pool)%nat) && re_match DNS1123_SUBDOMAIN_RE pool.

Definition schema_known (v : Z) : bool := v =? SCHEMA_VERSION.

Definition weights_finite (v : weight_map) : bool :=
  forallb (λ kw, isfinite kw.2 && negb (flt kw.2 (PFin 0))) v.

(** The validators and the [Field] bounds of both models. *)
Definition spec_valid (s : FleetSpec) : bool :=
  schema_known (fs_schema_version s) && (0 <? fs_max_concurrent s) && (0 <? fs_max_pool s) &&
  weights_finite (fs_cluster_weights s) && (0 <=? fs_min_clusters s) &&
  (0 <=? fs_stale_teardown_after_s s) &&
  forallb (λ m, template_name_ok (ms_template_name m) && (0 <? ms_target_tasks m)) (fs_models s).

(** ** Dumps *)

Definition json_opt_str (o : option string) : json := if o is Some s then JStr s else JNull.

Definition pool_dump (p : AssignmentPool) : json :=
  JObj [("image", json_opt_str (ap_image p)); ("template", JStr (ap_template p));
        ("warmpool", JStr (ap_warmpool p)); ("replicas", JInt (ap_replicas p))].

Definition entry_dump (e : ClusterAssignment) : json :=
  JObj [("pools", JList (map pool_dump (ca_pools e))); ("stale_since", json_opt_str (ca_stale_since e))].

Definition assignments_dump (a : Assignments) : json :=
  JObj [("schema_version", JInt (as_schema_version a)); ("generation", JInt (as_generation a));
        ("updated_at", JStr (as_updated_at a));
        ("clusters", JObj (map (λ ce, (ce.1, entry_dump ce.2)) (as_clusters a)))].

Definition model_dump (m : ModelSpec) : json :=
  JObj [("image", json_opt_str (ms_image m)); ("template_name", JStr (ms_template_name m));
        ("target_tasks", JInt (ms_target_tasks m)); ("cluster", json_opt_str (ms_cluster m))].

(** [spec.model_dump(exclude={"generation"})] *)
Definition spec_dump (s : FleetSpec) : list (string * json) :=
  [("schema_version", JInt (fs_schema_version s)); ("max_concurrent", JInt (fs_max_concurrent s));
   ("max_pool", JInt (fs_max_pool s)); ("placement_policy", JStr (fs_placement_policy s));
   ("cluster_weights", JObj (map (λ kw, (kw.1, JFloat kw.2)) (fs_cluster_weights s)));
   ("models", JList (map model_dump (fs_models s))); ("min_clusters", JInt (fs_min_clusters s));
   ("stale_teardown_after_s", JInt (fs_stale_teardown_after_s s))].

(** ** Placement of the models *)

(** The registry the selectors see, the selector's own state, and the two maps
    keyed by cluster name. *)
Record placing := Placing {
  pl_registry : PlannerRegistry;
  pl_selector : selector;
  pl_tasks : list (string * Z);
  pl_models : list (string * list ModelSpec);
}.

Definition place_on (r : cref) (m : ModelSpec) (s : selector) (p : placing) : placing :=
  let n := name r.2 in
  Placing (bump_planned r (pl_registry p)) s
    (dset n (default 0 (dget n (pl_tasks p)) + ms_target_tasks m) (pl_tasks p))
    (dset n (default [] (dget n (pl_models p)) ++ [m]) (pl_models p)).

Definition sorted_eligible (reg : PlannerRegistry) : list cref :=
  sorted (λ a b : cref, str_lt (name a.2) (name b.2)) (eligible reg).

(** [not s] for an optional string *)
Definition falsy (o : option string) : bool := match o with Some (String _ _) => false | _ => true end.

Section plan.
Context (fsum : list pyfloat → pyfloat) (pool_validate : json → outcome AssignmentPool).

Definition place_pinned (p : placing) (m : ModelSpec) : outcome placing :=
  match ms_cluster m with
  | None => Raise KeyError
  | Some c => r ← registry_get (pl_registry p) c; Ret (place_on r m (pl_selector p) p)
  end.

Definition place_round_robin (elig : list cref) (n : nat) (p : placing) (im : nat * ModelSpec) : outcome placing :=
  r ← py_index elig (im.1 mod n); Ret (place_on r im.2 (pl_selector p) p).

Definition place_spread (elig : list cref) (p : placing) (im : nat * ModelSpec) : outcome placing :=
  if (im.1 <? length elig)%nat then
    r ← py_index elig im.1; Ret (place_on r im.2 (pl_selector p) p)
  else
    match select fsum (pl_selector p) (ms_image im.2) (pl_registry p) with
    | (Ret r, s') => Ret (place_on r im.2 s' p)
    | (Raise e, _) => Raise e
    | (NoFuel, _) => NoFuel
    end.

Fixpoint fold_outcome {A B} (f : B → A → outcome B) (b : B) (l : list A) : outcome B :=
  match l with [] => Ret b | a :: l' => b' ← f b a; fold_outcome f b' l' end.

Definition enumerate {A} (l : list A) : list (nat * A) := imap pair l.

(** The checks before anything is placed. *)
Definition check_spec (spec : FleetSpec) (elig : list cref) : outcome () :=
  if decide (fs_placement_policy spec = "image-affinity") then
    if existsb (λ m, falsy (ms_image m)) (fs_models spec) then Raise ValueError else Ret ()
  else if decide (fs_placement_policy spec = "pinned") then
    if existsb (λ m, falsy (ms_cluster m)) (fs_models spec) then Raise ValueError
    else if forallb (λ m, bool_decide (ms_cluster m ∈ (λ r : cref, Some (name r.2)) <$> elig)) (fs_models spec)
    then Ret () else Raise NoClusterAvailableError
  else Ret ().

(** The mode of the spec, on the eligible clusters in order. *)
Definition place_models (spec : FleetSpec) (elig : list cref) (start : placing) : outcome placing :=
  match elig with
  | [] => Ret start
  | _ =>
      if decide (fs_placement_policy spec = "pinned") then fold_outcome place_pinned start (fs_models spec)
      else if 0 <? fs_min_clusters spec then
        let n := Z.to_nat (Z.min (fs_min_clusters spec) (Z.of_nat (length elig))) in
        fold_outcome (place_round_robin elig n) start (enumerate (fs_models spec))
      else fold_outcome (place_spread elig) start (enumerate (fs_models spec))
  end.

Definition place (spec : FleetSpec) (reg : PlannerRegistry) : outcome placing :=
  s ← get_placement (fs_placement_policy spec);
  let elig := sorted_eligible reg in
  _ ← check_spec spec elig;
  match fresh reg, fs_models spec with
  | [], _ :: _ => Raise NoClusterAvailableError
  | _, _ => place_models spec elig (Placing reg s [] [])
  end.

(** ** Sizing *)

Definition size_pool (spec : FleetSpec) (mc tasks_total : Z) (m : ModelSpec) : outcome AssignmentPool :=
  r ← compute_replicas (ms_target_tasks m) tasks_total mc (fs_max_pool spec) 0 false;
  Ret (Pool (ms_image m) (ms_template_name m) (warmpool_name (ms_template_name m)) r).

Definition size_cluster (spec : FleetSpec) (tasks : list (string * Z)) (budget : list (string * Z))
    (cm : string * list ModelSpec) : outcome (string * ClusterAssignment) :=
  pools ← traverse (size_pool spec (default 0 (dget cm.1 budget)) (default 0 (dget cm.1 tasks))) cm.2;
  Ret (cm.1, Entry pools None).

Definition active_weight (reg : PlannerRegistry) (n : string) : outcome (string * pyfloat) :=
  r ← registry_get reg n; Ret (n, weight r.2).

(** Steps 3 and 4: the entries of the clusters something was placed on. *)
Definition size (spec : FleetSpec) (p : placing) : outcome (list (string * ClusterAssignment)) :=
  active_weights ← traverse (active_weight (pl_registry p)) (pl_tasks p).*1;
  budget ← hamilton_split fsum (fs_max_concurrent spec) active_weights;
  traverse (size_cluster spec (pl_tasks p) budget) (pl_models p).

(** ** The other clusters: frozen or emptied *)

(** [.items()] *)
Definition py_items (v : json) : outcome (list (string * json)) :=
  match v with JObj kvs => Ret kvs | _ => Raise AttributeError end.

Definition previous_entry (kb : string * json) : outcome (string * (list json * json)) :=
  let body := py_or kb.2 (JObj []) in
  pools ← py_get body "pools";
  l ← py_iter (py_or pools (JList []));
  since ← py_get body "stale_since";
  Ret (kb.1, (l, since)).

Definition previous_entries (previous : option json) : outcome (list (string * (list json * json))) :=
  match previous with
  | None => Ret []
  | Some v =>
      cs ← py_get v "clusters";
      kvs ← py_items (py_or cs (JObj []));
      l ← traverse previous_entry kvs;
      Ret (dict_of l)
  end.

(** [(now - timedelta(seconds=age)).isoformat().replace("+00:00", "Z")] *)
Definition silent_since (now : Z) (age : pyfloat) : outcome string :=
  match age with
  | PFin q =>
      let t := now - timedelta_us q in
      if t <? 0 then Raise OverflowError else Ret (iso_z t)
  | PNaN => Raise ValueError
  | _ => Raise OverflowError
  end.

(** [c.report_age_s > registry.max_report_age_s] *)
Definition is_stale (reg : PlannerRegistry) (c : PlannerCluster) : bool :=
  flt (max_report_age_s reg) (report_age_s c).

Definition past_window (window : Z) (c : PlannerCluster) : bool :=
  (0 <? window) && flt (report_age_s c) STALE_AGE_S && flt (PFin (inject_Z window)) (report_age_s c).

Definition nonempty {A} (l : list A) : bool := if l is [] then false else true.

Definition freezes (spec : FleetSpec) (reg : PlannerRegistry) (c : PlannerCluster) (prev_pools : list json) : bool :=
  is_stale reg c && flt (PFin 0) (weight c) && nonempty (fs_models spec) && nonempty prev_pools &&
  negb (past_window (fs_stale_teardown_after_s spec) c).

Definition frozen_since (now : Z) (c : PlannerCluster) (prev_since : json) : outcome string :=
  if truthy prev_since then
    match prev_since with JStr s => Ret s | _ => Raise ValueError end
  else if fle STALE_AGE_S (report_age_s c) then Ret (iso_z now)
  else silent_since now (report_age_s c).

Definition other_entry (spec : FleetSpec) (reg : PlannerRegistry) (prev : list (string * (list json * json)))
    (now : Z) (k : string) (c : PlannerCluster) : outcome ClusterAssignment :=
  let '(prev_pools, prev_since) := default ([], JNull) (dget k prev) in
  if freezes spec reg c prev_pools then
    since ← frozen_since now c prev_since;
    pools ← traverse pool_validate prev_pools;
    Ret (Entry pools (Some since))
  else Ret (Entry [] None).

Definition add_other (spec : FleetSpec) (reg : PlannerRegistry) (prev : list (string * (list json * json)))
    (now : Z) (cs : list (string * ClusterAssignment)) (r : cref)
    : outcome (list (string * ClusterAssignment)) :=
  match dget r.1 cs with
  | Some _ => Ret cs
  | None => e ← other_entry spec reg prev now r.1 r.2; Ret (dset r.1 e cs)
  end.

(** What [plan] does after it has read the clock. *)
Definition finish (spec : FleetSpec) (reg : PlannerRegistry) (generation : Z)
    (prev : list (string * (list json * json))) (placed : list (string * ClusterAssignment)) (now : Z)
    : outcome Assignments :=
  cs ← fold_outcome (add_other spec reg prev now) placed (clusters reg);
  Ret (Assigned SCHEMA_VERSION generation (iso_z now) cs).

(** [plan] up to the clock. *)
Definition prepare (spec : FleetSpec) (reg : PlannerRegistry) (previous : option json)
    : outcome (PlannerRegistry * list (string * (list json * json)) * list (string * ClusterAssignment)) :=
  p ← place spec reg;
  placed ← size spec p;
  prev ← previous_entries previous;
  Ret (pl_registry p, prev, placed).

Definition plan (spec : FleetSpec) (reg : PlannerRegistry) (generation : Z) (previous : option json)
    : prog Assignments :=
  '(reg', prev, placed) ← of_outcome (prepare spec reg previous);
  now ← ask UtcNow;
  of_outcome (finish spec reg' generation prev placed now).

(** [plan] with the clock at [now] *)
Definition plan_at (spec : FleetSpec) (reg : PlannerRegistry) (generation : Z) (previous : option json)
    (now : Z) : outcome Assignments :=
  '(reg', prev, placed) ← prepare spec reg previous;
  finish spec reg' generation prev placed now.

(** ** Publishing *)

Definition next_generation (current : Z) (override : option Z) : outcome Z :=
  match override with
  | None => Ret (current + 1)
  | Some o => if o <=? current then Raise ValueError else Ret o
  end.

Definition read_published_payload (paths : Paths) : prog (option json * Z) :=
  '(raw, store_gen) ← get_json_with_generation (assignments_path paths);
  match raw with
  | None => mret (None, 0)
  | Some v =>
      schema ← of_outcome (py_get_def v "schema_version" (JInt SCHEMA_VERSION));
      if json_eqb schema (JInt SCHEMA_VERSION) then mret (Some v, store_gen) else throw ValueError
  end.

Definition read_published (paths : Paths) : prog (Z * Z) :=
  '(raw, store_gen) ← read_published_payload paths;
  match raw with
  | None => mret (0, 0)
  | Some v =>
      g ← of_outcome (g ← py_get_def v "generation" (JInt 0); int_of_json g);
      mret (g, store_gen)
  end.

(** [int(previous.get("generation", 0)) if previous else 0] *)
Definition published_generation (previous : option json) : outcome Z :=
  match previous with
  | None => Ret 0
  | Some v => if truthy v then g ← py_get_def v "generation" (JInt 0); int_of_json g else Ret 0
  end.

Definition publish (paths : Paths) (a : Assignments) (if_generation_match : option Z) : prog () :=
  put_json (assignments_path paths) (assignments_dump a) if_generation_match.

Definition apply (paths : Paths) (spec : FleetSpec) (load : weight_map → prog PlannerRegistry)
    (generation : option Z) : prog Assignments :=
  '(previous, store_gen) ← read_published_payload paths;
  gen ← of_outcome (g ← published_generation previous; next_generation g generation);
  reg ← load (fs_cluster_weights spec);
  assn ← plan spec reg gen previous;
  _ ← publish paths assn (Some store_gen);
  _ ← put_json (spec_path paths) (JObj (dset "applied_generation" (JInt gen) (spec_dump spec))) None;
  mret assn.

(** ** The dry run *)

(** One line of the difference, without its wording. *)
Inductive pool_change :=
  | AddPool (pool : string) (replicas : Z)
  | Teardown (pool : string) (replicas : Z)
  | Resize (pool : string) (before after : Z).

Inductive cluster_delta :=
  | Unchanged (replicas pools : Z) (frozen : option string)
  | Changed (changes : list pool_change) (frozen : option string).

Record delta := Delta {
  de_generation : Z;
  de_total_old : Z;
  de_total_new : Z;
  de_clusters : list (string * cluster_delta);
}.

(** [{p["warmpool"]: int(p.get("replicas", 0)) for p in ... if p.get("warmpool")}]; a
    name that is no string is taken for a [TypeError]. *)
Definition old_pools (body : json) : outcome (list (string * Z)) :=
  ps ← py_get_def (py_or body (JObj [])) "pools" (JList []);
  l ← py_iter ps;
  fold_outcome (λ d p,
    w ← py_get p "warmpool";
    if truthy w then
      r ← py_get_def p "replicas" (JInt 0);
      n ← int_of_json r;
      match w with JStr s => Ret (dset s n d) | _ => Raise TypeError end
    else Ret d) [] l.

Definition published_pools (published : option json) : outcome (list (string * list (string * Z))) :=
  cs ← py_get (py_or (default JNull published) (JObj [])) "clusters";
  kvs ← py_items (py_or cs (JObj []));
  l ← traverse (λ kb, ps ← old_pools kb.2; Ret (kb.1, ps)) kvs;
  Ret (dict_of l).

Definition planned_pools (e : ClusterAssignment) : list (string * Z) :=
  dict_of ((λ p, (ap_warmpool p, ap_replicas p)) <$> ca_pools e).

(** [sorted(set(a) | set(b))] *)
Definition sorted_union (a b : list string) : list string := sorted str_lt (remove_dups (a ++ b)).

Definition dict_eqb (a b : list (string * Z)) : bool :=
  bool_decide (length a = length b) && forallb (λ kz, bool_decide (dget kz.1 b = Some kz.2)) a.

Definition change_of (o n : list (string * Z)) (pool : string) : option pool_change :=
  match dget pool o, dget pool n with
  | None, Some z => Some (AddPool pool z)
  | Some z, None => Some (Teardown pool z)
  | Some x, Some y => if x =? y then None else Some (Resize pool x y)
  | None, None => None
  end.

Definition frozen_mark (e : option ClusterAssignment) : option string :=
  match e with
  | Some e => if falsy (ca_stale_since e) then None else ca_stale_since e
  | None => None
  end.

Definition format_delta (published : option json) (planned : Assignments) : outcome delta :=
  old ← published_pools published;
  let new := (λ ce, (ce.1, planned_pools ce.2)) <$> as_clusters planned in
  let one c :=
    let o := default [] (dget c old) in
    let n := default [] (dget c new) in
    let frozen := frozen_mark (dget c (as_clusters planned)) in
    (c, if dict_eqb o n then Unchanged (zsum n.*2) (Z.of_nat (length n)) frozen
        else Changed (omap (change_of o n) (sorted_union o.*1 n.*1)) frozen) in
  Ret (Delta (as_generation planned) (zsum ((λ cp, zsum cp.2.*2) <$> old))
         (zsum ((λ cp, zsum cp.2.*2) <$> new)) (one <$> sorted_union old.*1 new.*1)).

Definition preview (paths : Paths) (spec : FleetSpec) (load : weight_map → prog PlannerRegistry)
    : prog delta :=
  '(previous, _) ← read_published_payload paths;
  g ← of_outcome (published_generation previous);
  reg ← load (fs_cluster_weights spec);
  gen ← of_outcome (next_generation g None);
  assn ← plan spec reg gen previous;
  of_outcome (format_delta previous assn).
End plan.
