(* ===== verification/PlannerProofs.v ===== *)
(** What a plan is: every model on one eligible cluster, one entry per known
    cluster, silent clusters frozen, drained ones emptied, the budget kept. *)

From Stdlib Require Import String ZArith QArith Lia.
From stdpp Require Import base option list strings sets pretty.
From S2P Require Import Prelude Float Json PyList PyText Regex Models Validation Utils DateTime Budget BudgetProofs Placement Effects ObjectStore Inventory InventoryProofs Planner.

#[local] Open Scope Z_scope.

(** ** Registries up to what is planned *)

Definition erase (c : PlannerCluster) : PlannerCluster :=
  Cluster (name c) (weight c) (max_replicas c) (warmpool_depth c) (warmpool_ready c)
    (active_claims c) (claim_p90_ms c) (node_pressure_score c) (report_age_s c) 0.

Definition erase_all (l : list cref) : list cref := (λ kc, (kc.1, erase kc.2)) <$> l.

(** The two registries differ in [planned_replicas] only. *)
Definition same_clusters (reg reg' : PlannerRegistry) : Prop :=
  erase_all (clusters reg) = erase_all (clusters reg') ∧ max_report_age_s reg = max_report_age_s reg'.

#[global] Instance same_clusters_equiv : Equivalence same_clusters.
Proof. split; repeat intro; unfold same_clusters in *; intuition congruence. Qed.

Lemma bump_planned_same r reg : same_clusters (bump_planned r reg) reg.
Proof.
  split; [|done]. cbn. unfold erase_all. rewrite <-list_fmap_compose. apply list_fmap_ext.
  intros i [k c] _. cbn. by case_decide.
Qed.

Lemma same_lookup reg reg' k :
  same_clusters reg reg' → erase <$> dget k (clusters reg) = erase <$> dget k (clusters reg').
Proof.
  intros [H _]. assert (∀ l : list cref, erase <$> dget k l = dget k (erase_all l)) as Hd.
  { intros l. induction l as [|[k' c] l IH]; [done|]. cbn. case_decide; [done|]. apply IH. }
  by rewrite !Hd, H.
Qed.

Lemma same_keys reg reg' : same_clusters reg reg' → (clusters reg).*1 = (clusters reg').*1.
Proof.
  intros [H _]. assert (∀ l : list cref, (erase_all l).*1 = l.*1) as Hk.
  { intros l. unfold erase_all. rewrite <-list_fmap_compose. done. }
  by rewrite <-(Hk (clusters reg)), H, Hk.
Qed.

Lemma same_wf reg reg' : same_clusters reg reg' → registry_wf reg → registry_wf reg'.
Proof.
  intros Hs [Hnd Hn]. pose proof (same_keys _ _ Hs) as Hk. split; [by rewrite <-Hk|].
  intros k c Hin. apply dget_elem_of in Hin; [|by rewrite <-Hk].
  pose proof (same_lookup _ _ k Hs) as Hl. rewrite Hin in Hl.
  destruct (dget k (clusters reg)) as [c0|] eqn:E; [|done]. injection Hl as Hn0.
  apply dget_elem_of in E; [|done]. apply Hn in E. congruence.
Qed.

(** A cluster that may be placed on. *)
Definition eligible_name (reg : PlannerRegistry) (n : string) : Prop :=
  ∃ c, dget n (clusters reg) = Some c ∧ is_fresh reg c = true ∧ flt (PFin 0) (weight c) = true.

Lemma eligible_name_same reg reg' n :
  same_clusters reg reg' → eligible_name reg n → eligible_name reg' n.
Proof.
  intros Hs (c & Hc & Hf & Hw). pose proof (same_lookup _ _ n Hs) as Hl. rewrite Hc in Hl.
  destruct (dget n (clusters reg')) as [c'|] eqn:E; [|done]. injection Hl as ? Hwt _ _ _ _ _ _ Hage.
  exists c'. unfold is_fresh in *. destruct Hs as [_ Hm]. rewrite <-Hwt, <-Hm, <-Hage. done.
Qed.

Lemma eligible_eligible_name reg r :
  registry_wf reg → r ∈ eligible reg → eligible_name reg (name r.2) ∧ r.1 = name r.2.
Proof.
  intros [Hnd Hn] (Hr & Hf & Hw)%eligible_elem. destruct r as [k c]. cbn in *.
  rewrite (Hn _ _ Hr). split; [|done]. exists c. split_and!; [|done..]. by apply dget_elem_of.
Qed.

Lemma placeable_eligible_name reg r :
  registry_wf reg → placeable reg r → eligible_name reg (name r.2).
Proof.
  intros Hwf (Hr & Hf & Hw & _). apply eligible_eligible_name; [done|]. by apply eligible_elem.
Qed.

(** ** The placement loop *)

Definition placed_models (p : placing) : list ModelSpec := concat (pl_models p).*2.

(** What the loop keeps: the models [done_] are distributed over eligible clusters,
    and the two maps agree. *)
Record placed_inv (reg : PlannerRegistry) (done_ : list ModelSpec) (p : placing) : Prop := {
  pi_same : same_clusters (pl_registry p) reg;
  pi_nodup : NoDup (pl_models p).*1;
  pi_keys : (pl_tasks p).*1 = (pl_models p).*1;
  pi_perm : placed_models p ≡ₚ done_;
  pi_entry : ∀ n ms, dget n (pl_models p) = Some ms →
    ms ≠ [] ∧ dget n (pl_tasks p) = Some (zsum (ms_target_tasks <$> ms)) ∧ eligible_name reg n;
}.

Lemma placed_inv_start reg s : placed_inv reg [] (Placing reg s [] []).
Proof. by split; [done|constructor|done|done|]. Qed.

Lemma concat_dset (n : string) (m : ModelSpec) (d : list (string * list ModelSpec)) :
  NoDup d.*1 → concat (dset n (default [] (dget n d) ++ [m]) d).*2 ≡ₚ m :: concat d.*2.
Proof.
  induction d as [|[k ms] d IH]; cbn; intros Hnd; [done|]. inversion_clear Hnd as [|? ? Hk Hd].
  case_decide; subst; cbn.
  - rewrite <-app_assoc. cbn. by rewrite <-Permutation_middle.
  - rewrite (IH Hd). by rewrite <-Permutation_middle.
Qed.

Lemma dset_keys_eq {A B} n (a : A) (b : B) (d : list (string * A)) (e : list (string * B)) :
  d.*1 = e.*1 → (dset n a d).*1 = (dset n b e).*1.
Proof.
  revert e. induction d as [|[k x] d IH]; intros [|[k' y] e] H; try done. cbn in *.
  injection H as -> H. case_decide; cbn; [by f_equal|]. f_equal. by apply IH.
Qed.

Lemma placed_inv_step reg done_ p r m s :
  placed_inv reg done_ p → eligible_name reg (name r.2) →
  placed_inv reg (done_ ++ [m]) (place_on r m s p).
Proof.
  intros [Hs Hnd Hk Hp He] Hr. split; cbn.
  - etrans; [apply bump_planned_same|done].
  - by apply dset_NoDup.
  - by apply dset_keys_eq.
  - unfold placed_models in *. cbn. rewrite concat_dset by done. rewrite Hp.
    by rewrite (Permutation_app_comm done_ [m]).
  - intros n ms. rewrite !dget_dset. case_decide; subst; [|by apply He].
    intros [= <-]. split; [by destruct (default [] _)|]. split; [|done]. f_equal.
    rewrite fmap_app, zsum_app. cbn. rewrite Z.add_0_r. f_equal.
    destruct (dget (name r.2) (pl_models p)) as [ms|] eqn:E; cbn.
    + by destruct (He _ _ E) as (_ & -> & _).
    + assert (dget (name r.2) (pl_tasks p) = None) as ->; [|done].
      apply dget_None. rewrite Hk. by apply dget_None.
Qed.

(** A loop that places each model on an eligible cluster. *)
Lemma fold_place_inv {A} (f : placing → A → outcome placing) (model : A → ModelSpec) reg l :
  (∀ done_ p a p', placed_inv reg done_ p → a ∈ l → f p a = Ret p' →
     ∃ r s, p' = place_on r (model a) s p ∧ eligible_name reg (name r.2)) →
  ∀ done_ p p', placed_inv reg done_ p → fold_outcome f p l = Ret p' →
    placed_inv reg (done_ ++ (model <$> l)) p'.
Proof.
  induction l as [|a l IH]; intros Hf done_ p p' Hinv; cbn.
  - intros [= <-]. by rewrite app_nil_r.
  - unfold mbind, outcome_bind. destruct (f p a) as [p1|e|] eqn:E; [|done..]. intros H.
    destruct (Hf _ _ _ _ Hinv ltac:(by left) E) as (r & s & -> & Hr).
    rewrite cons_middle, app_assoc. eapply IH; [|by eapply placed_inv_step|done].
    intros d q b q' Hq Hb. apply Hf with d; [done|]. by right.
Qed.

Lemma sorted_eligible_elem reg r : r ∈ sorted_eligible reg ↔ r ∈ eligible reg.
Proof. apply elem_of_sorted. Qed.

Lemma py_index_elem {A} (l : list A) i x : py_index l i = Ret x → l !! i = Some x.
Proof. unfold py_index. destruct (l !! i); congruence. Qed.

Lemma enumerate_models {A} (l : list A) : snd <$> enumerate l = l.
Proof.
  unfold enumerate. rewrite fmap_imap. etrans; [apply (imap_const id)|apply list_fmap_id].
Qed.

Lemma check_spec_pinned spec elig m :
  check_spec spec elig = Ret () → fs_placement_policy spec = "pinned" → m ∈ fs_models spec →
  ∃ r, r ∈ elig ∧ ms_cluster m = Some (name r.2).
Proof.
  unfold check_spec. intros H Hp Hm. rewrite Hp in H. rewrite decide_False in H by done.
  rewrite decide_True in H by done. case_match; [done|]. case_match eqn:Ha; [|done].
  apply Is_true_true, forallb_True in Ha. rewrite Forall_forall in Ha. specialize (Ha m Hm).
  apply bool_decide_unpack, list_elem_of_fmap in Ha as (r & -> & Hr). by exists r.
Qed.

Section plan.
Context (fsum : list pyfloat → pyfloat).

Lemma index_eligible reg i r :
  registry_wf reg → py_index (sorted_eligible reg) i = Ret r → eligible_name reg (name r.2).
Proof.
  intros Hwf H%py_index_elem%list_elem_of_lookup_2%sorted_eligible_elem.
  by apply eligible_eligible_name.
Qed.

Lemma select_eligible reg p s image r s' :
  registry_wf reg → same_clusters (pl_registry p) reg →
  select fsum s image (pl_registry p) = (Ret r, s') → eligible_name reg (name r.2).
Proof.
  intros Hwf Hs H. assert (registry_wf (pl_registry p)) as Hwf' by (by eapply same_wf; [symmetry|]).
  eapply eligible_name_same; [done|]. apply placeable_eligible_name; [done|]. by eapply select_placeable.
Qed.

Lemma place_pinned_inv spec reg s p :
  registry_wf reg → check_spec spec (sorted_eligible reg) = Ret () →
  fs_placement_policy spec = "pinned" →
  fold_outcome place_pinned (Placing reg s [] []) (fs_models spec) = Ret p →
  placed_inv reg (fs_models spec) p.
Proof.
  intros Hwf Hc Hpin H. rewrite <-(app_nil_l (fs_models spec)), <-(list_fmap_id (fs_models spec)).
  eapply (fold_place_inv place_pinned id); [|apply placed_inv_start|exact H].
  intros d q m q' Hq Hm. unfold place_pinned. destruct (ms_cluster m) as [c|] eqn:Ec; [|done].
  unfold mbind, outcome_bind. destruct (registry_get _ c) as [r|e|] eqn:Er; [|done..]. intros [= <-].
  exists r, (pl_selector q). split; [done|].
  destruct (check_spec_pinned _ _ _ Hc Hpin Hm) as (r' & Hr' & Hn). rewrite Ec in Hn. injection Hn as ->.
  assert (registry_wf (pl_registry q)) as Hwf' by (by eapply same_wf; [symmetry; apply Hq|]).
  apply registry_get_elem in Er as [Hin Hk]; [|done]. destruct r as [k c0]. cbn in *. subst k.
  rewrite (proj2 Hwf' _ _ Hin). by apply eligible_eligible_name, sorted_eligible_elem.
Qed.

Lemma place_round_robin_inv reg n s models p :
  registry_wf reg →
  fold_outcome (place_round_robin (sorted_eligible reg) n) (Placing reg s [] []) (enumerate models) = Ret p →
  placed_inv reg models p.
Proof.
  intros Hwf H. rewrite <-(app_nil_l models), <-(enumerate_models models).
  eapply fold_place_inv; [|apply placed_inv_start|exact H]. intros d q [i m] q' Hq _.
  unfold place_round_robin, mbind, outcome_bind. cbn.
  destruct (py_index _ _) as [r|e|] eqn:Er; [|done..]. intros [= <-].
  exists r, (pl_selector q). split; [done|]. by eapply index_eligible.
Qed.

Lemma place_spread_inv reg s models p :
  registry_wf reg →
  fold_outcome (place_spread fsum (sorted_eligible reg)) (Placing reg s [] []) (enumerate models) = Ret p →
  placed_inv reg models p.
Proof.
  intros Hwf H. rewrite <-(app_nil_l models), <-(enumerate_models models).
  eapply fold_place_inv; [|apply placed_inv_start|exact H]. intros d q [i m] q' Hq _.
  unfold place_spread, mbind, outcome_bind. cbn [fst snd]. destruct (i <? length (sorted_eligible reg))%nat.
  - destruct (py_index _ _) as [r|e|] eqn:Er; [|done..]. intros [= <-].
    exists r, (pl_selector q). split; [done|]. by eapply index_eligible.
  - destruct (select _ _ _ _) as [[r|e|] s'] eqn:Es; [|done..]. intros [= <-].
    exists r, s'. split; [done|]. eapply select_eligible; [done|apply Hq|done].
Qed.

Lemma sorted_eligible_nil reg : sorted_eligible reg = [] ↔ eligible reg = [].
Proof.
  split; intros E.
  - apply (f_equal length) in E. unfold sorted_eligible in E. rewrite length_sorted in E.
    by destruct (eligible reg).
  - unfold sorted_eligible. by rewrite E.
Qed.

Lemma place_unfold spec reg p :
  place fsum spec reg = Ret p →
  ∃ s, check_spec spec (sorted_eligible reg) = Ret () ∧
    place_models fsum spec (sorted_eligible reg) (Placing reg s [] []) = Ret p.
Proof.
  unfold place, mbind, outcome_bind. destruct (get_placement _) as [s|e|]; [|done..].
  destruct (check_spec _ _) as [[]|e|]; [|done..]. intros H. exists s. split; [done|].
  by destruct (fresh reg), (fs_models spec).
Qed.

(** The models are all placed, or every fresh cluster is drained and none is. *)
Lemma place_inv spec reg p :
  registry_wf reg → place fsum spec reg = Ret p →
  (eligible reg = [] ∧ placed_inv reg [] p) ∨ (eligible reg ≠ [] ∧ placed_inv reg (fs_models spec) p).
Proof.
  intros Hwf (s & Hc & Hm)%place_unfold. rewrite <-sorted_eligible_nil. unfold place_models in Hm.
  destruct (sorted_eligible reg) as [|r0 l] eqn:He.
  - left. split; [done|]. injection Hm as <-. apply placed_inv_start.
  - right. split; [done|]. rewrite <-He in *.
    case_decide as Hpin; [by eapply place_pinned_inv|].
    destruct (0 <? fs_min_clusters spec); [by eapply place_round_robin_inv|by eapply place_spread_inv].
Qed.

(** ** Sizing *)

(** The pool a model becomes. *)
Definition pool_for (m : ModelSpec) (p : AssignmentPool) : Prop :=
  ap_image p = ms_image m ∧ ap_template p = ms_template_name m ∧
  ap_warmpool p = warmpool_name (ms_template_name m).

(** The entry of a cluster with its models. *)
Definition entry_for (ms : list ModelSpec) (e : ClusterAssignment) : Prop :=
  ca_stale_since e = None ∧ Forall2 pool_for ms (ca_pools e).

Lemma size_cluster_for spec tasks budget cm e :
  size_cluster spec tasks budget cm = Ret e → e.1 = cm.1 ∧ entry_for cm.2 e.2.
Proof.
  unfold size_cluster, mbind, outcome_bind. destruct (traverse _ _) as [pools|err|] eqn:E; [|done..].
  intros [= <-]. split; [done|]. split; [done|]. cbn. apply traverse_Forall2 in E.
  eapply Forall2_impl; [exact E|]. intros m pl. unfold size_pool, mbind, outcome_bind.
  destruct (compute_replicas _ _ _ _ _ _); [|done..]. by intros [= <-].
Qed.

Lemma size_for spec p placed :
  size fsum spec p = Ret placed →
  placed.*1 = (pl_models p).*1 ∧
  ∀ n, match dget n (pl_models p) with
       | Some ms => ∃ e, dget n placed = Some e ∧ entry_for ms e
       | None => dget n placed = None
       end.
Proof.
  unfold size, mbind, outcome_bind. destruct (traverse (active_weight _) _); [|done..].
  destruct (hamilton_split _ _ _); [|done..]. intros H%traverse_Forall2.
  induction H as [|cm e ms es He H [IH1 IH2]]; [done|].
  apply size_cluster_for in He as [Hk He]. destruct cm as [k ms0], e as [k' e]. cbn in *. subst k'.
  split; [by f_equal|]. intros n. case_decide; [by eauto|]. apply IH2.
Qed.

(** ** The other clusters *)

Context (pool_validate : json → outcome AssignmentPool).
Abbreviation other := (other_entry pool_validate).

Lemma add_others_lookup spec reg prev now l placed cs :
  NoDup l.*1 → fold_outcome (add_other pool_validate spec reg prev now) placed l = Ret cs →
  (NoDup placed.*1 → NoDup cs.*1) ∧
  ∀ k, match dget k placed with
       | Some e => dget k cs = Some e
       | None => match dget k l with
                 | Some c => ∃ e, other spec reg prev now k c = Ret e ∧ dget k cs = Some e
                 | None => dget k cs = None
                 end
       end.
Proof.
  revert placed. induction l as [|[k0 c0] l IH]; intros placed Hnd; cbn.
  { intros [= <-]. split; [done|]. intros k. by destruct (dget k placed). }
  inversion_clear Hnd as [|? ? Hk0 Hl]. unfold mbind, outcome_bind, add_other at 1. cbn.
  destruct (dget k0 placed) as [e0|] eqn:E0.
  - intros H. destruct (IH _ Hl H) as [IHn IHk]. split; [done|]. intros k. specialize (IHk k).
    destruct (dget k placed) eqn:Ek; [done|]. case_decide; [congruence|done].
  - unfold mbind, outcome_bind. destruct (other_entry _ _ _ _ _ k0 c0) as [e0|err|] eqn:Eo; [|done..].
    intros H. destruct (IH _ Hl H) as [IHn IHk]. split; [intros Hp; apply IHn; by apply dset_NoDup|].
    intros k. specialize (IHk k). rewrite dget_dset in IHk. case_decide; subst.
    + rewrite E0. eauto.
    + done.
Qed.

(** ** A whole plan *)

(** The pools a previous payload has for a cluster. *)
Definition previous_of (prev : list (string * (list json * json))) (k : string) : list json * json :=
  default ([], JNull) (dget k prev).

(** The entry of a cluster on which nothing was placed: frozen, or empty. *)
Definition left_over (spec : FleetSpec) (reg : PlannerRegistry) (prev : list (string * (list json * json)))
    (now : Z) (k : string) (c : PlannerCluster) (e : ClusterAssignment) : Prop :=
  if freezes spec reg c (previous_of prev k).1 then
    traverse pool_validate (previous_of prev k).1 = Ret (ca_pools e) ∧
    ∃ since, frozen_since now c (previous_of prev k).2 = Ret since ∧ ca_stale_since e = Some since
  else e = Entry [] None.

Lemma other_left_over spec reg reg' prev now k c c' e :
  same_clusters reg' reg → erase c' = erase c →
  other spec reg' prev now k c' = Ret e → left_over spec reg prev now k c e.
Proof.
  intros [_ Hm] Hc. injection Hc as _ Hw _ _ _ _ _ _ Ha.
  unfold other_entry, left_over, previous_of. destruct (default _ _) as [pools since]. cbn.
  assert (freezes spec reg' c' pools = freezes spec reg c pools) as ->
    by (unfold freezes, is_stale, past_window; by rewrite Hw, Ha, Hm).
  assert (frozen_since now c' since = frozen_since now c since) as ->
    by (unfold frozen_since; by rewrite Ha).
  destruct (freezes _ _ _ _); [|by intros [= <-]]. unfold mbind, outcome_bind.
  destruct (frozen_since now c since) as [s|err|]; [|done..].
  destruct (traverse _ _) as [ps|err|]; [|done..]. intros [= <-]. cbn. eauto.
Qed.

Lemma plan_inv spec reg gen previous now a :
  registry_wf reg → plan_at fsum pool_validate spec reg gen previous now = Ret a →
  ∃ p prev, place fsum spec reg = Ret p ∧ previous_entries previous = Ret prev ∧
    as_generation a = gen ∧ as_updated_at a = iso_z now ∧ as_schema_version a = SCHEMA_VERSION ∧
    NoDup (as_clusters a).*1 ∧
    (∀ k, is_Some (dget k (as_clusters a)) ↔ is_Some (dget k (clusters reg))) ∧
    ∀ k c, dget k (clusters reg) = Some c → ∃ e, dget k (as_clusters a) = Some e ∧
      match dget k (pl_models p) with
      | Some ms => entry_for ms e
      | None => left_over spec reg prev now k c e
      end.
Proof.
  intros Hwf. unfold plan_at, prepare, mbind, outcome_bind.
  destruct (place fsum spec reg) as [p|err|] eqn:Ep; [|done..].
  destruct (size fsum spec p) as [placed|err|] eqn:Es; [|done..].
  destruct (previous_entries previous) as [prev|err|]; [|done..]. unfold finish, mbind, outcome_bind.
  destruct (fold_outcome _ _ _) as [cs|err|] eqn:Ef; [|done..]. intros [= <-]. exists p, prev. cbn.
  assert (∃ done_, placed_inv reg done_ p) as [done_ [Hs Hnd Hk Hperm He]]
    by (destruct (place_inv _ _ _ Hwf Ep) as [[_ ?]|[_ ?]]; eauto).
  destruct (size_for _ _ _ Es) as [Hpk Hp]. pose proof (same_keys _ _ Hs) as Hkeys.
  apply add_others_lookup in Ef as [Hn Hl]; [|rewrite Hkeys; apply Hwf].
  split_and!; [done..| | |].
  - apply Hn. by rewrite Hpk.
  - intros k. specialize (Hl k). specialize (Hp k). pose proof (same_lookup _ _ k Hs) as Hsl.
    destruct (dget k (pl_models p)) as [ms|] eqn:Em.
    + destruct Hp as (e & Hpe & _). rewrite Hpe in Hl. rewrite Hl.
      destruct (He _ _ Em) as (_ & _ & (c & Hc & _)). rewrite Hc. split; by eauto.
    + rewrite Hp in Hl. destruct (dget k (clusters (pl_registry p))), (dget k (clusters reg)); try done.
      * destruct Hl as (e & _ & ->). split; eauto.
      * rewrite Hl. split; intros [? ?]; done.
  - intros k c Hc. specialize (Hl k). specialize (Hp k). pose proof (same_lookup _ _ k Hs) as Hsl.
    destruct (dget k (pl_models p)) as [ms|] eqn:Em.
    + destruct Hp as (e & Hpe & Hfor). rewrite Hpe in Hl. eauto.
    + rewrite Hp in Hl. rewrite Hc in Hsl.
      destruct (dget k (clusters (pl_registry p))) as [c'|] eqn:Ec'; [|done]. injection Hsl as Hsl.
      destruct Hl as (e & Ho & Hcs). exists e. split; [done|]. eapply other_left_over; [done| |done].
      unfold erase. congruence.
Qed.
End plan.
