(* ===== verification/PlanProperties.v ===== *)
(** Properties of a plan: coverage, freezing, draining, the refusal to plan blind,
    and the budget. *)

From Stdlib Require Import String ZArith QArith Lia Qabs.
From stdpp Require Import base option list strings sets pretty.
From S2P Require Import Prelude Float PyList Json PyText Regex Models Validation Utils DateTime DateTimeProofs Budget BudgetProofs Placement Effects ObjectStore Inventory InventoryProofs Planner PlannerProofs.

#[local] Open Scope Z_scope.

Lemma flt_not_fle a b : flt a b = true → fle b a = false.
Proof.
  unfold fle. destruct a as [p| | |], b as [q| | |]; try done. cbn. unfold Qlt_bool.
  rewrite negb_true_iff. intros H. apply orb_false_iff. split.
  - rewrite negb_false_iff. apply Qle_bool_iff. apply not_true_iff_false in H. rewrite Qle_bool_iff in H.
    apply Qlt_le_weak. by apply Qnot_le_lt.
  - apply not_true_iff_false in H. rewrite Qle_bool_iff in H. apply not_true_iff_false.
    rewrite Qeq_bool_iff. intros E. apply H. rewrite E. apply Qle_refl.
Qed.

(** ** The previous payload, read back *)

(** What a published entry is to the next plan. *)
Definition read_back (e : ClusterAssignment) : list json * json :=
  (map sort_keys (map pool_dump (ca_pools e)), json_opt_str (ca_stale_since e)).

Lemma previous_entry_read_back k e :
  previous_entry (k, sort_keys (entry_dump e)) = Ret (k, read_back e).
Proof.
  unfold previous_entry. cbn [fst snd]. unfold py_or at 1. rewrite truthy_sort_keys. cbn [truthy entry_dump].
  unfold entry_dump. rewrite !py_get_sort_keys by (by vm_compute; repeat constructor; set_solver).
  cbn -[sort_keys]. unfold read_back. destruct (ca_pools e); by destruct (ca_stale_since e).
Qed.

Lemma previous_entries_read_back a :
  NoDup (as_clusters a).*1 →
  ∃ prev, previous_entries (Some (sort_keys (assignments_dump a))) = Ret prev ∧
    ∀ k, dget k prev = read_back <$> dget k (as_clusters a).
Proof.
  intros Hnd. unfold previous_entries, assignments_dump.
  rewrite py_get_sort_keys by (by vm_compute; repeat constructor; set_solver).
  set (sl := sorted (λ x y : string * ClusterAssignment, str_lt x.1 y.1) (as_clusters a)).
  assert (sort_keys (JObj (map (λ ce, (ce.1, entry_dump ce.2)) (as_clusters a))) =
          JObj ((λ ce, (ce.1, sort_keys (entry_dump ce.2))) <$> sl)) as Hs.
  { rewrite sort_keys_obj. f_equal. etrans; [|by apply (sorted_fmap _ (λ x y : string * json, str_lt x.1 y.1))].
    f_equal. rewrite <-list_fmap_compose. done. }
  match goal with |- context [dget "clusters" ?l] =>
    change (dget "clusters" l) with (Some (JObj (map (λ ce, (ce.1, entry_dump ce.2)) (as_clusters a)))) end.
  cbn [fmap option_fmap option_map default from_option id mbind outcome_bind]. rewrite Hs. clear Hs.
  exists ((λ ke, (ke.1, read_back ke.2)) <$> sl). split.
  - assert (py_items (py_or (JObj ((λ ce, (ce.1, sort_keys (entry_dump ce.2))) <$> sl)) (JObj []))
      = Ret ((λ ce, (ce.1, sort_keys (entry_dump ce.2))) <$> sl)) as -> by (by destruct sl).
    cbn [mbind outcome_bind]. assert (NoDup sl.*1) as Hsl by (unfold sl; by rewrite sorted_perm).
    rewrite traverse_fmap, (traverse_ret _ (λ ke, (ke.1, read_back ke.2)))
      by (intros [k e] _; apply previous_entry_read_back).
    cbn [mbind outcome_bind]. f_equal. apply dict_of_NoDup. by rewrite <-list_fmap_compose.
  - intros k. rewrite dget_fmap. f_equal. apply dget_perm; [|apply sorted_perm].
    unfold sl. by rewrite sorted_perm.
Qed.

Section properties.
Context (fsum : list pyfloat → pyfloat) (pool_validate : json → outcome AssignmentPool).
Abbreviation plan_now := (plan_at fsum pool_validate).

(** An entry that starts nothing: no pools, or the pools of a silent cluster. *)
Definition starts_nothing (e : ClusterAssignment) : Prop := ca_pools e = [] ∨ is_Some (ca_stale_since e).


(** A cluster nothing can be placed on is not among the placed ones. *)
Lemma not_placed spec reg p k c :
  registry_wf reg → place fsum spec reg = Ret p → dget k (clusters reg) = Some c →
  is_fresh reg c = false ∨ flt (PFin 0) (weight c) = false → dget k (pl_models p) = None.
Proof.
  intros Hwf Hp Hc Hx. destruct (dget k (pl_models p)) as [ms|] eqn:Em; [|done].
  assert (∃ d, placed_inv reg d p) as [d [_ _ _ _ He]]
    by (destruct (place_inv _ _ _ _ Hwf Hp) as [[_ ?]|[_ ?]]; eauto).
  destruct (He _ _ Em) as (_ & _ & c' & Hc' & Hf & Hw). rewrite Hc in Hc'. injection Hc' as <-.
  destruct Hx; congruence.
Qed.

Lemma drained_entry spec reg gen previous now a k c :
  registry_wf reg → plan_now spec reg gen previous now = Ret a → dget k (clusters reg) = Some c →
  flt (PFin 0) (weight c) = false → dget k (as_clusters a) = Some (Entry [] None).
Proof.
  intros Hwf Ha Hc Hw. destruct (plan_inv _ _ _ _ _ _ _ _ Hwf Ha) as (p & prev & Hp & _ & _ & _ & _ & _ & _ & He).
  destruct (He k c Hc) as (e & Hke & Hm). rewrite (not_placed _ _ _ _ _ Hwf Hp Hc) in Hm by auto.
  unfold left_over, freezes in Hm. rewrite Hw in Hm. rewrite !andb_false_r in Hm. cbn in Hm. by subst e.
Qed.

(** A cluster with weight zero is emptied by every plan, fresh or silent,
    whatever it held. *)
Theorem drained_cluster_emptied spec reg gen previous now a k c :
  registry_wf reg → plan_now spec reg gen previous now = Ret a → dget k (clusters reg) = Some c →
  flt (PFin 0) (weight c) = false → dget k (as_clusters a) = Some (Entry [] None).
Proof. apply drained_entry. Qed.

(** Without one fresh report the planner refuses to plan any model: it never
    publishes an empty plan for lack of data. *)
Theorem plan_refuses_blind spec reg gen previous now :
  fresh reg = [] → fs_models spec ≠ [] → ∀ a, plan_now spec reg gen previous now ≠ Ret a.
Proof.
  intros Hf Hm a. unfold plan_at, prepare, place, mbind, outcome_bind. rewrite Hf.
  destruct (get_placement _); [|done..]. destruct (check_spec _ _); [|done..]. by destruct (fs_models spec).
Qed.

Lemma frozen_since_nonempty now c prev since : frozen_since now c prev = Ret since → since ≠ EmptyString.
Proof.
  unfold frozen_since, silent_since. destruct (truthy prev) eqn:Et.
  - destruct prev; try done. intros [= <-]. by apply truthy_str.
  - destruct (fle _ _); [intros [= <-]; apply iso_z_nonempty|]. destruct (report_age_s c); try done.
    case_match; [done|]. intros [= <-]. apply iso_z_nonempty.
Qed.

(** pydantic parses what it dumped. *)
Hypothesis validate_dump : ∀ p, pool_validate (sort_keys (pool_dump p)) = Ret p.

Lemma stale_frozen spec reg gen now a0 e0 a k c :
  registry_wf reg → NoDup (as_clusters a0).*1 →
  plan_now spec reg gen (Some (sort_keys (assignments_dump a0))) now = Ret a →
  dget k (clusters reg) = Some c → dget k (as_clusters a0) = Some e0 → ca_pools e0 ≠ [] →
  is_stale reg c = true → flt (PFin 0) (weight c) = true → fs_models spec ≠ [] →
  past_window (fs_stale_teardown_after_s spec) c = false →
  ∃ since, dget k (as_clusters a) = Some (Entry (ca_pools e0) (Some since)) ∧ since ≠ EmptyString ∧
    (falsy (ca_stale_since e0) = false → ca_stale_since e0 = Some since).
Proof.
  intros Hwf Hnd Ha Hc He0 Hpools Hst Hw Hm Hpw.
  destruct (plan_inv _ _ _ _ _ _ _ _ Hwf Ha) as (p & prev & Hp & Hprev & _ & _ & _ & _ & _ & He).
  destruct (previous_entries_read_back a0 Hnd) as (prev' & Hprev' & Hlook).
  rewrite Hprev' in Hprev. injection Hprev as <-.
  destruct (He k c Hc) as (e & Hke & Hleft).
  rewrite (not_placed _ _ _ _ _ Hwf Hp Hc) in Hleft by (left; by apply flt_not_fle).
  unfold left_over, previous_of in Hleft. rewrite (Hlook k), He0 in Hleft. cbn [fmap option_fmap option_map default from_option id read_back fst snd] in Hleft.
  assert (freezes spec reg c (map sort_keys (map pool_dump (ca_pools e0))) = true) as Hfz.
  { unfold freezes. rewrite Hst, Hw, Hpw. by destruct (fs_models spec), (ca_pools e0). }
  rewrite Hfz in Hleft. destruct Hleft as (Hval & since & Hsince & Hmark).
  rewrite map_map, (traverse_fmap pool_validate) in Hval.
  rewrite (traverse_ret _ id) in Hval by (intros q _; apply validate_dump).
  rewrite list_fmap_id in Hval. injection Hval as Hval.
  exists since. rewrite Hke. destruct e as [ps mark]. cbn in *. subst ps mark. split; [done|]. split; [by eapply frozen_since_nonempty|].
  unfold frozen_since in Hsince. destruct (ca_stale_since e0) as [[|ch s]|]; [done| |done].
  intros _. cbn in Hsince. by injection Hsince as <-.
Qed.

(** A cluster whose report went silent keeps the pools it was last assigned,
    unchanged and marked, as long as it is not drained, the spec has models and the
    silence is within the teardown window; the mark keeps the time of the first
    plan that froze it. *)
Theorem stale_cluster_frozen spec reg gen now a0 e0 a k c :
  registry_wf reg → NoDup (as_clusters a0).*1 →
  plan_now spec reg gen (Some (sort_keys (assignments_dump a0))) now = Ret a →
  dget k (clusters reg) = Some c → dget k (as_clusters a0) = Some e0 → ca_pools e0 ≠ [] →
  is_stale reg c = true → flt (PFin 0) (weight c) = true → fs_models spec ≠ [] →
  past_window (fs_stale_teardown_after_s spec) c = false →
  ∃ since, dget k (as_clusters a) = Some (Entry (ca_pools e0) (Some since)) ∧
    (falsy (ca_stale_since e0) = false → ca_stale_since e0 = Some since).
Proof.
  intros Hwf Hnd Ha Hc He0 Hpools Hst Hw Hm Hpw.
  destruct (stale_frozen spec reg gen now a0 e0 a k c) as (since & Hk & _ & Hs); [done..|]. by exists since.
Qed.
End properties.

(** ** Witnesses *)

Module DemoPlan.
(** Parsing a pool, as far as the demonstration needs it. *)
Definition validate (v : json) : outcome AssignmentPool :=
  match v with
  | JObj kvs =>
      match dget "image" kvs, dget "template" kvs, dget "warmpool" kvs, dget "replicas" kvs with
      | Some im, Some (JStr t), Some (JStr w), Some (JInt r) => Ret (Pool (as_str im) t w r)
      | _, _, _, _ => Raise ValueError
      end
  | _ => Raise ValueError
  end.

Lemma validate_dump p : validate (sort_keys (pool_dump p)) = Ret p.
Proof. by destruct p as [[im|] t w r]. Qed.

Definition spec : FleetSpec :=
  Spec 1 10 5 "capacity-aware" [("c", PFin 0)] [Model None "t1" 4 None; Model None "t2" 6 None] 0 900.

(** [a] is fresh, [b] silent for 200 seconds, [c] drained *)
Definition reg : PlannerRegistry :=
  Registry [("a", Cluster "a" (PFin 1) None 2 2 (Some 0) None None (PFin 5) 0);
            ("b", Cluster "b" (PFin 1) None 2 2 (Some 0) None None (PFin 200) 0);
            ("c", Cluster "c" (PFin 0) None 2 2 (Some 0) None None (PFin 5) 0)] (PFin 90).

Definition entry_b : ClusterAssignment := Entry [Pool None "t0" "t0-pool" 3] None.

Definition published : Assignments :=
  Assigned 1 7 "2026-01-01T00:00:00Z" [("b", entry_b); ("c", entry_b)].

Definition now : Z := 63902822460000000.

Definition planned : Assignments :=
  match plan_at sum_left validate spec reg 8 (Some (sort_keys (assignments_dump published))) now with
  | Ret a => a
  | _ => published
  end.

Lemma planned_ok :
  plan_at sum_left validate spec reg 8 (Some (sort_keys (assignments_dump published))) now = Ret planned.
Proof. by vm_compute. Qed.

Lemma reg_wf : registry_wf reg.
Proof.
  split; [cbn; repeat constructor; set_solver|]. intros k c Hin. cbn in Hin.
  repeat (apply elem_of_cons in Hin as [[= -> ->]|Hin]; [done|]). by apply elem_of_nil in Hin.
Qed.
End DemoPlan.


Lemma drained_cluster_emptied_witness :
  dget "c" (as_clusters DemoPlan.planned) = Some (Entry [] None).
Proof.
  eapply (drained_cluster_emptied sum_left DemoPlan.validate DemoPlan.spec DemoPlan.reg 8 _ DemoPlan.now
    DemoPlan.planned "c" _ DemoPlan.reg_wf DemoPlan.planned_ok); [by vm_compute|by vm_compute].
Defined.

Lemma plan_refuses_blind_witness :
  fs_models DemoPlan.spec ≠ [] ∧
  ∀ a, plan_at sum_left DemoPlan.validate DemoPlan.spec (Registry [] (PFin 90)) 1 None 0 ≠ Ret a.
Proof. split; [done|]. by apply plan_refuses_blind. Defined.

Lemma stale_cluster_frozen_witness :
  ∃ since, dget "b" (as_clusters DemoPlan.planned) = Some (Entry (ca_pools DemoPlan.entry_b) (Some since)).
Proof.
  assert (NoDup (as_clusters DemoPlan.published).*1) as Hnd by (cbn; repeat constructor; set_solver).
  destruct (stale_cluster_frozen sum_left DemoPlan.validate DemoPlan.validate_dump DemoPlan.spec DemoPlan.reg 8
    DemoPlan.now DemoPlan.published DemoPlan.entry_b DemoPlan.planned "b"
    (Cluster "b" (PFin 1) None 2 2 (Some 0) None None (PFin 200) 0)
    DemoPlan.reg_wf Hnd DemoPlan.planned_ok eq_refl eq_refl ltac:(done) eq_refl eq_refl ltac:(done) eq_refl)
    as (since & H & _).
  by exists since.
Defined.

(** ** The budget *)

Lemma zsum_lookup (d : list (string * Z)) :
  NoDup d.*1 → zsum ((λ n, default 0 (dget n d)) <$> d.*1) = zsum d.*2.
Proof.
  intros Hnd. f_equal. rewrite <-list_fmap_compose. apply list_fmap_ext.
  intros i [k z] Hi. cbn. apply list_elem_of_lookup_2, dget_elem_of in Hi; [|done]. by rewrite Hi.
Qed.

Lemma zsum_elem_le z l : Forall (λ z, 0 ≤ z) l → z ∈ l → z ≤ zsum l.
Proof.
  induction 1 as [|x l Hx Hl IH]; [by intros ?%elem_of_nil|]. apply zsum_nonneg in Hl.
  intros [->|Hin]%elem_of_cons; cbn; [lia|]. specialize (IH Hin). lia.
Qed.

Section budget.
Context (fsum : list pyfloat → pyfloat).

Definition replicas_of (e : ClusterAssignment) : Z := zsum (ap_replicas <$> ca_pools e).

Definition pool_in_range (spec : FleetSpec) (p : AssignmentPool) : Prop :=
  1 ≤ ap_replicas p ≤ fs_max_pool spec.

(** What the sizes of a spec must be for the arithmetic to be exact enough. *)
Record sane_spec (spec : FleetSpec) : Prop := {
  ss_concurrent : 0 < fs_max_concurrent spec ≤ MAX_TOTAL;
  ss_pool : 0 < fs_max_pool spec;
  ss_tasks : Forall (λ m, 0 < ms_target_tasks m) (fs_models spec);
  ss_models : Z.of_nat (length (fs_models spec)) ≤ 2 ^ 20;
}.

(** Weights neither huge nor tiny. *)
Definition sane_weight (w : pyfloat) : Prop :=
  ordinary w ∧ (flt (PFin 0) w = true → (pow2 (-900) <= fval w)%Q).

(** One cluster: its pools exist and exceed its slice by at most one each. *)
Lemma size_pools spec mc ms :
  0 < fs_max_pool spec → 0 ≤ mc ≤ MAX_TOTAL → Forall (λ m, 0 < ms_target_tasks m) ms →
  Z.of_nat (length ms) ≤ 2 ^ 20 →
  ∃ pools, traverse (size_pool spec mc (zsum (ms_target_tasks <$> ms))) ms = Ret pools ∧
    Forall (pool_in_range spec) pools ∧ zsum (ap_replicas <$> pools) ≤ mc + Z.of_nat (length ms).
Proof.
  intros Hmp Hmc Ht Hlen. set (tt := zsum (ms_target_tasks <$> ms)).
  assert (∀ m, m ∈ ms → ∃ p, size_pool spec mc tt m = Ret p ∧
    (pool_in_range spec p ∧
     compute_replicas (ms_target_tasks m) tt mc (fs_max_pool spec) 0 false = Ret (ap_replicas p))) as Hone.
  { intros m Hm. rewrite Forall_forall in Ht. pose proof (Ht m Hm) as Hpos.
    assert (ms_target_tasks m ≤ tt).
    { apply zsum_elem_le; [|by apply list_elem_of_fmap_2]. apply Forall_fmap, Forall_forall.
      intros x Hx. cbn. specialize (Ht x Hx). lia. }
    destruct (compute_replicas_ok (ms_target_tasks m) tt mc (fs_max_pool spec)) as (r & Hr & Hb & _);
      [lia..|]. unfold size_pool, mbind, outcome_bind. rewrite Hr. eexists. split; [done|].
    split; [|done]. unfold pool_in_range. cbn. lia. }
  destruct (traverse_total _ _ _ Hone) as (pools & Hpools & HF). exists pools. split_and!; [done|..].
  - eapply Forall2_Forall_r; [exact HF|]. apply Forall_true. by intros m p [? _].
  - rewrite <-(length_fmap ms_target_tasks ms). apply (pools_overshoot _ mc (fs_max_pool spec));
      [by apply Forall_fmap|done|done|by rewrite length_fmap|].
    rewrite traverse_fmap. fold tt. apply traverse_Forall2, Forall2_fmap_r.
    eapply Forall2_impl; [exact HF|]. by intros m p [_ ?].
Qed.

(** The weights the budget is split by. *)
Lemma active_weights_exist reg p done_ :
  registry_wf reg → (∀ k c, dget k (clusters reg) = Some c → sane_weight (weight c)) →
  placed_inv reg done_ p →
  ∃ ws, traverse (active_weight (pl_registry p)) (pl_tasks p).*1 = Ret ws ∧
    ws.*1 = (pl_models p).*1 ∧ Forall (λ w, ordinary w ∧ (pow2 (-900) <= fval w)%Q) ws.*2.
Proof.
  intros Hwf Hsane [Hs Hnd Hk _ He]. rewrite Hk.
  destruct (traverse_total (active_weight (pl_registry p))
    (λ n nw, nw.1 = n ∧ ordinary nw.2 ∧ (pow2 (-900) <= fval nw.2)%Q) (pl_models p).*1) as (ws & Hws & HF).
  { intros n Hn. destruct (dget n (pl_models p)) as [ms|] eqn:Em; [|by apply dget_None in Em].
    destruct (He _ _ Em) as (_ & _ & (c & Hc & _ & Hpos)).
    pose proof (same_lookup _ _ n Hs) as Hl. rewrite Hc in Hl. unfold active_weight, registry_get.
    destruct (dget n (clusters (pl_registry p))) as [c'|]; [|done]. injection Hl as _ Hw.
    cbn. eexists. split; [done|]. cbn. rewrite Hw. destruct (Hsane _ _ Hc). auto. }
  exists ws. split; [done|]. clear -HF. induction HF as [|n nw ns ws (Hn & Hw) HF [IH1 IH2]]; [done|].
  cbn. rewrite Hn, IH1. split; [done|]. by constructor.
Qed.

Lemma hamilton_total total ws :
  accurate_sum fsum → 0 < total ≤ MAX_TOTAL → NoDup ws.*1 → (length ws ≤ 1024)%nat →
  Forall (λ w, ordinary w ∧ (pow2 (-900) <= fval w)%Q) ws.*2 →
  ∃ alloc, hamilton_split fsum total ws = Ret alloc ∧ alloc.*1 = ws.*1 ∧
    Forall (λ z, 0 ≤ z) alloc.*2 ∧ zsum alloc.*2 ≤ total.
Proof.
  intros Hacc Ht Hnd Hlen Hw. destruct ws as [|[k w] ws]; [by exists []; split_and!; [..|cbn; lia]|].
  assert (Forall ordinary ((k, w) :: ws).*2) as Hord by (eapply Forall_impl; [exact Hw|tauto]).
  destruct (hamilton_split_weighted fsum total ((k, w) :: ws)) as (alloc & Ha & Hkeys & Hsum & Hq); [done|lia|done..| |].
  { apply Forall_cons in Hw as Hw'. destruct Hw' as [[_ Hlo] _].
    eapply Qle_trans; [exact Hlo|]. apply qsum_elem; [by apply fval_nonneg|]. by left. }
  exists alloc. split_and!; [done..| |lia]. rewrite Forall_forall. intros z Hz.
  apply list_elem_of_fmap in Hz as ([n z'] & -> & Hin). cbn.
  assert (n ∈ ((k, w) :: ws).*1) as Hn by (rewrite <-Hkeys; apply list_elem_of_fmap; by exists (n, z')).
  apply list_elem_of_fmap in Hn as ([n' w'] & E & Hin'). cbn in E. subst n'.
  destruct (Hq _ _ Hin') as (a & Hd & Ha0 & _).
  apply dget_elem_of in Hin; [|by rewrite Hkeys]. rewrite Hin in Hd. by injection Hd as ->.
Qed.

(** The slices of the clusters, and their pools. *)
Lemma size_clusters spec tasks alloc on :
  0 < fs_max_pool spec → 0 ≤ fs_max_concurrent spec ≤ MAX_TOTAL →
  Forall (λ z, 0 ≤ z ≤ MAX_TOTAL) ((λ n, default 0 (dget n alloc)) <$> on.*1) →
  Forall (λ m, 0 < ms_target_tasks m) (concat on.*2) → Z.of_nat (length (concat on.*2)) ≤ 2 ^ 20 →
  (∀ n ms, (n, ms) ∈ on → dget n tasks = Some (zsum (ms_target_tasks <$> ms))) →
  ∃ placed, traverse (size_cluster spec tasks alloc) on = Ret placed ∧
    Forall (λ e, Forall (pool_in_range spec) (ca_pools e)) placed.*2 ∧
    zsum (replicas_of <$> placed.*2) ≤
      zsum ((λ n, default 0 (dget n alloc)) <$> on.*1) + Z.of_nat (length (concat on.*2)).
Proof.
  intros Hmp Hmc. induction on as [|[n ms] on IH]; intros Ha Ht Hlen Htask;
    cbn [fmap list_fmap fst snd concat traverse] in *.
  { exists []. split_and!; [done|constructor|done]. }
  apply Forall_cons in Ha as [Ha Has]. apply Forall_app in Ht as [Ht Hts]. rewrite length_app in Hlen.
  destruct IH as (placed & Hp & Hr & Hs); [done|done|lia|intros; apply Htask; by right|].
  destruct (size_pools spec (default 0 (dget n alloc)) ms) as (pools & Hpo & Hpr & Hps); [done|done|done|lia|].
  assert (size_cluster spec tasks alloc (n, ms) = Ret (n, Entry pools None)) as Hone.
  { unfold size_cluster, mbind, outcome_bind. cbn [fst snd]. rewrite (Htask n ms) by (by left).
    cbn [default from_option id]. by rewrite Hpo. }
  exists ((n, Entry pools None) :: placed). unfold mbind, outcome_bind. rewrite Hone, Hp.
  split_and!; [done|by constructor|].
  cbn [fmap list_fmap snd zsum]. change (replicas_of (Entry pools None)) with (zsum (ap_replicas <$> pools)).
  rewrite length_app. lia.
Qed.

End budget.

Lemma demo_sane k c : dget k (clusters DemoPlan.reg) = Some c → sane_weight (weight c).
Proof.
  intros Hc. assert (weight c = PFin 1 ∨ weight c = PFin 0) as [->| ->].
  { cbn in Hc. repeat case_decide; simplify_eq; cbn; auto. }
  - split; [apply ordinary_small; by vm_compute|]. intros _. by vm_compute.
  - split; [apply ordinary_small; by vm_compute|]. by vm_compute.
Qed.

Lemma demo_sane_spec : sane_spec DemoPlan.spec.
Proof.
  split; cbn [DemoPlan.spec fs_max_concurrent fs_max_pool fs_models].
  - unfold MAX_TOTAL. lia.
  - lia.
  - apply Forall_cons; split; [done|]. by apply Forall_singleton.
  - cbn [length]. lia.
Qed.

