(* ===== verification/Publishing.v ===== *)
(** Planners that publish at the same time.

    The specification is a planner that reads, plans and publishes in one step. The
    theorems show that any interleaving of the requests of any number of [apply]s,
    among programs that leave the assignments alone, changes the published payload
    only by such steps: no plan is lost, none is computed from a payload it does
    not replace, and the generation grows with every one. *)

From Stdlib Require Import String ZArith QArith Lia.
From stdpp Require Import base option list strings sets gmap pretty relations.
From S2P Require Import Prelude Float Json PyList PyText Models Utils DateTime Budget Placement Effects ObjectStore Inventory Planner PlannerProofs PlanProperties.

#[local] Open Scope Z_scope.

Section publishing.
Context {W : Type} `{Store : ObjectStore W}.
Context (fsum : list pyfloat → pyfloat) (pool_validate : json → outcome AssignmentPool).
Context (paths : Paths).
Hypothesis spec_elsewhere : spec_path paths ≠ assignments_path paths.

(** The published bytes. *)
Definition payload (w : W) : option raw := snd <$> blob w (assignments_path paths).

(** The bytes of a plan. *)
Definition rendered (a : Assignments) : raw := RawJson (sort_keys (assignments_dump a)).

(** One planner, alone: the plan replaces the payload it was made from. *)
Definition atomic_apply (old new : option raw) : Prop :=
  ∃ spec reg override prev g gen now a,
    old = RawJson <$> prev ∧ published_generation prev = Ret g ∧ next_generation g override = Ret gen ∧
    plan_at fsum pool_validate spec reg gen prev now = Ret a ∧ new = Some (rendered a).

(** What the others may do between two requests. *)
Definition later (w w' : W) : Prop :=
  (∀ p g r, written w p g r → written w' p g r) ∧ rtc atomic_apply (payload w) (payload w').

#[local] Instance later_preorder : PreOrder later.
Proof.
  split; [by intros w; split|]. intros w1 w2 w3 [H1 R1] [H2 R2]. split; [by eauto|by etrans].
Qed.

(** What a program may write to the assignments: a plan made from the version its
    precondition names. *)
Definition planned_from (w : W) (d : raw) (c : option Z) : Prop :=
  ∃ g prev, c = Some g ∧ atomic_apply (RawJson <$> prev) (Some d) ∧
    match prev with
    | None => g = 0
    | Some v => written w (assignments_path paths) g (RawJson v)
    end.

Definition allowed (X : Type) (w : W) (q : request X) : Prop :=
  match q with
  | Upload p d c => p = assignments_path paths → planned_from w d c
  | _ => True
  end.

Lemma upload_later w p d c x w' :
  allowed () w (Upload p d c) → handle (Upload p d c) w = (x, w') →
  rtc atomic_apply (payload w) (payload w').
Proof.
  intros Ha Hx. unfold payload. destruct (decide (p = assignments_path paths)) as [->|Hne].
  2:{ by rewrite (read_blob _ _ _ _ _ (assignments_path paths) Hx). }
  destruct (Ha eq_refl) as (g & prev & -> & Hstep & Hg).
  destruct (upload_blob _ _ _ _ _ _ Hx) as [[-> _]|(Hpre & g' & -> & _)]; [done|].
  apply rtc_once. assert (snd <$> blob w (assignments_path paths) = RawJson <$> prev) as ->; [|done].
  destruct prev as [v|]; cbn.
  - pose proof (written_pos _ _ _ _ Hg). destruct g as [|g|g]; [lia| |lia]. cbn in Hpre.
    destruct (blob w (assignments_path paths)) as [[g0 r]|] eqn:Hb; [|done]. injection Hpre as ->.
    cbn. f_equal. eapply written_functional; [|exact Hg]. by apply blob_written in Hb as [? _].
  - subst g. cbn in Hpre. by rewrite Hpre.
Qed.

Lemma guarantee X (q : request X) w x w' : allowed X w q → handle q w = (x, w') → later w w'.
Proof.
  intros Ha Hx. split; [intros p g r; by apply (written_mono _ _ _ _ _ _ _ _ Hx)|].
  destruct q as [p|p c|p d c|pf| |v ns l]; [..|by eapply upload_later| | |].
  all: unfold payload; by rewrite (read_blob _ _ _ _ _ (assignments_path paths) Hx).
Qed.

(** ** Programs that only read *)

Abbreviation reading := (harmless allowed).

Lemma reading_get_json path : reading (get_json path).
Proof.
  apply harmless_bind.
  - apply harmless_catch; [by apply harmless_bind; [apply harmless_ask|]|]. intros e m'. case_decide; [|done]. by intros [= <-].
  - intros [r|]; [|done]. by destruct r.
Qed.

Lemma reading_load p weights : reading (load p weights).
Proof.
  destruct p as [ps|self]; cbn [load].
  - unfold gcs_load. apply harmless_bind; [by apply harmless_ask|]. intros names.
    apply harmless_bind; [apply harmless_map, reading_get_json|]. intros reports.
    apply harmless_bind; [by apply harmless_ask|]. intros now. by apply harmless_bind.
  - apply harmless_bind; [|done]. apply harmless_bind; [by apply harmless_ask|]. intros now.
    apply harmless_bind; [by apply harmless_bind; [apply harmless_ask|]|]. intros profiles.
    apply harmless_bind; [done|]. by intros [reg warned].
Qed.

(** ** [apply] among others *)

Abbreviation Wp := (wp later allowed).

(** A step that raises or runs out of fuel ends the program. *)
Lemma wp_of_outcome {A B} (o : outcome A) (k : A → prog B) (Q : outcome B → W → Prop) w :
  (∀ a, o = Ret a → Wp (k a) Q w) → (∀ e w', Q (Raise e) w') → (∀ w', Q NoFuel w') →
  Wp (of_outcome o ≫= k) Q w.
Proof.
  intros Hk He Hn. destruct o as [a|e|]; cbn; [by apply Hk|by intros ? _..].
Qed.

(** What a planner knows of the payload it read. *)
Definition knows (w : W) (prev : option json) (g : Z) : Prop :=
  match prev with
  | None => g = 0
  | Some v => written w (assignments_path paths) g (RawJson v)
  end.

Lemma knows_later w w' prev g : later w w' → knows w prev g → knows w' prev g.
Proof. intros [Hw _]. destruct prev; [|done]. apply Hw. Qed.

Definition read_post (o : outcome (option json * Z)) (w : W) : Prop :=
  match o with Ret (prev, g) => knows w prev g | _ => True end.

Lemma read_published_payload_spec w : Wp (read_published_payload paths) read_post w.
Proof.
  apply wp_bind; [apply _|]. eapply wp_mono.
  { apply (get_json_with_generation_spec later allowed); [by intros w1 w2 p g r [Hw _]; apply Hw|].
    by intros X w' []. }
  intros [[[v|] g]|e|] w' Hg; cbn in *; [|by intros ? _..].
  apply wp_of_outcome; [|done|done]. intros schema _. case_match; [|by intros ? _].
  intros w'' Hl. by eapply knows_later.
Qed.

(** The answer of an upload that was accepted is in the history. *)
Lemma put_json_spec path v c w :
  (∀ w', later w w' → allowed () w' (Upload path (RawJson (sort_keys v)) c)) →
  Wp (put_json path v c)
    (λ o w', o = Ret () → ∃ g, written w' path g (RawJson (sort_keys v))) w.
Proof.
  intros Ha. apply wp_catch; [apply _|]. apply wp_ask. intros w1 Hl1. split; [by apply Ha|].
  intros [[]|e|] w2 w3 Hx Hl3; cbn; [|case_decide; [|done]|done].
  - intros _. destruct (upload_blob _ _ _ _ _ _ Hx) as [[_ Hne]|(_ & g & Hb & _)]; [done|].
    exists g. apply blob_written in Hb as [Hw _]. by apply Hl3.
  - by intros w4 _.
Qed.

Lemma put_spec_later v w : Wp (put_json (spec_path paths) v None) (λ _ w', later w w') w.
Proof using spec_elsewhere.
  apply wp_catch; [apply _|]. apply wp_ask. intros w1 Hl1.
  assert (allowed () w1 (Upload (spec_path paths) (RawJson (sort_keys v)) None)) as Ha
    by (intros E; by destruct spec_elsewhere).
  split; [done|]. intros x w2 w3 Hx Hl3.
  assert (later w w3) as Hl by (etrans; [exact Hl1|]; etrans; [by eapply guarantee|done]).
  destruct x as [[]|e|]; cbn; [done| |done]. case_decide; [|done]. intros w4 Hl4. by etrans.
Qed.

Lemma plan_spec spec reg gen prev (Q : outcome Assignments → W → Prop) w :
  (∀ a now w', later w w' → plan_at fsum pool_validate spec reg gen prev now = Ret a → Q (Ret a) w') →
  (∀ e w', Q (Raise e) w') → (∀ w', Q NoFuel w') →
  Wp (plan fsum pool_validate spec reg gen prev) Q w.
Proof.
  intros HQ He Hn. unfold plan. apply wp_of_outcome; [|done|done]. intros [[reg' pr] placed] Hprep.
  apply wp_bind; [apply _|]. apply wp_ask. intros w1 Hl1. split; [done|].
  intros [now|e|] w2 w3 Hx Hl3; cbn; [|by intros ? _..]. intros w4 Hl4.
  assert (later w w4) as Hl by (etrans; [exact Hl1|]; etrans; [by eapply (guarantee _ UtcNow)|];
    by etrans). destruct (finish _ _ _ _ _ _ _) as [a|e|] eqn:Ef; [|done..].
  apply (HQ a now); [done|]. unfold plan_at, mbind, outcome_bind. by rewrite Hprep.
Qed.

(** The plan a finished [apply] returns has been published. *)
Definition applied (o : outcome Assignments) (w : W) : Prop :=
  match o with
  | Ret a => ∃ g, written w (assignments_path paths) g (rendered a)
  | _ => True
  end.

Lemma apply_spec spec p override w :
  Wp (apply fsum pool_validate paths spec (load p) override) applied w.
Proof.
  unfold apply. apply wp_bind; [apply _|]. eapply wp_mono; [apply read_published_payload_spec|].
  intros [[prev store_gen]|e|] w1 Hknow; cbn [bind_post]; [|by intros ? _..].
  apply wp_of_outcome; [|done|done]. intros gen Hgen.
  apply wp_bind; [apply _|]. apply wp_harmless_frame; [apply _|apply guarantee|apply reading_load|].
  intros [reg|e|] w2 Hl2; cbn [bind_post]; [|by intros ? _..].
  apply wp_bind; [apply _|]. apply plan_spec; [|by intros e w' ? _|by intros w' ? _].
  intros a now w3 Hl3 Hplan. cbn [bind_post]. apply wp_bind; [apply _|].
  eapply wp_mono.
  { apply put_json_spec. intros w4 Hl4 _. exists store_gen, prev. split; [done|]. split.
    - unfold mbind, outcome_bind in Hgen. destruct (published_generation prev) as [g|e|] eqn:Eg; [|done..].
      by exists spec, reg, override, prev, g, gen, now, a.
    - assert (later w1 w4) as Hl by (by repeat (etrans; [eassumption|])).
      by apply (knows_later _ _ _ _ Hl). }
  intros [[]|e|] w5 Hw5; cbn [bind_post]; [|by intros ? _..].
  destruct (Hw5 eq_refl) as [g Hg]. apply wp_bind; [apply _|].
  eapply wp_mono; [apply put_spec_later|]. intros [[]|e|] w6 Hl6; cbn [bind_post]; [|by intros ? _..].
  intros w7 Hl7. exists g. by apply Hl7, Hl6.
Qed.

(** ** Generations *)

(** The generation members compare, of a payload that has one. *)
Definition payload_generation (o : option raw) : option Z :=
  match o with
  | None => Some 0
  | Some (RawJson v) => match published_generation (Some v) with Ret g => Some g | _ => None end
  | Some (RawBytes _) => None
  end.

Lemma rendered_generation a : payload_generation (Some (rendered a)) = Some (as_generation a).
Proof.
  unfold rendered, payload_generation, published_generation. rewrite truthy_sort_keys.
  cbn [truthy assignments_dump]. unfold assignments_dump.
  rewrite (py_get_def_sort_keys _ _ _ (JInt (as_generation a))); [done| |done].
  vm_compute. repeat constructor; set_solver.
Qed.

Lemma plan_at_generation spec reg gen prev now a :
  plan_at fsum pool_validate spec reg gen prev now = Ret a → as_generation a = gen.
Proof.
  unfold plan_at, finish, mbind, outcome_bind. destruct (prepare _ _ _ _) as [[[reg' pr] placed]|e|]; [|done..].
  destruct (fold_outcome _ _ _); [|done..]. by intros [= <-].
Qed.

Lemma next_generation_gt g override gen : next_generation g override = Ret gen → g < gen.
Proof.
  destruct override as [o|]; cbn; [|intros [= <-]; lia]. destruct (o <=? g) eqn:E; [done|].
  intros [= <-]. by apply Z.leb_gt.
Qed.

(** An atomic apply raises the generation. *)
Definition newer (old new : option raw) : Prop :=
  ∃ g g', payload_generation old = Some g ∧ payload_generation new = Some g' ∧ g < g'.

Lemma atomic_apply_newer old new : atomic_apply old new → newer old new.
Proof.
  intros (spec & reg & ov & prev & g & gen & now & a & -> & Hg & Hgen & Hplan & ->).
  exists g, gen. rewrite rendered_generation. apply plan_at_generation in Hplan.
  split_and!; [|by rewrite Hplan|by eapply next_generation_gt].
  destruct prev as [v|]; cbn in *; [by rewrite Hg|congruence].
Qed.

Lemma atomic_applies_newer old new : rtc atomic_apply old new → old = new ∨ newer old new.
Proof.
  induction 1 as [x|x y z Hs _ [<-|IH]]; [by left|by right; apply atomic_apply_newer|].
  right. apply atomic_apply_newer in Hs as (g & g1 & Hx & Hy & H1). destruct IH as (g1' & g2 & Hy' & Hz & H2).
  exists g, g2. split_and!; [done..|]. rewrite Hy in Hy'. injection Hy' as <-. lia.
Qed.

(** ** Many planners at once *)

(** A planner: it ends with the plan it published. *)
Definition planner (m : prog (option Assignments)) : Prop :=
  ∃ spec p override, m = (a ← apply fsum pool_validate paths spec (load p) override; mret (Some a)).

(** Any other program of the fleet: it may write, but not the assignments. *)
Definition bystander (m : prog (option Assignments)) : Prop :=
  ∃ m0 : prog (), reading m0 ∧ m = (_ ← m0; mret None).

Definition pool_post (o : outcome (option Assignments)) (w : W) : Prop :=
  match o with
  | Ret (Some a) => ∃ g, written w (assignments_path paths) g (rendered a)
  | _ => True
  end.

(** C5. However the requests of any number of applies interleave, with each other
    and with programs that leave the assignments alone, the published payload
    moves only by atomic applies: each new plan was computed from exactly the
    payload it replaces. Its generation never falls, and rises if it changed at all,
    and every apply that returns a plan has published it. *)
Theorem concurrent_applies_refine_atomic ps ps' w w' :
  Forall (λ m, planner m ∨ bystander m) ps → steps (ps, w) (ps', w') →
  rtc atomic_apply (payload w) (payload w') ∧
  (payload w = payload w' ∨ newer (payload w) (payload w')) ∧
  ∀ i a, ps' !! i = Some (Done (Ret (Some a))) →
    ∃ g, written w' (assignments_path paths) g (rendered a).
Proof.
  intros Hps Hsteps.
  destruct (pool_steps later allowed guarantee (λ _, pool_post) _ _ Hsteps) as [Hok [_ Hl]].
  { intros i m Hi. rewrite Forall_lookup in Hps. destruct (Hps i m Hi) as [(spec & p & ov & ->)|(m0 & Hr & ->)].
    - apply wp_bind; [apply _|]. eapply wp_mono; [apply apply_spec|].
      intros [a|e|] w1 Hw1; cbn in *; [|by intros ? _..]. intros w2 [Hw _]. destruct Hw1 as [g Hg]. eauto.
    - apply wp_bind; [apply _|]. apply wp_harmless_frame; [apply _|apply guarantee|done|].
      intros [[]|e|] w1 _; by intros ? _. }
  cbn in Hl, Hok. split_and!; [done|by apply atomic_applies_newer|].
  intros i a Hi. apply (Hok i _ Hi w'). reflexivity.
Qed.
End publishing.

(** ** A witness: two planners race on one bucket *)

Module DemoRace.
Definition report : json :=
  JObj [("cluster", JStr "a"); ("updated_at", JStr "2026-01-01T00:00:00Z")].

Definition w0 : good_bucket := store_with "fleet/capacity/a.json" (RawJson report) 63902822460000000.

Definition one (spec : FleetSpec) : prog (option Assignments) :=
  a ← apply sum_left DemoPlan.validate default_paths spec (load (GCSInventory default_paths)) None; mret (Some a).

Definition pool : list (prog (option Assignments)) := [one DemoPlan.spec; one DemoPlan.spec].

(** Both read before either writes. *)
Definition schedule : list nat := [0; 1; 0; 1; 0; 1; 0; 1; 0; 1; 0; 1; 0; 1; 0; 1]%nat.

Definition final : list (prog (option Assignments)) * good_bucket := exec schedule (pool, w0).
End DemoRace.

Lemma concurrent_applies_refine_atomic_witness :
  (∃ a, DemoRace.final.1 !! 0%nat = Some (Done (Ret (Some a)))) ∧
  DemoRace.final.1 !! 1%nat = Some (Done (Raise CASConflict)) ∧
  newer (payload default_paths DemoRace.w0) (payload default_paths DemoRace.final.2).
Proof.
  destruct (concurrent_applies_refine_atomic sum_left DemoPlan.validate default_paths ltac:(done)
    DemoRace.pool DemoRace.final.1 DemoRace.w0 DemoRace.final.2) as (_ & [H|H] & _).
  - apply Forall_cons; split; [left; by do 3 eexists|]. apply Forall_singleton. left. by do 3 eexists.
  - rewrite <-surjective_pairing. apply exec_steps.
  - exfalso. vm_compute in H. discriminate.
  - split_and!; [eexists; vm_compute; reflexivity|vm_compute; reflexivity|exact H].
Defined.
