(* ===== verification/FleetMember.v ===== *)
(** The fleet member: models [fleet_member.py] of
    [src/examples/multi-cluster-fleet/python/agent_sandbox_fleet].

    One member runs per cluster. A reconcile pass reads the assignments from the
    object store and makes the warm pools of the cluster match; a capacity pass
    publishes what the planner reads. The calls on the cluster's API server are the
    operations of [ClusterApi] on an abstract world; the member's own fields are
    the state [member]. The values of a plan are used as [json.loads] gave them:
    nothing checks their types before they are used. Log lines are left out. *)

From Stdlib Require Import Ascii String ZArith QArith.
From stdpp Require Import base option list strings sets pretty.
From S2P Require Import Prelude Float Json PyList PyText DateTime World Budget Effects ObjectStore.

#[local] Open Scope Z_scope.

Definition CRD_GROUP : string := "extensions.agents.x-k8s.io".
Definition CRD_VERSION : string := "v1beta1".
Definition POOLS : resource := Resource CRD_GROUP CRD_VERSION "sandboxwarmpools".
Definition TEMPLATES : resource := Resource CRD_GROUP CRD_VERSION "sandboxtemplates".
Definition PAGE_LIMIT : Z := 1000.
Definition MANAGED_LABEL : string := "fleet.agent-sandbox.io/managed".
Definition POOL_NAME_LABEL : string := "fleet.agent-sandbox.io/pool".
Definition GENERATION_ANNOTATION : string := "fleet.agent-sandbox.io/assignment-generation".
Definition MEMBER_SCHEMA_VERSION : Z := 1.
(** in nanoseconds of the monotonic clock *)
Definition CAPACITY_STALENESS : Z := 90 * SECOND.

(** ** The cluster *)

(** Nodes and pods as the typed client returns them. *)
Record node := Node {
  node_name : string;
  node_unschedulable : bool;
  node_allocatable : list (string * string);
}.

Record pod := Pod {
  pod_node_name : option string;
  (** the requests of each container *)
  pod_containers : list (list (string * string));
}.

Class ClusterApi (W : Type) := {
  get_custom : resource → string → json → M W json;
  create_custom : resource → string → json → M W json;
  replace_custom : resource → string → json → json → M W json;
  delete_custom : resource → string → json → M W json;
  (** namespace, label selector, limit and continue token *)
  list_custom_page : resource → string → string → Z → option string → M W json;
  list_node : M W (list node);
  (** one page of the pods that have not ended: the pods and the next token *)
  list_pod_page : Z → option string → M W (list pod * option string);
  (** [SandboxClient.list_all_sandboxes]: how many *)
  list_all_sandboxes : string → M W Z;
  (** [ClusterProfilePublisher.publish] *)
  publish_profile : json → M W ();
}.

(** ** Values of a plan *)

Record MemberPool := {
  mp_template : json;
  mp_warmpool : json;
  mp_replicas : json;
  mp_image : json;
}.

Record MemberEntry := { me_pools : list MemberPool; me_stale_since : json }.

Record MemberAssignments := {
  ma_schema_version : json;
  ma_generation : json;
  ma_updated_at : json;
  ma_clusters : list (string * MemberEntry);
}.

(** A value that cannot be a dict key. *)
Definition unhashable (v : json) : bool := match v with JList _ | JObj _ => true | _ => false end.

(** [AssignmentPool.from_json]: unknown keys are dropped, a missing one is a
    [TypeError] *)
Definition pool_from_json (obj : json) : outcome MemberPool :=
  match obj with
  | JObj kvs =>
      match dget "template" kvs, dget "warmpool" kvs, dget "replicas" kvs with
      | Some t, Some w, Some r =>
          Ret {| mp_template := t; mp_warmpool := w; mp_replicas := r;
                 mp_image := default JNull (dget "image" kvs) |}
      | _, _, _ => Raise TypeError
      end
  | JStr _ => Raise AttributeError
  | JList l => if existsb unhashable l then Raise TypeError else Raise AttributeError
  | _ => Raise TypeError
  end.

Definition entry_from_json (nb : string * json) : outcome (string * MemberEntry) :=
  ps ← py_get_def nb.2 "pools" (JList []);
  l ← py_iter ps;
  pools ← traverse pool_from_json l;
  since ← py_get nb.2 "stale_since";
  Ret (nb.1, {| me_pools := pools; me_stale_since := since |}).

(** [d.items()] *)
Definition dict_items (v : json) : outcome (list (string * json)) :=
  match v with JObj kvs => Ret kvs | _ => Raise AttributeError end.

(** What [_fetch_assignments] reads out of a payload it accepts. *)
Definition parse_assignments (raw version : json) : outcome MemberAssignments :=
  cs ← py_get_def raw "clusters" (JObj []);
  kvs ← dict_items cs;
  clusters ← traverse entry_from_json kvs;
  generation ← py_get_def raw "generation" (JInt 0);
  updated_at ← py_get_def raw "updated_at" (JStr "");
  Ret {| ma_schema_version := version; ma_generation := generation; ma_updated_at := updated_at;
         ma_clusters := clusters |}.

(** [version not in SUPPORTED_SCHEMA_VERSIONS] *)
Definition unsupported (version : json) : outcome bool :=
  if unhashable version then Raise TypeError
  else Ret (negb (json_eqb version (JInt MEMBER_SCHEMA_VERSION))).

(** ** Dicts keyed by values of a plan *)

Fixpoint jdset {A} (k : json) (v : A) (d : list (json * A)) : list (json * A) :=
  match d with
  | [] => [(k, v)]
  | (k', v') :: d' => if json_eqb k k' then (k', v) :: d' else (k', v') :: jdset k v d'
  end.

(** [{p.warmpool: p for p in pools}] *)
Definition desired_pools (pools : list MemberPool) : outcome (list (json * MemberPool)) :=
  foldl (λ acc p, d ← acc;
    if unhashable (mp_warmpool p) then Raise TypeError else Ret (jdset (mp_warmpool p) p d)) (Ret []) pools.

(** [name in desired] *)
Definition is_desired (desired : list (json * MemberPool)) (name : json) : bool :=
  existsb (λ kp, json_eqb name kp.1) desired.

(** [v[k]] *)
Definition py_sub (v : json) (k : string) : outcome json :=
  match v with
  | JObj kvs => match dget k kvs with Some x => Ret x | None => Raise KeyError end
  | _ => Raise TypeError
  end.

(** [_label_value]; a name that has no length is a [TypeError] *)
Definition label_value (name : json) : outcome json :=
  match name with
  | JStr s =>
      if bool_decide (len s ≤ 63)%nat then Ret (JStr s)
      else Ret (JStr (implode (take 50 (explode s)) +:+ "-" +:+ implode (take 12 (explode (md5_hexdigest s)))))
  | _ => Raise TypeError
  end.

Definition labels_for (p : MemberPool) : outcome json :=
  l ← label_value (mp_warmpool p);
  Ret (JObj [(MANAGED_LABEL, JStr "true"); (POOL_NAME_LABEL, l)]).

(** The object [_ensure_warmpool] applies. *)
Definition warmpool_body (namespace : string) (generation : json) (p : MemberPool)
    : outcome (list (string * json) * json) :=
  labels ← labels_for p;
  replicas ← int_of_json (mp_replicas p);
  Ret ([("name", mp_warmpool p); ("namespace", JStr namespace); ("labels", labels);
        ("annotations", JObj [(GENERATION_ANNOTATION, JStr (py_str generation))])],
       JObj [("sandboxTemplateRef", JObj [("name", mp_template p)]); ("replicas", JInt replicas)]).

Definition pool_object (meta : list (string * json)) (spec : json) : json :=
  JObj [("apiVersion", JStr (CRD_GROUP +:+ "/" +:+ CRD_VERSION)); ("kind", JStr "SandboxWarmPool");
        ("metadata", JObj meta); ("spec", spec)].

(** [dict(existing.get("metadata", {}).get(key) or {})] *)
Definition existing_map (existing : json) (key : string) : outcome (list (string * json)) :=
  meta ← py_get_def existing "metadata" (JObj []);
  v ← py_get meta key;
  match py_or v (JObj []) with JObj kvs => Ret kvs | _ => Raise TypeError end.

(** [merged.update(body["metadata"].get(key) or {})] *)
Definition merge_map (existing : json) (key : string) (meta : list (string * json))
    : outcome (list (string * json)) :=
  old ← existing_map existing key;
  let new := match dget key meta with Some (JObj kvs) => kvs | _ => [] end in
  Ret (dset key (JObj (foldl (λ d kv, dset kv.1 kv.2 d) old new)) meta).

(** ** The member *)

Record member_config := MemberConfig {
  cluster_name : string;
  namespace : string;
  capacity_detail : string;
  member_paths : Paths;
  has_hub_publisher : bool;
}.

Record member := Member {
  last_etag : string;
  last_assignment : option MemberAssignments;
  retry_pending : bool;
  (** the monotonic time of the last report that reached a sink *)
  capacity_ok_at : option Z;
}.

Definition new_member : member := Member EmptyString None false None.

Section member.
Context {W : Type} `{Handler W} `{Clock W} `{ClusterApi W}.
Context (cfg : member_config).

Abbreviation MM := (M (member * W)).

Definition set_etag (e : string) : MM () :=
  set_self (λ m, Member e (last_assignment m) (retry_pending m) (capacity_ok_at m)).
Definition set_assignment (a : MemberAssignments) : MM () :=
  set_self (λ m, Member (last_etag m) (Some a) (retry_pending m) (capacity_ok_at m)).
Definition set_retry (b : bool) : MM () :=
  set_self (λ m, Member (last_etag m) (last_assignment m) b (capacity_ok_at m)).
Definition set_capacity_ok (t : option Z) : MM () :=
  set_self (λ m, Member (last_etag m) (last_assignment m) (retry_pending m) t).

(** [_fetch_assignments] after the object was read. *)
Definition accept_payload (obj : raw) (etag : string) : MM (option MemberAssignments * bool) :=
  m ← self;
  if decide (etag = last_etag m) then mret (last_assignment m, false)
  else
    v ← lift (loads obj);
    version ← lift (py_get_def v "schema_version" (JInt MEMBER_SCHEMA_VERSION));
    refused ← lift (unsupported version);
    if refused : bool then mret (last_assignment m, false)
    else
      a ← lift (parse_assignments v version);
      _ ← set_etag etag;
      mret (Some a, true).

Definition fetch_assignments : MM (option MemberAssignments * bool) :=
  r ← except (λ e, if decide (e = FileNotFoundError) then Some (mret None) else None)
        (oe ← world (run (get_with_etag (assignments_path (member_paths cfg)))); mret (Some oe));
  match r with
  | None => _ ← set_etag EmptyString; m ← self; mret (last_assignment m, false)
  | Some (obj, etag) => accept_payload obj etag
  end.

(** [self._capacity_ok_at is None or time.monotonic() - self._capacity_ok_at >
    CAPACITY_STALENESS_S] *)
Definition unheard : MM bool :=
  m ← self;
  match capacity_ok_at m with
  | None => mret true
  | Some t => now ← world read_clock; mret (CAPACITY_STALENESS <? now - t)
  end.

(** The checks of [_reconcile_once]: the assignment to apply, if the pass is not
    skipped or held. *)
Definition admit_pass : MM (option MemberAssignments) :=
  '(oa, changed) ← fetch_assignments;
  match oa with
  | None => mret None
  | Some a =>
      m ← self;
      if negb changed && bool_decide (is_Some (last_assignment m)) && negb (retry_pending m) then mret None
      else
        match dget (cluster_name cfg) (ma_clusters a), ma_clusters a with
        | None, _ :: _ => _ ← set_etag EmptyString; mret None
        | None, [] => mret (Some a)
        | Some e, _ =>
            match me_pools e with
            | _ :: _ => mret (Some a)
            | [] =>
                held ← unheard;
                if held : bool then _ ← set_etag EmptyString; mret None else mret (Some a)
            end
        end
  end.

Definition template_exists (template : json) : MM bool :=
  except (λ e, if decide (e = ApiException 404) then Some (mret false) else None)
    (_ ← world (get_custom TEMPLATES (namespace cfg) template); mret true).

Definition create_or_update (name : json) (meta : list (string * json)) (spec : json) : MM () :=
  r ← except (λ e, if decide (e = ApiException 404) then Some (mret None) else None)
        (v ← world (get_custom POOLS (namespace cfg) name); mret (Some v));
  match r with
  | None => _ ← world (create_custom POOLS (namespace cfg) (pool_object meta spec)); mret ()
  | Some existing =>
      em ← lift (py_sub existing "metadata");
      rv ← lift (py_sub em "resourceVersion");
      meta1 ← lift (merge_map existing "labels" (dset "resourceVersion" rv meta));
      meta2 ← lift (merge_map existing "annotations" meta1);
      _ ← world (replace_custom POOLS (namespace cfg) name (pool_object meta2 spec)); mret ()
  end.

Definition ensure_warmpool (generation : json) (p : MemberPool) : MM () :=
  '(meta, spec) ← lift (warmpool_body (namespace cfg) generation p);
  create_or_update (mp_warmpool p) meta spec.

(** [_iter_managed_pools] as a fold over the items, one page at a time; [fuel]
    bounds the number of pages. *)
Fixpoint iter_managed_pools {A} (fuel : nat) (cont : option string) (f : A → json → outcome A) (acc : A)
    : MM A :=
  match fuel with
  | O => no_fuel
  | S fuel' =>
      resp ← world (list_custom_page POOLS (namespace cfg) (MANAGED_LABEL +:+ "=true") PAGE_LIMIT cont);
      items ← lift (py_get_def resp "items" (JList []));
      l ← lift (py_iter items);
      acc' ← lift (foldl (λ a item, a' ← a; f a' item) (Ret acc) l);
      meta ← lift (py_get resp "metadata");
      c ← lift (py_get (py_or meta (JObj [])) "continue");
      if truthy c then
        match c with
        | JStr s => iter_managed_pools fuel' (Some s) f acc'
        | _ => raise TypeError
        end
      else mret acc'
  end.

Definition pool_name_of (item : json) : outcome json := meta ← py_sub item "metadata"; py_sub meta "name".

Definition list_managed_pool_names (fuel : nat) : MM (list json) :=
  iter_managed_pools fuel None (λ acc item, n ← pool_name_of item; Ret (acc ++ [n])) [].

(** One pool of the plan: whether it was applied. *)
Definition apply_pool (generation : json) (p : MemberPool) : MM bool :=
  ok ← template_exists (mp_template p);
  if ok : bool then
    except (λ e, match e with ApiException _ => Some (mret false) | _ => None end)
      (_ ← ensure_warmpool generation p; mret true)
  else mret false.

Fixpoint apply_pools (generation : json) (ps : list MemberPool) : MM nat :=
  match ps with
  | [] => mret O
  | p :: ps' =>
      ok ← apply_pool generation p;
      skipped ← apply_pools generation ps';
      mret (if ok : bool then skipped else S skipped)
  end.

(** A failed deletion is logged, whatever its status. *)
Definition delete_orphan (desired : list (json * MemberPool)) (name : json) : MM () :=
  if is_desired desired name then mret ()
  else except (λ e, match e with ApiException _ => Some (mret ()) | _ => None end)
         (_ ← world (delete_custom POOLS (namespace cfg) name); mret ()).

(** [_reconcile_once] once the assignment is admitted. *)
Definition apply_assignment (fuel : nat) (a : MemberAssignments) : MM () :=
  _ ← set_retry true;
  _ ← set_assignment a;
  let local := match dget (cluster_name cfg) (ma_clusters a) with Some e => me_pools e | None => [] end in
  desired ← lift (desired_pools local);
  skipped ← apply_pools (ma_generation a) desired.*2;
  names ← list_managed_pool_names fuel;
  _ ← for_each names (delete_orphan desired);
  set_retry (bool_decide (0 < skipped)%nat).

Definition reconcile_once (fuel : nat) : MM () :=
  o ← admit_pass;
  match o with
  | None => mret ()
  | Some a => apply_assignment fuel a
  end.

(** One turn of [_reconcile_loop]: whatever a pass raises is logged. *)
Definition reconcile_tick (fuel : nat) : MM () :=
  except (λ _, Some (mret ())) (reconcile_once fuel).

(** ** Capacity reports *)

Record CapacityReport := Report {
  cr_cluster : string;
  cr_updated_at : string;
  cr_generation_observed : Z;
  cr_warmpool_depth : Z;
  cr_warmpool_ready : Z;
  (** [None]: not measured *)
  cr_active_claims : option Z;
  cr_node_pressure_score : option pyfloat;
  cr_reported_pools : list json;
}.

(** [asdict(report)]; the latency is never measured *)
Definition report_dict (r : CapacityReport) : json :=
  JObj [("cluster", JStr (cr_cluster r)); ("updated_at", JStr (cr_updated_at r));
        ("generation_observed", JInt (cr_generation_observed r));
        ("warmpool_depth", JInt (cr_warmpool_depth r)); ("warmpool_ready", JInt (cr_warmpool_ready r));
        ("active_claims", if cr_active_claims r is Some z then JInt z else JNull);
        ("claim_p90_ms", JNull);
        ("node_pressure_score", if cr_node_pressure_score r is Some f then JFloat f else JNull);
        ("reported_pools", JList (cr_reported_pools r))].

(** What the fold over the pools accumulates. *)
Record pool_totals := Totals {
  pt_names : list json;
  pt_depth : Z;
  pt_ready : Z;
  pt_generation : Z;
}.

(** [int(status.get(k, 0) or 0)] *)
Definition status_count (status : json) (k : string) : outcome Z :=
  v ← py_get_def status k (JInt 0); int_of_json (py_or v (JInt 0)).

Definition count_pool (t : pool_totals) (item : json) : outcome pool_totals :=
  name ← pool_name_of item;
  st ← py_get item "status";
  let status := py_or st (JObj []) in
  depth ← status_count status "replicas";
  ready ← status_count status "readyReplicas";
  meta ← py_sub item "metadata";
  an ← py_get meta "annotations";
  g ← py_get (py_or an (JObj [])) GENERATION_ANNOTATION;
  gen ← (if truthy g then
           match int_of_json g with
           | Ret z => Ret (Z.max (pt_generation t) z)
           | Raise e => if decide (e = ValueError) then Ret (pt_generation t) else Raise e
           | NoFuel => NoFuel
           end
         else Ret (pt_generation t));
  Ret (Totals (pt_names t ++ [name]) (pt_depth t + depth) (pt_ready t + ready) gen).

(** [names.sort()]; comparing other values than strings is a [TypeError] unless
    there is only one *)
Definition sort_names (l : list json) : outcome (list json) :=
  match l with
  | [] | [_] => Ret l
  | _ => ss ← traverse (λ v, match as_str v with Some s => Ret s | None => Raise TypeError end) l;
         Ret (JStr <$> sorted str_lt ss)
  end.

(** *** Quantities *)

(** [except ValueError: return 0] *)
Definition zero_on_value_error (o : outcome Z) : outcome Z :=
  match o with Raise e => if decide (e = ValueError) then Ret 0 else Raise e | _ => o end.

Definition parse_cpu_milli (s : option string) : outcome Z :=
  match s with
  | None => Ret 0
  | Some s =>
      if decide (s = EmptyString) then Ret 0
      else
        let s := strip s in
        match before_suffix "m" s with
        | Some p => scaled p 1
        | None => zero_on_value_error (scaled s 1000)
        end
  end.

(** The suffixes, longest first. *)
Definition MEM_SUFFIX : list (string * Z) :=
  [("Ki", 1024); ("Mi", 1024 ^ 2); ("Gi", 1024 ^ 3); ("Ti", 1024 ^ 4);
   ("K", 1000); ("M", 1000 ^ 2); ("G", 1000 ^ 3); ("T", 1000 ^ 4)].

Definition parse_mem_bytes (s : option string) : outcome Z :=
  match s with
  | None => Ret 0
  | Some s =>
      if decide (s = EmptyString) then Ret 0
      else
        let s := strip s in
        match omap (λ sm, p ← before_suffix sm.1 s; Some (p, sm.2)) MEM_SUFFIX with
        | (p, mult) :: _ => zero_on_value_error (scaled p mult)
        | [] => zero_on_value_error (f ← py_float s; ftrunc f)
        end
  end.

(** *** Node pressure *)

Definition requests := list (string * (Z * Z)).

Definition add_container (acc : outcome (Z * Z)) (req : list (string * string)) : outcome (Z * Z) :=
  '(cpu, mem) ← acc;
  c ← parse_cpu_milli (dget "cpu" req);
  m ← parse_mem_bytes (dget "memory" req);
  Ret (cpu + c, mem + m).

Definition add_pod (acc : outcome requests) (p : pod) : outcome requests :=
  d ← acc;
  match pod_node_name p with
  | Some (String _ _ as n) =>
      r ← foldl add_container (Ret (default (0, 0) (dget n d))) (pod_containers p);
      Ret (dset n r d)
  | _ => Ret d
  end.

Fixpoint walk_pods (fuel : nat) (cont : option string) (acc : requests) : MM requests :=
  match fuel with
  | O => no_fuel
  | S fuel' =>
      '(pods, next) ← world (list_pod_page PAGE_LIMIT cont);
      acc' ← lift (foldl add_pod (Ret acc) pods);
      match next with
      | Some (String _ _ as t) => walk_pods fuel' (Some t) acc'
      | _ => mret acc'
      end
  end.

(** [min(1.0, max(0.0, used / alloc)) if alloc else 0.0] *)
Definition ratio (used alloc : Z) : outcome pyfloat :=
  if alloc =? 0 then Ret (PFin 0)
  else f ← int_truediv used alloc; Ret (fmin (PFin 1) (fmax (PFin 0) f)).

Definition add_node (reqs : requests) (acc : outcome (pyfloat * Z)) (n : node) : outcome (pyfloat * Z) :=
  '(sum, counted) ← acc;
  if node_unschedulable n then Ret (sum, counted)
  else
    alloc_cpu ← parse_cpu_milli (dget "cpu" (node_allocatable n));
    alloc_mem ← parse_mem_bytes (dget "memory" (node_allocatable n));
    if (alloc_cpu =? 0) && (alloc_mem =? 0) then Ret (sum, counted)
    else
      let '(used_cpu, used_mem) := default (0, 0) (dget (node_name n) reqs) in
      cpu_r ← ratio used_cpu alloc_cpu;
      mem_r ← ratio used_mem alloc_mem;
      half ← fdiv (fadd cpu_r mem_r) (PFin 2);
      Ret (fadd sum half, counted + 1).

Definition pressure_of (nodes : list node) (reqs : requests) : outcome (option pyfloat) :=
  '(sum, counted) ← foldl (add_node reqs) (Ret (PFin 0, 0)) nodes;
  if counted =? 0 then Ret None
  else c ← float_of_int counted; r ← fdiv sum c; Ret (Some r).

(** One attempt: [None] when there is no node. *)
Definition pressure_attempt (fuel : nat) : MM (option (list node * requests)) :=
  nodes ← world list_node;
  match nodes with
  | [] => mret None
  | _ => reqs ← walk_pods fuel None []; mret (Some (nodes, reqs))
  end.

(** An expired token starts the walk over, once; other API errors give [None]. *)
Definition node_pressure (fuel : nat) : MM (option pyfloat) :=
  let gives_up (e : exn) := match e with ApiException _ => Some (mret None) | _ => None end in
  r ← except (λ e, if decide (e = ApiException 410) then Some (except gives_up (pressure_attempt fuel))
                   else gives_up e) (pressure_attempt fuel);
  match r with
  | None => mret None
  | Some (nodes, reqs) => lift (pressure_of nodes reqs)
  end.

Definition collect_capacity (fuel : nat) : MM CapacityReport :=
  now ← world read_utc_us;
  t ← iter_managed_pools fuel None count_pool (Totals [] 0 0 0);
  names ← lift (sort_names (pt_names t));
  let report claims pressure :=
    Report (cluster_name cfg) (iso_z now) (pt_generation t) (pt_depth t) (pt_ready t) claims pressure names in
  if decide (capacity_detail cfg = "light") then mret (report None None)
  else
    claims ← except (λ _, Some (mret None))
               (n ← world (list_all_sandboxes (namespace cfg)); mret (Some n));
    pressure ← node_pressure fuel;
    mret (report claims pressure).

(** Whether a sink took the report. *)
Definition to_sink (m : MM ()) : MM bool :=
  except (λ _, Some (mret false)) (_ ← m; mret true).

Definition capacity_once (fuel : nat) : MM () :=
  report ← collect_capacity fuel;
  let payload := report_dict report in
  gcs ← to_sink (world (run (put_json (capacity_path (member_paths cfg) (cluster_name cfg)) payload None)));
  hub ← (if has_hub_publisher cfg then to_sink (world (publish_profile payload)) else mret false);
  if (gcs : bool) || hub then now ← world read_clock; set_capacity_ok (Some now) else mret ().

Definition capacity_tick (fuel : nat) : MM () := except (λ _, Some (mret ())) (capacity_once fuel).

(** [_start_loops]: a new term has published nothing yet. *)
Definition start_term : MM () := set_capacity_ok None.
End member.
