(* ===== verification/FleetMemberProofs.v ===== *)
(** The member: when it touches its cluster at all, that a completed pass makes the
    managed pools those of the plan, and what it reports. *)

From Stdlib Require Import String ZArith QArith Qabs Lqa Lia.
From stdpp Require Import base option list strings sets gmap pretty relations.
From S2P Require Import Prelude Hoare Float Json PyList PyText DateTime World Budget BudgetProofs Effects ObjectStore FleetMember.

#[local] Open Scope Z_scope.

(** ** Passes that touch nothing *)

Section touch.
Context {W : Type} `{Handler W} `{Clock W} `{ClusterApi W}.
Context (cfg : member_config).

(** A relation that reading the object store and the clock cannot leave. It may say
    anything about the cluster. *)
Context (P : W → Prop).
Hypothesis reads_keep : ∀ X (q : request X), match q with Upload _ _ _ => True | _ => stable P (handle q) end.
Hypothesis clock_keeps : stable P read_clock.

Lemma run_stable {A} (m : prog A) (allowed : ∀ X, W → request X → Prop) :
  (∀ X w (q : request X), allowed X w q → stable P (handle q)) → harmless allowed m → stable P (run m).
Proof.
  intros Hq. induction m as [o|X r k IH]; cbn; intros Hm; [by intros w Hw|]. destruct Hm as [Ha Hk].
  intros w Hw. pose proof (Hq X w r (Ha w) w Hw) as Hh. destruct (handle r w) as [x w'].
  by apply IH.
Qed.

Definition is_read (X : Type) (w : W) (q : request X) : Prop :=
  match q with Upload _ _ _ => False | _ => True end.

Lemma get_with_etag_reads path : harmless is_read (get_with_etag path).
Proof.
  unfold get_with_etag. generalize 3%nat. intros n. induction n as [|n IH]; [done|]. cbn [read_loop].
  apply harmless_bind.
  - apply harmless_bind; [by apply harmless_ask|]. intros [g|]; [|done].
    apply harmless_catch; [by apply harmless_bind; [apply harmless_ask|]|].
    intros e m'. repeat case_decide; by intros [= <-].
  - by intros [| |r g].
Qed.

Lemma fetch_stable : stable (λ s : member * W, P s.2) (fetch_assignments cfg).
Proof using All.
  unfold fetch_assignments, accept_payload, set_etag.
  assert (stable P (run (get_with_etag (assignments_path (member_paths cfg))))) as Hg.
  { apply (run_stable _ is_read); [|apply get_with_etag_reads].
    intros X w q Hq. specialize (reads_keep X q). by destruct q. }
  stable.
Qed.

Lemma admit_stable : stable (λ s : member * W, P s.2) (admit_pass cfg).
Proof using All.
  unfold admit_pass, unheard, set_etag. pose proof fetch_stable as Hf.
  apply stable_bind; [done|]. intros [oa changed]. stable.
Qed.
End touch.

Section instruction.
Context {W : Type} `{Handler W} `{Clock W} `{ClusterApi W}.
Context (cfg : member_config).

(** The plan in the bucket, with a schema this member knows. *)
Definition read_now (w : W) (a : MemberAssignments) : Prop :=
  ∃ obj etag w1 v version,
    run (get_with_etag (assignments_path (member_paths cfg))) w = (Ret (obj, etag), w1) ∧
    loads obj = Ret v ∧ py_get_def v "schema_version" (JInt MEMBER_SCHEMA_VERSION) = Ret version ∧
    unsupported version = Ret false ∧ parse_assignments v version = Ret a.

(** A plan the member acts on: in the bucket now, or half-applied before; it names
    this cluster, or nobody; and it is only an order to tear down if a report of
    this member was accepted in the last ninety seconds. *)
Definition instruction (m : member) (w : W) (a : MemberAssignments) : Prop :=
  (read_now w a ∨ (last_assignment m = Some a ∧ retry_pending m = true)) ∧
  match dget (cluster_name cfg) (ma_clusters a) with
  | None => ma_clusters a = []
  | Some e =>
      me_pools e ≠ [] ∨
      ∃ t w1, capacity_ok_at m = Some t ∧ (monotonic w1).1 - t ≤ CAPACITY_STALENESS
  end.

Lemma fetch_cases m w o s :
  fetch_assignments cfg (m, w) = (Ret o, s) →
  capacity_ok_at s.1 = capacity_ok_at m ∧ retry_pending s.1 = retry_pending m ∧
  last_assignment s.1 = last_assignment m ∧
  ((o.2 = false ∧ o.1 = last_assignment m) ∨ (o.2 = true ∧ ∃ a, o.1 = Some a ∧ read_now w a)).
Proof.
  unfold fetch_assignments, except, world, mbind, M_bind. cbn [fst snd].
  destruct (run _ w) as [[[obj etag]|e|] w1] eqn:Er; cbn -[decide].
  - unfold accept_payload, self, mbind, M_bind, lift. cbn -[decide].
    case_decide; [intros [= <- <-]; cbn; by auto 10|].
    destruct (loads obj) as [v|e|] eqn:Ev; [|done..].
    destruct (py_get_def v _ _) as [version|e|] eqn:Ever; [|done..].
    destruct (unsupported version) as [[]|e|] eqn:Eu; [| |done..].
    { intros [= <- <-]. cbn. by auto 10. }
    destruct (parse_assignments v version) as [a|e|] eqn:Ea; [|done..].
    intros [= <- <-]. cbn. split_and!; [done..|]. right. split; [done|]. exists a. split; [done|].
    by exists obj, etag, w1, v, version.
  - case_decide; [|done]. cbn. intros [= <- <-]. cbn. by auto 10.
  - done.
Qed.

Lemma admit_instruction m w a s :
  admit_pass cfg (m, w) = (Ret (Some a), s) → instruction m w a.
Proof.
  unfold admit_pass, mbind, M_bind.
  destruct (fetch_assignments cfg (m, w)) as [[[oa changed]|e|] [m1 w1]] eqn:Ef; [|done..].
  apply fetch_cases in Ef as (Hcap & Hretry & Hlast & Hcase).
  cbn in Hcap, Hretry, Hlast, Hcase. cbn beta iota.
  destruct oa as [a'|]; [|done]. unfold self at 1. cbn [fst snd].
  destruct (negb changed && _ && _) eqn:Eskip; [done|]. intros Hadm.
  assert (read_now w a' ∨ (last_assignment m = Some a' ∧ retry_pending m = true)) as Hsrc.
  { destruct Hcase as [[-> Ha']|[-> (a0 & [= <-] & Hr)]]; [|by left]. right. split; [done|].
    rewrite Hlast, <-Ha', Hretry in Eskip. cbn in Eskip. by destruct (retry_pending m). }
  unfold instruction. destruct (dget (cluster_name cfg) (ma_clusters a')) as [e|] eqn:Ee.
  - destruct (me_pools e) as [|p ps] eqn:Ep.
    + unfold unheard, self, mbind, M_bind in Hadm. cbn in Hadm. rewrite Hcap in Hadm.
      destruct (capacity_ok_at m) as [t|] eqn:Et; [|done].
      unfold world, read_clock in Hadm. cbn in Hadm. destruct (monotonic w1) as [now w2] eqn:Em. cbn in Hadm.
      destruct (CAPACITY_STALENESS <? now - t) eqn:El; [done|]. injection Hadm as <- <-.
      rewrite Ee. split; [done|]. right. exists t, w1. rewrite Em. cbn. apply Z.ltb_ge in El. done.
    + injection Hadm as <- <-. rewrite Ee. split; [done|]. left. by rewrite Ep.
  - destruct (ma_clusters a') eqn:Ec; [|done]. injection Hadm as <- <-. rewrite Ec. by split.
Qed.

End instruction.

(** ** What the API server promises of warm pools *)

Record pool_state := PoolState { ps_managed : bool; ps_template : json; ps_replicas : json }.

Definition as_obj (v : json) : option (list (string * json)) :=
  match v with JObj kvs => Some kvs | _ => None end.

(** The name and the state an object describes. *)
Definition summary (obj : json) : option (string * pool_state) :=
  kvs ← as_obj obj;
  meta ← dget "metadata" kvs ≫= as_obj;
  n ← dget "name" meta ≫= as_str;
  spec ← dget "spec" kvs ≫= as_obj;
  ref ← dget "sandboxTemplateRef" spec ≫= as_obj;
  t ← dget "name" ref;
  r ← dget "replicas" spec;
  let managed := match dget "labels" meta with
                 | Some (JObj ls) => if dget MANAGED_LABEL ls is Some v then is_str v "true" else false
                 | _ => false
                 end in
  Some (n, PoolState managed t r).

(** A page of a list: the names it has, and the token for the rest. *)
Definition page_of (resp : json) (names : list string) (next : option string) : Prop :=
  ∃ items meta c, py_get_def resp "items" (JList []) = Ret (JList items) ∧
    Forall2 (λ i n, pool_name_of i = Ret (JStr n)) items names ∧
    py_get resp "metadata" = Ret meta ∧ py_get (py_or meta (JObj [])) "continue" = Ret c ∧
    match next with
    | Some t => c = JStr t ∧ t ≠ EmptyString
    | None => truthy c = false
    end.

Class PoolLaws (W : Type) `{ClusterApi W} (ns : string) := {
  pools : W → gmap string pool_state;
  (** the names a continue token still stands for *)
  remaining : W → string → list string;
  get_keeps r n w x w' : get_custom r ns n w = (x, w') → pools w' = pools w;
  create_stores body w x w' :
    create_custom POOLS ns body w = (Ret x, w') →
    ∃ n p, summary body = Some (n, p) ∧ pools w' = <[n := p]> (pools w);
  replace_stores n body w x w' :
    replace_custom POOLS ns (JStr n) body w = (Ret x, w') →
    ∃ p, summary body = Some (n, p) ∧ pools w' = <[n := p]> (pools w);
  delete_removes n w x w' :
    delete_custom POOLS ns (JStr n) w = (Ret x, w') → pools w' = delete n (pools w);
  delete_absent n w w' :
    delete_custom POOLS ns (JStr n) w = (Raise (ApiException 404), w') →
    pools w' = pools w ∧ pools w !! n = None;
  list_page cont w resp w' :
    list_custom_page POOLS ns (MANAGED_LABEL +:+ "=true") PAGE_LIMIT cont w = (Ret resp, w') →
    pools w' = pools w ∧ ∃ names next, page_of resp names next ∧
      let rest := match next with Some t => remaining w' t | None => [] end in
      match cont with
      | Some t => names ++ rest = remaining w t
      | None => ∀ n, n ∈ names ++ rest ↔ ∃ st, pools w !! n = Some st ∧ ps_managed st = true
      end;
}.

Section converge.
Context {W : Type} `{Handler W} `{Clock W} `{ClusterApi W}.
Context (cfg : member_config) `{Laws : !PoolLaws W (namespace cfg)}.

(** *** Writing one pool *)

(** What a pool of the plan becomes. *)
Definition wanted (p : MemberPool) (n : string) (st : pool_state) : Prop :=
  mp_warmpool p = JStr n ∧
  ∃ r, int_of_json (mp_replicas p) = Ret r ∧ st = PoolState true (mp_template p) (JInt r).

Lemma warmpool_body_inv ns gen p meta spec :
  warmpool_body ns gen p = Ret (meta, spec) →
  ∃ n l r, mp_warmpool p = JStr n ∧ int_of_json (mp_replicas p) = Ret r ∧
    meta = [("name", JStr n); ("namespace", JStr ns);
            ("labels", JObj [(MANAGED_LABEL, JStr "true"); (POOL_NAME_LABEL, l)]);
            ("annotations", JObj [(GENERATION_ANNOTATION, JStr (py_str gen))])] ∧
    spec = JObj [("sandboxTemplateRef", JObj [("name", mp_template p)]); ("replicas", JInt r)].
Proof.
  unfold warmpool_body, labels_for, mbind, outcome_bind.
  destruct (label_value (mp_warmpool p)) as [l|e|] eqn:El; [|done..].
  destruct (int_of_json _) as [r|e|] eqn:Er; [|done..]. intros [= <- <-].
  unfold label_value in El. destruct (mp_warmpool p) as [| | | |n| |] eqn:En; try done. by exists n, l, r.
Qed.

(** Labels merged over those of another owner still mark the pool. *)
Lemma merged_summary existing meta spec meta1 meta2 ns gen p rv :
  warmpool_body ns gen p = Ret (meta, spec) →
  merge_map existing "labels" (dset "resourceVersion" rv meta) = Ret meta1 →
  merge_map existing "annotations" meta1 = Ret meta2 →
  ∃ n st, wanted p n st ∧ summary (pool_object meta2 spec) = Some (n, st).
Proof.
  intros (n & l & r & Hn & Hr & -> & ->)%warmpool_body_inv. unfold merge_map, mbind, outcome_bind.
  destruct (existing_map existing "labels") as [old|e|]; [|done..]. intros [= <-].
  destruct (existing_map existing "annotations") as [old2|e|]; [|done..]. intros [= <-].
  exists n, (PoolState true (mp_template p) (JInt r)). split; [split; [done|by exists r]|].
  set (L := dset POOL_NAME_LABEL l _).
  assert (dget MANAGED_LABEL L = Some (JStr "true")) as HL
    by (unfold L; by rewrite dget_dset_ne, dget_dset_eq by done).
  transitivity (Some (n, PoolState (if dget MANAGED_LABEL L is Some v then is_str v "true" else false)
    (mp_template p) (JInt r))); [done|]. by rewrite HL.
Qed.

Lemma create_or_update_ok gen p meta spec m w m' w' :
  warmpool_body (namespace cfg) gen p = Ret (meta, spec) →
  create_or_update cfg (mp_warmpool p) meta spec (m, w) = (Ret (), (m', w')) →
  m' = m ∧ ∃ n st, wanted p n st ∧ pools w' = <[n := st]> (pools w).
Proof.
  intros Hb. pose proof Hb as (n & l & r & Hn & Hr & Hmeta & Hspec)%warmpool_body_inv.
  unfold create_or_update, except, world, lift, mbind, M_bind. cbn [fst snd].
  destruct (get_custom _ _ _ w) as [[v|e|] w1] eqn:Eg; cbn -[decide]; [| |done].
  - apply get_keeps in Eg. destruct (py_sub v "metadata") as [em|e|]; [|done..].
    destruct (py_sub em "resourceVersion") as [rv|e|]; [|done..].
    destruct (merge_map v "labels" _) as [meta1|e|] eqn:E1; [|done..].
    destruct (merge_map v "annotations" meta1) as [meta2|e|] eqn:E2; [|done..].
    destruct (replace_custom _ _ _ _ w1) as [[x|e|] w2] eqn:Er; [|done..]. intros [= <- <-]. split; [done|].
    destruct (merged_summary _ _ _ _ _ _ _ _ _ Hb E1 E2) as (n' & st & Hw & Hs).
    rewrite Hn in Er. apply replace_stores in Er as (p' & Hs' & ->). rewrite Hs in Hs'. injection Hs' as -> ->.
    rewrite Eg. eauto.
  - case_decide; [|done]. cbn. apply get_keeps in Eg.
    destruct (create_custom _ _ _ w1) as [[x|e'|] w2] eqn:Ec; [|done..]. intros [= <- <-]. split; [done|].
    apply create_stores in Ec as (n' & st & Hs & ->). rewrite Eg. exists n', st. split; [|done].
    subst meta spec. cbn in Hs. injection Hs as <- <-. split; [done|]. by exists r.
Qed.

Lemma apply_pool_ok gen p m w m' w' :
  apply_pool cfg gen p (m, w) = (Ret true, (m', w')) →
  m' = m ∧ ∃ n st, wanted p n st ∧ pools w' = <[n := st]> (pools w).
Proof.
  unfold apply_pool, template_exists, except, world, mbind, M_bind. cbn [fst snd].
  destruct (get_custom TEMPLATES _ _ w) as [[v|e|] w1] eqn:Eg; cbn -[decide ensure_warmpool]; [| |done].
  - apply get_keeps in Eg. unfold ensure_warmpool, lift, mbind, M_bind.
    destruct (warmpool_body _ gen p) as [[meta spec]|e|] eqn:Eb; [| |done].
    + destruct (create_or_update cfg (mp_warmpool p) meta spec (m, w1)) as [[[]|e|] [m1 w2]] eqn:Ec; [| |done].
      * intros [= <- <-]. rewrite <-Eg. by eapply create_or_update_ok.
      * cbn. destruct e; by intros [=].
    + destruct e; by intros [=].
  - case_decide; by intros [=].
Qed.

(** *** All the pools of a plan *)

Definition insert_all (g : gmap string pool_state) (l : list (string * pool_state)) : gmap string pool_state :=
  foldl (λ g ns, <[ns.1 := ns.2]> g) g l.

Lemma insert_all_lookup l g n :
  NoDup l.*1 → insert_all g l !! n = match dget n l with Some st => Some st | None => g !! n end.
Proof.
  unfold insert_all. revert g. induction l as [|[k st] l IH]; intros g Hnd; [done|]. cbn in *.
  inversion_clear Hnd as [|? ? Hk Hl]. rewrite IH by done. case_decide as Hn; [subst|by rewrite lookup_insert_ne by done].
  apply dget_None in Hk. rewrite Hk. apply lookup_insert_eq.
Qed.

Lemma apply_pools_ok gen ps m w m' w' :
  apply_pools cfg gen ps (m, w) = (Ret O, (m', w')) →
  m' = m ∧ ∃ nss, Forall2 (λ p ns, wanted p ns.1 ns.2) ps nss ∧ pools w' = insert_all (pools w) nss.
Proof.
  revert m w. induction ps as [|p ps IH]; intros m w; cbn [apply_pools].
  - intros [= <- <-]. split; [done|]. by exists [].
  - unfold mbind, M_bind. destruct (apply_pool cfg gen p (m, w)) as [[ok|e|] [m1 w1]] eqn:E1; [|done..].
    destruct (apply_pools cfg gen ps (m1, w1)) as [[k|e|] [m2 w2]] eqn:E2; [|done..].
    destruct ok; [|done]. intros [= -> <- <-].
    apply apply_pool_ok in E1 as (-> & n & st & Hw & Hp1). apply IH in E2 as (-> & nss & HF & Hp2).
    split; [done|]. exists ((n, st) :: nss). split; [by constructor|]. cbn. by rewrite Hp2, Hp1.
Qed.

(** *** The dict of the wanted pools *)

Definition named (local : list MemberPool) (ns : list string) : Prop :=
  Forall2 (λ p n, mp_warmpool p = JStr n) local ns.

Lemma jdset_str n (p : MemberPool) d :
  jdset (JStr n) p ((λ np : string * MemberPool, (JStr np.1, np.2)) <$> d) =
    (λ np : string * MemberPool, (JStr np.1, np.2)) <$> dset n p d.
Proof.
  induction d as [|[k q] d IH]; [done|]. cbn.
  destruct (n =? k)%string eqn:E.
  - apply String.eqb_eq in E as ->. by rewrite decide_True.
  - apply String.eqb_neq in E. rewrite decide_False by done. cbn. by rewrite IH.
Qed.

(** The wanted pools by name: the last one of each name. *)
Definition by_name (local : list MemberPool) (ns : list string) : list (string * MemberPool) :=
  foldl (λ d np, dset np.1 np.2 d) [] (zip ns local).

Lemma desired_pools_named local ns :
  named local ns →
  desired_pools local = Ret ((λ np : string * MemberPool, (JStr np.1, np.2)) <$> by_name local ns).
Proof.
  intros Hn. unfold desired_pools, by_name. change (Ret []) with
    (Ret ((λ np : string * MemberPool, (JStr np.1, np.2)) <$> []) : outcome (list (json * MemberPool))).
  generalize (@nil (string * MemberPool)). induction Hn as [|p n local ns Hp Hn IH]; intros d; [done|].
  cbn. rewrite Hp. cbn. rewrite jdset_str. apply IH.
Qed.

Lemma by_name_ok local ns :
  named local ns →
  NoDup (by_name local ns).*1 ∧ ∀ n p, (n, p) ∈ by_name local ns → mp_warmpool p = JStr n.
Proof.
  intros Hn. unfold by_name.
  assert (∀ d : list (string * MemberPool), NoDup d.*1 → (∀ n p, (n, p) ∈ d → mp_warmpool p = JStr n) →
    NoDup (foldl (λ d np, dset np.1 np.2 d) d (zip ns local)).*1 ∧
    ∀ n p, (n, p) ∈ foldl (λ d np, dset np.1 np.2 d) d (zip ns local) → mp_warmpool p = JStr n) as Hgen.
  { induction Hn as [|p n local ns Hp Hn IH]; intros d Hd Hall; [done|]. cbn. apply IH; [by apply dset_NoDup|].
    intros k q Hin. apply dget_elem_of in Hin; [|by apply dset_NoDup]. rewrite dget_dset in Hin.
    case_decide; [naive_solver|]. apply Hall. by apply dget_elem_of in Hin. }
  apply Hgen; [constructor|]. by intros n p ?%elem_of_nil.
Qed.

Lemma is_desired_named local ns n :
  is_desired ((λ np : string * MemberPool, (JStr np.1, np.2)) <$> by_name local ns) (JStr n) = true
  ↔ n ∈ (by_name local ns).*1.
Proof.
  unfold is_desired. generalize (by_name local ns). intros d.
  induction d as [|[k p] d IH]; cbn; [split; [done|by intros ?%elem_of_nil]|].
  rewrite orb_true_iff, IH, String.eqb_eq, elem_of_cons. done.
Qed.

(** *** The sweep *)

Lemma fold_names items names acc :
  Forall2 (λ i n, pool_name_of i = Ret (JStr n)) items names →
  foldl (λ a item, a' ← a; n ← pool_name_of item; Ret (a' ++ [n])) (Ret acc) items
    = Ret (acc ++ (JStr <$> names)).
Proof.
  intros HF. revert acc. induction HF as [|i n items names Hi HF IH]; intros acc; cbn.
  - by rewrite app_nil_r.
  - rewrite Hi. cbn. rewrite IH. by rewrite <-app_assoc.
Qed.

Definition managed (w : W) (n : string) : Prop := ∃ st, pools w !! n = Some st ∧ ps_managed st = true.

Lemma iter_names fuel cont acc m w names m' w' :
  iter_managed_pools cfg fuel cont (λ acc item, n ← pool_name_of item; Ret (acc ++ [n])) acc (m, w)
    = (Ret names, (m', w')) →
  m' = m ∧ pools w' = pools w ∧ ∃ ns, names = acc ++ (JStr <$> ns) ∧
    match cont with
    | Some t => ns = remaining w t
    | None => ∀ n, n ∈ ns ↔ managed w n
    end.
Proof.
  revert cont acc m w. induction fuel as [|fuel IH]; intros cont acc m w; [done|]. cbn [iter_managed_pools].
  unfold world, lift, mbind, M_bind. cbn [fst snd].
  destruct (list_custom_page _ _ _ _ cont w) as [[resp|e|] w1] eqn:El; [|done..].
  apply list_page in El as (Hp & ns1 & next & (items & meta & c & Hi & HF & Hm & Hc & Hn) & Hrest).
  rewrite Hi. cbn [py_iter]. unfold mbind, outcome_bind. rewrite (fold_names items ns1) by done.
  rewrite Hm, Hc. destruct next as [t|]; cbn.
  - destruct Hn as [-> Ht]. rewrite (proj2 (truthy_str t) Ht). intros Hrec.
    apply IH in Hrec as (-> & -> & ns2 & -> & Hns2). split_and!; [done..|].
    exists (ns1 ++ ns2). rewrite fmap_app, app_assoc. split; [done|]. subst ns2. by destruct cont.
  - rewrite Hn. intros [= <- <- <-]. split_and!; [done..|]. exists ns1. split; [done|].
    cbn in Hrest. by destruct cont; rewrite app_nil_r in Hrest || setoid_rewrite app_nil_r in Hrest.
Qed.

(** Deletions fail for pools that are gone already, and for nothing else. *)
Definition deletes_succeed : Prop := ∀ n w e w',
  delete_custom POOLS (namespace cfg) (JStr n) w = (Raise e, w') → e = ApiException 404.

Lemma delete_orphans_ok desired ns m w m' w' :
  deletes_succeed →
  for_each (JStr <$> ns) (delete_orphan cfg desired) (m, w) = (Ret (), (m', w')) →
  m' = m ∧ ∀ n, pools w' !! n = if decide (n ∈ ns ∧ is_desired desired (JStr n) = false) then None else pools w !! n.
Proof.
  intros Hdel. revert m w. induction ns as [|k ns IH]; intros m w; cbn [fmap list_fmap for_each].
  - intros [= <- <-]. split; [done|]. intros n. rewrite decide_False; [done|]. by intros [?%elem_of_nil _].
  - unfold mbind, M_bind. destruct (delete_orphan cfg desired (JStr k) (m, w)) as [[[]|e|] [m1 w1]] eqn:E; [|done..].
    intros Hrec. apply IH in Hrec as [-> Hn].
    assert (m1 = m ∧ pools w1 = if is_desired desired (JStr k) then pools w else delete k (pools w)) as [-> Hw1].
    { unfold delete_orphan in E. destruct (is_desired desired (JStr k)); [by injection E as <- <-|].
      unfold except, world, mbind, M_bind in E. cbn in E.
      destruct (delete_custom _ _ _ w) as [[x|e|] w2] eqn:Ed; [| |done].
      - injection E as <- <-. split; [done|]. by eapply delete_removes.
      - assert (e = ApiException 404) as -> by by eapply Hdel.
        injection E as <- <-. apply delete_absent in Ed as [-> Hk]. split; [done|]. by rewrite delete_id. }
    split; [done|]. intros n. rewrite Hn, Hw1. destruct (decide (n = k)) as [->|Hne].
    + destruct (is_desired desired (JStr k)) eqn:Ek.
      * rewrite !decide_False; [done|naive_solver|naive_solver].
      * rewrite (decide_True _ _ (conj (list_elem_of_here k ns) eq_refl)), lookup_delete_eq. by case_decide.
    + assert ((if is_desired desired (JStr k) then pools w else delete k (pools w)) !! n = pools w !! n) as ->
        by (case_match; [done|by rewrite lookup_delete_ne]).
      assert (n ∈ ns ∧ is_desired desired (JStr n) = false ↔ n ∈ k :: ns ∧ is_desired desired (JStr n) = false)
        as Hiff by (rewrite elem_of_cons; naive_solver). by rewrite (decide_ext _ _ _ _ Hiff).
Qed.

(** *** A completed pass *)

Definition local_pools (a : MemberAssignments) : list MemberPool :=
  match dget (cluster_name cfg) (ma_clusters a) with Some e => me_pools e | None => [] end.

Lemma wanted_names d nss :
  (∀ n p, (n, p) ∈ d → mp_warmpool p = JStr n) →
  Forall2 (λ p ns, wanted p ns.1 ns.2) d.*2 nss → nss.*1 = d.*1 ∧
  Forall2 (λ np ns, wanted np.2 np.1 ns.2) d nss.
Proof.
  revert nss. induction d as [|[n p] d IH]; intros nss Hn; cbn.
  - inversion_clear 1. split; [done|constructor].
  - inversion_clear 1 as [|? [n' st] ? nss' Hw HF]. destruct (IH nss') as [Hk HF']; [|done|].
    { intros k q Hin. apply Hn. by right. }
    assert (mp_warmpool p = JStr n) as Hp by (apply Hn; by left).
    destruct Hw as [Hw Hst]. cbn in Hw, Hst. rewrite Hp in Hw. injection Hw as <-.
    cbn. rewrite Hk. split; [done|]. constructor; [|done]. by split.
Qed.

Lemma wanted_lookup (d : list (string * MemberPool)) nss n :
  nss.*1 = d.*1 → Forall2 (λ np ns, wanted np.2 np.1 ns.2) d nss →
  match dget n d, dget n nss with
  | Some p, Some st => wanted p n st
  | None, None => True
  | _, _ => False
  end.
Proof.
  intros Hk HF. revert Hk. induction HF as [|[k p] [k' st] d nss Hw HF IH]; cbn; [done|].
  intros [= -> Hk]. case_decide; [by subst|]. by apply IH.
Qed.

Lemma pass_converges fuel a ns m w m' w' :
  deletes_succeed → named (local_pools a) ns →
  apply_assignment cfg fuel a (m, w) = (Ret (), (m', w')) → retry_pending m' = false →
  (∀ n st, pools w' !! n = Some st → ps_managed st = true →
     ∃ p, dget n (by_name (local_pools a) ns) = Some p ∧ wanted p n st) ∧
  (∀ n p, dget n (by_name (local_pools a) ns) = Some p → ∃ st, pools w' !! n = Some st ∧ wanted p n st) ∧
  (∀ n st, pools w !! n = Some st → ps_managed st = false →
     n ∉ (by_name (local_pools a) ns).*1 → pools w' !! n = Some st).
Proof.
  intros Hdel Hns. unfold apply_assignment. fold (local_pools a).
  rewrite (desired_pools_named _ _ Hns). destruct (by_name_ok _ _ Hns) as [Hnd Hkey].
  unfold set_retry, set_assignment, set_self, lift, mbind, M_bind. cbn [fst snd].
  assert (((λ np : string * MemberPool, (JStr np.1, np.2)) <$> by_name (local_pools a) ns).*2
    = (by_name (local_pools a) ns).*2) as -> by (by rewrite <-list_fmap_compose).
  set (m1 := Member _ _ _ _).
  destruct (apply_pools cfg (ma_generation a) _ (m1, w)) as [[k|e|] [m2 w2]] eqn:Ea; [|done..].
  destruct (list_managed_pool_names cfg fuel (m2, w2)) as [[names|e|] [m3 w3]] eqn:El; [|done..].
  destruct (for_each names _ (m3, w3)) as [[[]|e|] [m4 w4]] eqn:Ef; [|done..].
  intros [= <- <-]. cbn. intros Hk. apply bool_decide_eq_false in Hk. assert (k = O) as -> by lia.
  apply apply_pools_ok in Ea as (-> & nss & HF & Hw2).
  apply iter_names in El as (-> & Hw3 & ns' & -> & Hns'). cbn in Ef.
  apply delete_orphans_ok in Ef as [-> Hw4]; [|done].
  apply wanted_names in HF as [Hkeys HF]; [|done].
  assert (∀ n, pools w2 !! n = match dget n nss with Some st => Some st | None => pools w !! n end) as Hl2
    by (intros n; rewrite Hw2; apply insert_all_lookup; by rewrite Hkeys).
  split_and!.
  - intros n st. rewrite Hw4, Hw3. case_decide as Hn; [done|]. intros Hst Hman.
    assert (n ∈ ns') as Hin by (apply Hns'; by exists st).
    assert (n ∈ (by_name (local_pools a) ns).*1) as Hd.
    { apply is_desired_named. destruct (is_desired _ (JStr n)) eqn:E; [done|]. naive_solver. }
    pose proof (wanted_lookup _ _ n Hkeys HF) as Hw. rewrite Hl2 in Hst.
    destruct (dget n (by_name _ _)) as [p|] eqn:Ep; [|by apply dget_None in Ep].
    destruct (dget n nss) as [st'|]; [|done]. injection Hst as ->. eauto.
  - intros n p Hp. pose proof (wanted_lookup _ _ n Hkeys HF) as Hw. rewrite Hp in Hw.
    destruct (dget n nss) as [st|] eqn:En; [|done]. exists st. split; [|done].
    rewrite Hw4, Hw3, decide_False, Hl2; [by rewrite En|]. intros [_ Hf]. apply not_true_iff_false in Hf.
    apply Hf, is_desired_named. apply dget_elem_of in Hp; [|done]. apply list_elem_of_fmap. by exists (n, p).
  - intros n st Hst Hun Hnot. assert (dget n nss = None) as Hnone.
    { apply dget_None. by rewrite Hkeys. }
    rewrite Hw4, Hw3, decide_False, Hl2, Hnone; [done|]. intros [Hin _]. apply Hns' in Hin as (st' & Hst' & Hm').
    rewrite Hl2, Hnone in Hst'. congruence.
Qed.


(** *** A sweep that fails *)

(** The API server refuses every deletion. *)
Definition deletes_fail : Prop := ∀ n w, ∃ e w',
  delete_custom POOLS (namespace cfg) n w = (Raise (ApiException e), w') ∧ pools w' = pools w.

Lemma refused_sweep desired names m w :
  deletes_fail → ∃ w', for_each names (delete_orphan cfg desired) (m, w) = (Ret (), (m, w')) ∧ pools w' = pools w.
Proof.
  intros Hd. revert w. induction names as [|n names IH]; intros w; [by exists w|]. cbn [for_each].
  assert (∃ w1, delete_orphan cfg desired n (m, w) = (Ret (), (m, w1)) ∧ pools w1 = pools w) as (w1 & Hn & Hp).
  { unfold delete_orphan. destruct (is_desired desired n); [by exists w|].
    unfold except, world, mbind, M_bind. cbn. destruct (Hd n w) as (e & w1 & -> & Hp). by exists w1. }
  destruct (IH w1) as (w' & Hf & Hp'). exists w'. unfold mbind, M_bind. rewrite Hn. split; [exact Hf|congruence].
Qed.

(** A pass whose deletions are all refused still counts as complete when the
    pools of the plan were applied: the orphans stay, nothing is left to retry, and
    as long as the plan does not change no later pass looks at them again. *)
Theorem failed_sweep_not_retried fuel a desired names m w w2 w3 :
  let m1 := Member (last_etag m) (Some a) true (capacity_ok_at m) in
  deletes_fail → desired_pools (local_pools a) = Ret desired →
  apply_pools cfg (ma_generation a) desired.*2 (m1, w) = (Ret O, (m1, w2)) →
  list_managed_pool_names cfg fuel (m1, w2) = (Ret names, (m1, w3)) →
  ∃ m' w', apply_assignment cfg fuel a (m, w) = (Ret (), (m', w')) ∧ pools w' = pools w3 ∧
    retry_pending m' = false ∧
    ∀ w1 obj w1', run (get_with_etag (assignments_path (member_paths cfg))) w1 = (Ret (obj, last_etag m'), w1') →
      reconcile_once cfg fuel (m', w1) = (Ret (), (m', w1')).
Proof.
  intros m1 Hd Hdes Ha Hl. destruct (refused_sweep desired names m1 w3 Hd) as (w' & Hf & Hp).
  exists (Member (last_etag m) (Some a) false (capacity_ok_at m)), w'. split_and!; [|done|done|].
  - unfold apply_assignment. fold (local_pools a). rewrite Hdes.
    unfold set_retry, set_assignment, set_self, lift, mbind, M_bind. cbn [fst snd].
    change (Member _ _ _ _) with m1 at 1. rewrite Ha, Hl, Hf. done.
  - intros w1 obj w1' Hg. unfold reconcile_once, admit_pass, fetch_assignments, except, world, mbind, M_bind.
    cbn [fst snd]. rewrite Hg. cbn -[decide]. unfold accept_payload, self, mbind, M_bind. cbn -[decide].
    by rewrite decide_True.
Qed.
End converge.
