(* ===== verification/FleetSim.v ===== *)
(** A small cluster with its object store, in which the theorems about the member
    are exercised: an API server that keeps warm pools by name and answers lists in
    one page, and which may refuse deletions. *)

From Stdlib Require Import String ZArith QArith Lia.
From stdpp Require Import base option list strings sets gmap pretty.
From S2P Require Import Prelude Hoare Float Json PyList PyText DateTime World Budget Effects ObjectStore FleetMember FleetMemberProofs.

#[local] Open Scope Z_scope.

Record fleet_world := FleetWorld {
  fw_store : good_bucket;
  (** in nanoseconds *)
  fw_now : Z;
  fw_pools : gmap string pool_state;
  fw_templates : list string;
}.

Definition with_pools (g : gmap string pool_state) (w : fleet_world) : fleet_world :=
  FleetWorld (fw_store w) (fw_now w) g (fw_templates w).

#[global] Instance fleet_handler : Handler fleet_world := λ X q w,
  let r := handle q (fw_store w) in (r.1, FleetWorld r.2 (fw_now w) (fw_pools w) (fw_templates w)).

#[global] Instance fleet_clock : Clock fleet_world := {
  monotonic w := (fw_now w, w);
  sleep d w := FleetWorld (fw_store w) (fw_now w + Z.max 0 d) (fw_pools w) (fw_templates w);
  utcnow_us w := (63902822400000000 + fw_now w / 1000, w);
  utcnow_isoformat w := (isoformat_utc (63902822400000000 + fw_now w / 1000), w);
}.

(** A pool as the API server returns it. *)
Definition pool_json (n : string) (st : pool_state) : json :=
  JObj [("metadata", JObj [("name", JStr n); ("resourceVersion", JStr "1");
           ("labels", if ps_managed st then JObj [(MANAGED_LABEL, JStr "true")] else JObj [])]);
        ("spec", JObj [("sandboxTemplateRef", JObj [("name", ps_template st)]); ("replicas", ps_replicas st)])].

Definition managed_names (g : gmap string pool_state) : list string :=
  (filter (λ ns, ps_managed ns.2 = true) (map_to_list g)).*1.

Section api.
(** whether deletions are refused *)
Context (stuck : bool).

Definition sim_get (r : resource) (ns : string) (n : json) (w : fleet_world) : outcome json * fleet_world :=
  match n with
  | JStr s =>
      if decide (r = TEMPLATES) then
        (if decide (s ∈ fw_templates w) then Ret (JObj []) else Raise (ApiException 404), w)
      else
        match fw_pools w !! s with
        | Some st => (Ret (pool_json s st), w)
        | None => (Raise (ApiException 404), w)
        end
  | _ => (Raise TypeError, w)
  end.

Definition sim_create (r : resource) (ns : string) (body : json) (w : fleet_world) : outcome json * fleet_world :=
  match summary body with
  | Some (n, st) =>
      if fw_pools w !! n is Some _ then (Raise (ApiException 409), w)
      else (Ret body, with_pools (<[n := st]> (fw_pools w)) w)
  | None => (Raise (ApiException 422), w)
  end.

Definition sim_replace (r : resource) (ns : string) (name body : json) (w : fleet_world)
    : outcome json * fleet_world :=
  match summary body, as_str name with
  | Some (n, st), Some n' =>
      if decide (n = n') then (Ret body, with_pools (<[n := st]> (fw_pools w)) w)
      else (Raise (ApiException 400), w)
  | _, _ => (Raise (ApiException 422), w)
  end.

Definition sim_delete (r : resource) (ns : string) (name : json) (w : fleet_world) : outcome json * fleet_world :=
  if stuck then (Raise (ApiException 500), w)
  else
    match name with
    | JStr n =>
        if fw_pools w !! n is Some _ then (Ret (JObj []), with_pools (delete n (fw_pools w)) w)
        else (Raise (ApiException 404), w)
    | _ => (Raise (ApiException 404), w)
    end.

Definition sim_list (w : fleet_world) : json :=
  JObj [("items", JList ((λ n, JObj [("metadata", JObj [("name", JStr n)])]) <$> managed_names (fw_pools w)))].

#[global, refine] Instance fleet_api : ClusterApi fleet_world := {|
  get_custom := sim_get;
  create_custom := sim_create;
  replace_custom := sim_replace;
  delete_custom := sim_delete;
  list_custom_page _ _ _ _ _ w := (Ret (sim_list w), w);
  list_node w := (Ret [Node "n1" false [("cpu", "4"); ("memory", "8Gi")]], w);
  list_pod_page _ _ w := (Ret ([], None), w);
  list_all_sandboxes _ w := (Ret 0, w);
  publish_profile _ w := (Ret (), w);
|}.
Defined.

Lemma managed_names_spec g n : n ∈ managed_names g ↔ ∃ st, g !! n = Some st ∧ ps_managed st = true.
Proof.
  unfold managed_names. rewrite list_elem_of_fmap. split.
  - intros ([k st] & -> & Hin). apply list_elem_of_filter in Hin as [Hm Hin].
    apply elem_of_map_to_list in Hin. eauto.
  - intros (st & Hg & Hm). exists (n, st). split; [done|]. apply list_elem_of_filter.
    split; [done|]. by apply elem_of_map_to_list.
Qed.

Lemma sim_page w : page_of (sim_list w) (managed_names (fw_pools w)) None.
Proof.
  eexists _, JNull, JNull. split_and!; [done| |done..].
  generalize (managed_names (fw_pools w)). intros l. induction l; by constructor.
Qed.

#[global, refine] Instance fleet_laws ns : @PoolLaws fleet_world fleet_api ns := {|
  pools := fw_pools;
  remaining w t := managed_names (fw_pools w);
|}.
Proof.
  - intros r n w x w'. cbn. unfold sim_get. destruct n; try (by intros [= _ <-]).
    case_decide; [by intros [= _ <-]|]. case_match; by intros [= _ <-].
  - intros body w x w'. cbn. unfold sim_create. destruct (summary body) as [[n st]|]; [|done].
    destruct (fw_pools w !! n); [done|]. intros [= _ <-]. eauto.
  - intros n body w x w'. cbn. unfold sim_replace. destruct (summary body) as [[n' st]|]; [|done].
    cbn. case_decide as Hn; [subst|done]. intros [= _ <-]. eauto.
  - intros n w x w'. cbn. unfold sim_delete. destruct stuck; [done|].
    destruct (fw_pools w !! n); [|done]. by intros [= _ <-].
  - intros n w w'. cbn. unfold sim_delete. destruct stuck; [done|].
    destruct (fw_pools w !! n) eqn:E; [done|]. by intros [= <-].
  - intros cont w resp w'. cbn. intros [= <- <-]. split; [done|].
    exists (managed_names (fw_pools w)), None. split; [apply sim_page|]. cbn.
    rewrite app_nil_r. destruct cont; [done|]. apply managed_names_spec.
Defined.
End api.

(** ** Deletions that work, and that do not *)

Lemma fleet_deletes_succeed cfg : @deletes_succeed fleet_world (fleet_api false) cfg.
Proof.
  intros n w e w'. cbn. unfold sim_delete. destruct (fw_pools w !! n); [done|]. by intros [= <- _].
Qed.

Lemma fleet_deletes_fail cfg :
  @deletes_fail fleet_world (fleet_api true) cfg (fleet_laws true (namespace cfg)).
Proof. intros n w. by exists 500, w. Qed.

(** ** Worked passes *)

Module DemoMember.
Definition cfg : member_config := MemberConfig "a" "ns" "full" default_paths false.

Definition plan (pools : json) : json :=
  JObj [("schema_version", JInt 1); ("generation", JInt 4); ("updated_at", JStr "2026-01-01T00:00:00Z");
        ("clusters", JObj [("a", JObj [("pools", pools)]); ("b", JObj [("pools", JList [])])])].

Definition pool_m : json :=
  JObj [("template", JStr "m"); ("warmpool", JStr "m-pool"); ("replicas", JInt 2)].

(** A managed pool the plan does not have, and a pool of somebody else. *)
Definition old : pool_state := PoolState true (JStr "old") (JInt 1).
Definition foreign : pool_state := PoolState false (JStr "f") (JInt 5).

Definition world_of (r : raw) : fleet_world :=
  FleetWorld (store_with "fleet/assignments.json" r 63902822400000000) (100 * SECOND)
    {["old-pool" := old; "f-pool" := foreign]} ["m"].

Definition assignments : MemberAssignments :=
  match parse_assignments (plan (JList [pool_m])) (JInt 1) with
  | Ret a => a
  | _ => {| ma_schema_version := JNull; ma_generation := JNull; ma_updated_at := JNull; ma_clusters := [] |}
  end.

Definition w0 : fleet_world := world_of (RawJson (plan (JList [pool_m]))).
End DemoMember.



(** The same pass where deletions are refused: the orphan stays for good. *)
Lemma failed_sweep_not_retried_witness :
  ∃ m' w', @apply_assignment _ (fleet_api true) DemoMember.cfg 3 DemoMember.assignments
             (Member "gen:1" None false None, DemoMember.w0) = (Ret (), (m', w')) ∧
    fw_pools w' !! "old-pool" = Some DemoMember.old ∧ retry_pending m' = false.
Proof.
  set (m := Member "gen:1" None false None). set (a := DemoMember.assignments).
  set (m1 := Member "gen:1" (Some a) true None).
  destruct (desired_pools (@local_pools DemoMember.cfg a)) as [desired|e|] eqn:Ed; [|done..].
  set (r := @apply_pools _ (fleet_api true) DemoMember.cfg (ma_generation a) desired.*2 (m1, DemoMember.w0)).
  set (l := @list_managed_pool_names _ (fleet_api true) DemoMember.cfg 3 (m1, r.2.2)).
  vm_compute in Ed. injection Ed as Ed.
  destruct (@failed_sweep_not_retried fleet_world _ _ (fleet_api true) DemoMember.cfg (fleet_laws true _)
    3 a desired (match l.1 with Ret ns => ns | _ => [] end) m DemoMember.w0 r.2.2 l.2.2)
    as (m' & w' & Ha & Hp & Hr & _); [apply fleet_deletes_fail|by rewrite <-Ed|..].
  - subst r. rewrite <-Ed. reflexivity.
  - subst l r. rewrite <-Ed. reflexivity.
  - exists m', w'. split_and!; [exact Ha| |exact Hr]. cbn in Hp. rewrite Hp. subst l r. rewrite <-Ed. reflexivity.
Defined.
