(* ===== verification/Resolver.v ===== *)
(** Which cluster serves a template: models [resolver.py] of
    [src/examples/multi-cluster-fleet/python/agent_sandbox_fleet].

    The resolver caches the published assignments and picks a cluster; the facade
    [FleetSandboxClient] keeps one SDK client per cluster and remembers where each
    claim was created. The SDK's client and the kubeconfig loader are the operations
    of [FleetSdk]. A method runs as a whole: the locks of the source guard the dicts
    below, and calls of other threads are other steps. Log lines, and the set of
    contexts already warned about, are left out. *)

From Stdlib Require Import Ascii String ZArith QArith.
From stdpp Require Import base option list strings sets pretty.
From S2P Require Import Prelude Float Json PyList PyText IpAddress World Budget Effects ObjectStore FleetMember.

#[local] Open Scope Z_scope.

(** ** Naming *)

(** [str.isalpha] of one Latin-1 character *)
Definition is_alpha (c : ascii) : bool :=
  let n := N_of_ascii c in
  ((65 <=? n) && (n <=? 90) || (97 <=? n) && (n <=? 122) || (n =? 170) || (n =? 181) || (n =? 186)
   || (192 <=? n) && (n <=? 214) || (216 <=? n) && (n <=? 246) || (248 <=? n))%N.

Definition looks_zonal (loc : string) : bool :=
  match reverse (explode loc) with
  | last :: dash :: _ => bool_decide (dash = "-"%char) && is_alpha last
  | _ => false
  end.

Definition gke_context_naming (project location cluster : string) : string :=
  "gke_" +:+ project +:+ "_" +:+ location +:+ "_" +:+ cluster.

Definition kind_context_naming (cluster : string) : string := "kind-" +:+ cluster.

Record ResolvedCluster := Resolved {
  rv_cluster : string;
  rv_template : json;
  rv_warmpool : json;
  rv_replicas : Z;
  rv_image : json;
  rv_generation : Z;
  rv_context_name : option string;
}.

(** A flag given with a value that is not empty. *)
Definition option_args (v : option string) (args : string → list string) : list string :=
  match v with Some (String _ _ as s) => args s | _ => [] end.

Definition get_credentials_cmd (r : ResolvedCluster) (project location : option string) : string :=
  String.concat " "
    (["gcloud"; "container"; "clusters"; "get-credentials"; rv_cluster r]
     ++ option_args location (λ l, if looks_zonal l then ["--zone"; l] else ["--region"; l])
     ++ option_args project (λ p, ["--project"; p])).

(** ** Matches *)

Record host_match := HostMatch {
  m_cluster : string;
  m_template : json;
  m_warmpool : json;
  m_replicas : Z;
  m_image : json;
  m_generation : Z;
}.

(** [v > 0] *)
Definition positive (v : json) : outcome bool :=
  match num_like v with Some f => Ret (flt (PFin 0) f) | None => Raise TypeError end.

Definition pool_match (assignments : json) (cname template : string) (pool : json)
    : outcome (option host_match) :=
  t ← py_get pool "template";
  if json_eqb t (JStr template) then
    n ← py_get_def pool "replicas" (JInt 0);
    live ← positive n;
    if live : bool then
      tmpl ← py_sub pool "template";
      warmpool ← py_sub pool "warmpool";
      rv ← py_sub pool "replicas";
      replicas ← int_of_json rv;
      image ← py_get pool "image";
      g ← py_get_def assignments "generation" (JInt 0);
      generation ← int_of_json g;
      Ret (Some (HostMatch cname tmpl warmpool replicas image generation))
    else Ret None
  else Ret None.

(** A frozen cluster hosts nothing. *)
Definition cluster_matches (assignments : json) (template : string) (ce : string * json)
    : outcome (list host_match) :=
  since ← py_get ce.2 "stale_since";
  if truthy since then Ret []
  else
    ps ← py_get_def ce.2 "pools" (JList []);
    l ← py_iter ps;
    ms ← traverse (pool_match assignments ce.1 template) l;
    Ret (omap (M:=list) id ms).

Definition matches_in (assignments : json) (template : string) : outcome (list host_match) :=
  cs ← py_get_def assignments "clusters" (JObj []);
  kvs ← dict_items cs;
  mss ← traverse (cluster_matches assignments template) kvs;
  Ret (sorted (λ a b, str_lt (m_cluster a) (m_cluster b)) (concat mss)).

(** [all_templates] of a payload: the set of the pools' templates, sorted. *)
Fixpoint json_set (l : list json) : list json :=
  match l with
  | [] => []
  | v :: l' => let s := json_set l' in if existsb (json_eqb v) s then s else v :: s
  end.

Definition templates_of (entry : json) : outcome (list json) :=
  ps ← py_get_def entry "pools" (JList []);
  l ← py_iter ps;
  traverse (λ pool, t ← py_sub pool "template"; if unhashable t then Raise TypeError else Ret t) l.

Definition templates_in (assignments : json) : outcome (list json) :=
  cs ← py_get_def assignments "clusters" (JObj []);
  kvs ← dict_items cs;
  tss ← traverse templates_of kvs.*2;
  sort_names (json_set (concat tss)).

(** ** The resolver *)

Record resolver_config := ResolverConfig {
  rc_paths : Paths;
  refresh_interval_s : pyfloat;
  context_naming : option (string → string);
  retries : Z;
  retry_base_delay_s : pyfloat;
}.

Record resolver := Resolver {
  rs_assignments : option json;
  rs_last_read_at : pyfloat;
  (** the next value of each template's counter *)
  rr_cursors : list (string * Z);
}.

Definition new_resolver : resolver := Resolver None (PFin 0) [].

Definition build_resolved (cfg : resolver_config) (m : host_match) : ResolvedCluster :=
  Resolved (m_cluster m) (m_template m) (m_warmpool m) (m_replicas m) (m_image m) (m_generation m)
    ((λ naming, naming (m_cluster m)) <$> context_naming cfg).

Section resolver.
Context {W : Type} `{Handler W} `{WallClock W}.
Context (cfg : resolver_config).

Abbreviation RM := (M (resolver * W)).

Definition read_once : M W json :=
  d ← run (get_json (assignments_path (rc_paths cfg)));
  match d with
  | Some JNull | None => raise AssignmentsMissingError
  | Some v => mret v
  end.

(** The attempts left and the number of this one. *)
Fixpoint read_attempts (left : nat) (attempt : Z) : M W json :=
  match left with
  | O => raise ResolverError
  | S left' =>
      r ← except (λ e, if decide (e = AssignmentsMissingError) then None else Some (mret None))
            (v ← read_once; mret (Some v));
      match r, left' with
      | Some v, _ => mret v
      | None, O => raise ResolverError
      | None, S _ =>
          factor ← lift (float_of_int (2 ^ attempt));
          _ ← time_sleep (fmul (retry_base_delay_s cfg) factor);
          read_attempts left' (attempt + 1)
      end
  end.

Definition read_with_retry : M W json := read_attempts (Z.to_nat (Z.max 1 (retries cfg))) 0.

(** The cached payload, unless it is too old or a refresh is asked for. *)
Definition cached (s : resolver) (now : pyfloat) (refresh : bool) : option json :=
  if flt (fsub now (rs_last_read_at s)) (refresh_interval_s cfg) && negb refresh
  then rs_assignments s else None.

Definition read (refresh : bool) : RM json :=
  now ← world time_time;
  s ← self;
  match cached s now refresh with
  | Some d => mret d
  | None =>
      data ← world read_with_retry;
      now' ← world time_time;
      _ ← set_self (λ s, Resolver (Some data) now' (rr_cursors s));
      mret data
  end.

Definition list_matches (template : string) (refresh : bool) : RM (list host_match) :=
  assignments ← read refresh;
  lift (matches_in assignments template).

(** [matches[idx]] *)
Definition at_index (ms : list host_match) (i : Z) : RM host_match :=
  match ms !! Z.to_nat i with Some m => mret m | None => raise IndexError end.

Definition choose (template : string) (ms : list host_match) (strategy : string) : RM host_match :=
  let n := Z.of_nat (length ms) in
  if (n =? 1) || bool_decide (strategy = "first") then at_index ms 0
  else if decide (strategy = "round-robin") then
    s ← self;
    let cursor := default 0 (dget template (rr_cursors s)) in
    _ ← set_self (λ s, Resolver (rs_assignments s) (rs_last_read_at s) (dset template (cursor + 1) (rr_cursors s)));
    at_index ms (cursor mod n)
  else if decide (strategy = "hash") then
    at_index ms (Z.of_N (default 0%N (hex_value 0 (explode (md5_hexdigest template)))) mod n)
  else raise ValueError.

Definition resolve (template strategy : string) (refresh : bool) : RM ResolvedCluster :=
  ms ← list_matches template refresh;
  match ms with
  | [] => raise TemplateNotAssignedError
  | _ => m ← choose template ms strategy; mret (build_resolved cfg m)
  end.

Definition list_hosts (template : string) (refresh : bool) : RM (list ResolvedCluster) :=
  ms ← list_matches template refresh; mret (build_resolved cfg <$> ms).

Definition all_templates (refresh : bool) : RM (list json) :=
  assignments ← read refresh; lift (templates_in assignments).
End resolver.

(** [resolve_cluster]: a resolver used once. *)
Definition resolve_cluster {W} `{Handler W} `{WallClock W} (paths : Paths)
    (naming : option (string → string)) (template strategy : string) : M W ResolvedCluster := λ w,
  let cfg := ResolverConfig paths (PFin 60) naming 3 (PFin (1 # 2)) in
  let r := resolve cfg template strategy false (new_resolver, w) in (r.1, r.2.2).

(** ** The facade *)

Class FleetSdk (W : Type) := {
  (** a [Configuration] filled by [load_kube_config] *)
  configuration : Type;
  load_kube_config : string → M W configuration;
  (** the same call without [client_configuration] *)
  load_global_config : string → M W ();
  (** whether [SandboxClient] has the parameter [api_client] *)
  accepts_api_client : bool;
  (** the constructor, given the configuration of the [api_client] it is passed *)
  sandbox_client : Type;
  new_sandbox_client : option configuration → M W sandbox_client;
  (** rebinding the two API objects of the helper *)
  rebind_apis : sandbox_client → configuration → sandbox_client;
  set_pool_maxsize : Z → configuration → configuration;
  sdk_create : sandbox_client → list (string * json) → M W (list (string * json));
  sdk_delete : sandbox_client → string → string → M W ();
}.

(** [_extract_claim_name]; the object is given by its attributes *)
Definition extract_claim_name (sandbox : list (string * json)) : option string :=
  (fix go (attrs : list string) : option string :=
     match attrs with
     | [] => None
     | a :: attrs' =>
         let v := default JNull (dget a sandbox) in if truthy v then Some (py_str v) else go attrs'
     end) ["claim_name"; "name"; "sandbox_name"].

Record facade_config := FacadeConfig {
  fc_namespace : string;
  fc_strategy : string;
  fc_resolver_config : resolver_config;
  fc_pool_maxsize : option Z;
}.

(** [a or b] for an optional string and a string *)
Definition str_or (a : option string) (b : string) : string :=
  match a with Some (String _ _ as s) => s | _ => b end.

Section facade.
Context {W : Type} `{Handler W} `{WallClock W} `{!FleetSdk W}.
Context (cfg : facade_config).

Record facade := Facade {
  fs_resolver : resolver;
  fs_clients : list (string * sandbox_client);
  (** claim name to cluster *)
  fs_claims : list (string * string);
}.

Definition new_facade : facade := Facade new_resolver [] [].

Abbreviation FM := (M (facade * W)).

Definition on_resolver {A} (m : M (resolver * W) A) : FM A :=
  zoom (λ s : facade * W, (fs_resolver s.1, s.2))
       (λ t s, (Facade t.1 (fs_clients s.1) (fs_claims s.1), t.2)) m.

Definition set_clients (f : list (string * sandbox_client) → list (string * sandbox_client)) : FM () :=
  set_self (λ s, Facade (fs_resolver s) (f (fs_clients s)) (fs_claims s)).
Definition set_claims (f : list (string * string) → list (string * string)) : FM () :=
  set_self (λ s, Facade (fs_resolver s) (fs_clients s) (f (fs_claims s))).

Definition pinned_sandbox_client (conf : configuration) : M W sandbox_client :=
  if accepts_api_client then new_sandbox_client (Some conf)
  else c ← new_sandbox_client None; mret (rebind_apis c conf).

(** [_build_client], with the packages installed and no test factory *)
Definition build_client (ctx : string) : M W sandbox_client :=
  conf ← except (λ e, if decide (e = ConfigException) then Some (raise ClusterUnavailableError) else None)
           (load_kube_config ctx);
  let conf' := match fc_pool_maxsize cfg with Some n => set_pool_maxsize n conf | None => conf end in
  _ ← except (λ e, if decide (e = ConfigException) then Some (mret ()) else None) (load_global_config ctx);
  pinned_sandbox_client conf'.

Definition get_or_build_client (cluster : string) (ctx : option string) : FM sandbox_client :=
  s ← self;
  match dget cluster (fs_clients s), ctx with
  | Some c, _ => mret c
  | None, None => raise ClusterUnavailableError
  | None, Some x =>
      c ← world (build_client x);
      _ ← set_clients (dset cluster c);
      mret c
  end.

Definition drop_client (cluster : string) : FM () := set_clients (dpop cluster).

Definition facade_resolve (template : string) (strategy : option string) : FM ResolvedCluster :=
  on_resolver (resolve (fc_resolver_config cfg) template (str_or strategy (fc_strategy cfg)) false).

(** The extra keyword arguments cannot repeat [warmpool]. *)
Definition create_kwargs (r : ResolvedCluster) (namespace : option string) (timeout : Z)
    (labels : option json) (kwargs : list (string * json)) : outcome (list (string * json)) :=
  if bool_decide ("warmpool" ∈ kwargs.*1) then Raise TypeError
  else Ret ([("warmpool", rv_warmpool r); ("namespace", JStr (str_or namespace (fc_namespace cfg)));
             ("sandbox_ready_timeout", JInt timeout);
             ("labels", match labels with Some l => py_or l (JObj []) | None => JObj [] end)] ++ kwargs).

Definition create_sandbox (template : string) (namespace strategy : option string) (timeout : Z)
    (labels : option json) (kwargs : list (string * json)) : FM (list (string * json)) :=
  r ← facade_resolve template strategy;
  client ← get_or_build_client (rv_cluster r) (rv_context_name r);
  sandbox ← except (λ e, Some (_ ← drop_client (rv_cluster r); raise e))
              (args ← lift (create_kwargs r namespace timeout labels kwargs);
               world (sdk_create client args));
  _ ← match extract_claim_name sandbox with
      | Some n => set_claims (dset n (rv_cluster r))
      | None => mret ()
      end;
  mret sandbox.

Definition delete_sandbox (claim_name : string) (namespace cluster : option string) : FM () :=
  s ← self;
  let home := str_or cluster (default EmptyString (dget claim_name (fs_claims s))) in
  if decide (home = EmptyString) then raise ResolverError
  else
    let ctx := (λ naming, naming home) <$> context_naming (fc_resolver_config cfg) in
    client ← get_or_build_client home ctx;
    _ ← world (sdk_delete client claim_name (str_or namespace (fc_namespace cfg)));
    set_claims (dpop claim_name).

Definition cluster_for (claim_name : string) : FM (option string) :=
  s ← self; mret (dget claim_name (fs_claims s)).

Definition known_clusters : FM (list string) := s ← self; mret (sorted str_lt (fs_clients s).*1).
End facade.
