(* ===== verification/ResolverProofs.v ===== *)
(** Where the resolver sends a claim: only to clusters of the payload it holds that
    are not frozen and keep the template warm, in turn; and the facade deletes a
    claim on the cluster that created it. *)

From Stdlib Require Import String ZArith QArith Qabs Lqa Lia.
From stdpp Require Import base option list strings sets pretty.
From S2P Require Import Prelude Hoare Float Json PyList PyText Utils World Budget BudgetProofs Effects ObjectStore FleetMember Resolver.

#[local] Open Scope Z_scope.

(** ** Matches *)

(** The payload says that a cluster serves a template from a warm pool. *)
Definition serves (d : json) (template cluster : string) (warmpool : json) : Prop :=
  ∃ kvs entry since ps l pool n f,
    py_get_def d "clusters" (JObj []) = Ret (JObj kvs) ∧ (cluster, entry) ∈ kvs ∧
    py_get entry "stale_since" = Ret since ∧ truthy since = false ∧
    py_get_def entry "pools" (JList []) = Ret ps ∧ py_iter ps = Ret l ∧ pool ∈ l ∧
    py_get pool "template" = Ret (JStr template) ∧
    py_get_def pool "replicas" (JInt 0) = Ret n ∧ num_like n = Some f ∧ flt (PFin 0) f = true ∧
    py_sub pool "warmpool" = Ret warmpool.

Lemma json_eqb_str v s : json_eqb v (JStr s) = true ↔ v = JStr s.
Proof. destruct v; cbn; try (split; [done|discriminate]). rewrite String.eqb_eq. split; congruence. Qed.

Lemma pool_match_some d c t pool m :
  pool_match d c t pool = Ret (Some m) →
  m_cluster m = c ∧ py_get pool "template" = Ret (JStr t) ∧ py_sub pool "warmpool" = Ret (m_warmpool m) ∧
  ∃ n f, py_get_def pool "replicas" (JInt 0) = Ret n ∧ num_like n = Some f ∧ flt (PFin 0) f = true.
Proof.
  unfold pool_match, positive, mbind, outcome_bind.
  destruct (py_get pool "template") as [v|e|] eqn:Et; [|done..].
  destruct (json_eqb v (JStr t)) eqn:Ev; [|done]. apply json_eqb_str in Ev as ->.
  destruct (py_get_def pool "replicas" _) as [n|e|] eqn:En; [|done..].
  destruct (num_like n) as [f|] eqn:Ef; [|done]. destruct (flt _ f) eqn:El; [|done].
  destruct (py_sub pool "template") as [tm|e|]; [|done..].
  destruct (py_sub pool "warmpool") as [wp|e|] eqn:Ew; [|done..].
  destruct (py_sub pool "replicas") as [rv|e|]; [|done..].
  destruct (int_of_json rv) as [r|e|]; [|done..]. destruct (py_get pool "image") as [i|e|]; [|done..].
  destruct (py_get_def d _ _) as [g|e|]; [|done..]. destruct (int_of_json g) as [gz|e|]; [|done..].
  intros [= <-]. cbn. split_and!; [done..|]. eauto.
Qed.

Lemma pool_match_none d c t pool :
  pool_match d c t pool = Ret None →
  ¬ (py_get pool "template" = Ret (JStr t) ∧
     ∃ n f, py_get_def pool "replicas" (JInt 0) = Ret n ∧ num_like n = Some f ∧ flt (PFin 0) f = true).
Proof.
  intros Hm [Ht (n & f & Hn & Hf & Hl)]. revert Hm. unfold pool_match, positive, mbind, outcome_bind.
  rewrite Ht. destruct (json_eqb _ _) eqn:Ev; [|by rewrite (proj2 (json_eqb_str _ _)) in Ev].
  rewrite Hn, Hf, Hl. repeat (case_match; try done).
Qed.

Lemma cluster_matches_in d t c entry ms :
  cluster_matches d t (c, entry) = Ret ms →
  ∃ since, py_get entry "stale_since" = Ret since ∧
  if truthy since then ms = [] else
    ∃ ps l oms, py_get_def entry "pools" (JList []) = Ret ps ∧ py_iter ps = Ret l ∧
      Forall2 (λ pool om, pool_match d c t pool = Ret om) l oms ∧ ms = omap id oms.
Proof.
  unfold cluster_matches, mbind, outcome_bind. cbn [fst snd].
  destruct (py_get entry _) as [since|e|]; [|done..]. intros H. exists since. split; [done|].
  destruct (truthy since); [by injection H as <-|].
  destruct (py_get_def entry _ _) as [ps|e|]; [|done..]. destruct (py_iter ps) as [l|e|] eqn:El; [|done..].
  destruct (traverse _ l) as [oms|e|] eqn:Em; [|done..]. injection H as <-.
  exists ps, l, oms. split_and!; [done..| |done]. by apply traverse_Forall2.
Qed.

Lemma elem_of_concat {A} (x : A) ls : x ∈ concat ls ↔ ∃ l, x ∈ l ∧ l ∈ ls.
Proof.
  induction ls as [|l ls IH]; cbn; [split; [by intros ?%elem_of_nil|by intros (? & _ & ?%elem_of_nil)]|].
  rewrite elem_of_app, IH. setoid_rewrite elem_of_cons. naive_solver.
Qed.

(** The matches are exactly the clusters that serve the template, in order of name. *)
Lemma matches_exact d t ms c wp :
  matches_in d t = Ret ms → serves d t c wp ↔ ∃ m, m ∈ ms ∧ m_cluster m = c ∧ m_warmpool m = wp.
Proof.
  unfold matches_in, mbind, outcome_bind. destruct (py_get_def d "clusters" _) as [cs|e|] eqn:Ecs; [|done..].
  destruct (dict_items cs) as [kvs|e|] eqn:Ek; [|done..].
  destruct (traverse _ kvs) as [mss|e|] eqn:Em; [|done..]. intros [= <-].
  assert (cs = JObj kvs) as -> by (destruct cs; naive_solver). apply traverse_Forall2 in Em.
  setoid_rewrite sorted_perm. setoid_rewrite elem_of_concat. split.
  - intros (kvs' & entry & since & ps & l & pool & n & f & Hk' & Hin & Hs & Hst & Hps & Hl & Hp & Ht & Hn & Hf & Hpos & Hw).
    rewrite Ecs in Hk'. injection Hk' as <-.
    apply list_elem_of_lookup in Hin as [i Hi]. destruct (Forall2_lookup_l _ _ _ _ _ Em Hi) as (cms & Hcms & Hc).
    apply cluster_matches_in in Hc as (since' & Hs' & Hrest). rewrite Hs in Hs'. injection Hs' as <-.
    rewrite Hst in Hrest. destruct Hrest as (ps' & l' & oms & Hps' & Hl' & HF & ->).
    rewrite Hps in Hps'. injection Hps' as <-. rewrite Hl in Hl'. injection Hl' as <-.
    apply list_elem_of_lookup in Hp as [j Hj]. destruct (Forall2_lookup_l _ _ _ _ _ HF Hj) as ([m|] & Ho & Hm).
    + pose proof (pool_match_some _ _ _ _ _ Hm) as (Hmc & _ & Hmw & _). rewrite Hw in Hmw. injection Hmw as ->.
      exists m. split_and!; [|done..]. exists (omap id oms). split.
      * apply list_elem_of_omap. exists (Some m). split; [by eapply list_elem_of_lookup_2|done].
      * by eapply list_elem_of_lookup_2.
    + apply pool_match_none in Hm. exfalso. apply Hm. split; [done|]. eauto.
  - intros (m & (cms & Hm & Hcms) & <- & <-). apply list_elem_of_lookup in Hcms as [i Hi].
    destruct (Forall2_lookup_r _ _ _ _ _ Em Hi) as ([c' entry] & Hc & Hcm).
    apply cluster_matches_in in Hcm as (since & Hs & Hrest).
    destruct (truthy since) eqn:Est; [subst; by apply elem_of_nil in Hm|].
    destruct Hrest as (ps & l & oms & Hps & Hl & HF & ->).
    apply list_elem_of_omap in Hm as ([m'|] & Hin & [= ->]). apply list_elem_of_lookup in Hin as [j Hj].
    destruct (Forall2_lookup_r _ _ _ _ _ HF Hj) as (pool & Hp & Hpm).
    apply pool_match_some in Hpm as (-> & Ht & Hw & n & f & Hn & Hf & Hpos).
    exists kvs, entry, since, ps, l, pool, n, f. split_and!; try done; by eapply list_elem_of_lookup_2.
Qed.

(** ** Reading *)

Lemma get_json_total {W} `{Handler W} p (w : W) :
  (handle (Download p None) w).1 ≠ NoFuel → (run (get_json p) w).1 ≠ NoFuel.
Proof.
  unfold get_json. cbn. destruct (handle _ w) as [[r|e|] w1]; cbn; [|case_decide|]; try done.
  intros _. by destruct r.
Qed.

Section resolving.
Context {W : Type} `{Handler W} `{WallClock W}.
Context (cfg : resolver_config).

(** The payload was in the bucket at some point of the call. *)
Definition read_from_bucket (d : json) : Prop :=
  d ≠ JNull ∧ ∃ w1 w2, run (get_json (assignments_path (rc_paths cfg))) w1 = (Ret (Some d), w2).

Lemma read_once_inv w o w' :
  read_once cfg w = (o, w') →
  match o with
  | Ret d => read_from_bucket d
  | Raise _ => True
  | NoFuel => (run (get_json (assignments_path (rc_paths cfg))) w).1 = NoFuel
  end.
Proof.
  unfold read_once, mbind, M_bind. destruct (run _ w) as [[[v|]|e|] w1] eqn:Er; cbn; try (by intros [= <- <-]).
  assert (v = JNull ∨ v ≠ JNull) as [->|Hv] by (destruct v; naive_solver); [by intros [= <- <-]|].
  destruct v; try done; intros [= <- <-]; split; eauto.
Qed.

Lemma read_attempts_source n a w d w' :
  read_attempts cfg n a w = (Ret d, w') → read_from_bucket d.
Proof.
  revert a w. induction n as [|n IH]; intros a w; [done|]. cbn [read_attempts]. unfold except, mbind, M_bind.
  destruct (read_once cfg w) as [[v|e|] w1] eqn:Er; cbn -[decide]; [|case_decide; [done|]|done].
  - apply read_once_inv in Er. by intros [= <- <-].
  - cbn. destruct n as [|n]; [done|].
    unfold lift. destruct (float_of_int _) as [f|e'|]; [|done..].
    destruct (time_sleep _ w1) as [[[]|e'|] w2]; [|done..]. apply IH.
Qed.

Lemma read_inv refresh s w d s' w' :
  read cfg refresh (s, w) = (Ret d, (s', w')) →
  rs_assignments s' = Some d ∧ rr_cursors s' = rr_cursors s ∧
  (read_from_bucket d ∨
   s' = s ∧ refresh = false ∧ ∃ now, time_time w = (Ret now, w') ∧
     flt (fsub now (rs_last_read_at s)) (refresh_interval_s cfg) = true).
Proof.
  unfold read, world, self, set_self, mbind, M_bind. cbn [fst snd].
  destruct (time_time w) as [[now|e|] w1] eqn:Et; [|done..]. cbn [fst snd]. unfold cached.
  destruct (flt _ _ && negb refresh) eqn:Ef.
  - destruct (rs_assignments s) as [d'|] eqn:Ed; cbn.
    + intros [= <- <- <-]. apply andb_true_iff in Ef as [Hf Hr%negb_true_iff].
      split_and!; [done..|]. right. split_and!; [done..|]. by exists now.
    + destruct (read_with_retry cfg w1) as [[d'|e|] w2] eqn:Er; [|done..]. cbn.
      destruct (time_time w2) as [[now'|e|] w3]; [|done..]. intros [= <- <- <-]. cbn.
      split_and!; [done..|]. left. by eapply read_attempts_source.
  - cbn. destruct (read_with_retry cfg w1) as [[d'|e|] w2] eqn:Er; [|done..]. cbn.
    destruct (time_time w2) as [[now'|e|] w3]; [|done..]. intros [= <- <- <-]. cbn.
    split_and!; [done..|]. left. by eapply read_attempts_source.
Qed.

Lemma choose_inv t ms strategy s (w : W) m s' w' :
  choose t ms strategy (s, w) = (Ret m, (s', w')) →
  m ∈ ms ∧ w' = w ∧ rs_assignments s' = rs_assignments s ∧ rs_last_read_at s' = rs_last_read_at s.
Proof.
  assert (∀ i s1 (w1 : W), at_index ms i (s1, w1) = (Ret m, (s', w')) → m ∈ ms ∧ w' = w1 ∧ s' = s1) as Hat.
  { intros i s1 w1. unfold at_index. destruct (ms !! _) as [m'|] eqn:E; [|done]. intros [= <- <- <-].
    split_and!; [|done..]. by eapply list_elem_of_lookup_2. }
  unfold choose. destruct (_ || _); [by intros (? & -> & ->)%Hat|].
  unfold self, set_self, mbind, M_bind. case_decide; [by intros (? & -> & ->)%Hat|].
  case_decide; [by intros (? & -> & ->)%Hat|done].
Qed.

(** C34. A claim is only routed to a cluster that, in the payload the resolver holds,
    is not frozen and keeps a warm pool with replicas for the template; and that
    payload was read from the bucket in this call, or is younger than the refresh
    interval and no refresh was asked for. *)
Theorem resolve_routes_to_live_cluster t strategy refresh s w r s' w' :
  resolve cfg t strategy refresh (s, w) = (Ret r, (s', w')) →
  ∃ d, rs_assignments s' = Some d ∧ serves d t (rv_cluster r) (rv_warmpool r) ∧
    (read_from_bucket d ∨
     rs_assignments s = Some d ∧ refresh = false ∧ ∃ now w1, time_time w = (Ret now, w1) ∧
       flt (fsub now (rs_last_read_at s)) (refresh_interval_s cfg) = true).
Proof.
  unfold resolve, list_matches, lift, mbind, M_bind.
  destruct (read cfg refresh (s, w)) as [[d|e|] [s1 w1]] eqn:Er; [|done..].
  apply read_inv in Er as (Hd & _ & Hsrc).
  destruct (matches_in d t) as [ms|e|] eqn:Em; [|done..]. destruct ms as [|m0 ms0] eqn:Ems; [done|].
  rewrite <-Ems in *. destruct (choose t ms strategy (s1, w1)) as [[m|e|] [s2 w2]] eqn:Ec; [|done..].
  intros [= <- <- <-]. apply choose_inv in Ec as (Hin & -> & Ha & _). exists d. split_and!; [congruence| |].
  - apply (matches_exact d t ms); [done|]. by exists m.
  - destruct Hsrc as [Hsrc|(-> & -> & now & Hn & Hf)]; [by left|right]. split_and!; [done..|]. by exists now, w1.
Qed.

(** ** Errors *)

Lemma float_of_pow2 a : 0 ≤ a ≤ 1000 → ∃ f, float_of_int (2 ^ a) = Ret f.
Proof.
  intros Ha. unfold float_of_int. destruct (round64_finite (inject_Z (2 ^ a))) as [v ->]; [|by eexists].
  rewrite Qabs_pos by (change 0%Q with (inject_Z 0); rewrite <-Zle_Qle; lia).
  rewrite pow2_inject by lia. rewrite <-Zle_Qle. apply Z.pow_le_mono_r; lia.
Qed.

(** A read of the assignments ends: with a payload of the bucket, with
    [AssignmentsMissingError] as soon as the object is absent, or with
    [ResolverError] after the last attempt, when pauses neither fail nor overflow. *)
Theorem read_with_retry_outcomes w o w' :
  (∀ d w1, ∃ w2, time_sleep d w1 = (Ret (), w2)) → (retries cfg ≤ 1000) →
  (∀ w1, (handle (Download (assignments_path (rc_paths cfg)) None) w1).1 ≠ NoFuel) →
  read_with_retry cfg w = (o, w') →
  (∃ d, o = Ret d ∧ read_from_bucket d) ∨ o = Raise AssignmentsMissingError ∨ o = Raise ResolverError.
Proof.
  intros Hsleep Hr Hterm. unfold read_with_retry.
  assert (0 + Z.of_nat (Z.to_nat (Z.max 1 (retries cfg))) ≤ 1000) as Hn by lia. revert Hn.
  generalize (Z.to_nat (Z.max 1 (retries cfg))). assert (0 ≤ 0) as Ha by lia. revert Ha.
  generalize 0 at 2 3 4. intros a Ha n. revert a Ha w.
  induction n as [|n IH]; intros a Ha w Hn; [intros [= <- <-]; auto|].
  cbn [read_attempts]. unfold except, mbind, M_bind.
  destruct (read_once cfg w) as [[d|e|] w1] eqn:Eo; apply read_once_inv in Eo; [|clear Eo|by destruct (get_json_total _ _ (Hterm w))].
  { intros [= <- <-]. eauto. }
  cbn -[decide]. case_decide as He; [intros [= <- <-]; subst; auto|]. cbn.
  destruct n as [|n]; [intros [= <- <-]; auto|].
  destruct (float_of_pow2 a) as [f Hf]; [lia|]. unfold lift. rewrite Hf. cbn.
  destruct (Hsleep (fmul (retry_base_delay_s cfg) f) w1) as [w2 Hw2]. rewrite Hw2.
  apply IH; lia.
Qed.

(** ** Taking turns *)

Fixpoint resolve_times (n : nat) (t : string) : M (resolver * W) (list ResolvedCluster) :=
  match n with
  | O => mret []
  | S n' => r ← resolve cfg t "round-robin" false; rs ← resolve_times n' t; mret (r :: rs)
  end.

(** Every reading of the clock finds the cache young enough. *)
Definition stays_fresh (last : pyfloat) : Prop := ∀ w : W, ∃ now w',
  time_time w = (Ret now, w') ∧ flt (fsub now last) (refresh_interval_s cfg) = true.

Definition cursor_of (t : string) (s : resolver) : Z := default 0 (dget t (rr_cursors s)).

Lemma resolve_turn d t ms s w :
  stays_fresh (rs_last_read_at s) → rs_assignments s = Some d → matches_in d t = Ret ms →
  (2 ≤ length ms)%nat →
  ∃ m w', ms !! Z.to_nat (cursor_of t s mod Z.of_nat (length ms)) = Some m ∧
    resolve cfg t "round-robin" false (s, w) =
      (Ret (build_resolved cfg m),
       (Resolver (Some d) (rs_last_read_at s) (dset t (cursor_of t s + 1) (rr_cursors s)), w')).
Proof.
  intros Hf Hd Hms Hlen. destruct (Hf w) as (now & w' & Ht & Hlt).
  destruct (ms !! Z.to_nat (cursor_of t s mod Z.of_nat (length ms))) as [m|] eqn:Em.
  2:{ apply lookup_ge_None in Em. pose proof (Z.mod_pos_bound (cursor_of t s) (Z.of_nat (length ms))). lia. }
  exists m, w'. split; [done|]. unfold resolve, list_matches, read, world, self, mbind, M_bind.
  cbn [fst snd]. rewrite Ht. cbn [fst snd]. unfold cached. rewrite Hlt. cbn [andb negb]. rewrite Hd.
  cbn [mret M_ret]. unfold lift. rewrite Hms. destruct ms as [|m0 ms0] eqn:Ems; [cbn in Hlen; lia|].
  rewrite <-Ems in *. unfold choose. destruct (_ =? 1) eqn:E1; [apply Z.eqb_eq in E1; lia|].
  rewrite bool_decide_eq_false_2 by done. cbn [orb].
  destruct (decide ("round-robin" = "round-robin")) as [_|]; [|done].
  unfold self, set_self, mbind, M_bind, at_index. cbn [fst snd]. fold (cursor_of t s).
  rewrite Em. cbn. by rewrite Hd.
Qed.

Lemma resolve_turns d t ms k s w :
  stays_fresh (rs_last_read_at s) → rs_assignments s = Some d → matches_in d t = Ret ms →
  (2 ≤ length ms)%nat →
  ∃ rs s' w', resolve_times k t (s, w) = (Ret rs, (s', w')) ∧
    Some <$> rs = (λ i, build_resolved cfg <$>
      ms !! Z.to_nat ((cursor_of t s + Z.of_nat i) mod Z.of_nat (length ms))) <$> seq 0 k.
Proof.
  intros Hf Hd Hms Hlen. revert s w Hf Hd. induction k as [|k IH]; intros s w Hf Hd; [by exists [], s, w|].
  destruct (resolve_turn d t ms s w Hf Hd Hms Hlen) as (m & w1 & Hm & Hr).
  set (s1 := Resolver (Some d) (rs_last_read_at s) (dset t (cursor_of t s + 1) (rr_cursors s))) in *.
  destruct (IH s1 w1 Hf eq_refl) as (rs & s' & w' & Hrs & Heq).
  exists (build_resolved cfg m :: rs), s', w'. split.
  { cbn [resolve_times]. unfold mbind, M_bind. by rewrite Hr, Hrs. }
  rewrite fmap_cons, Heq. cbn [seq fmap list_fmap]. rewrite Z.add_0_r, Hm. f_equal.
  rewrite <-fmap_S_seq, <-list_fmap_compose. apply list_fmap_ext. intros i x _. unfold compose.
  assert (cursor_of t s1 = cursor_of t s + 1) as ->
    by (unfold cursor_of, s1; cbn [rr_cursors]; by rewrite dget_dset_eq).
  replace (cursor_of t s + 1 + Z.of_nat x) with (cursor_of t s + Z.of_nat (S x)) by lia. done.
Qed.

Lemma turns_perm {A B} (f : A → B) (l : list A) c rs :
  l ≠ [] →
  Some <$> rs = (λ i, f <$> l !! Z.to_nat ((c + Z.of_nat i) mod Z.of_nat (length l))) <$> seq 0 (length l) →
  rs ≡ₚ f <$> l.
Proof.
  intros Hl Heq. set (n := length l) in *. assert (0 < n)%nat as Hn by (destruct l; [done|cbn in n; lia]).
  pose proof (Z.mod_pos_bound c (Z.of_nat n) ltac:(lia)) as Hk. set (k := Z.to_nat (c mod Z.of_nat n)).
  assert (rs = f <$> (drop k l ++ take k l)) as ->.
  { apply (inj (fmap Some)). rewrite Heq. apply list_eq. intros i. rewrite !list_lookup_fmap.
    destruct (decide (i < n)%nat) as [Hi|Hi].
    - rewrite lookup_seq_lt by done. cbn. rewrite <-Zplus_mod_idemp_l.
      destruct (decide (i < n - k)%nat) as [Hik|Hik].
      + rewrite Z.mod_small by lia. rewrite lookup_app_l by (rewrite length_drop; lia). rewrite lookup_drop.
        replace (Z.to_nat _) with (k + i)%nat by lia.
        destruct (lookup_lt_is_Some_2 l (k + i)) as [x ->]; [fold n; lia|done].
      + rewrite lookup_app_r by (rewrite length_drop; lia). rewrite length_drop. fold n.
        rewrite lookup_take_lt by lia.
        replace (c mod Z.of_nat n + Z.of_nat i) with (Z.of_nat (i - (n - k)) + 1 * Z.of_nat n) by lia.
        rewrite Z_mod_plus_full, Z.mod_small by lia. rewrite Nat2Z.id.
        destruct (lookup_lt_is_Some_2 l (i - (n - k))) as [x ->]; [fold n; lia|done].
    - rewrite lookup_seq_ge by lia. cbn. symmetry.
      rewrite (proj2 (lookup_ge_None _ _)); [done|]. rewrite length_app, length_drop, length_take. fold n. lia. }
  apply fmap_Permutation. rewrite Permutation_app_comm. by rewrite take_drop.
Qed.

(** While the cache stays fresh, as many consecutive round-robin resolutions of a
    template as there are clusters serving it reach every one of them exactly once,
    wherever the cursor stood. *)
Theorem round_robin_fair d t ms s w :
  stays_fresh (rs_last_read_at s) → rs_assignments s = Some d → matches_in d t = Ret ms →
  (2 ≤ length ms)%nat →
  ∃ rs s' w', resolve_times (length ms) t (s, w) = (Ret rs, (s', w')) ∧ rs ≡ₚ build_resolved cfg <$> ms.
Proof.
  intros Hf Hd Hms Hlen. destruct (resolve_turns d t ms (length ms) s w Hf Hd Hms Hlen) as (rs & s' & w' & Hrs & Heq).
  exists rs, s', w'. split; [done|]. eapply turns_perm; [|exact Heq]. destruct ms; [cbn in Hlen; lia|done].
Qed.
End resolving.
