(* ===== verification/FacadeProofs.v ===== *)
(** The fleet's SDK facade: each cached client talks to the cluster it is cached
    for, and a claim is deleted on the cluster that created it. The last part runs
    the resolver and the facade on a small fleet. *)

From Stdlib Require Import String ZArith QArith Qabs Lqa Lia.
From stdpp Require Import base option list strings sets gmap pretty.
From S2P Require Import Prelude Hoare Float Json PyList PyText Utils World Budget BudgetProofs Effects ObjectStore FleetMember FleetMemberProofs FleetSim Resolver ResolverProofs.

#[local] Open Scope Z_scope.


(** ** What the SDK and the kubeconfig loader promise *)

Class SdkLaws (W : Type) `{FleetSdk W} := {
  conf_context : configuration → string;
  (** where the control-plane calls of a client go *)
  client_context : sandbox_client → string;
  load_kube_config_context ctx w c w' : load_kube_config ctx w = (Ret c, w') → conf_context c = ctx;
  set_pool_maxsize_context n c : conf_context (set_pool_maxsize n c) = conf_context c;
  new_client_context c w sc w' :
    accepts_api_client = true → new_sandbox_client (Some c) w = (Ret sc, w') → client_context sc = conf_context c;
  rebind_context sc c : client_context (rebind_apis sc c) = conf_context c;
}.

Section facade.
Context {W : Type} `{Handler W} `{WallClock W} `{SdkLaws W}.
Context (cfg : facade_config) (naming : string → string).
Hypothesis named_by : context_naming (fc_resolver_config cfg) = Some naming.

(** Every cached client is bound to the context of its cluster. *)
Record pinned (f : facade) : Prop := Pinned {
  pinned_client c sc : dget c (fs_clients f) = Some sc → client_context sc = naming c;
  pinned_clients_nodup : NoDup (fs_clients f).*1;
  pinned_claims_nodup : NoDup (fs_claims f).*1;
}.

Lemma new_facade_pinned : pinned new_facade.
Proof. split; [done|constructor..]. Qed.

Lemma build_client_context ctx w sc w' :
  build_client cfg ctx w = (Ret sc, w') → client_context sc = ctx.
Proof.
  unfold build_client, except, mbind, M_bind.
  destruct (load_kube_config ctx w) as [[c|e|] w1] eqn:El; [|by case_decide|done].
  apply load_kube_config_context in El. set (c' := match fc_pool_maxsize cfg with Some _ => _ | _ => _ end).
  assert (conf_context c' = ctx) as Hc'.
  { subst c'. destruct (fc_pool_maxsize cfg); [by rewrite set_pool_maxsize_context|done]. }
  destruct (load_global_config ctx w1) as [[[]|e|] w2]; [|case_decide; [cbn|done]|done]; unfold pinned_sandbox_client;
    (destruct accepts_api_client eqn:Ea;
     [intros Hn; by rewrite (new_client_context _ _ _ _ Ea Hn)
     |unfold mbind, M_bind; destruct (new_sandbox_client None _) as [[s0|e0|] w3]; [|done..];
      intros [= <- <-]; by rewrite rebind_context]).
Qed.

Lemma get_or_build_ok c ctx f w o f' w' :
  pinned f → ctx = Some (naming c) → get_or_build_client cfg c ctx (f, w) = (o, (f', w')) →
  pinned f' ∧ fs_claims f' = fs_claims f ∧ (∀ sc, o = Ret sc → client_context sc = naming c).
Proof.
  intros Hp ->. unfold get_or_build_client, self, mbind, M_bind. cbn [fst snd].
  destruct (dget c (fs_clients f)) as [sc|] eqn:Ed.
  - intros [= <- <- <-]. split_and!; [done..|]. intros sc' [= ->]. by apply (pinned_client f Hp).
  - unfold world. cbn [fst snd]. destruct (build_client cfg (naming c) w) as [[sc|e|] w1] eqn:Eb;
      [|by intros [= <- <- <-]..].
    apply build_client_context in Eb. intros [= <- <- <-]. split_and!; [|done|by intros sc' [= ->]].
    destruct Hp as [Hc Hn1 Hn2]. split; cbn; [|by apply dset_NoDup|done].
    intros c' sc'. rewrite dget_dset. case_decide; [|by apply Hc]. intros [= <-]. by subst.
Qed.

Lemma facade_resolve_ok t strategy f w o f' w' :
  pinned f → facade_resolve cfg t strategy (f, w) = (o, (f', w')) →
  pinned f' ∧ fs_claims f' = fs_claims f ∧ ∀ r, o = Ret r → rv_context_name r = Some (naming (rv_cluster r)).
Proof using All.
  intros Hp. unfold facade_resolve, on_resolver, zoom. cbn [fst snd].
  destruct (resolve _ _ _ _ _) as [o1 [s1 w1]] eqn:Er. intros [= <- <- <-].
  split_and!; [destruct Hp; by split|done|]. intros r ->. revert Er. unfold resolve, mbind, M_bind.
  destruct (list_matches _ _ _ _) as [[ms|e|] s2]; [|done..]. destruct ms as [|m0 ms]; [done|].
  destruct (choose _ _ _ _) as [[m|e|] s3]; [|done..]. intros [= <- _]. cbn. by rewrite named_by.
Qed.

(** A facade keeps its clients pinned, whatever its calls return. *)
Lemma create_sandbox_inv t ns strategy timeout labels kwargs f w o f' w' :
  pinned f → create_sandbox cfg t ns strategy timeout labels kwargs (f, w) = (o, (f', w')) →
  pinned f' ∧
  ∀ sandbox, o = Ret sandbox → ∃ c sc args w0, client_context sc = naming c ∧
    sdk_create sc args w0 = (Ret sandbox, w') ∧
    ∀ n, extract_claim_name sandbox = Some n → dget n (fs_claims f') = Some c.
Proof using All.
  intros Hp. unfold create_sandbox, mbind, M_bind.
  destruct (facade_resolve cfg t strategy (f, w)) as [or [f1 w1]] eqn:Er.
  apply facade_resolve_ok in Er as (Hp1 & Hcl1 & Hr); [|done].
  destruct or as [r|e|]; [|by intros [= <- <- <-]..]. specialize (Hr r eq_refl).
  destruct (get_or_build_client cfg _ _ (f1, w1)) as [oc [f2 w2]] eqn:Eg.
  apply get_or_build_ok in Eg as (Hp2 & Hcl2 & Hc); [|done..].
  destruct oc as [sc|e|]; [|by intros [= <- <- <-]..]. specialize (Hc sc eq_refl).
  assert (∀ e, pinned (Facade (fs_resolver f2) (dpop (rv_cluster r) (fs_clients f2)) (fs_claims f2)) ∧
    ∀ sandbox : list (string * json), @Raise (list (string * json)) e = Ret sandbox → False) as Hdrop.
  { intros e. split; [|done]. destruct Hp2 as [Ha Hb Hd]. split; cbn; [|by apply dpop_NoDup|done].
    intros c' sc'. rewrite dget_dpop by done. case_decide; [done|]. apply Ha. }
  unfold except, lift, world, drop_client, set_clients, set_self, mbind, M_bind.
  destruct (create_kwargs cfg r ns timeout labels kwargs) as [args|e|].
  - cbn [fst snd]. destruct (sdk_create sc args w2) as [[sandbox|e|] w3] eqn:Ec.
    + intros Hrest. assert (o = Ret sandbox ∧ w' = w3 ∧
        fs_clients f' = fs_clients f2 ∧
        fs_claims f' = match extract_claim_name sandbox with
                       | Some n => dset n (rv_cluster r) (fs_claims f2) | None => fs_claims f2 end)
        as (-> & -> & Hcl & Hclaims) by (destruct (extract_claim_name sandbox); by injection Hrest as <- <- <-).
      split.
      * destruct Hp2 as [Ha Hb Hd]. split; [by rewrite Hcl|by rewrite Hcl|]. rewrite Hclaims.
        destruct (extract_claim_name sandbox); [by apply dset_NoDup|done].
      * intros sandbox' [= <-]. exists (rv_cluster r), sc, args, w2. split_and!; [done..|].
        intros n Hn. rewrite Hclaims, Hn. apply dget_dset_eq.
    + intros [= <- <- <-]. destruct (Hdrop e) as [? _]. by split.
    + by intros [= <- <- <-].
  - intros [= <- <- <-]. destruct (Hdrop e) as [? _]. by split.
  - by intros [= <- <- <-].
Qed.

Lemma facade_delete_inv n ns cluster f w o f' w' :
  pinned f → delete_sandbox cfg n ns cluster (f, w) = (o, (f', w')) →
  pinned f' ∧
  (o = Ret () → ∃ c sc w0, c ≠ EmptyString ∧
     c = str_or cluster (default EmptyString (dget n (fs_claims f))) ∧ client_context sc = naming c ∧
     sdk_delete sc n (str_or ns (fc_namespace cfg)) w0 = (Ret (), w') ∧ dget n (fs_claims f') = None).
Proof using All.
  intros Hp. unfold delete_sandbox, self, mbind, M_bind. cbn [fst snd].
  set (c := str_or cluster _). case_decide as Hc; [by intros [= <- <- <-]|].
  rewrite named_by. cbn [fmap option_fmap option_map].
  destruct (get_or_build_client cfg c _ (f, w)) as [oc [f1 w1]] eqn:Eg.
  apply get_or_build_ok in Eg as (Hp1 & Hcl & Hctx); [|done..].
  destruct oc as [sc|e|]; [|by intros [= <- <- <-]..]. specialize (Hctx sc eq_refl).
  unfold world, set_claims, set_self. cbn [fst snd].
  destruct (sdk_delete sc n _ w1) as [[[]|e|] w2] eqn:Ed; [|by intros [= <- <- <-]..].
  intros [= <- <- <-]. destruct Hp1 as [Ha Hb Hd]. split; [split; cbn; [done..|by apply dpop_NoDup]|].
  intros _. exists c, sc, w1. split_and!; [done..|]. cbn. rewrite dget_dpop by done. by rewrite decide_True.
Qed.

(** A claim is deleted where it was created: the client a deletion goes through
    has the same kubeconfig context as the one that created the claim, however the
    clients were dropped and rebuilt in between, and afterwards the facade has
    forgotten the claim. *)
Theorem claim_deleted_where_created t ns strategy timeout labels kwargs f w sandbox f1 w1 n :
  pinned f → create_sandbox cfg t ns strategy timeout labels kwargs (f, w) = (Ret sandbox, (f1, w1)) →
  extract_claim_name sandbox = Some n →
  ∃ sc args w0, sdk_create sc args w0 = (Ret sandbox, w1) ∧
    ∀ f2 w2 ns' f3 w3, pinned f2 → dget n (fs_claims f2) = dget n (fs_claims f1) →
      delete_sandbox cfg n ns' None (f2, w2) = (Ret (), (f3, w3)) →
      ∃ sc' w2', sdk_delete sc' n (str_or ns' (fc_namespace cfg)) w2' = (Ret (), w3) ∧
        client_context sc' = client_context sc ∧ dget n (fs_claims f3) = None.
Proof using All.
  intros Hp Hc Hn. apply create_sandbox_inv in Hc as [Hp1 Hc]; [|done].
  destruct (Hc sandbox eq_refl) as (c & sc & args & w0 & Hctx & Hcr & Hcl). specialize (Hcl n Hn).
  exists sc, args, w0. split; [done|]. intros f2 w2 ns' f3 w3 Hp2 Hsame Hd.
  apply facade_delete_inv in Hd as [_ Hd]; [|done].
  destruct (Hd eq_refl) as (c' & sc' & w2' & _ & -> & Hctx' & Hdel & Hgone).
  exists sc', w2'. split_and!; [done| |done]. rewrite Hctx', Hctx, Hsame, Hcl. done.
Qed.
End facade.

(** ** A small fleet *)

#[global] Instance fleet_wall_clock : WallClock fleet_world := {
  time_time w := (Ret (PFin (inject_Z (fw_now w) / inject_Z SECOND)), w);
  time_sleep d w := (Ret (), w);
}.

(** A configuration and a client are the context they were loaded for. *)
#[global] Instance fleet_sdk : FleetSdk fleet_world := {|
  configuration := string;
  load_kube_config ctx w := (if decide (ctx = EmptyString) then Raise ConfigException else Ret ctx, w);
  load_global_config ctx w := (Ret (), w);
  accepts_api_client := true;
  sandbox_client := string;
  new_sandbox_client c w := (Ret (default "ambient" c), w);
  rebind_apis _ c := c;
  set_pool_maxsize _ c := c;
  sdk_create c _ w := (Ret [("claim_name", JStr ("claim-on-" +:+ c))], w);
  sdk_delete _ _ _ w := (Ret (), w);
|}.

#[global, refine] Instance fleet_sdk_laws : SdkLaws fleet_world := {|
  conf_context := id : @configuration _ fleet_sdk → string;
  client_context := id : @sandbox_client _ fleet_sdk → string;
|}.
Proof.
  - intros ctx w c w'. cbn. case_decide; [done|]. by intros [= -> _].
  - done.
  - intros c w sc w' _. cbn. by intros [= -> _].
  - done.
Defined.

Module DemoFacade.
Definition pool (replicas : Z) : json :=
  JObj [("template", JStr "m"); ("warmpool", JStr "m-pool"); ("replicas", JInt replicas)].

(** [a] and [c] serve the template; [b] is frozen and [d] has no replicas. *)
Definition plan : json :=
  JObj [("generation", JInt 7);
        ("clusters", JObj [("c", JObj [("pools", JList [pool 1])]);
                           ("b", JObj [("pools", JList [pool 5]); ("stale_since", JStr "2026-01-01T00:00:00Z")]);
                           ("d", JObj [("pools", JList [pool 0])]);
                           ("a", JObj [("pools", JList [pool 2])])])].

Definition rcfg : resolver_config :=
  ResolverConfig default_paths (PFin 60) (Some kind_context_naming) 3 (PFin (1 # 2)).

Definition cfg : facade_config := FacadeConfig "ns" "round-robin" rcfg None.

Definition w0 : fleet_world := DemoMember.world_of (RawJson plan).

Definition created := create_sandbox cfg "m" None None 90 None [] (new_facade, w0).

(** A clock that stands still. *)
Definition frozen_clock : WallClock fleet_world := {|
  time_time w := (Ret (PFin 10), w);
  time_sleep d w := (Ret (), w);
|}.

Definition s0 : resolver := Resolver (Some plan) (PFin 5) [].
Definition ms : list host_match :=
  match matches_in plan "m" with Ret ms => ms | _ => [] end.
End DemoFacade.

Lemma resolve_routes_to_live_cluster_witness :
  ∃ r s', resolve DemoFacade.rcfg "m" "first" false (new_resolver, DemoFacade.w0) = (Ret r, s') ∧
    rv_cluster r = "a" ∧ ∃ d, rs_assignments s'.1 = Some d ∧ serves d "m" "a" (JStr "m-pool").
Proof.
  destruct (resolve DemoFacade.rcfg "m" "first" false (new_resolver, DemoFacade.w0)) as [o [s' w']] eqn:E.
  assert (match o with Ret r => rv_cluster r = "a" ∧ rv_warmpool r = JStr "m-pool" | _ => False end) as Ho.
  { assert (o = (o, (s', w')).1) as -> by reflexivity. rewrite <-E. vm_compute. by split. }
  destruct o as [r|e|]; [|destruct Ho..]. destruct Ho as [Hr Hw]. exists r, (s', w').
  split; [reflexivity|]. split; [exact Hr|].
  destruct (resolve_routes_to_live_cluster DemoFacade.rcfg "m" "first" false new_resolver DemoFacade.w0 r s' w' E)
    as (d & Hd & Hs & _). exists d. split; [exact Hd|]. rewrite Hr, Hw in Hs. exact Hs.
Defined.

Lemma read_with_retry_outcomes_witness :
  let r := read_with_retry DemoFacade.rcfg (DemoMember.world_of (RawBytes [])) in
  (∃ d, r.1 = Ret d ∧ read_from_bucket (W := fleet_world) DemoFacade.rcfg d) ∨
  r.1 = Raise AssignmentsMissingError ∨ r.1 = Raise ResolverError.
Proof.
  intros r. apply (read_with_retry_outcomes (W := fleet_world) DemoFacade.rcfg
    (DemoMember.world_of (RawBytes [])) r.1 r.2).
  - intros d w1. by exists w1.
  - by vm_compute.
  - intros w1. cbn. by destruct (objects _ !! _) as [[g x]|].
  - apply surjective_pairing.
Defined.

Lemma round_robin_fair_witness :
  ∃ rs s', @resolve_times _ _ DemoFacade.frozen_clock DemoFacade.rcfg 2 "m" (DemoFacade.s0, DemoFacade.w0) = (Ret rs, s') ∧
    rs ≡ₚ build_resolved DemoFacade.rcfg <$> DemoFacade.ms ∧ m_cluster <$> DemoFacade.ms = ["a"; "c"].
Proof.
  destruct (@round_robin_fair _ _ DemoFacade.frozen_clock DemoFacade.rcfg DemoFacade.plan "m" DemoFacade.ms
    DemoFacade.s0 DemoFacade.w0) as (rs & s' & w' & Hrs & Hp).
  - intros w. exists (PFin 10), w. split; [reflexivity|by vm_compute].
  - reflexivity.
  - by vm_compute.
  - apply Nat.leb_le. by vm_compute.
  - exists rs, (s', w'). split; [exact Hrs|]. split; [exact Hp|by vm_compute].
Defined.

Lemma claim_deleted_where_created_witness :
  ∃ sandbox f1 w1, DemoFacade.created = (Ret sandbox, (f1, w1)) ∧
    cluster_for (W := fleet_world) "claim-on-kind-a" (f1, w1) = (Ret (Some "a"), (f1, w1)) ∧
    ∃ sc args w0, sdk_create sc args w0 = (Ret sandbox, w1) ∧
      ∃ sc', client_context (W := fleet_world) sc' = client_context sc.
Proof.
  destruct DemoFacade.created as [o [f1 w1]] eqn:E.
  assert (match o with Ret sb => sb = [("claim_name", JStr "claim-on-kind-a")] | _ => False end) as Ho.
  { assert (o = (o, (f1, w1)).1) as -> by reflexivity. rewrite <-E. by vm_compute. }
  destruct o as [sb|e|]; [|destruct Ho..]. subst sb.
  assert (fs_claims f1 = [("claim-on-kind-a", "a")]) as Hcl.
  { assert (f1 = (@Ret (list (string * json)) [], (f1, w1)).2.1) as -> by reflexivity.
    transitivity (fs_claims DemoFacade.created.2.1); [by rewrite E|by vm_compute]. }
  eexists _, f1, w1. split; [reflexivity|]. split.
  { unfold cluster_for, self, mbind, M_bind, mret, M_ret. cbn [fst]. by rewrite Hcl. }
  destruct (claim_deleted_where_created DemoFacade.cfg kind_context_naming eq_refl "m" None None 90 None []
    new_facade DemoFacade.w0 [("claim_name", JStr "claim-on-kind-a")] f1 w1 "claim-on-kind-a"
    (new_facade_pinned kind_context_naming) E ltac:(reflexivity)) as (sc & args & w0 & Hc & _).
  exists sc, args, w0. split; [exact Hc|]. by exists sc.
Defined.
