(* ===== verification/FleetComposition.v ===== *)
(** The fleet as a whole: what the planner publishes is what the member applies and
    what the resolver routes by. The payload is the one [publish] writes,
    [json.dumps(..., sort_keys=True)] of the assignments. *)

From Stdlib Require Import String ZArith QArith Lia.
From stdpp Require Import base option list strings sets gmap pretty.
From S2P Require Import Prelude Hoare Float Json PyList PyText Regex Models Validation Utils DateTime World Budget BudgetProofs Placement Effects ObjectStore Inventory InventoryProofs Planner PlannerProofs PlanProperties FleetMember FleetMemberProofs FleetSim Resolver ResolverProofs.

#[local] Open Scope Z_scope.

Definition payload_of (a : Assignments) : json := sort_keys (assignments_dump a).

(** ** The payload *)

Definition sorted_clusters (a : Assignments) : list (string * ClusterAssignment) :=
  sorted (λ x y, str_lt x.1 y.1) (as_clusters a).

Lemma payload_shape a :
  payload_of a =
    JObj [("clusters", JObj ((λ ce, (ce.1, sort_keys (entry_dump ce.2))) <$> sorted_clusters a));
          ("generation", JInt (as_generation a)); ("schema_version", JInt (as_schema_version a));
          ("updated_at", JStr (as_updated_at a))].
Proof.
  transitivity (JObj [("clusters", sort_keys (JObj (map (λ ce, (ce.1, entry_dump ce.2)) (as_clusters a))));
          ("generation", JInt (as_generation a)); ("schema_version", JInt (as_schema_version a));
          ("updated_at", JStr (as_updated_at a))]); [by unfold payload_of, assignments_dump; rewrite sort_keys_obj|].
  repeat f_equal. rewrite sort_keys_obj. f_equal.
  etrans; [|by apply (sorted_fmap _ (λ x y : string * json, str_lt x.1 y.1))].
  f_equal. rewrite <-list_fmap_compose. done.
Qed.

Definition pool_payload (p : AssignmentPool) : json :=
  JObj [("image", json_opt_str (ap_image p)); ("replicas", JInt (ap_replicas p));
        ("template", JStr (ap_template p)); ("warmpool", JStr (ap_warmpool p))].

Lemma pool_payload_eq p : sort_keys (pool_dump p) = pool_payload p.
Proof. destruct p as [[im|] t w r]; by vm_compute. Qed.

Lemma entry_payload e :
  sort_keys (entry_dump e) =
    JObj [("pools", JList (pool_payload <$> ca_pools e)); ("stale_since", json_opt_str (ca_stale_since e))].
Proof.
  unfold entry_dump. rewrite sort_keys_obj.
  transitivity (JObj [("pools", sort_keys (JList (map pool_dump (ca_pools e))));
    ("stale_since", sort_keys (json_opt_str (ca_stale_since e)))]); [done|].
  f_equal. f_equal; [|by destruct (ca_stale_since e)]. f_equal. cbn [sort_keys]. f_equal.
  induction (ca_pools e) as [|p ps IH]; [done|]. cbn. rewrite IH. f_equal. apply pool_payload_eq.
Qed.

Lemma sorted_clusters_lookup a k :
  NoDup (as_clusters a).*1 → dget k (sorted_clusters a) = dget k (as_clusters a).
Proof. intros Hnd. symmetry. apply dget_perm; [done|]. symmetry. apply sorted_perm. Qed.

(** ** At the member *)

Definition member_pool (p : AssignmentPool) : MemberPool :=
  {| mp_template := JStr (ap_template p); mp_warmpool := JStr (ap_warmpool p);
     mp_replicas := JInt (ap_replicas p); mp_image := json_opt_str (ap_image p) |}.

Definition member_entry (e : ClusterAssignment) : MemberEntry :=
  {| me_pools := member_pool <$> ca_pools e; me_stale_since := json_opt_str (ca_stale_since e) |}.

Lemma entry_from_payload k e : entry_from_json (k, sort_keys (entry_dump e)) = Ret (k, member_entry e).
Proof.
  rewrite entry_payload. unfold entry_from_json. cbn [fst snd].
  cbn -[traverse fmap]. keys. cbn -[traverse fmap].
  rewrite traverse_fmap, (traverse_ret _ member_pool) by done. done.
Qed.

Lemma parse_payload a version :
  NoDup (as_clusters a).*1 →
  ∃ ma, parse_assignments (payload_of a) version = Ret ma ∧ ma_generation ma = JInt (as_generation a) ∧
    ∀ k, dget k (ma_clusters ma) = member_entry <$> dget k (as_clusters a).
Proof.
  intros Hnd. rewrite payload_shape. unfold parse_assignments. cbn -[traverse fmap]. keys. cbn -[traverse fmap].
  rewrite traverse_fmap, (traverse_ret _ (λ ce, (ce.1, member_entry ce.2)))
    by (intros [k e] _; apply entry_from_payload).
  eexists. split; [done|]. split; [done|]. intros k. cbn [ma_clusters].
  by rewrite dget_fmap, sorted_clusters_lookup.
Qed.

(** A member parses a published plan into the plan: under every cluster the
    same pools, in the same order, with the same template, name and replicas, the
    same mark, and the generation. *)
Theorem plan_read_by_member a version :
  NoDup (as_clusters a).*1 →
  ∃ ma, parse_assignments (payload_of a) version = Ret ma ∧ ma_generation ma = JInt (as_generation a) ∧
    ∀ k, dget k (ma_clusters ma) = member_entry <$> dget k (as_clusters a).
Proof. apply parse_payload. Qed.

(** ** At the resolver *)

Definition host_of (a : Assignments) (c : string) (p : AssignmentPool) : host_match :=
  HostMatch c (JStr (ap_template p)) (JStr (ap_warmpool p)) (ap_replicas p) (json_opt_str (ap_image p))
    (as_generation a).

Lemma pool_match_payload a c t p :
  pool_match (payload_of a) c t (pool_payload p) =
    Ret (if (ap_template p =? t)%string && (0 <? ap_replicas p) then Some (host_of a c p) else None).
Proof.
  rewrite payload_shape. unfold pool_match. cbn -[flt]. keys. cbn -[flt].
  destruct (ap_template p =? t)%string eqn:Et; [|done]. cbn -[flt]. keys. cbn -[flt].
  assert (flt (PFin 0) (PFin (inject_Z (ap_replicas p))) = (0 <? ap_replicas p)) as ->.
  { cbn. unfold Qlt_bool. destruct (0 <? ap_replicas p) eqn:E.
    - apply negb_true_iff, not_true_iff_false. rewrite Qle_bool_iff. change 0%Q with (inject_Z 0).
      rewrite <-Zle_Qle. lia.
    - apply negb_false_iff, Qle_bool_iff. change 0%Q with (inject_Z 0). rewrite <-Zle_Qle. lia. }
  by destruct (0 <? ap_replicas p).
Qed.

Definition hosts_in (a : Assignments) (t c : string) (e : ClusterAssignment) : list host_match :=
  if falsy (ca_stale_since e) then
    host_of a c <$> filter (λ p, ap_template p = t ∧ 0 < ap_replicas p) (ca_pools e)
  else [].

Lemma cluster_matches_payload a t c e :
  cluster_matches (payload_of a) t (c, sort_keys (entry_dump e)) = Ret (hosts_in a t c e).
Proof.
  rewrite entry_payload. unfold cluster_matches. cbn -[traverse fmap payload_of]. keys. cbn -[traverse fmap payload_of].
  assert (truthy (json_opt_str (ca_stale_since e)) = negb (falsy (ca_stale_since e))) as ->
    by (by destruct (ca_stale_since e) as [[]|]).
  unfold hosts_in. destruct (falsy _); [|done]. cbn -[traverse fmap payload_of filter].
  rewrite traverse_fmap. erewrite traverse_ret by (intros p _; apply pool_match_payload).
  cbn -[fmap filter payload_of]. f_equal. induction (ca_pools e) as [|p ps IH]; [done|].
  cbn [fmap list_fmap omap list_omap]. rewrite filter_cons.
  destruct (ap_template p =? t)%string eqn:Et; destruct (0 <? ap_replicas p) eqn:Er; cbn [andb id];
    rewrite ?String.eqb_eq, ?String.eqb_neq in Et;
    [rewrite decide_True by (split; [done|lia]); cbn; by f_equal
    |rewrite decide_False by lia; exact IH
    |rewrite decide_False by tauto; exact IH
    |rewrite decide_False by tauto; exact IH].
Qed.

Lemma matches_payload a t :
  ∃ ms, matches_in (payload_of a) t = Ret ms ∧
    ∀ m, m ∈ ms ↔ ∃ c e, (c, e) ∈ as_clusters a ∧ m ∈ hosts_in a t c e.
Proof.
  assert (py_get_def (payload_of a) "clusters" (JObj [])
    = Ret (JObj ((λ ce, (ce.1, sort_keys (entry_dump ce.2))) <$> sorted_clusters a))) as Hcs
    by (rewrite payload_shape; cbn -[fmap]; by keys).
  unfold matches_in. rewrite Hcs. cbn -[traverse fmap payload_of sorted concat].
  rewrite traverse_fmap, (traverse_ret _ (λ ce, hosts_in a t ce.1 ce.2))
    by (intros [c e] _; apply cluster_matches_payload).
  eexists. split; [done|]. intros m. rewrite sorted_perm, elem_of_concat. split.
  - intros (l & Hm & (ce & -> & Hce)%list_elem_of_fmap). exists ce.1, ce.2. split; [|done].
    unfold sorted_clusters in Hce. rewrite sorted_perm in Hce. by destruct ce.
  - intros (c & e & Hce & Hm). exists (hosts_in a t c e). split; [done|]. apply list_elem_of_fmap.
    exists (c, e). split; [done|]. unfold sorted_clusters. by rewrite sorted_perm.
Qed.

(** A resolver that holds a published plan finds for a template exactly the
    clusters the plan has not frozen and on which it keeps a pool of that template
    with at least one replica, each with the name of that pool and the generation
    of the plan. *)
Theorem plan_read_by_resolver a t :
  ∃ ms, matches_in (payload_of a) t = Ret ms ∧
    ∀ m, m ∈ ms ↔ ∃ c e p, (c, e) ∈ as_clusters a ∧ falsy (ca_stale_since e) = true ∧
      p ∈ ca_pools e ∧ ap_template p = t ∧ 0 < ap_replicas p ∧ m = host_of a c p.
Proof.
  destruct (matches_payload a t) as (ms & Hms & Hm). exists ms. split; [done|]. intros m. rewrite Hm.
  unfold hosts_in. split.
  - intros (c & e & Hce & Hin). destruct (falsy (ca_stale_since e)) eqn:Ef; [|by apply elem_of_nil in Hin].
    apply list_elem_of_fmap in Hin as (p & -> & Hp). apply list_elem_of_filter in Hp as [[Ht Hr] Hp].
    by exists c, e, p.
  - intros (c & e & p & Hce & Hf & Hp & Ht & Hr & ->). exists c, e. split; [done|]. rewrite Hf.
    apply list_elem_of_fmap. exists p. split; [done|]. by apply list_elem_of_filter.
Qed.

(** ** Plans, members and routing together *)

Section fleet.
Context (fsum : list pyfloat → pyfloat) (pool_validate : json → outcome AssignmentPool).
Hypothesis validate_dump : ∀ p, pool_validate (sort_keys (pool_dump p)) = Ret p.
Abbreviation plan_now := (plan_at fsum pool_validate).

Lemma plan_nodup spec reg gen previous now a :
  registry_wf reg → plan_now spec reg gen previous now = Ret a → NoDup (as_clusters a).*1.
Proof.
  intros Hwf Ha. by destruct (plan_inv _ _ _ _ _ _ _ _ Hwf Ha) as (p & prev & _ & _ & _ & _ & _ & Hnd & _).
Qed.

Lemma local_pools_of cfg a version ma :
  NoDup (as_clusters a).*1 → parse_assignments (payload_of a) version = Ret ma →
  local_pools cfg ma =
    match dget (cluster_name cfg) (as_clusters a) with Some e => member_pool <$> ca_pools e | None => [] end.
Proof.
  intros Hnd Hp. destruct (parse_payload a version Hnd) as (ma' & Hp' & _ & Hk).
  rewrite Hp in Hp'. injection Hp' as <-. unfold local_pools. rewrite Hk.
  by destruct (dget (cluster_name cfg) (as_clusters a)).
Qed.

Lemma not_routed a t ms m k e :
  NoDup (as_clusters a).*1 → matches_in (payload_of a) t = Ret ms → m ∈ ms →
  dget k (as_clusters a) = Some e → falsy (ca_stale_since e) = false ∨ ca_pools e = [] → m_cluster m ≠ k.
Proof.
  intros Hnd Hms Hm Hk He Heq. destruct (matches_payload a t) as (ms' & Hms' & Hin).
  rewrite Hms in Hms'. injection Hms' as <-. apply Hin in Hm as (c & e' & Hce & Hh).
  assert (m_cluster m = c) as Hc.
  { unfold hosts_in in Hh. destruct (falsy _); [|by apply elem_of_nil in Hh].
    by apply list_elem_of_fmap in Hh as (p & -> & _). }
  subst c. rewrite Heq in Hce. apply dget_elem_of in Hce; [|done]. rewrite Hk in Hce. injection Hce as <-.
  unfold hosts_in in Hh. destruct He as [Hf|Hp].
  - rewrite Hf in Hh. by apply elem_of_nil in Hh.
  - rewrite Hp in Hh. destruct (falsy _); by apply elem_of_nil in Hh.
Qed.

(** A cluster that goes silent keeps what it runs and gets nothing new: the
    plan made while it is silent tells its member exactly the pools the plan before
    told it, and no claim is routed to it, for any template. *)
Theorem silent_cluster_kept_not_used spec reg gen now a0 e0 a k c :
  registry_wf reg → NoDup (as_clusters a0).*1 →
  plan_now spec reg gen (Some (payload_of a0)) now = Ret a →
  dget k (clusters reg) = Some c → dget k (as_clusters a0) = Some e0 → ca_pools e0 ≠ [] →
  is_stale reg c = true → flt (PFin 0) (weight c) = true → fs_models spec ≠ [] →
  past_window (fs_stale_teardown_after_s spec) c = false →
  (∀ cfg version ma0 ma, cluster_name cfg = k →
     parse_assignments (payload_of a0) version = Ret ma0 → parse_assignments (payload_of a) version = Ret ma →
     local_pools cfg ma = local_pools cfg ma0 ∧ local_pools cfg ma ≠ []) ∧
  (∀ t ms m, matches_in (payload_of a) t = Ret ms → m ∈ ms → m_cluster m ≠ k).
Proof using validate_dump.
  intros Hwf Hnd0 Ha Hc He0 Hp0 Hst Hw Hm Hpw. pose proof (plan_nodup _ _ _ _ _ _ Hwf Ha) as Hnd.
  destruct (stale_frozen fsum pool_validate validate_dump spec reg gen now a0 e0 a k c)
    as (since & Hk & Hne & _); [done..|]. split.
  - intros cfg version ma0 ma <- Hma0 Hma. rewrite (local_pools_of cfg a0 version ma0) by done.
    rewrite (local_pools_of cfg a version ma) by done. rewrite He0, Hk. split; [done|]. cbn.
    by destruct (ca_pools e0).
  - intros t ms m Hms Hin. eapply not_routed; [done..|]. left. cbn. by destruct since.
Qed.

Section drained.
Context {W : Type} `{Handler W} `{Clock W} `{ClusterApi W}.
Context (cfg : member_config) `{Laws : !PoolLaws W (namespace cfg)}.

Lemma admit_drained a m w etag w1 t :
  NoDup (as_clusters a).*1 → as_schema_version a = SCHEMA_VERSION →
  dget (cluster_name cfg) (as_clusters a) = Some (Entry [] None) →
  run (get_with_etag (assignments_path (member_paths cfg))) w = (Ret (RawJson (payload_of a), etag), w1) →
  etag ≠ last_etag m → capacity_ok_at m = Some t → (monotonic w1).1 - t ≤ CAPACITY_STALENESS →
  ∃ ma, local_pools cfg ma = [] ∧
    admit_pass cfg (m, w) =
      (Ret (Some ma), (Member etag (last_assignment m) (retry_pending m) (Some t), (monotonic w1).2)).
Proof.
  intros Hnd Hv Hk Hread Het Hcap Hmono. destruct (parse_payload a (JInt 1) Hnd) as (ma & Hma & _ & Hks).
  exists ma. split; [by rewrite (local_pools_of cfg a (JInt 1) ma), Hk by done|].
  assert (py_get_def (payload_of a) "schema_version" (JInt MEMBER_SCHEMA_VERSION) = Ret (JInt 1)) as Hver
    by (rewrite payload_shape, Hv; by vm_compute).
  set (v := payload_of a) in *. clearbody v.
  unfold admit_pass, fetch_assignments, except, world, mbind, M_bind. cbn [fst snd]. rewrite Hread.
  cbn -[decide]. unfold accept_payload, self, mbind, M_bind, lift. cbn -[decide py_get_def parse_assignments].
  rewrite decide_False by done. cbn -[py_get_def parse_assignments]. rewrite Hver.
  cbn -[parse_assignments]. rewrite Hma.
  change (Qeq_bool (inject_Z 1) (inject_Z MEMBER_SCHEMA_VERSION)) with true. cbn.
  specialize (Hks (cluster_name cfg)). rewrite Hk in Hks. cbn in Hks. rewrite Hks. cbn.
  unfold unheard, self, world, read_clock, mbind, M_bind. cbn. rewrite Hcap.
  cbn [fst snd]. destruct (monotonic w1) as [now w2] eqn:Em. cbn [fst snd] in Hmono |- *.
  by destruct (CAPACITY_STALENESS <? now - t) eqn:El; [apply Z.ltb_lt in El; lia|].
Qed.

End drained.
End fleet.

(** ** Witnesses *)

Module DemoFleet.
Lemma published_nodup : NoDup (as_clusters DemoPlan.published).*1.
Proof. cbn. repeat constructor; set_solver. Qed.

(** The member of the drained cluster, half a minute after its last report. *)
Definition cfg : member_config := MemberConfig "c" "ns" "full" default_paths false.
Definition m0 : member := Member "gen:0" None false (Some (70 * SECOND)).

Definition w0 : fleet_world := DemoMember.world_of (RawJson (payload_of DemoPlan.planned)).

Definition pass := @reconcile_once _ _ _ (fleet_api false) cfg 3 (m0, w0).
End DemoFleet.

Lemma plan_read_by_member_witness :
  ∃ ma, parse_assignments (payload_of DemoPlan.published) (JInt 1) = Ret ma ∧
    dget "b" (ma_clusters ma) = Some (member_entry DemoPlan.entry_b).
Proof.
  destruct (plan_read_by_member DemoPlan.published (JInt 1) DemoFleet.published_nodup) as (ma & Hma & _ & Hk).
  exists ma. split; [exact Hma|]. rewrite Hk. reflexivity.
Defined.

Lemma silent_cluster_kept_not_used_witness :
  ∃ ms, matches_in (payload_of DemoPlan.planned) "t0" = Ret ms ∧ ∀ m, m ∈ ms → m_cluster m ≠ "b".
Proof.
  destruct (matches_in (payload_of DemoPlan.planned) "t0") as [ms|e|] eqn:E;
    [|by exfalso; vm_compute in E..].
  exists ms. split; [done|]. intros m. refine (proj2 (silent_cluster_kept_not_used sum_left DemoPlan.validate
    DemoPlan.validate_dump DemoPlan.spec DemoPlan.reg 8 DemoPlan.now DemoPlan.published DemoPlan.entry_b
    DemoPlan.planned "b" (Cluster "b" (PFin 1) None 2 2 (Some 0) None None (PFin 200) 0)
    DemoPlan.reg_wf DemoFleet.published_nodup DemoPlan.planned_ok eq_refl eq_refl ltac:(done) eq_refl eq_refl
    ltac:(done) eq_refl) "t0" ms m E).
Defined.

