(* ===== verification/Publisher.v ===== *)
(** The hub side of a member's report: models [publisher.py] of
    [src/examples/multi-cluster-fleet/python/agent_sandbox_fleet], and what the
    planner's ClusterProfile inventory reads back. First, what [fleet_member.py]
    reports: a pressure between zero and one, and labels that fit.

    Building the hub's API client ([_apply_api]) is not modelled; the patch call is
    the operation of [HubApi]. *)

From Stdlib Require Import Ascii String ZArith QArith Qabs Lqa Lia.
From stdpp Require Import base option list strings sets pretty.
From S2P Require Import Prelude Hoare Float Json PyList PyText Utils DateTime DateTimeProofs World Budget BudgetProofs Placement Effects ObjectStore Inventory InventoryProofs FleetMember.

(** * What a member reports: a pressure between zero and one, and labels that fit *)

#[local] Open Scope Q_scope.

(** ** Node pressure *)

Lemma ratio_within used alloc r : ratio used alloc = Ret r → within 1 r.
Proof.
  unfold ratio. destruct (alloc =? 0)%Z.
  { intros [= <-]. exists 0. split_and!; [done|lra|by vm_compute]. }
  unfold mbind, outcome_bind, int_truediv. destruct (alloc =? 0)%Z; [done|].
  destruct (round64 _) as [q| | |]; try done. intros [= <-]. unfold fmin, fmax, flt, Qlt_bool.
  change (inject_Z 1) with 1.
  destruct (Qle_bool q 0) eqn:E0; cbn.
  - exists 0. split_and!; [done|lra|by vm_compute].
  - apply not_true_iff_false in E0. rewrite Qle_bool_iff in E0.
    destruct (Qle_bool 1 q) eqn:E1; cbn.
    + exists 1. split_and!; [done|lra|by vm_compute].
    + apply not_true_iff_false in E1. rewrite Qle_bool_iff in E1. exists q.
      change (inject_Z 1) with 1. split_and!; [done|lra|lra].
Qed.

Lemma half_within x h : within 2 x → fdiv x (PFin 2) = Ret h → within 1 h.
Proof.
  intros (q & -> & H0 & H2). cbn. intros [= <-]. change (inject_Z 2) with 2 in H2.
  apply round64_within; [|change (inject_Z 1) with 1|lia].
  - apply Qle_shift_div_l; lra.
  - apply Qle_shift_div_r; lra.
Qed.

Lemma add_node_within reqs s c n s' c' :
  (0 ≤ c < 2 ^ 52)%Z → within c s → add_node reqs (Ret (s, c)) n = Ret (s', c') →
  (c ≤ c' ≤ c + 1)%Z ∧ within c' s'.
Proof.
  intros Hc Hs. unfold add_node, mbind, outcome_bind.
  destruct (node_unschedulable n); [intros [= <- <-]; split; [lia|done]|].
  destruct (parse_cpu_milli _) as [ac|e|]; [|done..]. destruct (parse_mem_bytes _) as [am|e|]; [|done..].
  destruct (_ && _); [intros [= <- <-]; split; [lia|done]|].
  destruct (default _ _) as [uc um]. destruct (ratio uc ac) as [r1|e|] eqn:E1; [|done..].
  destruct (ratio um am) as [r2|e|] eqn:E2; [|done..].
  destruct (fdiv _ _) as [h|e|] eqn:Eh; [|done..]. intros [= <- <-]. split; [lia|].
  apply fadd_within; [lia|lia|lia|done|]. eapply half_within; [|exact Eh].
  apply (fadd_within 1 1); [lia|lia|lia|by eapply ratio_within|by eapply ratio_within].
Qed.

Lemma add_nodes_within reqs nodes s c s' c' :
  (0 ≤ c)%Z → (c + Z.of_nat (length nodes) ≤ 2 ^ 52)%Z → within c s →
  foldl (add_node reqs) (Ret (s, c)) nodes = Ret (s', c') → (0 ≤ c' ≤ 2 ^ 52)%Z ∧ within c' s'.
Proof.
  revert s c. induction nodes as [|n nodes IH]; intros s c Hc Hl Hs; cbn [foldl].
  { cbn in Hl. intros [= <- <-]. split; [lia|done]. }
  cbn [length] in Hl. intros H. destruct (add_node reqs (Ret (s, c)) n) as [[s1 c1]|e|] eqn:E.
  - apply add_node_within in E as [Hc1 Hs1]; [|lia|done]. apply (IH s1 c1); [lia|lia|done|done].
  - exfalso. clear -H. induction nodes as [|m nodes IH]; [done|]. by apply IH.
  - exfalso. clear -H. induction nodes as [|m nodes IH]; [done|]. by apply IH.
Qed.

(** The node pressure a member publishes is a number between zero and one, or
    no number at all. *)
Theorem node_pressure_in_range nodes reqs r :
  (Z.of_nat (length nodes) ≤ 2 ^ 52)%Z → pressure_of nodes reqs = Ret (Some r) →
  ∃ q, r = PFin q ∧ 0 <= q ∧ q <= 1.
Proof.
  intros Hl. unfold pressure_of, mbind at 1, outcome_bind at 1.
  destruct (foldl _ _ nodes) as [[s c]|e|] eqn:E; [|done..].
  apply add_nodes_within in E as [Hc (q & -> & H0 & H1)]; [|lia|lia|].
  2:{ exists 0. split_and!; [done|lra|by vm_compute]. }
  destruct (c =? 0)%Z eqn:Ec; [done|]. apply Z.eqb_neq in Ec.
  rewrite float_of_int_exact by lia. cbn. assert (0 < inject_Z c) as Hpos.
  { change 0 with (inject_Z 0). rewrite <-Zlt_Qlt. lia. }
  destruct (Qeq_bool (inject_Z c) 0) eqn:Eq; [apply Qeq_bool_iff in Eq; lra|]. intros [= <-].
  apply (round64_within _ 1); [|change (inject_Z 1) with 1|lia].
  - apply Qle_shift_div_l; lra.
  - apply Qle_shift_div_r; lra.
Qed.

(** ** The report at the planner *)

#[local] Open Scope Z_scope.

Lemma total_seconds_finite d : Z.abs d ≤ DATETIME_MAX_US → ∃ q, total_seconds d = Ret (PFin q).
Proof.
  intros Hd. unfold total_seconds, int_truediv. change (1000000 =? 0) with false. cbn [negb].
  destruct (round64_finite (inject_Z d / inject_Z 1000000)) as [q ->]; [|by eexists].
  rewrite pow2_inject by lia. change (inject_Z 1000000) with (1000000 # 1)%Q. unfold Qdiv.
  rewrite Qabs_Qmult. change (Qabs (/ (1000000 # 1)))%Q with (1 # 1000000)%Q.
  change (Qabs (inject_Z d)) with (inject_Z (Z.abs d)).
  rewrite Zle_Qle in Hd. assert (inject_Z DATETIME_MAX_US <= inject_Z (2 ^ 1023))%Q.
  { rewrite <-Zle_Qle. by vm_compute. }
  assert (0 <= inject_Z (Z.abs d))%Q by (change 0%Q with (inject_Z 0); rewrite <-Zle_Qle; lia). lra.
Qed.

Lemma age_of_iso t now :
  0 ≤ t ≤ DATETIME_MAX_US → 0 ≤ now ≤ DATETIME_MAX_US → ∃ a, age_seconds (JStr (iso_z t)) now = Ret a.
Proof.
  intros Ht Hnow. destruct (total_seconds_finite (now - t)) as [q Hq]; [lia|]. unfold age_seconds.
  rewrite iso_zone_roundtrip by done. rewrite (proj2 (truthy_str _) (iso_z_nonempty t)).
  unfold instant. cbn [dt_wall dt_offset default]. rewrite Z.sub_0_r, Hq. by eexists.
Qed.

Lemma report_keys r kvs : report_dict r = JObj kvs → NoDup kvs.*1.
Proof. intros [= <-]. cbn [fmap list_fmap fst]. by apply (bool_decide_eq_true_1 _). Qed.

(** The planner reads a member's report back as the member measured it: same
    depth, readiness, claims and pressure, what was not measured stays unknown,
    and the cluster counts as reporting for exactly ninety seconds. *)
Theorem capacity_report_roundtrip weights reg now t r :
  cr_updated_at r = iso_z t → cr_cluster r ≠ EmptyString →
  0 ≤ t ≤ DATETIME_MAX_US → 0 ≤ now ≤ DATETIME_MAX_US →
  ∃ c, add_report weights now reg (Some (sort_keys (report_dict r)))
       = Ret (set_cluster (cr_cluster r) c reg) ∧
       name c = cr_cluster r ∧ warmpool_depth c = cr_warmpool_depth r ∧
       warmpool_ready c = cr_warmpool_ready r ∧ active_claims c = cr_active_claims r ∧
       node_pressure_score c = cr_node_pressure_score r ∧
       (fle (report_age_s c) (PFin 90) = true ↔ now - t ≤ FRESH_US).
Proof.
  intros Hts Hne Ht Hnow. destruct (age_of_iso t now Ht Hnow) as [age Hage].
  set (c := Cluster (cr_cluster r) (default (PFin 1) (dget (cr_cluster r) weights)) None
    (cr_warmpool_depth r) (cr_warmpool_ready r) (cr_active_claims r) None (cr_node_pressure_score r)
    age 0). exists c.
  assert (report_cluster weights now (cr_cluster r) (sort_keys (report_dict r)) = Ret c) as Hc.
  { pose proof (report_keys r _ eq_refl) as Hnd. unfold report_cluster, optional_field, report_dict.
    rewrite (py_get_def_sort_keys _ "warmpool_depth" _ (JInt (cr_warmpool_depth r)) Hnd eq_refl).
    rewrite (py_get_def_sort_keys _ "warmpool_ready" _ (JInt (cr_warmpool_ready r)) Hnd eq_refl).
    rewrite !(py_get_sort_keys _ _ Hnd).
    change (dget "active_claims" _) with (Some (if cr_active_claims r is Some z then JInt z else JNull)).
    change (dget "claim_p90_ms" _) with (Some JNull).
    change (dget "node_pressure_score" _)
      with (Some (if cr_node_pressure_score r is Some f then JFloat f else JNull)).
    change (dget "updated_at" _) with (Some (JStr (cr_updated_at r))). rewrite <-Hts in Hage. unfold c.
    destruct (cr_active_claims r), (cr_node_pressure_score r); cbn -[age_seconds]; by rewrite Hage. }
  split_and!; [|done..|].
  - revert Hc. unfold report_dict. rewrite sort_keys_obj. intros Hc. unfold add_report.
    rewrite dget_sort_keys by (by apply (report_keys r)).
    change (sort_keys <$> _) with (Some (JStr (cr_cluster r))) at 1. cbv match.
    by rewrite decide_False, Hc.
  - cbn [report_age_s c]. rewrite (age_fresh _ _ _ Hage). by apply age_of_published.
Qed.

(** ** Labels *)

Lemma label_value_short name v :
  label_value name = Ret v → ∃ s, v = JStr s ∧ (len s ≤ 63)%nat.
Proof.
  destruct name as [| | | |s| |]; try done. cbn. case_bool_decide; intros [= <-]; [by eexists|].
  eexists. split; [done|]. unfold len. rewrite !explode_app, !explode_implode, !length_app, !length_take.
  change (length (explode "-")) with 1%nat. lia.
Qed.

(** The SI suffix for a thousand is a lower-case k, which the table does not have. *)
Lemma kilo_suffix_unknown :
  parse_mem_bytes (Some "500k") = Ret 0 ∧ parse_mem_bytes (Some "500K") = Ret 500000.
Proof. by vm_compute. Qed.

(** ** Witnesses *)

Module DemoReport.
Definition nodes : list node :=
  [Node "n1" false [("cpu", "4"); ("memory", "8Gi")]; Node "n2" true [("cpu", "4"); ("memory", "8Gi")]].

(** The first node is over-committed on memory and half used on CPU. *)
Definition reqs : requests := [("n1", (2000, 16 * 2 ^ 30))].

Definition report : CapacityReport :=
  Report "a" (iso_z 63902822400000000) 3 4 2 None (Some (PFin (3 # 4))) [JStr "m-pool"].
End DemoReport.

Lemma node_pressure_in_range_witness :
  pressure_of DemoReport.nodes DemoReport.reqs = Ret (Some (PFin (3 # 4))) ∧ (0 <= 3 # 4)%Q.
Proof.
  assert (pressure_of DemoReport.nodes DemoReport.reqs = Ret (Some (PFin (3 # 4)))) as H by (by vm_compute).
  split; [exact H|]. destruct (node_pressure_in_range DemoReport.nodes DemoReport.reqs (PFin (3 # 4)))
    as (q & Hq & H0 & _); [by vm_compute|exact H|]. injection Hq as ->. exact H0.
Defined.

Lemma capacity_report_roundtrip_witness :
  ∃ c, add_report [] 63902822430000000 empty_registry (Some (sort_keys (report_dict DemoReport.report)))
         = Ret (set_cluster "a" c empty_registry) ∧
       active_claims c = None ∧ node_pressure_score c = Some (PFin (3 # 4)) ∧
       fle (report_age_s c) (PFin 90) = true.
Proof.
  destruct (capacity_report_roundtrip [] empty_registry 63902822430000000 63902822400000000 DemoReport.report)
    as (c & Ha & _ & _ & _ & Hcl & Hp & Hf); [done|done|done|done|].
  exists c. split_and!; [exact Ha|exact Hcl|exact Hp|]. by apply Hf.
Defined.

#[local] Close Scope Q_scope.

(** * The hub *)

#[local] Open Scope Z_scope.

Definition CLUSTERPROFILE_GROUP : string := "multicluster.x-k8s.io".
Definition CLUSTERPROFILE_PLURAL : string := "clusterprofiles".
Definition APPLY_CONTENT_TYPE : string := "application/apply-patch+yaml".
Definition DEFAULT_FIELD_MANAGER : string := "agent-sandbox-fleet-member".

Record publisher := Publisher {
  pb_cluster_name : string;
  pb_namespace : string;
  pb_field_manager : string;
  pb_force : bool;
  pb_sandbox_capacity : option Z;
  pb_max_replicas : option Z;
  pb_status_subresource : bool;
  pb_version : string;
  pb_request_timeout : option (pyfloat * pyfloat);
}.

(** [{"name": name, "value": str(value)}] *)
Definition prop (name : string) (value : json) : json :=
  JObj [("name", JStr name); ("value", JStr (py_str value))].

(** [int(report.get(k, 0) or 0)] *)
Definition count_field (report : json) (k : string) : outcome json :=
  v ← py_get_def report k (JInt 0); z ← int_of_json (py_or v (JInt 0)); Ret (JInt z).

(** A property that is left out when it was not measured. *)
Definition measured {A} (report : json) (k name : string) (conv : json → outcome A) (inj : A → json)
    : outcome (list json) :=
  v ← py_get report k;
  if is_none v then Ret [] else x ← conv v; Ret [prop name (inj x)].

Definition optional_int (name : string) (o : option Z) : list json :=
  match o with Some z => [prop name (JInt z)] | None => [] end.

Definition build_status (self : publisher) (report : json) : outcome json :=
  hb ← py_get_def report "updated_at" (JStr "");
  depth ← count_field report "warmpool_depth";
  ready ← count_field report "warmpool_ready";
  p90 ← measured report "claim_p90_ms" PROP_CLAIM_P90_MS float_of_json JFloat;
  claims ← measured report "active_claims" PROP_ACTIVE_CLAIMS int_of_json JInt;
  pressure ← measured report "node_pressure_score" PROP_NODE_PRESSURE float_of_json JFloat;
  Ret (JObj [("properties", JList
    ([prop PROP_HEARTBEAT hb; prop PROP_WARMPOOL_DEPTH depth; prop PROP_WARMPOOL_READY ready]
     ++ p90 ++ claims ++ pressure
     ++ optional_int PROP_SANDBOX_CAPACITY (pb_sandbox_capacity self)
     ++ optional_int PROP_MAX_REPLICAS (pb_max_replicas self)))]).

Definition build_body (self : publisher) (report : json) : outcome json :=
  status ← build_status self report;
  Ret (JObj [("apiVersion", JStr (CLUSTERPROFILE_GROUP +:+ "/" +:+ pb_version self));
             ("kind", JStr "ClusterProfile");
             ("metadata", JObj [("name", JStr (pb_cluster_name self)); ("namespace", JStr (pb_namespace self))]);
             ("status", status)]).

(** The arguments of the patch call. *)
Record patch_call := PatchCall {
  pc_version : string;
  pc_namespace : string;
  pc_name : string;
  pc_body : json;
  pc_field_manager : string;
  pc_request_timeout : option (pyfloat * pyfloat);
  pc_force : bool;
  pc_status : bool;
}.

Class HubApi (W : Type) := { patch_clusterprofile : patch_call → M W json }.

Definition publish {W} `{HubApi W} (self : publisher) (report : json) : M W json :=
  body ← lift (build_body self report);
  patch_clusterprofile
    (PatchCall (pb_version self) (pb_namespace self) (pb_cluster_name self) body (pb_field_manager self)
       (pb_request_timeout self) (pb_force self) (pb_status_subresource self)).

(** The headers are those of the API's client, if it has any. *)
Definition assert_ssa_configured (headers : list (string * string)) : outcome () :=
  if bool_decide (dget "Content-Type" headers = Some APPLY_CONTENT_TYPE) then Ret () else Raise RuntimeError.

(** ** [float(str(z))] *)

Lemma float_digits_all l acc n :
  Forall (λ c, is_digit c = true) l → float_digits acc n l = (digits_value acc l, (n + length l)%nat, []).
Proof.
  intros Hd. revert acc n. induction Hd as [|c l Hc Hd IH]; intros acc n; cbn [float_digits].
  - cbn. by rewrite Nat.add_0_r.
  - rewrite Hc, IH. cbn [length]. by rewrite Nat.add_succ_r.
Qed.

Lemma decimal_digits l :
  l ≠ [] → Forall (λ c, is_digit c = true) l → decimal l = Some (inject_Z (digits_value 0 l)).
Proof.
  intros Hne Hd. unfold decimal. rewrite float_digits_all by done. rewrite Nat.add_0_r, Nat.add_0_l.
  destruct (length l) as [|n] eqn:El; [by apply length_zero_iff_nil in El|]. cbn [Nat.eqb].
  f_equal. change (Qpower 10 (0 - Z.of_nat 0)) with 1%Q. unfold inject_Z, Qmult. cbn.
  by rewrite Z.mul_1_r.
Qed.

Lemma digit_lower c : is_digit c = true → lower_char c = c.
Proof. by destruct c as [[] [] [] [] [] [] [] []]. Qed.

Lemma py_float_pretty z : 0 ≤ z < 2 ^ 53 → py_float (pretty z) = Ret (PFin (inject_Z z)).
Proof.
  intros Hz. destruct (pretty_Z_digits z ltac:(lia)) as (Hd & Hv & Hne & _).
  assert (strip (pretty z) = pretty z) as Hs.
  { apply strip_id. intros c Hc. rewrite Forall_forall in Hd. by apply digit_not_space, Hd. }
  assert (lower (pretty z) = pretty z) as Hl.
  { unfold lower. rewrite <-(implode_explode (pretty z)) at 2. f_equal. clear -Hd.
    induction Hd as [|c l Hc Hd IH]; [done|]. cbn. rewrite digit_lower by done. by f_equal. }
  unfold py_float. rewrite Hs, Hl. destruct (explode (pretty z)) as [|c l] eqn:El; [done|].
  pose proof (Forall_inv Hd) as Hc. cbn beta in Hc. rewrite sign_chars_digit by done.
  assert (∀ d s, is_digit d = false → implode (c :: l) ≠ String d s) as Hnot.
  { intros d s Hnd E. cbn in E. injection E as <- _. congruence. }
  destruct (str_mem (implode (c :: l)) ["inf"; "infinity"]) eqn:Em.
  { exfalso. apply bool_decide_eq_true in Em. rewrite !elem_of_cons in Em.
    destruct Em as [E|[E|E%elem_of_nil]]; [..|done]; by eapply Hnot in E. }
  destruct (implode (c :: l) =? "nan")%string eqn:En; [apply String.eqb_eq in En; by eapply Hnot in En|].
  rewrite decimal_digits by done. rewrite Hv. by rewrite round64_int by lia.
Qed.

Lemma finite_pretty z : 0 ≤ z < 2 ^ 53 → finite (pretty z) = Some (PFin (inject_Z z)).
Proof. intros Hz. unfold finite. by rewrite py_float_pretty. Qed.

Lemma pretty_nonempty (z : Z) : 0 ≤ z → pretty z ≠ EmptyString.
Proof. intros Hz E. destruct (pretty_Z_digits z Hz) as (_ & _ & Hne & _). by rewrite E in Hne. Qed.

Lemma int_prop_pretty props k z :
  0 ≤ z < 2 ^ 53 → dget k props = Some (pretty z) → int_prop props k = Some z.
Proof.
  intros Hz Hk. unfold int_prop, float_prop. rewrite Hk. cbn.
  rewrite decide_False by (apply pretty_nonempty; lia). rewrite finite_pretty by done. cbn.
  by rewrite Z.quot_1_r.
Qed.

(** ** What the planner reads back *)

(** The properties a report becomes. *)
Definition published_props (self : publisher) (r : CapacityReport) : list (string * string) :=
  let opt (name : string) (o : option Z) := match o with Some z => [(name, pretty z)] | None => [] end in
  [(PROP_HEARTBEAT, cr_updated_at r); (PROP_WARMPOOL_DEPTH, pretty (cr_warmpool_depth r));
   (PROP_WARMPOOL_READY, pretty (cr_warmpool_ready r))]
  ++ opt PROP_ACTIVE_CLAIMS (cr_active_claims r)
  ++ (if cr_node_pressure_score r is Some f then [(PROP_NODE_PRESSURE, float_repr f)] else [])
  ++ opt PROP_SANDBOX_CAPACITY (pb_sandbox_capacity self)
  ++ opt PROP_MAX_REPLICAS (pb_max_replicas self).

Definition prop_json (nv : string * string) : json := JObj [("name", JStr nv.1); ("value", JStr nv.2)].

Lemma count_field_int kvs k z : dget k kvs = Some (JInt z) → count_field (JObj kvs) k = Ret (JInt z).
Proof.
  intros Hk. unfold count_field. cbn. rewrite Hk. cbn. unfold py_or. cbn. by destruct (decide (z = 0)) as [->|]; [|destruct z].
Qed.

Lemma build_status_props self r :
  build_status self (report_dict r) = Ret (JObj [("properties", JList (prop_json <$> published_props self r))]).
Proof.
  unfold build_status, report_dict.
  rewrite !(count_field_int _ "warmpool_depth" (cr_warmpool_depth r)) by reflexivity.
  rewrite !(count_field_int _ "warmpool_ready" (cr_warmpool_ready r)) by reflexivity.
  unfold measured, published_props.
  destruct (cr_active_claims r), (cr_node_pressure_score r), (pb_sandbox_capacity self), (pb_max_replicas self);
    reflexivity.
Qed.

Lemma properties_read l rest :
  NoDup l.*1 → properties (JObj (("properties", JList (prop_json <$> l)) :: rest)) = Ret l.
Proof.
  intros Hnd. unfold properties.
  assert (py_get (JObj (("properties", JList (prop_json <$> l)) :: rest)) "properties"
    = Ret (JList (prop_json <$> l))) as -> by done. cbn [mbind outcome_bind].
  assert (py_iter (py_or (JList (prop_json <$> l)) (JList [])) = Ret (prop_json <$> l)) as -> by (by destruct l).
  cbn [mbind outcome_bind].
  assert (∀ d, NoDup (d ++ l).*1 → foldl (λ acc p,
    out ← acc;
    n ← py_get p "name";
    if is_none n then Ret out
    else v ← py_get_def p "value" (JStr ""); Ret (dset (py_str n) (py_str v) out)) (Ret d) (prop_json <$> l)
    = Ret (d ++ l)) as H; [|by apply (H [])].
  clear Hnd. induction l as [|[n v] l IH]; intros d Hnd; [cbn; by rewrite app_nil_r|].
  cbn [fmap list_fmap foldl]. cbn -[decide dset foldl]. keys. cbn -[dset foldl].
  assert (dset n v d = d ++ [(n, v)]) as ->.
  { apply dset_fresh. rewrite fmap_app in Hnd. apply NoDup_app in Hnd as (_ & Hn & _).
    intros Hin. apply (Hn n Hin). by left. }
  rewrite IH; by rewrite <-app_assoc.
Qed.

Lemma published_props_nodup self r : NoDup (published_props self r).*1.
Proof.
  unfold published_props.
  destruct (cr_active_claims r), (cr_node_pressure_score r), (pb_sandbox_capacity self), (pb_max_replicas self);
    cbn [app fmap list_fmap fst]; by apply (bool_decide_eq_true_1 _).
Qed.

Lemma published_lookups self r :
  let props := published_props self r in
  dget PROP_HEARTBEAT props = Some (cr_updated_at r) ∧
  dget PROP_WARMPOOL_DEPTH props = Some (pretty (cr_warmpool_depth r)) ∧
  dget PROP_WARMPOOL_READY props = Some (pretty (cr_warmpool_ready r)) ∧
  dget PROP_ACTIVE_CLAIMS props = pretty <$> cr_active_claims r ∧
  dget PROP_NODE_PRESSURE props = float_repr <$> cr_node_pressure_score r ∧
  dget PROP_CLAIM_P90_MS props = None ∧
  dget PROP_MAX_REPLICAS props = pretty <$> pb_max_replicas self.
Proof.
  unfold published_props.
  destruct (cr_active_claims r), (cr_node_pressure_score r), (pb_sandbox_capacity self), (pb_max_replicas self);
    by split_and!.
Qed.

(** The profile on the hub: our status, and the conditions of the cluster manager. *)
Definition hub_profile (name : string) (status conds : json) : json :=
  JObj [("metadata", JObj [("name", JStr name)]);
        ("status", match status with JObj kvs => JObj (kvs ++ [("conditions", conds)]) | _ => JNull end)].

(** What a member publishes on the hub, the planner's ClusterProfile inventory
    reads back: depth, readiness, claims and ceiling as they were, what was not
    measured as unknown, the pressure as the float its text denotes, and the cluster
    is fresh for ninety seconds, if the cluster manager reports no failing
    condition. *)
Theorem hub_report_roundtrip self r t now weights warned cs conds status rh :
  cr_updated_at r = iso_z t → 0 ≤ t ≤ DATETIME_MAX_US → 0 ≤ now ≤ DATETIME_MAX_US →
  0 ≤ cr_warmpool_depth r < 2 ^ 53 → 0 ≤ cr_warmpool_ready r < 2 ^ 53 →
  (∀ n, cr_active_claims r = Some n → 0 ≤ n < 2 ^ 53) →
  (∀ n, pb_max_replicas self = Some n → 0 < n < 2 ^ 53) →
  pb_cluster_name self ≠ EmptyString →
  build_status self (report_dict r) = Ret status →
  conditions (JObj [("conditions", cs)]) = Ret conds →
  failing conds COND_CONTROL_PLANE_HEALTHY = Ret false → failing conds COND_JOINED = Ret false →
  ∃ c, to_planner_cluster rh (hub_profile (pb_cluster_name self) status cs) weights now warned
         = Ret (Some c, warned) ∧
    name c = pb_cluster_name self ∧ warmpool_depth c = cr_warmpool_depth r ∧
    warmpool_ready c = cr_warmpool_ready r ∧ active_claims c = cr_active_claims r ∧
    max_replicas c = pb_max_replicas self ∧ claim_p90_ms c = None ∧
    node_pressure_score c = (f ← cr_node_pressure_score r; finite (float_repr f)) ∧
    (fle (report_age_s c) (PFin 90) = true ↔ now - t ≤ FRESH_US).
Proof.
  intros Hts Ht Hnow Hd Hrd Hcl Hmr Hne Hst Hcs Hf1 Hf2. rewrite build_status_props in Hst.
  assert (status = JObj [("properties", JList (prop_json <$> published_props self r))]) as -> by congruence. clear Hst.
  destruct (published_lookups self r) as (Lhb & Ld & Lr & Lc & Lp & L90 & Lm). revert Lhb Ld Lr Lc Lp L90 Lm.
  pose proof (properties_read (published_props self r) [("conditions", cs)] (published_props_nodup self r)) as Hprops.
  revert Hprops. generalize (published_props self r). intros props Hprops Lhb Ld Lr Lc Lp L90 Lm.
  destruct (age_of_iso t now Ht Hnow) as [age Hage].
  unfold to_planner_cluster, hub_profile.
  assert (∀ st, profile_name (JObj [("metadata", JObj [("name", JStr (pb_cluster_name self))]); ("status", st)])
    = Ret (Some (pb_cluster_name self))) as ->.
  { intros st. unfold profile_name, mbind, outcome_bind. cbn [py_get dget]. keys. cbn [default from_option id].
    change (py_or (JObj ?l) _) with (JObj l). cbn [py_get dget]. keys. cbn [default from_option id].
    by rewrite (proj2 (truthy_str _) Hne). }
  cbn [mbind outcome_bind py_get dget app]. keys. cbn [default from_option id mbind outcome_bind py_or truthy].
  rewrite Hprops. cbn [mbind outcome_bind].
  assert (conditions (JObj [("properties", JList (prop_json <$> props)); ("conditions", cs)]) = Ret conds) as ->.
  { rewrite <-Hcs. unfold conditions. cbn [py_get dget]. by keys. }
  assert (freshness rh (pb_cluster_name self) props conds now warned = Ret (age, warned)) as Hfresh.
  { unfold freshness, mbind, outcome_bind. rewrite Hf1, Hf2, Lhb, Hts.
    pose proof (iso_z_nonempty t) as Hz. destruct (iso_z t) as [|ch s] eqn:Es; [done|]. by rewrite Hage. }
  cbn [mbind outcome_bind]. rewrite Hfresh. eexists. split; [done|].
  cbn [name warmpool_depth warmpool_ready active_claims max_replicas claim_p90_ms node_pressure_score report_age_s].
  split_and!; [done| | | | | | |].
  - by rewrite (int_prop_pretty _ _ _ Hd Ld).
  - by rewrite (int_prop_pretty _ _ _ Hrd Lr).
  - destruct (cr_active_claims r) as [n|]; [by apply int_prop_pretty; [apply Hcl|]|].
    unfold int_prop, float_prop. by rewrite Lc.
  - destruct (pb_max_replicas self) as [n|].
    + specialize (Hmr n eq_refl). rewrite (int_prop_pretty _ _ n) by (done || lia). cbn.
      by destruct (0 <? n) eqn:E; [|apply Z.ltb_ge in E; lia].
    + unfold int_prop, float_prop. by rewrite Lm.
  - unfold float_prop. by rewrite L90.
  - unfold float_prop. rewrite Lp. destruct (cr_node_pressure_score r) as [f|]; [|done]. cbn.
    case_decide as E; [by rewrite E|done].
  - rewrite (age_fresh _ _ _ Hage). by apply age_of_published.
Qed.

(** ** Witness *)

Module DemoHub.
Definition self : publisher :=
  Publisher "a" CLUSTERPROFILE_NAMESPACE DEFAULT_FIELD_MANAGER false (Some 100) (Some 50) true
    CLUSTERPROFILE_VERSION (Some (PFin 5, PFin 30)).
Definition conds : json := JList [JObj [("type", JStr "Joined"); ("status", JStr "True")]].
End DemoHub.

Lemma hub_report_roundtrip_witness :
  ∃ status c, build_status DemoHub.self (report_dict DemoReport.report) = Ret status ∧
    to_planner_cluster true (hub_profile "a" status DemoHub.conds) [] 63902822430000000 [] = Ret (Some c, []) ∧
    warmpool_depth c = 4 ∧ active_claims c = None ∧ max_replicas c = Some 50 ∧
    fle (report_age_s c) (PFin 90) = true.
Proof.
  eexists. edestruct (hub_report_roundtrip DemoHub.self DemoReport.report 63902822400000000 63902822430000000
    [] [] DemoHub.conds) with (rh := true) as (c & Hc & _ & Hd & _ & Hcl & Hmr & _ & _ & Hf);
    [reflexivity|done|done|done|done|done| |done|apply build_status_props|reflexivity|reflexivity|reflexivity|].
  { intros n [= <-]. lia. }
  exists c. split_and!; [apply build_status_props|exact Hc|exact Hd|exact Hcl|exact Hmr|]. by apply Hf.
Defined.
