(* ===== verification/FleetTools.v ===== *)
(** Small tools of the fleet: models [argtypes.py], [registry_rewrite.py] and the
    size argument of [trainer.py] of
    [src/examples/multi-cluster-fleet/python/agent_sandbox_fleet]. *)

From Stdlib Require Import Ascii String ZArith QArith Lia.
From stdpp Require Import base option list strings sets pretty.
From S2P Require Import Prelude Float Json PyList PyText FleetMember Publisher.

#[local] Open Scope Z_scope.

(** ** Intervals *)

Definition positive_float (raw : string) : outcome pyfloat :=
  match py_float raw with
  | Ret v => if negb (flt (PFin 0) v) || feq v PInf then Raise ArgumentTypeError else Ret v
  | Raise e => if decide (e = ValueError ∨ e = OverflowError) then Raise ArgumentTypeError else Raise e
  | NoFuel => NoFuel
  end.

(** An interval that is accepted is a finite positive number of seconds. *)
Lemma positive_float_spec raw v :
  positive_float raw = Ret v ↔ py_float raw = Ret v ∧ ∃ q, v = PFin q ∧ (0 < q)%Q.
Proof.
  unfold positive_float. destruct (py_float raw) as [f|e|]; [|case_decide; split; naive_solver|naive_solver].
  split.
  - destruct (flt (PFin 0) f) eqn:El; [|done]. cbn [negb orb]. destruct (feq f PInf) eqn:Ei; [done|].
    intros [= <-]. split; [done|]. destruct f as [q| | |]; try done. exists q. split; [done|].
    cbn in El. unfold Qlt_bool in El. apply negb_true_iff, not_true_iff_false in El.
    rewrite Qle_bool_iff in El. by apply Qnot_le_lt.
  - intros [[= <-] (q & -> & Hq)]. cbn. unfold Qlt_bool.
    destruct (Qle_bool q 0) eqn:E; [apply Qle_bool_iff in E; by apply Qle_not_lt in E|done].
Qed.

(** ** Image references *)

Definition DOCKER_HOSTS : list string := ["docker.io"; "index.docker.io"; "registry-1.docker.io"].

(** [s.split(c, 1)[0]] *)
Fixpoint upto (c : ascii) (l : list ascii) : list ascii :=
  match l with
  | [] => []
  | d :: l' => if decide (d = c) then [] else d :: upto c l'
  end.

Definition before (c : ascii) (s : string) : string := implode (upto c (explode s)).

Definition looks_like_host (head : string) : bool :=
  has_char "."%char head || has_char ":"%char head || bool_decide (head = "localhost").

Definition split_host (image : string) : option string * string :=
  let head := before "/"%char image in
  if has_char "/"%char image && looks_like_host head
  then (Some head, implode (drop (len head + 1) (explode image)))
  else (None, image).

Definition rewrite_image (registry project repo : string) (only_hosts : option (list string)) (image : string)
    : outcome string :=
  if decide (registry = EmptyString) then Raise ValueError
  else
    let '(host, rest) := split_host image in
    let effective := default "docker.io" host in
    if (match only_hosts with Some hs => negb (str_mem effective hs) | None => false end) then Ret image
    else
      let name := before ":"%char (before "@"%char rest) in
      let rest' := if str_mem effective DOCKER_HOSTS && negb (has_char "/"%char name)
                   then "library/" +:+ rest else rest in
      let prefix := String.concat "/" (filter (λ p, p ≠ EmptyString) [registry; project; repo]) in
      Ret (prefix +:+ "/" +:+ rest').

(** ** Sizes *)

Definition SIZES : list (string * Z) :=
  [("GiB", 1024 * 1024 * 1024); ("MiB", 1024 * 1024); ("KiB", 1024); ("B", 1)].

Fixpoint sized (s : string) (sizes : list (string * Z)) : option (outcome Z) :=
  match sizes with
  | [] => None
  | (suf, mult) :: sizes' =>
      match before_suffix suf s with
      | Some num => Some (f ← py_float num; m ← float_of_int mult; ftrunc (fmul f m))
      | None => sized s sizes'
      end
  end.

Definition parse_size (s : string) : outcome Z :=
  let s := strip s in
  match sized s SIZES with
  | Some o => o
  | None => match py_int s with Some z => Ret z | None => Raise ValueError end
  end.

(** ** Rewriting *)

Lemma upto_app c l l' : upto c (l ++ c :: l') = upto c l.
Proof.
  induction l as [|d l IH]; cbn; [by rewrite decide_True|]. case_decide; [done|]. by rewrite IH.
Qed.

Lemma upto_notin c l : c ∉ l → upto c l = l.
Proof.
  induction l as [|d l IH]; [done|]. cbn. rewrite not_elem_of_cons. intros [Hd Hl].
  rewrite decide_False by congruence. by rewrite IH.
Qed.

Lemma before_slash s x : before "/"%char (s +:+ "/" +:+ x) = before "/"%char s.
Proof. unfold before. rewrite !explode_app. change (explode "/") with ["/"%char]. cbn [app]. by rewrite upto_app. Qed.

Lemma has_slash s x : has_char "/"%char (s +:+ "/" +:+ x) = true.
Proof. apply bool_decide_eq_true. rewrite !explode_app. apply elem_of_app. right. by left. Qed.

Lemma str_app_assoc (a b c : string) : (a +:+ b) +:+ c = a +:+ (b +:+ c).
Proof. by rewrite <-(implode_explode ((a +:+ b) +:+ c)), !explode_app, <-app_assoc, <-!explode_app, implode_explode. Qed.

Lemma prefix_shape registry project repo rest :
  registry ≠ EmptyString →
  ∃ x, String.concat "/" (filter (λ p, p ≠ EmptyString) [registry; project; repo]) +:+ "/" +:+ rest
       = registry +:+ "/" +:+ x.
Proof.
  intros Hr. rewrite filter_cons_True by done.
  destruct (filter _ [project; repo]) as [|p ps]; [by exists rest|].
  cbn [String.concat]. eexists. rewrite !str_app_assoc. done.
Qed.

(** Rewriting image references at a mirror is idempotent when the mirror's host
    is recognised as one (it has a dot or a port, or is [localhost]) and is not
    among the hosts that are rewritten. *)
Theorem rewrite_idempotent registry project repo hs image image' :
  looks_like_host (before "/"%char registry) = true → before "/"%char registry ∉ hs →
  rewrite_image registry project repo (Some hs) image = Ret image' →
  rewrite_image registry project repo (Some hs) image' = Ret image'.
Proof.
  intros Hh Hn. unfold rewrite_image. case_decide as Hr; [done|].
  destruct (split_host image) as [host rest] eqn:Es.
  destruct (negb (str_mem (default "docker.io" host) hs)) eqn:Em.
  { intros [= <-]. rewrite Es. by rewrite Em. }
  set (rest' := if str_mem _ _ && _ then _ else _). intros [= <-].
  destruct (prefix_shape registry project repo rest' Hr) as [x ->].
  unfold split_host. rewrite has_slash, before_slash, Hh. cbn [andb default from_option id].
  assert (str_mem (before "/"%char registry) hs = false) as -> by (by apply bool_decide_eq_false).
  done.
Qed.

(** A host without a dot is taken for a Docker Hub namespace, and rewritten again. *)
Lemma rewrite_plain_host_not_idempotent :
  rewrite_image "mirror" "" "" (Some DOCKER_HOSTS) "ubuntu" = Ret "mirror/library/ubuntu" ∧
  rewrite_image "mirror" "" "" (Some DOCKER_HOSTS) "mirror/library/ubuntu" = Ret "mirror/mirror/library/ubuntu".
Proof. by vm_compute. Qed.

Lemma upto_prefix c l : upto c l `prefix_of` l.
Proof.
  induction l as [|d l IH]; cbn; [done|]. case_decide; [apply prefix_nil|]. by apply prefix_cons.
Qed.

Lemma no_slash_name n c : has_char "/"%char n = false → has_char "/"%char (before c n) = false.
Proof.
  unfold has_char, before. rewrite !bool_decide_eq_false, explode_implode. intros Hn Hin. apply Hn.
  destruct (upto_prefix c (explode n)) as [k ->]. apply elem_of_app. by left.
Qed.

Lemma before_library c x : c ≠ "/"%char → c ∉ explode "library" →
  before c ("library/" +:+ x) = "library/" +:+ implode (upto c (explode x)).
Proof.
  intros Hc Hl. unfold before. change "library/" with (implode (explode "library/")) at 2.
  rewrite explode_app, <-implode_app. f_equal. revert Hl. cbn. rewrite !not_elem_of_cons.
  intros Hl. repeat rewrite decide_False by naive_solver. done.
Qed.

(** The three spellings of a Docker Hub library image go to the same place of
    the mirror: [ubuntu:22.04], [docker.io/ubuntu:22.04] and [library/ubuntu:22.04]. *)
Theorem rewrite_library_spellings registry project repo hs n :
  has_char "/"%char n = false → "docker.io" ∈ hs →
  rewrite_image registry project repo (Some hs) n = rewrite_image registry project repo (Some hs) ("docker.io/" +:+ n) ∧
  rewrite_image registry project repo (Some hs) n = rewrite_image registry project repo (Some hs) ("library/" +:+ n).
Proof.
  intros Hn Hd. assert (str_mem "docker.io" hs = true) as Hm by (by apply bool_decide_eq_true).
  assert (split_host n = (None, n)) as E1 by (unfold split_host; by rewrite Hn).
  assert (split_host ("docker.io/" +:+ n) = (Some "docker.io", n)) as E2.
  { unfold split_host. change ("docker.io/" +:+ n) with ("docker.io" +:+ "/" +:+ n).
    rewrite has_slash, before_slash. cbn [andb]. change (looks_like_host (before "/"%char "docker.io")) with true.
    cbv iota. f_equal. change (len (before "/"%char "docker.io") + 1)%nat with 10%nat.
    rewrite !explode_app. cbn [explode list_ascii_of_string app drop]. apply implode_explode. }
  assert (split_host ("library/" +:+ n) = (None, "library/" +:+ n)) as E3.
  { unfold split_host. change ("library/" +:+ n) with ("library" +:+ "/" +:+ n).
    rewrite has_slash, before_slash. by change (looks_like_host (before "/"%char "library")) with false. }
  unfold rewrite_image. case_decide; [done|]. rewrite E1, E2, E3. cbn [default from_option id].
  rewrite Hm. cbn [negb]. change (str_mem "docker.io" DOCKER_HOSTS) with true. cbn [andb].
  rewrite (no_slash_name (before "@"%char n) ":"%char) by (by apply no_slash_name). cbn [negb].
  split; [done|]. rewrite before_library by (done || by apply (bool_decide_eq_true_1 _)).
  rewrite before_library by (done || by apply (bool_decide_eq_true_1 _)).
  by change (has_char "/"%char ("library/" +:+ ?x)) with true.
Qed.

(** ** Sizes *)

Lemma before_suffix_app suf s : before_suffix suf (s +:+ suf) = Some s.
Proof.
  unfold before_suffix, len. rewrite explode_app, length_app. rewrite bool_decide_eq_true_2 by lia.
  replace (length (explode s) + length (explode suf) - length (explode suf))%nat with (length (explode s)) by lia.
  rewrite drop_app_length, bool_decide_eq_true_2 by done. cbn [andb]. by rewrite take_app_length, implode_explode.
Qed.

Lemma before_suffix_other suf suf' s :
  len suf = len suf' → suf ≠ suf' → before_suffix suf (s +:+ suf') = None.
Proof.
  unfold before_suffix, len. intros Hl Hne. rewrite explode_app, length_app.
  replace (length (explode s) + length (explode suf') - length (explode suf))%nat with (length (explode s)) by lia.
  rewrite drop_app_length. rewrite (bool_decide_eq_false_2 (explode suf' = _)), andb_false_r; [done|].
  intros E. apply Hne. by rewrite <-(implode_explode suf), <-E, implode_explode.
Qed.

(** [parse_size] of a whole number of mebibytes. *)
Lemma parse_size_mib z : 0 ≤ z < 2 ^ 32 → parse_size (pretty z +:+ "MiB") = Ret (z * 2 ^ 20).
Proof.
  intros Hz. unfold parse_size. destruct (pretty_Z_digits z ltac:(lia)) as (Hd & _).
  assert (strip (pretty z +:+ "MiB") = pretty z +:+ "MiB") as ->.
  { apply strip_id. intros c. rewrite explode_app, elem_of_app. rewrite Forall_forall in Hd.
    intros [Hc|Hc]; [by apply digit_not_space, Hd|]. cbn in Hc.
    repeat (apply elem_of_cons in Hc as [->|Hc]; [done|]). by apply elem_of_nil in Hc. }
  unfold SIZES. cbn [sized]. rewrite before_suffix_other, before_suffix_app by done.
  rewrite py_float_pretty by lia. cbn [mbind outcome_bind].
  rewrite float_of_int_exact by lia. cbn [mbind outcome_bind fmul].
  change (inject_Z z * inject_Z (1024 * 1024))%Q with (inject_Z (z * (1024 * 1024))).
  rewrite round64_int by lia. cbn. f_equal. rewrite Z.quot_1_r. lia.
Qed.

(** ** Witnesses *)

Lemma rewrite_idempotent_witness :
  rewrite_image "gcr.io" "p" "" (Some DOCKER_HOSTS) "gcr.io/p/library/ubuntu:22.04" = Ret "gcr.io/p/library/ubuntu:22.04".
Proof.
  apply (rewrite_idempotent "gcr.io" "p" "" DOCKER_HOSTS "ubuntu:22.04"); [by vm_compute| |by vm_compute].
  by apply (bool_decide_eq_true_1 _).
Defined.

Lemma rewrite_library_spellings_witness :
  rewrite_image "gcr.io" "" "" (Some DOCKER_HOSTS) "docker.io/ubuntu:22.04" = Ret "gcr.io/library/ubuntu:22.04".
Proof.
  destruct (rewrite_library_spellings "gcr.io" "" "" DOCKER_HOSTS "ubuntu:22.04") as [H _];
    [by vm_compute|by left|]. etrans; [symmetry; exact H|]. by vm_compute.
Defined.
