(* ===== verification/LeaseLock.v ===== *)
(** Leader election of the members: models [leaselock.py] and the lifecycle methods
    of [fleet_member.py] in
    [src/examples/multi-cluster-fleet/python/agent_sandbox_fleet].

    The election loop is the kubernetes client's; it calls [get], [create] and
    [update], and the two callbacks. Local time is a parameter, a pair of functions
    between instants and wall clock times. Log lines are left out. *)

From Stdlib Require Import Ascii String ZArith Lia.
From stdpp Require Import base option list strings sets pretty.
From S2P Require Import Prelude Hoare Float Json PyText Utils DateTime World.

#[local] Open Scope Z_scope.

Record lease_spec := LeaseSpec {
  holder_identity : option string;
  lease_duration_seconds : option Z;
  (** instants, in microseconds *)
  acquire_time : option Z;
  renew_time : option Z;
}.

(** Versions are only compared for equality by the lock. *)
Record lease := Lease { lease_version : Z; spec_of : option lease_spec }.

(** [LeaderElectionRecord] *)
Record election_record := Record_ {
  er_holder : option string;
  er_duration : option string;
  er_acquire : option string;
  er_renew : option string;
}.

Class LeaseApi (W : Type) := {
  read_lease : string → string → M W lease;
  create_lease : string → string → lease_spec → M W lease;
  (** name, namespace and the object with the version it was read at *)
  replace_lease : string → string → lease → M W lease;
}.

(** A [urllib3] error, which the client does not wrap. *)
Definition is_transport (e : exn) : bool :=
  match e with MaxRetryError | ReadTimeoutError | ProtocolError => true | _ => false end.

Definition denied (e : exn) : bool :=
  match e with ApiException s => (s =? 401) || (s =? 403) | _ => false end.

(** [str(dt)] of a naive datetime *)
Definition str_naive (us : Z) : string :=
  (let secs := us / 1000000 in
   let '(y, m, d) := civil_of_days (secs / 86400) in
   let t := secs mod 86400 in
   let f := us mod 1000000 in
   pad 4 y +:+ "-" +:+ pad 2 m +:+ "-" +:+ pad 2 d +:+ " " +:+
   pad 2 (t / 3600) +:+ ":" +:+ pad 2 (t / 60 mod 60) +:+ ":" +:+ pad 2 (t mod 60) +:+
   (if f =? 0 then EmptyString else "." +:+ pad 6 f))%Z.

(** The lock's own state: the lease it last read or wrote. *)
Definition lock := option lease.

(** What [get] gives besides the status: a record, none, or the error. *)
Inductive get_result := Rec (r : option election_record) | Err (status : Z).

Section lock.
Context {W : Type} `{LeaseApi W}.
Context (to_wall to_instant : Z → Z).

Abbreviation LM := (M (lock * W)).

Definition to_datetime (value : option string) : outcome (option Z) :=
  match value with
  | None | Some EmptyString => Ret None
  | Some s =>
      d ← fromisoformat s;
      Ret (Some match dt_offset d with
                | None => to_instant (dt_wall d)
                | Some _ => instant d
                end)
  end.

Definition to_record_str (value : option Z) : option string := (λ t, str_naive (to_wall t)) <$> value.

Definition spec_from (r : election_record) : outcome lease_spec :=
  duration ← match er_duration r with
             | None => Ret None
             | Some s => match py_int s with Some z => Ret (Some z) | None => Raise ValueError end
             end;
  acquire ← to_datetime (er_acquire r);
  renew ← to_datetime (er_renew r);
  Ret (LeaseSpec (er_holder r) duration acquire renew).

Definition record_of (l : lease) : option election_record :=
  s ← spec_of l;
  h ← holder_identity s;
  Some (Record_ (Some h) (pretty <$> lease_duration_seconds s) (to_record_str (acquire_time s))
          (to_record_str (renew_time s))).

Definition get (name namespace : string) : LM (bool * get_result) :=
  r ← except (λ e, match e with
                   | ApiException s => Some (if denied e then raise RuntimeError else mret (inr s))
                   | _ => if is_transport e then Some (mret (inr 503)) else None
                   end)
        (l ← world (read_lease name namespace); mret (inl l));
  match r with
  | inr s => mret (false, Err s)
  | inl l => _ ← set_self (λ _, Some l); mret (true, Rec (record_of l))
  end.

(** The write of [create] and [update], whether it succeeded. *)
Definition attempt (fatal : exn → bool) (m : M W lease) : LM bool :=
  except (λ e, match e with
               | ApiException _ => Some (if fatal e then raise RuntimeError else mret false)
               | _ => if is_transport e then Some (mret false) else None
               end)
    (l ← world m; _ ← set_self (λ _, Some l); mret true).

Definition create (name namespace : string) (r : election_record) : LM bool :=
  spec ← lift (spec_from r);
  attempt denied (create_lease name namespace spec).

(** The spec is assigned before the write, and stays if the write fails. *)
Definition write_lease (name namespace : string) (r : election_record) (l : lease) : LM bool :=
  spec ← lift (spec_from r);
  let l' := Lease (lease_version l) (Some spec) in
  _ ← set_self (λ _, Some l');
  attempt (λ _, false) (replace_lease name namespace l').

Definition update (name namespace : string) (r : election_record) : LM bool :=
  s ← self;
  match s with
  | Some l => write_lease name namespace r l
  | None =>
      '(status, _) ← get name namespace;
      s' ← self;
      match status, s' with
      | true, Some l => write_lease name namespace r l
      | _, _ => mret false
      end
  end.
End lock.

(** ** What the API server promises *)

Class LeaseLaws (W : Type) `{LeaseApi W} (name namespace : string) := {
  server : W → option lease;
  read_current w l w' : read_lease name namespace w = (Ret l, w') → server w = Some l ∧ server w' = server w;
  (** a replace is refused unless it carries the current version *)
  replace_current l w l' w' :
    replace_lease name namespace l w = (Ret l', w') →
    ∃ l0, server w = Some l0 ∧ lease_version l0 = lease_version l ∧ lease_version l0 < lease_version l' ∧
      server w' = Some l' ∧ spec_of l' = spec_of l;
}.

Section exclusive.
Context {W : Type} (name namespace : string) `{LeaseLaws W name namespace}.
Context (to_wall to_instant : Z → Z).

Lemma attempt_true fatal m s (w : W) s' w' :
  attempt fatal m (s, w) = (Ret true, (s', w')) → ∃ l, m w = (Ret l, w') ∧ s' = Some l.
Proof.
  unfold attempt, except, world, set_self, mbind, M_bind. cbn [fst snd].
  destruct (m w) as [[l|e|] w1]; [intros [= <- <-]; eauto| |done].
  destruct e; cbn; try done; case_match; done.
Qed.

Lemma write_lease_true r l s (w : W) s' w' :
  write_lease to_instant name namespace r l (s, w) = (Ret true, (s', w')) →
  ∃ spec l0 l', spec_from to_instant r = Ret spec ∧ server w = Some l0 ∧ lease_version l0 = lease_version l ∧
    server w' = Some l' ∧ spec_of l' = Some spec ∧ lease_version l0 < lease_version l' ∧ s' = Some l'.
Proof.
  unfold write_lease, lift, mbind, M_bind. destruct (spec_from to_instant r) as [spec|e|] eqn:Es; [|done..].
  unfold set_self. cbn [fst snd]. intros (l' & Hr & ->)%attempt_true.
  apply replace_current in Hr as (l0 & Hs & Hv & Hlt & Hs' & Hsp). by exists spec, l0, l'.
Qed.

(** A lease changes hands only by the one that read its latest version: an
    update that succeeds was made on the version the server held, leaves the server
    with the record's holder and a newer version, and a lock that still has an older
    version cannot update, nor can anyone at the version just replaced. *)
Theorem lease_update_exclusive r s (w : W) s' w' :
  update to_wall to_instant name namespace r (s, w) = (Ret true, (s', w')) →
  ∃ l0 l', server w = Some l0 ∧ (∀ l, s = Some l → lease_version l = lease_version l0) ∧
    server w' = Some l' ∧ s' = Some l' ∧ lease_version l0 < lease_version l' ∧
    (∃ spec, spec_of l' = Some spec ∧ holder_identity spec = er_holder r) ∧
    ∀ r2 l2 w2 o s2' w2' l2', lease_version l2 ≤ lease_version l0 →
      server w2 = Some l2' → lease_version l' ≤ lease_version l2' →
      update to_wall to_instant name namespace r2 (Some l2, w2) = (o, (s2', w2')) → o ≠ Ret true.
Proof.
  intros Hu.
  assert (∃ spec l0 l', spec_from to_instant r = Ret spec ∧ server w = Some l0 ∧
    (∀ l, s = Some l → lease_version l = lease_version l0) ∧ server w' = Some l' ∧ spec_of l' = Some spec ∧
    lease_version l0 < lease_version l' ∧ s' = Some l') as (spec & l0 & l' & Hsp & Hs & Hl & Hs' & Hspec & Hlt & ->).
  { revert Hu. unfold update, self, mbind, M_bind. cbn [fst snd]. destruct s as [l|].
    - intros (spec & l0 & l' & Hsp & Hs & Hv & Hs' & Hspec & Hlt & ->)%write_lease_true.
      exists spec, l0, l'. split_and!; try done. by intros l1 [= <-].
    - unfold get, except, world, set_self, mbind, M_bind. cbn [fst snd].
      destruct (read_lease name namespace w) as [[l|e|] w1] eqn:Er; [|intros Hg; exfalso; destruct e; cbn in Hg; try done; by destruct (_ || _)|done].
      cbn. intros (spec & l0 & l' & Hsp & Hs & Hv & Hs' & Hspec & Hlt & ->)%write_lease_true.
      apply read_current in Er as [_ Hw1]. exists spec, l0, l'. rewrite <-Hw1. by split_and!. }
  exists l0, l'. split_and!; [done..| |].
  - exists spec. split; [done|]. unfold spec_from, mbind, outcome_bind in Hsp.
    repeat (case_match; try done); by injection Hsp as <-.
  - intros r2 l2 w2 o s2' w2' l2' Hle Hs2 Hle2 Hu2 ->. revert Hu2.
    unfold update, self, mbind, M_bind. cbn [fst snd].
    intros (? & l3 & ? & _ & Hs3 & Hv3 & _)%write_lease_true. rewrite Hs2 in Hs3. injection Hs3 as <-. lia.
Qed.
End exclusive.

(** ** The lifecycle of a member *)

Record life := Life { loops_started : bool; exit_code : Z; stop : bool; term_capacity_ok : option Z }.

Inductive life_event := OnSignal | OnStartedLeading | OnStoppedLeading | ElectionRaised.

Definition start_loops (s : life) : life :=
  if loops_started s then s else Life true (exit_code s) (stop s) None.

Definition on_event (e : life_event) (s : life) : life :=
  match e with
  | OnSignal => Life (loops_started s) (exit_code s) true (term_capacity_ok s)
  | OnStartedLeading => start_loops s
  | OnStoppedLeading => Life (loops_started s) 1 true (term_capacity_ok s)
  | ElectionRaised => Life (loops_started s) 2 true (term_capacity_ok s)
  end.

Definition new_life : life := Life false 0 false None.

(** [run] up to the point where it waits. *)
Definition run_start (leader_elect : bool) : life := if leader_elect then new_life else start_loops new_life.

(** The states [run] can wait in, with the events so far. With election disabled
    there is no election thread. *)
Inductive running (leader_elect : bool) : list life_event → life → Prop :=
  | running_start : running leader_elect [] (run_start leader_elect)
  | running_event evs e s :
      running leader_elect evs s → (leader_elect = true ∨ e = OnSignal) →
      running leader_elect (evs ++ [e]) (on_event e s).

(** What [run] returns; it wakes up at some time after the stop. *)
Definition run_returns (leader_elect : bool) (evs : list life_event) (code : Z) : Prop :=
  ∃ s, running leader_elect evs s ∧ stop s = true ∧ exit_code s = code.

Definition stops (e : life_event) : bool := match e with OnStartedLeading => false | _ => true end.

Lemma running_inv leader_elect evs s :
  running leader_elect evs s →
  (loops_started s = true ↔ leader_elect = false ∨ OnStartedLeading ∈ evs) ∧
  (stop s = true ↔ ∃ e, e ∈ evs ∧ stops e = true) ∧
  (exit_code s = 0 ↔ ((OnStoppedLeading ∉ evs) ∧ (ElectionRaised ∉ evs))) ∧ 0 ≤ exit_code s ≤ 2.
Proof.
  induction 1 as [|evs e s _ (IHl & IHs & IHc & IHb) He].
  - unfold run_start, start_loops. destruct leader_elect; cbn; setoid_rewrite elem_of_nil; naive_solver lia.
  - setoid_rewrite elem_of_app. setoid_rewrite list_elem_of_singleton.
    destruct e; cbn; [| |split_and!; [naive_solver..|naive_solver lia|lia]..];
      [split_and!; naive_solver|].
    unfold start_loops. destruct (loops_started s) eqn:El; cbn; rewrite ?El; split_and!; naive_solver.
Qed.

(** A member works only as the leader, or with election disabled; it returns only
    after a signal, a lost lease or a failed election, with exit code zero exactly
    when neither of the last two happened before it returned. *)
Theorem run_exit_code leader_elect evs code :
  run_returns leader_elect evs code →
  (∃ e, e ∈ evs ∧ stops e = true) ∧
  (code = 0 ↔ ((OnStoppedLeading ∉ evs) ∧ (ElectionRaised ∉ evs))) ∧ 0 ≤ code ≤ 2 ∧
  ∀ s, running leader_elect evs s → loops_started s = true ↔ leader_elect = false ∨ OnStartedLeading ∈ evs.
Proof.
  intros (s & Hr & Hs & <-). pose proof (running_inv _ _ _ Hr) as (_ & Hstop & Hc & Hb).
  split_and!; [by apply Hstop|done|lia|lia|]. intros s' Hr'. by apply running_inv in Hr' as [? _].
Qed.

(** ** Witnesses *)

Module DemoLease.
(** One lease; the world is what the server holds. *)
Definition sim_replace (l : lease) (w : option lease) : outcome lease * option lease :=
  match w with
  | None => (Raise (ApiException 404), w)
  | Some l0 =>
      if lease_version l0 =? lease_version l then
        let l' := Lease (lease_version l0 + 1) (spec_of l) in (Ret l', Some l')
      else (Raise (ApiException 409), w)
  end.

#[global] Instance api : LeaseApi (option lease) := {|
  read_lease _ _ w := (match w with Some l => Ret l | None => Raise (ApiException 404) end, w);
  create_lease _ _ s w := (Ret (Lease 1 (Some s)), Some (Lease 1 (Some s)));
  replace_lease _ _ l w := sim_replace l w;
|}.

#[global, refine] Instance laws : LeaseLaws (option lease) "lease" "ns" := {| server w := w |}.
Proof.
  - intros w l w'. cbn. destruct w; by intros [= <- <-].
  - intros l w l' w'. cbn. unfold sim_replace. destruct w as [l0|]; [|done].
    destruct (lease_version l0 =? lease_version l) eqn:E; [|done]. intros [= <- <-].
    apply Z.eqb_eq in E. exists l0. cbn. split_and!; [done..|lia|done|done].
Defined.

Definition rec_a : election_record := Record_ (Some "a") (Some "15") (Some "2026-01-01 00:00:00") None.
Definition rec_b : election_record := Record_ (Some "b") (Some "15") None None.
Definition l0 : lease := Lease 5 None.
End DemoLease.

(** Two members read version 5; the first one to write wins. *)
Lemma lease_update_exclusive_witness :
  ∃ l' o s2 w2, update id id "lease" "ns" DemoLease.rec_a (Some DemoLease.l0, Some DemoLease.l0)
         = (Ret true, (Some l', Some l')) ∧
    update id id "lease" "ns" DemoLease.rec_b (Some DemoLease.l0, Some l') = (o, (s2, w2)) ∧ o ≠ Ret true.
Proof.
  eexists _, _, _, _. split; [vm_compute; reflexivity|]. split; [vm_compute; reflexivity|].
  edestruct (lease_update_exclusive "lease" "ns" id id DemoLease.rec_a (Some DemoLease.l0) (Some DemoLease.l0))
    as (l0 & l' & Hs & _ & Hs' & _ & _ & _ & Hno); [vm_compute; reflexivity|].
  injection Hs as <-. injection Hs' as <-.
  eapply (Hno DemoLease.rec_b DemoLease.l0); [done|reflexivity|done|vm_compute; reflexivity].
Defined.

Lemma run_exit_code_witness :
  run_returns true [OnStartedLeading; OnStoppedLeading] 1 ∧
  ∃ e, e ∈ [OnStartedLeading; OnStoppedLeading] ∧ stops e = true.
Proof.
  assert (run_returns true [OnStartedLeading; OnStoppedLeading] 1) as H.
  { exists (on_event OnStoppedLeading (on_event OnStartedLeading (run_start true))). split; [|by split].
    apply (running_event true [OnStartedLeading] OnStoppedLeading); [|by left].
    apply (running_event true [] OnStartedLeading); [|by left]. apply running_start. }
  split; [exact H|]. apply (run_exit_code _ _ _ H).
Defined.
