(* ===== verification/Snapshots.v ===== *)
(** Pod snapshots: models [utils.py] and [snapshot_engine.py] of
    [src/clients/python/agentic-sandbox-client/k8s_agent_sandbox/gke_extensions/snapshots].

    The engine belongs to one handle: its state is the list of the triggers it
    created, next to the handle ([snap]). Of an error message only the fixed first
    part is kept. Log lines and metrics are left out. *)

From Stdlib Require Import Ascii String ZArith QArith.
From stdpp Require Import base option list strings sets gmap pretty.
From S2P Require Import Prelude Float Json IpAddress PyText Models Utils PyList World K8sHelper Http Tunnel Connector Sandbox SandboxClient DateTime.

#[local] Open Scope Z_scope.

Definition PODSNAPSHOT : resource := Resource "podsnapshot.gke.io" "v1" "podsnapshots".
Definition TRIGGER : resource := Resource "podsnapshot.gke.io" "v1" "podsnapshotmanualtriggers".
Definition PODSNAPSHOT_POD_NAME_ANNOTATION : string := "podsnapshot.gke.io/origin-pod".
Definition PODSNAPSHOT_NAME_ANNOTATION : string := "podsnapshot.gke.io/ps-name".
Definition SANDBOX_NAME_HASH_LABEL : string := "agents.x-k8s.io/sandbox-name-hash".
Definition SNAPSHOT_SUCCESS_CODE : Z := 0.
Definition SNAPSHOT_ERROR_CODE : Z := 1.

(** A pod as the typed client returns it; no status and no conditions are the
    empty list. *)
Record pod_condition := PodCondition {
  pc_type : string;
  pc_status : string;
  pc_reason : option string;
  pc_message : option string;
}.
Record pod_view := PodView {
  pv_uid : option string;
  pv_deleting : bool;
  pv_conditions : list pod_condition;
}.

Class Pods (W : Type) := { read_pod : json → string → M W pod_view }.

(** ** Completion of a trigger *)

Record SnapshotResult := SnapshotInfo { si_uid : string; si_timestamp : string }.

Definition field (c : list (string * json)) (k s : string) : bool := is_str (default JNull (dget k c)) s.

Fixpoint snapshot_conditions (status : json) (conds : list json) : outcome SnapshotResult :=
  match conds with
  | [] => Raise ValueError
  | JObj c :: conds' =>
      if field c "type" "Triggered" && field c "status" "True" && field c "reason" "Complete" then
        sc ← py_get status "snapshotCreated";
        uid ← py_get (py_or sc (JObj [])) "name";
        match uid, default JNull (dget "lastTransitionTime" c) with
        | JStr u, JStr t => Ret (SnapshotInfo u t)
        | _, _ => Raise ValueError
        end
      else if field c "type" "Triggered" && field c "status" "False"
              && (field c "reason" "Failed" || field c "reason" "Error")
      then Raise RuntimeError
      else snapshot_conditions status conds'
  | _ :: _ => Raise AttributeError
  end.

Definition get_snapshot_info (obj : json) : outcome SnapshotResult :=
  status ← py_get_def obj "status" (JObj []);
  cs ← py_get status "conditions";
  conds ← py_iter (py_or cs (JList []));
  snapshot_conditions status conds.

Definition completed_event (st : ()) (event : json) : outcome (() * option SnapshotResult) :=
  if is_none event then Ret ((), None)
  else
    type ← py_index event "type";
    if is_added_or_modified type then
      obj ← py_index event "object";
      match get_snapshot_info obj with
      | Ret r => Ret ((), Some r)
      | Raise e => if decide (e = ValueError) then Ret ((), None) else Raise e
      | NoFuel => NoFuel
      end
    else if is_str type "ERROR" || is_str type "DELETED" then Raise RuntimeError
    else Ret ((), None).

(** [resource_version] is passed on when it is not empty. *)
Definition version_arg (rv : json) : json := if truthy rv then rv else JNull.

Section waits.
Context {W : Type} `{Clock W} `{WallClock W} `{K8sApi W} `{Pods W}.

(** One watch to its end: the result, or what is raised when there is none. *)
Definition watch_once {R} (on_event : () → json → outcome (() * option R)) (req : watch_req)
    (at_end : outcome R) : M W R := λ w,
  match consume on_event () (watch_stream req w) with
  | (Ret (Some r), (_, w')) => (Ret r, w')
  | (Ret None, (_, w')) => (at_end, w')
  | (Raise e, (_, w')) => (Raise e, w')
  | (NoFuel, (_, w')) => (NoFuel, w')
  end.

Definition wait_for_snapshot_to_be_completed (namespace trigger_name : string) (timeout : Z) (rv : json)
    : M W SnapshotResult :=
  watch_once completed_event
    (WatchReq TRIGGER namespace ("metadata.name=" +:+ trigger_name) (version_arg rv) timeout)
    (Raise TimeoutError).

(** ** Restore check *)

Record RestoreCheckResult := RestoreCheck { rk_success : bool; rk_reason : string; rk_code : Z }.

Definition mentions (uid : string) (message : option string) : bool :=
  match message with Some (String _ _ as m) => contains uid m | _ => false end.

Fixpoint restored_condition (uid : string) (conds : list pod_condition) : RestoreCheckResult :=
  match conds with
  | [] => RestoreCheck false "Pod was started as a fresh instance" SNAPSHOT_ERROR_CODE
  | c :: conds' =>
      if decide (pc_type c = "PodRestored") then
        if decide (pc_status c = "True") then
          if mentions uid (pc_message c) then RestoreCheck true "" SNAPSHOT_SUCCESS_CODE
          else RestoreCheck false "Pod was not restored from the given snapshot" SNAPSHOT_ERROR_CODE
        else RestoreCheck false "Restore attempted but pending or failed" SNAPSHOT_ERROR_CODE
      else restored_condition uid conds'
  end.

Definition check_pod_restored_from_snapshot (namespace : string) (pod_name : json) (uid : string)
    : M W RestoreCheckResult :=
  except (λ e, Some (mret (match e with
                           | ApiException _ => RestoreCheck false "Failed to check pod restore status" SNAPSHOT_ERROR_CODE
                           | _ => RestoreCheck false "Unexpected error" SNAPSHOT_ERROR_CODE
                           end)))
    (pod ← read_pod pod_name namespace;
     mret (match pv_conditions pod with
           | [] => RestoreCheck false "Pod status or conditions not found." SNAPSHOT_ERROR_CODE
           | conds => restored_condition uid conds
           end)).

(** ** Deletion *)

Definition deleted_event (st : ()) (event : json) : outcome (() * option bool) :=
  type ← py_index event "type";
  if is_str type "DELETED" then Ret ((), Some true)
  else if is_str type "ERROR" then Raise RuntimeError
  else Ret ((), None).

Definition wait_for_snapshot_deletion (namespace uid : string) (timeout : Z) (rv : json) : M W bool :=
  gone ← except (λ e, if decide (e = ApiException 404) then Some (mret true) else None)
           (_ ← get_object PODSNAPSHOT namespace uid; mret false);
  if gone : bool then mret true
  else watch_once deleted_event
         (WatchReq PODSNAPSHOT namespace ("metadata.name=" +:+ uid) (version_arg rv) timeout) (Ret false).

End waits.

(** ** Polling *)

Section polls.
Context {W : Type} `{Clock W} `{WallClock W} `{K8sApi W} `{Host W} `{Net W} `{Pods W}.

Abbreviation HM := (M (handle * W)).

(** [while time.time() - start_time < timeout]: a check that may end the loop, then
    a pause of two seconds. *)
Fixpoint poll_from (fuel : nat) (start : pyfloat) (timeout : Z) (check : HM bool) : HM bool :=
  match fuel with
  | O => no_fuel
  | S fuel' =>
      now ← world time_time;
      if flt (fsub now start) (PFin (inject_Z timeout)) then
        ok ← check;
        if ok : bool then mret true
        else _ ← world (time_sleep (PFin 2)); poll_from fuel' start timeout check
      else mret false
  end.

Definition poll (fuel : nat) (timeout : Z) (check : HM bool) : HM bool :=
  start ← world time_time; poll_from fuel start timeout check.

Definition pod_terminated (namespace : string) (pod_name : json) (pod_uid : string) : HM bool :=
  except (λ e, match e with ApiException s => Some (mret (s =? 404)) | _ => None end)
    (pod ← world (read_pod pod_name namespace);
     mret (negb (bool_decide (pv_uid pod = Some pod_uid)))).

Definition wait_for_pod_termination (fuel : nat) (namespace : string) (pod_name : json) (pod_uid : string)
    (timeout : Z) : HM bool :=
  poll fuel timeout (pod_terminated namespace pod_name pod_uid).

Definition is_ready_condition (c : pod_condition) : bool :=
  bool_decide (pc_type c = "Ready") && bool_decide (pc_status c = "True").

Definition pod_ready (namespace : string) : HM bool :=
  pod_name ← get_pod_name;
  if truthy pod_name then
    except (λ e, match e with ApiException _ => Some (mret false) | _ => None end)
      (pod ← world (read_pod pod_name namespace);
       mret (negb (pv_deleting pod) && existsb is_ready_condition (pv_conditions pod)))
  else mret false.

Definition wait_for_pod_ready (fuel : nat) (namespace : string) (timeout : Z) : HM bool :=
  poll fuel timeout (pod_ready namespace).

(** [o.get(k, {}) or {}] *)
Definition get_dict (o : json) (k : string) : outcome json :=
  v ← py_get_def o k (JObj []); Ret (py_or v (JObj [])).

(** The annotation of the pod template, in the sandbox object *)
Definition propagated_uid (obj : json) : outcome json :=
  spec ← get_dict obj "spec";
  tmpl ← get_dict spec "podTemplate";
  meta ← get_dict tmpl "metadata";
  ann ← get_dict meta "annotations";
  py_get ann PODSNAPSHOT_NAME_ANNOTATION.

Definition json_opt (o : option string) : json := match o with Some s => JStr s | None => JNull end.

Definition propagated (namespace sandbox_id : string) (uid : option string) : HM bool :=
  except (λ _, Some (mret false))
    (o ← world (get_sandbox sandbox_id namespace);
     match o with
     | Some obj => if truthy obj then v ← lift (propagated_uid obj); mret (json_eqb v (json_opt uid)) else mret false
     | None => mret false
     end).

Definition wait_for_sandbox_propagation (fuel : nat) (namespace sandbox_id : string) (uid : option string) : HM bool :=
  poll fuel 30 (propagated namespace sandbox_id uid).
End polls.

(** ** Dates *)

(** A date given as an argument. *)
Inductive date_arg := DateNone | DateText (s : string) | DateTime_ (d : datetime).

(** [normalize_datetime]: the instant; a naive date is taken as UTC *)
Definition normalize_datetime (v : date_arg) : outcome (option Z) :=
  match v with
  | DateNone => Ret None
  | DateText s => d ← fromisoformat (replace "Z" "+00:00" s); Ret (Some (instant d))
  | DateTime_ d => Ret (Some (instant d))
  end.

(** The same of a value of an object *)
Definition normalize_json (v : json) : outcome (option Z) :=
  match v with
  | JNull => Ret None
  | JStr s => normalize_datetime (DateText s)
  | _ => Raise TypeError
  end.

(** ** The engine *)

Record SnapshotResponse := SnapResponse {
  sn_success : bool;
  sn_trigger_name : string;
  sn_uid : option string;
  sn_timestamp : option string;
  sn_reason : string;
  sn_code : Z;
}.

Record SnapshotDetail := SnapDetail {
  sd_uid : string;
  sd_source_pod : string;
  sd_created : option string;
  sd_status : string;
}.

Record ListSnapshotResult := ListResult {
  ls_success : bool;
  ls_snapshots : list SnapshotDetail;
  ls_reason : string;
  ls_code : Z;
}.

Record DeleteSnapshotResult := DeleteResult {
  dl_success : bool;
  dl_deleted : list string;
  dl_reason : string;
  dl_code : Z;
}.

(** The dates are instants. *)
Record SnapshotFilter := SnapFilter { sf_ready_only : bool; sf_after : option Z; sf_before : option Z }.

(** The [filter_by] argument: nothing, a filter, or the arguments of one. *)
Inductive filter_arg :=
  | NoFilter
  | Filter (f : SnapshotFilter)
  | FilterArgs (ready_only : bool) (created_after created_before : date_arg).

(** A date that cannot be read is a [ValidationError], a [ValueError]. *)
Definition make_filter (f : filter_arg) : outcome SnapshotFilter :=
  match f with
  | NoFilter => Ret (SnapFilter true None None)
  | Filter f => Ret f
  | FilterArgs ready_only after before =>
      a ← normalize_datetime after; b ← normalize_datetime before; Ret (SnapFilter ready_only a b)
  end.

(** ** Names of triggers *)

(** [strftime("%Y%m%d-%H%M%S")] *)
Definition compact_time (us : Z) : string :=
  (let secs := us / 1000000 in
   let '(y, m, d) := civil_of_days (secs / 86400) in
   let t := secs mod 86400 in
   pad 4 y +:+ pad 2 m +:+ pad 2 d +:+ "-" +:+ pad 2 (t / 3600) +:+ pad 2 (t / 60 mod 60) +:+ pad 2 (t mod 60))%Z.

Definition is_dash (c : ascii) : bool := bool_decide (c = "-"%char).

Definition safe_trigger_name (trigger_name : string) : string :=
  let dashed := (λ c, if decide (c = "_"%char) then "-"%char else c) <$> explode (lower trigger_name) in
  let s := implode (rstrip_chars is_dash (lstrip_chars is_dash (take 38 dashed))) in
  if decide (s = EmptyString) then "snap" else s.

Definition full_trigger_name (trigger_name : string) (us : Z) (hex : string) : string :=
  safe_trigger_name trigger_name +:+ "-" +:+ compact_time us +:+ "-" +:+ implode (take 8 (explode hex)).

Definition trigger_manifest (name namespace : string) (pod_name : json) : json :=
  JObj [("apiVersion", JStr "podsnapshot.gke.io/v1"); ("kind", JStr "PodSnapshotManualTrigger");
        ("metadata", JObj [("name", JStr name); ("namespace", JStr namespace)]);
        ("spec", JObj [("targetPod", pod_name)])].

(** ** Items of a list *)

Fixpoint any_ready (conds : list json) : outcome bool :=
  match conds with
  | [] => Ret false
  | cond :: conds' =>
      type ← py_get cond "type";
      if is_str type "Ready" then
        status ← py_get cond "status";
        if is_str status "True" then Ret true else any_ready conds'
      else any_ready conds'
  end.

(** The instant of [creationTimestamp], if it can be read *)
Definition creation_time (created : json) : outcome (option Z) :=
  if truthy created then
    match normalize_json created with
    | Raise ValueError | Raise TypeError => Ret None
    | o => o
    end
  else Ret None.

Definition in_period (f : SnapshotFilter) (t : option Z) : bool :=
  match sf_after f with
  | Some a => match t with Some t => a <=? t | None => false end
  | None => true
  end &&
  match sf_before f with
  | Some b => match t with Some t => t <=? b | None => false end
  | None => true
  end.

(** [SnapshotDetail(...)]; [None] for a malformed one *)
Definition snapshot_detail (name source created : json) (is_ready : bool) : option SnapshotDetail :=
  let status := if is_ready then "Ready" else "NotReady" in
  match name, source, created with
  | JStr n, JStr p, JStr t => Some (SnapDetail n p (Some t) status)
  | JStr n, JStr p, JNull => Some (SnapDetail n p None status)
  | _, _, _ => None
  end.

(** One turn of the loop: the snapshot kept, if it is *)
Definition list_item (f : SnapshotFilter) (snapshot : json) : outcome (option SnapshotDetail) :=
  status ← py_get snapshot "status";
  conditions ← py_get (py_or status (JObj [])) "conditions";
  metadata ← py_get snapshot "metadata";
  let metadata := py_or metadata (JObj []) in
  conds ← py_iter (py_or conditions (JList []));
  is_ready ← any_ready conds;
  if sf_ready_only f && negb is_ready then Ret None
  else
    created ← py_get metadata "creationTimestamp";
    t ← creation_time created;
    if negb (in_period f t) then Ret None
    else
      name ← py_get metadata "name";
      if negb (truthy name) then Ret None
      else
        annotations ← py_get_def metadata "annotations" (JObj []);
        source ← py_get_def annotations PODSNAPSHOT_POD_NAME_ANNOTATION (JStr "Unknown");
        Ret (snapshot_detail name source created is_ready).

Fixpoint list_items (f : SnapshotFilter) (items : list json) : outcome (list SnapshotDetail) :=
  match items with
  | [] => Ret []
  | snapshot :: items' =>
      d ← list_item f snapshot;
      rest ← list_items f items';
      Ret (match d with Some d => d :: rest | None => rest end)
  end.

Definition created_key (d : SnapshotDetail) : string := default EmptyString (sd_created d).
Definition older (a b : SnapshotDetail) : bool := str_lt (created_key a) (created_key b).

Definition list_failure (reason : string) : ListSnapshotResult := ListResult false [] reason SNAPSHOT_ERROR_CODE.
Definition delete_failure (deleted : list string) (reason : string) : DeleteSnapshotResult :=
  DeleteResult false deleted reason SNAPSHOT_ERROR_CODE.
Definition delete_success (deleted : list string) : DeleteSnapshotResult :=
  DeleteResult true deleted EmptyString SNAPSHOT_SUCCESS_CODE.

(** What became of the deletion of one snapshot *)
Inductive deletion := Deleted | Absent | NotDeleted (msg : string).

(** The uids deleted and the messages of the others, in the order of the loop *)
Definition deleted_of (rs : list (string * deletion)) : list string :=
  omap (λ p, match p.2 with Deleted => Some p.1 | _ => None end) rs.
Definition errors_of (rs : list (string * deletion)) : list string :=
  omap (λ p, match p.2 with NotDeleted msg => Some msg | _ => None end) rs.

Definition deletion_result (rs : list (string * deletion)) : DeleteSnapshotResult :=
  let deleted := deleted_of rs in
  match errors_of rs with
  | [] => delete_success deleted
  | errors =>
      let msg := join "; " errors in
      delete_failure deleted
        (match deleted with
         | [] => msg
         | _ => "Partial failure: deleted " +:+ pretty (length deleted) +:+ "/" +:+ pretty (length rs)
                +:+ " snapshots. Errors: " +:+ msg
         end)
  end.

(** ** The engine

    The state of a sandbox with its engine: the handle and [created_manual_triggers];
    [None] once the engine is dropped. *)
Record snap := Snap { sp_handle : handle; sp_triggers : option (list string) }.

Definition with_handle (h : handle) (s : snap) : snap := Snap h (sp_triggers s).
Definition with_triggers (ts : option (list string)) (s : snap) : snap := Snap (sp_handle s) ts.

Section engine.
Context {W : Type} `{Clock W} `{WallClock W} `{K8sApi W} `{Host W} `{Net W} `{Pods W} `{Uuid W}.

Abbreviation SM := (M (snap * W)).

(** Run a method of the handle. *)
Definition on_sandbox {A} (m : M (handle * W) A) : SM A := λ s,
  match m (sp_handle s.1, s.2) with (r, (h, w)) => (r, (with_handle h s.1, w)) end.

Definition snapshot_failed (trigger_name reason : string) : SnapshotResponse :=
  SnapResponse false trigger_name None None reason SNAPSHOT_ERROR_CODE.

(** The second [try] of [create] *)
Definition await_snapshot (namespace trigger_name : string) (timeout : Z) (created : json) : M W SnapshotResponse :=
  except (λ e, Some (mret (snapshot_failed trigger_name
                             (match e with
                              | TimeoutError => "Snapshot creation timed out"
                              | RuntimeError => "Snapshot creation failed"
                              | _ => "Server error"
                              end))))
    (metadata ← lift (py_get_def created "metadata" (JObj []));
     rv ← lift (py_get metadata "resourceVersion");
     r ← wait_for_snapshot_to_be_completed namespace trigger_name timeout rv;
     mret (SnapResponse true trigger_name (Some (si_uid r)) (Some (si_timestamp r)) EmptyString SNAPSHOT_SUCCESS_CODE)).

Definition create (trigger_name : string) (podsnapshot_timeout : Z) : SM SnapshotResponse :=
  us ← world read_utc_us;
  hex ← world uuid4_hex;
  let trigger_name := full_trigger_name trigger_name us hex in
  s ← self;
  let namespace := h_namespace (sp_handle s) in
  pod_name ← on_sandbox get_pod_name;
  cr ← except (λ e, match e with ApiException _ => Some (mret None) | _ => None end)
         (cr ← world (create_object TRIGGER namespace (trigger_manifest trigger_name namespace pod_name));
          _ ← set_self (λ s, with_triggers ((λ ts, ts ++ [trigger_name]) <$> sp_triggers s) s);
          mret (Some cr));
  match cr with
  | None => mret (snapshot_failed trigger_name "Failed to create PodSnapshotManualTrigger")
  | Some cr => world (await_snapshot namespace trigger_name podsnapshot_timeout cr)
  end.

(** One attempt over a batch: the triggers that remain *)
Fixpoint delete_batch (namespace : string) (batch : list string) : M W (list string) :=
  match batch with
  | [] => mret []
  | t :: batch' =>
      gone ← except (λ e, Some (mret (bool_decide (e = ApiException 404))))
               (_ ← delete_object TRIGGER namespace t None; mret true);
      rest ← delete_batch namespace batch';
      mret (if gone : bool then rest else t :: rest)
  end.

(** The attempts left, [attempts] = [max_retries + 1 - attempt] *)
Fixpoint delete_attempts (namespace : string) (attempts : nat) (remaining : list string) : M W (list string) :=
  match attempts, remaining with
  | O, _ | _, [] => mret remaining
  | S attempts', _ =>
      remaining ← delete_batch namespace remaining;
      _ ← match remaining, attempts' with
          | _ :: _, S _ => time_sleep (PFin 1)
          | _, _ => mret ()
          end;
      delete_attempts namespace attempts' remaining
  end.

(** On the list of the triggers created *)
Definition delete_manual_triggers (namespace : string) (max_retries : nat) : M (list string * W) () :=
  triggers ← self;
  remaining ← world (delete_attempts namespace max_retries triggers);
  set_self (λ _, remaining).

Definition list_filtered (f : SnapshotFilter) : SM ListSnapshotResult :=
  pod_name ← on_sandbox get_pod_name;
  if negb (truthy pod_name) then mret (list_failure "Pod name not found.")
  else
    hash ← on_sandbox get_sandbox_name_hash;
    match hash with
    | Some (String _ _ as x) =>
        s ← self;
        except (λ e, Some (mret (list_failure (match e with
                                               | ApiException _ => "Failed to list PodSnapshots"
                                               | _ => "Unexpected error"
                                               end))))
          (response ← world (list_objects PODSNAPSHOT (h_namespace (sp_handle s))
                               (Some (SANDBOX_NAME_HASH_LABEL +:+ "=" +:+ x)));
           items ← lift (py_get response "items");
           items ← lift (py_iter (py_or items (JList [])));
           ds ← lift (list_items f items);
           mret (ListResult true (sorted_reverse older ds) EmptyString SNAPSHOT_SUCCESS_CODE))
    | _ => mret (list_failure "Sandbox name hash not found.")
    end.

Definition list_snapshots (filter_by : filter_arg) : SM ListSnapshotResult :=
  match make_filter filter_by with
  | Ret f => list_filtered f
  | _ => mret (list_failure "Invalid filter parameters")
  end.

(** The body of the loop of [_execute_deletion] *)
Definition delete_one (namespace uid : string) (timeout : Z) : M W deletion :=
  except (λ e, Some (mret (match e with
                           | ApiException s =>
                               if s =? 404 then Absent
                               else NotDeleted ("Failed to delete PodSnapshot '" +:+ uid +:+ "'")
                           | _ => NotDeleted ("Unexpected error deleting PodSnapshot '" +:+ uid +:+ "'")
                           end)))
    (resp ← delete_object PODSNAPSHOT namespace uid None;
     rv ← (match resp with
           | JObj _ => metadata ← lift (py_get_def resp "metadata" (JObj [])); lift (py_get metadata "resourceVersion")
           | _ => mret JNull
           end);
     gone ← wait_for_snapshot_deletion namespace uid timeout rv;
     mret (if gone : bool then Deleted
           else NotDeleted ("Timed out waiting for confirmation of deletion for snapshot '" +:+ uid +:+ "'"))).

Fixpoint delete_each (namespace : string) (timeout : Z) (uids : list string) : M W (list (string * deletion)) :=
  match uids with
  | [] => mret []
  | uid :: uids' =>
      d ← delete_one namespace uid timeout;
      rest ← delete_each namespace timeout uids';
      mret ((uid, d) :: rest)
  end.

Definition delete_uids (timeout : Z) (uids : list string) : SM DeleteSnapshotResult :=
  match uids with
  | [] => mret (delete_success [])
  | _ => s ← self; rs ← world (delete_each (h_namespace (sp_handle s)) timeout uids); mret (deletion_result rs)
  end.

Definition execute_deletion (snapshot_uid : string) (is_global : bool) (created_after created_before : date_arg)
    (timeout : Z) : SM DeleteSnapshotResult :=
  if negb (bool_decide (snapshot_uid = EmptyString)) then delete_uids timeout [snapshot_uid]
  else if is_global then
    r ← list_snapshots (FilterArgs false created_after created_before);
    if ls_success r then delete_uids timeout (sd_uid <$> ls_snapshots r)
    else mret (delete_failure [] ("Failed to list snapshots before deletion: " +:+ ls_reason r))
  else delete_uids timeout [].

Definition delete (snapshot_uid : string) (timeout : Z) : SM DeleteSnapshotResult :=
  execute_deletion snapshot_uid false DateNone DateNone timeout.

Definition delete_all (delete_by : string) (timestamp : date_arg) (timeout : Z) : SM DeleteSnapshotResult :=
  if decide (delete_by = "all") then execute_deletion EmptyString true DateNone DateNone timeout
  else if decide (delete_by = "created_after") then
    match timestamp with
    | DateNone => raise ValueError
    | _ => execute_deletion EmptyString true timestamp DateNone timeout
    end
  else if decide (delete_by = "created_before") then
    match timestamp with
    | DateNone => raise ValueError
    | _ => execute_deletion EmptyString true DateNone timestamp timeout
    end
  else raise ValueError.
End engine.
