(* ===== verification/SnapshotSandbox.v ===== *)
(** A sandbox that can be suspended and restored from a snapshot: models
    [sandbox_with_snapshot_support.py] and [podsnapshot_client.py] of
    [src/clients/python/agentic-sandbox-client/k8s_agent_sandbox/gke_extensions/snapshots].
    Log lines and latency metrics are left out; of an error message only the fixed
    first part is kept. *)

From Stdlib Require Import Ascii String ZArith QArith.
From stdpp Require Import base option list strings sets gmap pretty.
From S2P Require Import Prelude Float Json IpAddress PyText Models Utils World K8sHelper Http Tunnel Connector Sandbox SandboxClient Snapshots.

#[local] Open Scope Z_scope.

Definition SUCCESS_CODE : Z := 0.
Definition ERROR_CODE : Z := 1.
Definition INTERNAL_ERROR_CODE : Z := 2.
Definition OPERATING_MODE_RUNNING : string := "Running".
Definition OPERATING_MODE_SUSPENDED : string := "Suspended".

Record SuspendResponse := Suspend {
  su_success : bool;
  su_snapshot : option SnapshotResponse;
  su_reason : string;
  su_code : Z;
}.

(** [ResumeResponse] and [RestorationResponse], which have the same fields *)
Record RestorationResponse := Restoration {
  rt_success : bool;
  rt_restored : bool;
  rt_uid : option string;
  rt_reason : string;
  rt_code : Z;
}.

(** [spec.operatingMode] of a sandbox object; [status] is read for a log line. *)
Definition suspended_mode (sandbox_cr : json) : outcome bool :=
  spec ← py_get_def sandbox_cr "spec" (JObj []);
  mode ← py_get_def spec "operatingMode" (JStr OPERATING_MODE_RUNNING);
  status ← py_get_def sandbox_cr "status" (JObj []);
  _ ← py_get status "podIPs";
  Ret (is_str mode OPERATING_MODE_SUSPENDED).

(** The patch of the claim that names the snapshot to restore from *)
Definition restore_annotation (uid : json) : json :=
  JObj [("spec", JObj [("additionalPodMetadata",
    JObj [("annotations", JObj [(PODSNAPSHOT_NAME_ANNOTATION, uid)])])])].

Section sandbox.
Context {W : Type} `{Clock W} `{WallClock W} `{K8sApi W} `{Host W} `{Net W} `{Pods W} `{Uuid W}.
(** The bound on the turns of a polling loop *)
Context (fuel : nat).

Abbreviation SM := (M (snap * W)).

Definition snap_is_active (s : snap) : bool :=
  is_active (sp_handle s) && bool_decide (is_Some (sp_triggers s)).

Definition is_restored_from_snapshot (uid : string) : SM RestoreCheckResult :=
  if decide (uid = EmptyString) then mret (RestoreCheck false "Snapshot UID cannot be empty." ERROR_CODE)
  else
    pod_name ← on_sandbox get_pod_name;
    if negb (truthy pod_name)
    then mret (RestoreCheck false "Pod name not found. Ensure sandbox is created." ERROR_CODE)
    else
      s ← self;
      world (check_pod_restored_from_snapshot (h_namespace (sp_handle s)) pod_name uid).

Definition is_suspended : SM bool :=
  s ← self;
  except (λ _, Some (mret false))
    (cr ← world (get_object SANDBOX (h_namespace (sp_handle s)) (h_sandbox_id (sp_handle s)));
     lift (suspended_mode cr)).

Definition set_operating_mode (mode : string) : SM () :=
  s ← self;
  _ ← world (patch_object SANDBOX (h_namespace (sp_handle s)) (h_sandbox_id (sp_handle s))
               (JObj [("spec", JObj [("operatingMode", JStr mode)])]));
  mret ().

(** Whether the mode could be set *)
Definition try_set_mode (mode : string) : SM bool :=
  except (λ _, Some (mret false)) (_ ← set_operating_mode mode; mret true).

Definition get_latest_snapshot_uid : SM (option string) :=
  s ← self;
  match sp_triggers s with
  | None => mret None
  | Some _ =>
      r ← list_snapshots NoFilter;
      if negb (ls_success r) then raise RuntimeError
      else mret (match ls_snapshots r with d :: _ => Some (sd_uid d) | [] => None end)
  end.

(** [self.connector.close()], whose failure is logged, and the pod name forgotten *)
Definition drop_connection : SM () :=
  _ ← except (λ _, Some (mret ())) (on_sandbox (on_conn conn_close));
  on_sandbox (set_self (with_pod_name None)).

(** The name hash is read, so that it is cached before the pod goes. *)
Definition require_name_hash : SM bool :=
  except (λ _, Some (mret false))
    (hash ← on_sandbox get_sandbox_name_hash; mret (truthy_str_opt hash)).

(** The snapshot taken before: [None] when none is asked for *)
Definition snapshot_first (snapshot_before_suspend : bool) : SM (option SnapshotResponse) :=
  s ← self;
  if snapshot_before_suspend && bool_decide (is_Some (sp_triggers s)) then
    r ← create ("suspend-" +:+ h_sandbox_id (sp_handle s)) 180; mret (Some r)
  else mret None.

(** The uid of the pod to wait for *)
Definition pod_uid_of (pod_name : json) : SM (option string) :=
  if truthy pod_name then
    s ← self;
    except (λ e, match e with ApiException _ => Some (mret None) | _ => None end)
      (pod ← world (read_pod pod_name (h_namespace (sp_handle s))); mret (pv_uid pod))
  else mret None.

(** [suspend] from the patch on *)
Definition suspend_pod (snapshot_response : option SnapshotResponse) (wait_timeout : Z) : SM SuspendResponse :=
  pod_name ← on_sandbox get_pod_name;
  pod_uid ← pod_uid_of pod_name;
  patched ← try_set_mode OPERATING_MODE_SUSPENDED;
  if negb patched then mret (Suspend false snapshot_response "Failed to patch operatingMode" ERROR_CODE)
  else
    _ ← drop_connection;
    s ← self;
    match pod_uid with
    | Some (String _ _ as uid) =>
        gone ← on_sandbox (wait_for_pod_termination fuel (h_namespace (sp_handle s)) pod_name uid wait_timeout);
        mret (if gone : bool then Suspend true snapshot_response EmptyString SUCCESS_CODE
              else Suspend false snapshot_response "Timed out waiting for pod to terminate." ERROR_CODE)
    | _ => mret (Suspend true snapshot_response EmptyString SUCCESS_CODE)
    end.

Definition suspend (snapshot_before_suspend : bool) (wait_timeout : Z) : SM SuspendResponse :=
  suspended ← is_suspended;
  if suspended : bool then mret (Suspend true None EmptyString SUCCESS_CODE)
  else
    hash ← require_name_hash;
    if negb hash then mret (Suspend false None "Failed to resolve sandbox name hash" ERROR_CODE)
    else
      response ← snapshot_first snapshot_before_suspend;
      match response with
      | Some r =>
          if sn_success r then suspend_pod response wait_timeout
          else mret (Suspend false response ("Snapshot failed: " +:+ sn_reason r) ERROR_CODE)
      | None => suspend_pod response wait_timeout
      end.

Definition restore_internal (target : option string) (wait_timeout : Z) : SM RestorationResponse :=
  _ ← drop_connection;
  patched ← try_set_mode OPERATING_MODE_RUNNING;
  if negb patched then mret (Restoration false false None "Failed to patch operatingMode" ERROR_CODE)
  else
    s ← self;
    ready ← on_sandbox (wait_for_pod_ready fuel (h_namespace (sp_handle s)) wait_timeout);
    if ready : bool then
      match target with
      | Some (String _ _ as uid) =>
          c ← is_restored_from_snapshot uid;
          mret (if rk_success c then Restoration true true target EmptyString SUCCESS_CODE
                else Restoration false false target
                       ("Pod ready but not restored from snapshot: " +:+ rk_reason c) ERROR_CODE)
      | _ => mret (Restoration true false None EmptyString SUCCESS_CODE)
      end
    else mret (Restoration false false target "Timed out waiting for pod to become ready." ERROR_CODE).

(** [self.k8s_helper.patch_sandbox_claim(claim_name, ...)] *)
Definition patch_claim (body : json) : SM () :=
  s ← self;
  match h_claim_name (sp_handle s) with
  | Some (String _ _ as claim_name) =>
      _ ← world (patch_sandbox_claim claim_name (h_namespace (sp_handle s)) body); mret ()
  | _ => raise RuntimeError
  end.

Definition await_propagation (uid : option string) : SM bool :=
  s ← self;
  on_sandbox (wait_for_sandbox_propagation fuel (h_namespace (sp_handle s)) (h_sandbox_id (sp_handle s)) uid).

Definition resume (wait_timeout : Z) : SM RestorationResponse :=
  suspended ← is_suspended;
  if negb suspended then mret (Restoration true false None EmptyString SUCCESS_CODE)
  else
    latest ← except (λ _, Some (mret None)) (uid ← get_latest_snapshot_uid; mret (Some uid));
    match latest with
    | None => mret (Restoration false false None "Failed to get latest snapshot UID" ERROR_CODE)
    | Some latest =>
        cleaned ← except (λ _, Some (mret false)) (_ ← patch_claim (restore_annotation JNull); mret true);
        if negb cleaned
        then mret (Restoration false false None "Failed to clean up restore annotation before resuming" ERROR_CODE)
        else
          ok ← await_propagation None;
          if negb ok
          then mret (Restoration false false None
                       "Internal Error: Timed out waiting for restore annotation cleanup." INTERNAL_ERROR_CODE)
          else restore_internal latest wait_timeout
    end.

Definition verify_snapshot_exists (uid : string) : SM () :=
  s ← self;
  match sp_triggers s with
  | None => raise RuntimeError
  | Some _ =>
      r ← list_snapshots NoFilter;
      if negb (ls_success r) then raise RuntimeError
      else if existsb (λ d, bool_decide (sd_uid d = uid)) (ls_snapshots r) then mret ()
      else raise SnapshotNotFoundError
  end.

Definition restore (uid : string) (sandbox_ready_timeout : Z) : SM RestorationResponse :=
  except (λ e, Some (mret (Restoration false false (Some uid)
                             (match e with
                              | SnapshotNotFoundError => "Snapshot '" +:+ uid +:+ "' does not exist for this sandbox."
                              | _ => "Unexpected error"
                              end) ERROR_CODE)))
    (_ ← verify_snapshot_exists uid;
     suspended ← is_suspended;
     if negb suspended
     then mret (Restoration false false (Some uid) "Sandbox is currently running and cannot be restored." ERROR_CODE)
     else
       _ ← patch_claim (restore_annotation (JStr uid));
       ok ← await_propagation (Some uid);
       if negb ok
       then mret (Restoration false false (Some uid)
                    "Internal Error: Timed out waiting for sandbox restoration." INTERNAL_ERROR_CODE)
       else restore_internal (Some uid) sandbox_ready_timeout).

(** ** The client *)

(** A method of the engine that has the triggers [ts] *)
Definition on_engine {A} (ts : list string) (m : M (list string * W) A)
    : M (option (list string) * (client * W)) A := λ s,
  match m (ts, s.2.2) with (o, (ts', w)) => (o, (Some ts', (s.2.1, w))) end.

Definition delete_own_triggers (r : nat) : M (option (list string) * (client * W)) () :=
  triggers ← self;
  match triggers with
  | None => mret ()
  | Some ts => h ← world (deref r); on_engine ts (delete_manual_triggers (h_namespace h) 3)
  end.

(** [terminate] of the handle [r] of a client, next to the triggers of its engine *)
Definition snap_terminate (r : nat) : M (option (list string) * (client * W)) () :=
  finally (_ ← world (terminate r); set_self (λ _, None)) (delete_own_triggers r).
End sandbox.

(** The kinds that [get_api_resources] lists; nothing for no list *)
Class ApiResources (W : Type) := get_api_resources : string → string → M W (list string).

Section client.
Context {W : Type} `{ApiResources W}.

Definition check_snapshot_crd_installed (installed : bool) : M W bool :=
  if installed then mret true
  else
    except (λ e, match e with
                 | ApiException s => if (s =? 403) || (s =? 404) then Some (mret false) else None
                 | _ => None
                 end)
      (kinds ← get_api_resources (group PODSNAPSHOT) (api_version PODSNAPSHOT);
       mret (existsb (λ k, bool_decide (k = "PodSnapshot")) kinds)).

(** What [PodSnapshotSandboxClient.__init__] adds *)
Definition require_snapshot_crd : M W () :=
  installed ← check_snapshot_crd_installed false;
  if installed : bool then mret () else raise RuntimeError.
End client.
