(* ===== verification/SnapshotProofs.v ===== *)
(** Snapshots: the names of triggers, what a list contains, what is deleted, and
    that the polling loops end. *)

From Stdlib Require Import Ascii String ZArith QArith Qabs Lqa Lia Sorting.Sorted.
From stdpp Require Import base option list strings sets gmap pretty.
From S2P Require Import Prelude Hoare Float Json IpAddress Models Utils PyList World K8sHelper Http Tunnel Connector Sandbox SandboxClient SandboxClientProofs ObjectStore PyText DateTime DateTimeProofs Snapshots.

#[local] Open Scope Z_scope.

(** ** Names of triggers *)

(** A DNS-1123 label *)
Definition dns_label (s : string) : Prop :=
  (len s ≤ 63)%nat ∧ Forall (λ c, dash_or_lower_alnum c = true) (explode s) ∧
  (∃ c, head (explode s) = Some c ∧ is_lower_alnum c = true) ∧
  (∃ c, last (explode s) = Some c ∧ is_lower_alnum c = true).

(** The characters of a Python identifier, or a dash *)
Definition name_char (c : ascii) : bool := is_alnum c || bool_decide (c = "_"%char) || is_dash c.

Definition dash_char (c : ascii) : ascii := if decide (c = "_"%char) then "-"%char else c.

Lemma dash_lower_char c : name_char c = true → dash_or_lower_alnum (dash_char (lower_char c)) = true.
Proof. destruct c as [[] [] [] [] [] [] [] []]; vm_compute; done. Qed.

Lemma dash_or_alnum c : dash_or_lower_alnum c = true → is_dash c = false → is_lower_alnum c = true.
Proof. destruct c as [[] [] [] [] [] [] [] []]; vm_compute; done. Qed.

Lemma digit_dash_or_alnum c : is_digit c = true → dash_or_lower_alnum c = true.
Proof. destruct c as [[] [] [] [] [] [] [] []]; vm_compute; done. Qed.

(** What stripping leaves: a part of the text whose ends are not stripped. *)
Lemma strip_chars_ends p l :
  let s := rstrip_chars p (lstrip_chars p l) in
  (length s ≤ length l)%nat ∧ (∀ c, c ∈ s → c ∈ l) ∧
  (∀ c, head s = Some c → p c = false) ∧ (∀ c, last s = Some c → p c = false).
Proof.
  unfold rstrip_chars, lstrip_chars. set (a := drop_while p l). cbv zeta.
  destruct (drop_while_suffix p l) as [k Hk]. fold a in Hk.
  destruct (drop_while_suffix p (reverse a)) as [k' Hk']. set (b := drop_while p (reverse a)) in *.
  assert (a = reverse b ++ reverse k') as Ha.
  { rewrite <-reverse_app, <-Hk'. by rewrite reverse_involutive. }
  split_and!.
  - rewrite Hk, Ha, !length_app. lia.
  - intros c Hc. rewrite Hk, Ha. set_solver.
  - intros c Hc. destruct (reverse b) as [|x rb] eqn:E; simplify_eq/=. by apply (drop_while_head p l _ (rb ++ reverse k')).
  - intros c. rewrite last_reverse. destruct b as [|x b'] eqn:E; intros; simplify_eq/=.
    by apply (drop_while_head p (reverse (drop_while p l)) _ b').
Qed.

Lemma safe_trigger_name_shape name :
  Forall (λ c, name_char c = true) (explode name) →
  let s := safe_trigger_name name in
  (len s ≤ 38)%nat ∧ Forall (λ c, dash_or_lower_alnum c = true) (explode s) ∧
  ∃ c, head (explode s) = Some c ∧ is_lower_alnum c = true.
Proof.
  intros Hn. unfold safe_trigger_name. cbv zeta. unfold lower. rewrite explode_implode.
  change (λ c, if decide (c = "_"%char) then "-"%char else c) with dash_char.
  set (l := take 38 (dash_char <$> (lower_char <$> explode name))).
  assert (Forall (λ c, dash_or_lower_alnum c = true) l) as Hl.
  { apply Forall_take. rewrite <-list_fmap_compose, Forall_fmap.
    eapply Forall_impl; [exact Hn|]. intros c. apply dash_lower_char. }
  destruct (strip_chars_ends is_dash l) as (Hlen & Hin & Hhead & _). cbv zeta in *.
  set (s := rstrip_chars is_dash (lstrip_chars is_dash l)) in *.
  destruct (decide (implode s = EmptyString)) as [|Hne]; [split_and!; [vm_compute; lia|by repeat constructor|by eexists]|].
  unfold len. rewrite explode_implode. split_and!.
  - etrans; [exact Hlen|]. subst l. rewrite length_take. lia.
  - apply Forall_forall. intros c Hc. rewrite Forall_forall in Hl. auto.
  - destruct s as [|c s]; [done|]. exists c. split; [done|]. apply dash_or_alnum; [|by apply Hhead].
    rewrite Forall_forall in Hl. apply Hl, Hin. by left.
Qed.

Lemma compact_time_shape us :
  0 ≤ us ≤ DATETIME_MAX_US →
  len (compact_time us) = 15%nat ∧ Forall (λ c, dash_or_lower_alnum c = true) (explode (compact_time us)).
Proof.
  intros Hus. destruct (instant_fields us Hus) as (y & m & d & Ec & _ & _ & Hy & Hm & Hd).
  unfold compact_time, len. set (secs := us / 1000000) in *. rewrite Ec.
  assert (0 ≤ secs mod 86400 < 86400) as Ht by (by apply Z.mod_pos_bound).
  set (t := secs mod 86400) in *.
  assert (0 ≤ t / 3600 < 100 ∧ 0 ≤ t / 60 mod 60 < 100 ∧ 0 ≤ t mod 60 < 100) as (Hh & Hmi & Hs)
    by (Z.to_euclidean_division_equations; lia).
  destruct (pad_digits 4 y) as (LY & DY & _); [done|lia|].
  destruct (pad_digits 2 m) as (LM & DM & _); [done|lia|].
  destruct (pad_digits 2 d) as (LD & DD & _); [done|lia|].
  destruct (pad_digits 2 (t / 3600)) as (LH & DH & _); [done|lia|].
  destruct (pad_digits 2 (t / 60 mod 60)) as (LI & DI & _); [done|lia|].
  destruct (pad_digits 2 (t mod 60)) as (LS & DS & _); [done|lia|].
  rewrite !explode_app, !length_app, LY, LM, LD, LH, LI, LS. split; [done|].
  assert (∀ l, Forall (λ c, is_digit c = true) l → Forall (λ c, dash_or_lower_alnum c = true) l) as Hdig
    by (intros l Hl; eapply Forall_impl; [exact Hl|]; intros c; apply digit_dash_or_alnum).
  rewrite !Forall_app. split_and!; auto. by repeat constructor.
Qed.

(** The name given to a trigger is a valid Kubernetes resource name, whatever
    identifier the caller passes: at most 63 characters, lower-case letters, digits and
    dashes, starting and ending with a letter or digit. *)
Theorem trigger_name_valid name us hex :
  Forall (λ c, name_char c = true) (explode name) →
  0 ≤ us ≤ DATETIME_MAX_US →
  (8 ≤ len hex)%nat → Forall (λ c, is_lower_alnum c = true) (explode hex) →
  dns_label (full_trigger_name name us hex).
Proof.
  intros Hn Hus Hl Hhex. destruct (safe_trigger_name_shape name Hn) as (Hs1 & Hs2 & c & Hc & Hca).
  destruct (compact_time_shape us Hus) as (Ht1 & Ht2). unfold dns_label, full_trigger_name, len in *.
  rewrite !explode_app, explode_implode, !length_app, length_take, Ht1.
  assert (∀ c, is_lower_alnum c = true → dash_or_lower_alnum c = true) as Himp
    by (intros [[] [] [] [] [] [] [] []]; vm_compute; done).
  split_and!.
  - change (length (explode "-")) with 1%nat. lia.
  - rewrite !Forall_app. split_and!; [done|by repeat constructor|done|by repeat constructor|].
    apply Forall_take. by eapply Forall_impl.
  - exists c. destruct (explode (safe_trigger_name name)); done.
  - destruct (last (take 8 (explode hex))) as [h|] eqn:E.
    + exists h. rewrite !last_app, E. split; [done|]. apply last_Some in E as [l' E].
      apply (Forall_take _ 8) in Hhex. rewrite E, Forall_app in Hhex. destruct Hhex as [_ Hh]. by apply Forall_cons in Hh as [Hh _].
    + apply last_None in E. apply (f_equal length) in E. rewrite length_take in E. change (length []) with 0%nat in E. lia.
Qed.

Lemma trigger_name_valid_witness :
  dns_label (full_trigger_name "__Before_Upgrade-of_my_very_long_sandbox_name_" 63838000000000000 "0123abcd4567ef89").
Proof. apply trigger_name_valid; [by repeat constructor|done|vm_compute; lia|by repeat constructor]. Defined.

(** ** Lists *)

(** A timestamp of the API server is read back, in whole seconds. *)
Definition whole_seconds (us : Z) : Z := us / 1000000 * 1000000.

Lemma format_utc_iso us : 0 ≤ us ≤ DATETIME_MAX_US → format_utc us = iso_z (whole_seconds us).
Proof.
  intros Hus. assert (0 ≤ whole_seconds us ≤ DATETIME_MAX_US) as Hw
    by (unfold whole_seconds; Z.to_euclidean_division_equations; lia).
  destruct (iso_shape _ Hw) as (body & Hp & Hb & _). rewrite (iso_z_body _ body) by done.
  unfold isoformat_utc in Hb. unfold format_utc, whole_seconds in *.
  rewrite Z.div_mul, Z.mod_mul in Hb by done. change (0 =? 0) with true in Hb. cbv iota in Hb.
  destruct (civil_of_days _) as [[y m] d]. cbv zeta in *. apply explode_inj. rewrite explode_implode.
  rewrite !explode_app in Hb |- *. cbn [explode list_ascii_of_string app] in Hb.
  rewrite !(app_comm_cons _ _ _) in Hb. rewrite !app_assoc in Hb |- *.
  apply app_inv_tail in Hb as <-. rewrite <-!app_assoc. done.
Qed.

(** The instant a kept snapshot was created at, as the filter read it *)
Definition created_instant (d : SnapshotDetail) : outcome (option Z) := creation_time (json_opt (sd_created d)).

Definition kept (f : SnapshotFilter) (item : json) : option SnapshotDetail :=
  match list_item f item with Ret o => o | _ => None end.

Lemma list_items_omap f items ds : list_items f items = Ret ds → ds = omap (kept f) items.
Proof.
  revert ds. induction items as [|i items IH]; intros ds; cbn [list_items]; [by intros [= <-]|].
  intros H. run_inv. specialize (IH _ Hret0). cbn. unfold kept at 1. rewrite Hret, <-IH.
  injection H as <-. by destruct a.
Qed.

Lemma snapshot_detail_inv name source created ready d :
  snapshot_detail name source created ready = Some d →
  name = JStr (sd_uid d) ∧ created = json_opt (sd_created d) ∧ sd_status d = if ready then "Ready" else "NotReady".
Proof. unfold snapshot_detail. destruct name, source, created; try done; by intros [= <-]. Qed.

(** What the filter let through *)
Lemma list_item_inv f item d :
  list_item f item = Ret (Some d) →
  (sf_ready_only f = true → sd_status d = "Ready") ∧
  (∃ t, created_instant d = Ret t ∧ in_period f t = true) ∧
  ∃ m, py_get item "metadata" = Ret m ∧ py_get (py_or m (JObj [])) "name" = Ret (JStr (sd_uid d)) ∧
       py_get (py_or m (JObj [])) "creationTimestamp" = Ret (json_opt (sd_created d)).
Proof.
  unfold list_item. intros H. run_inv. destruct (sf_ready_only f && negb _) eqn:Er; [done|].
  run_inv. destruct (in_period f _) eqn:Ep; cbn [negb] in H; [|done]. run_inv.
  destruct (truthy _); cbn [negb] in H; [|done]. run_inv. injection H as H.
  apply snapshot_detail_inv in H as (-> & -> & Hs). split_and!.
  - intros Hf. rewrite Hf in Er. cbn in Er. apply negb_false_iff in Er. by rewrite Er in Hs.
  - by eexists.
  - by eexists.
Qed.

Lemma creation_time_format us :
  0 ≤ us ≤ DATETIME_MAX_US → creation_time (JStr (format_utc us)) = Ret (Some (whole_seconds us)).
Proof.
  intros Hus. assert (0 ≤ whole_seconds us ≤ DATETIME_MAX_US) as Hw
    by (unfold whole_seconds; Z.to_euclidean_division_equations; lia).
  rewrite format_utc_iso by done. unfold creation_time. cbn [truthy].
  rewrite (proj2 (String.eqb_neq _ _)) by apply iso_z_nonempty. cbn [negb normalize_json normalize_datetime].
  rewrite iso_zone_roundtrip by done. unfold mbind, outcome_bind, instant. cbn. by rewrite Z.sub_0_r.
Qed.

Lemma newest_first l : StronglySorted (λ a b, older a b = false) (sorted_reverse older l).
Proof.
  unfold sorted_reverse, older. apply (sorted_sorted (λ a b, str_lt (created_key b) (created_key a))).
  - intros a b. apply str_lt_asym.
  - intros a b c H1 H2. by eapply str_lt_neg_trans.
Qed.

Lemma StronglySorted_weaken {A} (R Q : A → A → Prop) l :
  (∀ a b, a ∈ l → b ∈ l → R a b → Q a b) → StronglySorted R l → StronglySorted Q l.
Proof.
  intros H. induction 1 as [|x l Hl IH Hx]; constructor.
  - apply IH. intros a b Ha Hb. apply H; by right.
  - apply Forall_forall. intros y Hy. apply H; [by left|by right|]. by eapply Forall_forall in Hx.
Qed.

(** Created at the instant [t], in the format of the API server *)
Definition created_at (t : Z) (d : SnapshotDetail) : Prop :=
  0 ≤ t ≤ DATETIME_MAX_US ∧ sd_created d = Some (format_utc t).

Section lists.
Context {W : Type} `{Clock W} `{WallClock W} `{K8sApi W} `{Host W} `{Net W} `{Pods W} `{Uuid W}.

(** The items of the answer to a list request *)
Definition listed (ns : string) (w : W) (items : list json) (w' : W) : Prop :=
  ∃ sel response v, list_objects PODSNAPSHOT ns sel w = (Ret response, w') ∧
    py_get response "items" = Ret v ∧ py_iter (py_or v (JList [])) = Ret items.

Lemma on_sandbox_inv {A} (m : M (handle * W) A) s r s' :
  on_sandbox m s = (r, s') →
  m (sp_handle s.1, s.2) = (r, (sp_handle s'.1, s'.2)) ∧ sp_triggers s'.1 = sp_triggers s.1.
Proof. unfold on_sandbox. destruct (m _) as [r0 [h w]]. by intros [= <- <-]. Qed.

Lemma list_filtered_inv f s r s' :
  list_filtered f s = (Ret r, s') → ls_success r = true →
  ∃ w items, listed (h_namespace (sp_handle s'.1)) w items s'.2 ∧
    ls_snapshots r = sorted_reverse older (omap (kept f) items).
Proof.
  unfold list_filtered. intros Hr Hok. run_inv. destruct (truthy _); cbn [negb] in Hr; [|run_inv; done].
  run_inv. destruct a0 as [[|c x]|]; [run_inv; done| |run_inv; done]. run_inv.
  apply except_ret_inv in Hr as [Hr|(e & k & s3 & _ & Hk & Hr)];
    [|simplify_eq; run_inv; by destruct e].
  run_inv. apply world_run_inv in Hrun1 as [Hl Hs]. apply list_items_omap in Hrun4 as ->.
  eexists _, _. split; [|done]. rewrite Hs. unfold listed. eauto 10.
Qed.
(** A list of snapshots that succeeds has exactly the snapshots of the answer
    that pass the filter. Each is ready if that was asked for and was created within
    the period asked for, and a snapshot is never listed before one created later. *)
Theorem snapshots_newest_first fa f s r s' :
  list_snapshots fa s = (Ret r, s') → make_filter fa = Ret f → ls_success r = true →
  (∃ w items, listed (h_namespace (sp_handle s'.1)) w items s'.2 ∧ ls_snapshots r ≡ₚ omap (kept f) items) ∧
  (∀ d t, d ∈ ls_snapshots r → created_at t d →
     (sf_ready_only f = true → sd_status d = "Ready") ∧ in_period f (Some (whole_seconds t)) = true) ∧
  StronglySorted (λ a b, ∀ ta tb, created_at ta a → created_at tb b → whole_seconds tb ≤ whole_seconds ta)
    (ls_snapshots r).
Proof.
  unfold list_snapshots. intros Hr Hf Hok. rewrite Hf in Hr.
  apply list_filtered_inv in Hr as (w & items & Hl & ->); [|done]. split_and!.
  - exists w, items. split; [done|]. apply sorted_perm.
  - intros d t Hd [Ht Hc]. apply elem_of_sorted, list_elem_of_omap in Hd as (i & _ & Hk).
    unfold kept in Hk. destruct (list_item f i) as [[d'|]| |] eqn:E; simplify_eq.
    destruct (list_item_inv _ _ _ E) as (Hready & (u & Hu & Hp) & _). split; [done|].
    unfold created_instant in Hu. rewrite Hc in Hu. cbn [json_opt] in Hu.
    rewrite creation_time_format in Hu by done. by injection Hu as <-.
  - eapply StronglySorted_weaken; [|apply newest_first]. intros a b _ _ Ho ta tb [Hta Ea] [Htb Eb].
    unfold older, created_key in Ho. rewrite Ea, Eb in Ho.
    change (str_lt (format_utc ta) (format_utc tb) = false) in Ho. unfold whole_seconds.
    destruct (decide (tb / 1000000 ≤ ta / 1000000)); [lia|].
    assert (str_lt (format_utc ta) (format_utc tb) = true) by (apply format_utc_mono; lia || done).
    congruence.
Qed.
End lists.

(** ** Deletion *)

(** The creation time of a snapshot does not change; every list shows it. *)
Class CreationLaws (W : Type) `{K8sApi W} (created : string → option Z) := creation_fixed :
  ∀ ns w items w' i m n c, listed ns w items w' → i ∈ items →
    py_get i "metadata" = Ret m → py_get (py_or m (JObj [])) "name" = Ret (JStr n) →
    py_get (py_or m (JObj [])) "creationTimestamp" = Ret c → creation_time c = Ret (created n).

(** No call that reads falsifies [Q]. *)
Class SnapNeutral (W : Type) `{Clock W} `{WallClock W} `{K8sApi W} `{Host W} `{Net W} `{Pods W} `{Uuid W}
    (Q : W → Prop) := {
  snap_neutral :: Neutral W Q;
  neutral_list : ∀ r ns sel, stable Q (list_objects r ns sel);
  neutral_read_pod : ∀ p ns, stable Q (read_pod p ns);
  neutral_time : stable Q time_time;
  neutral_time_sleep : ∀ d, stable Q (time_sleep d);
}.

Section deletion.
Context {W : Type} {Hclock : Clock W} {Hwall : WallClock W} {Hk8s : K8sApi W} {Hhost : Host W} {Hnet : Net W}
  {Hpods : Pods W} {Huuid : Uuid W} (Q : W → Prop) {HQ : SnapNeutral W Q}.

Let stable_sandbox n ns : stable Q (get_sandbox n ns) := stable_get_sandbox Q n ns.
Let stable_get r ns n : stable Q (get_object r ns n) := neutral_get r ns n.
#[local] Hint Resolve stable_get neutral_list neutral_read_pod neutral_time neutral_time_sleep
  stable_sandbox : stable.

Lemma consume_stable {St R} (f : St → json → outcome (St * option R)) st (s : stream W) :
  stream_all Q s → Q (consume f st s).2.2.
Proof.
  revert st. induction s as [w|e w|w|ev w rest IH]; intros st Hs; cbn in *; [done..|].
  destruct Hs as [Hw Hs]. destruct (f st ev) as [[st' [r|]]| |]; cbn; auto.
Qed.

Lemma watch_once_stable {R} (f : () → json → outcome (() * option R)) req fin : stable Q (watch_once f req fin).
Proof.
  intros w Hw. unfold watch_once. pose proof (consume_stable f () _ (neutral_watch req w Hw)) as Hc.
  destruct (consume f () _) as [[[r|]| |] [st w']]; done.
Qed.

Lemma on_sandbox_stable {A} (m : M (handle * W) A) :
  stable (λ s, Q s.2) m → stable (λ s : snap * W, Q s.2) (on_sandbox m).
Proof.
  intros Hm [s w] Hw. specialize (Hm (sp_handle s, w) Hw). unfold on_sandbox. cbn in *.
  by destruct (m _) as [r [h w']].
Qed.

Lemma get_pod_name_stable : stable (λ s : handle * W, Q s.2) get_pod_name.
Proof. unfold get_pod_name, the_sandbox. stable. Qed.
Lemma get_hash_stable : stable (λ s : handle * W, Q s.2) get_sandbox_name_hash.
Proof. unfold get_sandbox_name_hash, the_sandbox. stable. Qed.
#[local] Hint Resolve watch_once_stable on_sandbox_stable get_pod_name_stable get_hash_stable : stable.

Lemma list_filtered_stable f : stable (λ s : snap * W, Q s.2) (list_filtered f).
Proof. unfold list_filtered. stable. Qed.

Lemma list_snapshots_stable f : stable (λ s : snap * W, Q s.2) (list_snapshots f).
Proof. unfold list_snapshots. destruct (make_filter f); stable. Qed.
Lemma delete_one_stable ns uid timeout :
  stable Q (delete_object PODSNAPSHOT ns uid None) → stable Q (delete_one ns uid timeout).
Proof. intros Hd. unfold delete_one, wait_for_snapshot_deletion. stable. Qed.

Lemma delete_each_stable ns timeout uids :
  (∀ uid, uid ∈ uids → stable Q (delete_object PODSNAPSHOT ns uid None)) → stable Q (delete_each ns timeout uids).
Proof.
  induction uids as [|uid uids IH]; intros Hd; cbn [delete_each]; [apply stable_ret|].
  apply stable_bind; [apply delete_one_stable, Hd; by left|]. intros d.
  apply stable_bind; [apply IH; intros u Hu; apply Hd; by right|]. intros. apply stable_ret.
Qed.

Lemma delete_uids_stable timeout uids :
  (∀ ns uid, uid ∈ uids → stable Q (delete_object PODSNAPSHOT ns uid None)) →
  stable (λ s : snap * W, Q s.2) (delete_uids timeout uids).
Proof.
  intros Hd. unfold delete_uids. destruct uids as [|u uids]; [apply stable_ret|].
  apply stable_bind; [apply stable_self|]. intros s.
  apply stable_bind; [|intros; apply stable_ret]. apply stable_world, delete_each_stable. intros uid Hu. by apply Hd.
Qed.

Section period.
Context (created : string → option Z) {Hcreated : CreationLaws W created}.

(** A listed snapshot was created in the period of the filter. *)
Lemma listed_in_period f s r s' d :
  list_filtered f s = (Ret r, s') → ls_success r = true → d ∈ ls_snapshots r →
  in_period f (created (sd_uid d)) = true.
Proof.
  intros Hr Hok Hd. apply list_filtered_inv in Hr as (w & items & Hl & E); [|done].
  rewrite E in Hd. apply elem_of_sorted, list_elem_of_omap in Hd as (i & Hi & Hk).
  unfold kept in Hk. destruct (list_item f i) as [[d'|]| |] eqn:Ei; simplify_eq.
  destruct (list_item_inv _ _ _ Ei) as (_ & (t & Ht & Hp) & m & Hm & Hn & Hc).
  unfold created_instant in Ht. rewrite (creation_fixed _ _ _ _ _ _ _ _ Hl Hi Hm Hn Hc) in Ht.
  by injection Ht as ->.
Qed.

Lemma execute_deletion_stable after before f timeout s :
  make_filter (FilterArgs false after before) = Ret f →
  (∀ ns uid, in_period f (created uid) = true → stable Q (delete_object PODSNAPSHOT ns uid None)) →
  Q s.2 → Q (execute_deletion EmptyString true after before timeout s).2.2.
Proof.
  intros Hf Hd Hs. unfold execute_deletion. cbn [negb bool_decide]. unfold mbind, M_bind.
  change (negb (bool_decide (EmptyString = EmptyString))) with false. cbv iota.
  pose proof (list_snapshots_stable (FilterArgs false after before) s Hs) as Hl.
  destruct (list_snapshots _ s) as [[r| |] s1] eqn:E; rewrite E; [|done|done].
  destruct (ls_success r) eqn:Hok; [|done]. apply delete_uids_stable; [|done].
  intros ns uid (d & -> & Hin)%list_elem_of_fmap. apply Hd.
  unfold list_snapshots in E. rewrite Hf in E. by eapply listed_in_period.
Qed.
(** A cleanup by date deletes nothing outside the dates given: what can be falsified
    only by deleting a snapshot created on the other side of the date still holds
    when it is done, whatever fails on the way. *)
Theorem delete_all_spares_period delete_by timestamp t timeout s :
  (delete_by = "created_after" ∨ delete_by = "created_before") →
  normalize_datetime timestamp = Ret (Some t) →
  (∀ ns uid c, created uid = Some c → (if decide (delete_by = "created_after") then t ≤ c else c ≤ t) →
     stable Q (delete_object PODSNAPSHOT ns uid None)) →
  Q s.2 → Q (delete_all delete_by timestamp timeout s).2.2.
Proof.
  intros Hby Ht Hd Hs.
  assert (∀ A (x y : A), match timestamp with DateNone => x | _ => y end = y) as E by (by destruct timestamp).
  assert (∀ ns uid c, created uid = Some c →
    (if decide (delete_by = "created_after") then t <=? c else c <=? t) = true →
    stable Q (delete_object PODSNAPSHOT ns uid None)) as Hd'.
  { intros ns uid c Hc Hb. apply (Hd ns uid c Hc). case_decide; by apply Z.leb_le. }
  destruct Hby as [-> | ->]; unfold delete_all; keys; rewrite E.
  - apply (execute_deletion_stable _ _ (SnapFilter false (Some t) None)); [by cbn; rewrite Ht| |done].
    intros ns uid Hp. unfold in_period in Hp. cbn in Hp. rewrite andb_true_r in Hp.
    destruct (created uid) as [c|] eqn:Ec; [|done]. by apply (Hd' ns uid c Ec).
  - apply (execute_deletion_stable _ _ (SnapFilter false None (Some t))); [by cbn; rewrite Ht| |done].
    intros ns uid Hp. unfold in_period in Hp. cbn in Hp.
    destruct (created uid) as [c|] eqn:Ec; [|done]. by apply (Hd' ns uid c Ec).
Qed.
End period.
End deletion.

(** ** Triggers *)

(** A trigger that was deleted, or that is not found, is gone and stays gone. *)
Class TriggerLaws (W : Type) `{WallClock W} `{K8sApi W} (there : string → string → W → Prop) := {
  trigger_deleted : ∀ ns t w o w', delete_object TRIGGER ns t None w = (Ret o, w') → ¬ there ns t w';
  trigger_absent : ∀ ns t w w', delete_object TRIGGER ns t None w = (Raise (ApiException 404), w') → ¬ there ns t w';
  trigger_answers : ∀ ns t w, (delete_object TRIGGER ns t None w).1 ≠ NoFuel;
  gone_on_delete : ∀ ns t ns' t', stable (λ w, ¬ there ns t w) (delete_object TRIGGER ns' t' None);
  gone_on_sleep : ∀ ns t d, stable (λ w, ¬ there ns t w) (time_sleep d);
  sleep_returns : ∀ d w, (time_sleep d w).1 = Ret ();
}.

Section triggers.
Context {W : Type} {Hwall : WallClock W} {Hk8s : K8sApi W} (there : string → string → W → Prop)
  {Hlaws : TriggerLaws W there}.

(** What a pass over triggers leaves: those not in the result are gone. *)
Definition swept (ns : string) (ts ts' : list string) (w' : W) : Prop :=
  ts' `sublist_of` ts ∧ ∀ t, t ∈ ts → t ∉ ts' → ¬ there ns t w'.

Lemma delete_batch_stays ns batch ns' t : stable (λ w, ¬ there ns' t w) (delete_batch ns batch).
Proof.
  induction batch as [|x batch IH]; cbn [delete_batch]; [apply stable_ret|].
  pose proof (gone_on_delete ns' t ns x). stable.
Qed.

(** One deletion: whether the trigger is gone *)
Lemma delete_trigger_run ns t w :
  ∃ gone w', except (λ e, Some (mret (bool_decide (e = ApiException 404))))
               (_ ← delete_object TRIGGER ns t None; mret true) w = (Ret gone, w') ∧
             (gone = true → ¬ there ns t w').
Proof.
  pose proof (trigger_answers ns t w) as Ha.
  destruct (delete_object TRIGGER ns t None w) as [[o|e|] w1] eqn:E; [| |done].
  - exists true, w1. split; [|intros _; by eapply trigger_deleted].
    apply except_step. by rewrite (bind_step _ _ _ _ _ E).
  - exists (bool_decide (e = ApiException 404)), w1. split.
    + by eapply except_caught; [eapply bind_raise|].
    + intros ->%bool_decide_eq_true. by eapply trigger_absent.
Qed.

Lemma delete_batch_sweeps ns batch w :
  ∃ rest w', delete_batch ns batch w = (Ret rest, w') ∧ swept ns batch rest w'.
Proof.
  revert w. induction batch as [|t batch IH]; intros w; cbn [delete_batch].
  { exists [], w. split; [done|]. split; [done|]. intros t Ht. by apply elem_of_nil in Ht. }
  destruct (delete_trigger_run ns t w) as (gone & w1 & E1 & Hgone).
  destruct (IH w1) as (rest & w2 & E2 & Hsub & Hrest).
  exists (if gone then rest else t :: rest), w2. split.
  { by rewrite (bind_step _ _ _ _ _ E1), (bind_step _ _ _ _ _ E2). }
  pose proof (delete_batch_stays ns batch ns t w1) as Hstay. rewrite E2 in Hstay. destruct gone.
  - split; [by apply sublist_cons|]. intros x [->|Hx]%elem_of_cons Hr; auto.
  - split; [by apply sublist_skip|]. intros x [->|Hx]%elem_of_cons Hr; [set_solver|]. apply Hrest; set_solver.
Qed.

Lemma delete_attempts_stays ns k ts ns' t : stable (λ w, ¬ there ns' t w) (delete_attempts ns k ts).
Proof.
  revert ts. induction k as [|k IH]; intros [|x ts]; cbn [delete_attempts]; try apply stable_ret.
  apply stable_bind; [apply delete_batch_stays|]. intros rem.
  apply stable_bind; [|intros _; apply IH].
  destruct rem, k; try apply stable_ret. apply gone_on_sleep.
Qed.

Lemma delete_attempts_sweeps ns k ts w :
  ∃ ts' w', delete_attempts ns k ts w = (Ret ts', w') ∧ swept ns ts ts' w'.
Proof.
  revert ts w. induction k as [|k IH]; intros ts w.
  { exists ts, w. split; [by destruct ts|]. split; [done|]. intros t H1 H2. done. }
  destruct ts as [|t ts]; [exists [], w; split; [done|]; split; [done|]; intros t Ht; by apply elem_of_nil in Ht|].
  cbn [delete_attempts]. destruct (delete_batch_sweeps ns (t :: ts) w) as (rem & w1 & E1 & Hsub & Hgone).
  set (pause := match rem, k with _ :: _, S _ => time_sleep (PFin 1) | _, _ => mret () end).
  assert (∃ w2, pause w1 = (Ret (), w2) ∧ ∀ t, ¬ there ns t w1 → ¬ there ns t w2) as (w2 & E2 & Hp).
  { subst pause. destruct rem, k; try (by exists w1).
    pose proof (sleep_returns (PFin 1) w1). destruct (time_sleep _ w1) as [o w2] eqn:E. cbn in *. subst o.
    exists w2. split; [done|]. intros x Hx. pose proof (gone_on_sleep ns x (PFin 1) w1 Hx) as Hs. by rewrite E in Hs. }
  destruct (IH rem w2) as (ts' & w3 & E3 & Hsub' & Hgone'). exists ts', w3. split.
  { rewrite (bind_step _ _ _ _ _ E1). fold pause. by rewrite (bind_step _ _ _ _ _ E2). }
  split; [by etrans|]. intros x Hx Hn. destruct (decide (x ∈ rem)) as [Hr|Hr]; [by apply Hgone'|].
  pose proof (delete_attempts_stays ns k rem ns x w2 (Hp x (Hgone x Hx Hr))) as Hs. by rewrite E3 in Hs.
Qed.

(** Cleaning up the triggers of a sandbox always ends, and forgets none: a trigger
    the engine created is either still on its list or no longer in the cluster. *)
Theorem triggers_not_forgotten ns max_retries ts w :
  ∃ ts' w', delete_manual_triggers ns max_retries (ts, w) = (Ret (), (ts', w')) ∧
    ts' `sublist_of` ts ∧ ∀ t, t ∈ ts → t ∉ ts' → ¬ there ns t w'.
Proof.
  destruct (delete_attempts_sweeps ns max_retries ts w) as (ts' & w' & E & Hs). exists ts', w'. split; [|done].
  unfold delete_manual_triggers, mbind, M_bind, self, world. cbn. by rewrite E.
Qed.
End triggers.

(** ** The polling loops end *)

(** [wall] is the time that has really passed. The wall clock may be set forwards and
    back at any moment, but is never off by more than [skew] seconds; [sleep] waits as
    long as asked. *)
Class WallLaws (W : Type) `{WallClock W} (wall : W → Q) (skew : Z) := {
  wall_now : ∀ w, ∃ q w', time_time w = (Ret (PFin q), w') ∧ (wall w <= wall w')%Q ∧
    (wall w - inject_Z skew <= q)%Q ∧ (q <= wall w' + inject_Z skew)%Q;
  wall_slept : ∀ q w, ∃ w', time_sleep (PFin q) w = (Ret (), w') ∧ (wall w + q <= wall w')%Q;
}.

(** Code that comes to an end, after a time that is not negative. *)
Abbreviation lasts wall := (ends (on_clock Qle wall)).

#[global] Instance Qle_preorder : PreOrder Qle.
Proof. split; [exact Qle_refl|exact Qle_trans]. Qed.

Class PollLaws (W : Type) `{WallClock W} `{K8sApi W} `{Pods W} (wall : W → Q) (skew : Z) := {
  poll_wall :: WallLaws W wall skew;
  poll_get : ∀ r ns n, lasts wall (get_object r ns n);
  poll_read_pod : ∀ p ns, lasts wall (read_pod p ns);
}.

#[export] Hint Resolve py_get_answers py_get_def_answers outcome_bind_answers : ends.

Section polling.
Context {W : Type} {Hclock : Clock W} {Hwall : WallClock W} {Hk8s : K8sApi W} {Hhost : Host W} {Hnet : Net W}
  {Hpods : Pods W} (wall : W → Q) (skew : Z) {Hpoll : PollLaws W wall skew}.

Abbreviation polled := (on_world (X := handle) (on_clock Qle wall)).

Lemma poll_from_ends (check : M (handle * W) bool) start timeout n :
  ends polled check → 0 ≤ timeout < 2 ^ 53 →
  ∀ k s, (start + inject_Z (2 * k) <= wall s.2 + inject_Z skew)%Q → timeout + 2 * skew ≤ 2 * (k + Z.of_nat n) →
  (poll_from (S n) (PFin start) timeout check s).1 ≠ NoFuel.
Proof.
  intros Hc Ht. induction n as [|n IH]; intros k s Hk Hn; cbn [poll_from];
    destruct (wall_now (wall := wall) s.2) as (q & w1 & E1 & Hq & Hlo & Hhi);
    assert (∀ A (f : pyfloat → M (handle * W) A), (now ← world time_time; f now) s = f (PFin q) (s.1, w1)) as Hstep
      by (intros A f; destruct s as [h w]; apply bind_step; unfold world; cbn in *; by rewrite E1);
    rewrite Hstep; clear Hstep.
  - assert (flt (fsub (PFin q) (PFin start)) (PFin (inject_Z timeout)) = false) as ->; [|done].
    cbn [fsub fneg fadd]. apply round64_not_below; [|done]. rewrite Qred_correct.
    assert (inject_Z timeout + 2 * inject_Z skew <= inject_Z (2 * k))%Q
      by (change 2%Q with (inject_Z 2); rewrite <-inject_Z_mult, <-inject_Z_plus, <-Zle_Qle; lia). lra.
  - destruct (flt _ _); [|done]. destruct (Hc (s.1, w1)) as [H1 H2]. unfold on_world, on_clock in H2.
    unfold mbind at 1, M_bind at 1. destruct (check (s.1, w1)) as [[[]|e|] [h2 w2]] eqn:E2; cbn in H1, H2; [done| |done|done].
    destruct (wall_slept (wall := wall) 2 w2) as (w3 & E3 & Hs).
    assert (∀ A (f : () → M (handle * W) A), (x ← world (time_sleep (PFin 2)); f x) (h2, w2) = f () (h2, w3)) as Hstep
      by (intros A f; apply bind_step; unfold world; cbn; by rewrite E3).
    rewrite Hstep. apply (IH (k + 1)); [|lia]. cbn [snd].
    replace (2 * (k + 1)) with (2 * k + 2) by lia. rewrite inject_Z_plus. change (inject_Z 2) with 2%Q. lra.
Qed.

Lemma poll_ends (check : M (handle * W) bool) n timeout s :
  ends polled check → 0 ≤ timeout < 2 ^ 53 → timeout + 2 * skew ≤ 2 * Z.of_nat n →
  (poll (S n) timeout check s).1 ≠ NoFuel.
Proof.
  intros Hc Ht Hn. unfold poll. destruct (wall_now (wall := wall) s.2) as (q & w1 & E1 & Hq & Hlo & Hhi).
  assert (world time_time s = (Ret (PFin q), (s.1, w1))) as E
    by (destruct s as [h w]; unfold world; cbn in *; by rewrite E1).
  rewrite (bind_step _ _ _ _ _ E).
  apply (poll_from_ends check q timeout n Hc Ht 0); [|lia]. cbn [snd]. change (inject_Z (2 * 0)) with 0%Q. lra.
Qed.

#[local] Hint Resolve poll_get poll_read_pod : ends.

Lemma get_sandbox_ends n ns : lasts wall (get_sandbox n ns).
Proof. unfold get_sandbox, none_on_404. ends. Qed.
#[local] Hint Resolve get_sandbox_ends : ends.

Lemma get_pod_name_ends : ends polled get_pod_name.
Proof. unfold get_pod_name, the_sandbox. ends. Qed.
#[local] Hint Resolve get_pod_name_ends : ends.

Lemma pod_terminated_ends ns p uid : ends polled (pod_terminated ns p uid).
Proof. unfold pod_terminated. ends. Qed.
Lemma pod_ready_ends ns : ends polled (pod_ready ns).
Proof. unfold pod_ready. ends. Qed.
Lemma propagated_ends ns id uid : ends polled (propagated ns id uid).
Proof.
  assert (∀ obj, propagated_uid obj ≠ NoFuel) by (intros obj; unfold propagated_uid, get_dict; auto 10 with ends).
  unfold propagated. ends.
Qed.

End polling.
