(* ===== verification/SnapshotSandboxProofs.v ===== *)
(** Suspend, resume and restore: a sandbox is not suspended without the snapshot that
    was asked for, and a restore that succeeds was confirmed by the pod. *)

From Stdlib Require Import Ascii String ZArith QArith Lia.
From stdpp Require Import base option list strings sets gmap pretty.
From S2P Require Import Prelude Hoare Float Json IpAddress PyText Models Utils PyList World K8sHelper Http Tunnel Connector Sandbox SandboxClient SandboxClientProofs ObjectStore DateTime Snapshots SnapshotSandbox SnapshotProofs.

#[local] Open Scope Z_scope.

(** ** What the API server said of a trigger *)

(** An event on a trigger that says it is complete: a condition of its status says so,
    with the time, and the status names the snapshot. *)
Definition reports_complete (ev : json) (uid ts : string) : Prop :=
  ∃ type trigger status created conds cs c,
    py_index ev "type" = Ret type ∧ is_added_or_modified type = true ∧ py_index ev "object" = Ret trigger ∧
    py_get_def trigger "status" (JObj []) = Ret status ∧
    py_get status "snapshotCreated" = Ret created ∧ py_get (py_or created (JObj [])) "name" = Ret (JStr uid) ∧
    py_get status "conditions" = Ret conds ∧ py_iter (py_or conds (JList [])) = Ret cs ∧ JObj c ∈ cs ∧
    dget "type" c = Some (JStr "Triggered") ∧ dget "status" c = Some (JStr "True") ∧
    dget "reason" c = Some (JStr "Complete") ∧ dget "lastTransitionTime" c = Some (JStr ts).

Lemma field_dget c k x : field c k x = true → dget k c = Some (JStr x).
Proof. unfold field. destruct (dget k c) as [v|]; cbn; [|done]. by intros ->%is_str_true. Qed.

Lemma snapshot_conditions_inv status conds uid ts :
  snapshot_conditions status conds = Ret (SnapshotInfo uid ts) →
  ∃ created c, py_get status "snapshotCreated" = Ret created ∧ py_get (py_or created (JObj [])) "name" = Ret (JStr uid) ∧
    JObj c ∈ conds ∧ dget "type" c = Some (JStr "Triggered") ∧ dget "status" c = Some (JStr "True") ∧
    dget "reason" c = Some (JStr "Complete") ∧ dget "lastTransitionTime" c = Some (JStr ts).
Proof.
  induction conds as [|c conds IH]; cbn; [done|]. destruct c as [| | | | | |c]; try done.
  destruct (field c "type" "Triggered" && _ && _) eqn:E.
  - intros Hr. apply andb_true_iff in E as [[E1%field_dget E2%field_dget]%andb_true_iff E3%field_dget].
    clear IH. run_inv. destruct a0; try done. destruct (dget "lastTransitionTime" c) as [[| | | |t| |]|] eqn:Et; try done. injection Hr as -> ->.
    exists a, c. split_and!; try done. by left.
  - case_match; [done|]. intros (sc & c' & Hs & Hu & Hin & Hc)%IH. exists sc, c'. split_and!; try done; [by right|apply Hc..].
Qed.

Lemma completed_event_inv ev uid ts :
  completed_event () ev = Ret ((), Some (SnapshotInfo uid ts)) → reports_complete ev uid ts.
Proof.
  unfold completed_event, get_snapshot_info. destruct (is_none ev); [done|].
  destruct (py_index ev "type") as [type| |] eqn:Et; try done. cbn. destruct (is_added_or_modified type) eqn:Ea; [|by case_match].
  destruct (py_index ev "object") as [obj| |] eqn:Eo; try done. cbn.
  destruct (py_get_def obj "status" _) as [status| |] eqn:Es; try done; [|by cbn; case_decide]. cbn.
  destruct (py_get status "conditions") as [conds| |] eqn:Ec; try done; [|by cbn; case_decide]. cbn.
  destruct (py_iter _) as [cs| |] eqn:Ei; try done; [|by cbn; case_decide]. cbn.
  destruct (snapshot_conditions status cs) as [i| |] eqn:E; [|by case_decide|done]. intros [= ->].
  apply snapshot_conditions_inv in E as (sc & c & E). exists type, obj, status, sc, conds, cs, c. naive_solver.
Qed.

Lemma consume_event {W St R} (f : St → json → outcome (St * option R)) st (s : stream W) r st' w' :
  consume f st s = (Ret (Some r), (st', w')) →
  ∃ ev st1 st2, ev ∈ stream_events s ∧ f st1 ev = Ret (st2, Some r).
Proof.
  revert st. induction s as [w|e w|w|ev w rest IH]; intros st; cbn; [done..|].
  destruct (f st ev) as [[st1 [r1|]]|e|] eqn:E; try done.
  - intros [= <- _ _]. exists ev, st, st1. split; [by left|done].
  - intros Hc. destruct (IH _ Hc) as (ev' & a & b & Hin & Hf). exists ev', a, b. split; [by right|done].
Qed.

(** A world in which the iteration of a stream may be left *)
Fixpoint stream_worlds {W} (s : stream W) : list W :=
  match s with
  | SEnd w | SFail _ w | SHang w => [w]
  | SEvent _ w rest => w :: stream_worlds rest
  end.

Lemma consume_world {W St R} (f : St → json → outcome (St * option R)) st (s : stream W) :
  (consume f st s).2.2 ∈ stream_worlds s.
Proof.
  revert st. induction s as [w|e w|w|ev w rest IH]; intros st; cbn; [by left..|].
  destruct (f st ev) as [[st1 [r1|]]|e|]; cbn; [by left|by right|by left..].
Qed.

Section suspend.
Context {W : Type} {Hclock : Clock W} {Hwall : WallClock W} {Hk8s : K8sApi W} {Hhost : Host W} {Hnet : Net W}
  {Hpods : Pods W} {Huuid : Uuid W} (fuel : nat).

(** One call that leaves the sandbox as it is: a read, the clock, a new identifier, or
    the creation of a trigger *)
Inductive harmless : relation W :=
  | harmless_get r ns n w : harmless w (get_object r ns n w).2
  | harmless_trigger ns o w : harmless w (create_object TRIGGER ns o w).2
  | harmless_watch req w w' : w' ∈ stream_worlds (watch_stream req w) → harmless w w'
  | harmless_uuid w : harmless w (uuid4_hex w).2
  | harmless_now w : harmless w (utcnow_us w).2.

(** The snapshot of [suspend]: after harmless calls only, a trigger was created under a
    name of this sandbox, for the pod that the handle gives, and the watch of that trigger, opened right after,
    delivered an event that reports it complete with this snapshot. *)
Record snapshot_taken (h : handle) (w : W) (trigger uid ts : string) : Prop := {
  trigger_named : ∃ us hex, trigger = full_trigger_name ("suspend-" +:+ h_sandbox_id h) us hex;
  trigger_completed : ∃ h1 h2 pod_name cr meta rv w0 w1 w2 ev,
    rtc harmless w w0 ∧ rtc harmless w w1 ∧
    h_sandbox_id h1 = h_sandbox_id h ∧ get_pod_name (h1, w0) = (Ret pod_name, (h2, w1)) ∧
    create_object TRIGGER (h_namespace h) (trigger_manifest trigger (h_namespace h) pod_name) w1 = (Ret cr, w2) ∧
    py_get_def cr "metadata" (JObj []) = Ret meta ∧ py_get meta "resourceVersion" = Ret rv ∧
    ev ∈ stream_events (watch_stream (WatchReq TRIGGER (h_namespace h) ("metadata.name=" +:+ trigger) (version_arg rv) 180) w2) ∧
    reports_complete ev uid ts;
}.

(** So far the sandbox was left as it was, and the handle is for the same sandbox. *)
Definition untouched (h0 : handle) (w0 : W) (s : handle * W) : Prop :=
  rtc harmless w0 s.2 ∧ h_sandbox_id s.1 = h_sandbox_id h0 ∧ h_namespace s.1 = h_namespace h0.
Definition unsuspended (s0 s : snap * W) : Prop :=
  untouched (sp_handle s0.1) s0.2 (sp_handle s.1, s.2) ∧ is_Some (sp_triggers s.1).

Lemma untouched_call {A} h0 w0 (m : M W A) : stable (rtc harmless w0) m → stable (untouched h0 w0) (world m).
Proof. intros Hm [h w] (Hw & Hh). specialize (Hm w Hw). unfold world. cbn in *. by destruct (m w) as [o w']. Qed.
Lemma unsuspended_call {A} s0 (m : M W A) : stable (rtc harmless s0.2) m → stable (unsuspended s0) (world m).
Proof. intros Hm [s w] [(Hw & Hh) Ht]. specialize (Hm w Hw). unfold world. cbn in *. by destruct (m w) as [o w']. Qed.
Lemma untouched_set h0 w0 f :
  (∀ h, h_sandbox_id (f h) = h_sandbox_id h ∧ h_namespace (f h) = h_namespace h) → stable (untouched h0 w0) (set_self f).
Proof. intros Hf [h w] (Hw & Hi & Hn). destruct (Hf h) as [E1 E2]. split_and!; cbn in *; congruence. Qed.
Lemma unsuspended_on {A} s0 (m : M (handle * W) A) :
  stable (untouched (sp_handle s0.1) s0.2) m → stable (unsuspended s0) (on_sandbox m).
Proof.
  intros Hm [s w] [Hu Ht]. specialize (Hm (sp_handle s, w) Hu). unfold on_sandbox. cbn in *.
  by destruct (m (sp_handle s, w)) as [o [h w']].
Qed.

Lemma get_harmless w0 r ns n : stable (rtc harmless w0) (get_object r ns n).
Proof. intros w Hw. eapply rtc_r; [done|constructor]. Qed.
Lemma uuid_harmless w0 : stable (rtc harmless w0) uuid4_hex.
Proof. intros w Hw. eapply rtc_r; [done|constructor]. Qed.
Lemma trigger_harmless w0 ns o : stable (rtc harmless w0) (create_object TRIGGER ns o).
Proof. intros w Hw. eapply rtc_r; [done|constructor]. Qed.
Lemma now_harmless w0 : stable (rtc harmless w0) read_utc_us.
Proof.
  intros w Hw. eapply rtc_r; [done|]. unfold read_utc_us. pose proof (harmless_now w). by destruct (utcnow_us w).
Qed.
Lemma watch_once_harmless {R} w0 (f : () → json → outcome (() * option R)) req fin :
  stable (rtc harmless w0) (watch_once f req fin).
Proof.
  intros w Hw. eapply rtc_r; [done|]. apply (harmless_watch req). unfold watch_once.
  pose proof (consume_world f () (watch_stream req w)). by destruct (consume f () _) as [[[r|]| |] [st w']].
Qed.
#[local] Hint Resolve get_harmless uuid_harmless trigger_harmless now_harmless watch_once_harmless : stable.

Lemma get_sandbox_untouched h0 w0 n ns : stable (untouched h0 w0) (world (get_sandbox n ns)).
Proof. apply untouched_call. unfold get_sandbox, none_on_404. stable. Qed.
Lemma get_pod_name_untouched h0 w0 : stable (untouched h0 w0) get_pod_name.
Proof.
  pose proof (get_sandbox_untouched h0 w0). unfold get_pod_name, the_sandbox. stable.
Qed.
Lemma get_hash_untouched h0 w0 : stable (untouched h0 w0) get_sandbox_name_hash.
Proof.
  pose proof (get_sandbox_untouched h0 w0). unfold get_sandbox_name_hash, the_sandbox. stable.
Qed.

Lemma is_suspended_keeps s0 : stable (unsuspended s0) is_suspended.
Proof. unfold is_suspended. stable. by apply unsuspended_call, get_harmless. Qed.
Lemma require_name_hash_keeps s0 : stable (unsuspended s0) require_name_hash.
Proof. unfold require_name_hash. stable. apply unsuspended_on, get_hash_untouched. Qed.

Lemma await_snapshot_inv ns name timeout cr w r w' :
  await_snapshot ns name timeout cr w = (Ret r, w') → sn_success r = true →
  sn_trigger_name r = name ∧ ∃ meta rv uid ts ev,
    py_get_def cr "metadata" (JObj []) = Ret meta ∧ py_get meta "resourceVersion" = Ret rv ∧
    sn_uid r = Some uid ∧ sn_timestamp r = Some ts ∧
    ev ∈ stream_events (watch_stream (WatchReq TRIGGER ns ("metadata.name=" +:+ name) (version_arg rv) timeout) w) ∧
    reports_complete ev uid ts.
Proof.
  unfold await_snapshot. intros Hr Hok.
  apply except_ret_inv in Hr as [Hr|(e & k & w1 & _ & Hk & Hr)]; [|injection Hk as <-; apply mret_inv in Hr as [<- _]; by destruct e].
  apply bind_ret_inv in Hr as (meta & s1 & E1 & Hr). apply lift_ret_inv in E1 as [Em ->].
  apply bind_ret_inv in Hr as (rv & s2 & E2 & Hr). apply lift_ret_inv in E2 as [Ev ->].
  apply bind_ret_inv in Hr as (i & s3 & E3 & Hr). apply mret_inv in Hr as [<- _]. cbn. split; [done|].
  unfold wait_for_snapshot_to_be_completed, watch_once in E3. destruct (consume _ _ _) as [[[x|]| |] [[] w1]] eqn:E; try done.
  injection E3 as -> _. apply consume_event in E as (ev & [] & [] & Hin & Hf). destruct i as [uid ts].
  exists meta, rv, uid, ts, ev. split_and!; [done..|by apply completed_event_inv].
Qed.

Lemma note_trigger_keeps s0 name :
  stable (unsuspended s0) (set_self (λ s, with_triggers ((λ ts, ts ++ [name]) <$> sp_triggers s) s)).
Proof. intros [s w] [Hu [ts Ht]]. split; [done|]. cbn in *. by rewrite Ht. Qed.

Lemma create_keeps s0 name timeout : stable (unsuspended s0) (create name timeout).
Proof.
  pose proof (note_trigger_keeps s0). pose proof (unsuspended_on s0 _ (get_pod_name_untouched _ _)).
  unfold create, await_snapshot, wait_for_snapshot_to_be_completed. stable.
  all: apply unsuspended_call; stable.
Qed.

Lemma create_taken s0 s r s' :
  unsuspended s0 s → create ("suspend-" +:+ h_sandbox_id (sp_handle s.1)) 180 s = (Ret r, s') → sn_success r = true →
  ∃ uid ts, sn_uid r = Some uid ∧ sn_timestamp r = Some ts ∧
    snapshot_taken (sp_handle s0.1) s0.2 (sn_trigger_name r) uid ts.
Proof.
  intros Hu Hr Hok. unfold create in Hr.
  apply bind_ret_inv in Hr as (us & s1 & E1 & Hr). apply bind_ret_inv in Hr as (hex & s2 & E2 & Hr).
  apply bind_ret_inv in Hr as (sn & s3 & E3 & Hr). apply bind_ret_inv in Hr as (pod & s4 & E4 & Hr).
  apply bind_ret_inv in Hr as (cr & s5 & E5 & Hr).
  pose proof (stable_run _ _ _ _ _ (unsuspended_call s0 _ (now_harmless _)) Hu E1) as Hu1.
  pose proof (stable_run _ _ _ _ _ (unsuspended_call s0 _ (uuid_harmless _)) Hu1 E2) as Hu2.
  injection E3 as <- <-.
  pose proof (stable_run _ _ _ _ _ (unsuspended_on s0 _ (get_pod_name_untouched _ _)) Hu2 E4) as Hu4.
  destruct Hu as [(_ & Ei & _) _], Hu2 as [(Hw2 & Ei2 & En) _], Hu4 as [(Hw & _) _]. cbn in Ei, Ei2, Hw, Hw2, En. rewrite Ei in *.
  apply except_ret_inv in E5 as [E5|(e & k & s6 & _ & Hk & E5)].
  2: { destruct e; try done. injection Hk as <-. apply mret_inv in E5 as [<- ->]. apply mret_inv in Hr as [<- _]. done. }
  apply bind_ret_inv in E5 as (c & s6 & E6 & E5). apply bind_ret_inv in E5 as ([] & s7 & E7 & E5).
  apply mret_inv in E5 as [<- ->]. injection E7 as <-. apply world_run_inv in Hr as [Hr _]. cbn [snd] in Hr.
  apply world_run_inv in E6 as [E6 _]. rewrite En in *.
  apply await_snapshot_inv in Hr as (-> & meta & rv & uid & ts & ev & Em & Ev & -> & -> & Hin & Hc); [|done].
  exists uid, ts. split; [done|]. split; [done|]. split; [by eexists _, _|].
  unfold on_sandbox in E4. destruct (get_pod_name _) as [o4 [h4 w4]] eqn:Ep. injection E4 as -> <-.
  by exists (sp_handle s2.1), h4, pod, c, meta, rv, s2.2, w4, s6.2, ev.
Qed.

Lemma suspend_pod_snapshot response timeout s r s' :
  suspend_pod fuel response timeout s = (Ret r, s') → su_snapshot r = response.
Proof.
  unfold suspend_pod. intros Hr. run_inv. destruct (negb _); run_inv; [done|].
  repeat case_match; run_inv; by repeat case_match.
Qed.

(** C38. A sandbox whose engine is there and that is asked to suspend with a snapshot is
    not touched before its snapshot is taken. However [suspend] ends, either only reads
    and the creation of a trigger were asked for; or the trigger that it created for
    this sandbox was reported complete, with a snapshot, by the watch of that very
    trigger, before anything else was asked for, and a response names this trigger and
    this snapshot. *)
Theorem suspend_needs_snapshot wait_timeout s o s' :
  is_Some (sp_triggers s.1) → suspend fuel true wait_timeout s = (o, s') →
  rtc harmless s.2 s'.2 ∨
  ∃ trigger uid ts, snapshot_taken (sp_handle s.1) s.2 trigger uid ts ∧
    ∀ r, o = Ret r → ∃ sr, su_snapshot r = Some sr ∧ sn_success sr = true ∧ sn_trigger_name sr = trigger ∧ sn_uid sr = Some uid.
Proof.
  intros Ht Hr. assert (unsuspended s s) as Hu by (split; [by split|done]).
  unfold suspend, mbind, M_bind in Hr.
  destruct (is_suspended s) as [b s1] eqn:E1. pose proof (stable_run _ _ _ _ _ (is_suspended_keeps s) Hu E1) as Hu1.
  destruct b as [[]| |]; [injection Hr as _ <-; left; apply Hu1| |injection Hr as _ <-; left; apply Hu1..].
  destruct (require_name_hash s1) as [b s2] eqn:E2. pose proof (stable_run _ _ _ _ _ (require_name_hash_keeps s) Hu1 E2) as Hu2.
  destruct b as [[]| |]; cbn [negb] in Hr; [|injection Hr as _ <-; left; apply Hu2..].
  unfold snapshot_first, mbind, M_bind in Hr. cbn [self] in Hr. rewrite bool_decide_eq_true_2 in Hr by apply Hu2. cbn [andb] in Hr.
  destruct (create _ 180 s2) as [b s3] eqn:E3. pose proof (stable_run _ _ _ _ _ (create_keeps s _ _) Hu2 E3) as Hu3.
  destruct b as [sr| |]; [|injection Hr as _ <-; left; apply Hu3..]. cbn in Hr.
  destruct (sn_success sr) eqn:Hok; [|injection Hr as _ <-; left; apply Hu3]. right.
  destruct (create_taken s s2 sr s3 Hu2 E3 Hok) as (uid & ts & Eu & _ & Hc). exists (sn_trigger_name sr), uid, ts.
  split; [done|]. intros r ->. exists sr. split_and!; [by eapply suspend_pod_snapshot|done..].
Qed.
End suspend.

(** ** Restore *)

(** The pod's own report: its first [PodRestored] condition is true and names the
    snapshot. *)
Definition pod_reports_restore (uid : string) (pod : pod_view) : Prop :=
  ∃ before c after, pv_conditions pod = before ++ c :: after ∧
    Forall (λ b, pc_type b ≠ "PodRestored") before ∧
    pc_type c = "PodRestored" ∧ pc_status c = "True" ∧ mentions uid (pc_message c) = true.

Lemma restored_condition_inv uid conds :
  rk_success (restored_condition uid conds) = true →
  ∃ before c after, conds = before ++ c :: after ∧ Forall (λ b, pc_type b ≠ "PodRestored") before ∧
    pc_type c = "PodRestored" ∧ pc_status c = "True" ∧ mentions uid (pc_message c) = true.
Proof.
  induction conds as [|c conds IH]; cbn; [done|]. case_decide as Ht.
  - case_decide as Hs; [|done]. destruct (mentions uid _) eqn:Hm; [|done]. intros _. exists [], c, conds. by split_and!.
  - intros Hr. destruct (IH Hr) as (b & c' & a & -> & Hb & Hc). exists (c :: b), c', a. split_and!; [done| |apply Hc..].
    by constructor.
Qed.

(** A listed snapshot has a name. *)
Lemma list_item_named f item d : list_item f item = Ret (Some d) → sd_uid d ≠ EmptyString.
Proof.
  unfold list_item. intros H. run_inv. destruct (sf_ready_only f && negb _); [done|]. run_inv.
  destruct (negb (in_period f _)); [done|]. run_inv. destruct (negb (truthy _)) eqn:Et; [done|]. run_inv.
  injection H as H. apply snapshot_detail_inv in H as (-> & _ & _). intros E. by rewrite E in Et.
Qed.

Section restore.
Context {W : Type} {Hclock : Clock W} {Hwall : WallClock W} {Hk8s : K8sApi W} {Hhost : Host W} {Hnet : Net W}
  {Hpods : Pods W} {Huuid : Uuid W} (fuel : nat).

(** Some read of a pod gave this answer. *)
Definition pod_confirmed (uid : string) : Prop :=
  ∃ name ns (w : W) pod w', read_pod name ns w = (Ret pod, w') ∧ pod_reports_restore uid pod.

Lemma check_restored_inv ns name uid (w : W) c w' :
  check_pod_restored_from_snapshot ns name uid w = (Ret c, w') → rk_success c = true → pod_confirmed uid.
Proof.
  unfold check_pod_restored_from_snapshot. intros Hr Hok.
  apply except_ret_inv in Hr as [Hr|(e & k & s1 & _ & Hk & Hr)];
    [|injection Hk as <-; apply mret_inv in Hr as [<- _]; by destruct e].
  run_inv. destruct (pv_conditions a) as [|c0 cs] eqn:Ec; [done|].
  apply restored_condition_inv in Hok. rewrite <-Ec in Hok. unfold pod_confirmed. eauto 10.
Qed.

Lemma restore_internal_inv target timeout s r s' :
  restore_internal fuel target timeout s = (Ret r, s') → rt_success r = true →
  match target with
  | Some (String _ _ as uid) => rt_restored r = true ∧ rt_uid r = Some uid ∧ pod_confirmed uid
  | _ => rt_restored r = false ∧ rt_uid r = None
  end.
Proof.
  unfold restore_internal. intros Hr Hok. run_inv. destruct (negb _); [run_inv; done|]. run_inv.
  match type of Hr with (if ?x then _ else _) _ = _ => destruct x end; [|run_inv; done].
  destruct target as [[|c uid]|]; [run_inv; done| |run_inv; done]. run_inv.
  destruct (rk_success _) eqn:Ec; [|done]. split_and!; [done..|].
  match goal with H : is_restored_from_snapshot _ _ = _ |- _ => rename H into Hc end.
  unfold is_restored_from_snapshot in Hc. rewrite decide_False in Hc by done. run_inv.
  destruct (negb _); [run_inv; done|]. run_inv.
  apply world_run_inv in Hc as [Hc _]. by eapply check_restored_inv.
Qed.

(** The snapshot was on the list of the ready snapshots of this sandbox. *)
Definition on_ready_list (uid : string) : Prop :=
  ∃ (s : snap * W) l s' d, list_snapshots NoFilter s = (Ret l, s') ∧ d ∈ ls_snapshots l ∧
    sd_uid d = uid ∧ sd_status d = "Ready" ∧ uid ≠ EmptyString.

Lemma listed_ready (s : snap * W) l s' d :
  list_snapshots NoFilter s = (Ret l, s') → ls_success l = true → d ∈ ls_snapshots l →
  sd_status d = "Ready" ∧ sd_uid d ≠ EmptyString.
Proof.
  intros Hl Hok Hd. cbn in Hl. apply list_filtered_inv in Hl as (w & items & _ & E); [|done]. rewrite E in Hd.
  apply elem_of_sorted, list_elem_of_omap in Hd as (i & _ & Hk). unfold kept in Hk.
  destruct (list_item _ i) as [[d'|]| |] eqn:Ei; simplify_eq. split; [|by eapply list_item_named].
  by apply (list_item_inv _ _ _ Ei).
Qed.

Lemma verify_snapshot_exists_inv uid s s' :
  verify_snapshot_exists uid s = (Ret (), s') → on_ready_list uid.
Proof.
  unfold verify_snapshot_exists. intros Hr. run_inv. destruct (sp_triggers _); [|done]. run_inv.
  destruct (ls_success a) eqn:Hok; cbn [negb] in Hr; [|done].
  destruct (existsb _ _) eqn:E; [|done]. apply existsb_exists in E as (d & Hd%list_elem_of_In & <-%bool_decide_eq_true).
  destruct (listed_ready _ _ _ _ Hrun Hok Hd). unfold on_ready_list. eauto 10.
Qed.

(** A restore that reports success restored: the snapshot was on the list of ready
    snapshots of this sandbox, and the new pod itself reports that it was restored
    from a snapshot whose name is in its message. *)
Theorem restore_confirmed uid timeout s r s' :
  restore fuel uid timeout s = (Ret r, s') → rt_success r = true →
  rt_restored r = true ∧ rt_uid r = Some uid ∧ on_ready_list uid ∧ pod_confirmed uid.
Proof.
  unfold restore. intros Hr Hok.
  apply except_ret_inv in Hr as [Hr|(e & k & s1 & _ & Hk & Hr)];
    [|injection Hk as <-; apply mret_inv in Hr as [<- _]; by destruct e].
  run_inv. destruct a. apply verify_snapshot_exists_inv in Hrun as Hl.
  destruct (negb _); [run_inv; done|]. run_inv. destruct (negb _); [run_inv; done|].
  apply restore_internal_inv in Hr; [|done]. destruct Hl as (sl & l & sl' & d & ? & ? & ? & ? & Hne).
  destruct uid as [|c uid]; [done|]. destruct Hr as (? & ? & ?). split_and!; [done..| |done].
  unfold on_ready_list. eauto 12.
Qed.

Lemma latest_inv s u s' :
  get_latest_snapshot_uid s = (Ret (Some u), s') →
  ∃ l d rest, list_snapshots (W := W) NoFilter s = (Ret l, s') ∧ ls_success l = true ∧
    ls_snapshots l = d :: rest ∧ sd_uid d = u.
Proof.
  unfold get_latest_snapshot_uid. intros Hr. apply bind_ret_inv in Hr as (s0 & s1 & [= <- <-] & Hr).
  destruct (sp_triggers _) as [ts|]; [|by apply mret_inv in Hr as []].
  apply bind_ret_inv in Hr as (l & s2 & Hl & Hr). destruct (ls_success l) eqn:Hok; cbn [negb] in Hr; [|done].
  apply mret_inv in Hr as [Hr ->]. destruct (ls_snapshots l) as [|d rest] eqn:El; [done|]. injection Hr as <-. eauto 10.
Qed.

(** [resume] restores the newest ready snapshot: when it reports that the sandbox was
    restored, the snapshot is the first of the list it read, and the pod confirms it. *)
Theorem resume_restores_newest timeout s r s' :
  resume fuel timeout s = (Ret r, s') → rt_success r = true → rt_restored r = true →
  ∃ s1 l s2 d rest, list_snapshots (W := W) NoFilter s1 = (Ret l, s2) ∧ ls_success l = true ∧
    ls_snapshots l = d :: rest ∧ rt_uid r = Some (sd_uid d) ∧ pod_confirmed (sd_uid d).
Proof.
  unfold resume. intros Hr Hok Hre. run_inv. destruct (negb _); [run_inv; done|]. run_inv.
  match type of Hr with (match ?x with _ => _ end) _ = _ => destruct x as [latest|] end; [|run_inv; done]. run_inv.
  destruct (negb _); [run_inv; done|]. run_inv. destruct (negb _); [run_inv; done|].
  apply restore_internal_inv in Hr; [|done].
  apply except_ret_inv in Hrun0 as [Hl|(e & k & s4 & _ & Hk & Hl)]; [|injection Hk as <-; by apply mret_inv in Hl as []].
  destruct latest as [[|c u]|]; [destruct Hr; congruence| |destruct Hr; congruence].
  apply bind_ret_inv in Hl as (o & sl & Hl & Ho). apply mret_inv in Ho as [[= ->] _].
  apply latest_inv in Hl as (l & d & rest & Hl & Hls & El & Eu). destruct Hr as (_ & Hu & Hc).
  exists s0, l, sl, d, rest. rewrite Eu. by split_and!.
Qed.

(** When the state of the sandbox cannot be read, [resume] reports success although it
    has done nothing: no snapshot is looked up and the sandbox stays suspended. *)
Theorem resume_blind_success timeout (s : snap) (w : W) e w' :
  get_object SANDBOX (h_namespace (sp_handle s)) (h_sandbox_id (sp_handle s)) w = (Raise e, w') →
  resume fuel timeout (s, w) = (Ret (Restoration true false None EmptyString SUCCESS_CODE), (s, w')).
Proof.
  intros E. assert (is_suspended (s, w) = (Ret false, (s, w'))) as Hs.
  { unfold is_suspended. rewrite (bind_step self _ (s, w) s (s, w) eq_refl). eapply except_caught; [|done].
    apply bind_raise. unfold world. cbn. by rewrite E. }
  unfold resume. by rewrite (bind_step _ _ _ _ _ Hs).
Qed.
End restore.
