(* ===== verification/SnapshotSim.v ===== *)
(** A simulated cluster with pod snapshots, which satisfies the documented behaviour
    the theorems on snapshots rely on, and runs of the examples in it. *)

From Stdlib Require Import Ascii String ZArith QArith Qround Lqa Lia Sorting.Sorted.
From stdpp Require Import base option list strings sets gmap pretty.
From S2P Require Import Prelude Hoare Float Json IpAddress PyText Models Utils PyList World K8sHelper Http Tunnel Connector Sandbox SandboxClient SandboxClientProofs DateTime Snapshots SnapshotSandbox SnapshotProofs SnapshotSandboxProofs.

#[local] Open Scope Z_scope.

(** The wall clock in seconds, the snapshots and triggers that exist, the mode of the
    one sandbox, the snapshot its claim names, and whether the API server answers. *)
Record psim := PSim {
  ps_now : Z;
  ps_names : list string;
  ps_triggers : list string;
  ps_suspended : bool;
  ps_restore : json;
  ps_down : bool;
}.

Definition with_now (t : Z) (w : psim) := PSim t (ps_names w) (ps_triggers w) (ps_suspended w) (ps_restore w) (ps_down w).
Definition with_names (l : list string) (w : psim) := PSim (ps_now w) l (ps_triggers w) (ps_suspended w) (ps_restore w) (ps_down w).
Definition with_psim_triggers (l : list string) (w : psim) := PSim (ps_now w) (ps_names w) l (ps_suspended w) (ps_restore w) (ps_down w).
Definition with_suspended (b : bool) (w : psim) := PSim (ps_now w) (ps_names w) (ps_triggers w) b (ps_restore w) (ps_down w).
Definition with_restore (u : json) (w : psim) := PSim (ps_now w) (ps_names w) (ps_triggers w) (ps_suspended w) u (ps_down w).

(** A snapshot's name fixes the time it was taken at. *)
Definition psim_time (n : string) : Z := 63838000000000000 + Z.of_nat (len n) mod 1000 * 1000000000.
Definition psim_created (n : string) : option Z := Some (whole_seconds (psim_time n)).

Definition psim_item (n : string) : json :=
  JObj [("metadata", JObj [("name", JStr n); ("creationTimestamp", JStr (format_utc (psim_time n)))]);
        ("status", JObj [("conditions", JList [JObj [("type", JStr "Ready"); ("status", JStr "True")]])])].

Definition psim_sandbox (w : psim) : json :=
  JObj [("spec", JObj [("operatingMode", JStr (if ps_suspended w then "Suspended" else "Running"));
                       ("podTemplate", JObj [("metadata", JObj [("annotations",
                          JObj [(PODSNAPSHOT_NAME_ANNOTATION, ps_restore w)])])])]);
        ("status", JObj [("selector", JStr "agents.x-k8s.io/sandbox-name-hash=abc")])].

Definition psim_event : json :=
  JObj [("type", JStr "MODIFIED");
        ("object", JObj [("status", JObj [("snapshotCreated", JObj [("name", JStr "snap-new")]);
          ("conditions", JList [JObj [("type", JStr "Triggered"); ("status", JStr "True");
             ("reason", JStr "Complete"); ("lastTransitionTime", JStr "2023-12-18T00:00:00Z")]])])])].

Definition psim_name (body : json) : string :=
  match body with JObj [_; _; ("metadata", JObj (("name", JStr n) :: _)); _] => n | _ => EmptyString end.

Definition psim_patch (body : json) (w : psim) : psim :=
  match body with
  | JObj [("spec", JObj [("operatingMode", JStr m)])] => with_suspended (bool_decide (m = "Suspended")) w
  | JObj [("spec", JObj [("additionalPodMetadata", JObj [("annotations", JObj [(_, u)])])])] => with_restore u w
  | _ => w
  end.

#[global] Instance psim_api : K8sApi psim := {
  create_object r ns body w := (Ret body, with_psim_triggers (psim_name body :: ps_triggers w) w);
  get_object r ns n w :=
    if ps_down w then (Raise (ApiException 503), w)
    else if decide (r = SANDBOX) then (Ret (psim_sandbox w), w)
    else if decide (n ∈ ps_names w) then (Ret (psim_item n), w) else (Raise (ApiException 404), w);
  delete_object r ns n uid w :=
    if decide (r = TRIGGER) then
      if decide (n ∈ ps_triggers w)
      then (Ret (JObj []), with_psim_triggers (filter (λ x, x ≠ n) (ps_triggers w)) w)
      else (Raise (ApiException 404), w)
    else if decide (n ∈ ps_names w)
    then (Ret (JObj []), with_names (filter (λ x, x ≠ n) (ps_names w)) w)
    else (Raise (ApiException 404), w);
  patch_object r ns n body w := (Ret body, psim_patch body w);
  list_objects r ns sel w := (Ret (JObj [("items", JList (psim_item <$> ps_names w))]), w);
  watch_stream req w := SEvent psim_event w (SEnd w);
}.

#[global] Instance psim_clock : Clock psim := {
  monotonic w := (ps_now w * 1000000000, w);
  sleep d w := with_now (ps_now w + Z.max 0 d) w;
  utcnow_us w := (63838000000000000 + ps_now w * 1000000, w);
  utcnow_isoformat w := ("2023-12-18T00:00:00+00:00", w);
}.
(** The wall clock is set back and forth by ten seconds every other second. *)
Definition psim_jitter (now : Z) : Z := if Z.even (now / 2) then 5 else -5.
#[global] Instance psim_wall : WallClock psim := {
  time_time w := (Ret (PFin (inject_Z (ps_now w + psim_jitter (ps_now w)))), w);
  time_sleep d w := (Ret (), match d with PFin q => with_now (ps_now w + Qceiling q) w | _ => w end);
}.
#[global] Instance psim_host : Host psim := {
  free_port w := (Ret 40000, w);
  port_open _ w := (Ret true, w);
  kubectl_get _ w := (Ret (0, EmptyString), w);
  temporary_file w := (Ret (), w);
  popen _ w := (Raise OSError, w);
  Tunnel.poll _ w := (Ret (Some 1), w);
  terminate_process _ w := (Ret (), w);
  wait_process _ w := (Ret (), w);
  kill_process _ w := (Ret (), w);
  host_files _ := ∅;
  set_host_files _ w := w;
  host_mkstemp _ := None;
}.
#[global] Instance psim_net : Net psim := {
  session_request _ w := (Raise (RequestException None), w);
  session_close w := (Ret (), w);
  response_close _ w := (Ret (), w);
  grpc_open _ _ w := (Ret 0%nat, w);
  grpc_close _ w := (Ret (), w);
}.
#[global] Instance psim_uuid : Uuid psim := λ w, (Ret "0123456789abcdef", w).

(** A pod runs unless the sandbox is suspended; it reports the snapshot it was restored from. *)
#[global] Instance psim_pods : Pods psim := {
  read_pod _ _ w :=
    if ps_suspended w then (Raise (ApiException 404), w)
    else (Ret (PodView (Some "pod-1") false
                 [PodCondition "Ready" "True" None None;
                  PodCondition "PodRestored" "True" None
                    (Some ("restored from " +:+ default "snap-newer" (as_str (ps_restore w))))]), w);
}.

(** ** The laws *)

Lemma psim_time_range n : 0 ≤ psim_time n ≤ DATETIME_MAX_US.
Proof. unfold psim_time, DATETIME_MAX_US. pose proof (Z.mod_pos_bound (Z.of_nat (len n)) 1000). lia. Qed.

#[global] Instance psim_creation : CreationLaws psim psim_created.
Proof.
  intros ns w items w' i m n c (sel & resp & v & [= <- _] & [= <-] & Hit) Hi Hm Hn Hc.
  assert (items = psim_item <$> ps_names w) as ->.
  { destruct (ps_names w); by injection Hit as <-. }
  apply list_elem_of_fmap in Hi as (n' & -> & _). injection Hm as <-. injection Hn as <-. injection Hc as <-.
  apply creation_time_format, psim_time_range.
Qed.

Definition psim_clock_of (w : psim) : Q := inject_Z (ps_now w).

#[global] Instance psim_wall_laws : WallLaws psim psim_clock_of 5.
Proof.
  split.
  - intros w. eexists _, w. split; [done|]. split; [apply Qle_refl|]. unfold psim_clock_of, psim_jitter, Qminus.
    rewrite <-inject_Z_opp, <-!inject_Z_plus, <-!Zle_Qle. case_match; lia.
  - intros q w. eexists. split; [done|]. cbn. unfold psim_clock_of. cbn. rewrite inject_Z_plus.
    apply Qplus_le_r, Qle_ceiling.
Qed.

#[global] Instance psim_poll_laws : PollLaws psim psim_clock_of 5.
Proof.
  split; [apply _|intros r ns n w|intros p ns w]; cbn; repeat case_match; (split; [done|apply Qle_refl]).
Qed.

Definition psim_there (ns t : string) (w : psim) : Prop := t ∈ ps_triggers w.

#[global] Instance psim_trigger_laws : TriggerLaws psim psim_there.
Proof.
  split; cbn; unfold psim_there.
  - intros ns t w o w' E. rewrite decide_True in E by done. case_decide; [|done]. injection E as _ <-. cbn.
    rewrite list_elem_of_filter. naive_solver.
  - intros ns t w w' E. rewrite decide_True in E by done. case_decide; [done|]. by injection E as <-.
  - intros ns t w. by repeat case_decide.
  - intros ns t ns' t' w Hn. cbn. rewrite decide_True by done. case_decide; [|done]. cbn.
    rewrite list_elem_of_filter. naive_solver.
  - intros ns t [] w Hn; done.
  - done.
Qed.

(** What depends on neither the clock nor the triggers is kept by everything that
    does not delete or patch. *)
Lemma psim_neutral (P : psim → Prop) :
  (∀ t w, P w → P (with_now t w)) → (∀ l w, P w → P (with_psim_triggers l w)) → SnapNeutral psim P.
Proof.
  intros Hnow Htr. split; [split|..]; unfold stable; cbn; intros; repeat case_match; auto.
Qed.

(** ** Examples *)

Definition demo_handle : handle :=
  handle_new "claim" "box" "default" (CInCluster (InClusterConfig 8888)) None.
Definition demo_snap : snap := Snap demo_handle (Some []).
Definition demo_world : psim := PSim 0 ["snap-new"; "snap-newest"; "snap"] [] false JNull false.

(** What a run returned *)
Definition got {S A} (d : A) (r : outcome A * S) : A := match r.1 with Ret a => a | _ => d end.

Lemma got_run {S A} (d : A) (r : outcome A * S) : is_ret r.1 = true → r = (Ret (got d r), r.2).
Proof. by destruct r as [[]]. Qed.

Definition listing : outcome ListSnapshotResult * (snap * psim) := list_snapshots NoFilter (demo_snap, demo_world).

Lemma snapshots_newest_first_witness :
  let r := got (list_failure EmptyString) listing in
  sd_uid <$> ls_snapshots r = ["snap-newest"; "snap-new"; "snap"] ∧
  StronglySorted (λ a b, ∀ ta tb, created_at ta a → created_at tb b → whole_seconds tb ≤ whole_seconds ta)
    (ls_snapshots r).
Proof.
  split; [by vm_compute|].
  apply (snapshots_newest_first NoFilter (SnapFilter true None None) (demo_snap, demo_world) _ listing.2).
  - apply (got_run (list_failure EmptyString) listing). by vm_compute.
  - reflexivity.
  - by vm_compute.
Defined.

(** Cleaning up what was taken before a date spares a later snapshot. *)
Definition cutoff : date_arg := DateTime_ (DateTime (psim_time "snap-new") (Some 0)).

Lemma delete_all_spares_period_witness :
  "snap-newest" ∈ ps_names (delete_all "created_before" cutoff 180 (demo_snap, demo_world)).2.2.
Proof.
  assert (SnapNeutral psim (λ w, "snap-newest" ∈ ps_names w)) as HN by (by apply psim_neutral).
  apply (delete_all_spares_period (λ w, "snap-newest" ∈ ps_names w) psim_created _ _ (psim_time "snap-new")).
  - by right.
  - reflexivity.
  - intros ns uid c [= <-] Hc w Hw. cbn. rewrite decide_False in Hc by done.
    assert (uid ≠ "snap-newest") by (intros ->; vm_compute in Hc; done).
    repeat case_decide; cbn; [done..| |done]. apply list_elem_of_filter. done.
  - cbn. set_solver.
Defined.

Lemma triggers_not_forgotten_witness :
  ∃ ts' w', delete_manual_triggers "default" 3 (["t1"; "t2"], with_psim_triggers ["t2"; "t1"] demo_world) =
      (Ret (), (ts', w')) ∧
    ts' `sublist_of` ["t1"; "t2"] ∧ ∀ t, t ∈ ["t1"; "t2"] → t ∉ ts' → ¬ psim_there "default" t w'.
Proof. apply (triggers_not_forgotten psim_there). Defined.


Definition suspended_run : outcome SuspendResponse * (snap * psim) :=
  suspend 91 true 180 (demo_snap, demo_world).

Lemma harmless_keeps_running w w' : rtc harmless w w' → ps_suspended w = false → ps_suspended w' = false.
Proof.
  induction 1 as [|w w1 w' Hw _ IH]; [done|]. intros Hr. apply IH. clear IH.
  destruct Hw as [r ns n w| | req w w1 Hin| |]; cbn; try done; [by repeat case_match|]. cbn in Hin. set_solver.
Qed.

Lemma suspend_needs_snapshot_witness :
  su_success (got (Suspend false None EmptyString 0) suspended_run) = true ∧ ps_suspended suspended_run.2.2 = true ∧
  ∃ trigger uid ts, snapshot_taken demo_handle demo_world trigger uid ts ∧
    ∀ r, suspended_run.1 = Ret r →
      ∃ sr, su_snapshot r = Some sr ∧ sn_success sr = true ∧ sn_trigger_name sr = trigger ∧ sn_uid sr = Some uid.
Proof.
  split; [by vm_compute|]. assert (ps_suspended suspended_run.2.2 = true) as Hs by (by vm_compute). split; [done|].
  destruct (suspend_needs_snapshot 91 180 (demo_snap, demo_world) suspended_run.1 suspended_run.2) as [Hh|Ht];
    [by eexists|apply surjective_pairing| |exact Ht].
  apply harmless_keeps_running in Hh; [by rewrite Hs in Hh|done].
Defined.

Definition restored_run : outcome RestorationResponse * (snap * psim) :=
  restore 91 "snap" 180 (demo_snap, with_suspended true demo_world).

Lemma restore_confirmed_witness :
  let r := got (Restoration false false None EmptyString 0) restored_run in
  rt_restored r = true ∧ rt_uid r = Some "snap" ∧ on_ready_list (W := psim) "snap" ∧ pod_confirmed (W := psim) "snap".
Proof.
  apply (restore_confirmed 91 "snap" 180 (demo_snap, with_suspended true demo_world) _ restored_run.2).
  - apply got_run. by vm_compute.
  - by vm_compute.
Defined.

Definition resumed_run : outcome RestorationResponse * (snap * psim) :=
  resume 91 180 (demo_snap, with_suspended true (with_names ["snap"; "snap-newer"] demo_world)).

Lemma resume_restores_newest_witness :
  let r := got (Restoration false false None EmptyString 0) resumed_run in
  ∃ s1 l s2 d rest, list_snapshots (W := psim) NoFilter s1 = (Ret l, s2) ∧ ls_success l = true ∧
    ls_snapshots l = d :: rest ∧ rt_uid r = Some (sd_uid d) ∧ pod_confirmed (W := psim) (sd_uid d).
Proof.
  apply (resume_restores_newest 91 180
    (demo_snap, with_suspended true (with_names ["snap"; "snap-newer"] demo_world)) _ resumed_run.2).
  - apply got_run. by vm_compute.
  - by vm_compute.
  - by vm_compute.
Defined.

(** The API server does not answer, and the sandbox is suspended. *)
Definition blind : psim := PSim 0 ["snap"] [] true JNull true.

Lemma resume_blind_success_witness :
  resume 91 180 (demo_snap, blind) = (Ret (Restoration true false None EmptyString SUCCESS_CODE), (demo_snap, blind)) ∧
  ps_suspended blind = true.
Proof. split; [|done]. apply (resume_blind_success 91 180 demo_snap blind (ApiException 503)). reflexivity. Defined.
