(* ===== verification/RlResources.v ===== *)
(** Templates, warm pools and namespaces of one cluster: models [resources.py] (with
    [constants.py], and [TemplateSpec] of [config.py]) of
    [src/examples/agent-sandbox-rl/agent_sandbox_rl].

    The API server is the [K8sApi] of [World], with what else this package asks of
    it in [ClusterApi]. Every call may find what other runs did meanwhile: the world
    after a call is whatever it is then. Log lines are left out. *)

From Stdlib Require Import Ascii String ZArith Lia.
From stdpp Require Import base option list strings sets pretty.
From S2P Require Import Prelude Float Json PyList PyText IpAddress Models Utils World K8sHelper Budget Snapshots.

#[local] Open Scope Z_scope.

(** ** Constants *)

Definition GROUP : string := "extensions.agents.x-k8s.io".
Definition VERSION : string := "v1beta1".
Definition TEMPLATES : resource := Resource GROUP VERSION "sandboxtemplates".
Definition WARMPOOLS : resource := Resource GROUP VERSION "sandboxwarmpools".
Definition RUNTIME_CONTAINER : string := "agent-runtime".
Definition TASK_IMAGE_PLACEHOLDER : string := "{task_image}".
Definition MANAGED_BY_LABEL : string := "app".
Definition MANAGED_BY_VALUE : string := "agent-sandbox-rl".
Definition DEFAULT_LABELS : list (string * string) := [(MANAGED_BY_LABEL, MANAGED_BY_VALUE)].
Definition RUN_ID_LABEL : string := "agents.x-k8s.io/asrl-run-id".
Definition POD_RUN_ID_LABEL : string := "agent-sandbox-rl/run-id".
Definition RESERVED_POD_LABEL_PREFIXES : list string := ["agents.x-k8s.io/"; "extensions.agents.x-k8s.io/"].
Definition ON_DEMAND_ANNOTATION : string := "agent-sandbox-rl/on-demand".
Definition RECONCILE_ATTEMPTS : nat := 3.

(** ** What the API server offers besides custom objects *)

(** A page of a list of pods: the length of [items], and what [metadata] holds. *)
Record pod_page := PodPage {
  pp_items : Z;
  pp_remaining : option Z;
  pp_continue : option string;
}.

Class ClusterApi (W : Type) := {
  (** [create_namespaced_custom_object(..., dry_run="All")] *)
  dry_run_object : resource → string → json → M W json;
  (** [list_namespaced_pod(namespace, limit, _continue, label_selector)] *)
  list_pods : string → Z → option string → option string → M W pod_page;
  create_ns : string → list (string * string) → M W ();
  (** [read_namespace(name).status.phase] *)
  read_ns_phase : string → M W (option string);
  delete_ns : string → M W ();
}.

(** ** Manifests *)

Record ResourceSpec := ResSpec {
  rsp_cpu : string;
  rsp_memory : string;
  rsp_cpu_limit : option string;
  rsp_memory_limit : option string;
}.

Record TemplateSpec := TemplSpec {
  ts_resources : ResourceSpec;
  ts_keepalive_command : list string;
  ts_runtime_class : option string;
  ts_node_selector : option (list (string * string));
  ts_image_pull_secret : option string;
  ts_image_pull_policy : string;
  ts_colocate_replicas : bool;
  ts_extra_pod_spec : list (string * json);
  ts_network_policy_management : option string;
  ts_automount_service_account_token : bool;
  ts_share_process_namespace : bool;
  ts_extra_template_spec : list (string * json);
}.

(** The field validators of [TemplateSpec] *)
Definition validate_template_spec (t : TemplateSpec) : outcome TemplateSpec :=
  if negb (str_mem (ts_image_pull_policy t) ["Always"; "IfNotPresent"; "Never"]) then Raise ValueError
  else if match ts_network_policy_management t with
          | Some v => negb (str_mem v ["Managed"; "Unmanaged"])
          | None => false
          end then Raise ValueError
  else if bool_decide (is_Some (dget "podTemplate" (ts_extra_template_spec t))) then Raise ValueError
  else if bool_decide (is_Some (dget "networkPolicyManagement" (ts_extra_template_spec t))) then Raise ValueError
  else Ret t.

(** [{**a, **b}], [a.update(b)] *)
Definition dupdate {A} (a b : list (string * A)) : list (string * A) :=
  foldl (λ d kv, dset kv.1 kv.2 d) a b.

Definition jlabels (l : list (string * string)) : json := JObj ((λ kv, (kv.1, JStr kv.2)) <$> l).
Definition jstrs (l : list string) : json := JList (JStr <$> l).

(** [isinstance(x, dict) and "name" in x] *)
Definition is_named (v : json) : bool :=
  match v with JObj d => bool_decide (is_Some (dget "name" d)) | _ => false end.

(** [x.get("name")] of a dict *)
Definition name_of (v : json) : json :=
  match v with JObj d => default JNull (dget "name" d) | _ => JNull end.

(** [next((i for i, x in enumerate(l) if x.get("name") == n), None)] *)
Fixpoint index_named (n : json) (l : list json) : option nat :=
  match l with
  | [] => None
  | x :: l' => if json_eqb (name_of x) n then Some 0%nat else S <$> index_named n l'
  end.

(** The value [_deep_merge] stores under a key that holds [cur]. *)
Fixpoint merge_value (cur : option json) (value : json) {struct value} : json :=
  match value, cur with
  | JObj o, Some (JObj b) =>
      JObj ((fix go (d : list (string * json)) (o : list (string * json)) : list (string * json) :=
               match o with
               | [] => d
               | (k, v) :: o' => go (dset k (merge_value (dget k d) v) d) o'
               end) b o)
  | JList l, Some (JList b) =>
      if forallb is_named b && forallb is_named l then
        JList ((fix go (acc : list json) (l : list json) : list json :=
                  match l with
                  | [] => acc
                  | item :: l' =>
                      go match index_named (name_of item) acc with
                         | Some i => <[i := merge_value (acc !! i) item]> acc
                         | None => acc ++ [item]
                         end l'
                  end) b l)
      else value
  | _, _ => value
  end.

Definition deep_merge (base override : json) : json := merge_value (Some base) override.

Definition container_resources (spec : ResourceSpec) : json :=
  let field k (v : option string) := match v with Some x => [(k, JStr x)] | None => [] end in
  let limits := field "cpu" (rsp_cpu_limit spec) ++ field "memory" (rsp_memory_limit spec) in
  JObj (("requests", JObj [("cpu", JStr (rsp_cpu spec)); ("memory", JStr (rsp_memory spec))])
        :: match limits with [] => [] | _ => [("limits", JObj limits)] end).

(** A [Resources] object: the namespace and the labels of what it creates. *)
Record resources := Resources {
  rs_namespace : string;
  rs_labels : list (string * string);
}.

(** [Resources.__init__] *)
Definition new_resources (namespace : string) (labels : list (string * string)) : resources :=
  Resources namespace (dupdate labels DEFAULT_LABELS).

Definition pod_template_labels (rs : resources) (template_name : string) : list (string * string) :=
  let labels := dset "sandbox" template_name (rs_labels rs) in
  match dget RUN_ID_LABEL (rs_labels rs) with
  | Some run_id => if (run_id =? EmptyString)%string then labels else dset POD_RUN_ID_LABEL run_id labels
  | None => labels
  end.

Definition fleet_pod_labels (rs : resources) : list (string * string) :=
  filter (λ kv, negb (kv.1 =? "sandbox")%string &&
                negb (existsb (λ p, startswith p kv.1) RESERVED_POD_LABEL_PREFIXES))
    (pod_template_labels rs EmptyString).

Definition runtime_container (image : string) (t : TemplateSpec) : json :=
  JObj [("name", JStr RUNTIME_CONTAINER);
        ("image", JStr image);
        ("imagePullPolicy", JStr (ts_image_pull_policy t));
        ("command", jstrs (ts_keepalive_command t));
        ("stdin", JBool true);
        ("tty", JBool true);
        ("resources", container_resources (ts_resources t))].

Definition colocation_affinity (template_name : string) : json :=
  JObj [("podAffinity", JObj [("preferredDuringSchedulingIgnoredDuringExecution",
    JList [JObj [("weight", JInt 100);
                 ("podAffinityTerm",
                  JObj [("labelSelector", JObj [("matchLabels", JObj [("sandbox", JStr template_name)])]);
                        ("topologyKey", JStr "kubernetes.io/hostname")])]])])].

(** [d[k] = v] when the setting is there *)
Definition set_if (c : bool) (k : string) (v : json) (d : list (string * json)) : list (string * json) :=
  if c then dset k v d else d.

(** The pod spec before [extra_pod_spec] *)
Definition base_pod_spec (image template_name : string) (t : TemplateSpec) : list (string * json) :=
  let d := [("containers", JList [runtime_container image t]);
            ("automountServiceAccountToken", JBool (ts_automount_service_account_token t));
            ("shareProcessNamespace", JBool (ts_share_process_namespace t))] in
  let d := match ts_runtime_class t with
           | Some v => set_if (truthy (JStr v)) "runtimeClassName" (JStr v) d | None => d end in
  let d := match ts_node_selector t with
           | Some v => set_if (truthy (jlabels v)) "nodeSelector" (jlabels v) d | None => d end in
  let d := match ts_image_pull_secret t with
           | Some v => set_if (truthy (JStr v)) "imagePullSecrets" (JList [JObj [("name", JStr v)]]) d
           | None => d end in
  set_if (ts_colocate_replicas t) "affinity" (colocation_affinity template_name) d.

(** One container of [extra_pod_spec["containers"]] *)
Definition merge_container (containers : list json) (extra_c : json) : list json :=
  match extra_c with
  | JObj d =>
      let c_name := default JNull (dget "name" d) in
      if truthy c_name then
        match index_named c_name containers with
        | Some i => <[i := deep_merge (default JNull (containers !! i)) extra_c]> containers
        | None => containers ++ [extra_c]
        end
      else match containers with
           | c :: rest => deep_merge c extra_c :: rest
           | [] => [extra_c]
           end
  | _ => containers
  end.

(** [if template.extra_pod_spec:] *)
Definition apply_extra (extra pod_spec : list (string * json)) : outcome (list (string * json)) :=
  extra ← match dget "affinity" extra, dget "affinity" pod_spec with
          | Some (JObj a), Some (JObj b) => Ret (dset "affinity" (JObj (dupdate b a)) extra)
          | Some _, Some _ => Raise TypeError
          | _, _ => Ret extra
          end;
  '(extra, pod_spec) ← match dget "containers" extra with
          | None => Ret (extra, pod_spec)
          | Some (JList l) =>
              let old := match dget "containers" pod_spec with Some (JList cs) => cs | _ => [] end in
              Ret (dpop "containers" extra, dset "containers" (JList (foldl merge_container old l)) pod_spec)
          | Some _ => Raise TypeError
          end;
  Ret (dupdate pod_spec extra).

(** The task-image placeholder of a container *)
Definition resolve_container (image : string) (t : TemplateSpec) (c : json) : json :=
  match c with
  | JObj d =>
      if is_str (default JNull (dget "image" d)) TASK_IMAGE_PLACEHOLDER then
        let d := dset "image" (JStr image) d in
        JObj (if dget "imagePullPolicy" d is Some _ then d
              else dset "imagePullPolicy" (JStr (ts_image_pull_policy t)) d)
      else c
  | _ => c
  end.

Definition resolve_containers (image : string) (t : TemplateSpec) (key : string)
    (pod_spec : list (string * json)) : outcome (list (string * json)) :=
  match dget key pod_spec with
  | None => Ret pod_spec
  | Some v => l ← py_iter v; Ret (dset key (JList (resolve_container image t <$> l)) pod_spec)
  end.

Definition pod_spec_of (image template_name : string) (t : TemplateSpec) : outcome (list (string * json)) :=
  let d := base_pod_spec image template_name t in
  d ← (if ts_extra_pod_spec t is [] then Ret d else apply_extra (ts_extra_pod_spec t) d);
  d ← resolve_containers image t "containers" d;
  resolve_containers image t "initContainers" d.

Definition template_manifest (rs : resources) (image template_name : string) (t : TemplateSpec) : outcome json :=
  pod_spec ← pod_spec_of image template_name t;
  let spec := [("podTemplate", JObj [("metadata", JObj [("labels", jlabels (pod_template_labels rs template_name))]);
                                     ("spec", JObj pod_spec)])] in
  let spec := match ts_network_policy_management t with
              | Some v => set_if (truthy (JStr v)) "networkPolicyManagement" (JStr v) spec
              | None => spec
              end in
  let spec := dupdate spec (ts_extra_template_spec t) in
  Ret (JObj [("apiVersion", JStr (GROUP +:+ "/" +:+ VERSION));
             ("kind", JStr "SandboxTemplate");
             ("metadata", JObj [("name", JStr template_name);
                                ("namespace", JStr (rs_namespace rs));
                                ("labels", jlabels (rs_labels rs))]);
             ("spec", JObj spec)]).

Definition warmpool_manifest (rs : resources) (name template_name : string) (replicas : Z)
    (annotations : list (string * string)) : json :=
  JObj [("apiVersion", JStr (GROUP +:+ "/" +:+ VERSION));
        ("kind", JStr "SandboxWarmPool");
        ("metadata", JObj ([("name", JStr name); ("namespace", JStr (rs_namespace rs));
                            ("labels", jlabels (rs_labels rs))] ++
                           match annotations with [] => [] | _ => [("annotations", jlabels annotations)] end));
        ("spec", JObj [("replicas", JInt replicas);
                       ("sandboxTemplateRef", JObj [("name", JStr template_name)])])].

(** ** Operations *)

(** [(((obj.get("metadata") or {}).get("labels")) or {}).get(RUN_ID_LABEL)] *)
Definition metadata_of (obj : json) : outcome json := v ← py_get obj "metadata"; Ret (py_or v (JObj [])).
Definition owner_of (obj : json) : outcome json :=
  meta ← metadata_of obj; labels ← get_dict meta "labels"; py_get labels RUN_ID_LABEL.

(** [isinstance(owner, str) and owner and owner != run_id]: the other run *)
Definition other_run (run_id : string) (owner : json) : option string :=
  match owner with
  | JStr s => if (s =? EmptyString)%string || (s =? run_id)%string then None else Some s
  | _ => None
  end.

(** ... when [owner_run_id] is given *)
Definition foreign (owner_run_id : option string) (owner : json) : option string :=
  match str_or owner_run_id None with Some r => other_run r owner | None => None end.

(** [get_namespaced_custom_object], [None] on 404 *)
Definition none_if_missing {W A} (m : M W A) : M W (option A) :=
  except (λ e, if decide (e = ApiException 404) then Some (mret None) else None) (a ← m; mret (Some a)).

(** Code that may meet a changed object: [None] for [_TemplateChanged]. *)
Abbreviation changing A := (option A).

Section operations.
Context {W : Type} `{Clock W} `{K8sApi W} `{ClusterApi W}.
Context (rs : resources).

Definition get_warmpool (name : string) : M W (option json) :=
  none_if_missing (get_object WARMPOOLS (rs_namespace rs) name).
Definition get_template (name : string) : M W (option json) :=
  none_if_missing (get_object TEMPLATES (rs_namespace rs) name).

(** [_delete] *)
Definition delete_named (r : resource) (name : string) (uid : option string) : M W () :=
  except (λ e, match e with
               | ApiException 404 => Some (mret ())
               | ApiException 409 => if truthy_str_opt uid then Some (mret ()) else None
               | _ => None
               end)
    (_ ← delete_object r (rs_namespace rs) name (str_or uid None); mret ()).

Definition delete_warmpool (name : string) (uid : option string) : M W () := delete_named WARMPOOLS name uid.
Definition delete_template (name : string) (uid : option string) : M W () := delete_named TEMPLATES name uid.
Definition delete_claim (name : string) : M W () := delete_named CLAIM name None.
Definition delete_sandbox (name : string) : M W () := delete_named SANDBOX name None.

(** [any(cur.get(k) != v for k, v in desired.items())] *)
Fixpoint differs (cur : json) (desired : list (string * string)) : outcome bool :=
  match desired with
  | [] => Ret false
  | (k, v) :: rest => c ← py_get cur k; if negb (is_str c v) then Ret true else differs cur rest
  end.

(** The [resourceVersion] of what was read, put in a patch *)
Definition with_version (meta : list (string * json)) (existing : json) : outcome (list (string * json)) :=
  m ← metadata_of existing; rv ← py_get m "resourceVersion";
  Ret (if truthy rv then dset "resourceVersion" rv meta else meta).

(** A patch of a template: [None] on a conflict; other API errors are logged. *)
Definition patch_template (name : string) (body : json) : M W (changing (option json)) :=
  except (λ e, match e with
               | ApiException 409 => Some (mret None)
               | ApiException _ => Some (mret (Some None))
               | _ => None
               end)
    (o ← patch_object TEMPLATES (rs_namespace rs) name body;
     mret (Some (match o with JObj _ => Some o | _ => None end))).

(** [_reconcile_template_labels]: the patched object, if it was patched *)
Definition reconcile_template_labels (name : string) (existing : json) : M W (changing (option json)) :=
  let desired_pod := pod_template_labels rs name in
  meta ← lift (metadata_of existing);
  cur_meta ← lift (get_dict meta "labels");
  spec ← lift (get_dict existing "spec");
  tmpl ← lift (get_dict spec "podTemplate");
  tmeta ← lift (get_dict tmpl "metadata");
  cur_pod ← lift (get_dict tmeta "labels");
  stale ← lift (differs cur_meta (rs_labels rs));
  stale ← lift (if stale : bool then Ret true else differs cur_pod desired_pod);
  if negb stale then mret (Some None)
  else
    metadata ← lift (with_version [("labels", jlabels (rs_labels rs))] existing);
    patch_template name
      (JObj [("metadata", JObj metadata);
             ("spec", JObj [("podTemplate", JObj [("metadata", JObj [("labels", jlabels desired_pod)])])])]).

(** [_reconcile_template_network_policy] *)
Definition reconcile_template_network_policy (name : string) (existing : json) (t : TemplateSpec)
    : M W (changing ()) :=
  match str_or (ts_network_policy_management t) None with
  | None => mret (Some ())
  | Some desired =>
      spec ← lift (get_dict existing "spec");
      cur ← lift (py_get spec "networkPolicyManagement");
      if is_str (py_or cur (JStr "Managed")) desired then mret (Some ())
      else
        meta ← lift (with_version [] existing);
        let body := [("spec", JObj [("networkPolicyManagement", JStr desired)])] in
        r ← patch_template name (JObj (match meta with [] => body | _ => body ++ [("metadata", JObj meta)] end));
        mret (match r with Some _ => Some () | None => None end)
  end.

(** One round of [for attempt in (1, 2)] *)
Inductive template_round := TAbsent | TExists | TChanged.

Definition template_attempt (template_name : string) (t : TemplateSpec) (dry_run : bool)
    (owner_run_id : option string) (share_foreign : bool) : M W template_round :=
  existing ← none_if_missing (get_object TEMPLATES (rs_namespace rs) template_name);
  match existing with
  | None => mret TAbsent
  | Some existing =>
      cur_owner ← lift (owner_of existing);
      match foreign owner_run_id cur_owner with
      | Some o => if share_foreign then mret TExists else raise (OwnedByAnotherRunError o)
      | None =>
          if dry_run then mret TExists
          else
            updated ← reconcile_template_labels template_name existing;
            match updated with
            | None => mret TChanged
            | Some u =>
                (* [updated or existing] *)
                let base := match u with Some o => py_or o existing | None => existing end in
                done ← reconcile_template_network_policy template_name base t;
                mret (match done with Some _ => TExists | None => TChanged end)
            end
      end
  end.

(** After the loop: create it, and look at the winner of a race. *)
Definition create_template (image template_name : string) (t : TemplateSpec) (dry_run : bool)
    (owner_run_id : option string) (share_foreign : bool) : M W bool :=
  body ← lift (template_manifest rs image template_name t);
  created ← except (λ e, match e with ApiException 409 => Some (mret false) | _ => None end)
    (_ ← (if dry_run then dry_run_object TEMPLATES (rs_namespace rs) body
          else create_object TEMPLATES (rs_namespace rs) body);
     mret true);
  if created : bool then mret true
  else if truthy_str_opt owner_run_id && negb dry_run && negb share_foreign then
    winner ← get_template template_name;
    cur_owner ← lift (owner_of (py_or (default JNull winner) (JObj [])));
    match foreign owner_run_id cur_owner with
    | Some o => raise (OwnedByAnotherRunError o)
    | None => mret false
    end
  else mret false.

Definition ensure_template (image template_name : string) (t : TemplateSpec) (dry_run : bool)
    (owner_run_id : option string) (share_foreign : bool) : M W bool :=
  let attempt := template_attempt template_name t dry_run owner_run_id share_foreign in
  let create := create_template image template_name t dry_run owner_run_id share_foreign in
  r1 ← attempt;
  match r1 with
  | TAbsent => create
  | TExists => mret false
  | TChanged =>
      r2 ← attempt;
      match r2 with
      | TAbsent => create
      | TExists | TChanged => mret false
      end
  end.

(** A create, [false] on 409 *)
Definition try_create (r : resource) (body : json) : M W bool :=
  except (λ e, match e with ApiException 409 => Some (mret false) | _ => None end)
    (_ ← create_object r (rs_namespace rs) body; mret true).

(** A patch, [false] on 409 *)
Definition try_patch (r : resource) (name : string) (body : json) : M W bool :=
  except (λ e, match e with ApiException 409 => Some (mret false) | _ => None end)
    (_ ← patch_object r (rs_namespace rs) name body; mret true).

(** The inspected [resourceVersion], as the optimistic lock of a patch *)
Definition locked (meta : json) (rest : list (string * json)) : outcome (list (string * json)) :=
  rv ← py_get meta "resourceVersion";
  Ret (match rv with
       | JStr v => if (v =? EmptyString)%string then rest else dset "resourceVersion" (JStr v) rest
       | _ => rest
       end).

(** The rounds of [create_warmpool(reconcile=True)] after the 409 *)
Fixpoint reconcile_rounds (n : nat) (name template_name : string) (replicas : Z) (owner_run_id : option string)
    : M W bool :=
  match n with
  | O => raise RuntimeError
  | S n' =>
      existing ← get_warmpool name;
      match existing with
      | None =>
          created ← try_create WARMPOOLS (warmpool_manifest rs name template_name replicas []);
          if created : bool then mret true
          else reconcile_rounds n' name template_name replicas owner_run_id
      | Some existing =>
          meta ← lift (metadata_of existing);
          owner ← lift (owner_of existing);
          match foreign owner_run_id owner with
          | Some _ => mret false
          | None =>
              lock ← lift (locked meta []);
              patched ← try_patch WARMPOOLS name
                (JObj (("spec", JObj [("replicas", JInt replicas)])
                       :: match lock with [] => [] | _ => [("metadata", JObj lock)] end));
              if patched : bool then mret true
              else reconcile_rounds n' name template_name replicas owner_run_id
          end
      end
  end.

Definition create_warmpool (name template_name : string) (replicas : Z) (dry_run reconcile : bool)
    (owner_run_id : option string) (annotations : list (string * string)) : M W bool :=
  let body := warmpool_manifest rs name template_name replicas annotations in
  created ← except (λ e, match e with ApiException 409 => Some (mret false) | _ => None end)
    (_ ← (if dry_run then dry_run_object WARMPOOLS (rs_namespace rs) body
          else create_object WARMPOOLS (rs_namespace rs) body);
     mret true);
  if created : bool then mret true
  else if dry_run || negb reconcile then mret true
  else reconcile_rounds RECONCILE_ATTEMPTS name template_name replicas owner_run_id.

Inductive shared_status := PoolCreated | PoolTaken | PoolBorrowed | PoolForeign.

Fixpoint shared_rounds (n : nat) (name template_name : string) (replicas : Z) (run_id : string)
    : M W shared_status :=
  match n with
  | O => raise RuntimeError
  | S n' =>
      existing ← get_warmpool name;
      match existing with
      | None =>
          created ← try_create WARMPOOLS (warmpool_manifest rs name template_name replicas []);
          if created : bool then mret PoolCreated
          else shared_rounds n' name template_name replicas run_id
      | Some existing =>
          meta ← lift (metadata_of existing);
          owner ← lift (owner_of existing);
          match other_run run_id owner with
          | Some _ => mret PoolForeign
          | None =>
              annotations ← lift (get_dict meta "annotations");
              mark ← lift (py_get annotations ON_DEMAND_ANNOTATION);
              if negb (is_str mark "true") then mret PoolBorrowed
              else
                metadata ← lift (locked meta [("annotations", JObj [(ON_DEMAND_ANNOTATION, JNull)])]);
                patched ← try_patch WARMPOOLS name
                  (JObj [("metadata", JObj metadata); ("spec", JObj [("replicas", JInt replicas)])]);
                if patched : bool then mret PoolTaken
                else shared_rounds n' name template_name replicas run_id
          end
      end
  end.

Definition warm_shared_pool (name template_name : string) (replicas : Z) (run_id : string) : M W shared_status :=
  created ← try_create WARMPOOLS (warmpool_manifest rs name template_name replicas []);
  if created : bool then mret PoolCreated
  else shared_rounds RECONCILE_ATTEMPTS name template_name replicas run_id.

Definition validate_manifests (sample_image : string) (t : TemplateSpec) (name : string) : M W () :=
  body ← lift (template_manifest rs sample_image name t);
  _ ← dry_run_object TEMPLATES (rs_namespace rs) body;
  _ ← dry_run_object WARMPOOLS (rs_namespace rs) (warmpool_manifest rs name name 1 []);
  mret ().

(** *** Readiness *)

(** [int((obj.get("status") or {}).get("readyReplicas", 0) or 0)] *)
Definition ready_of (obj : json) : outcome Z :=
  status ← get_dict obj "status";
  v ← py_get_def status "readyReplicas" (JInt 0);
  int_of_json (py_or v (JInt 0)).

Definition pool_ready_replicas (name : string) : M W Z :=
  obj ← get_object WARMPOOLS (rs_namespace rs) name; lift (ready_of obj).

Definition is_api_exception (e : exn) : bool := match e with ApiException _ => true | _ => false end.

Definition pool_ready_replicas_safe (name : string) : M W Z :=
  except (λ e, if is_api_exception e then Some (mret 0) else None) (pool_ready_replicas name).

Definition pool_ready_or_gone (name : string) : M W (option Z) :=
  except (λ e, match e with
               | ApiException s => Some (mret (if s =? 404 then None else Some 0))
               | _ => None
               end)
    (n ← pool_ready_replicas name; mret (Some n)).

(** The body of the [for event in w.stream(...)] *)
Definition pool_event (name : string) (expected : Z) (st : ()) (event : json) : outcome (() * option bool) :=
  o ← py_get event "object";
  let obj := py_or o (JObj []) in
  meta ← metadata_of obj;
  n ← py_get meta "name";
  if negb (is_str n name) then Ret ((), None)
  else
    ready ← ready_of obj;
    type ← py_get event "type";
    if is_str type "DELETED" then Ret ((), Some false)
    else if expected <=? ready then Ret ((), Some true)
    else Ret ((), None).

(** The except clauses: look again, then wait a little. *)
Definition recheck (name : string) (expected poll_interval : Z) : M W (option bool) :=
  ready ← pool_ready_or_gone name;
  match ready with
  | None => mret (Some false)
  | Some n => if expected <=? n then mret (Some true) else _ ← do_sleep poll_interval; mret None
  end.

(** The [while]; times in nanoseconds *)
Fixpoint watch_pool (fuel : nat) (name : string) (expected deadline poll_interval : Z) : M W (option bool) :=
  match fuel with
  | O => no_fuel
  | S fuel' =>
      now ← read_clock;
      if deadline <=? now then mret None
      else
        now2 ← read_clock;
        let remaining := Z.max 1 (Z.quot (deadline - now2) SECOND) in
        r ← (λ w,
          match consume (pool_event name expected) ()
                  (watch_stream (WatchReq WARMPOOLS (rs_namespace rs) ("metadata.name=" +:+ name) JNull remaining) w) with
          | (Ret r, (_, w')) => (Ret r, w')
          | (Raise e, (_, w')) =>
              match e with
              | ApiException s => if bool_decide (s ∈ [401; 403; 404]) then (Raise e, w')
                                  else recheck name expected poll_interval w'
              | _ => recheck name expected poll_interval w'
              end
          | (NoFuel, (_, w')) => (NoFuel, w')
          end : outcome (option bool) * W);
        match r with
        | Some b => mret (Some b)
        | None => watch_pool fuel' name expected deadline poll_interval
        end
  end.

Definition wait_for_pool_ready (fuel : nat) (name : string) (expected timeout : Z) : M W bool :=
  now ← read_clock;
  let deadline := now + timeout in
  first ← except (λ e, match e with
                       | ApiException s => Some (mret (if s =? 404 then Some false else None))
                       | _ => None
                       end)
    (n ← pool_ready_replicas name; mret (if expected <=? n then Some true else None));
  match first with
  | Some b => mret b
  | None =>
      r ← watch_pool fuel name expected deadline SECOND;
      match r with
      | Some b => mret b
      | None => n ← pool_ready_replicas_safe name; mret (expected <=? n)
      end
  end.

(** *** Lists *)

Definition list_of (r : resource) (label_selector : option string) : M W (list json) :=
  objs ← list_objects r (rs_namespace rs) (str_or label_selector None);
  items ← lift (py_get_def objs "items" (JList []));
  lift (py_iter items).

(** [o["metadata"]["name"]] *)
Definition object_name (o : json) : outcome json := m ← py_index o "metadata"; py_index m "name".

Definition list_names (r : resource) (label_selector : option string) : M W (list string) :=
  l ← list_of r label_selector; ns ← lift (traverse object_name l); mret (py_str <$> ns).

Definition list_warmpools (sel : option string) : M W (list string) := list_names WARMPOOLS sel.
Definition list_templates (sel : option string) : M W (list string) := list_names TEMPLATES sel.
Definition list_claims (sel : option string) : M W (list string) := list_names CLAIM sel.
Definition list_sandboxes (sel : option string) : M W (list string) := list_names SANDBOX sel.

(** The [while cont] of [count_pods] *)
Fixpoint count_pages (fuel : nat) (sel : option string) (total : Z) (cont : option string) : M W Z :=
  match str_or cont None with
  | None => mret total
  | Some c =>
      match fuel with
      | O => no_fuel
      | S fuel' =>
          p ← list_pods (rs_namespace rs) 500 (Some c) sel;
          count_pages fuel' sel (total + pp_items p) (pp_continue p)
      end
  end.

Definition count_pods (fuel : nat) (label_selector : option string) : M W Z :=
  let sel := str_or label_selector None in
  p ← list_pods (rs_namespace rs) 1 None sel;
  match pp_remaining p with
  | Some r => mret (pp_items p + r)
  | None => count_pages fuel sel (pp_items p) (pp_continue p)
  end.

Definition managed_selector : string := MANAGED_BY_LABEL +:+ "=" +:+ MANAGED_BY_VALUE.

(** *** Namespaces *)

Definition ensure_namespace (name : string) (labels : list (string * string)) : M W bool :=
  created ← except (λ e, match e with ApiException 409 => Some (mret false) | _ => None end)
    (_ ← create_ns name labels; mret true);
  if created : bool then mret true
  else
    phase ← except (λ _, Some (mret None)) (read_ns_phase name);
    if bool_decide (phase = Some "Terminating") then raise RuntimeError else mret false.

Definition delete_namespace (name : string) : M W () :=
  except (λ e, match e with ApiException 404 => Some (mret ()) | _ => None end) (delete_ns name).

(** *** Adoption *)

Record DiscoveredPool := Discovered {
  dp_pool : string;
  dp_template : string;
  dp_image : string;
  dp_replicas : Z;
  dp_runtime_container : option string;
}.

(** [next((c for c in containers if c.get("name") == RUNTIME_CONTAINER), None)] *)
Fixpoint find_runtime (containers : list json) : outcome (option json) :=
  match containers with
  | [] => Ret None
  | c :: rest => n ← py_get c "name"; if is_str n RUNTIME_CONTAINER then Ret (Some c) else find_runtime rest
  end.

(** The image of a template and the container that runs it; [None] when it is
    skipped *)
Definition template_runtime (obj : json) : outcome (option (json * (json * json))) :=
  meta ← metadata_of obj;
  name ← py_get meta "name";
  spec ← get_dict obj "spec";
  tmpl ← get_dict spec "podTemplate";
  tspec ← get_dict tmpl "spec";
  cs ← py_get tspec "containers";
  containers ← py_iter (py_or cs (JList []));
  match containers with
  | [] => Ret None
  | c0 :: rest =>
      if negb (truthy name) then Ret None
      else
        found ← find_runtime containers;
        match found, rest with
        | None, _ :: _ => Ret None
        | _, _ =>
            let chosen := default c0 found in
            image ← py_get chosen "image";
            cname ← py_get chosen "name";
            Ret (if truthy image then Some (name, (image, py_or cname (JStr RUNTIME_CONTAINER))) else None)
        end
  end.

(** [_template_runtimes]. Names and images are strings in what the server returns;
    another value would be read as its text. *)
Definition add_runtime (out : list (string * (string * string))) (e : option (json * (json * json)))
    : list (string * (string * string)) :=
  match e with
  | Some (n, (i, c)) => dset (py_str n) (py_str i, py_str c) out
  | None => out
  end.

Definition template_runtimes (sel : option string) : M W (list (string * (string * string))) :=
  objs ← list_of TEMPLATES sel;
  es ← lift (traverse template_runtime objs);
  mret (foldl add_runtime [] es).

Definition template_images (sel : option string) : M W (list (string * string)) :=
  rt ← template_runtimes sel; mret ((λ e, (e.1, e.2.1)) <$> rt).

(** [(replicas, prev.pool) > (prev.replicas, name)] *)
Definition deeper (new prev : DiscoveredPool) : bool :=
  (dp_replicas prev <? dp_replicas new) ||
  ((dp_replicas prev =? dp_replicas new) && str_lt (dp_pool new) (dp_pool prev)).

Definition add_pool (found : list (string * DiscoveredPool)) (p : DiscoveredPool) : list (string * DiscoveredPool) :=
  match dget (dp_image p) found with
  | None => dset (dp_image p) p found
  | Some prev => dset (dp_image p) (if deeper p prev then p else prev) found
  end.

(** A pool resolved to the image it serves; [None] when it is skipped *)
Definition resolve_pool (runtimes : list (string * (string * string))) (obj : json)
    : outcome (option DiscoveredPool) :=
  meta ← metadata_of obj;
  name ← py_get meta "name";
  spec ← get_dict obj "spec";
  ref ← get_dict spec "sandboxTemplateRef";
  tref ← py_get ref "name";
  if negb (truthy name) || negb (truthy tref) then Ret None
  else match dget (py_str tref) runtimes with
       | None => Ret None
       | Some (image, container) =>
           r ← py_get_def spec "replicas" (JInt 0);
           replicas ← int_of_json (py_or r (JInt 0));
           Ret (Some (Discovered (py_str name) (py_str tref) image replicas (Some container)))
       end.

Definition discover_pools (sel : option string) : M W (list (string * DiscoveredPool)) :=
  runtimes ← template_runtimes sel;
  objs ← list_of WARMPOOLS sel;
  pools ← lift (traverse (resolve_pool runtimes) objs);
  mret (foldl add_pool [] (omap id pools)).
End operations.
