(* ===== verification/RlConfig.v ===== *)
(** The settings of a reinforcement-learning fleet and its clusters: models
    [config.py], [cluster.py], [placement.py] and [sizing.py] of
    [src/examples/agent-sandbox-rl/agent_sandbox_rl].

    pydantic's coercion is not modelled: a configuration is a record of values of
    the declared types, and [validate_config] is what the validators add. A cluster
    is its settings and counters; building API clients is not modelled. *)

From Stdlib Require Import Ascii String ZArith QArith Lia.
From stdpp Require Import base option list strings sets pretty.
From S2P Require Import Prelude Float Json PyList PyText Regex IpAddress Models Utils World DateTime Budget RlResources.

#[local] Open Scope Z_scope.

(** ** [config.py] *)

Definition RUN_ID_PLACEHOLDER : string := "{run_id}".
Definition RUN_ISOLATION_MODES : list string := ["none"; "names"; "namespace"].
Definition PLACEMENTS : list string := ["round-robin"; "least-loaded"; "capacity-weighted"; "image-affinity"].

Definition DNS1123 : regex := dotted (bounded_word is_lower_alnum dash_or_lower_alnum).

(** A string without the newline that [$] stands before *)
Definition without_newline (s : string) : list ascii :=
  let l := explode s in
  match last l with
  | Some c => if bool_decide (c = LF) then take (length l - 1) l else l
  | None => l
  end.

(** [_DNS1123_LABEL.match]: [^[a-z0-9]([-a-z0-9]{0,61}[a-z0-9])?$], a word of at
    most 63 characters *)
Definition dns1123_label (s : string) : bool :=
  re_match (bounded_word is_lower_alnum dash_or_lower_alnum) s &&
  bool_decide (length (without_newline s) ≤ 63)%nat.

Definition SAMPLE_RUN_ID : string := "ffffffffffff".
Definition SAMPLE_HASH : string := "000000000000".

Record ClusterConfig := ClusterConf {
  cc_name : string;
  cc_namespace : string;
  cc_node_selector : option (list (string * string));
  cc_runtime_class : option string;
  cc_image_pull_secret : option string;
  cc_weight : pyfloat;
  cc_max_replicas : option Z;
}.

Definition validate_cluster (c : ClusterConfig) : outcome ClusterConfig :=
  if fle (cc_weight c) (PFin 0) then Raise ValueError
  else if (cc_name c =? EmptyString)%string then Raise ValueError
  else Ret c.

Record FleetConfig := FleetConf {
  fc_clusters : list ClusterConfig;
  fc_placement : string;
  fc_max_concurrent : Z;
  fc_max_warmpool_size : Z;
  fc_warm_per_task : bool;
  fc_window_size : option Z;
  fc_ready_timeout : Z;
  fc_claim_timeout : option Z;
  fc_fail_fast : bool;
  fc_warm_create_budget : Z;
  fc_overcommit_factor : pyfloat;
  fc_max_live_sandboxes : option Z;
  fc_breaker_trip_polls : Z;
  fc_template : TemplateSpec;
  fc_template_name_prefix : string;
  fc_pool_name_format : string;
  fc_adopt_existing : bool;
  fc_run_isolation : string;
  fc_run_id : option string;
  fc_run_namespace_labels : list (string * string);
  (** whether [run_namespace_setup] is given *)
  fc_run_namespace_setup : bool;
  fc_labels : list (string * string);
  fc_avg_image_gb : option pyfloat;
  fc_node_ephemeral_gb : option pyfloat;
  fc_disk_headroom : pyfloat;
  fc_cluster_nodes : option Z;
}.

(** *** [str.format] with the keyword arguments [args] *)

Section format.
(** Fields with a conversion, a format specification, an attribute, an index or a
    field inside *)
Variable special : list ascii → outcome (list ascii).
Context (args : list (string * string)).

Definition field_value (f : list ascii) : outcome (list ascii) :=
  if existsb (λ c, bool_decide (c ∈ ["!"; ":"; "."; "["; "{"]%char)) f then special f
  else if forallb is_digit_char f then Raise IndexError
  else match dget (implode f) args with Some v => Ret (explode v) | None => Raise KeyError end.

(** [field] holds the field read so far, in reverse, and the braces open in it. *)
Fixpoint format_chars (field : option (list ascii * nat)) (l : list ascii) : outcome (list ascii) :=
  match field, l with
  | None, [] => Ret []
  | Some _, [] => Raise ValueError
  | None, "{"%char :: "{"%char :: l' => r ← format_chars None l'; Ret ("{"%char :: r)
  | None, "}"%char :: "}"%char :: l' => r ← format_chars None l'; Ret ("}"%char :: r)
  | None, "{"%char :: l' => format_chars (Some ([], 0%nat)) l'
  | None, "}"%char :: _ => Raise ValueError
  | None, c :: l' => r ← format_chars None l'; Ret (c :: r)
  | Some (f, O), "}"%char :: l' =>
      v ← field_value (reverse f); r ← format_chars None l'; Ret (v ++ r)
  | Some (f, S d), "}"%char :: l' => format_chars (Some ("}"%char :: f, d)) l'
  | Some (f, d), "{"%char :: l' => format_chars (Some ("{"%char :: f, S d)) l'
  | Some (f, d), c :: l' => format_chars (Some (c :: f, d)) l'
  end.

Definition py_format (fmt : string) : outcome string :=
  r ← format_chars None (explode fmt); Ret (implode r).
End format.

Section names.
Context (special : list ascii → outcome (list ascii)).

Definition image_hash (image : string) : string := String.substring 0 12 (md5_hexdigest image).

Definition template_name (c : FleetConfig) (image : string) : string :=
  fc_template_name_prefix c +:+ image_hash image.

Definition name_args (template hash : string) : list (string * string) :=
  [("template", template); ("image_hash", hash)].

Definition pool_name (c : FleetConfig) (image : string) : outcome string :=
  py_format special (name_args (template_name c image) (image_hash image)) (fc_pool_name_format c).

Definition run_namespace (base run_id : string) : outcome string :=
  let ns := base +:+ "-" +:+ run_id in
  if dns1123_label ns then Ret ns else Raise ValueError.

(** [len(name) > 253 or not _DNS1123.match(name)] *)
Definition bad_subdomain (name : string) : bool :=
  bool_decide (253 < len name)%nat || negb (re_match DNS1123 name).

Definition check_resolved_names (c : FleetConfig) : outcome () :=
  let template := fc_template_name_prefix c +:+ SAMPLE_HASH in
  pool ← py_format special (name_args template SAMPLE_HASH) (fc_pool_name_format c);
  if bad_subdomain template || bad_subdomain pool then Raise ValueError
  else if bool_decide (63 < len template)%nat then Raise ValueError
  else Ret ().

Definition with_names (prefix fmt : string) (c : FleetConfig) : FleetConfig :=
  FleetConf (fc_clusters c) (fc_placement c) (fc_max_concurrent c) (fc_max_warmpool_size c)
    (fc_warm_per_task c) (fc_window_size c) (fc_ready_timeout c) (fc_claim_timeout c) (fc_fail_fast c)
    (fc_warm_create_budget c) (fc_overcommit_factor c) (fc_max_live_sandboxes c) (fc_breaker_trip_polls c)
    (fc_template c) prefix fmt (fc_adopt_existing c) (fc_run_isolation c) (fc_run_id c)
    (fc_run_namespace_labels c) (fc_run_namespace_setup c) (fc_labels c) (fc_avg_image_gb c)
    (fc_node_ephemeral_gb c) (fc_disk_headroom c) (fc_cluster_nodes c).

Definition with_clusters (cs : list ClusterConfig) (c : FleetConfig) : FleetConfig :=
  FleetConf cs (fc_placement c) (fc_max_concurrent c) (fc_max_warmpool_size c)
    (fc_warm_per_task c) (fc_window_size c) (fc_ready_timeout c) (fc_claim_timeout c) (fc_fail_fast c)
    (fc_warm_create_budget c) (fc_overcommit_factor c) (fc_max_live_sandboxes c) (fc_breaker_trip_polls c)
    (fc_template c) (fc_template_name_prefix c) (fc_pool_name_format c) (fc_adopt_existing c)
    (fc_run_isolation c) (fc_run_id c) (fc_run_namespace_labels c) (fc_run_namespace_setup c) (fc_labels c)
    (fc_avg_image_gb c) (fc_node_ephemeral_gb c) (fc_disk_headroom c) (fc_cluster_nodes c).

Definition isolated_prefix (c : FleetConfig) (run_id : string) : string :=
  let p := fc_template_name_prefix c in
  let p := if (fc_run_isolation c =? "names")%string && negb (contains RUN_ID_PLACEHOLDER p)
           then p +:+ RUN_ID_PLACEHOLDER +:+ "-" else p in
  replace RUN_ID_PLACEHOLDER run_id p.

Definition isolated_format (c : FleetConfig) (run_id : string) : string :=
  let f := fc_pool_name_format c in
  let f := if (fc_run_isolation c =? "names")%string && negb (contains RUN_ID_PLACEHOLDER f)
              && negb (contains "{template}" f)
           then f +:+ "-" +:+ RUN_ID_PLACEHOLDER else f in
  replace RUN_ID_PLACEHOLDER run_id f.

Definition isolate_cluster (run_id : string) (cc : ClusterConfig) : outcome ClusterConfig :=
  ns ← run_namespace (cc_namespace cc) run_id;
  Ret (ClusterConf (cc_name cc) ns (cc_node_selector cc) (cc_runtime_class cc) (cc_image_pull_secret cc)
         (cc_weight cc) (cc_max_replicas cc)).

Definition apply_run_isolation (c : FleetConfig) (run_id : string) : outcome FleetConfig :=
  let c := with_names (isolated_prefix c run_id) (isolated_format c run_id) c in
  _ ← check_resolved_names c;
  if (fc_run_isolation c =? "namespace")%string then
    cs ← traverse (isolate_cluster run_id) (fc_clusters c); Ret (with_clusters cs c)
  else Ret c.

Definition positive_opt (v : option Z) : bool := match v with Some z => 1 <=? z | None => true end.
Definition disk_positive (v : option pyfloat) : bool :=
  match v with Some f => negb (fle f (PFin 0)) | None => true end.

(** The rendering of [_valid_pool_name_format]: the exceptions of [format] become a
    [ValueError]. *)
Definition valid_pool_name_format (c : FleetConfig) : outcome () :=
  let sample_template := replace RUN_ID_PLACEHOLDER SAMPLE_RUN_ID (fc_template_name_prefix c +:+ SAMPLE_HASH) in
  match py_format special (name_args sample_template SAMPLE_HASH)
          (replace RUN_ID_PLACEHOLDER SAMPLE_RUN_ID (fc_pool_name_format c)) with
  | Ret sample =>
      if negb (contains SAMPLE_HASH sample) then Raise ValueError
      else if bad_subdomain sample then Raise ValueError
      else Ret ()
  | Raise KeyError | Raise IndexError => Raise ValueError
  | Raise e => Raise e
  | NoFuel => NoFuel
  end.

Definition validate_config (c : FleetConfig) : outcome FleetConfig :=
  _ ← traverse validate_cluster (fc_clusters c);
  _ ← validate_template_spec (fc_template c);
  let sample := replace RUN_ID_PLACEHOLDER SAMPLE_RUN_ID (fc_template_name_prefix c +:+ SAMPLE_HASH) in
  if negb (1 <=? fc_max_concurrent c) || negb (1 <=? fc_max_warmpool_size c) then Raise ValueError
  else if negb (positive_opt (fc_claim_timeout c)) then Raise ValueError
  else if negb (disk_positive (fc_avg_image_gb c)) || negb (disk_positive (fc_node_ephemeral_gb c))
  then Raise ValueError
  else if negb (fle (PFin 0) (fc_disk_headroom c) && flt (fc_disk_headroom c) (PFin 1)) then Raise ValueError
  else if negb (positive_opt (fc_window_size c)) || negb (positive_opt (fc_cluster_nodes c))
  then Raise ValueError
  else if negb (str_mem (fc_run_isolation c) RUN_ISOLATION_MODES) then Raise ValueError
  else if match fc_run_id c with Some r => negb (dns1123_label r) | None => false end then Raise ValueError
  else if bad_subdomain sample then Raise ValueError
  else if negb (str_mem (fc_placement c) PLACEMENTS) then Raise ValueError
  else if fc_adopt_existing c && (fc_run_isolation c =? "namespace")%string then Raise ValueError
  else _ ← valid_pool_name_format c; Ret c.
End names.

Definition effective_claim_timeout (c : FleetConfig) : Z := default (fc_ready_timeout c) (fc_claim_timeout c).

(** ** [cluster.py] *)

Record cluster := Cluster {
  cl_config : ClusterConfig;
  cl_namespace : string;
  cl_resources : resources;
  cl_active_replicas : Z;
  cl_active_claims : Z;
}.

Definition cl_name (c : cluster) : string := cc_name (cl_config c).

(** [Cluster(config, labels=...)] *)
Definition new_cluster (labels : list (string * string)) (cc : ClusterConfig) : cluster :=
  Cluster cc (cc_namespace cc) (new_resources (cc_namespace cc) labels) 0 0.

Definition template_spec (c : cluster) (t : TemplateSpec) : TemplateSpec :=
  let or {A} (a b : option A) := match a with Some _ => a | None => b end in
  TemplSpec (ts_resources t) (ts_keepalive_command t)
    (or (cc_runtime_class (cl_config c)) (ts_runtime_class t))
    (or (cc_node_selector (cl_config c)) (ts_node_selector t))
    (or (cc_image_pull_secret (cl_config c)) (ts_image_pull_secret t))
    (ts_image_pull_policy t) (ts_colocate_replicas t) (ts_extra_pod_spec t)
    (ts_network_policy_management t) (ts_automount_service_account_token t)
    (ts_share_process_namespace t) (ts_extra_template_spec t).

Definition with_counts (replicas claims : Z) (c : cluster) : cluster :=
  Cluster (cl_config c) (cl_namespace c) (cl_resources c) replicas claims.

Definition has_capacity (c : cluster) (additional : Z) : bool :=
  match cc_max_replicas (cl_config c) with
  | None => true
  | Some m => cl_active_replicas c + additional <=? m
  end.

Definition reserve_replicas (n : Z) (c : cluster) : cluster :=
  with_counts (cl_active_replicas c + n) (cl_active_claims c) c.
Definition release_replicas (n : Z) (c : cluster) : cluster :=
  with_counts (Z.max 0 (cl_active_replicas c - n)) (cl_active_claims c) c.
Definition reserve_claim (c : cluster) : cluster :=
  with_counts (cl_active_replicas c) (cl_active_claims c + 1) c.
Definition release_claim (c : cluster) : cluster :=
  with_counts (cl_active_replicas c)
    (if 0 <? cl_active_claims c then cl_active_claims c - 1 else cl_active_claims c) c.
Definition reset_counts (c : cluster) : cluster := with_counts 0 0 c.

(** [ClusterRegistry]: by name, in insertion order *)
Abbreviation registry := (list (string * cluster)).

Definition registry_add (reg : registry) (c : cluster) : outcome registry :=
  match dget (cl_name c) reg with
  | Some _ => Raise ValueError
  | None => Ret (dset (cl_name c) c reg)
  end.

Fixpoint registry_of (reg : registry) (cs : list cluster) : outcome registry :=
  match cs with
  | [] => Ret reg
  | c :: cs' => reg' ← registry_add reg c; registry_of reg' cs'
  end.

Definition registry_get (reg : registry) (n : string) : outcome cluster :=
  match dget n reg with Some c => Ret c | None => Raise KeyError end.

(** ** [placement.py] *)

Definition eligible (reg : registry) : outcome (list cluster) :=
  match filter (λ c, has_capacity c 1) reg.*2 with
  | [] => Raise NoClusterAvailableError
  | l => Ret l
  end.

Inductive placement :=
  | RoundRobin (counter : nat)
  | LeastLoaded
  | CapacityWeighted
  | ImageAffinity.

(** [(c.active_claims, c.active_replicas)] as tuples *)
Definition load_lt (a b : cluster) : bool :=
  (cl_active_claims a <? cl_active_claims b) ||
  ((cl_active_claims a =? cl_active_claims b) && (cl_active_replicas a <? cl_active_replicas b)).

Definition least_loaded (reg : registry) : outcome cluster := elig ← eligible reg; py_min load_lt elig.

Definition round_robin (start : nat) (elig : list cluster) (reg : registry) : outcome cluster :=
  let ordered := reg.*2 in
  let n := length ordered in
  let allowed := cl_name <$> elig in
  let hit i := match ordered !! ((start + i) mod n)%nat with
               | Some c => if decide (cl_name c ∈ allowed) then Some c else None
               | None => None
               end in
  match omap hit (seq 0 n) with
  | c :: _ => Ret c
  | [] => py_index ordered (start mod n)%nat
  end.

Definition weight_key (c : cluster) : outcome (cluster * pyfloat) :=
  d ← float_of_int (1 + cl_active_replicas c); k ← fdiv (cc_weight (cl_config c)) d; Ret (c, k).

Definition capacity_weighted (reg : registry) : outcome cluster :=
  elig ← eligible reg;
  keyed ← traverse weight_key elig;
  b ← py_max (λ a b : cluster * pyfloat, flt a.2 b.2) keyed; Ret b.1.

Definition image_affinity (image : string) (reg : registry) : outcome cluster :=
  _ ← eligible reg;
  let ns := sorted str_lt reg.*1 in
  n ← py_index ns (Z.to_nat (md5_int image mod Z.of_nat (length ns)));
  target ← registry_get reg n;
  if has_capacity target 1 then Ret target else least_loaded reg.

(** [placement.select(image, registry)], with the state the policy keeps *)
Definition select (p : placement) (image : string) (reg : registry) : outcome cluster * placement :=
  match p with
  | RoundRobin n =>
      match eligible reg with
      | Ret elig => (round_robin n elig reg, RoundRobin (S n))
      | Raise e => (Raise e, p)
      | NoFuel => (NoFuel, p)
      end
  | LeastLoaded => (least_loaded reg, p)
  | CapacityWeighted => (capacity_weighted reg, p)
  | ImageAffinity => (image_affinity image reg, p)
  end.

Definition get_placement (n : string) : outcome placement :=
  match dget n [("round-robin", RoundRobin 0); ("least-loaded", LeastLoaded);
                ("capacity-weighted", CapacityWeighted); ("image-affinity", ImageAffinity)] with
  | Some p => Ret p
  | None => Raise ValueError
  end.

(** ** [sizing.py] *)

(** The totals of the images, in order *)
Abbreviation totals := (list (string * Z)).

Definition total_or_one (l : totals) : Z := let t := zsum l.*2 in if t =? 0 then 1 else t.

Fixpoint fill_window (budget used : Z) (window : nat) (size : Z → outcome Z) (l : totals) : outcome nat :=
  match l with
  | [] => Ret window
  | (_, cnt) :: l' =>
      r ← size cnt;
      if bool_decide (1 ≤ window)%nat && (budget <? used + r) then Ret window
      else fill_window budget (used + r) (S window) size l'
  end.

Definition recommend_window (l : totals) (max_concurrent max_pool : Z) (per_task : bool) : outcome Z :=
  let total := total_or_one l in
  w ← fill_window (Z.max 1 max_concurrent) 0 0
        (λ cnt, compute_replicas cnt total max_concurrent max_pool 0 per_task) l;
  Ret (Z.max 1 (Z.of_nat w)).

Fixpoint fill_disk (budget_gb used : pyfloat) (window : nat) (cost : Z → outcome pyfloat) (l : totals)
    : outcome nat :=
  match l with
  | [] => Ret window
  | (_, cnt) :: l' =>
      c ← cost cnt;
      if bool_decide (1 ≤ window)%nat && flt budget_gb (fadd used c) then Ret window
      else fill_disk budget_gb (fadd used c) (S window) cost l'
  end.

(** [max(1e-9, pipeline_factor)] *)
Definition EPSILON : pyfloat := round64 (1 # 1000000000).

Definition recommend_window_disk (l : totals) (max_concurrent max_pool : Z)
    (avg_image_gb usable_disk_gb pipeline_factor : pyfloat) (buffer : Z) (per_task : bool) (nodes : Z)
    : outcome Z :=
  match l with
  | [] => Ret 1
  | _ =>
      if negb (ftruthy avg_image_gb) || negb (ftruthy usable_disk_gb) then Ret (Z.of_nat (length l))
      else
        let total := total_or_one l in
        n ← float_of_int (Z.max 1 nodes);
        budget_gb ← fdiv (fmul usable_disk_gb n) (fmax EPSILON pipeline_factor);
        w ← fill_disk budget_gb (PFin 0) 0
              (λ cnt, r ← compute_replicas cnt total max_concurrent max_pool buffer per_task;
                      f ← float_of_int r; Ret (fmul f avg_image_gb)) l;
        Ret (Z.max 1 (Z.of_nat w))
  end.

Definition recommend_window_pipelined (l : totals) (max_concurrent max_pool : Z)
    (avg_image_gb usable_disk_gb : option pyfloat) (buffer : Z) (per_task : bool) (nodes : Z) : outcome Z :=
  w ← recommend_window l max_concurrent max_pool per_task;
  let conc_win := Z.max 1 (w / 2) in
  match avg_image_gb, usable_disk_gb with
  | Some avg, Some usable =>
      disk_win ← recommend_window_disk l max_concurrent max_pool avg usable (PFin 2) buffer per_task nodes;
      Ret (Z.max 1 (Z.min conc_win disk_win))
  | _, _ => Ret conc_win
  end.
