(* ===== verification/RlHandles.v ===== *)
(** A claimed sandbox: models [handles.py] and [snapshots.py] of
    [src/examples/agent-sandbox-rl/agent_sandbox_rl].

    The SDK's sandbox objects and the exec streams of the Kubernetes client are
    interfaces. A handle is a record next to the world; times are nanoseconds. Log
    lines and the text of errors are left out. *)

From Stdlib Require Import Ascii String ZArith Lia.
From stdpp Require Import base option list strings sets pretty.
From S2P Require Import Prelude Float Json PyList PyText IpAddress Models Utils World K8sHelper DateTime Snapshots RlResources.

#[local] Open Scope Z_scope.

(** ** The outside *)

(** A sandbox object of the SDK, by its claim and its id. *)
Record sandbox := Sandbox { sb_ref : nat; sb_claim_name : string; sb_id : string }.

(** The arguments of [create_sandbox] *)
Record claim_request := ClaimRequest {
  cq_warmpool : string;
  cq_namespace : string;
  cq_ready_timeout : Z;
  cq_labels : list (string * string);
  cq_claim_name : string;
  cq_pod_annotations : list (string * string);
}.

(** What a snapshot operation answers: [success], the uid and
    [restored_from_snapshot] *)
Record snap_answer := SnapAnswer { sa_success : bool; sa_uid : option string; sa_restored : bool }.

(** The first argument is the name of the cluster. *)
Class Sdk (W : Type) := {
  sdk_create_sandbox : string → claim_request → M W sandbox;
  sdk_terminate : sandbox → M W ();
  sdk_pod_name : sandbox → M W (option string);
  sdk_pod_ip : sandbox → M W (option string);
  (** the names the client keeps for a claim are dropped *)
  sdk_forget : string → string → string → M W ();
  sdk_snapshots : sandbox → bool;
  (** the object still has its snapshot engine *)
  sdk_engine : sandbox → M W bool;
  sdk_snapshot : sandbox → string → Z → M W snap_answer;
  sdk_list_snapshots : sandbox → M W (bool * list string);
  sdk_delete_snapshot : sandbox → string → Z → M W snap_answer;
  sdk_delete_snapshots : sandbox → Z → M W snap_answer;
  sdk_suspend : sandbox → bool → Z → M W snap_answer;
  sdk_resume : sandbox → Z → M W snap_answer;
  sdk_restore : sandbox → string → Z → M W snap_answer;
  sdk_is_suspended : sandbox → M W bool;
}.

(** Exec streams and pods: cluster, namespace, pod *)
Class PodExec (W : Type) := {
  open_stream : string → string → string → option string → M W nat;
  stream_is_open : nat → M W bool;
  stream_update : nat → Z → M W ();
  write_stdin : nat → string → M W ();
  peek_stdout : nat → M W bool;
  read_stdout : nat → M W string;
  peek_stderr : nat → M W bool;
  read_stderr : nat → M W string;
  close_stream : nat → M W ();
  exec_once : string → string → string → list string → option string → M W (option string);
  (** [read_namespaced_pod_status(...).to_dict()] *)
  pod_status : string → string → string → M W json;
  (** [read_namespaced_pod(...).status.conditions or []] *)
  pod_conditions : string → string → string → M W (list pod_condition);
}.

(** ** Pods *)

(** [for c in statuses: if (c or {}).get("name") == RUNTIME_CONTAINER: return c] *)
Fixpoint find_status (l : list json) : outcome (option json) :=
  match l with
  | [] => Ret None
  | c :: l' => n ← py_get (py_or c (JObj [])) "name";
               if is_str n RUNTIME_CONTAINER then Ret (Some c) else find_status l'
  end.

Definition runtime_status (d : json) : outcome (option json) :=
  status ← get_dict d "status";
  a ← py_get status "container_statuses";
  b ← (if truthy a then Ret a else py_get status "containerStatuses");
  l ← py_iter (py_or b (JList []));
  find_status l.

(** [(uid, restarts)] *)
Definition pod_identity (d : json) : outcome (json * json) :=
  meta ← metadata_of d;
  uid ← py_get meta "uid";
  rs ← runtime_status d;
  restarts ← match rs with
             | None => Ret JNull
             | Some c => camel ← py_get c "restartCount"; py_get_def c "restart_count" camel
             end;
  Ret (uid, restarts).

(** [a > b]; numbers only *)
Definition py_gt (a b : json) : outcome bool :=
  match num_like a, num_like b with
  | Some x, Some y => Ret (flt y x)
  | _, _ => Raise TypeError
  end.

Definition pod_is_live (d expected_uid expected_restarts : json) : outcome bool :=
  meta ← metadata_of d;
  status ← get_dict d "status";
  t1 ← py_get meta "deletion_timestamp";
  t2 ← py_get meta "deletionTimestamp";
  if truthy t1 || truthy t2 then Ret false
  else
    phase ← py_get status "phase";
    if is_str phase "Failed" || is_str phase "Succeeded" then Ret false
    else
      '(uid, restarts) ← pod_identity d;
      if truthy expected_uid && truthy uid && negb (json_eqb uid expected_uid) then Ret false
      else
        more ← (if is_none expected_restarts || is_none restarts then Ret false
                else py_gt restarts expected_restarts);
        if more : bool then Ret false
        else
          rs ← runtime_status d;
          match rs with
          | None => Ret true
          | Some c => state ← get_dict c "state"; term ← py_get state "terminated"; Ret (negb (truthy term))
          end.

(** *** Restore status ([snapshots.py]) *)

Record RestoreStatus := RestoreSt { rst_restored : option bool; rst_message : string }.

(** [\w] beyond ASCII: the letters and digits of Latin-1 *)
Definition latin1_word (c : ascii) : bool :=
  bool_decide (code c ∈ [170; 178; 179; 181; 185; 186]%N) || in_range 188 190 c ||
  in_range 192 214 c || in_range 216 246 c || in_range 248 255 c.

(** [\w], [.] or [-] *)
Definition name_char (c : ascii) : bool :=
  is_alnum c || bool_decide (c ∈ ["_"; "."; "-"]%char) || latin1_word c.

(** [re.search(rf"(?<![\w.-]){re.escape(uid)}(?![\w.-])", message)]; [before] is the
    character before [l] *)
Fixpoint whole_name (before : option ascii) (uid l : list ascii) : bool :=
  (negb (match before with Some c => name_char c | None => false end) && is_prefix_of uid l &&
   negb (match drop (length uid) l with c :: _ => name_char c | [] => false end))
  || match l with [] => false | c :: l' => whole_name (Some c) uid l' end.

Definition from_snapshot (s : RestoreStatus) (uid : option string) : bool :=
  if negb (default false (rst_restored s)) then false
  else match str_or uid None with
       | None => true
       | Some u => whole_name None (explode u) (explode (rst_message s))
       end.

Fixpoint find_restored (l : list pod_condition) : RestoreStatus :=
  match l with
  | [] => RestoreSt (Some false) "no PodRestored condition (fresh start)"
  | c :: l' =>
      if (pc_type c =? "PodRestored")%string
      then RestoreSt (Some (pc_status c =? "True")%string)
             (default EmptyString (str_or (pc_message c) (str_or (pc_reason c) None)))
      else find_restored l'
  end.

(** ** Sessions *)

Record session := Session { se_stream : nat; se_container : option string; se_seq : Z }.

Inductive command := Script (s : string) | Argv (l : list string).

(** [shlex.quote]: a word without other characters than letters, digits and
    [_@%+=:,./-] stays as it is *)
Definition shell_safe (c : ascii) : bool :=
  is_alnum c || bool_decide (c ∈ ["_"; "@"; "%"; "+"; "="; ":"; ","; "."; "/"; "-"]%char).

Definition QUOTE : ascii := chr 39.
Definition DQUOTE : ascii := chr 34.

Definition quote_char (c : ascii) : list ascii :=
  if bool_decide (c = QUOTE) then [QUOTE; DQUOTE; QUOTE; DQUOTE; QUOTE] else [c].

Definition quote_word (l : list ascii) : list ascii :=
  match l with
  | [] => [QUOTE; QUOTE]
  | _ => if forallb shell_safe l then l else [QUOTE] ++ (l ≫= quote_char) ++ [QUOTE]
  end.

Definition shlex_join (argv : list string) : string := join " " ((λ s, implode (quote_word (explode s))) <$> argv).

Definition as_script (c : command) : string :=
  match c with
  | Script s => s
  | Argv l =>
      match l with
      | a :: b :: s :: _ => if str_mem a ["bash"; "sh"] && (b =? "-lc")%string then s else shlex_join l
      | _ => shlex_join l
      end
  end.

Definition marker (seq : Z) : string := "ASRLDONE" +:+ pretty seq +:+ "X".

(** The line that prints the marker, in two parts so that its echo is no marker *)
Definition marker_line (seq : Z) : string :=
  let dq := implode [DQUOTE] in
  "printf " +:+ dq +:+ "%s%s\n" +:+ dq +:+ " " +:+ dq +:+ String.substring 0 6 (marker seq) +:+ dq +:+ " "
  +:+ dq +:+ String.substring 6 (String.length (marker seq)) (marker seq) +:+ dq +:+ implode [LF].

(** [text.split(marker, 1)[0]], if the marker is in the text *)
Fixpoint before_marker (m l : list ascii) : option (list ascii) :=
  if is_prefix_of m l then Some []
  else match l with [] => None | c :: l' => (λ r, c :: r) <$> before_marker m l' end.

Definition CRLF : string := implode [chr 13; LF].

Section handles.
Context {W : Type} `{Clock W} `{Sdk W} `{PodExec W}.

(** [is_open]: an error reads as closed *)
Definition is_open (sid : nat) : M W bool := except (λ _, Some (mret false)) (stream_is_open sid).

Definition session_close (sid : nat) : M W () :=
  _ ← except (λ _, Some (mret ())) (write_stdin sid ("exit" +:+ implode [LF]));
  except (λ _, Some (mret ())) (close_stream sid).

(** The [while True] of [run]; [buf] is the text read so far, [deadline] optional *)
Fixpoint read_until (fuel : nat) (sid : nat) (m : list ascii) (buf : list ascii) (deadline : option Z)
    : M W (option (list ascii)) :=
  match fuel with
  | O => no_fuel
  | S fuel' =>
      upd ← match deadline with
            | None => mret (Some SECOND)
            | Some d => now ← read_clock; mret (if d - now <=? 0 then None else Some (Z.min SECOND (d - now)))
            end;
      match upd with
      | None => mret None
      | Some u =>
          _ ← stream_update sid u;
          e ← peek_stderr sid;
          buf ← (if e : bool then t ← read_stderr sid; mret (buf ++ explode t) else mret buf);
          o ← peek_stdout sid;
          r ← (if o : bool then t ← read_stdout sid; let buf := buf ++ explode t in mret (buf, before_marker m buf)
               else mret (buf, None));
          match r with
          | (_, Some out) => mret (Some out)
          | (buf, None) => still ← is_open sid; if still : bool then read_until fuel' sid m buf deadline else mret None
          end
      end
  end.

(** [SandboxSession.run]: the session with its next number, and the output *)
Definition session_run (fuel : nat) (s : session) (c : command) (timeout : option Z) : M W string :=
  let seq := se_seq s + 1 in
  _ ← write_stdin (se_stream s) (as_script c +:+ implode [LF]);
  _ ← write_stdin (se_stream s) (marker_line seq);
  now ← match timeout with None => mret None | Some t => n ← read_clock; mret (Some (n + t)) end;
  out ← read_until fuel (se_stream s) (explode (marker seq)) [] now;
  match out with
  | Some text => mret (replace CRLF (implode [LF]) (implode text))
  | None => _ ← session_close (se_stream s); raise TimeoutError
  end.

(** The wait for the websocket in [SandboxSession.__init__] *)
Fixpoint await_open (fuel : nat) (sid : nat) (deadline : Z) : M W () :=
  match fuel with
  | O => no_fuel
  | S fuel' =>
      now ← read_clock;
      if deadline <=? now then mret ()
      else
        o ← stream_is_open sid;
        if o : bool then mret () else _ ← stream_update sid SECOND; await_open fuel' sid deadline
  end.

Definition OPEN_TIMEOUT : Z := 30 * SECOND.

Definition new_session (fuel : nat) (cluster namespace pod : string) (container : option string) : M W session :=
  sid ← open_stream cluster namespace pod container;
  now ← read_clock;
  _ ← await_open fuel sid (now + OPEN_TIMEOUT);
  o ← is_open sid;
  if negb o then raise TimeoutError
  else
    let s := Session sid container 0 in
    _ ← session_run fuel s (Script "stty -echo 2>/dev/null; PS1=''; PROMPT_COMMAND=''; true") (Some OPEN_TIMEOUT);
    mret (Session sid container 1).

(** ** Handles *)

Record handle := Handle {
  hd_image : string;
  hd_cluster : string;
  hd_namespace : string;
  hd_claim : string;
  hd_sandbox : sandbox;
  hd_pod : string;
  hd_pod_ip : option string;
  hd_pending_snapshot : option string;
  hd_runtime_container : option string;
  hd_target_container : option string;
  hd_session : option session;
  hd_slot_released : bool;
  hd_pod_uid : json;
  hd_restarts : json;
}.

Definition with_pod (pod : string) (ip : option string) (uid restarts : json) (h : handle) : handle :=
  Handle (hd_image h) (hd_cluster h) (hd_namespace h) (hd_claim h) (hd_sandbox h) pod ip
    (hd_pending_snapshot h) (hd_runtime_container h) (hd_target_container h) (hd_session h)
    (hd_slot_released h) uid restarts.
Definition with_session (s : option session) (h : handle) : handle :=
  Handle (hd_image h) (hd_cluster h) (hd_namespace h) (hd_claim h) (hd_sandbox h) (hd_pod h) (hd_pod_ip h)
    (hd_pending_snapshot h) (hd_runtime_container h) (hd_target_container h) s
    (hd_slot_released h) (hd_pod_uid h) (hd_restarts h).
Definition with_pending (p : option string) (h : handle) : handle :=
  Handle (hd_image h) (hd_cluster h) (hd_namespace h) (hd_claim h) (hd_sandbox h) (hd_pod h) (hd_pod_ip h)
    p (hd_runtime_container h) (hd_target_container h) (hd_session h)
    (hd_slot_released h) (hd_pod_uid h) (hd_restarts h).
Definition with_slot (b : bool) (h : handle) : handle :=
  Handle (hd_image h) (hd_cluster h) (hd_namespace h) (hd_claim h) (hd_sandbox h) (hd_pod h) (hd_pod_ip h)
    (hd_pending_snapshot h) (hd_runtime_container h) (hd_target_container h) (hd_session h)
    b (hd_pod_uid h) (hd_restarts h).

Abbreviation HM := (M (handle * W)).

Definition close_session : HM () :=
  h ← self;
  match hd_session h with
  | None => mret ()
  | Some s => _ ← world (session_close (se_stream s)); set_self (with_session None)
  end.

(** [container or self.target_container or self.runtime_container] *)
Definition exec_target (h : handle) (container : option string) : option string :=
  str_or container (str_or (hd_target_container h) (hd_runtime_container h)).

(** The open session in that container *)
Definition usable_session (h : handle) (target : option string) : M W (option session) :=
  match hd_session h with
  | None => mret None
  | Some s => o ← is_open (se_stream s); mret (if o && bool_decide (se_container s = target) then Some s else None)
  end.

Definition record_pod_identity : HM () :=
  _ ← set_self (λ h, with_pod (hd_pod h) (hd_pod_ip h) JNull JNull h);
  except (λ _, Some (mret ()))
    (h ← self;
     d ← world (pod_status (hd_cluster h) (hd_namespace h) (hd_pod h));
     '(uid, restarts) ← lift (pod_identity d);
     set_self (λ h, with_pod (hd_pod h) (hd_pod_ip h) uid restarts h)).

Definition is_alive : HM bool :=
  h ← self;
  d ← except (λ e, match e with ApiException 404 => Some (mret None) | _ => None end)
        (d ← world (pod_status (hd_cluster h) (hd_namespace h) (hd_pod h)); mret (Some d));
  match d with
  | None => mret false
  | Some d => lift (pod_is_live d (hd_pod_uid h) (hd_restarts h))
  end.

Definition raise_if_lost : HM () :=
  alive ← except (λ _, Some (mret true)) is_alive;
  if alive : bool then mret () else _ ← close_session; raise SandboxLostError.

Definition argv_of (c : command) : list string :=
  match c with Script s => ["bash"; "-lc"; s] | Argv l => l end.

Definition exec_body (fuel : nat) (c : command) (timeout : option Z) (container : option string) : HM string :=
  h ← self;
  let target := exec_target h container in
  s ← world (usable_session h target);
  match s with
  | Some s =>
      _ ← set_self (with_session (Some (Session (se_stream s) (se_container s) (se_seq s + 1))));
      world (session_run fuel s c timeout)
  | None =>
      out ← world (exec_once (hd_cluster h) (hd_namespace h) (hd_pod h) (argv_of c) (str_or target None));
      mret (default EmptyString out)
  end.

Definition exec (fuel : nat) (c : command) (timeout : option Z) (container : option string) : HM string :=
  except (λ e, Some (_ ← raise_if_lost; raise e)) (exec_body fuel c timeout container).

Definition open_session (fuel : nat) (container : option string) : HM session :=
  h ← self;
  let target := exec_target h container in
  s ← world (usable_session h target);
  match s with
  | Some s => mret s
  | None =>
      _ ← close_session;
      s ← world (new_session fuel (hd_cluster h) (hd_namespace h) (hd_pod h) target);
      _ ← set_self (with_session (Some s)); mret s
  end.

Definition endpoint (h : handle) (port : Z) : string :=
  sb_id (hd_sandbox h) +:+ "." +:+ hd_namespace h +:+ ":" +:+ pretty port.

(** *** Refresh and snapshots *)

Definition REFRESH_ATTEMPTS : nat := 3.
Definition REFRESH_BACKOFF : Z := SECOND / 2.

(** [attempt] counts from zero *)
Fixpoint pod_name_rounds (attempt : Z) (rounds : nat) (sb : sandbox) : M W string :=
  match rounds with
  | O => raise FleetError
  | S more =>
      name ← except (λ _, Some (mret None)) (sdk_pod_name sb);
      match str_or name None with
      | Some n => mret n
      | None =>
          _ ← (match more with O => mret () | S _ => do_sleep (REFRESH_BACKOFF * (attempt + 1)) end);
          pod_name_rounds (attempt + 1) more sb
      end
  end.

Definition refresh : HM () :=
  _ ← close_session;
  h ← self;
  name ← world (pod_name_rounds 0 REFRESH_ATTEMPTS (hd_sandbox h));
  _ ← set_self (λ h, with_pod name (hd_pod_ip h) (hd_pod_uid h) (hd_restarts h) h);
  ip ← except (λ _, Some (mret None)) (world (sdk_pod_ip (hd_sandbox h)));
  _ ← set_self (λ h, with_pod (hd_pod h) ip (hd_pod_uid h) (hd_restarts h) h);
  record_pod_identity.

(** [_snap.check] *)
Definition check_answer (a : snap_answer) : outcome snap_answer := if sa_success a then Ret a else Raise SnapshotError.

(** [_snapshot_sandbox] *)
Definition snapshot_sandbox : HM sandbox :=
  h ← self; if sdk_snapshots (hd_sandbox h) then mret (hd_sandbox h) else raise SnapshotsUnavailable.

(** [_snapshot_engine] *)
Definition snapshot_engine : HM sandbox :=
  sb ← snapshot_sandbox;
  e ← world (sdk_engine sb);
  if e : bool then mret sb else raise SnapshotsUnavailable.

Definition snapshot (name : option string) (timeout : Z) : HM (option string) :=
  h ← self;
  sb ← snapshot_engine;
  a ← world (sdk_snapshot sb (default ("snap-" +:+ sb_id (hd_sandbox h)) (str_or name None)) timeout);
  r ← lift (check_answer a); mret (sa_uid r).

Definition list_snapshots : HM (list string) :=
  sb ← snapshot_engine;
  '(ok, l) ← world (sdk_list_snapshots sb);
  if ok : bool then mret l else raise SnapshotError.

Definition delete_snapshot (uid : string) (timeout : Z) : HM () :=
  sb ← snapshot_engine; a ← world (sdk_delete_snapshot sb uid timeout); _ ← lift (check_answer a); mret ().

Definition delete_snapshots (timeout : Z) : HM () :=
  sb ← snapshot_engine; a ← world (sdk_delete_snapshots sb timeout); _ ← lift (check_answer a); mret ().

Definition suspend (take : bool) (timeout : Z) : HM (option string) :=
  sb ← snapshot_sandbox;
  _ ← close_session;
  a ← world (sdk_suspend sb take timeout);
  r ← lift (check_answer a); mret (sa_uid r).

Definition resume (timeout : Z) : HM bool :=
  sb ← snapshot_sandbox;
  a ← world (sdk_resume sb timeout);
  r ← lift (check_answer a);
  _ ← refresh;
  _ ← set_self (with_pending None);
  mret (sa_restored r).

Definition restore (uid : string) (timeout : Z) : HM () :=
  sb ← snapshot_sandbox;
  a ← world (sdk_restore sb uid timeout);
  _ ← lift (check_answer a);
  _ ← refresh;
  set_self (with_pending None).

Definition is_suspended : HM bool := sb ← snapshot_sandbox; world (sdk_is_suspended sb).

Definition release : HM () :=
  _ ← close_session;
  h ← self;
  _ ← world (sdk_terminate (hd_sandbox h));
  world (sdk_forget (hd_cluster h) (hd_namespace h) (hd_claim h)).

(** [pod_restore_status] *)
Definition pod_restore_status (cluster namespace pod : string) : M W RestoreStatus :=
  except (λ _, Some (mret (RestoreSt None "read failed")))
    (l ← pod_conditions cluster namespace pod; mret (find_restored l)).
End handles.
