(* ===== verification/RlFleet.v ===== *)
(** The reinforcement-learning fleet: models [fleet.py] of
    [src/examples/agent-sandbox-rl/agent_sandbox_rl].

    The state of a [SandboxFleet] is a record next to the world. Handles live in a
    heap, because the fleet and the caller share them. Locks are not modelled here:
    a method runs alone ([RlSlots] interleaves the sections that hold the lock), and
    the jobs of a thread pool run one after another. Observability, log lines,
    signal handlers, image pre-pulling and preflight checks are left out. *)

From Stdlib Require Import Ascii String ZArith QArith Lia.
From stdpp Require Import base option list strings sets pretty.
From S2P Require Import Prelude Float Json PyList PyText IpAddress Models Utils World K8sHelper DateTime Budget Snapshots RlResources RlConfig RlHandles.

#[local] Open Scope Z_scope.

(** ** Tasks and plans *)

Record task := Task { t_id : string; t_image : string; t_metadata : list (string * json) }.

Record PlanEntry := Entry {
  pe_cluster : string;
  pe_image : string;
  pe_template : string;
  pe_pool : string;
  pe_replicas : Z;
  pe_tasks : Z;
  pe_adopted : bool;
  pe_container : option string;
}.

#[global] Instance plan_entry_eq_dec : EqDecision PlanEntry.
Proof. solve_decision. Defined.

(** [FleetPlan.for_image]: the last entry of the image *)
Definition for_image (plan : list PlanEntry) (image : string) : option PlanEntry :=
  last (filter (λ e, pe_image e = image) plan).

(** [list.remove]: the first equal element *)
Fixpoint remove_first {A} `{EqDecision A} (x : A) (l : list A) : list A :=
  match l with
  | [] => []
  | y :: l' => if decide (x = y) then l' else y :: remove_first x l'
  end.

(** [FleetPlan.add] *)
Definition plan_add (plan : list PlanEntry) (e : PlanEntry) : list PlanEntry :=
  match for_image plan (pe_image e) with
  | Some old => remove_first old plan ++ [e]
  | None => plan ++ [e]
  end.

Definition total_replicas (plan : list PlanEntry) : Z := zsum (pe_replicas <$> plan).

(** [d[k] = d.get(k, 0) + n] *)
Definition dadd (k : string) (n : Z) (d : list (string * Z)) : list (string * Z) :=
  dset k (default 0 (dget k d) + n) d.

Definition image_counts (tasks : list task) : list (string * Z) :=
  foldl (λ d t, dadd (t_image t) 1 d) [] tasks.

(** [image_rewrite] on a task, with the original image in its metadata *)
Definition rewrite_task (rewrite : option (string → string)) (t : task) : task :=
  match rewrite with
  | None => t
  | Some f =>
      let new := f (t_image t) in
      if (new =? t_image t)%string then t
      else Task (t_id t) new (dset "original_image" (JStr (t_image t)) (t_metadata t))
  end.

(** ** The fleet *)

Record fleet := Fleet {
  f_config : FleetConfig;
  f_run_id : string;
  f_shared : bool;
  f_created_ns : list (string * string);
  f_deleted_ns : list (string * string);
  f_set_up_ns : list (string * string);
  f_ns_ensured : bool;
  f_atexit : bool;
  f_torndown : bool;
  f_registry : registry;
  f_placement : placement;
  f_tasks : list task;
  f_plan : option (list PlanEntry);
  f_heap : list handle;
  f_handles : list nat;
  f_reserved : Z;
  f_warmed : list (string * Z);
  f_ondemand : list (string * string);
  f_adopted_pools : list (string * string);
  f_adopted_templates : list (string * string);
}.

Definition set_created_ns (v : list (string * string)) (f : fleet) : fleet :=
  Fleet (f_config f) (f_run_id f) (f_shared f) v (f_deleted_ns f) (f_set_up_ns f) (f_ns_ensured f)
    (f_atexit f) (f_torndown f) (f_registry f) (f_placement f) (f_tasks f) (f_plan f) (f_heap f)
    (f_handles f) (f_reserved f) (f_warmed f) (f_ondemand f) (f_adopted_pools f)
    (f_adopted_templates f).
Definition set_deleted_ns (v : list (string * string)) (f : fleet) : fleet :=
  Fleet (f_config f) (f_run_id f) (f_shared f) (f_created_ns f) v (f_set_up_ns f) (f_ns_ensured f)
    (f_atexit f) (f_torndown f) (f_registry f) (f_placement f) (f_tasks f) (f_plan f) (f_heap f)
    (f_handles f) (f_reserved f) (f_warmed f) (f_ondemand f) (f_adopted_pools f)
    (f_adopted_templates f).
Definition set_set_up_ns (v : list (string * string)) (f : fleet) : fleet :=
  Fleet (f_config f) (f_run_id f) (f_shared f) (f_created_ns f) (f_deleted_ns f) v (f_ns_ensured f)
    (f_atexit f) (f_torndown f) (f_registry f) (f_placement f) (f_tasks f) (f_plan f) (f_heap f)
    (f_handles f) (f_reserved f) (f_warmed f) (f_ondemand f) (f_adopted_pools f)
    (f_adopted_templates f).
Definition set_ns_ensured (v : bool) (f : fleet) : fleet :=
  Fleet (f_config f) (f_run_id f) (f_shared f) (f_created_ns f) (f_deleted_ns f) (f_set_up_ns f) v
    (f_atexit f) (f_torndown f) (f_registry f) (f_placement f) (f_tasks f) (f_plan f) (f_heap f)
    (f_handles f) (f_reserved f) (f_warmed f) (f_ondemand f) (f_adopted_pools f)
    (f_adopted_templates f).
Definition set_atexit (v : bool) (f : fleet) : fleet :=
  Fleet (f_config f) (f_run_id f) (f_shared f) (f_created_ns f) (f_deleted_ns f) (f_set_up_ns f)
    (f_ns_ensured f) v (f_torndown f) (f_registry f) (f_placement f) (f_tasks f) (f_plan f) (f_heap
    f) (f_handles f) (f_reserved f) (f_warmed f) (f_ondemand f) (f_adopted_pools f)
    (f_adopted_templates f).
Definition set_torndown (v : bool) (f : fleet) : fleet :=
  Fleet (f_config f) (f_run_id f) (f_shared f) (f_created_ns f) (f_deleted_ns f) (f_set_up_ns f)
    (f_ns_ensured f) (f_atexit f) v (f_registry f) (f_placement f) (f_tasks f) (f_plan f) (f_heap f)
    (f_handles f) (f_reserved f) (f_warmed f) (f_ondemand f) (f_adopted_pools f)
    (f_adopted_templates f).
Definition set_registry (v : registry) (f : fleet) : fleet :=
  Fleet (f_config f) (f_run_id f) (f_shared f) (f_created_ns f) (f_deleted_ns f) (f_set_up_ns f)
    (f_ns_ensured f) (f_atexit f) (f_torndown f) v (f_placement f) (f_tasks f) (f_plan f) (f_heap f)
    (f_handles f) (f_reserved f) (f_warmed f) (f_ondemand f) (f_adopted_pools f)
    (f_adopted_templates f).
Definition set_placement (v : placement) (f : fleet) : fleet :=
  Fleet (f_config f) (f_run_id f) (f_shared f) (f_created_ns f) (f_deleted_ns f) (f_set_up_ns f)
    (f_ns_ensured f) (f_atexit f) (f_torndown f) (f_registry f) v (f_tasks f) (f_plan f) (f_heap f)
    (f_handles f) (f_reserved f) (f_warmed f) (f_ondemand f) (f_adopted_pools f)
    (f_adopted_templates f).
Definition set_tasks (v : list task) (f : fleet) : fleet :=
  Fleet (f_config f) (f_run_id f) (f_shared f) (f_created_ns f) (f_deleted_ns f) (f_set_up_ns f)
    (f_ns_ensured f) (f_atexit f) (f_torndown f) (f_registry f) (f_placement f) v (f_plan f) (f_heap
    f) (f_handles f) (f_reserved f) (f_warmed f) (f_ondemand f) (f_adopted_pools f)
    (f_adopted_templates f).
Definition set_plan (v : option (list PlanEntry)) (f : fleet) : fleet :=
  Fleet (f_config f) (f_run_id f) (f_shared f) (f_created_ns f) (f_deleted_ns f) (f_set_up_ns f)
    (f_ns_ensured f) (f_atexit f) (f_torndown f) (f_registry f) (f_placement f) (f_tasks f) v
    (f_heap f) (f_handles f) (f_reserved f) (f_warmed f) (f_ondemand f) (f_adopted_pools f)
    (f_adopted_templates f).
Definition set_heap (v : list handle) (f : fleet) : fleet :=
  Fleet (f_config f) (f_run_id f) (f_shared f) (f_created_ns f) (f_deleted_ns f) (f_set_up_ns f)
    (f_ns_ensured f) (f_atexit f) (f_torndown f) (f_registry f) (f_placement f) (f_tasks f) (f_plan
    f) v (f_handles f) (f_reserved f) (f_warmed f) (f_ondemand f) (f_adopted_pools f)
    (f_adopted_templates f).
Definition set_handles (v : list nat) (f : fleet) : fleet :=
  Fleet (f_config f) (f_run_id f) (f_shared f) (f_created_ns f) (f_deleted_ns f) (f_set_up_ns f)
    (f_ns_ensured f) (f_atexit f) (f_torndown f) (f_registry f) (f_placement f) (f_tasks f) (f_plan
    f) (f_heap f) v (f_reserved f) (f_warmed f) (f_ondemand f) (f_adopted_pools f)
    (f_adopted_templates f).
Definition set_reserved (v : Z) (f : fleet) : fleet :=
  Fleet (f_config f) (f_run_id f) (f_shared f) (f_created_ns f) (f_deleted_ns f) (f_set_up_ns f)
    (f_ns_ensured f) (f_atexit f) (f_torndown f) (f_registry f) (f_placement f) (f_tasks f) (f_plan
    f) (f_heap f) (f_handles f) v (f_warmed f) (f_ondemand f) (f_adopted_pools f)
    (f_adopted_templates f).
Definition set_warmed (v : list (string * Z)) (f : fleet) : fleet :=
  Fleet (f_config f) (f_run_id f) (f_shared f) (f_created_ns f) (f_deleted_ns f) (f_set_up_ns f)
    (f_ns_ensured f) (f_atexit f) (f_torndown f) (f_registry f) (f_placement f) (f_tasks f) (f_plan
    f) (f_heap f) (f_handles f) (f_reserved f) v (f_ondemand f) (f_adopted_pools f)
    (f_adopted_templates f).
Definition set_ondemand (v : list (string * string)) (f : fleet) : fleet :=
  Fleet (f_config f) (f_run_id f) (f_shared f) (f_created_ns f) (f_deleted_ns f) (f_set_up_ns f)
    (f_ns_ensured f) (f_atexit f) (f_torndown f) (f_registry f) (f_placement f) (f_tasks f) (f_plan
    f) (f_heap f) (f_handles f) (f_reserved f) (f_warmed f) v (f_adopted_pools f)
    (f_adopted_templates f).
Definition set_adopted_pools (v : list (string * string)) (f : fleet) : fleet :=
  Fleet (f_config f) (f_run_id f) (f_shared f) (f_created_ns f) (f_deleted_ns f) (f_set_up_ns f)
    (f_ns_ensured f) (f_atexit f) (f_torndown f) (f_registry f) (f_placement f) (f_tasks f) (f_plan
    f) (f_heap f) (f_handles f) (f_reserved f) (f_warmed f) (f_ondemand f) v (f_adopted_templates f).
Definition set_adopted_templates (v : list (string * string)) (f : fleet) : fleet :=
  Fleet (f_config f) (f_run_id f) (f_shared f) (f_created_ns f) (f_deleted_ns f) (f_set_up_ns f)
    (f_ns_ensured f) (f_atexit f) (f_torndown f) (f_registry f) (f_placement f) (f_tasks f) (f_plan
    f) (f_heap f) (f_handles f) (f_reserved f) (f_warmed f) (f_ondemand f) (f_adopted_pools f) v.

(** ** The outside *)

(** The API of each cluster, by name; the hook that sets up a namespace; the
    fail-fast watchdog of a claim, which runs beside the claim *)
Class Clusters (W : Type) := {
  k8s_of : string → K8sApi W;
  api_of : string → ClusterApi W;
  namespace_setup : string → string → M W ();
  new_uuid : M W string;
  watchdog_start : string → string → M W ();
  (** the verdict's reason *)
  watchdog_stop : string → M W (option string);
  watchdog_deleted_claim : string → M W bool;
}.

(** Set difference and union on lists *)
Definition add_key (k : string * string) (l : list (string * string)) : list (string * string) :=
  if decide (k ∈ l) then l else l ++ [k].
Definition list_to_set_keys (l : list (string * string)) : list (string * string) :=
  foldl (λ acc k, add_key k acc) [] l.
Definition discard_key (k : string * string) (l : list (string * string)) : list (string * string) :=
  filter (λ x, x ≠ k) l.

Section fleet.
Context {W : Type} `{Clock W} `{Sdk W} `{PodExec W} `{Clusters W}.
(** [sum] of floats, and the fields of a pool name format with a specification *)
Context (fsum : list pyfloat → pyfloat) (special : list ascii → outcome (list ascii)).

Abbreviation FM := (M (fleet * W)).

(** [self.registry.get(name)] *)
Definition the_cluster (n : string) : FM cluster := f ← self; lift (registry_get (f_registry f) n).

(** An update of the counters of a cluster *)
Definition on_cluster (n : string) (g : cluster → cluster) : FM () :=
  set_self (λ f, match dget n (f_registry f) with
                 | Some c => set_registry (dset n (g c) (f_registry f)) f
                 | None => f
                 end).

(** [except Exception: ...] that only logs *)
Definition logged {A} (default : A) (m : FM A) : FM A := except (λ _, Some (mret default)) m.

(** *** The resources of a cluster *)

Definition r_get_warmpool (c : cluster) (name : string) : FM (option json) :=
  world (@get_warmpool W (k8s_of (cl_name c)) (cl_resources c) name).
Definition r_get_template (c : cluster) (name : string) : FM (option json) :=
  world (@get_template W (k8s_of (cl_name c)) (cl_resources c) name).
Definition r_delete_warmpool (c : cluster) (name : string) (uid : option string) : FM () :=
  world (@delete_warmpool W (k8s_of (cl_name c)) (cl_resources c) name uid).
Definition r_delete_template (c : cluster) (name : string) (uid : option string) : FM () :=
  world (@delete_template W (k8s_of (cl_name c)) (cl_resources c) name uid).
Definition r_delete_claim (c : cluster) (name : string) : FM () :=
  world (@delete_claim W (k8s_of (cl_name c)) (cl_resources c) name).
Definition r_ensure_template (c : cluster) (image name : string) (t : TemplateSpec) (owner : option string)
    (share : bool) : FM bool :=
  world (@ensure_template W (k8s_of (cl_name c)) (api_of (cl_name c)) (cl_resources c) image name t false owner share).
Definition r_create_warmpool (c : cluster) (name template : string) (replicas : Z) (reconcile : bool)
    (owner : option string) (annotations : list (string * string)) : FM bool :=
  world (@create_warmpool W (k8s_of (cl_name c)) (api_of (cl_name c)) (cl_resources c) name template replicas
           false reconcile owner annotations).
Definition r_warm_shared_pool (c : cluster) (name template : string) (replicas : Z) (run_id : string)
    : FM shared_status :=
  world (@warm_shared_pool W (k8s_of (cl_name c)) (cl_resources c) name template replicas run_id).
Definition r_wait_for_pool_ready (fuel : nat) (c : cluster) (name : string) (expected timeout : Z) : FM bool :=
  world (@wait_for_pool_ready W _ (k8s_of (cl_name c)) (cl_resources c) fuel name expected timeout).
Definition r_list (c : cluster) (r : resource) (sel : string) : FM (list string) :=
  world (@list_names W (k8s_of (cl_name c)) (cl_resources c) r (Some sel)).
Definition r_discover_pools (c : cluster) : FM (list (string * DiscoveredPool)) :=
  world (@discover_pools W (k8s_of (cl_name c)) (cl_resources c) None).
Definition r_count_pods (fuel : nat) (c : cluster) (sel : string) : FM Z :=
  world (@count_pods W (api_of (cl_name c)) (cl_resources c) fuel (Some sel)).
Definition r_ensure_namespace (c : cluster) (labels : list (string * string)) : FM bool :=
  world (@ensure_namespace W (api_of (cl_name c)) (cl_namespace c) labels).
Definition r_delete_namespace (c : cluster) : FM () :=
  world (@delete_namespace W (api_of (cl_name c)) (cl_namespace c)).

(** *** Construction *)

Definition endswith (p s : string) : bool := is_prefix_of (reverse (explode p)) (reverse (explode s)).

Definition ambient_cluster : ClusterConfig := ClusterConf "default" "default" None None None (PFin 1) None.

(** [_default_registry] *)
Definition default_registry (c : FleetConfig) : outcome registry :=
  registry_of [] (new_cluster (fc_labels c) <$> match fc_clusters c with [] => [ambient_cluster] | l => l end).

Definition with_labels (labels : list (string * string)) (c : FleetConfig) : FleetConfig :=
  FleetConf (fc_clusters c) (fc_placement c) (fc_max_concurrent c) (fc_max_warmpool_size c)
    (fc_warm_per_task c) (fc_window_size c) (fc_ready_timeout c) (fc_claim_timeout c) (fc_fail_fast c)
    (fc_warm_create_budget c) (fc_overcommit_factor c) (fc_max_live_sandboxes c) (fc_breaker_trip_polls c)
    (fc_template c) (fc_template_name_prefix c) (fc_pool_name_format c) (fc_adopt_existing c)
    (fc_run_isolation c) (fc_run_id c) (fc_run_namespace_labels c) (fc_run_namespace_setup c) labels
    (fc_avg_image_gb c) (fc_node_ephemeral_gb c) (fc_disk_headroom c) (fc_cluster_nodes c).

(** The labels of the run on what the cluster creates *)
Definition stamp (labels : list (string * string)) (c : cluster) : cluster :=
  Cluster (cl_config c) (cl_namespace c)
    (Resources (rs_namespace (cl_resources c)) (dupdate (rs_labels (cl_resources c)) labels))
    (cl_active_replicas c) (cl_active_claims c).

(** The namespace of the run, for a cluster that was built before *)
Definition move_cluster (run_id : string) (c : cluster) : outcome cluster :=
  if endswith ("-" +:+ run_id) (cl_namespace c) then Ret c
  else
    ns ← run_namespace (cl_namespace c) run_id;
    Ret (Cluster (cl_config c) ns (Resources ns (rs_labels (cl_resources c)))
           (cl_active_replicas c) (cl_active_claims c)).

Definition on_values {A B} (f : A → outcome B) (kv : string * A) : outcome (string * B) :=
  b ← f kv.2; Ret (kv.1, b).

(** [SandboxFleet.__init__] *)
Definition new_fleet (src : FleetConfig) (given : option registry) : M W fleet :=
  run_id ← match str_or (fc_run_id src) None with
           | Some r => mret r
           | None => u ← new_uuid; mret (String.substring 0 12 u)
           end;
  let shared := bool_decide (is_Some (fc_run_id src)) in
  config ← lift (apply_run_isolation special (with_labels (dset RUN_ID_LABEL run_id (fc_labels src)) src) run_id);
  reg ← match given with Some r => mret r | None => lift (default_registry config) end;
  let reg := (λ kv : string * cluster, (kv.1, stamp (fc_labels config) kv.2)) <$> reg in
  reg ← (if (fc_run_isolation config =? "namespace")%string
         then lift (traverse (on_values (move_cluster run_id)) reg) else mret reg);
  p ← lift (get_placement (fc_placement config));
  mret (Fleet config run_id shared [] [] [] false false false reg p [] None [] [] 0 [] [] [] []).

Definition run_selector (f : fleet) : string := RUN_ID_LABEL +:+ "=" +:+ f_run_id f.
Definition pod_run_selector (f : fleet) : string := POD_RUN_ID_LABEL +:+ "=" +:+ f_run_id f.

(** *** The circuit breaker *)

(** [live_owned_count]: a cluster that cannot be listed counts nothing *)
Fixpoint count_clusters (fuel : nat) (sel : string) (n : Z) (cs : list cluster) : FM Z :=
  match cs with
  | [] => mret n
  | c :: cs' => k ← logged 0 (r_count_pods fuel c sel); count_clusters fuel sel (n + k) cs'
  end.

Definition live_owned_count (fuel : nat) : FM Z :=
  f ← self; count_clusters fuel (pod_run_selector f) 0 (f_registry f).*2.

(** The ceiling of [overcommit_guard]; [None] disables it *)
Definition breaker_ceiling (f : fleet) (expected : option Z) : outcome (option Z) :=
  let c := f_config f in
  let expected := default (match f_plan f with Some p => total_replicas p | None => 0 end) expected in
  let expected := if fc_adopt_existing c then 0 else expected in
  if f_shared f then Ret None
  else
    soft ← (if ftruthy (fc_overcommit_factor c) && flt (PFin 0) (fc_overcommit_factor c) && (0 <? expected)
            then e ← float_of_int expected; z ← ftrunc (fmul e (fc_overcommit_factor c)); Ret (Some z)
            else Ret None);
    let hard := match fc_max_live_sandboxes c with Some h => if h =? 0 then None else Some h | None => None end in
    Ret (match soft, hard with
         | Some a, Some b => Some (Z.min a b)
         | Some a, None => Some a
         | None, h => h
         end).

(** [_loop]: the polls of the breaker thread; the count that trips it. [breaches]
    is the run of polls above the ceiling so far. *)
Fixpoint breaker_loop (ceiling need breaches : Z) (polls : list Z) : option Z :=
  match polls with
  | [] => None
  | n :: polls' =>
      if ceiling <? n then
        if breaches + 1 <? need then breaker_loop ceiling need (breaches + 1) polls' else Some n
      else breaker_loop ceiling need 0 polls'
  end.

Definition breaker_need (f : fleet) : Z := Z.max 1 (fc_breaker_trip_polls (f_config f)).

(** *** Run namespaces *)

(** [try: m except Exception as e: ...] *)
Definition attempt {A} (m : FM A) : FM (exn + A) :=
  except (λ e, Some (mret (inl e))) (a ← m; mret (inr a)).

(** The loop over the clusters: those whose namespace this attempt created, and
    the error that ended it *)
Fixpoint ensure_rounds (labels : list (string * string)) (created_now cs : list cluster)
    : FM (list cluster * option exn) :=
  match cs with
  | [] => mret (created_now, None)
  | c :: cs' =>
      r ← attempt (r_ensure_namespace c labels);
      match r with
      | inl _ => mret (created_now, Some FleetError)
      | inr created =>
          let key := (cl_name c, cl_namespace c) in
          let created_now := if created : bool then created_now ++ [c] else created_now in
          _ ← (if created : bool then set_self (λ f, set_created_ns (add_key key (f_created_ns f)) f) else mret ());
          f ← self;
          let owned := bool_decide (key ∈ f_created_ns f) || f_shared f in
          if negb owned || bool_decide (key ∈ f_set_up_ns f) || negb (fc_run_namespace_setup (f_config f))
          then ensure_rounds labels created_now cs'
          else
            r ← attempt (world (namespace_setup (cl_name c) (cl_namespace c)));
            match r with
            | inl _ => mret (created_now, Some FleetError)
            | inr _ =>
                _ ← set_self (λ f, set_set_up_ns (add_key key (f_set_up_ns f)) f);
                ensure_rounds labels created_now cs'
            end
      end
  end.

Definition forget_namespace (key : string * string) (f : fleet) : fleet :=
  set_set_up_ns (discard_key key (f_set_up_ns f)) (set_created_ns (discard_key key (f_created_ns f)) f).

Definition roll_back_namespace (c : cluster) : FM () :=
  r ← attempt (r_delete_namespace c);
  match r with
  | inl _ => mret ()
  | inr _ => set_self (forget_namespace (cl_name c, cl_namespace c))
  end.

Definition ensure_run_namespaces : FM () :=
  f ← self;
  if negb (fc_run_isolation (f_config f) =? "namespace")%string || f_ns_ensured f then mret ()
  else
    let labels := dupdate (fc_labels (f_config f)) (fc_run_namespace_labels (f_config f)) in
    '(created_now, err) ← ensure_rounds labels [] (f_registry f).*2;
    match err with
    | None => set_self (set_ns_ensured true)
    | Some e => _ ← for_each (if f_shared f then [] else created_now) roll_back_namespace; raise e
    end.

(** *** Whose objects *)

(** [(owned, live_object)] of a pool *)
Definition pool_ownership (c : cluster) (pool : string) : FM (bool * option json) :=
  f ← self;
  obj ← r_get_warmpool c pool;
  let live := match obj with Some (JObj d) => Some (JObj d) | _ => None end in
  meta ← lift (metadata_of (py_or (default JNull live) (JObj [])));
  labels ← lift (get_dict meta "labels");
  let owner := match labels with JObj d => default JNull (dget RUN_ID_LABEL d) | _ => JNull end in
  mret (bool_decide (other_run (f_run_id f) owner = None), live).

(** The uid of a live object, if it is a non-empty string *)
Definition uid_of (live : json) : outcome (option string) :=
  meta ← metadata_of live; uid ← py_get meta "uid";
  Ret (match uid with JStr u => str_or (Some u) None | _ => None end).

Definition delete_template_if_owned (c : cluster) (template : string) : FM () :=
  f ← self;
  live ← r_get_template c template;
  match live with
  | Some (JObj d) =>
      meta ← lift (metadata_of (JObj d));
      labels ← lift (get_dict meta "labels");
      owner ← lift (py_get labels RUN_ID_LABEL);
      match other_run (f_run_id f) owner with
      | Some _ => mret ()
      | None => uid ← lift (uid_of (JObj d)); r_delete_template c template uid
      end
  | _ => mret ()
  end.

(** *** Planning *)

(** Place every image: [(image, tasks, cluster)] in order *)
Fixpoint place_images (counts : list (string * Z)) : FM (list (string * Z * cluster)) :=
  match counts with
  | [] => mret []
  | (image, n) :: counts' =>
      f ← self;
      let '(r, p) := select (f_placement f) image (f_registry f) in
      _ ← set_self (set_placement p);
      c ← lift r;
      rest ← place_images counts'; mret ((image, n, c) :: rest)
  end.

Definition cluster_totals (placed : list (string * Z * cluster)) (d : list (string * Z)) : list (string * Z) :=
  foldl (λ d p, dadd (cl_name p.2) p.1.2 d) d placed.

Definition weight_of (reg : registry) (n : string) : outcome (string * pyfloat) :=
  c ← registry_get reg n; Ret (cl_name c, cc_weight (cl_config c)).

(** The budget of each cluster in use *)
Definition cluster_budget (f : fleet) (totals : list (string * Z)) : outcome (list (string * Z)) :=
  ws ← traverse (weight_of (f_registry f)) totals.*1;
  split_budget fsum (fc_max_concurrent (f_config f)) (dict_of ws).

Definition size_image (cfg : FleetConfig) (totals budget : list (string * Z)) (p : string * Z * cluster)
    : outcome PlanEntry :=
  let '(image, n, c) := p in
  b ← match dget (cl_name c) budget with Some b => Ret b | None => Raise KeyError end;
  r ← compute_replicas n (default 0 (dget (cl_name c) totals)) b (fc_max_warmpool_size cfg) 0 (fc_warm_per_task cfg);
  pool ← pool_name special cfg image;
  Ret (Entry (cl_name c) image (template_name cfg image) pool r n false None).

(** [_plan_adopt] *)

Definition discover_all : list cluster → FM (list (string * list (string * DiscoveredPool))) :=
  fix go cs :=
    match cs with
    | [] => mret []
    | c :: cs' =>
        found ← except (λ _, Some (raise FleetError)) (r_discover_pools c);
        rest ← go cs'; mret ((cl_name c, found) :: rest)
    end.

(** [(-h[1].replicas, h[0])] as tuples *)
Definition hit_lt (a b : string * DiscoveredPool) : bool :=
  (dp_replicas b.2 <? dp_replicas a.2) || ((dp_replicas b.2 =? dp_replicas a.2) && str_lt a.1 b.1).

Definition hits_of (discovered : list (string * list (string * DiscoveredPool))) (image : string)
    : list (string * DiscoveredPool) :=
  omap (λ d, (λ p, (d.1, p)) <$> dget image d.2) discovered.

Definition adopt_image (discovered : list (string * list (string * DiscoveredPool))) (ic : string * Z)
    : option PlanEntry :=
  match sorted hit_lt (hits_of discovered ic.1) with
  | [] => None
  | (cname, dp) :: _ =>
      Some (Entry cname ic.1 (dp_template dp) (dp_pool dp) (dp_replicas dp) ic.2 true (dp_runtime_container dp))
  end.

Definition plan_adopt : FM (list PlanEntry) :=
  f ← self;
  let counts := image_counts (f_tasks f) in
  discovered ← discover_all (f_registry f).*2;
  let adopted := adopt_image discovered <$> counts in
  if forallb (λ e, bool_decide (is_Some e)) adopted then
    let entries := omap id adopted in
    _ ← set_self (λ f, set_adopted_templates (list_to_set_keys ((λ e, (pe_cluster e, pe_template e)) <$> entries))
                    (set_adopted_pools (list_to_set_keys ((λ e, (pe_cluster e, pe_pool e)) <$> entries))
                      (set_plan (Some entries) f)));
    mret entries
  else raise PoolNotFoundError.

Definition plan : FM (list PlanEntry) :=
  _ ← ensure_run_namespaces;
  f ← self;
  if fc_adopt_existing (f_config f) then plan_adopt
  else
    placed ← place_images (image_counts (f_tasks f));
    let totals := cluster_totals placed [] in
    budget ← lift (cluster_budget f totals);
    entries ← lift (traverse (size_image (f_config f) totals budget) placed);
    _ ← set_self (set_plan (Some entries));
    mret entries.

(** [self.plan_ or self.plan()]: a [FleetPlan] is truthy *)
Definition the_plan : FM (list PlanEntry) :=
  f ← self; match f_plan f with Some p => mret p | None => plan end.

(** *** Tasks *)

Definition load_tasks (source : list task) (rewrite : option (string → string)) : FM (list task) :=
  let tasks := rewrite_task rewrite <$> source in
  _ ← set_self (set_tasks tasks); mret tasks.

(** The images of the batch: those planned gain tasks, the others are placed. The
    result also has the task totals of the clusters. *)
Fixpoint place_batch (plan : list PlanEntry) (totals : list (string * Z)) (counts : list (string * Z))
    : FM (list (string * Z * cluster) * list (PlanEntry * Z) * list (string * Z)) :=
  match counts with
  | [] => mret ([], [], totals)
  | (image, n) :: counts' =>
      match for_image plan image with
      | Some e =>
          '(fresh, bump, totals') ← place_batch plan (dadd (pe_cluster e) n totals) counts';
          mret (fresh, (e, n) :: bump, totals')
      | None =>
          f ← self;
          let '(r, p) := select (f_placement f) image (f_registry f) in
          _ ← set_self (set_placement p);
          c ← lift r;
          '(fresh, bump, totals') ← place_batch plan (dadd (cl_name c) n totals) counts';
          mret ((image, n, c) :: fresh, bump, totals')
      end
  end.

(** [e.tasks += n] on the shared entry *)
Definition bump_entry (plan : list PlanEntry) (en : PlanEntry * Z) : list PlanEntry :=
  (λ e, if decide (pe_image e = pe_image en.1)
        then Entry (pe_cluster e) (pe_image e) (pe_template e) (pe_pool e) (pe_replicas e)
               (pe_tasks e + en.2) (pe_adopted e) (pe_container e)
        else e) <$> plan.

Definition extend_plan (plan : list PlanEntry) (new_tasks : list task) : FM () :=
  let totals := foldl (λ d e, dadd (pe_cluster e) (pe_tasks e) d) [] plan in
  '(fresh, bump, totals) ← place_batch plan totals (image_counts new_tasks);
  f ← self;
  entries ← match fresh with
            | [] => mret []
            | _ =>
                budget ← lift (cluster_budget f totals);
                lift (traverse (size_image (f_config f) totals budget) fresh)
            end;
  set_self (set_plan (Some (foldl plan_add (foldl bump_entry plan bump) entries))).

Definition add_tasks (source : list task) (rewrite : option (string → string)) : FM (list task) :=
  let new_tasks := rewrite_task rewrite <$> source in
  match new_tasks with
  | [] => mret []
  | _ =>
      f ← self;
      let adopt := fc_adopt_existing (f_config f) in
      _ ← match f_plan f with
          | Some plan => if adopt then mret () else extend_plan plan new_tasks
          | None => mret ()
          end;
      _ ← set_self (λ f, set_tasks (f_tasks f ++ new_tasks) f);
      _ ← (if adopt then
             except (λ e, Some (_ ← set_self (set_tasks (f_tasks f)); raise e)) (_ ← plan_adopt; mret ())
           else mret ());
      mret new_tasks
  end.

(** [recommended_window] *)
Definition disk_spec (c : FleetConfig) : option pyfloat * option pyfloat :=
  match fc_avg_image_gb c, fc_node_ephemeral_gb c with
  | Some avg, Some node => (Some avg, Some (fmul node (fsub (PFin 1) (fc_disk_headroom c))))
  | avg, _ => (avg, None)
  end.

Definition recommended_window (f : fleet) (pipelined : bool) : outcome Z :=
  let c := f_config f in
  match fc_window_size c with
  | Some w => Ret (Z.max 1 w)
  | None =>
      let counts := image_counts (f_tasks f) in
      let '(avg, usable) := disk_spec c in
      let nodes := match fc_cluster_nodes c with Some n => if n =? 0 then 1 else n | None => 1 end in
      if pipelined then
        recommend_window_pipelined counts (fc_max_concurrent c) (fc_max_warmpool_size c) avg usable 0
          (fc_warm_per_task c) nodes
      else
        win ← recommend_window counts (fc_max_concurrent c) (fc_max_warmpool_size c) (fc_warm_per_task c);
        win ← match avg, usable with
              | Some a, Some u =>
                  d ← recommend_window_disk counts (fc_max_concurrent c) (fc_max_warmpool_size c) a u (PFin 1) 0
                        (fc_warm_per_task c) nodes;
                  Ret (Z.min win d)
              | _, _ => Ret win
              end;
        Ret (Z.max 1 win)
  end.

(** *** Provisioning *)

Definition ensure_pool (c : cluster) (image : string) (replicas : Z) : FM string :=
  f ← self;
  let template := template_name (f_config f) image in
  pool ← lift (pool_name special (f_config f) image);
  _ ← r_ensure_template c image template (template_spec c (fc_template (f_config f))) (Some (f_run_id f)) true;
  _ ← r_create_warmpool c pool template replicas false None
        (if f_shared f then [(ON_DEMAND_ANNOTATION, "true")] else []);
  mret pool.

(** A template of another run is a collision *)
Definition own_template (c : cluster) (e : PlanEntry) : FM () :=
  f ← self;
  except (λ x, match x with OwnedByAnotherRunError _ => Some (raise FleetError) | _ => None end)
    (_ ← r_ensure_template c (pe_image e) (pe_template e) (template_spec c (fc_template (f_config f)))
           (Some (f_run_id f)) false;
     mret ()).

Definition ensure_templates : FM () :=
  p ← the_plan;
  f ← self;
  if fc_adopt_existing (f_config f) then mret ()
  else for_each p (λ e, c ← the_cluster (pe_cluster e); own_template c e).

(** A pool with [expected] ready replicas, or [FleetError] *)
Definition await_pool (fuel : nat) (c : cluster) (pool : string) (expected : Z) : FM () :=
  f ← self;
  ready ← r_wait_for_pool_ready fuel c pool expected (fc_ready_timeout (f_config f) * SECOND);
  if ready : bool then mret () else raise FleetError.

Definition adopt_entry (fuel : nat) (e : PlanEntry) (wait : bool) : FM () :=
  c ← the_cluster (pe_cluster e);
  _ ← (if wait then await_pool fuel c (pe_pool e) 1 else mret ());
  set_self (λ f, set_warmed (dset (pe_image e) (pe_replicas e) (f_warmed f)) f).

(** Create or reconcile the pool: [None] when it is borrowed *)
Definition warm_pool (c : cluster) (e : PlanEntry) (reps already : Z) : FM (option bool) :=
  f ← self;
  if f_shared f && (already =? 0) then
    s ← r_warm_shared_pool c (pe_pool e) (pe_template e) reps (f_run_id f);
    mret (match s with PoolBorrowed => None | PoolForeign => Some false | _ => Some true end)
  else
    b ← r_create_warmpool c (pe_pool e) (pe_template e) reps true (Some (f_run_id f)) [];
    mret (Some b).

Definition warm_entry (fuel : nat) (e : PlanEntry) (wait : bool) (override : option Z) : FM () :=
  f ← self;
  if fc_adopt_existing (f_config f) then adopt_entry fuel e wait
  else
    let reps := default (pe_replicas e) override in
    c ← the_cluster (pe_cluster e);
    let already := default 0 (dget (pe_image e) (f_warmed f)) in
    if reps <=? already then (if wait then await_pool fuel c (pe_pool e) reps else mret ())
    else
      _ ← own_template c e;
      ours ← warm_pool c e reps already;
      match ours with
      | None => if wait then await_pool fuel c (pe_pool e) 1 else mret ()
      | Some false => raise FleetError
      | Some true =>
          _ ← on_cluster (pe_cluster e) (reserve_replicas (reps - already));
          _ ← set_self (λ f, set_warmed (dset (pe_image e) reps (f_warmed f)) f);
          if wait then await_pool fuel c (pe_pool e) reps else mret ()
      end.

(** Jobs that all run; the first error is raised at the end. *)
Fixpoint run_jobs {A} (job : A → FM ()) (err : option exn) (l : list A) : FM () :=
  match l with
  | [] => match err with Some e => raise e | None => mret () end
  | a :: l' =>
      r ← attempt (job a);
      run_jobs job (match err, r with Some e, _ => Some e | None, inl e => Some e | None, inr _ => None end) l'
  end.

Definition warm_entries (fuel : nat) (entries : list PlanEntry) (wait : bool) (override : option Z) : FM () :=
  run_jobs (λ e, warm_entry fuel e wait override) None entries.

(** The waves of [start_warmpools]: pools in order, a wave within the budget *)
Fixpoint waves (budget : Z) (wave : list PlanEntry) (creates : Z) (entries : list PlanEntry)
    : list (list PlanEntry) :=
  match entries with
  | [] => match wave with [] => [] | _ => [wave] end
  | e :: entries' =>
      if negb (bool_decide (wave = [])) && (budget <? creates + pe_replicas e)
      then wave :: waves budget [e] (pe_replicas e) entries'
      else waves budget (wave ++ [e]) (creates + pe_replicas e) entries'
  end.

(** All waves but the last wait *)
Fixpoint warm_waves (fuel : nat) (wait : bool) (ws : list (list PlanEntry)) : FM () :=
  match ws with
  | [] => mret ()
  | [w] => warm_entries fuel w wait None
  | w :: ws' => _ ← warm_entries fuel w true None; warm_waves fuel wait ws'
  end.

Definition start_warmpools (fuel : nat) (wait : bool) (create_budget : option Z) : FM () :=
  f ← self;
  let budget := default (fc_warm_create_budget (f_config f)) create_budget in
  entries ← the_plan;
  if fc_adopt_existing (f_config f) || (budget <=? 0) then warm_entries fuel entries wait None
  else warm_waves fuel wait (waves budget [] 0 entries).

(** [list(dict.fromkeys(images))] *)
Definition distinct (l : list string) : list string := foldl (λ acc x, if decide (x ∈ acc) then acc else acc ++ [x]) [] l.

Definition warm_images (fuel : nat) (images : list string) (override : option Z) (wait : bool) : FM () :=
  p ← the_plan;
  warm_entries fuel (omap (for_image p) (distinct images)) wait override.

Definition warm_image (fuel : nat) (image : string) (override : option Z) (wait : bool) : FM () :=
  p ← the_plan;
  match for_image p image with
  | None => raise KeyError
  | Some e => warm_entry fuel e wait override
  end.

(** Delete exactly the pool that was inspected *)
Definition delete_inspected (c : cluster) (pool : string) (live : option json) : FM () :=
  match live with
  | None => mret ()
  | Some v => uid ← lift (uid_of v); r_delete_warmpool c pool uid
  end.

Definition keep_warmed (image : string) (reps : Z) : FM () :=
  set_self (λ f, set_warmed (dset image reps (f_warmed f)) f).

Definition unwarm_entry (e : PlanEntry) : FM () :=
  f ← self;
  if fc_adopt_existing (f_config f) then mret ()
  else match dget (pe_image e) (f_warmed f) with
  | None => mret ()
  | Some reps =>
      _ ← set_self (λ f, set_warmed (dpop (pe_image e) (f_warmed f)) f);
      c ← the_cluster (pe_cluster e);
      '(owned, live) ← except (λ x, Some (_ ← keep_warmed (pe_image e) reps; raise x)) (pool_ownership c (pe_pool e));
      if negb owned then mret ()
      else
        r ← attempt (delete_inspected c (pe_pool e) live);
        _ ← match r with
            | inr _ => on_cluster (pe_cluster e) (release_replicas reps)
            | inl _ => keep_warmed (pe_image e) reps
            end;
        t ← attempt (delete_template_if_owned c (pe_template e));
        match r, t with
        | inl x, _ => raise x
        | _, inl x => raise x
        | _, _ => mret ()
        end
  end.

Definition unwarm_images (images : list string) : FM () :=
  p ← the_plan;
  run_jobs unwarm_entry None (omap (for_image p) (distinct images)).

Definition unwarm_image (image : string) : FM () :=
  p ← the_plan;
  match for_image p image with None => mret () | Some e => unwarm_entry e end.

Definition set_pool_replicas (image : string) (replicas : Z) : FM () :=
  p ← the_plan;
  f ← self;
  match for_image p image with
  | None => mret ()
  | Some e =>
      if fc_adopt_existing (f_config f) then mret ()
      else if f_shared f && bool_decide (dget image (f_warmed f) = None) then mret ()
      else
        let replicas := Z.max 0 replicas in
        c ← the_cluster (pe_cluster e);
        ours ← r_create_warmpool c (pe_pool e) (pe_template e) replicas true (Some (f_run_id f)) [];
        if negb ours then mret ()
        else
          f ← self;
          let delta := replicas - default (pe_replicas e) (dget image (f_warmed f)) in
          _ ← keep_warmed image replicas;
          if 0 <? delta then on_cluster (pe_cluster e) (reserve_replicas delta)
          else if delta <? 0 then on_cluster (pe_cluster e) (release_replicas (- delta))
          else mret ()
  end.

(** [wait_pools_ready]: never raises *)
Definition pool_ready (fuel : nat) (plan : list PlanEntry) (warmed : list (string * Z)) (limit : Z)
    (replicas : list (string * Z)) (image : string) : FM bool :=
  match for_image plan image with
  | None => mret false
  | Some e =>
      let want := if pe_adopted e then 1
                  else match dget image warmed with Some n => Z.max 1 n | None => 1 end in
      let want := match dget image replicas with
                  | Some n => if n =? 0 then want else Z.max 1 (Z.min n want)
                  | None => want
                  end in
      logged false (c ← the_cluster (pe_cluster e); r_wait_for_pool_ready fuel c (pe_pool e) want limit)
  end.

Fixpoint map_ready (g : string → FM bool) (images : list string) : FM (list (string * bool)) :=
  match images with
  | [] => mret []
  | i :: images' => b ← g i; rest ← map_ready g images'; mret ((i, b) :: rest)
  end.

(** [timeout] in nanoseconds *)
Definition wait_pools_ready (fuel : nat) (images : list string) (timeout : option Z) (replicas : list (string * Z))
    : FM (list (string * bool)) :=
  match distinct images with
  | [] => mret []
  | images =>
      p ← attempt the_plan;
      match p with
      | inl _ => mret ((λ i, (i, false)) <$> images)
      | inr plan =>
          f ← self;
          let limit := default (fc_ready_timeout (f_config f) * SECOND) timeout in
          map_ready (pool_ready fuel plan (f_warmed f) limit replicas) images
      end
  end.

(** *** Claims

    The sections that hold the lock are functions of the fleet, so that [RlSlots]
    can interleave them. *)

(** [hard and self._claims_reserved >= hard] *)
Definition slots_full (f : fleet) : bool :=
  match fc_max_live_sandboxes (f_config f) with
  | Some hard => negb (hard =? 0) && (hard <=? f_reserved f)
  | None => false
  end.

Definition take_slot (f : fleet) : outcome fleet :=
  if slots_full f then Raise FleetOvercommitError else Ret (set_reserved (f_reserved f + 1) f).

Definition give_slot (f : fleet) : fleet := set_reserved (Z.max 0 (f_reserved f - 1)) f.

(** A new handle, tracked unless the fleet was torn down meanwhile *)
Definition track_handle (h : handle) (f : fleet) : bool * fleet :=
  let id := length (f_heap f) in
  let f := set_heap (f_heap f ++ [h]) f in
  if f_torndown f then (false, f) else (true, set_handles (f_handles f ++ [id]) f).

(** The handle is taken out by one caller only *)
Definition untrack_handle (id : nat) (f : fleet) : option fleet :=
  if decide (id ∈ f_handles f) then Some (set_handles (remove_first id (f_handles f)) f) else None.

Definition track_again (id : nat) (f : fleet) : fleet := set_handles (f_handles f ++ [id]) f.

Definition update_handle (id : nat) (g : handle → handle) (f : fleet) : fleet :=
  match f_heap f !! id with
  | Some h => set_heap (<[id := g h]> (f_heap f)) f
  | None => f
  end.

(** [_free_slot_for_suspend]: [false] when the slot was given back before *)
Definition free_slot (id : nat) (f : fleet) : bool * fleet :=
  match f_heap f !! id with
  | Some h => if hd_slot_released h then (false, f)
              else (true, give_slot (update_handle id (with_slot true) f))
  | None => (false, f)
  end.

(** [_retake_slot_for_wake] *)
Definition retake_slot (id : nat) (f : fleet) : outcome (bool * fleet) :=
  match f_heap f !! id with
  | Some h =>
      if negb (hd_slot_released h) then Ret (false, f)
      else f' ← take_slot f; Ret (true, update_handle id (with_slot false) f')
  | None => Ret (false, f)
  end.

(** A section that changes the fleet *)
Definition section {A} (g : fleet → outcome (A * fleet)) : FM A := λ s,
  match g s.1 with
  | Ret (a, f) => (Ret a, (f, s.2))
  | Raise e => (Raise e, s)
  | NoFuel => (NoFuel, s)
  end.

(** Code on the handle [id] *)
Definition on_handle {A} (id : nat) (m : M (handle * W) A) : FM A := λ s,
  match f_heap s.1 !! id with
  | Some h => let '(r, (h', w')) := m (h, s.2) in (r, (update_handle id (λ _, h') s.1, w'))
  | None => (Raise AttributeError, s)
  end.

(** Where a task is claimed *)
Record claim_target := Target {
  tg_cluster : cluster;
  tg_pool : string;
  tg_entry : option PlanEntry;
  (** this call created the pool on demand *)
  tg_created : bool;
}.

Definition find_target (image : string) : FM claim_target :=
  f ← self;
  match f_plan f ≫= λ p, for_image p image with
  | Some e => c ← the_cluster (pe_cluster e); mret (Target c (pe_pool e) (Some e) false)
  | None =>
      if fc_adopt_existing (f_config f) then raise PoolNotFoundError
      else
        let '(r, p) := select (f_placement f) image (f_registry f) in
        _ ← set_self (set_placement p);
        c ← lift r;
        pool ← ensure_pool c image 1;
        let key := (cl_name c, image) in
        f ← self;
        if decide (key ∈ f_ondemand f) then mret (Target c pool None false)
        else
          _ ← set_self (λ f, set_ondemand (add_key key (f_ondemand f)) f);
          _ ← on_cluster (cl_name c) (reserve_replicas 1);
          mret (Target c pool None true)
  end.

(** After [create_sandbox]: the watchdog's verdict, and the pod *)
Definition claim_details (ff : bool) (claim : string) (sb : sandbox) : FM (option string * option string) :=
  v ← (if ff then world (watchdog_stop claim) else mret None);
  match v with
  | Some reason => raise (SandboxStartError reason)
  | None =>
      pod ← world (sdk_pod_name sb);
      ip ← logged None (world (sdk_pod_ip sb));
      mret (pod, ip)
  end.

(** The removal of the pool this call created *)
Definition remove_ondemand (t : claim_target) (image : string) : FM () :=
  f ← self;
  _ ← (if f_shared f then mret ()
       else logged () ('(owned, live) ← pool_ownership (tg_cluster t) (tg_pool t);
                       _ ← (if owned : bool then delete_inspected (tg_cluster t) (tg_pool t) live else mret ());
                       delete_template_if_owned (tg_cluster t) (template_name (f_config f) image)));
  _ ← on_cluster (cl_name (tg_cluster t)) (release_replicas 1);
  set_self (λ f, set_ondemand (discard_key (cl_name (tg_cluster t), image) (f_ondemand f)) f).

(** The except clause of [_acquire_reserved] *)
Definition undo_claim (ff : bool) (t : claim_target) (image claim : string) (sb : option sandbox) (x : exn)
    : FM () :=
  let c := tg_cluster t in
  verdict ← (if ff then world (watchdog_stop claim) else mret None);
  gone ← (if ff then world (watchdog_deleted_claim claim) else mret false);
  _ ← match sb with
      | None => if gone || bool_decide (x = ApiException 409) then mret () else logged () (r_delete_claim c claim)
      | Some sb => logged () (world (sdk_terminate sb))
      end;
  _ ← world (sdk_forget (cl_name c) (cl_namespace c) claim);
  _ ← (if tg_created t then remove_ondemand t image else mret ());
  match verdict, x with
  | Some _, SandboxStartError _ => raise x
  | Some reason, _ => raise (SandboxStartError reason)
  | None, _ => raise x
  end.

(** The claim: a sandbox with its pod, or everything undone *)
Definition make_claim (ff : bool) (t : claim_target) (image claim : string) (annotations : list (string * string))
    : FM (sandbox * (option string * option string)) :=
  f ← self;
  let c := tg_cluster t in
  let undo {A} sb x : FM A := _ ← undo_claim ff t image claim sb x; raise x in
  r ← attempt (world (sdk_create_sandbox (cl_name c)
        (ClaimRequest (tg_pool t) (cl_namespace c) (effective_claim_timeout (f_config f)) (fc_labels (f_config f))
           claim annotations)));
  match r with
  | inl x => undo None x
  | inr sb =>
      d ← attempt (claim_details ff claim sb);
      match d with
      | inl x => undo (Some sb) x
      | inr d => mret (sb, d)
      end
  end.

(** [handle.record_pod_identity()] on a handle that is not tracked yet *)
Definition identify (h : handle) : FM handle := λ s,
  let '(r, (h', w')) := record_pod_identity (h, s.2) in (_ ← r; Ret h', (s.1, w')).

Definition CLAIM_PREFIX : string := "sandbox-claim-".

Definition acquire_reserved (image : string) (snapshot_uid : option string)
    (pod_annotations : list (string * string)) : FM nat :=
  let annotations := match str_or snapshot_uid None with
                     | Some u => dset "podsnapshot.gke.io/ps-name" u pod_annotations
                     | None => pod_annotations
                     end in
  t ← find_target image;
  f ← self;
  let c := tg_cluster t in
  let ff := fc_fail_fast (f_config f) in
  u ← world new_uuid;
  let claim := CLAIM_PREFIX +:+ String.substring 0 12 u in
  _ ← (if ff then world (watchdog_start (cl_name c) claim) else mret ());
  '(sb, (pod, ip)) ← finally (if ff then _ ← world (watchdog_stop claim); mret () else mret ())
    (make_claim ff t image claim annotations);
  let container := str_or (tg_entry t ≫= pe_container) (Some RUNTIME_CONTAINER) in
  let h := Handle image (cl_name c) (cl_namespace c) (sb_claim_name sb) sb (default EmptyString pod) ip None
             container None None false JNull JNull in
  h ← identify h;
  id ← gets (λ s : fleet * W, length (f_heap s.1));
  tracked ← section (λ f, Ret (track_handle h f));
  if negb tracked then
    _ ← logged () (world (sdk_terminate sb));
    _ ← world (sdk_forget (cl_name c) (cl_namespace c) claim);
    raise FleetError
  else
    _ ← on_cluster (cl_name c) reserve_claim;
    match str_or snapshot_uid None with
    | None => mret id
    | Some uid =>
        st ← world (pod_restore_status (cl_name c) (cl_namespace c) (default EmptyString pod));
        _ ← (if from_snapshot st (Some uid) then mret ()
             else set_self (update_handle id (with_pending (Some uid))));
        mret id
    end.

Definition acquire (image : string) (snapshot_uid : option string) (pod_annotations : list (string * string))
    : FM nat :=
  _ ← section (λ f, f' ← take_slot f; Ret (tt, f'));
  except (λ e, Some (_ ← set_self give_slot; raise e)) (acquire_reserved image snapshot_uid pod_annotations).

Fixpoint acquire_batch (images : list string) : FM (list nat) :=
  match images with
  | [] => mret []
  | i :: images' => h ← acquire i None []; hs ← acquire_batch images'; mret (h :: hs)
  end.

(** *** Release *)

Definition PODSNAPSHOTS : resource := Resource "podsnapshot.gke.io" "v1" "podsnapshots".

(** [_snapshot_uids_by_label] *)
Definition snapshot_uids_by_label (c : cluster) (sandbox_id : string) : FM (list string) :=
  sb ← world (@get_object W (k8s_of (cl_name c)) SANDBOX (cl_namespace c) sandbox_id);
  status ← lift (get_dict (py_or sb (JObj [])) "status");
  sel ← lift (py_get status "labelSelector");
  if negb (truthy sel) then raise FleetError
  else
    resp ← world (@list_objects W (k8s_of (cl_name c)) PODSNAPSHOTS (cl_namespace c) (Some (py_str sel)));
    items ← lift (py_get (py_or resp (JObj [])) "items");
    l ← lift (py_iter (py_or items (JList [])));
    names ← lift (traverse (λ i, m ← metadata_of i; py_get m "name") l);
    mret (py_str <$> filter (λ n, truthy n) names).

(** What a release with [delete_snapshots] deletes after it: nothing when they
    cannot be listed or the engine is gone *)
Definition doomed_snapshots (c : cluster) (id : nat) : FM (list string) :=
  logged []
    (f ← self;
     match f_heap f !! id with
     | None => raise AttributeError
     | Some h =>
         uids ← snapshot_uids_by_label c (sb_id (hd_sandbox h));
         _ ← on_handle id snapshot_engine;
         mret uids
     end).

Definition delete_one_snapshot (id : nat) (uid : string) : FM () :=
  logged ()
    (f ← self;
     match f_heap f !! id with
     | None => raise AttributeError
     | Some h => a ← world (sdk_delete_snapshot (hd_sandbox h) uid 180); _ ← lift (check_answer a); mret ()
     end).

(** The last section of a release: the slot of a handle that still had one *)
Definition settle_release (id : nat) : FM () :=
  f ← self;
  match f_heap f !! id with
  | Some h =>
      if hd_slot_released h then mret ()
      else _ ← on_cluster (hd_cluster h) release_claim; set_self give_slot
  | None => mret ()
  end.

Definition release (id : nat) (delete_snapshots : bool) : FM () :=
  f ← self;
  match untrack_handle id f with
  | None => mret ()
  | Some f' =>
      _ ← set_self (λ _, f');
      match f_heap f !! id with
      | None => raise AttributeError
      | Some h =>
          c ← the_cluster (hd_cluster h);
          uids ← (if delete_snapshots then doomed_snapshots c id else mret []);
          _ ← except (λ e, Some (_ ← set_self (track_again id); raise e)) (on_handle id RlHandles.release);
          _ ← settle_release id;
          for_each uids (delete_one_snapshot id)
      end
  end.

Definition release_all : FM () := f ← self; for_each (f_handles f) (λ id, release id false).

(** *** Suspend and wake *)

Definition give_back (id : nat) : FM () :=
  freed ← section (λ f, Ret (free_slot id f));
  if freed : bool then
    f ← self;
    match f_heap f !! id with
    | Some h => on_cluster (hd_cluster h) release_claim
    | None => mret ()
    end
  else mret ().

Definition take_back (id : nat) : FM bool :=
  taken ← section (retake_slot id);
  if taken : bool then
    f ← self;
    match f_heap f !! id with
    | Some h => _ ← on_cluster (hd_cluster h) reserve_claim; mret true
    | None => mret true
    end
  else mret false.

Definition fleet_snapshot (id : nat) (name : option string) (timeout : Z) : FM (option string) :=
  on_handle id (snapshot name timeout).

Definition fleet_suspend (id : nat) (take : bool) (timeout : Z) : FM (option string) :=
  uid ← on_handle id (suspend take timeout); _ ← give_back id; mret uid.

(** A wake takes a slot first, and gives it back when it fails. *)
Definition waking {A} (id : nat) (m : M (handle * W) A) : FM A :=
  retaken ← take_back id;
  except (λ e, Some (_ ← (if retaken : bool then give_back id else mret ()); raise e)) (on_handle id m).

Definition fleet_resume (id : nat) (timeout : Z) : FM bool := waking id (resume timeout).
Definition fleet_restore (id : nat) (uid : string) (timeout : Z) : FM () := waking id (restore uid timeout).

(** *** Teardown *)

(** The objects of this run on a cluster: claims, pools, templates *)
Definition sweep_lists (c : cluster) : FM (list string * list string * list string) :=
  f ← self;
  if f_shared f then mret ([], [], [])
  else
    let sel := run_selector f in
    logged ([], [], [])
      (claims ← r_list c CLAIM sel;
       pools ← r_list c WARMPOOLS sel;
       tmpls ← r_list c TEMPLATES sel;
       mret (claims, pools, tmpls)).

Definition sweep_namespace (c : cluster) (delete_namespace : bool) : FM () :=
  f ← self;
  let key := (cl_name c, cl_namespace c) in
  if delete_namespace || (bool_decide (key ∈ f_created_ns f) && negb (f_shared f)) then
    r ← attempt (r_delete_namespace c);
    match r with
    | inl _ => mret ()
    | inr _ => set_self (λ f, forget_namespace key (set_deleted_ns (add_key key (f_deleted_ns f)) f))
    end
  else mret ().

Definition sweep_cluster (delete_namespace : bool) (c : cluster) : FM () :=
  '(claims, pools, tmpls) ← sweep_lists c;
  f ← self;
  let pools := filter (λ p, (cl_name c, p) ∉ f_adopted_pools f) pools in
  let tmpls := filter (λ t, (cl_name c, t) ∉ f_adopted_templates f) tmpls in
  _ ← for_each claims (λ n, logged () (r_delete_claim c n));
  _ ← for_each pools (λ n, logged () (r_delete_warmpool c n None));
  _ ← for_each tmpls (λ n, logged () (r_delete_template c n None));
  _ ← on_cluster (cl_name c) reset_counts;
  sweep_namespace c delete_namespace.

(** The bookkeeping after the sweep *)
Definition forget_run (f : fleet) : fleet :=
  set_atexit false (set_plan None (set_adopted_templates [] (set_adopted_pools [] (set_ondemand []
    (set_warmed [] (set_ns_ensured false f)))))).

Definition teardown_body (delete_namespace : bool) : FM () :=
  _ ← release_all;
  f ← self;
  _ ← match f_shared f, f_warmed f, f_plan f with
      | true, _ :: _, Some _ => logged () (unwarm_images (f_warmed f).*1)
      | _, _, _ => mret ()
      end;
  f ← self;
  _ ← for_each (f_registry f).*2 (sweep_cluster delete_namespace);
  set_self forget_run.

Definition teardown (delete_namespace : bool) : FM () :=
  f ← self;
  if f_torndown f then mret ()
  else _ ← set_self (set_torndown true); teardown_body delete_namespace.

(** The hook at exit *)
Definition safe_teardown : FM () :=
  f ← self; if f_torndown f then mret () else logged () (teardown false).

(** [overcommit_guard] around [body]. [counts] is what the thread of the breaker counted,
    poll by poll, until the body was over; its teardown, which in the code runs beside
    the body, comes after it here. [reentrant]: an outer guard of the fleet is active. *)
Definition overcommit_guard {A} (reentrant : bool) (counts : list Z) (expected : option Z) (body : FM A) : FM A :=
  f ← self;
  ceiling ← lift (breaker_ceiling f expected);
  match ceiling with
  | None => body
  | Some ceiling =>
      if reentrant then body
      else
        let tripped := breaker_loop ceiling (breaker_need f) 0 counts in
        a ← finally (match tripped with Some _ => logged () (teardown false) | None => mret () end) body;
        if bool_decide (default 0 tripped = 0) then mret a else raise FleetOvercommitError
  end.

(** [setup] without preflight and pre-pulling *)
Definition setup (fuel : nat) (hooks : bool) (preflight : FM ()) (create_budget : option Z) : FM () :=
  _ ← set_self (λ f, set_reserved 0 (set_deleted_ns [] (set_torndown false
        (if hooks then set_atexit true f else f))));
  _ ← (_ ← ensure_run_namespaces; preflight);
  _ ← plan;
  start_warmpools fuel true create_budget.
End fleet.
