(* ===== verification/RlOwnership.v ===== *)
(** What a fleet writes: only pools and templates that it inspected and that are not
    another run's.

    Every call to an API server may find what other runs did meanwhile, so the world
    is asked for two things it can tell afterwards: the writes this process made, each
    with the object it hit, and the versions of objects that were ever read or hit.
    The laws are the documented behaviour of the API server: a [resourceVersion]
    names one version of an object, a patch that carries one is refused unless the
    object is in that version, and a delete with a uid precondition hits the object
    with that uid or nothing. *)

From Stdlib Require Import Ascii String ZArith Lia.
From stdpp Require Import base option list strings sets.
From S2P Require Import Prelude Hoare Float Json PyList PyText IpAddress Models Utils World K8sHelper ObjectStore DateTime Budget Snapshots RlResources RlConfig RlHandles RlFleet.

#[local] Open Scope Z_scope.

(** ** Writes and versions *)

Record write := Write {
  wr_cluster : string;
  wr_res : resource;
  wr_ns : string;
  wr_name : string;
  (** the object that was patched or deleted; none for a create *)
  wr_before : option json;
}.

Class Audit (W : Type) := {
  writes : W → list write;
  (** cluster, resource, namespace, name and resource version *)
  version : W → string → resource → string → string → string → option json;
}.

(** The [resourceVersion] a patch carries *)
Definition lock_of (body : json) : option string :=
  match body with
  | JObj d => match dget "metadata" d with
              | Some (JObj m) => match dget "resourceVersion" m with Some (JStr v) => Some v | _ => None end
              | _ => None
              end
  | _ => None
  end.

(** The run a patch labels the object with *)
Definition run_label_of (body : json) : option json :=
  match body with
  | JObj d => match dget "metadata" d with
              | Some (JObj m) => match dget "labels" m with Some (JObj l) => dget RUN_ID_LABEL l | _ => None end
              | _ => None
              end
  | _ => None
  end.

Section laws.
Context {W : Type} `{Audit W}.

(** Versions are only added. *)
Definition grows (w w' : W) : Prop :=
  ∀ c r ns n rv v, version w c r ns n rv = Some v → version w' c r ns n rv = Some v.

Definition quiet (w w' : W) : Prop := writes w' = writes w ∧ grows w w'.

Fixpoint stream_quiet (w : W) (s : stream W) : Prop :=
  match s with
  | SEnd w' | SFail _ w' | SHang w' => quiet w w'
  | SEvent _ w' rest => quiet w w' ∧ stream_quiet w rest
  end.

(** The version of an object the server answered with *)
Definition version_of (v : json) : outcome json := m ← metadata_of v; py_get m "resourceVersion".

(** An object of the server: it has a uid, labels and a version, and that version is
    known *)
Definition known (w : W) (c : string) (r : resource) (ns n : string) (v : json) : Prop :=
  ∃ d u rv, v = JObj d ∧ d ≠ [] ∧ uid_of v = Ret (Some u) ∧ (∃ o, owner_of v = Ret o) ∧ rv ≠ EmptyString ∧
    version_of v = Ret (JStr rv) ∧ version w c r ns n rv = Some v.
End laws.

(** The documented behaviour of the API servers. Everything else the fleet calls
    writes no pool and no template. *)
Class AuditLaws (W : Type) `{Clock W} `{Sdk W} `{PodExec W} `{Clusters W} `{Audit W} := {
  au_get : ∀ c r ns n w o w', @get_object W (k8s_of c) r ns n w = (o, w') →
    quiet w w' ∧ ∀ v, o = Ret v → known w' c r ns n v;
  au_list : ∀ c r ns sel, ∀ w, moves quiet (@list_objects W (k8s_of c) r ns sel) w;
  au_create : ∀ c r ns body w w', (@create_object W (k8s_of c) r ns body w).2 = w' →
    grows w w' ∧ (writes w' = writes w ∨ ∃ n, writes w' = writes w ++ [Write c r ns n None]);
  (** a merge patch: it hits the version it names, and its labels are then on the object *)
  au_patch : ∀ c r ns n body w o w', @patch_object W (k8s_of c) r ns n body w = (o, w') →
    grows w w' ∧
    (∀ v, o = Ret v → known w' c r ns n v ∧ ∀ run, run_label_of body = Some run → owner_of v = Ret run) ∧
    (writes w' = writes w ∨ ∃ before, writes w' = writes w ++ [Write c r ns n (Some before)] ∧
       ∀ rv, lock_of body = Some rv → version w' c r ns n rv = Some before);
  au_delete : ∀ c r ns n uid w w', (@delete_object W (k8s_of c) r ns n uid w).2 = w' →
    grows w w' ∧ (writes w' = writes w ∨ ∃ before, writes w' = writes w ++ [Write c r ns n (Some before)] ∧
       ∀ u, uid = Some u → uid_of before = Ret (Some u));
  au_watch : ∀ c req w, stream_quiet w (@watch_stream W (k8s_of c) req w);
  au_list_pods : ∀ c ns k cont sel, ∀ w, moves quiet (@list_pods W (api_of c) ns k cont sel) w;
  au_create_ns : ∀ c ns l w, moves quiet (@create_ns W (api_of c) ns l) w;
  au_read_ns : ∀ c ns w, moves quiet (@read_ns_phase W (api_of c) ns) w;
  au_delete_ns : ∀ c ns w, moves quiet (@delete_ns W (api_of c) ns) w;
  au_setup_ns : ∀ c ns w, moves quiet (namespace_setup c ns) w;
  au_uuid : ∀ w, moves quiet new_uuid w;
  au_watchdog_start : ∀ c n w, moves quiet (watchdog_start c n) w;
  au_watchdog_stop : ∀ n w, moves quiet (watchdog_stop n) w;
  au_watchdog_deleted : ∀ n w, moves quiet (watchdog_deleted_claim n) w;
  au_monotonic : ∀ w, quiet w (monotonic w).2;
  au_sleep : ∀ d w, quiet w (sleep d w);
  au_create_sandbox : ∀ c q w, moves quiet (sdk_create_sandbox c q) w;
  au_terminate : ∀ sb w, moves quiet (sdk_terminate sb) w;
  au_pod_name : ∀ sb w, moves quiet (sdk_pod_name sb) w;
  au_pod_ip : ∀ sb w, moves quiet (sdk_pod_ip sb) w;
  au_forget : ∀ c ns n w, moves quiet (sdk_forget c ns n) w;
  au_engine : ∀ sb w, moves quiet (sdk_engine sb) w;
  au_delete_snapshot : ∀ sb u t w, moves quiet (sdk_delete_snapshot sb u t) w;
  au_snapshot : ∀ sb n t w, moves quiet (sdk_snapshot sb n t) w;
  au_suspend : ∀ sb b t w, moves quiet (sdk_suspend sb b t) w;
  au_resume : ∀ sb t w, moves quiet (sdk_resume sb t) w;
  au_restore : ∀ sb u t w, moves quiet (sdk_restore sb u t) w;
  au_write_stdin : ∀ i t w, moves quiet (write_stdin i t) w;
  au_close_stream : ∀ i w, moves quiet (close_stream i) w;
  au_pod_status : ∀ c ns n w, moves quiet (pod_status c ns n) w;
  au_pod_conditions : ∀ c ns n w, moves quiet (pod_conditions c ns n) w;
}.

#[global] Instance grows_preorder {W} `{Audit W} : PreOrder grows.
Proof. split; [by intros ? ?|]. intros w1 w2 w3 H1 H2 c r ns n rv v E. by apply H2, H1. Qed.
#[global] Instance quiet_preorder {W} `{Audit W} : PreOrder quiet.
Proof.
  split; [by intros w; split|]. intros w1 w2 w3 [E1 G1] [E2 G2]. split; [congruence|by etrans].
Qed.

(** ** Code whose writes are all allowed *)

(** What may be written; a write stays allowed when more versions are known. *)
Class Allowed {W} `{Audit W} (ok : W → write → Prop) :=
  allowed_grows : ∀ w w' x, grows w w' → ok w x → ok w' x.

Section honest.
Context {W : Type} `{Audit W} (ok : W → write → Prop) `{!Allowed ok}.

Definition honest (w w' : W) : Prop :=
  grows w w' ∧ ∃ new, writes w' = writes w ++ new ∧ Forall (ok w') new.

#[global] Instance honest_preorder : PreOrder honest.
Proof.
  split.
  - intros w. split; [done|]. exists []. by rewrite app_nil_r.
  - intros w1 w2 w3 (G1 & n1 & E1 & F1) (G2 & n2 & E2 & F2). split; [by etrans|].
    exists (n1 ++ n2). rewrite E2, E1, app_assoc. split; [done|].
    apply Forall_app. split; [|done]. eapply Forall_impl; [exact F1|]. intros x. by apply allowed_grows.
Qed.

Lemma quiet_honest w w' : quiet w w' → honest w w'.
Proof using Type. intros [E G]. split; [done|]. exists []. by rewrite E, app_nil_r. Qed.

Lemma quiet_moves {A} (m : M W A) w : moves quiet m w → moves honest m w.
Proof using Type. apply quiet_honest. Qed.

Lemma wrote_honest w w' x : grows w w' → writes w' = writes w ++ [x] → ok w' x → honest w w'.
Proof using Type. intros G E Hx. split; [done|]. exists [x]. by repeat constructor. Qed.
End honest.

(** *** Nobody else's objects *)

Section ours.
Context {W : Type} `{Audit W} (run : string).

(** Its run label names no other run. *)
Definition unclaimed (v : json) : Prop := ∃ o, owner_of v = Ret o ∧ other_run run o = None.

(** A create, or a write that hits an object that was inspected and found
    unclaimed: in that very version, or with its uid *)
Definition ours (w : W) (x : write) : Prop :=
  match wr_before x with
  | None => True
  | Some b =>
      wr_res x = WARMPOOLS ∨ wr_res x = TEMPLATES →
      ∃ seen, known w (wr_cluster x) (wr_res x) (wr_ns x) (wr_name x) seen ∧ unclaimed seen ∧
        (b = seen ∨ ∃ u, uid_of b = Ret (Some u) ∧ uid_of seen = Ret (Some u))
  end.

Lemma known_grows w w' c r ns n v : grows w w' → known w c r ns n v → known w' c r ns n v.
Proof. intros G (d & u & rv & ? & ? & ? & ? & ? & ? & E). exists d, u, rv. eauto 10. Qed.

#[global] Instance ours_allowed : Allowed ours.
Proof.
  intros w w' x G. unfold ours. destruct (wr_before x); [|done]. intros Hx Hr.
  destruct (Hx Hr) as (seen & Hk & ?). exists seen. eauto using known_grows.
Qed.
End ours.

(** *** No pools and no templates *)

Definition spares_pools {W} (w : W) (x : write) : Prop := wr_res x ≠ WARMPOOLS ∧ wr_res x ≠ TEMPLATES.

#[global] Instance spares_pools_allowed {W} `{Audit W} : Allowed (W := W) spares_pools.
Proof. by intros w w' x _. Qed.

(** ** Templates and pools of one cluster *)

Section resources.
Context {W : Type} `{Clock W} `{Sdk W} `{PodExec W} `{Clusters W} `{Audit W} `{!AuditLaws W}.
Context (run c : string) (rs : resources).

Abbreviation api := (k8s_of c).
Abbreviation ns := (rs_namespace rs).
Abbreviation honest := (honest (ours run)).
Abbreviation unclaimed := (unclaimed run).

Lemma get_honest r n w : moves honest (@get_object W api r ns n) w.
Proof. unfold moves. destruct (get_object _ _ _ _) eqn:E. apply quiet_honest. by apply au_get in E as [? _]. Qed.

Lemma create_honest r body w : moves honest (@create_object W (k8s_of c) r ns body) w.
Proof.
  unfold moves. destruct (au_create c r ns body w _ eq_refl) as [G [E|[n E]]]; [by apply quiet_honest|].
  by eapply wrote_honest.
Qed.

Lemma patch_honest r n body w seen rv :
  known w c r ns n seen → unclaimed seen → version_of seen = Ret (JStr rv) → lock_of body = Some rv →
  moves honest (@patch_object W (k8s_of c) r ns n body) w.
Proof.
  intros Hk Hu Hv Hl. unfold moves. destruct (patch_object _ _ _ _ _) as [o w'] eqn:E.
  apply au_patch in E as (G & _ & [E|(before & E & Hlock)]); [by apply quiet_honest|].
  eapply wrote_honest; [done|done|]. intros _. exists seen.
  pose proof (known_grows _ _ _ _ _ _ _ G Hk) as Hk'. repeat split; [done|done|]. left.
  destruct Hk' as (? & ? & rv' & ? & ? & ? & ? & ? & Hv' & Hin). specialize (Hlock rv Hl).
  congruence.
Qed.

Lemma delete_honest r n w seen u :
  known w c r ns n seen → unclaimed seen → uid_of seen = Ret (Some u) →
  moves honest (@delete_object W (k8s_of c) r ns n (Some u)) w.
Proof.
  intros Hk Hu Hs. unfold moves.
  destruct (au_delete c r ns n (Some u) w _ eq_refl) as [G [E|(before & E & Hb)]]; [by apply quiet_honest|].
  eapply wrote_honest; [done|done|]. intros _. exists seen.
  repeat split; [by eapply known_grows|done|]. right. exists u. eauto.
Qed.

(** A read that found the object *)
Lemma found_known r n w v w' :
  none_if_missing (@get_object W api r ns n) w = (Ret (Some v), w') → known w' c r ns n v.
Proof.
  unfold none_if_missing. intros E. apply except_ret_inv in E as [E|(e & k & s1 & _ & Hh & E)].
  - apply bind_ret_inv in E as (a & s1 & E & E2). apply mret_inv in E2 as [? ->]. simplify_eq.
    apply au_get in E as [_ Hk]. by apply Hk.
  - repeat case_match; simplify_eq.
Qed.

Lemma read_honest r n w : moves honest (none_if_missing (@get_object W api r ns n)) w.
Proof. unfold none_if_missing. moves. apply get_honest. Qed.

#[local] Hint Resolve get_honest create_honest read_honest : moves.

Lemma unclaimed_intro seen owner :
  run ≠ EmptyString → owner_of seen = Ret owner → foreign (Some run) owner = None → unclaimed seen.
Proof.
  intros Hr Ho Hf. exists owner. split; [done|]. by destruct run.
Qed.

(** The lock of what was read *)
Lemma locked_lock seen meta rest lock rv :
  metadata_of seen = Ret meta → version_of seen = Ret (JStr rv) → rv ≠ EmptyString →
  locked meta rest = Ret lock → lock = dset "resourceVersion" (JStr rv) rest.
Proof.
  unfold version_of, locked. intros -> Hv Hrv. cbn in Hv. rewrite Hv. cbn.
  apply String.eqb_neq in Hrv. rewrite Hrv. by intros [= <-].
Qed.

Lemma with_version_lock seen meta m rv :
  version_of seen = Ret (JStr rv) → rv ≠ EmptyString → with_version m seen = Ret meta →
  meta = dset "resourceVersion" (JStr rv) m.
Proof.
  unfold version_of, with_version. destruct (metadata_of seen) as [mt| |]; cbn; [|done|done].
  intros -> Hrv. cbn. destruct rv; [done|]. cbn. by intros [= <-].
Qed.

(** The patch carries the version that was read. *)
Ltac lock seen :=
  match goal with
  | E : locked _ _ = Ret _ |- _ => by eapply (locked_lock seen) in E as ->
  | E : with_version _ _ = Ret _ |- _ => by eapply (with_version_lock seen) in E as ->
  end.

Lemma try_create_honest r body w : moves honest (@try_create W api rs r body) w.
Proof. unfold try_create. moves. Qed.

#[local] Hint Resolve try_create_honest : moves.

Lemma reconcile_rounds_honest k n t replicas w :
  run ≠ EmptyString → moves honest (@reconcile_rounds W api rs k n t replicas (Some run)) w.
Proof.
  intros Hr. revert w. induction k as [|k IH]; intros w; cbn [reconcile_rounds]; [moves|].
  apply moves_bind; [apply _|apply read_honest|]. intros [seen|] w1 E; moves.
  apply found_known in E as Hk. pose proof Hk as (d & u & rv & ? & ? & ? & ? & Hrv & Hv & _).
  unfold try_patch; moves. eapply patch_honest; [done|by eapply unclaimed_intro|done|].
  lock seen.
Qed.

Lemma create_warmpool_honest n t replicas reconcile owner annotations w :
  run ≠ EmptyString → (reconcile = true → owner = Some run) →
  moves honest (@create_warmpool W api (api_of c) rs n t replicas false reconcile owner annotations) w.
Proof.
  intros Hr Ho. unfold create_warmpool. moves. destruct reconcile; [|done].
  rewrite Ho by done. by apply reconcile_rounds_honest.
Qed.

Lemma shared_rounds_honest k n t replicas w :
  moves honest (@shared_rounds W api rs k n t replicas run) w.
Proof.
  revert w. induction k as [|k IH]; intros w; cbn [shared_rounds]; [moves|].
  apply moves_bind; [apply _|apply read_honest|]. intros [seen|] w1 E; moves.
  apply found_known in E as Hk. pose proof Hk as (d & u & rv & ? & ? & ? & ? & Hrv & Hv & _).
  unfold try_patch; moves. eapply patch_honest; [done|by eexists|done|]. lock seen.
Qed.

Lemma warm_shared_pool_honest n t replicas w :
  moves honest (@warm_shared_pool W api rs n t replicas run) w.
Proof. unfold warm_shared_pool. moves. apply shared_rounds_honest. Qed.

(** *** Templates *)

Lemma patch_template_honest n body w seen rv :
  known w c TEMPLATES ns n seen → unclaimed seen → version_of seen = Ret (JStr rv) → lock_of body = Some rv →
  moves honest (@patch_template W api rs n body) w.
Proof. intros. unfold patch_template. moves. by eapply patch_honest. Qed.

Lemma patch_template_result n body w v w' run' :
  @patch_template W api rs n body w = (Ret (Some (Some v)), w') → run_label_of body = Some run' →
  known w' c TEMPLATES ns n v ∧ owner_of v = Ret run'.
Proof.
  unfold patch_template. intros E Hl. apply except_ret_inv in E as [E|(e & k & s1 & _ & Hh & E)].
  - apply bind_ret_inv in E as (o & s1 & E & E2). apply mret_inv in E2 as [? ->].
    apply au_patch in E as (_ & Hr & _). destruct (Hr o eq_refl) as [Hk Ho]. case_match; simplify_eq. eauto.
  - repeat case_match; simplify_eq.
Qed.

Context (Hrun : run ≠ EmptyString) (Hstamp : dget RUN_ID_LABEL (rs_labels rs) = Some run).

Lemma reconcile_labels_honest n seen w :
  known w c TEMPLATES ns n seen → unclaimed seen → moves honest (@reconcile_template_labels W api rs n seen) w.
Proof.
  intros Hk Hu. pose proof Hk as (d & u & rv & ? & ? & ? & ? & Hrv & Hv & _).
  unfold reconcile_template_labels. moves.
  eapply patch_template_honest; [done|done|done|]. lock seen.
Qed.

Lemma reconcile_labels_result n seen w v w' :
  known w c TEMPLATES ns n seen →
  @reconcile_template_labels W api rs n seen w = (Ret (Some (Some v)), w') →
  known w' c TEMPLATES ns n v ∧ unclaimed v.
Proof.
  intros (d & u & rv & ? & ? & ? & ? & Hrv & Hv & _) E. unfold reconcile_template_labels in E. run_inv.
  destruct (negb a6); [by apply mret_inv in E as [? _]|]. run_inv.
  apply (with_version_lock _ _ _ rv) in Hrun8 as ->; [|done|done].
  eapply (patch_template_result _ _ _ _ _ (JStr run)) in E as [Hk Ho].
  - split; [done|]. exists (JStr run). split; [done|]. cbn. by rewrite String.eqb_refl, orb_true_r.
  - change (dget RUN_ID_LABEL ((λ kv, (kv.1, JStr kv.2)) <$> rs_labels rs) = Some (JStr run)).
    by rewrite dget_fmap, Hstamp.
Qed.

Lemma reconcile_network_policy_honest n seen t w :
  known w c TEMPLATES ns n seen → unclaimed seen →
  moves honest (@reconcile_template_network_policy W api rs n seen t) w.
Proof.
  intros Hk Hu. pose proof Hk as (d & u & rv & ? & ? & ? & ? & Hrv & Hv & _).
  unfold reconcile_template_network_policy. moves.
  eapply patch_template_honest; [done|done|done|]. lock seen.
Qed.

#[local] Hint Resolve reconcile_labels_honest : moves.

Lemma template_attempt_honest n t share w :
  moves honest (@template_attempt W api rs n t false (Some run) share) w.
Proof.
  unfold template_attempt. apply moves_bind; [apply _|apply read_honest|]. intros [seen|] w1 E; [|moves].
  apply found_known in E as Hk. apply moves_lift_bind; [apply _|]. intros owner Ho.
  destruct (foreign (Some run) owner) eqn:Hf; [moves|].
  assert (unclaimed seen) as Hu by by eapply unclaimed_intro.
  apply moves_bind; [apply _|by apply reconcile_labels_honest|]. intros [u|] w2 E2; [|moves].
  assert (grows w1 w2) as G by (pose proof (reconcile_labels_honest _ _ _ Hk Hu) as [G _]; by rewrite E2 in G).
  moves. destruct u as [o|].
  - apply reconcile_labels_result in E2 as [Ho2 Hu2]; [|done].
    pose proof Ho2 as (d & ? & ? & -> & ? & _). destruct d; [done|]. by apply reconcile_network_policy_honest.
  - apply reconcile_network_policy_honest; [by eapply known_grows|done].
Qed.

Lemma create_template_honest image n t share w :
  moves honest (@create_template W api (api_of c) rs image n t false (Some run) share) w.
Proof. unfold create_template. moves. Qed.
#[local] Hint Resolve template_attempt_honest create_template_honest : moves.

Lemma ensure_template_honest image n t share w :
  moves honest (@ensure_template W api (api_of c) rs image n t false (Some run) share) w.
Proof. unfold ensure_template. moves. Qed.
End resources.
