(* ===== verification/RlSim.v ===== *)
(** A simulated cluster for the fleet: API servers that keep every version of every
    object, and an SDK whose claims always succeed.

    The log of an API server holds what was put and what was deleted; the version of
    an object is its place in the log. The laws of [RlOwnership] hold of it. *)

From Stdlib Require Import Ascii String ZArith QArith Lia.
From stdpp Require Import base option list strings sets pretty.
From S2P Require Import Prelude Hoare Float Json PyList PyText IpAddress Models Utils World K8sHelper DateTime Budget Snapshots RlResources RlConfig RlHandles RlFleet RlOwnership.

#[local] Open Scope Z_scope.

Record key := Key { k_cluster : string; k_res : resource; k_ns : string; k_name : string }.
#[global] Instance key_eq_dec : EqDecision key.
Proof. solve_decision. Defined.

Inductive event :=
  | Put (k : key) (uid : nat) (owner : option json) (spec : json)
  | Gone (k : key).

Record sim := Sim {
  sim_log : list event;
  sim_writes : list write;
  (** sandboxes cannot be terminated *)
  sim_stuck : bool;
  sim_ids : nat;
}.

Definition put (ev : event) (x : write) (w : sim) : sim :=
  Sim (sim_log w ++ [ev]) (sim_writes w ++ [x]) (sim_stuck w) (sim_ids w).

Definition rv_of (i : nat) : string := "v" +:+ pretty i.

(** The object at place [i] of the log *)
Definition render (k : key) (i uid : nat) (owner : option json) (spec : json) : json :=
  JObj [("metadata", JObj [("name", JStr (k_name k)); ("uid", JStr ("u" +:+ pretty uid));
                           ("resourceVersion", JStr (rv_of i));
                           ("labels", JObj (match owner with Some o => [(RUN_ID_LABEL, o)] | None => [] end))]);
        ("spec", spec);
        ("status", JObj [("readyReplicas", match spec with JObj d => default (JInt 0) (dget "replicas" d) | _ => JInt 0 end)])].

Record entry := Live { en_at : nat; en_uid : nat; en_owner : option json; en_spec : json }.
Definition show (k : key) (e : entry) : json := render k (en_at e) (en_uid e) (en_owner e) (en_spec e).

Fixpoint current_from (k : key) (i : nat) (acc : option entry) (log : list event) : option entry :=
  match log with
  | [] => acc
  | Put k' u o s :: log' => current_from k (S i) (if decide (k = k') then Some (Live i u o s) else acc) log'
  | Gone k' :: log' => current_from k (S i) (if decide (k = k') then None else acc) log'
  end.
Definition current (k : key) (w : sim) : option entry := current_from k 0 None (sim_log w).

Fixpoint find_version (k : key) (rv : string) (i : nat) (log : list event) : option json :=
  match log with
  | [] => None
  | Put k' u o s :: log' => if decide (k' = k ∧ rv_of i = rv) then Some (render k i u o s)
                            else find_version k rv (S i) log'
  | Gone _ :: log' => find_version k rv (S i) log'
  end.

#[global] Instance sim_audit : Audit sim := {|
  writes := sim_writes;
  version := λ w c r ns n rv, find_version (Key c r ns n) rv 0 (sim_log w);
|}.

(** ** The API server *)

Definition json_field (v : json) (f : string) : json :=
  match v with JObj d => default JNull (dget f d) | _ => JNull end.
Definition body_name (body : json) : string :=
  match json_field (json_field body "metadata") "name" with JStr n => n | _ => EmptyString end.
Definition uid_text (e : entry) : string := "u" +:+ pretty (en_uid e).

Definition sim_get (k : key) : M sim json := λ w,
  match current k w with Some e => (Ret (show k e), w) | None => (Raise (ApiException 404), w) end.

Definition sim_create (c : string) (r : resource) (ns : string) (body : json) : M sim json := λ w,
  let k := Key c r ns (body_name body) in
  match current k w with
  | Some _ => (Raise (ApiException 409), w)
  | None => (Ret body, put (Put k (length (sim_log w)) (run_label_of body) (json_field body "spec"))
                         (Write c r ns (k_name k) None) w)
  end.

Definition sim_patch (k : key) (body : json) : M sim json := λ w,
  match current k w with
  | None => (Raise (ApiException 404), w)
  | Some e =>
      if match lock_of body with Some rv => negb (rv =? rv_of (en_at e))%string | None => false end
      then (Raise (ApiException 409), w)
      else
        let owner := match run_label_of body with Some o => Some o | None => en_owner e end in
        let spec := deep_merge (en_spec e) (json_field body "spec") in
        (Ret (render k (length (sim_log w)) (en_uid e) owner spec),
         put (Put k (en_uid e) owner spec)
           (Write (k_cluster k) (k_res k) (k_ns k) (k_name k) (Some (show k e))) w)
  end.

Definition sim_delete (k : key) (uid : option string) : M sim json := λ w,
  match current k w with
  | None => (Raise (ApiException 404), w)
  | Some e =>
      if match uid with Some u => negb (u =? uid_text e)%string | None => false end
      then (Raise (ApiException 409), w)
      else (Ret JNull, put (Gone k) (Write (k_cluster k) (k_res k) (k_ns k) (k_name k) (Some (show k e))) w)
  end.

(** The names in the log *)
Definition event_key (ev : event) : key := match ev with Put k _ _ _ => k | Gone k => k end.
Definition selected (sel : option string) (e : entry) : bool :=
  match sel, en_owner e with
  | None, _ => true
  | Some s, Some (JStr o) => (s =? RUN_ID_LABEL +:+ "=" +:+ o)%string
  | Some _, _ => false
  end.
Definition sim_list (c : string) (r : resource) (ns : string) (sel : option string) : M sim json := λ w,
  let ks := filter (λ k, k_cluster k = c ∧ k_res k = r ∧ k_ns k = ns) (remove_dups (event_key <$> sim_log w)) in
  (Ret (JObj [("items", JList (omap (λ k, match current k w with
                                          | Some e => if selected sel e then Some (show k e) else None
                                          | None => None
                                          end) ks))]), w).

Definition sim_k8s (c : string) : K8sApi sim := {|
  create_object := sim_create c;
  get_object := λ r ns n, sim_get (Key c r ns n);
  delete_object := λ r ns n uid, sim_delete (Key c r ns n) uid;
  patch_object := λ r ns n body, sim_patch (Key c r ns n) body;
  list_objects := sim_list c;
  watch_stream := λ _ w, SEnd w;
|}.

Definition sim_api (c : string) : ClusterApi sim := {|
  dry_run_object := λ _ _ body, mret body;
  list_pods := λ _ _ _ _, mret (PodPage 0 None None);
  create_ns := λ _ _, mret ();
  read_ns_phase := λ _, mret (Some "Active");
  delete_ns := λ _, mret ();
|}.

Definition sim_uuid : M sim string := λ w,
  (Ret ("00000000-000" +:+ pretty (sim_ids w)), Sim (sim_log w) (sim_writes w) (sim_stuck w) (S (sim_ids w))).

#[global] Instance sim_clusters : Clusters sim := {|
  k8s_of := sim_k8s;
  api_of := sim_api;
  namespace_setup := λ _ _, mret ();
  new_uuid := sim_uuid;
  watchdog_start := λ _ _, mret ();
  watchdog_stop := λ _, mret None;
  watchdog_deleted_claim := λ _, mret false;
|}.

#[global] Instance sim_clock : Clock sim := {|
  monotonic := λ w, (0, w);
  sleep := λ _ w, w;
  utcnow_us := λ w, (0, w);
  utcnow_isoformat := λ w, ("", w);
|}.

Definition answer : snap_answer := SnapAnswer true None false.
#[global] Instance sim_sdk : Sdk sim := {|
  sdk_create_sandbox := λ c q, mret (Sandbox 0 (cq_claim_name q) (cq_claim_name q));
  sdk_terminate := λ _ w, (if sim_stuck w then Raise RuntimeError else Ret (), w);
  sdk_pod_name := λ sb, mret (Some (sb_id sb));
  sdk_pod_ip := λ _, mret None;
  sdk_forget := λ _ _ _, mret ();
  sdk_snapshots := λ _, true;
  sdk_engine := λ _, mret true;
  sdk_snapshot := λ _ _ _, mret answer;
  sdk_list_snapshots := λ _, mret (true, []);
  sdk_delete_snapshot := λ _ _ _, mret answer;
  sdk_delete_snapshots := λ _ _, mret answer;
  sdk_suspend := λ _ _ _, mret answer;
  sdk_resume := λ _ _, mret answer;
  sdk_restore := λ _ _ _, mret answer;
  sdk_is_suspended := λ _, mret false;
|}.

#[global] Instance sim_exec : PodExec sim := {|
  open_stream := λ _ _ _ _, mret 0%nat;
  stream_is_open := λ _, mret true;
  stream_update := λ _ _, mret ();
  write_stdin := λ _ _, mret ();
  peek_stdout := λ _, mret false;
  read_stdout := λ _, mret "";
  peek_stderr := λ _, mret false;
  read_stderr := λ _, mret "";
  close_stream := λ _, mret ();
  exec_once := λ _ _ _ _ _, mret None;
  pod_status := λ _ _ _, mret (JObj []);
  pod_conditions := λ _ _ _, mret [];
|}.

(** ** The laws *)

Lemma rv_of_inj i j : rv_of i = rv_of j → i = j.
Proof. unfold rv_of. intros E. by apply (inj (String.app "v")) in E; apply (inj pretty) in E. Qed.

Lemma current_from_at k i acc log e :
  current_from k i acc log = Some e →
  acc = Some e ∨ ∃ j, log !! j = Some (Put k (en_uid e) (en_owner e) (en_spec e)) ∧ en_at e = (i + j)%nat.
Proof.
  revert i acc. induction log as [|[k' u o s|k'] log IH]; intros i acc E; cbn in E; [by left| |];
    apply IH in E as [E|(j & Hj & Ha)]; try (right; exists (S j); cbn; split; [done|lia]);
    case_decide; simplify_eq; try by left.
  right. exists 0%nat. cbn. split; [done|lia].
Qed.

Lemma find_version_app k rv i log log' v :
  find_version k rv i log = Some v → find_version k rv i (log ++ log') = Some v.
Proof.
  revert i. induction log as [|[k' u o s|k'] log IH]; intros i E; cbn in *; [done| |by apply IH].
  case_decide; [done|]. by apply IH.
Qed.

Lemma find_version_at k u o s i j log :
  log !! j = Some (Put k u o s) → find_version k (rv_of (i + j)) i log = Some (render k (i + j) u o s).
Proof.
  revert i j. induction log as [|ev log IH]; intros i j E; [done|].
  destruct j as [|j]; cbn in E.
  - simplify_eq. rewrite Nat.add_0_r. cbn. by rewrite decide_True.
  - rewrite <-Nat.add_succ_comm. cbn [find_version]. destruct ev; [|by apply IH].
    rewrite decide_False; [by apply IH|]. intros [_ Hrv]. apply rv_of_inj in Hrv. lia.
Qed.

Lemma current_version k w e :
  current k w = Some e → find_version k (rv_of (en_at e)) 0 (sim_log w) = Some (show k e).
Proof.
  intros E. apply current_from_at in E as [|(j & Hj & Ha)]; [done|]. unfold show. rewrite Ha.
  by apply (find_version_at k _ _ _ 0 j).
Qed.

Lemma put_grows ev x w : grows w (put ev x w).
Proof. intros c r ns n rv v. apply find_version_app. Qed.

Lemma render_known w k i u o s :
  find_version k (rv_of i) 0 (sim_log w) = Some (render k i u o s) →
  known w (k_cluster k) (k_res k) (k_ns k) (k_name k) (render k i u o s).
Proof.
  intros E. destruct k as [c r ns n].
  eexists _, ("u" +:+ pretty u), (rv_of i). split; [done|]. split; [done|]. split; [done|].
  split; [|done]. destruct o; by eexists.
Qed.

Lemma owner_of_render k i u o s : owner_of (render k i u o s) = Ret (default JNull o).
Proof. by destruct o. Qed.

Lemma sim_patch_law k body w o w' :
  sim_patch k body w = (o, w') →
  grows w w' ∧
  (∀ v, o = Ret v → known w' (k_cluster k) (k_res k) (k_ns k) (k_name k) v ∧
     ∀ run, run_label_of body = Some run → owner_of v = Ret run) ∧
  (writes w' = writes w ∨ ∃ before,
     writes w' = writes w ++ [Write (k_cluster k) (k_res k) (k_ns k) (k_name k) (Some before)] ∧
     ∀ rv, lock_of body = Some rv → version w' (k_cluster k) (k_res k) (k_ns k) (k_name k) rv = Some before).
Proof.
  unfold sim_patch. destruct (current k w) as [e|] eqn:Ec; [|intros [= <- <-]; split_and!; [done|done|by left]].
  destruct (match lock_of body with Some rv => _ | None => _ end) eqn:El;
    [intros [= <- <-]; split_and!; [done|done|by left]|].
  intros [= <- <-]. split_and!.
  - apply put_grows.
  - intros v [= <-]. split.
    + apply render_known. apply (find_version_at k _ _ _ 0 (length (sim_log w))). cbn.
      by rewrite lookup_app_r, Nat.sub_diag.
    + intros run Hl. rewrite Hl. by rewrite owner_of_render.
  - right. exists (show k e). split; [done|]. intros rv Hl. rewrite Hl in El. apply negb_false_iff, String.eqb_eq in El.
    subst rv. destruct k as [c r ns n]. apply find_version_app. by apply current_version.
Qed.

Lemma sim_delete_law k uid w :
  let w' := (sim_delete k uid w).2 in
  grows w w' ∧ (writes w' = writes w ∨ ∃ before,
    writes w' = writes w ++ [Write (k_cluster k) (k_res k) (k_ns k) (k_name k) (Some before)] ∧
    ∀ u, uid = Some u → uid_of before = Ret (Some u)).
Proof.
  unfold sim_delete. destruct (current k w) as [e|]; [|split; [done|by left]].
  destruct (match uid with Some u => _ | None => _ end) eqn:Eu; [split; [done|by left]|].
  split; [apply put_grows|]. right. exists (show k e). split; [done|]. intros u ->.
  by apply negb_false_iff, String.eqb_eq in Eu as ->.
Qed.

#[global] Instance sim_laws : AuditLaws sim.
Proof.
  split; try done; try (by intros; split).
  - intros c r ns n w o w'. cbn. unfold sim_get. destruct (current _ w) as [e|] eqn:E; intros [= <- <-].
    + split; [done|]. intros v [= <-]. apply (render_known w (Key c r ns n)). by apply current_version.
    + done.
  - intros c r ns body w w' <-. cbn. unfold sim_create. destruct (current _ w); [split; [done|by left]|].
    split; [apply put_grows|]. right. by eexists.
  - intros c r ns n body w o w' E. by apply (sim_patch_law (Key c r ns n)) in E.
  - intros c r ns n uid w w' <-. apply (sim_delete_law (Key c r ns n)).
  - intros w. split; [done|]. by intros c r ns n rv v.
Qed.

(** ** A configuration and its fleet *)

Definition sim_spec : TemplateSpec :=
  TemplSpec (ResSpec "250m" "512Mi" None None) ["sleep"; "infinity"] None None None "IfNotPresent" false [] None
    false false [].

Definition sim_config (adopt : bool) (cap : option Z) (run_id : option string) : FleetConfig :=
  FleetConf [ClusterConf "east" "default" None None None (PFin 1) None] "least-loaded" 8 4 false None 60 None false
    0 (PFin 0) cap 1 sim_spec "asrl-" "{template}-pool" adopt "none" run_id [] false [] None None (PFin 0) None.

Definition no_special (l : list ascii) : outcome (list ascii) := Raise ValueError.

Definition empty_sim : sim := Sim [] [] false 0.

Definition new_sim_fleet (adopt : bool) (cap : option Z) (run_id : option string) (w : sim) : option (fleet * sim) :=
  match new_fleet no_special (sim_config adopt cap run_id) None w with
  | (Ret f, w') => Some (f, w')
  | _ => None
  end.

Definition sim_fsum (l : list pyfloat) : pyfloat := PFin 1.
Definition sim_tasks : list task := [Task "t1" "img:a" []; Task "t2" "img:b" []].

(** A cluster where someone has a pool for each image *)
Definition sim_template (image : string) : json :=
  JObj [("podTemplate", JObj [("spec", JObj [("containers",
    JList [JObj [("name", JStr "runtime"); ("image", JStr image)]])])])].
Definition sim_pool (template : string) (replicas : Z) : json :=
  JObj [("replicas", JInt replicas); ("sandboxTemplateRef", JObj [("name", JStr template)])].
Definition pooled_sim : sim :=
  Sim [Put (Key "east" TEMPLATES "default" "tmpl-a") 0 None (sim_template "img:a");
       Put (Key "east" TEMPLATES "default" "tmpl-b") 1 None (sim_template "img:b");
       Put (Key "east" WARMPOOLS "default" "pool-a") 2 None (sim_pool "tmpl-a" 2);
       Put (Key "east" WARMPOOLS "default" "pool-b") 3 None (sim_pool "tmpl-b" 1)] [] false 0.
