(* ===== verification/RlFleetOwnership.v ===== *)
(** The fleet writes only objects that it inspected and that are not another run's,
    and an adopting fleet writes no pool and no template: the laws of [RlOwnership]
    carried through the operations of [RlFleet]. *)

From Stdlib Require Import Ascii String ZArith Lia.
From stdpp Require Import base option list strings sets.
From S2P Require Import Prelude Hoare Float Json PyList PyText IpAddress Models Utils World K8sHelper ObjectStore DateTime Budget BudgetProofs Snapshots RlResources RlConfig RlHandles RlFleet RlOwnership RlSim.

#[local] Open Scope Z_scope.

(** ** Code that writes nothing the laws watch *)

Section reads.
Context {W : Type} `{Clock W} `{Sdk W} `{PodExec W} `{Clusters W} `{Audit W} `{!AuditLaws W}.
Context (c : string) (rs : resources).
Abbreviation api := (k8s_of c).

Lemma get_quiet r ns n w : moves quiet (@get_object W api r ns n) w.
Proof. unfold moves. destruct (get_object _ _ _ _) eqn:E. by apply au_get in E as [? _]. Qed.
Lemma read_clock_quiet w : moves quiet read_clock w.
Proof. unfold moves, read_clock. pose proof (au_monotonic w). by destruct (monotonic w). Qed.
Lemma do_sleep_quiet d w : moves quiet (do_sleep d) w.
Proof. apply au_sleep. Qed.

#[local] Hint Resolve get_quiet read_clock_quiet do_sleep_quiet au_list au_list_pods au_create_ns au_read_ns
  au_delete_ns : moves.

Lemma read_quiet r ns n w : moves quiet (none_if_missing (@get_object W api r ns n)) w.
Proof. unfold none_if_missing. moves. Qed.

Lemma consume_quiet {St R} (on_event : St → json → outcome (St * option R)) st s w :
  stream_quiet w s → quiet w (consume on_event st s).2.2.
Proof.
  revert st. induction s as [w'|e w'|w'|ev w' rest IH]; intros st Hs; cbn in *; [done..|].
  destruct Hs as [Hw Hr]. destruct (on_event st ev) as [[st' [r|]]|e|]; cbn; auto.
Qed.

Lemma recheck_quiet n expected poll w : moves quiet (@recheck W _ api rs n expected poll) w.
Proof. unfold recheck, pool_ready_or_gone, pool_ready_replicas. moves. Qed.

Lemma watch_pool_quiet fuel n expected deadline poll w :
  moves quiet (@watch_pool W _ api rs fuel n expected deadline poll) w.
Proof.
  revert w. induction fuel as [|fuel IH]; intros w; cbn [watch_pool]; moves.
  unfold moves. set (req := WatchReq _ _ _ _ _).
  match goal with |- quiet ?w0 _ =>
    pose proof (consume_quiet (pool_event n expected) () _ _ (au_watch c req w0)) as Hc end.
  destruct (consume _ _ _) as [[r|e|] [[] w']]; cbn in *; [done| |done].
  destruct e; repeat case_match; (done || (etrans; [exact Hc|apply recheck_quiet])).
Qed.

Lemma wait_for_pool_ready_quiet fuel n expected timeout w :
  moves quiet (@wait_for_pool_ready W _ api rs fuel n expected timeout) w.
Proof.
  unfold wait_for_pool_ready, pool_ready_replicas_safe, pool_ready_replicas. moves. apply watch_pool_quiet.
Qed.

Lemma list_of_quiet r sel w : moves quiet (@list_of W api rs r sel) w.
Proof. unfold list_of. moves. Qed.
#[local] Hint Resolve list_of_quiet : moves.

Lemma list_names_quiet r sel w : moves quiet (@list_names W api rs r sel) w.
Proof. unfold list_names. moves. Qed.

Lemma discover_pools_quiet sel w : moves quiet (@discover_pools W api rs sel) w.
Proof. unfold discover_pools, template_runtimes. moves. Qed.

Lemma ensure_namespace_quiet ns labels w : moves quiet (@ensure_namespace W (api_of c) ns labels) w.
Proof. unfold ensure_namespace. moves. Qed.

Lemma delete_namespace_quiet ns w : moves quiet (@delete_namespace W (api_of c) ns) w.
Proof. unfold delete_namespace. moves. Qed.

(** *** Handles *)

#[local] Hint Resolve au_write_stdin au_close_stream au_pod_status au_pod_conditions au_terminate au_pod_name
  au_pod_ip au_forget au_engine au_delete_snapshot au_snapshot au_suspend au_resume au_restore : moves.

Abbreviation hquiet := (on_world (X := handle) quiet).

Lemma close_session_quiet s : moves hquiet close_session s.
Proof. unfold close_session, session_close. moves. Qed.
Lemma record_pod_identity_quiet s : moves hquiet record_pod_identity s.
Proof. unfold record_pod_identity. moves. Qed.
#[local] Hint Resolve close_session_quiet record_pod_identity_quiet : moves.

Lemma pod_name_rounds_quiet k n sb w : moves quiet (pod_name_rounds k n sb) w.
Proof. revert k w. induction n as [|n IH]; intros k w; cbn [pod_name_rounds]; moves. Qed.
#[local] Hint Resolve pod_name_rounds_quiet : moves.

Lemma refresh_quiet s : moves hquiet refresh s.
Proof. unfold refresh. moves. Qed.
#[local] Hint Resolve refresh_quiet : moves.

Lemma release_quiet s : moves hquiet RlHandles.release s.
Proof. unfold RlHandles.release. moves. Qed.
Lemma snapshot_engine_quiet s : moves hquiet snapshot_engine s.
Proof. unfold snapshot_engine, snapshot_sandbox. moves. Qed.
#[local] Hint Resolve snapshot_engine_quiet : moves.
Lemma suspend_quiet take timeout s : moves hquiet (suspend take timeout) s.
Proof. unfold suspend, snapshot_sandbox. moves. Qed.
Lemma snapshot_quiet name timeout s : moves hquiet (snapshot name timeout) s.
Proof. unfold snapshot. moves. Qed.
Lemma resume_quiet timeout s : moves hquiet (resume timeout) s.
Proof. unfold resume, snapshot_sandbox. moves. Qed.
Lemma restore_quiet uid timeout s : moves hquiet (restore uid timeout) s.
Proof. unfold restore, snapshot_sandbox. moves. Qed.
Lemma pod_restore_status_quiet n ns p w : moves quiet (pod_restore_status n ns p) w.
Proof. unfold pod_restore_status. moves. Qed.
End reads.

(** ** Fleets *)

Lemma fmap_dset {A B} (f : A → B) k a a' (d : list (string * A)) :
  dget k d = Some a → f a' = f a → f <$> (dset k a' d).*2 = f <$> d.*2.
Proof.
  intros Hd Hf. induction d as [|[k' b] d IH]; [done|]. cbn in *. case_decide; simplify_eq; cbn; [by rewrite Hf|].
  f_equal. auto.
Qed.

Lemma dget_value {A} k a (d : list (string * A)) : dget k d = Some a → a ∈ d.*2.
Proof.
  induction d as [|[k' b] d IH]; [done|]. cbn. case_decide; intros; simplify_eq; [constructor|].
  constructor. auto.
Qed.

(** What no operation changes: the configuration, the run and where the clusters'
    objects are *)
Definition fixed (f : fleet) : FleetConfig * string * list resources :=
  (f_config f, f_run_id f, cl_resources <$> (f_registry f).*2).

Section fleet.
Context {W : Type} `{Clock W} `{Sdk W} `{PodExec W} `{Clusters W} `{Audit W} `{!AuditLaws W}.
Context (J : FleetConfig * string * list resources → Prop) (ok : W → write → Prop) `{!Allowed ok}.

Definition fleet_step : relation (fleet * W) := λ s s',
  J (fixed s.1) → fixed s'.1 = fixed s.1 ∧ honest ok s.2 s'.2.

#[global] Instance fleet_step_preorder : PreOrder fleet_step.
Proof.
  split; [by intros s|]. intros s1 s2 s3 S1 S2 HJ. destruct (S1 HJ) as [E1 G1].
  destruct S2 as [E2 G2]; [by rewrite E1|]. split; [congruence|by etrans].
Qed.

(** What holds of the fleet may be used. *)
Lemma step_know {A} (m : M (fleet * W) A) s : (J (fixed s.1) → moves fleet_step m s) → moves fleet_step m s.
Proof using Type. intros Hm HJ. by apply Hm. Qed.
Lemma step_world {A} (m : M W A) s : moves (honest ok) m s.2 → moves fleet_step (world m) s.
Proof using Type. intros Hm _. destruct s as [f w]. unfold moves, world in *. cbn in *. by destruct (m w). Qed.
Lemma step_quiet {A} (m : M W A) s : moves quiet m s.2 → moves fleet_step (world m) s.
Proof using Type. intros. by apply step_world, quiet_moves. Qed.
Lemma step_set_self g s : (∀ f, fixed (g f) = fixed f) → moves fleet_step (set_self g) s.
Proof. intros Hg _. destruct s as [f w]. by split; [apply Hg|]. Qed.
Lemma step_on_cluster n g s : (∀ c, cl_resources (g c) = cl_resources c) → moves fleet_step (on_cluster n g) s.
Proof.
  intros Hg. apply step_set_self. intros f. destruct (dget n (f_registry f)) as [c|] eqn:E; [|done].
  unfold fixed. cbn. by erewrite fmap_dset.
Qed.
Lemma step_section {A} (g : fleet → outcome (A * fleet)) s :
  (∀ f a f', g f = Ret (a, f') → fixed f' = fixed f) → moves fleet_step (section g) s.
Proof.
  intros Hg _. unfold section. destruct (g s.1) as [[a f']| |] eqn:E; cbn; [|done|done].
  split; [by eapply Hg|done].
Qed.
Lemma fixed_update_handle id g f : fixed (update_handle id g f) = fixed f.
Proof. unfold update_handle. by case_match. Qed.
Lemma step_on_handle {A} id (m : M (handle * W) A) s :
  (∀ h, moves (on_world quiet) m (h, s.2)) → moves fleet_step (on_handle id m) s.
Proof.
  intros Hm _. unfold on_handle. destruct (f_heap s.1 !! id) as [h|]; [|done]. specialize (Hm h).
  unfold moves, on_world in Hm. destruct (m (h, s.2)) as [r [h' w']]. cbn in *.
  split; [apply fixed_update_handle|by apply quiet_honest].
Qed.
Lemma step_attempt {A} (m : M (fleet * W) A) s : moves fleet_step m s → moves fleet_step (attempt m) s.
Proof. intros. unfold attempt. moves. Qed.
Lemma step_logged {A} (d : A) (m : M (fleet * W) A) s : moves fleet_step m s → moves fleet_step (logged d m) s.
Proof. intros. unfold logged. moves. Qed.
Lemma step_the_cluster n s : moves fleet_step (the_cluster n) s.
Proof. unfold the_cluster. moves. Qed.

Lemma the_cluster_resources n (s : fleet * W) c s' :
  the_cluster n s = (Ret c, s') → s' = s ∧ cl_resources c ∈ (fixed s.1).2.
Proof.
  unfold the_cluster. intros E. run_inv. split; [done|]. unfold registry_get in *. case_match; simplify_eq.
  apply list_elem_of_fmap_2. by eapply dget_value.
Qed.
(** *** Operations that write no pools *)

#[local] Hint Resolve step_set_self step_on_cluster step_section step_quiet step_on_handle step_attempt step_logged
  step_the_cluster fixed_update_handle : moves.
#[local] Hint Resolve ensure_namespace_quiet delete_namespace_quiet au_setup_ns discover_pools_quiet
  wait_for_pool_ready_quiet list_names_quiet : moves.

Ltac fsteps := moves_with ltac:(fun _ => first [simple apply step_logged | simple apply step_attempt]; try apply _).

Context (fsum : list pyfloat → pyfloat) (special : list ascii → outcome (list ascii)).
Abbreviation steps := (moves fleet_step).

Lemma ensure_rounds_steps labels created cs s : steps (ensure_rounds labels created cs) s.
Proof.
  revert created s. induction cs as [|c cs IH]; intros created s; cbn [ensure_rounds]; [moves|].
  unfold r_ensure_namespace. fsteps.
Qed.
#[local] Hint Resolve ensure_rounds_steps : moves.

Lemma ensure_run_namespaces_steps s : steps ensure_run_namespaces s.
Proof. unfold ensure_run_namespaces, roll_back_namespace, r_delete_namespace. fsteps. Qed.
#[local] Hint Resolve ensure_run_namespaces_steps : moves.

Lemma place_images_steps counts s : steps (place_images counts) s.
Proof. revert s. induction counts as [|[image n] counts IH]; intros s; cbn [place_images]; fsteps. Qed.

Lemma discover_all_steps cs s : steps (discover_all cs) s.
Proof. revert s. induction cs as [|c cs IH]; intros s; cbn [discover_all]; unfold r_discover_pools; fsteps. Qed.
#[local] Hint Resolve place_images_steps discover_all_steps : moves.

Lemma plan_adopt_steps s : steps plan_adopt s.
Proof. unfold plan_adopt. fsteps. Qed.
#[local] Hint Resolve plan_adopt_steps : moves.

Lemma plan_steps s : steps (plan fsum special) s.
Proof. unfold plan. fsteps. Qed.
#[local] Hint Resolve plan_steps : moves.

Lemma the_plan_steps s : steps (the_plan fsum special) s.
Proof. unfold the_plan. fsteps. Qed.

Lemma place_batch_steps p totals counts s : steps (place_batch p totals counts) s.
Proof. revert totals s. induction counts as [|[image n] counts IH]; intros totals s; cbn [place_batch]; fsteps. Qed.
#[local] Hint Resolve place_batch_steps : moves.

Lemma add_tasks_steps source rewrite s : steps (add_tasks fsum special source rewrite) s.
Proof. unfold add_tasks, extend_plan. fsteps. Qed.

Lemma await_pool_steps fuel c pool expected s : steps (await_pool fuel c pool expected) s.
Proof. unfold await_pool, r_wait_for_pool_ready. fsteps. Qed.
#[local] Hint Resolve await_pool_steps : moves.

Lemma adopt_entry_steps fuel e wait s : steps (adopt_entry fuel e wait) s.
Proof. unfold adopt_entry. fsteps. Qed.

Lemma run_jobs_steps {A} (job : A → M (fleet * W) ()) err l s :
  (∀ a s, steps (job a) s) → steps (run_jobs job err l) s.
Proof. intros Hj. revert err s. induction l as [|a l IH]; intros err s; cbn [run_jobs]; fsteps. Qed.

#[local] Hint Resolve the_plan_steps : moves.
Lemma map_ready_steps g images s : (∀ i s, steps (g i) s) → steps (map_ready g images) s.
Proof. intros Hg. revert s. induction images as [|i images IH]; intros s; cbn [map_ready]; fsteps. Qed.
Lemma pool_ready_steps fuel p warmed limit replicas image s : steps (pool_ready fuel p warmed limit replicas image) s.
Proof. unfold pool_ready, r_wait_for_pool_ready. fsteps. Qed.
#[local] Hint Resolve map_ready_steps pool_ready_steps : moves.

Lemma wait_pools_ready_steps fuel images timeout replicas s :
  steps (wait_pools_ready fsum special fuel images timeout replicas) s.
Proof. unfold wait_pools_ready. fsteps. Qed.

(** *** Claims and handles *)

Context (Hclaim : ∀ w c ns n b, ok w (Write c CLAIM ns n b)).
#[local] Hint Resolve au_write_stdin au_close_stream au_pod_status au_pod_conditions au_terminate au_pod_name
  au_pod_ip au_forget au_engine au_delete_snapshot au_watchdog_start au_watchdog_stop au_watchdog_deleted
  au_create_sandbox au_uuid au_list get_quiet pod_restore_status_quiet : moves.

Lemma delete_claim_steps c n s : steps (r_delete_claim c n) s.
Proof.
  apply step_world. unfold delete_claim, delete_named. fsteps. unfold moves.
  destruct (au_delete (cl_name c) CLAIM (rs_namespace (cl_resources c)) n (str_or None None) s.2 _ eq_refl)
    as [G [E|(before & E & _)]]; [by apply quiet_honest|]. by eapply wrote_honest.
Qed.

Lemma claim_details_steps ff claim sb s : steps (claim_details ff claim sb) s.
Proof. unfold claim_details. fsteps. Qed.

Lemma identify_steps h s : steps (identify h) s.
Proof.
  intros _. unfold identify. pose proof (record_pod_identity_quiet (h, s.2)) as Hq. unfold moves, on_world in Hq.
  destruct (record_pod_identity _) as [r [h' w']]. cbn in *. split; [done|by apply quiet_honest].
Qed.

#[local] Hint Resolve release_quiet snapshot_engine_quiet snapshot_quiet suspend_quiet resume_quiet restore_quiet : moves.

Lemma release_steps id del s : steps (release id del) s.
Proof.
  unfold release, doomed_snapshots, snapshot_uids_by_label, settle_release, delete_one_snapshot. fsteps.
  intros _. destruct s as [f0 w]. unfold untrack_handle in *. by case_decide; simplify_eq.
Qed.

Lemma free_slot_steps id s : steps (section (λ f, Ret (free_slot id f))) s.
Proof.
  apply step_section. intros f a f' [= E]. unfold free_slot in E. repeat case_match; simplify_eq; [done| |done].
  apply fixed_update_handle.
Qed.
Lemma take_slot_fixed f f' : take_slot f = Ret f' → fixed f' = fixed f.
Proof. unfold take_slot. by case_match; intros; simplify_eq. Qed.
Lemma take_slot_steps s : steps (section (λ f, f' ← take_slot f; Ret (tt, f'))) s.
Proof. apply step_section. intros f a f' E. run_inv. simplify_eq. by apply take_slot_fixed. Qed.
Lemma retake_slot_steps id s : steps (section (retake_slot id)) s.
Proof.
  apply step_section. intros f a f' E. unfold retake_slot in E. repeat case_match; simplify_eq; [done| |done].
  run_inv. simplify_eq. rewrite fixed_update_handle. by apply take_slot_fixed.
Qed.
Lemma track_handle_steps h s : steps (section (λ f, Ret (track_handle h f))) s.
Proof. apply step_section. intros f a f' [= E]. unfold track_handle in E. by case_match; simplify_eq. Qed.
#[local] Hint Resolve free_slot_steps take_slot_steps retake_slot_steps track_handle_steps : moves.

Lemma give_back_steps id s : steps (give_back id) s.
Proof. unfold give_back. fsteps. Qed.
Lemma take_back_steps id s : steps (take_back id) s.
Proof. unfold take_back. fsteps. Qed.
#[local] Hint Resolve give_back_steps take_back_steps : moves.

Lemma fleet_suspend_steps id take timeout s : steps (fleet_suspend id take timeout) s.
Proof. unfold fleet_suspend. fsteps. Qed.
Lemma fleet_snapshot_steps id name timeout s : steps (fleet_snapshot id name timeout) s.
Proof. unfold fleet_snapshot. fsteps. Qed.
Lemma fleet_resume_steps id timeout s : steps (fleet_resume id timeout) s.
Proof. unfold fleet_resume, waking. fsteps. Qed.
Lemma fleet_restore_steps id uid timeout s : steps (fleet_restore id uid timeout) s.
Proof. unfold fleet_restore, waking. fsteps. Qed.

(** A claim steps if finding the target and dropping its pool do. *)

#[local] Hint Resolve claim_details_steps identify_steps delete_claim_steps : moves.

Abbreviation undoable t image := (tg_created t = true → ∀ s, steps (remove_ondemand t image) s).

Lemma undo_claim_steps ff t image claim sb x s : undoable t image → steps (undo_claim ff t image claim sb x) s.
Proof. intros Hu. unfold undo_claim. fsteps. Qed.
#[local] Hint Resolve undo_claim_steps : moves.

Lemma make_claim_steps ff t image claim annotations s :
  undoable t image → steps (make_claim ff t image claim annotations) s.
Proof. intros Hu. unfold make_claim. fsteps. Qed.
#[local] Hint Resolve make_claim_steps : moves.

Lemma acquire_steps image snapshot_uid annotations s :
  (∀ s, steps (find_target special image) s) →
  (∀ s t s', J (fixed s.1) → find_target special image s = (Ret t, s') → undoable t image) →
  steps (acquire special image snapshot_uid annotations) s.
Proof.
  intros Hf Hu. unfold acquire. moves. unfold acquire_reserved. apply step_know. intros HJ.
  apply moves_bind; [apply _|apply Hf|]. intros t s1 E. specialize (Hu _ _ _ HJ E). fsteps.
Qed.
End fleet.

#[export] Hint Resolve step_set_self step_on_cluster step_section step_quiet step_on_handle step_attempt step_logged
  step_the_cluster fixed_update_handle : moves.

(** ** Placement picks a cluster of the registry *)

Lemma eligible_in_registry reg l c : eligible reg = Ret l → c ∈ l → c ∈ reg.*2 ∧ has_capacity c 1.
Proof.
  unfold eligible. intros E Hc. case_match eqn:Ef; simplify_eq. rewrite <-Ef in Hc.
  by apply list_elem_of_filter in Hc as [? ?].
Qed.

Lemma least_loaded_elem reg c : least_loaded reg = Ret c → c ∈ reg.*2.
Proof. unfold least_loaded. intros E. run_inv. apply py_min_elem in E. by eapply eligible_in_registry. Qed.

Lemma round_robin_elem n elig reg c : round_robin n elig reg = Ret c → c ∈ reg.*2.
Proof.
  unfold round_robin. destruct (omap _ _) as [|c' l] eqn:E.
  - unfold PyList.py_index. case_match; intros; simplify_eq. by eapply list_elem_of_lookup_2.
  - intros [= <-]. assert (c' ∈ c' :: l) as Hc by constructor. rewrite <-E in Hc.
    apply list_elem_of_omap in Hc as (i & _ & Hi). repeat case_match; simplify_eq. by eapply list_elem_of_lookup_2.
Qed.

Lemma capacity_weighted_elem reg c : capacity_weighted reg = Ret c → c ∈ reg.*2.
Proof.
  unfold capacity_weighted. intros E. run_inv. simplify_eq. apply py_max_elem in Hret1.
  apply traverse_Forall2 in Hret0. apply list_elem_of_lookup in Hret1 as [i Hi].
  destruct (Forall2_lookup_r _ _ _ _ _ Hret0 Hi) as (c' & Hc & Hw). apply list_elem_of_lookup_2 in Hc.
  unfold weight_key in Hw. run_inv. simplify_eq/=. by eapply eligible_in_registry.
Qed.

Lemma image_affinity_elem image reg c : image_affinity image reg = Ret c → c ∈ reg.*2.
Proof.
  unfold image_affinity. intros E. run_inv. destruct (has_capacity _ _); [|by eapply least_loaded_elem].
  simplify_eq. unfold registry_get in *. case_match; simplify_eq. by eapply dget_value.
Qed.

Lemma select_elem p image reg c p' : select p image reg = (Ret c, p') → c ∈ reg.*2.
Proof.
  destruct p; cbn; intros E; repeat case_match; simplify_eq;
    eauto using round_robin_elem, least_loaded_elem, capacity_weighted_elem, image_affinity_elem.
Qed.

(** ** Ownership *)

Definition stamped (run : string) (rs : resources) : Prop := dget RUN_ID_LABEL (rs_labels rs) = Some run.

(** A fleet of the run, whose clusters label what they create with it *)
Definition of_run (run : string) (x : FleetConfig * string * list resources) : Prop :=
  x.1.2 = run ∧ run ≠ EmptyString ∧ Forall (stamped run) x.2.

Section own.
Context {W : Type} `{Clock W} `{Sdk W} `{PodExec W} `{Clusters W} `{Audit W} `{!AuditLaws W}.
Context (fsum : list pyfloat → pyfloat) (special : list ascii → outcome (list ascii)) (run : string).
Abbreviation steps := (moves (fleet_step (of_run run) (ours run))).
Ltac know := simple apply step_know; intros (Hid & Hrun & Hst); cbn in Hid.

Lemma own_template_steps c e s : stamped run (cl_resources c) → steps (own_template c e) s.
Proof.
  intros Hc. know. unfold own_template, r_ensure_template. apply moves_self_bind. rewrite Hid. moves.
  apply step_world. by apply ensure_template_honest.
Qed.
Lemma step_the_cluster_bind {A} n (k : cluster → M (fleet * W) A) s :
  (∀ c, stamped run (cl_resources c) → steps (k c) s) → steps (the_cluster n ≫= k) s.
Proof.
  intros Hk. know. apply moves_bind; [apply _|apply step_the_cluster; apply _|]. intros c s' E.
  apply the_cluster_resources in E as [-> Hc]. apply Hk. by eapply Forall_forall in Hst.
Qed.

(** Structural steps; a cluster that is looked up is stamped. *)
Ltac fsteps := moves_with ltac:(fun _ => first
  [ simple apply step_the_cluster_bind; intros ? ?
  | first [simple apply step_logged | simple apply step_attempt]; try apply _ ]).

Lemma warm_pool_steps c e reps already s : steps (warm_pool c e reps already) s.
Proof.
  know. unfold warm_pool, r_warm_shared_pool, r_create_warmpool. moves; apply step_world; rewrite Hid.
  - apply warm_shared_pool_honest.
  - by apply create_warmpool_honest.
Qed.
#[local] Hint Resolve own_template_steps warm_pool_steps await_pool_steps adopt_entry_steps : moves.

Lemma warm_entry_steps fuel e wait override s : steps (warm_entry fuel e wait override) s.
Proof.
  unfold warm_entry. fsteps.
Qed.
#[local] Hint Resolve warm_entry_steps the_plan_steps run_jobs_steps : moves.

Lemma warm_entries_steps fuel entries wait override s : steps (warm_entries fuel entries wait override) s.
Proof. unfold warm_entries. moves. Qed.
#[local] Hint Resolve warm_entries_steps : moves.

Lemma warm_waves_steps fuel wait ws s : steps (warm_waves fuel wait ws) s.
Proof. revert s. induction ws as [|w [|w' ws] IH]; intros s; cbn [warm_waves]; moves. Qed.
#[local] Hint Resolve warm_waves_steps : moves.

Lemma start_warmpools_steps fuel wait budget s : steps (start_warmpools fsum special fuel wait budget) s.
Proof. unfold start_warmpools. moves. Qed.
Lemma warm_images_steps fuel images override wait s : steps (warm_images fsum special fuel images override wait) s.
Proof. unfold warm_images. moves. Qed.

Lemma ensure_templates_steps s : steps (ensure_templates fsum special) s.
Proof.
  unfold ensure_templates. fsteps.
Qed.

Lemma reconcile_pool_steps c pool template replicas s :
  steps (r_create_warmpool c pool template replicas true (Some run) []) s.
Proof. know. apply step_world. by apply create_warmpool_honest. Qed.
#[local] Hint Resolve reconcile_pool_steps : moves.

Lemma set_pool_replicas_steps image replicas s : steps (set_pool_replicas fsum special image replicas) s.
Proof.
  unfold set_pool_replicas, keep_warmed. apply moves_bind; [apply _|fsteps|]. intros p s1 _. know.
  apply moves_self_bind. rewrite Hid. fsteps.
Qed.

(** *** Deleting *)

#[local] Hint Resolve read_quiet : moves.

Lemma pool_ownership_steps c pool s : steps (pool_ownership c pool) s.
Proof. unfold pool_ownership, r_get_warmpool, get_warmpool. fsteps. Qed.

Lemma pool_ownership_live c pool s v s' :
  of_run run (fixed s'.1) → pool_ownership (W := W) c pool s = (Ret (true, Some v), s') →
  known s'.2 (cl_name c) WARMPOOLS (rs_namespace (cl_resources c)) pool v ∧ unclaimed run v.
Proof.
  intros [Hid _] E. unfold pool_ownership in E. run_inv. apply mret_inv in E as [E ->].
  injection E as Ho El. destruct a0 as [[| | | | | |d]|]; simplify_eq.
  apply world_run_inv in Hrun0 as [Hf Hs]. cbn. rewrite Hs.
  apply found_known in Hf. split; [done|]. pose proof Hf as (? & ? & ? & [= <-] & Hne & _ & (o & Hown) & _). destruct d as [|kv d]; [done|].
  change (metadata_of (JObj (kv :: d)) = Ret a1) in Hrun1.
  apply bool_decide_eq_true in Ho. exists o. split; [done|].
  unfold owner_of in Hown. apply outcome_bind_inv in Hown as (m & Em & Hown). rewrite Hrun1 in Em.
  injection Em as <-. rewrite Hrun2 in Hown. destruct a2; by simplify_eq/=.
Qed.
#[local] Hint Resolve pool_ownership_steps : moves.

Lemma uid_of_uid v u : uid_of v = Ret u → str_or u None = u.
Proof.
  unfold uid_of. intros E. run_inv. injection E as <-. destruct a0 as [| | | | [|] | |]; reflexivity.
Qed.

Lemma delete_named_steps c r n v u s :
  known s.2 (cl_name c) r (rs_namespace (cl_resources c)) n v → unclaimed run v → uid_of v = Ret u →
  steps (world (@delete_named W (k8s_of (cl_name c)) (cl_resources c) r n u)) s.
Proof.
  intros Hk Hu E. apply step_world. unfold delete_named. moves. erewrite uid_of_uid by done.
  pose proof Hk as (? & u' & ? & _ & _ & E' & _). rewrite E in E'. injection E' as ->. by eapply delete_honest.
Qed.

Lemma owner_of_intro v meta labels o :
  metadata_of v = Ret meta → get_dict meta "labels" = Ret labels → py_get labels RUN_ID_LABEL = Ret o →
  owner_of v = Ret o.
Proof. unfold owner_of. intros ->. cbn. by intros ->. Qed.

Lemma delete_template_if_owned_steps c t s : steps (delete_template_if_owned c t) s.
Proof.
  know. unfold delete_template_if_owned, r_get_template. apply moves_self_bind. rewrite Hid.
  apply moves_bind; [apply _|apply step_quiet, read_quiet|]. intros [[| | | | | |d]|] s1 E; try by fsteps.
  apply world_run_inv in E as [Hf _]. apply found_known in Hf. fsteps.
  eapply delete_named_steps; [done| |done]. exists a1. split; [by eapply owner_of_intro|done].
Qed.

Lemma delete_inspected_steps c pool live s s1 :
  pool_ownership c pool s = (Ret (true, live), s1) → steps (delete_inspected c pool live) s1.
Proof.
  intros E. apply step_know. intros HJ. unfold delete_inspected. destruct live as [v|]; [|fsteps].
  apply pool_ownership_live in E as [Hk Hu]; [|done]. fsteps. by eapply delete_named_steps.
Qed.
#[local] Hint Resolve delete_template_if_owned_steps : moves.

Lemma unwarm_entry_steps e s : steps (unwarm_entry e) s.
Proof.
  unfold unwarm_entry, keep_warmed. fsteps; [|by case_match; fsteps].
  match goal with E : except _ _ _ = _ |- _ =>
    apply except_ret_inv in E as [E|(x & k & ? & _ & [= <-] & E)]; [|by run_inv] end.
  destruct b; [|done]. by eapply delete_inspected_steps.
Qed.

Lemma remove_ondemand_steps t image s : steps (remove_ondemand t image) s.
Proof. unfold remove_ondemand. fsteps. by eapply delete_inspected_steps. Qed.
#[local] Hint Resolve unwarm_entry_steps remove_ondemand_steps : moves.

Lemma unwarm_images_steps images s : steps (unwarm_images fsum special images) s.
Proof. unfold unwarm_images. fsteps. Qed.

(** *** Claiming *)

Lemma ensure_pool_steps c image replicas s : stamped run (cl_resources c) → steps (ensure_pool special c image replicas) s.
Proof.
  intros Hc. know. unfold ensure_pool, r_ensure_template, r_create_warmpool. apply moves_self_bind. rewrite Hid.
  fsteps; apply step_world; [by apply ensure_template_honest|by apply create_warmpool_honest].
Qed.

Lemma find_target_steps image s : steps (find_target special image) s.
Proof.
  know. unfold find_target. apply moves_self_bind. destruct (_ ≫= _); [fsteps|].
  destruct (fc_adopt_existing _); [fsteps|]. destruct (select _ _ _) as [r p] eqn:E. fsteps.
  apply ensure_pool_steps. subst r. eapply Forall_forall in Hst; [exact Hst|].
  apply list_elem_of_fmap_2. by eapply select_elem.
Qed.

Lemma own_acquire_steps image snapshot_uid annotations s : steps (acquire special image snapshot_uid annotations) s.
Proof.
  apply acquire_steps; [apply _| | |].
  - intros w c ns n b. unfold ours. cbn. destruct b; [|done]. by intros [].
  - apply find_target_steps.
  - intros s0 t s1 _ _ _ s2. apply remove_ondemand_steps.
Qed.
End own.

(** ** Whole runs *)

(** The operations of a fleet, other than [setup] and [teardown] *)
Inductive fleet_op :=
  | OpLoadTasks (source : list task) (rewrite : option (string → string))
  | OpAddTasks (source : list task) (rewrite : option (string → string))
  | OpPlan
  | OpEnsureTemplates
  | OpStartWarmpools (fuel : nat) (wait : bool) (budget : option Z)
  | OpWarmImages (fuel : nat) (images : list string) (override : option Z) (wait : bool)
  | OpUnwarmImages (images : list string)
  | OpSetPoolReplicas (image : string) (replicas : Z)
  | OpWaitPoolsReady (fuel : nat) (images : list string) (timeout : option Z) (replicas : list (string * Z))
  | OpAcquire (image : string) (snapshot_uid : option string) (annotations : list (string * string))
  | OpRelease (id : nat) (delete_snapshots : bool)
  | OpSnapshot (id : nat) (name : option string) (timeout : Z)
  | OpSuspend (id : nat) (take : bool) (timeout : Z)
  | OpResume (id : nat) (timeout : Z)
  | OpRestore (id : nat) (uid : string) (timeout : Z).

Section runs.
Context {W : Type} `{Clock W} `{Sdk W} `{PodExec W} `{Clusters W}.
Context (fsum : list pyfloat → pyfloat) (special : list ascii → outcome (list ascii)).

Definition run_op (op : fleet_op) : M (fleet * W) () :=
  match op with
  | OpLoadTasks source rewrite => _ ← load_tasks source rewrite; mret ()
  | OpAddTasks source rewrite => _ ← add_tasks fsum special source rewrite; mret ()
  | OpPlan => _ ← plan fsum special; mret ()
  | OpEnsureTemplates => ensure_templates fsum special
  | OpStartWarmpools fuel wait budget => start_warmpools fsum special fuel wait budget
  | OpWarmImages fuel images override wait => warm_images fsum special fuel images override wait
  | OpUnwarmImages images => unwarm_images fsum special images
  | OpSetPoolReplicas image replicas => set_pool_replicas fsum special image replicas
  | OpWaitPoolsReady fuel images timeout replicas =>
      _ ← wait_pools_ready fsum special fuel images timeout replicas; mret ()
  | OpAcquire image snapshot_uid annotations => _ ← acquire special image snapshot_uid annotations; mret ()
  | OpRelease id del => release id del
  | OpSnapshot id name timeout => _ ← fleet_snapshot id name timeout; mret ()
  | OpSuspend id take timeout => _ ← fleet_suspend id take timeout; mret ()
  | OpResume id timeout => _ ← fleet_resume id timeout; mret ()
  | OpRestore id uid timeout => fleet_restore id uid timeout
  end.

(** A caller that goes on whatever an operation raises *)
Definition run_ops (ops : list fleet_op) : M (fleet * W) () := for_each ops (λ op, logged () (run_op op)).
End runs.

Section adopting.
Context {W : Type} `{Clock W} `{Sdk W} `{PodExec W} `{Clusters W} `{Audit W} `{!AuditLaws W}.
Context (fsum : list pyfloat → pyfloat) (special : list ascii → outcome (list ascii)).
(** A fleet that adopts pools *)
Definition adopting (x : FleetConfig * string * list resources) : Prop := fc_adopt_existing x.1.1 = true.
Abbreviation steps := (moves (fleet_step adopting (spares_pools (W := W)))).
Ltac know := simple apply step_know; intros Ha; unfold adopting in Ha; cbn in Ha.
#[local] Hint Resolve adopt_entry_steps the_plan_steps run_jobs_steps : moves.

Lemma adopt_warm_entry_steps fuel e wait override s : steps (warm_entry fuel e wait override) s.
Proof. know. unfold warm_entry. apply moves_self_bind. rewrite Ha. moves. Qed.
#[local] Hint Resolve adopt_warm_entry_steps : moves.

Lemma adopt_warm_entries_steps fuel entries wait override s : steps (warm_entries fuel entries wait override) s.
Proof. unfold warm_entries. moves. Qed.
#[local] Hint Resolve adopt_warm_entries_steps : moves.

Lemma adopt_start_warmpools_steps fuel wait budget s : steps (start_warmpools fsum special fuel wait budget) s.
Proof. know. unfold start_warmpools. apply moves_self_bind. rewrite Ha. cbn [orb]. moves. Qed.
Lemma adopt_warm_images_steps fuel images override wait s :
  steps (warm_images fsum special fuel images override wait) s.
Proof. unfold warm_images. moves. Qed.

Lemma adopt_unwarm_entry_steps e s : steps (unwarm_entry e) s.
Proof. know. unfold unwarm_entry. apply moves_self_bind. rewrite Ha. moves. Qed.
#[local] Hint Resolve adopt_unwarm_entry_steps : moves.
Lemma adopt_unwarm_images_steps images s : steps (unwarm_images fsum special images) s.
Proof. unfold unwarm_images. moves. Qed.

Lemma adopt_ensure_templates_steps s : steps (ensure_templates fsum special) s.
Proof.
  unfold ensure_templates. apply moves_bind; [apply _|moves|]. intros p s1 _. know.
  apply moves_self_bind. rewrite Ha. moves.
Qed.
Lemma adopt_set_pool_replicas_steps image replicas s : steps (set_pool_replicas fsum special image replicas) s.
Proof.
  unfold set_pool_replicas. apply moves_bind; [apply _|moves|]. intros p s1 _. know.
  apply moves_self_bind. rewrite Ha. moves.
Qed.

Lemma adopt_find_target_steps image s : steps (find_target special image) s.
Proof. know. unfold find_target. apply moves_self_bind. rewrite Ha. moves. Qed.

Lemma adopt_find_target image s t s' :
  fc_adopt_existing (f_config s.1) = true → find_target (W := W) special image s = (Ret t, s') → tg_created t = false.
Proof.
  intros Ha E. unfold find_target in E. run_inv. rewrite Ha in E. case_match; [|done]. by run_inv.
Qed.

Lemma adopt_acquire_steps image snapshot_uid annotations s :
  steps (acquire special image snapshot_uid annotations) s.
Proof.
  apply acquire_steps; [apply _|by split|apply adopt_find_target_steps|].
  intros s0 t s1 Ha E Ht. apply adopt_find_target in E; [congruence|done].
Qed.
End adopting.

(** *** Every run *)

Section theorems.
Context {W : Type} `{Clock W} `{Sdk W} `{PodExec W} `{Clusters W} `{Audit W} `{!AuditLaws W}.
Context (fsum : list pyfloat → pyfloat) (special : list ascii → outcome (list ascii)).

#[local] Hint Resolve add_tasks_steps plan_steps wait_pools_ready_steps release_steps fleet_snapshot_steps
  fleet_suspend_steps fleet_resume_steps fleet_restore_steps step_logged : moves.

Lemma run_ops_steps J (ok : W → write → Prop) `{!Allowed ok} ops s :
  (∀ op s, moves (fleet_step J ok) (run_op fsum special op) s) →
  moves (fleet_step J ok) (run_ops fsum special ops) s.
Proof. intros Hop. unfold run_ops. moves. Qed.

Lemma own_run_op_steps run op s : moves (fleet_step (of_run run) (ours (W := W) run)) (run_op fsum special op) s.
Proof.
  destruct op; cbn [run_op]; unfold load_tasks; moves;
    eauto using ensure_templates_steps, start_warmpools_steps, warm_images_steps, unwarm_images_steps,
      set_pool_replicas_steps, own_acquire_steps with typeclass_instances.
Qed.

Lemma adopt_run_op_steps op s :
  moves (fleet_step adopting (spares_pools (W := W))) (run_op fsum special op) s.
Proof.
  destruct op; cbn [run_op]; unfold load_tasks; moves;
    eauto using adopt_ensure_templates_steps, adopt_start_warmpools_steps, adopt_warm_images_steps,
      adopt_unwarm_images_steps, adopt_set_pool_replicas_steps, adopt_acquire_steps with typeclass_instances.
Qed.
(** *** A new fleet stamps its clusters *)

Lemma dget_dupdate {A} (a b : list (string * A)) k :
  NoDup b.*1 → dget k (dupdate a b) = match dget k b with Some v => Some v | None => dget k a end.
Proof.
  unfold dupdate. revert a. induction b as [|[k' v] b IH]; intros a; cbn; [done|]. intros [Hn Hb]%NoDup_cons.
  rewrite IH by done. case_decide; subst; [|by rewrite dget_dset_ne].
  rewrite (proj2 (dget_None k' b)) by done. by rewrite dget_dset_eq.
Qed.

Lemma stamp_stamped run labels c :
  NoDup labels.*1 → dget RUN_ID_LABEL labels = Some run → stamped run (cl_resources (stamp labels c)).
Proof. intros Hn Hl. unfold stamped. cbn. by rewrite dget_dupdate, Hl. Qed.

Lemma apply_run_isolation_labels c run_id c' :
  apply_run_isolation special c run_id = Ret c' → fc_labels c' = fc_labels c.
Proof. unfold apply_run_isolation. intros E. run_inv. case_match; run_inv; by simplify_eq. Qed.

Lemma move_stamped run_id run kv kv' :
  on_values (move_cluster run_id) kv = Ret kv' → stamped run (cl_resources kv.2) → stamped run (cl_resources kv'.2).
Proof.
  unfold on_values, move_cluster. intros E. run_inv. simplify_eq. cbn. case_match; run_inv; by simplify_eq.
Qed.

Lemma moved_stamped run_id run l l' :
  Forall (λ kv : string * cluster, stamped run (cl_resources kv.2)) l →
  traverse (on_values (move_cluster run_id)) l = Ret l' →
  Forall (λ kv : string * cluster, stamped run (cl_resources kv.2)) l'.
Proof.
  intros Hl E. apply traverse_Forall2 in E. induction E as [|kv kv' l l' Hm _ IH]; [done|].
  apply Forall_cons in Hl as [Hkv Hl]. constructor; [by eapply move_stamped|auto].
Qed.

Lemma new_fleet_of_run src given w f w' :
  NoDup (fc_labels src).*1 → new_fleet special src given w = (Ret f, w') → f_run_id f ≠ EmptyString →
  of_run (f_run_id f) (fixed f).
Proof.
  intros Hn E Hr. split; [done|]. split; [done|]. unfold new_fleet in E. run_inv.
  apply apply_run_isolation_labels in Hrun0. rewrite Hrun0 in Hrun2.
  do 2 apply Forall_fmap. cbn [f_run_id f_registry].
  assert (Forall (λ kv : string * cluster, stamped a (cl_resources kv.2))
    ((λ kv : string * cluster, (kv.1, stamp (dset RUN_ID_LABEL a (fc_labels src)) kv.2)) <$> a1)) as Hst.
  { apply Forall_fmap, Forall_true. intros kv. apply stamp_stamped; [by apply dset_NoDup|apply dget_dset_eq]. }
  destruct (fc_run_isolation a0 =? _)%string; run_inv; [|exact Hst]. by eapply moved_stamped.
Qed.


(** A fleet that adopts existing pools writes no pool and no template, whatever
    operations are called on it. *)
Theorem adopting_writes_no_pools f w ops :
  fc_adopt_existing (f_config f) = true →
  let w' := (run_ops fsum special ops (f, w)).2.2 in
  ∃ new, writes w' = writes w ++ new ∧ Forall (λ x, wr_res x ≠ WARMPOOLS ∧ wr_res x ≠ TEMPLATES) new.
Proof.
  intros Ha. eapply (run_ops_steps adopting spares_pools ops (f, w)); [|exact Ha]. intros. apply adopt_run_op_steps.
Qed.
End theorems.

(** *** A run against the simulated cluster *)

Definition sim_ops : list fleet_op :=
  [OpLoadTasks sim_tasks None; OpStartWarmpools 5 true None; OpAcquire "img:a" None [];
   OpSetPoolReplicas "img:a" 3; OpUnwarmImages ["img:a"]].


Lemma adopting_writes_no_pools_witness :
  ∃ f w0, new_fleet no_special (sim_config true (Some 2) (Some "run1")) None pooled_sim = (Ret f, w0) ∧
  let s' := (run_ops sim_fsum no_special sim_ops (f, w0)).2 in
  (∃ new, writes s'.2 = writes w0 ++ new ∧ Forall (λ x, wr_res x ≠ WARMPOOLS ∧ wr_res x ≠ TEMPLATES) new) ∧
  f_handles s'.1 = [0%nat].
Proof.
  eexists _, _. split; [vm_compute; reflexivity|]. split; [|vm_compute; reflexivity].
  by apply (adopting_writes_no_pools sim_fsum no_special).
Defined.
