(* ===== verification/RlSlots.v ===== *)
(** The claim slots of a fleet under concurrent callers.

    [acquire], [release], [suspend], [resume] and [restore] of [fleet.py] hold the
    fleet's lock for short sections and talk to the cluster in between. Here any
    number of callers run these sections interleaved, and [max_live_sandboxes] bounds
    the sandboxes that are live or in flight in every reachable state. *)

From Stdlib Require Import String ZArith QArith Lia.
From stdpp Require Import base option list strings sets relations.
From S2P Require Import Prelude Float Json Budget Snapshots RlResources RlConfig RlHandles RlFleet RlOwnership RlSim.

#[local] Open Scope Z_scope.

(** ** Callers in flight *)

Inductive job :=
  | Acquiring
  | Releasing (id : nat)
  | Suspending (id : nat)
  (** whether the wake took a slot *)
  | Waking (id : nat) (taken : bool).

#[global] Instance job_eq_dec : EqDecision job.
Proof. solve_decision. Defined.

Record system := System { sys_fleet : fleet; sys_jobs : list job }.

(** No call is in flight on the handle. *)
Definition idle (id : nat) (js : list job) : Prop :=
  ∀ j, j ∈ js → match j with Acquiring => True | Releasing i | Suspending i | Waking i _ => i ≠ id end.

(** One section of one caller. A caller of [suspend], [resume] or [restore] has the
    handle for itself; a release may race with another release of it. What touches
    neither slots nor handles is [SOther]. *)
Inductive section_step : system → system → Prop :=
  | SAcquire f f' js :
      take_slot f = Ret f' → section_step (System f js) (System f' (Acquiring :: js))
  | SAcquired f f' h js js' :
      js ≡ₚ Acquiring :: js' → hd_slot_released h = false → track_handle h f = (true, f') →
      section_step (System f js) (System f' js')
  | STooLate f f' h js :
      Acquiring ∈ js → track_handle h f = (false, f') → section_step (System f js) (System f' js)
  | SAcquireFailed f js js' :
      js ≡ₚ Acquiring :: js' → section_step (System f js) (System (give_slot f) js')
  | SRelease f f' id js :
      idle id js → untrack_handle id f = Some f' → section_step (System f js) (System f' (Releasing id :: js))
  | SReleaseFailed f id js js' :
      js ≡ₚ Releasing id :: js' → section_step (System f js) (System (track_again id f) js')
  | SReleased f id h js js' :
      js ≡ₚ Releasing id :: js' → f_heap f !! id = Some h →
      section_step (System f js) (System (if hd_slot_released h then f else give_slot f) js')
  | SSuspend f id js :
      id ∈ f_handles f → idle id js → section_step (System f js) (System f (Suspending id :: js))
  | SSuspended f id js js' :
      js ≡ₚ Suspending id :: js' → section_step (System f js) (System (free_slot id f).2 js')
  | SSuspendFailed f id js js' :
      js ≡ₚ Suspending id :: js' → section_step (System f js) (System f js')
  | SWake f f' id taken js :
      id ∈ f_handles f → idle id js → retake_slot id f = Ret (taken, f') →
      section_step (System f js) (System f' (Waking id taken :: js))
  | SWoken f id taken js js' :
      js ≡ₚ Waking id taken :: js' → section_step (System f js) (System f js')
  | SWakeFailed f id taken js js' :
      js ≡ₚ Waking id taken :: js' →
      section_step (System f js) (System (if taken then (free_slot id f).2 else f) js')
  | SOther f f' js :
      f_config f' = f_config f → f_reserved f' = f_reserved f → f_handles f' = f_handles f →
      (hd_slot_released <$> f_heap f') = (hd_slot_released <$> f_heap f) →
      section_step (System f js) (System f' js).

(** ** What is live *)

(** The handle holds a slot. *)
Definition holds_slot (f : fleet) (id : nat) : bool :=
  match f_heap f !! id with Some h => negb (hd_slot_released h) | None => false end.

Definition releasing (js : list job) : list nat :=
  omap (λ j, match j with Releasing id => Some id | _ => None end) js.
Definition acquiring (js : list job) : nat := length (filter (λ j, j = Acquiring) js).

Definition held (f : fleet) (l : list nat) : Z := Z.of_nat (length (filter (λ id, holds_slot f id = true) l)).

(** The handles the fleet answers for: tracked, or being released *)
Definition charged (s : system) : list nat := f_handles (sys_fleet s) ++ releasing (sys_jobs s).

(** Claims in flight, and sandboxes with a pod *)
Definition live (s : system) : Z := Z.of_nat (acquiring (sys_jobs s)) + held (sys_fleet s) (charged s).

(** ** The account

    [n] claims in flight and the handles [l] make up the reserved slots. *)
Record account (f : fleet) (n : nat) (l : list nat) : Prop := {
  ac_reserved : f_reserved f = Z.of_nat n + held f l;
  ac_nodup : NoDup l;
  ac_heap : ∀ id, id ∈ l → (id < length (f_heap f))%nat;
}.

Record slots_ok (s : system) : Prop := {
  so_account : account (sys_fleet s) (acquiring (sys_jobs s)) (charged s);
  (** who suspends or wakes a handle keeps it tracked *)
  so_jobs : ∀ id, (Suspending id ∈ sys_jobs s ∨ ∃ b, Waking id b ∈ sys_jobs s) → id ∈ f_handles (sys_fleet s);
}.

Lemma held_nonneg f l : 0 ≤ held f l.
Proof. unfold held. lia. Qed.

Lemma held_perm f l l' : l ≡ₚ l' → held f l = held f l'.
Proof. intros Hp. unfold held. by rewrite Hp. Qed.

Lemma held_cons f id l : held f (id :: l) = (if holds_slot f id then 1 else 0) + held f l.
Proof. unfold held. rewrite filter_cons. destruct (holds_slot f id); case_decide; cbn; try done; lia. Qed.

Lemma held_ext f f' l : (∀ id, id ∈ l → holds_slot f' id = holds_slot f id) → held f' l = held f l.
Proof.
  intros Hl. unfold held. do 2 f_equal. induction l as [|x l IH]; [done|].
  rewrite !filter_cons, Hl by (by left). rewrite IH; [done|]. intros id Hid. apply Hl. by right.
Qed.

Lemma account_perm f n l l' : l ≡ₚ l' → account f n l → account f n l'.
Proof.
  intros Hp [Hr Hnd Hh]. split; [by rewrite <-(held_perm f _ _ Hp)|by rewrite <-Hp|]. intros id. rewrite <-Hp. auto.
Qed.

(** Slots count the same when only other parts of the fleet change. *)
Lemma account_same f f' n l :
  f_reserved f' = f_reserved f → (∀ id, id ∈ l → holds_slot f' id = holds_slot f id) →
  (length (f_heap f) ≤ length (f_heap f'))%nat → account f n l → account f' n l.
Proof.
  intros Hr Hh Hl [H1 H2 H3]. split; [by rewrite Hr, (held_ext f f')|done|]. intros id Hid. specialize (H3 id Hid). lia.
Qed.

Lemma account_take f f' n l : take_slot f = Ret f' → account f n l → account f' (S n) l.
Proof.
  unfold take_slot. destruct (slots_full f); [done|]. intros [= <-] [H1 H2 H3]. split; [|done|done].
  change (held (set_reserved (f_reserved f + 1) f) l) with (held f l). cbn. lia.
Qed.

Lemma account_give f n l : account f (S n) l → account (give_slot f) n l.
Proof.
  intros [H1 H2 H3]. split; [|done|done]. change (held (give_slot f) l) with (held f l). cbn.
  pose proof (held_nonneg f l). lia.
Qed.

Lemma holds_append f h id :
  (id < length (f_heap f))%nat → holds_slot (set_heap (f_heap f ++ [h]) f) id = holds_slot f id.
Proof. intros Hid. unfold holds_slot. cbn. by rewrite lookup_app_l. Qed.

Lemma account_append f h n l : account f n l → account (set_heap (f_heap f ++ [h]) f) n l.
Proof.
  intros Ha. pose proof Ha as [_ _ H3]. revert Ha. apply account_same; [done| |cbn; rewrite length_app; lia].
  intros id Hid. apply holds_append. auto.
Qed.

(** A claim in flight becomes a handle. *)
Lemma account_track f h n l :
  hd_slot_released h = false → account f (S n) l →
  account (set_heap (f_heap f ++ [h]) f) n (length (f_heap f) :: l).
Proof.
  intros Hh Ha. destruct (account_append f h (S n) l Ha) as [H1 H2 H3]. pose proof Ha as [_ _ H4]. split.
  - rewrite held_cons, H1. unfold holds_slot at 1. cbn -[lookup]. rewrite list_lookup_middle by done.
    rewrite Hh. cbn [negb]. lia.
  - constructor; [|done]. intros Hid. specialize (H4 _ Hid). lia.
  - intros id. rewrite elem_of_cons. intros [->|Hid]; [cbn; rewrite length_app; cbn; lia|auto].
Qed.

(** A handle leaves, with the slot it held. *)
Lemma account_leave f id h n l :
  f_heap f !! id = Some h → account f n (id :: l) →
  account (if hd_slot_released h then f else give_slot f) n l.
Proof.
  intros Hh [H1 H2 H3]. rewrite held_cons in H1. unfold holds_slot in H1 at 1. rewrite Hh in H1.
  apply NoDup_cons in H2 as [_ H2].
  assert (∀ i, i ∈ l → (i < length (f_heap f))%nat) as H4 by (intros i Hi; apply H3; by right).
  destruct (hd_slot_released h); cbn [negb] in H1.
  - split; [lia|done|done].
  - apply account_give. split; [lia|done|done].
Qed.

(** *** Giving a slot back and taking it again *)

Lemma holds_update f id b h j :
  f_heap f !! id = Some h →
  holds_slot (update_handle id (with_slot b) f) j = (if decide (j = id) then negb b else holds_slot f j).
Proof.
  intros Hh. unfold holds_slot, update_handle. rewrite Hh. cbn. case_decide as Hj.
  - subst j. rewrite list_lookup_insert_eq by (by eapply lookup_lt_Some). done.
  - by rewrite list_lookup_insert_ne by done.
Qed.

Lemma update_heap_length f id g : length (f_heap (update_handle id g f)) = length (f_heap f).
Proof. unfold update_handle. destruct (f_heap f !! id); [|done]. cbn. apply length_insert. Qed.

Lemma held_flip f id b h l :
  f_heap f !! id = Some h → id ∈ l → NoDup l →
  held (update_handle id (with_slot b) f) l + (if holds_slot f id then 1 else 0) =
  held f l + (if b then 0 else 1).
Proof.
  intros Hh Hin Hnd. apply elem_of_Permutation in Hin as [l' Hp].
  rewrite !(held_perm _ _ _ Hp), !held_cons, (holds_update _ _ _ _ _ Hh), decide_True by done.
  rewrite (held_ext f).
  - destruct b, (holds_slot f id); cbn; lia.
  - intros j Hj. rewrite (holds_update _ _ _ _ _ Hh), decide_False; [done|]. rewrite Hp in Hnd.
    apply NoDup_cons in Hnd as [Hn _]. by intros ->.
Qed.

Lemma reserved_update f id g : f_reserved (update_handle id g f) = f_reserved f.
Proof. unfold update_handle. by destruct (f_heap f !! id). Qed.

Lemma account_free f id n l : id ∈ l → account f n l → account (free_slot id f).2 n l.
Proof.
  intros Hin Ha. pose proof Ha as [H1 H2 H3]. unfold free_slot. destruct (f_heap f !! id) as [h|] eqn:Hh; [|done].
  destruct (hd_slot_released h) eqn:Hr; [done|]. cbn [snd]. apply account_give.
  pose proof (held_flip f id true h l Hh Hin H2) as Hf. unfold holds_slot in Hf at 1. rewrite Hh, Hr in Hf. cbn in Hf.
  split; [rewrite reserved_update; lia|done|]. intros i Hi. rewrite update_heap_length. auto.
Qed.

Lemma account_retake f f' id taken n l :
  id ∈ l → retake_slot id f = Ret (taken, f') → account f n l → account f' n l.
Proof.
  intros Hin. unfold retake_slot. destruct (f_heap f !! id) as [h|] eqn:Hh; [|by intros [= <- <-]].
  destruct (hd_slot_released h) eqn:Hr; cbn [negb]; [|by intros [= <- <-]].
  destruct (take_slot f) as [f1|e|] eqn:Ht; [|done|done]. intros [= <- <-] Ha.
  pose proof (account_take f f1 n l Ht Ha) as [H1 H2 H3].
  assert (f_heap f1 !! id = Some h) as Hh1.
  { unfold take_slot in Ht. destruct (slots_full f); [done|]. by injection Ht as <-. }
  pose proof (held_flip f1 id false h l Hh1 Hin H2) as Hf. unfold holds_slot in Hf at 1. rewrite Hh1, Hr in Hf. cbn in Hf.
  split; [rewrite reserved_update; lia|done|]. intros i Hi. rewrite update_heap_length. auto.
Qed.

(** ** Every section keeps the account *)

(** The jobs, with one of them apart *)
Lemma jobs_split js j js' :
  js ≡ₚ j :: js' →
  acquiring js = (acquiring [j] + acquiring js')%nat ∧ releasing js ≡ₚ releasing [j] ++ releasing js'.
Proof.
  intros Hp. unfold acquiring, releasing. rewrite Hp. change (j :: js') with ([j] ++ js').
  by rewrite filter_app, length_app, omap_app.
Qed.

Lemma remove_first_perm {A} `{EqDecision A} (x : A) l : x ∈ l → l ≡ₚ x :: remove_first x l.
Proof.
  induction l as [|y l IH]; [by intros ?%elem_of_nil|]. rewrite elem_of_cons. cbn. intros Hx.
  case_decide as Hy; [by subst|]. destruct Hx as [->|Hx]; [done|].
  rewrite (IH Hx) at 1. apply Permutation_swap.
Qed.

(** The jobs that keep a handle tracked, after one is removed *)
Lemma jobs_less (f f' : fleet) js js' j :
  js ≡ₚ j :: js' → (∀ id, id ∈ f_handles f → id ∈ f_handles f') →
  (∀ id, (Suspending id ∈ js ∨ ∃ b, Waking id b ∈ js) → id ∈ f_handles f) →
  ∀ id, (Suspending id ∈ js' ∨ ∃ b, Waking id b ∈ js') → id ∈ f_handles f'.
Proof.
  intros Hp Hsub Hjobs id Hid. apply Hsub, Hjobs. destruct Hid as [Hid|[b Hid]]; [left|right; exists b];
    rewrite Hp; by right.
Qed.

(** ... and after one is added *)
Lemma jobs_more (f f' : fleet) js j :
  (∀ id, (Suspending id ∈ js ∨ ∃ b, Waking id b ∈ js) → id ∈ f_handles f') →
  (∀ id, (j = Suspending id ∨ ∃ b, j = Waking id b) → id ∈ f_handles f') →
  ∀ id, (Suspending id ∈ j :: js ∨ ∃ b, Waking id b ∈ j :: js) → id ∈ f_handles f'.
Proof.
  intros Hjobs Hj id [Hid|[b Hid]]; apply elem_of_cons in Hid as [<-|Hid]; eauto.
Qed.

Lemma free_slot_handles id f : f_handles (free_slot id f).2 = f_handles f.
Proof. unfold free_slot, update_handle. destruct (f_heap f !! id) as [h|] eqn:E; [|done]. by destruct (hd_slot_released h). Qed.

Lemma retake_slot_handles id f taken f' : retake_slot id f = Ret (taken, f') → f_handles f' = f_handles f.
Proof.
  unfold retake_slot, take_slot, update_handle. destruct (f_heap f !! id) as [h|] eqn:E; [|by intros [= _ <-]].
  destruct (negb _); [by intros [= _ <-]|]. destruct (slots_full f); [done|]. cbn. rewrite E. by intros [= _ <-].
Qed.

Lemma track_handle_inv h f b f' :
  track_handle h f = (b, f') →
  b = negb (f_torndown f) ∧
  f' = (if f_torndown f then set_heap (f_heap f ++ [h]) f
        else set_handles (f_handles f ++ [length (f_heap f)]) (set_heap (f_heap f ++ [h]) f)).
Proof. unfold track_handle. cbn. destruct (f_torndown f); by intros [= <- <-]. Qed.

Lemma untrack_handle_inv id f f' :
  untrack_handle id f = Some f' → id ∈ f_handles f ∧ f' = set_handles (remove_first id (f_handles f)) f.
Proof. unfold untrack_handle. case_decide; [|done]. by intros [= <-]. Qed.

Lemma account_handles v f n l : account f n l → account (set_handles v f) n l.
Proof. intros [H1 H2 H3]. by split. Qed.

Section steps.
Context (f : fleet) (js : list job).
Hypothesis ok : slots_ok (System f js).

Let Ha : account f (acquiring js) (f_handles f ++ releasing js) := so_account _ ok.
Let Hj : ∀ id, (Suspending id ∈ js ∨ ∃ b, Waking id b ∈ js) → id ∈ f_handles f := so_jobs _ ok.

(** The slots after a job left that held neither a slot nor a handle *)
Lemma leave_ok j js' f' :
  js ≡ₚ j :: js' → acquiring [j] = 0%nat → releasing [j] = [] → f_handles f' = f_handles f →
  account f' (acquiring js) (f_handles f ++ releasing js) → slots_ok (System f' js').
Proof.
  intros Hp Hn Hr Hh Ha'. destruct (jobs_split _ _ _ Hp) as [Ea Er]. rewrite Hn in Ea. rewrite Hr in Er.
  split; unfold charged; cbn [sys_fleet sys_jobs].
  - rewrite Hh. rewrite Ea in Ha'. eapply account_perm; [|exact Ha']. by rewrite Er.
  - eapply (jobs_less f); [exact Hp|by rewrite Hh|exact Hj].
Qed.

Lemma acquire_ok f' : take_slot f = Ret f' → slots_ok (System f' (Acquiring :: js)).
Proof.
  intros Ht. pose proof (account_take _ _ _ _ Ht Ha) as Ha'. unfold take_slot in Ht.
  destruct (slots_full f); [done|]. injection Ht as <-. split; [exact Ha'|].
  apply (jobs_more f); [exact Hj|]. by intros id [?|[? ?]].
Qed.

Lemma acquired_ok f' h js' :
  js ≡ₚ Acquiring :: js' → hd_slot_released h = false → track_handle h f = (true, f') → slots_ok (System f' js').
Proof.
  intros Hp Hh [Htd ->]%track_handle_inv. destruct (f_torndown f); [done|].
  destruct (jobs_split _ _ _ Hp) as [Ea Er]. cbn in Ea, Er. pose proof Ha as Ha'. rewrite Ea in Ha'. split.
  - apply account_handles. eapply account_perm; [|exact (account_track _ _ _ _ Hh Ha')].
    unfold charged. cbn [sys_fleet sys_jobs f_handles set_handles]. rewrite Er, <-app_assoc. cbn. by rewrite Permutation_middle.
  - eapply (jobs_less f); [exact Hp| |exact Hj]. cbn. set_solver.
Qed.

Lemma too_late_ok f' h : track_handle h f = (false, f') → slots_ok (System f' js).
Proof.
  intros [Htd ->]%track_handle_inv. destruct (f_torndown f); [|done]. split; [by apply account_append|exact Hj].
Qed.

Lemma acquire_failed_ok js' : js ≡ₚ Acquiring :: js' → slots_ok (System (give_slot f) js').
Proof.
  intros Hp. destruct (jobs_split _ _ _ Hp) as [Ea Er]. cbn in Ea, Er. pose proof Ha as Ha'. rewrite Ea in Ha'.
  split; [|by eapply (jobs_less f); [exact Hp| |exact Hj]].
  eapply account_perm; [|exact (account_give _ _ _ Ha')]. unfold charged. cbn. by rewrite Er.
Qed.

Lemma release_ok f' id : idle id js → untrack_handle id f = Some f' → slots_ok (System f' (Releasing id :: js)).
Proof.
  intros Hi [Hin ->]%untrack_handle_inv. split.
  - apply account_handles. eapply account_perm; [|exact Ha]. unfold charged. cbn [sys_fleet sys_jobs f_handles set_handles].
    rewrite (remove_first_perm id (f_handles f)) at 1 by done. cbn. by rewrite Permutation_middle.
  - apply (jobs_more f); [|by intros i [?|[? ?]]]. intros i Hw. cbn. specialize (Hj i Hw).
    rewrite (remove_first_perm id (f_handles f)) in Hj by done. apply elem_of_cons in Hj as [->|Hj']; [|done].
    exfalso. destruct Hw as [Hw|[b Hw]]; by specialize (Hi _ Hw).
Qed.

Lemma release_failed_ok id js' : js ≡ₚ Releasing id :: js' → slots_ok (System (track_again id f) js').
Proof.
  intros Hp. destruct (jobs_split _ _ _ Hp) as [Ea Er]. cbn in Ea, Er. pose proof Ha as Ha'. rewrite Ea in Ha'. split.
  - apply account_handles. eapply account_perm; [|exact Ha']. unfold charged.
    cbn [sys_fleet sys_jobs f_handles track_again set_handles]. by rewrite Er, <-app_assoc.
  - eapply (jobs_less f); [exact Hp| |exact Hj]. cbn. set_solver.
Qed.

Lemma released_ok id h js' :
  js ≡ₚ Releasing id :: js' → f_heap f !! id = Some h →
  slots_ok (System (if hd_slot_released h then f else give_slot f) js').
Proof.
  intros Hp Hh. destruct (jobs_split _ _ _ Hp) as [Ea Er]. cbn in Ea, Er. pose proof Ha as Ha'. rewrite Ea in Ha'.
  eapply account_perm in Ha'; [|rewrite Er; symmetry; apply Permutation_middle].
  apply (account_leave _ _ _ _ _ Hh) in Ha'. split; [by destruct (hd_slot_released h)|].
  eapply (jobs_less f); [exact Hp| |exact Hj]. by destruct (hd_slot_released h).
Qed.

Lemma suspend_ok id : id ∈ f_handles f → slots_ok (System f (Suspending id :: js)).
Proof. intros Hin. split; [exact Ha|]. apply (jobs_more f); [exact Hj|]. by intros i [[= <-]|[? ?]]. Qed.

Lemma free_ok j id js' :
  js ≡ₚ j :: js' → (j = Suspending id ∨ ∃ b, j = Waking id b) → slots_ok (System (free_slot id f).2 js').
Proof.
  intros Hp Hid. eapply leave_ok; [exact Hp|by destruct Hid as [->|[b ->]]..|apply free_slot_handles|].
  apply account_free; [|exact Ha]. apply elem_of_app. left. apply Hj.
  destruct Hid as [->|[b ->]]; [left|right; exists b]; rewrite Hp; by left.
Qed.

Lemma wake_ok f' id taken :
  id ∈ f_handles f → retake_slot id f = Ret (taken, f') → slots_ok (System f' (Waking id taken :: js)).
Proof.
  intros Hin Hr. pose proof (retake_slot_handles _ _ _ _ Hr) as Hh. split.
  - unfold charged. cbn [sys_fleet sys_jobs]. rewrite Hh. eapply account_retake; [|exact Hr|exact Ha].
    apply elem_of_app. by left.
  - cbn [sys_fleet sys_jobs]. rewrite Hh. apply (jobs_more f f); [exact Hj|]. by intros i [?|[? [= <- _]]].
Qed.

Lemma other_ok f' :
  f_reserved f' = f_reserved f → f_handles f' = f_handles f →
  (hd_slot_released <$> f_heap f') = (hd_slot_released <$> f_heap f) → slots_ok (System f' js).
Proof.
  intros Hr Hh Hs. split; unfold charged; cbn [sys_fleet sys_jobs]; rewrite Hh; [|exact Hj].
  eapply account_same; [exact Hr| | |exact Ha].
  - intros id _. unfold holds_slot. apply (f_equal (lookup id)) in Hs. rewrite !list_lookup_fmap in Hs.
    destruct (f_heap f' !! id), (f_heap f !! id); cbn in Hs; simplify_eq; [by f_equal|done].
  - apply (f_equal length) in Hs. rewrite !length_fmap in Hs. lia.
Qed.
End steps.

Lemma section_step_ok s s' : section_step s s' → slots_ok s → slots_ok s'.
Proof.
  intros Hstep Hok. destruct Hstep.
  - by eapply acquire_ok.
  - by eapply acquired_ok.
  - by eapply too_late_ok.
  - by eapply acquire_failed_ok.
  - by eapply release_ok.
  - by eapply release_failed_ok.
  - by eapply released_ok.
  - by apply suspend_ok.
  - eapply free_ok; eauto.
  - eapply leave_ok; [exact Hok|done..|]. apply Hok.
  - by eapply wake_ok.
  - eapply leave_ok; [exact Hok|done..|]. apply Hok.
  - destruct taken; [eapply free_ok; eauto|]. eapply leave_ok; [exact Hok|done..|]. apply Hok.
  - by eapply other_ok.
Qed.

(** ** The cap *)

(** The largest number of live sandboxes the settings allow *)
Definition cap (c : FleetConfig) : option Z :=
  match fc_max_live_sandboxes c with
  | Some hard => if hard =? 0 then None else Some (Z.max 0 hard)
  | None => None
  end.

Definition within_cap (s : system) : Prop :=
  ∀ m, cap (f_config (sys_fleet s)) = Some m → f_reserved (sys_fleet s) ≤ m.

Lemma give_slot_le f : 0 ≤ f_reserved f → f_reserved (give_slot f) ≤ f_reserved f.
Proof. cbn. lia. Qed.

Lemma take_slot_within f f' m :
  take_slot f = Ret f' → cap (f_config f) = Some m → f_reserved f ≤ m → f_reserved f' ≤ m.
Proof.
  unfold take_slot, slots_full, cap. destruct (fc_max_live_sandboxes (f_config f)) as [hard|]; [|done].
  destruct (hard =? 0); [done|]. cbn [negb andb]. destruct (hard <=? f_reserved f) eqn:E; [done|].
  intros [= <-] [= <-] _. apply Z.leb_gt in E. cbn. lia.
Qed.

Lemma free_slot_le id f :
  0 ≤ f_reserved f → f_config (free_slot id f).2 = f_config f ∧ f_reserved (free_slot id f).2 ≤ f_reserved f.
Proof.
  intros Hr. unfold free_slot, update_handle. destruct (f_heap f !! id) as [h|]; [|done].
  destruct (hd_slot_released h); cbn; split; try done; lia.
Qed.

(** A section keeps the settings, and takes at most the slot [take_slot] grants. *)
Definition grants (f f' : fleet) : Prop :=
  f_config f' = f_config f ∧
  (f_reserved f' ≤ f_reserved f ∨ ∃ f1, take_slot f = Ret f1 ∧ f_reserved f' = f_reserved f1).

Lemma grants_le f f' : f_config f' = f_config f → f_reserved f' ≤ f_reserved f → grants f f'.
Proof. split; auto. Qed.

Lemma grants_take f f' : take_slot f = Ret f' → grants f f'.
Proof.
  intros Ht. split; [|by right; exists f']. unfold take_slot in Ht. destruct (slots_full f); [done|]. by injection Ht as <-.
Qed.

Lemma grants_retake id f taken f' : retake_slot id f = Ret (taken, f') → grants f f'.
Proof.
  unfold retake_slot. destruct (f_heap f !! id) as [h|] eqn:Hh; [|by intros [= _ <-]; apply grants_le].
  destruct (negb _); [by intros [= _ <-]; apply grants_le|].
  destruct (take_slot f) as [f1|e|] eqn:Ht; [|done|done]. intros [= _ <-].
  destruct (grants_take f f1 Ht) as [Hc _]. split; [|right; exists f1; by rewrite reserved_update].
  unfold update_handle. destruct (f_heap f1 !! id); done.
Qed.

Lemma step_grants s s' :
  section_step s s' → 0 ≤ f_reserved (sys_fleet s) → grants (sys_fleet s) (sys_fleet s').
Proof.
  intros Hstep. destruct Hstep; cbn [sys_fleet]; intros Hnn; eauto using grants_take, grants_retake;
    repeat match goal with
    | E : track_handle _ _ = _ |- _ => apply track_handle_inv in E as [_ ->]
    | E : untrack_handle _ _ = _ |- _ => apply untrack_handle_inv in E as [_ ->]
    end;
    repeat case_match; try (destruct (free_slot_le id f Hnn));
    apply grants_le; try done; cbn; try lia; congruence.
Qed.

Lemma step_within s s' : section_step s s' → slots_ok s → within_cap s → within_cap s'.
Proof.
  intros Hstep [[Hr _ _] _] Hw m Hm. pose proof (held_nonneg (sys_fleet s) (charged s)).
  destruct (step_grants s s' Hstep) as [Hc Hg]; [lia|]. rewrite Hc in Hm. specialize (Hw m Hm).
  destruct Hg as [Hle|(f1 & Ht & ->)]; [lia|]. by eapply take_slot_within.
Qed.

(** A fleet as it is built, with nobody in it *)
Definition fresh_system (s : system) : Prop :=
  f_reserved (sys_fleet s) = 0 ∧ f_handles (sys_fleet s) = [] ∧ sys_jobs s = [].

Lemma reachable_ok s s' :
  fresh_system s → rtc section_step s s' → slots_ok s' ∧ within_cap s'.
Proof.
  intros (Hr & Hh & Hn) Hs.
  assert (slots_ok s ∧ within_cap s) as Hok.
  { split; [split; [split|]|]; unfold charged, within_cap, cap; rewrite ?Hh, ?Hr, ?Hn.
    - done.
    - constructor.
    - by intros id ?%elem_of_nil.
    - by intros id [?%elem_of_nil|[? ?%elem_of_nil]].
    - intros m. repeat case_match; try done. intros [= <-]. lia. }
  clear Hr Hh Hn. induction Hs as [|s s1 s2 Hstep _ IH]; [done|]. apply IH. destruct Hok as [Hok Hw].
  eauto using section_step_ok, step_within.
Qed.


(** Two callers of a fleet with two slots: one has its sandbox, the other is in flight. *)
Definition sim_fleet : option fleet := fst <$> new_sim_fleet false (Some 2) (Some "run1") empty_sim.
Definition sim_handle : handle :=
  Handle "img:a" "east" "default" "claim" (Sandbox 0 "claim" "claim") "pod" None None None None None false JNull JNull.

