(* ===== verification/RlReaper.v ===== *)
(** The reaper: models [reaper.py] of
    [src/examples/agent-sandbox-rl/agent_sandbox_rl], and the check that follows a
    teardown ([verify_teardown] of [fleet.py]).

    Sets of names are lists without duplicates; names are strings in what the server
    returns, another value would be read as its text. Log lines are left out, and so
    is the command line. *)

From Stdlib Require Import Ascii String ZArith Lia.
From stdpp Require Import base option list strings sets pretty.
From S2P Require Import Prelude Float Json PyList PyText IpAddress Models Utils World K8sHelper DateTime Budget Snapshots RlResources RlConfig RlHandles RlFleet.

#[local] Open Scope Z_scope.

(** Pods of a namespace by selector: their names, one deleted, all deleted *)
Class PodApi (W : Type) := {
  list_pod_names : string → string → M W (list string);
  delete_pod : string → string → M W ();
  delete_pods : string → string → M W ();
}.

Definition add_name (n : string) (l : list string) : list string := if decide (n ∈ l) then l else l ++ [n].
(** [if v: s.add(v)] *)
Definition add_if_true (v : json) (l : list string) : list string := if truthy v then add_name (py_str v) l else l.
Definition union (a b : list string) : list string := foldl (λ l n, add_name n l) a b.

(** What a [for] adds before an exception ends it *)
Fixpoint fold_until {A S} (f : S → A → outcome S) (acc : S) (l : list A) : S :=
  match l with
  | [] => acc
  | a :: l' => match f acc a with Ret acc' => fold_until f acc' l' | _ => acc end
  end.

(** A [for] whose exceptions are the caller's *)
Fixpoint fold_all {A S} (f : S → A → outcome S) (acc : S) (l : list A) : outcome S :=
  match l with
  | [] => Ret acc
  | a :: l' => acc' ← f acc a; fold_all f acc' l'
  end.

(** ** Objects *)

Definition meta_name (obj : json) : outcome json := m ← metadata_of obj; py_get m "name".

(** [sb.get("name") or sb.get("Name")] of a claim's status *)
Definition claimed_sandbox (claim : json) : outcome json :=
  status ← get_dict claim "status"; sb ← get_dict status "sandbox";
  n ← py_get sb "name"; if truthy n then Ret n else py_get sb "Name".

Definition pool_selector (pool : json) : outcome json := status ← get_dict pool "status"; py_get status "selector".

(** The pool a claim points at, and the template a pool points at *)
Definition claim_pool (claim : json) : outcome json :=
  spec ← get_dict claim "spec"; pref ← get_dict spec "warmPoolRef"; py_get pref "name".
Definition pool_template (pool : json) : outcome json :=
  spec ← get_dict pool "spec"; tref ← get_dict spec "sandboxTemplateRef"; py_get tref "name".

Definition in_names (n : json) (l : list string) : bool :=
  match n with JStr s => bool_decide (s ∈ l) | _ => false end.

(** [selectors.add(index.get(name))] for the claimed sandboxes *)
Definition add_selectors (index : list (string * json)) (claimed selectors : list string) : list string :=
  foldl (λ l n, add_if_true (default JNull (dget n index)) l) selectors claimed.

(** [_created_at] *)
Definition created_at (obj : json) : outcome (option datetime) :=
  m ← metadata_of obj;
  ts ← py_get m "creationTimestamp";
  if negb (truthy ts) then Ret None
  else match ts with
       | JStr s => match fromisoformat (replace "Z" "+00:00" s) with
                   | Ret d => Ret (Some d)
                   | Raise ValueError => Ret None
                   | Raise e => Raise e
                   | NoFuel => NoFuel
                   end
       | _ => Raise AttributeError
       end.

(** [(now - created).total_seconds()]; [now] is aware *)
Definition age_of (now : datetime) (created : option datetime) : outcome pyfloat :=
  match created with
  | None => Ret PInf
  | Some d => match dt_offset d with
              | None => Raise TypeError
              | Some _ => total_seconds (instant now - instant d)
              end
  end.

(** A run that was found: its objects and the age of the newest *)
Record orphan := Orphan { or_objects : Z; or_newest_age : pyfloat }.

Definition note_object (now : datetime) (seen : list (string * orphan)) (obj : json)
    : outcome (list (string * orphan)) :=
  rid ← owner_of obj;
  if negb (truthy rid) then Ret seen
  else
    created ← created_at obj;
    age ← age_of now created;
    let r := default (Orphan 0 PInf) (dget (py_str rid) seen) in
    Ret (dset (py_str rid)
           (Orphan (or_objects r + 1) (if flt age (or_newest_age r) then age else or_newest_age r)) seen).

Section reaper.
Context {W : Type} `{K8sApi W} `{PodApi W}.
Context (rs : resources).
Abbreviation ns := (rs_namespace rs).

(** [_sandbox_selector_index] *)
Definition index_sandbox (out : list (string * json)) (sb : json) : outcome (list (string * json)) :=
  name ← meta_name sb;
  if truthy name then
    status ← get_dict sb "status"; sel ← py_get status "labelSelector"; Ret (dset (py_str name) sel out)
  else Ret out.

Definition sandbox_selector_index : M W (list (string * json)) :=
  l ← list_of rs SANDBOX None; lift (fold_all index_sandbox [] l).

(** ** What belongs to a run *)

Definition swallow {A} (d : A) (m : M W A) : M W A := except (λ _, Some (mret d)) m.

Definition link_pool (skip : list string) (acc : list string) (pool : json) : outcome (list string) :=
  n ← meta_name pool;
  if in_names n skip then Ret acc else sel ← pool_selector pool; Ret (add_if_true sel acc).

Definition link_sandbox (acc : list string) (sb : json) : outcome (list string) :=
  n ← meta_name sb; Ret (add_if_true n acc).

Definition link_claim (acc : list string) (claim : json) : outcome (list string) :=
  n ← claimed_sandbox claim; Ret (add_if_true n acc).

(** The names of the sandboxes each selector finds *)
Fixpoint members (acc selectors : list string) : M W (list string) :=
  match selectors with
  | [] => mret acc
  | sel :: rest =>
      acc ← swallow acc (l ← list_of rs SANDBOX (Some sel); mret (fold_until link_sandbox acc l));
      members acc rest
  end.

Definition sandbox_links (selector : string) (skip_pools : list string) (index : option (list (string * json)))
    : M W (list string * list string) :=
  pool_selectors ← swallow [] (l ← list_of rs WARMPOOLS (Some selector); mret (fold_until (link_pool skip_pools) [] l));
  sandbox_names ← members [] (sorted str_lt pool_selectors);
  claimed ← swallow [] (l ← list_of rs CLAIM (Some selector); mret (fold_until link_claim [] l));
  pod_selectors ←
    match claimed with
    | [] => mret pool_selectors
    | _ => swallow pool_selectors
             (idx ← match index with Some i => mret i | None => sandbox_selector_index end;
              mret (add_selectors idx claimed pool_selectors))
    end;
  mret (pod_selectors, union sandbox_names claimed).

(** ** What other runs use *)

(** One claim of [_in_use_elsewhere]: the pools and the sandboxes in use *)
Definition note_claim (protect : json → outcome bool) (acc : list string * list string) (claim : json)
    : outcome (list string * list string) :=
  rid ← owner_of claim;
  kept ← protect rid;
  if negb kept then Ret acc
  else
    ref ← claim_pool claim;
    sb ← claimed_sandbox claim;
    Ret (add_if_true ref acc.1, add_if_true sb acc.2).

(** One pool: the templates and the pod selectors in use *)
Definition note_pool (pools : list string) (acc : list string * list string) (pool : json)
    : outcome (list string * list string) :=
  n ← meta_name pool;
  if negb (in_names n pools) then Ret acc
  else
    ref ← pool_template pool;
    sel ← pool_selector pool;
    Ret (add_if_true ref acc.1, add_if_true sel acc.2).

Definition or_fleet_error {A} (m : M W A) : M W A := except (λ _, Some (raise FleetError)) m.

Record protection := Protect { pr_pools : list string; pr_templates : list string; pr_selectors : list string }.

Definition in_use_elsewhere (protect : json → outcome bool) (index : option (list (string * json))) : M W protection :=
  '(pools, claimed) ← or_fleet_error (l ← list_of rs CLAIM None; lift (fold_all (note_claim protect) ([], []) l));
  '(templates, selectors) ←
    match pools with
    | [] => mret ([], [])
    | _ => or_fleet_error (l ← list_of rs WARMPOOLS None; lift (fold_all (note_pool pools) ([], []) l))
    end;
  selectors ←
    match claimed with
    | [] => mret selectors
    | _ => or_fleet_error
             (idx ← match index with Some i => mret i | None => sandbox_selector_index end;
              mret (add_selectors idx claimed selectors))
    end;
  mret (Protect pools templates selectors).

(** ** Deleting *)

(** The pods of the protected selectors; [None] when they cannot be listed *)
Fixpoint kept_pods (keep selectors : list string) : M W (option (list string)) :=
  match selectors with
  | [] => mret (Some keep)
  | sel :: rest =>
      l ← swallow None (l ← list_pod_names ns sel; mret (Some l));
      match l with
      | None => mret None
      | Some l => kept_pods (union keep l) rest
      end
  end.

Fixpoint delete_unkept (keep : list string) (deleted kept : Z) (pods : list string) : M W (Z * Z) :=
  match pods with
  | [] => mret (deleted, kept)
  | p :: rest =>
      if decide (p ∈ keep) then delete_unkept keep deleted (kept + 1) rest
      else
        ok ← swallow false (_ ← delete_pod p ns; mret true);
        delete_unkept keep (if ok : bool then deleted + 1 else deleted) kept rest
  end.

Definition delete_pods_except (selector : string) (protected : list string) : M W (Z * Z) :=
  keep ← kept_pods [] (sorted str_lt protected);
  match keep with
  | None => mret (0, 0)
  | Some keep =>
      pods ← swallow None (l ← list_pod_names ns selector; mret (Some l));
      match pods with
      | None => mret (0, 0)
      | Some pods => delete_unkept keep 0 0 pods
      end
  end.

(** [_sweep] *)
Definition sweep (r : resource) (selector : string) (keep : list string) : M W Z :=
  names ← list_names rs r (Some selector);
  let names := filter (λ n, n ∉ keep) names in
  _ ← for_each names (λ n, swallow () (delete_named rs r n None));
  mret (Z.of_nat (length names)).

(** The pods: selectors swept, pods deleted one by one, pods kept *)
Fixpoint sweep_pods (pod_selector : string) (protected : list string) (swept one_by_one kept : Z)
    (selectors : list string) : M W (Z * Z * Z) :=
  match selectors with
  | [] => mret (swept, one_by_one, kept)
  | sel :: rest =>
      if (sel =? pod_selector)%string && negb (bool_decide (protected = [])) then
        '(d, k) ← delete_pods_except sel protected;
        sweep_pods pod_selector protected swept (one_by_one + d) (kept + k) rest
      else
        ok ← swallow false (_ ← delete_pods ns sel; mret true);
        sweep_pods pod_selector protected (if ok : bool then swept + 1 else swept) one_by_one kept rest
  end.

Definition pods_text (protected : list string) (swept one_by_one kept : Z) : string :=
  let t := "requested (force) via " +:+ pretty swept +:+ " selector(s)" in
  match protected with
  | [] => t
  | _ => t +:+ ", " +:+ pretty one_by_one +:+ " one by one, " +:+ pretty kept +:+ " kept for other runs"
  end.

Definition run_labelled (l run_id : string) : string := l +:+ "=" +:+ run_id.

(** [_reap_with_cluster] after the protection is known *)
Definition reap_protected (run_id : option string) (with_pods : bool) (p : protection)
    (index : option (list (string * json))) : M W (list (string * json)) :=
  let selector := match run_id with Some r => run_labelled RUN_ID_LABEL r | None => managed_selector end in
  let pod_selector := match run_id with Some r => run_labelled POD_RUN_ID_LABEL r | None => selector end in
  let counts := match pr_pools p with
                | [] => []
                | _ => [("kept_in_use", JInt (Z.of_nat (length (pr_pools p) + length (pr_templates p))))]
                end in
  '(pod_selectors, sandbox_names) ← sandbox_links selector (pr_pools p) index;
  claims ← sweep CLAIM selector [];
  pools ← sweep WARMPOOLS selector (pr_pools p);
  labelled ← list_sandboxes rs (Some selector);
  let doomed := sorted str_lt (union (union [] labelled) sandbox_names) in
  _ ← for_each doomed (λ n, swallow () (delete_sandbox rs n));
  templates ← sweep TEMPLATES selector (pr_templates p);
  let counts := counts ++ [("claims", JInt claims); ("warmpools", JInt pools);
                           ("sandboxes", JInt (Z.of_nat (length doomed))); ("templates", JInt templates)] in
  if with_pods then
    '(swept, one_by_one, kept) ← sweep_pods pod_selector (pr_selectors p) 0 0 0 (pod_selector :: sorted str_lt pod_selectors);
    mret (counts ++ [("pods", JStr (pods_text (pr_selectors p) swept one_by_one kept))])
  else mret counts.

Definition reap_with_cluster (run_id : option string) (with_pods : bool) (protect : option (json → outcome bool))
    (given : option protection) (index : option (list (string * json))) : M W (list (string * json)) :=
  if bool_decide (run_id = Some EmptyString) then raise ValueError
  else
    p ← match given, protect with
        | Some p, _ => mret p
        | None, Some f => in_use_elsewhere f index
        | None, None => mret (Protect [] [] [])
        end;
    reap_protected run_id with_pods p index.

(** [rid != run_id] *)
Definition other_than (run_id : string) (rid : json) : outcome bool := Ret (negb (is_str rid run_id)).

Definition reap (run_id : option string) (with_pods all_managed : bool) : M W (list (string * json)) :=
  if all_managed then reap_with_cluster None with_pods None None None
  else match str_or run_id None with
       | None => raise ValueError
       | Some r => reap_with_cluster (Some r) with_pods (Some (other_than r)) None None
       end.

(** ** Orphans *)

Fixpoint note_kinds (now : datetime) (seen : list (string * orphan)) (kinds : list resource)
    : M W (list (string * orphan)) :=
  match kinds with
  | [] => mret seen
  | r :: rest =>
      l ← list_of rs r (Some managed_selector);
      seen ← lift (fold_all (note_object now) seen l);
      note_kinds now seen rest
  end.

Definition find_orphan_runs (alive : list string) (min_age : pyfloat) (now : datetime) : M W (list (string * orphan)) :=
  seen ← note_kinds now [] [CLAIM; WARMPOOLS; TEMPLATES];
  mret (filter (λ kv, (kv.1 ∉ alive) ∧ fle min_age (or_newest_age kv.2) = true) seen).

(** [claim_rid not in orphans] *)
Definition not_orphan (orphans : list (string * orphan)) (rid : json) : outcome bool :=
  match rid with
  | JStr s => Ret (bool_decide (dget s orphans = None))
  | JList _ | JObj _ => Raise TypeError
  | _ => Ret true
  end.

Fixpoint reap_each (with_pods : bool) (p : protection) (index : list (string * json)) (rids : list string)
    : M W (list (string * list (string * json))) :=
  match rids with
  | [] => mret []
  | r :: rest =>
      c ← reap_with_cluster (Some r) with_pods None (Some p) (Some index);
      cs ← reap_each with_pods p index rest; mret ((r, c) :: cs)
  end.

(** The orphans found with [dry_run], else what was reaped of each *)
Definition reap_orphans (alive : list string) (min_age : pyfloat) (now : datetime) (with_pods dry_run : bool)
    : M W (list (string * orphan) + list (string * list (string * json))) :=
  orphans ← find_orphan_runs alive min_age now;
  match orphans with
  | [] => mret (inr [])
  | _ =>
      if dry_run then mret (inl orphans)
      else
        index ← or_fleet_error sandbox_selector_index;
        p ← in_use_elsewhere (not_orphan orphans) (Some index);
        cs ← reap_each with_pods p index (sorted str_lt orphans.*1);
        mret (inr cs)
  end.
End reaper.

(** ** After a teardown ([fleet.py]) *)

(** The outcome of [_verify_cluster]; the text of an error is left out. *)
Inductive verification :=
  | Skipped (why : string)
  | VerifyFailed
  | Verified (counts : list (string * json)) (remaining : list (string * Z)).

Section verify.
Context {W : Type} `{Clock W} `{Clusters W} (pods_of : string → PodApi W).
Abbreviation FM := (M (fleet * W)).

Definition run_leftovers (fuel : nat) (c : cluster) : FM (list (string * Z)) :=
  f ← self;
  claims ← r_list c CLAIM (run_selector f);
  pools ← r_list c WARMPOOLS (run_selector f);
  tmpls ← r_list c TEMPLATES (run_selector f);
  pods ← r_count_pods fuel c (pod_run_selector f);
  mret [("claims", Z.of_nat (length claims)); ("warmpools", Z.of_nat (length pools));
        ("templates", Z.of_nat (length tmpls)); ("pods", pods)].

Definition VERIFY_SETTLE : list Z := [SECOND; 2 * SECOND; 4 * SECOND].

Fixpoint settle (fuel : nat) (c : cluster) (remaining : list (string * Z)) (delays : list Z)
    : FM (list (string * Z)) :=
  match delays with
  | [] => mret remaining
  | d :: rest =>
      if forallb (λ kv, kv.2 =? 0) remaining then mret remaining
      else _ ← world (do_sleep d); remaining ← run_leftovers fuel c; settle fuel c remaining rest
  end.

Definition verify_cluster (fuel : nat) (c : cluster) : FM verification :=
  f ← self;
  if f_shared f then mret (Skipped "shared run id: the reaper would reach other processes")
  else if fc_adopt_existing (f_config f)
  then mret (Skipped "adopt_existing: adopted pools are not this run's to reap")
  else if decide ((cl_name c, cl_namespace c) ∈ f_deleted_ns f)
  then mret (Skipped ("namespace " +:+ cl_namespace c +:+ " was deleted"))
  else
    except (λ _, Some (mret VerifyFailed))
      (pods ← r_count_pods fuel c (pod_run_selector f);
       counts ← world (@reap W (k8s_of (cl_name c)) (pods_of (cl_name c))
                         (new_resources (cl_namespace c) DEFAULT_LABELS) (Some (f_run_id f)) true false);
       let counts := match dget "pods" counts with
                     | None => dset "error" (JStr "pod delete-collection failed; see the reaper log") counts
                     | Some _ => counts
                     end in
       let counts := dset "pods" (JInt pods) counts in
       remaining ← run_leftovers fuel c;
       remaining ← settle fuel c remaining VERIFY_SETTLE;
       mret (Verified counts remaining)).

Fixpoint verify_clusters (fuel : nat) (cs : list cluster) : FM (list (string * verification)) :=
  match cs with
  | [] => mret []
  | c :: cs' => v ← verify_cluster fuel c; rest ← verify_clusters fuel cs'; mret ((cl_name c, v) :: rest)
  end.

Definition verify_teardown (fuel : nat) : FM (list (string * verification)) :=
  f ← self; if negb (f_torndown f) then raise FleetError else verify_clusters fuel (f_registry f).*2.
End verify.
