(* ===== verification/RlReaperProofs.v ===== *)
(** What the reaper spares: theorems on [RlReaper]. *)

From Stdlib Require Import Ascii String ZArith QArith Lia.
From stdpp Require Import base option list strings sets pretty.
From S2P Require Import Prelude Hoare Float Json PyList PyText IpAddress Models Utils World K8sHelper DateTime Budget Snapshots RlResources RlConfig RlHandles RlFleet RlOwnership RlSim RlReaper.

#[local] Open Scope Z_scope.

(** ** Names *)

Lemma add_name_elem n m l : m ∈ add_name n l ↔ m = n ∨ m ∈ l.
Proof. unfold add_name. case_decide; [naive_solver|]. rewrite elem_of_app, list_elem_of_singleton. tauto. Qed.
Lemma union_elem n a b : n ∈ union a b ↔ n ∈ a ∨ n ∈ b.
Proof.
  unfold union. revert a. induction b as [|x b IH]; intros a; cbn; [by rewrite elem_of_nil; tauto|].
  rewrite IH, add_name_elem, elem_of_cons. tauto.
Qed.
Lemma add_if_true_mono v m l : m ∈ l → m ∈ add_if_true v l.
Proof. unfold add_if_true. case_match; [|done]. rewrite add_name_elem. by right. Qed.
Lemma add_if_true_new n l : n ≠ EmptyString → n ∈ add_if_true (JStr n) l.
Proof. intros Hn. unfold add_if_true. destruct n; [done|]. apply add_name_elem. by left. Qed.
Lemma add_if_true_inv v m l : m ∈ add_if_true v l → m ∈ l ∨ m = py_str v ∧ truthy v = true.
Proof. unfold add_if_true. destruct (truthy v); [|by left]. rewrite add_name_elem. tauto. Qed.

Lemma add_selectors_mono index claimed sels m : m ∈ sels → m ∈ add_selectors index claimed sels.
Proof.
  unfold add_selectors. revert sels. induction claimed as [|n claimed IH]; intros sels Hm; cbn; [done|].
  by apply IH, add_if_true_mono.
Qed.
Lemma add_selectors_new index claimed sels n m :
  n ∈ claimed → dget n index = Some (JStr m) → m ≠ EmptyString → m ∈ add_selectors index claimed sels.
Proof.
  unfold add_selectors. revert sels. induction claimed as [|x claimed IH]; intros sels Hn Hg Hm; [by apply not_elem_of_nil in Hn|].
  apply elem_of_cons in Hn as [<-|Hn]; [|by apply IH]. cbn. rewrite Hg. by apply add_selectors_mono, add_if_true_new.
Qed.
Lemma add_selectors_inv index claimed sels m :
  m ∈ add_selectors index claimed sels → m ∈ sels ∨ ∃ n v, dget n index = Some v ∧ m = py_str v.
Proof.
  unfold add_selectors. revert sels. induction claimed as [|x claimed IH]; intros sels; cbn; [by left|].
  intros [Hm|?]%IH; [|by right]. apply add_if_true_inv in Hm as [?|[-> Ht]]; [by left|right].
  destruct (dget x index) as [v|] eqn:E; [|done]. by exists x, v.
Qed.

(** ** What was deleted *)

Inductive deletion :=
  | DelObject (r : resource) (name : string)
  | DelPod (name : string)
  | DelPods (selector : string).

#[global] Instance deletion_eq_dec : EqDecision deletion.
Proof. solve_decision. Defined.

(** The deletes this process asked for, in order; reading deletes nothing. *)
Class Deletions (W : Type) `{K8sApi W} `{PodApi W} := {
  deleted : W → list deletion;
  del_get : ∀ r ns n w, deleted (get_object r ns n w).2 = deleted w;
  del_list : ∀ r ns sel w, deleted (list_objects r ns sel w).2 = deleted w;
  del_list_pods : ∀ ns sel w, deleted (list_pod_names ns sel w).2 = deleted w;
  del_object : ∀ r ns n uid w, deleted (delete_object r ns n uid w).2 = deleted w ++ [DelObject r n];
  del_pod : ∀ n ns w, deleted (delete_pod n ns w).2 = deleted w ++ [DelPod n];
  del_pods : ∀ ns sel w, deleted (delete_pods ns sel w).2 = deleted w ++ [DelPods sel];
}.

(** A pod that no list of the selector leaves out *)
Definition always_listed {W} `{PodApi W} (rs : resources) (sel pod : string) : Prop :=
  ∀ w l w', list_pod_names (rs_namespace rs) sel w = (Ret l, w') → pod ∈ l.

Lemma kept_pods_keeps {W} `{PodApi W} rs keep sels w keep' w' :
  kept_pods rs keep sels w = (Ret (Some keep'), w') →
  ∀ n, n ∈ keep ∨ (∃ sel, sel ∈ sels ∧ always_listed rs sel n) → n ∈ keep'.
Proof.
  revert keep w. induction sels as [|sel sels IH]; intros keep w E n Hn; cbn in E.
  - apply mret_inv in E as [[= ->] _]. destruct Hn as [|(s & Hs & _)]; [done|by apply not_elem_of_nil in Hs].
  - apply bind_ret_inv in E as ([l|] & w1 & E1 & E); [|by apply mret_inv in E as [? _]].
    unfold swallow in E1. apply except_ret_inv in E1 as [E1|(e & k & s1 & _ & [= <-] & E1)]; [|by apply mret_inv in E1 as [? _]].
    apply bind_ret_inv in E1 as (l' & w2 & E1 & E2). apply mret_inv in E2 as [[= ->] _].
    apply (IH _ _ E). rewrite union_elem. destruct Hn as [|(s & Hs & Hl)]; [by left; left|].
    apply elem_of_cons in Hs as [->|Hs]; [left; right; by eapply Hl|right; by exists s].
Qed.

Section spares.
Context {W : Type} `{Hk : K8sApi W} `{Hp : PodApi W} `{!Deletions W}.
Context (rs : resources) (ok : deletion → Prop).

(** Every delete is one of those *)
Definition only (w w' : W) : Prop := ∃ new, deleted w' = deleted w ++ new ∧ Forall ok new.

#[global] Instance only_preorder : PreOrder only.
Proof.
  split.
  - intros w. exists []. by rewrite app_nil_r.
  - intros w1 w2 w3 (n1 & E1 & F1) (n2 & E2 & F2). exists (n1 ++ n2). rewrite E2, E1, app_assoc.
    split; [done|]. by apply Forall_app.
Qed.

Lemma only_same w w' : deleted w' = deleted w → only w w'.
Proof. intros E. exists []. by rewrite E, app_nil_r. Qed.
Lemma only_one w w' d : deleted w' = deleted w ++ [d] → ok d → only w w'.
Proof. intros E Hd. exists [d]. by repeat constructor. Qed.

Lemma list_objects_only r n sel w : moves only (list_objects r n sel) w.
Proof. apply only_same, del_list. Qed.
Lemma list_pod_names_only n sel w : moves only (list_pod_names n sel) w.
Proof. apply only_same, del_list_pods. Qed.
Lemma delete_object_only r n name uid w : ok (DelObject r name) → moves only (delete_object r n name uid) w.
Proof. intros Hd. eapply only_one; [apply del_object|done]. Qed.
Lemma delete_pod_only n name w : ok (DelPod name) → moves only (delete_pod name n) w.
Proof. intros Hd. eapply only_one; [apply del_pod|done]. Qed.
Lemma delete_pods_only n sel w : ok (DelPods sel) → moves only (delete_pods n sel) w.
Proof. intros Hd. eapply only_one; [apply del_pods|done]. Qed.
#[local] Hint Resolve list_objects_only list_pod_names_only delete_object_only delete_pod_only delete_pods_only : moves.

Ltac reads := moves_with ltac:(fun _ => progress unfold swallow, or_fleet_error).

Lemma list_of_only r sel w : moves only (list_of rs r sel) w.
Proof. unfold list_of. reads. Qed.
#[local] Hint Resolve list_of_only : moves.
Lemma list_names_only r sel w : moves only (list_names rs r sel) w.
Proof. unfold list_names. reads. Qed.
Lemma index_only w : moves only (sandbox_selector_index rs) w.
Proof. unfold sandbox_selector_index. reads. Qed.
#[local] Hint Resolve list_names_only index_only : moves.
Lemma members_only acc sels w : moves only (members rs acc sels) w.
Proof. revert acc w. induction sels as [|sel sels IH]; intros acc w; cbn [members]; reads. Qed.
#[local] Hint Resolve members_only : moves.
Lemma sandbox_links_only sel skip index w : moves only (sandbox_links rs sel skip index) w.
Proof. unfold sandbox_links. reads. Qed.
Lemma in_use_elsewhere_only protect index w : moves only (in_use_elsewhere rs protect index) w.
Proof. unfold in_use_elsewhere. reads. Qed.
#[local] Hint Resolve sandbox_links_only in_use_elsewhere_only : moves.
(** *** A sweep keeps what is protected *)

Context (p : protection) (linked : string → Prop).
Hypothesis other_ok : ∀ r n, r ≠ WARMPOOLS → r ≠ TEMPLATES → ok (DelObject r n).
Hypothesis pools_ok : ∀ n, n ∉ pr_pools p → ok (DelObject WARMPOOLS n).
Hypothesis templates_ok : ∀ n, n ∉ pr_templates p → ok (DelObject TEMPLATES n).
(** A pod goes by its name when the lists of the protected selectors do not name it. *)
Hypothesis pod_ok : ∀ n, (∀ sel, sel ∈ pr_selectors p → ¬ always_listed rs sel n) → ok (DelPod n).
(** Pods go by a selector when nothing is protected, or when it is one of those that
    [sandbox_links] finds. *)
Hypothesis pods_ok : ∀ sel, pr_selectors p = [] ∨ linked sel → ok (DelPods sel).

Lemma for_each_only {A} (l : list A) (f : A → M W ()) w :
  (∀ a w, a ∈ l → moves only (f a) w) → moves only (for_each l f) w.
Proof.
  revert w. induction l as [|a l IH]; intros w Hf; cbn [for_each]; [apply moves_ret; apply _|].
  apply moves_bind; [apply _|apply Hf; constructor|]. intros ? ? _. apply IH. intros. apply Hf. by constructor.
Qed.

Lemma delete_named_only r n uid w : ok (DelObject r n) → moves only (delete_named rs r n uid) w.
Proof. intros Hd. unfold delete_named. reads. Qed.

Lemma sweep_only r sel keep w :
  (∀ n, n ∉ keep → ok (DelObject r n)) → moves only (sweep rs r sel keep) w.
Proof.
  intros Hd. unfold sweep. apply moves_bind; [apply _|reads|]. intros names w1 _.
  apply moves_bind; [apply _| |intros; apply moves_ret; apply _]. apply for_each_only. intros n w2 Hn.
  apply list_elem_of_filter in Hn as [Hn _]. reads. by apply delete_named_only, Hd.
Qed.

Lemma delete_unkept_only keep d k pods w :
  (∀ n, n ∉ keep → ok (DelPod n)) → moves only (delete_unkept rs keep d k pods) w.
Proof.
  intros Hok. revert d k w. induction pods as [|x pods IH]; intros d k w; cbn [delete_unkept]; reads.
Qed.
Lemma kept_pods_only keep sels w : moves only (kept_pods rs keep sels) w.
Proof. revert keep w. induction sels as [|sel sels IH]; intros keep w; cbn [kept_pods]; reads. Qed.
#[local] Hint Resolve kept_pods_only : moves.

Lemma delete_pods_except_only sel w : moves only (delete_pods_except rs sel (pr_selectors p)) w.
Proof using pod_ok.
  unfold delete_pods_except. apply moves_bind; [apply _|apply kept_pods_only|]. intros [keep|] w1 E; [|reads].
  assert (∀ n, n ∉ keep → ok (DelPod n)) as Hkept.
  { intros n Hn. apply pod_ok. intros s Hs Hl. apply Hn.
    apply (kept_pods_keeps rs _ _ _ _ _ E). right. exists s. by rewrite sorted_perm. }
  apply moves_bind; [apply _|reads|]. intros [pods|] w2 _; [by apply delete_unkept_only|reads].
Qed.

Lemma sweep_pods_only psel a b c sels w :
  (∀ sel, sel ∈ sels → sel = psel ∨ linked sel) → moves only (sweep_pods rs psel (pr_selectors p) a b c sels) w.
Proof using pod_ok pods_ok.
  revert a b c w. induction sels as [|sel sels IH]; intros a b c w Hs; cbn [sweep_pods]; [reads|].
  assert (∀ sel', sel' ∈ sels → sel' = psel ∨ linked sel') as Hs' by (intros; apply Hs; by right).
  destruct ((sel =? psel)%string && _) eqn:E.
  - apply moves_bind; [apply _|apply delete_pods_except_only|]. intros [d k] w1 _. by apply IH.
  - apply moves_bind; [apply _| |intros; by apply IH]. reads. apply delete_pods_only, pods_ok.
    destruct (Hs sel ltac:(left)) as [->|]; [|by right]. rewrite String.eqb_refl in E. cbn in E.
    apply negb_false_iff, bool_decide_eq_true in E. by left.
Qed.

Lemma reap_protected_only run_id with_pods index w :
  (∀ sel skip w1 links w2, sandbox_links rs sel skip index w1 = (Ret links, w2) → ∀ s, s ∈ links.1 → linked s) →
  moves only (reap_protected rs run_id with_pods p index) w.
Proof using other_ok pools_ok templates_ok pod_ok pods_ok.
  intros Hlinked. unfold reap_protected, list_sandboxes.
  apply moves_bind; [apply _|apply sandbox_links_only|]. intros [sels names] w1 E. specialize (Hlinked _ _ _ _ _ E). cbn in Hlinked.
  reads; try (apply sweep_only; auto; fail).
  all: try (apply sweep_pods_only; intros s Hs; apply elem_of_cons in Hs as [->|Hs]; [by left|right];
    apply Hlinked; by rewrite sorted_perm in Hs).
  all: try (apply sweep_only; intros n Hn; by apply other_ok).
  all: apply delete_named_only; by apply other_ok.
Qed.
End spares.

(** ** What is in use *)

Lemma note_claim_mono protect acc claim acc' n :
  note_claim protect acc claim = Ret acc' → (n ∈ acc.1 → n ∈ acc'.1) ∧ (n ∈ acc.2 → n ∈ acc'.2).
Proof.
  unfold note_claim. intros E. run_inv. case_match; [by simplify_eq|]. run_inv. simplify_eq. split; apply add_if_true_mono.
Qed.

Lemma note_claims_in_use protect acc l acc' :
  fold_all (note_claim protect) acc l = Ret acc' →
  (∀ n, (n ∈ acc.1 → n ∈ acc'.1) ∧ (n ∈ acc.2 → n ∈ acc'.2)) ∧
  ∀ claim o n, claim ∈ l → owner_of claim = Ret o → protect o = Ret true → n ≠ EmptyString →
    (claim_pool claim = Ret (JStr n) → n ∈ acc'.1) ∧ (claimed_sandbox claim = Ret (JStr n) → n ∈ acc'.2).
Proof.
  revert acc. induction l as [|c l IH]; intros acc E; cbn in E.
  - simplify_eq. split; [done|]. intros ? ? ? Hc. by apply not_elem_of_nil in Hc.
  - run_inv. destruct (IH _ E) as [Hm Hn]. split.
    { intros n. destruct (note_claim_mono _ _ _ _ n Hret), (Hm n). auto. }
    intros claim o n Hc Ho Hpr Hne. apply elem_of_cons in Hc as [->|Hc]; [|by eapply Hn].
    unfold note_claim in Hret. rewrite Ho in Hret. cbn in Hret. rewrite Hpr in Hret. cbn in Hret. run_inv. simplify_eq.
    destruct (Hm n) as [Hm1 Hm2]. cbn in Hm1, Hm2. split; intros E1;
      [rewrite E1 in Hret0; injection Hret0 as <-; apply Hm1|rewrite E1 in Hret1; injection Hret1 as <-; apply Hm2]; by apply add_if_true_new.
Qed.

Lemma note_pool_mono pools acc pool acc' n :
  note_pool pools acc pool = Ret acc' → (n ∈ acc.1 → n ∈ acc'.1) ∧ (n ∈ acc.2 → n ∈ acc'.2).
Proof.
  unfold note_pool. intros E. run_inv. case_match; [by simplify_eq|]. run_inv. simplify_eq. split; apply add_if_true_mono.
Qed.

Lemma note_pools_in_use pools acc l acc' :
  fold_all (note_pool pools) acc l = Ret acc' →
  (∀ n, (n ∈ acc.1 → n ∈ acc'.1) ∧ (n ∈ acc.2 → n ∈ acc'.2)) ∧
  ∀ pool n t, pool ∈ l → meta_name pool = Ret (JStr n) → n ∈ pools → t ≠ EmptyString →
    (pool_template pool = Ret (JStr t) → t ∈ acc'.1) ∧ (pool_selector pool = Ret (JStr t) → t ∈ acc'.2).
Proof.
  revert acc. induction l as [|c l IH]; intros acc E; cbn in E.
  - simplify_eq. split; [done|]. intros ? ? ? Hc. by apply not_elem_of_nil in Hc.
  - run_inv. destruct (IH _ E) as [Hm Hn]. split.
    { intros n. destruct (note_pool_mono _ _ _ _ n Hret), (Hm n). auto. }
    intros pool n t Hc Ho Hpr Hne. apply elem_of_cons in Hc as [->|Hc]; [|by eapply Hn].
    unfold note_pool in Hret. rewrite Ho in Hret. cbn in Hret. rewrite bool_decide_true in Hret by done. cbn in Hret.
    run_inv. simplify_eq. destruct (Hm t) as [Hm1 Hm2]. cbn in Hm1, Hm2.
    split; intros E1;
      [rewrite E1 in Hret0; injection Hret0 as <-; apply Hm1|rewrite E1 in Hret1; injection Hret1 as <-; apply Hm2]; by apply add_if_true_new.
Qed.

Section theorems.
Context {W : Type} `{Hk : K8sApi W} `{Hp : PodApi W} `{!Deletions W}.
Context (rs : resources).

(** A template that a listed pool of that name points at *)
Definition template_in_use (n : string) (w : W) (t : string) : Prop :=
  ∃ pools w' pool, list_of rs WARMPOOLS None w = (Ret pools, w') ∧ pool ∈ pools ∧ meta_name pool = Ret (JStr n) ∧
    pool_template pool = Ret (JStr t) ∧ t ≠ EmptyString.

(** A selector of pods of that pool, or of the sandbox that the claim is bound to *)
Definition selector_in_use (claim : json) (n : string) (index : list (string * json)) (w : W) (sel : string) : Prop :=
  sel ≠ EmptyString ∧
  ((∃ pools w' pool, list_of rs WARMPOOLS None w = (Ret pools, w') ∧ pool ∈ pools ∧ meta_name pool = Ret (JStr n) ∧
      pool_selector pool = Ret (JStr sel)) ∨
   ∃ sb, sb ≠ EmptyString ∧ claimed_sandbox claim = Ret (JStr sb) ∧ dget sb index = Some (JStr sel)).

Lemma in_use_elsewhere_protects protect index w claims w1 claim o n p w' :
  list_of rs CLAIM None w = (Ret claims, w1) → claim ∈ claims → owner_of claim = Ret o → protect o = Ret true →
  claim_pool claim = Ret (JStr n) → n ≠ EmptyString → in_use_elsewhere rs protect index w = (Ret p, w') →
  n ∈ pr_pools p ∧ (∀ t, template_in_use n w1 t → t ∈ pr_templates p) ∧
  ∀ idx sel, index = Some idx → selector_in_use claim n idx w1 sel → sel ∈ pr_selectors p.
Proof.
  intros Hl Hc Ho Hpr Hn Hne E. unfold in_use_elsewhere in E. run_inv. destruct a as [pools claimed]. cbn in *.
  unfold or_fleet_error in Hrun. apply except_ret_inv in Hrun as [Hrun|(e & k & s1' & _ & [= <-] & ?)]; [|done].
  run_inv. rewrite Hl in Hrun1. simplify_eq. apply note_claims_in_use in Hrun as [_ Hin].
  destruct (Hin claim o n Hc Ho Hpr Hne) as [Hin1 _]. specialize (Hin1 Hn). cbn in Hin1.
  destruct a as [templates selectors]. run_inv. cbn.
  destruct pools as [|p0 pools]; [by apply not_elem_of_nil in Hin1|].
  unfold or_fleet_error in Hrun0. apply except_ret_inv in Hrun0 as [Hr|(e & k & s2 & _ & [= <-] & ?)]; [|done].
  run_inv. apply note_pools_in_use in Hr as [_ Hin2]. split; [done|]. split.
  - intros t (ps & w2 & pool & Hlp & Hpool & Hm & Ht & Hte). rewrite Hlp in Hrun0. simplify_eq.
    by eapply Hin2.
  - intros idx sel -> (Hs & [(ps & w2 & pool & Hlp & Hpool & Hm & Hsel)|(sb & Hsb & Hcl & Hg)]).
    + rewrite Hlp in Hrun0. simplify_eq. assert (sel ∈ selectors) as Hi by by eapply Hin2.
      destruct claimed; run_inv; [done|]. unfold or_fleet_error in Hrun.
      apply except_ret_inv in Hrun as [Hr|(e & k & s3 & _ & [= <-] & ?)]; [|done]. run_inv. by apply add_selectors_mono.
    + destruct (Hin claim o sb Hc Ho Hpr Hsb) as [_ Hin3]. specialize (Hin3 Hcl). cbn in Hin3.
      destruct claimed as [|c0 claimed]; [by apply not_elem_of_nil in Hin3|]. run_inv. unfold or_fleet_error in Hrun.
      apply except_ret_inv in Hrun as [Hr|(e & k & s3 & _ & [= <-] & ?)]; [|done]. run_inv. by eapply add_selectors_new.
Qed.

(** C20. What a claim of another run uses is not reaped: when the claims of the namespace
    hold one that is not the reaped run's, neither the pool it points at nor the template
    of that pool is deleted, even though they may carry the reaped run's label, and
    whatever else fails. *)
Theorem reap_spares_what_is_in_use run with_pods w claims w1 claim o n :
  run ≠ EmptyString → list_of rs CLAIM None w = (Ret claims, w1) → claim ∈ claims →
  owner_of claim = Ret o → is_str o run = false → claim_pool claim = Ret (JStr n) → n ≠ EmptyString →
  ∃ new, deleted (reap rs (Some run) with_pods false w).2 = deleted w ++ new ∧
    (DelObject WARMPOOLS n ∉ new) ∧ ∀ t, template_in_use n w1 t → DelObject TEMPLATES t ∉ new.
Proof.
  intros Hr Hl Hc Ho Hother Hn Hne.
  set (ok d := d ≠ DelObject WARMPOOLS n ∧ ∀ t, template_in_use n w1 t → d ≠ DelObject TEMPLATES t).
  assert (moves (only ok) (reap rs (Some run) with_pods false) w) as (new & E & Hnew).
  { unfold reap. assert (str_or (Some run) None = Some run) as -> by by destruct run.
    unfold reap_with_cluster. rewrite bool_decide_false by congruence.
    apply moves_bind; [apply _|by apply in_use_elsewhere_only|]. intros p w2 Ep.
    eapply in_use_elsewhere_protects in Ep as (Hp1 & Hp2 & _); [|done..|by unfold other_than; rewrite Hother|done|done].
    apply (reap_protected_only _ _ _ (λ _, True)); [|intros m Hm; split; [congruence|done]| |done..].
    - intros r' m Hr1 Hr2. split; [congruence|]. intros t _. congruence.
    - intros m Hm. split; [done|]. intros t Ht [= ->]. by apply Hm, Hp2. }
  exists new. rewrite Forall_forall in Hnew. split; [done|]. split.
  - intros Hin. by destruct (Hnew _ Hin).
  - intros t Ht Hin. destruct (Hnew _ Hin) as [_ Hd]. by eapply Hd.
Qed.

(** When the claims of the namespace cannot be listed nothing is deleted. *)
Theorem reap_unsure_deletes_nothing run with_pods w e w1 :
  run ≠ EmptyString → list_of rs CLAIM None w = (Raise e, w1) →
  reap rs (Some run) with_pods false w = (Raise FleetError, w1) ∧ deleted w1 = deleted w.
Proof.
  intros Hr Hl. split.
  - unfold reap. assert (str_or (Some run) None = Some run) as -> by by destruct run.
    unfold reap_with_cluster. rewrite bool_decide_false by congruence. apply bind_raise.
    unfold in_use_elsewhere. apply bind_raise. unfold or_fleet_error.
    by erewrite except_caught; [|by apply bind_raise|].
  - pose proof (list_of_only rs (λ _, False) CLAIM None w) as (new & E & Hnew). rewrite Hl in E. cbn in E.
    destruct new as [|d new]; [by rewrite app_nil_r in E|]. by apply Forall_cons in Hnew as [[] _].
Qed.

(** *** Counts *)

Lemma reap_protected_counts run_id p index w counts w' :
  reap_protected rs run_id true p index w = (Ret counts, w') →
  is_Some (dget "pods" counts) ∧ dget "error" counts = None.
Proof.
  unfold reap_protected. intros E. run_inv. destruct a as [sels names]. run_inv. destruct a4 as [[x y] z]. run_inv.
  destruct (pr_pools p); cbn; eauto.
Qed.

Lemma reap_counts run_id all w counts w' :
  reap rs run_id true all w = (Ret counts, w') → is_Some (dget "pods" counts) ∧ dget "error" counts = None.
Proof.
  unfold reap, reap_with_cluster. intros E. destruct all.
  - rewrite bool_decide_false in E by done. run_inv. by eapply reap_protected_counts.
  - destruct (str_or run_id None); [|done]. case_bool_decide; [done|]. run_inv. by eapply reap_protected_counts.
Qed.

(** *** Orphans *)

Lemma reap_each_runs with_pods p index rids w cs w' :
  reap_each rs with_pods p index rids w = (Ret cs, w') → cs.*1 = rids.
Proof.
  revert w cs. induction rids as [|r rids IH]; intros w cs E; cbn in E; run_inv; [done|]. cbn. f_equal. by eapply IH.
Qed.

Lemma find_orphan_runs_dead alive min_age now w orphans w' r :
  find_orphan_runs rs alive min_age now w = (Ret orphans, w') → r ∈ alive → dget r orphans = None.
Proof.
  unfold find_orphan_runs. intros E Hr. run_inv. apply dget_None. intros Hin.
  apply list_elem_of_fmap in Hin as ([k v] & -> & Hin). apply list_elem_of_filter in Hin as [[? _] _]. done.
Qed.

(** The label of the pods of a run *)
Definition pods_of_run (run : string) : string := run_labelled POD_RUN_ID_LABEL run.
(** The selectors in the status of pools and sandboxes are the controller's; none is the
    label of the pods of a run. *)
Definition own_selectors (index : list (string * json)) : Prop :=
  (∀ sel w l w' pool v run, list_of rs WARMPOOLS sel w = (Ret l, w') → pool ∈ l → pool_selector pool = Ret v →
     py_str v ≠ pods_of_run run) ∧
  ∀ n v run, dget n index = Some v → py_str v ≠ pods_of_run run.

Lemma link_pools_inv skip acc l sel :
  sel ∈ fold_until (link_pool skip) acc l → sel ∈ acc ∨ ∃ pool v, pool ∈ l ∧ pool_selector pool = Ret v ∧ sel = py_str v.
Proof.
  revert acc. induction l as [|pool l IH]; intros acc; cbn; [by left|].
  destruct (link_pool skip acc pool) as [acc'| |] eqn:E; [|by left..]. intros [Hs|(x & v & Hx & Hv)]%IH.
  2: { right. exists x, v. split; [by right|done]. }
  unfold link_pool in E. run_inv. case_match; simplify_eq; [by left|]. run_inv. simplify_eq.
  apply add_if_true_inv in Hs as [?|[-> _]]; [by left|right]. exists pool. eexists. split; [by left|done].
Qed.
Lemma sandbox_links_own index sel skip w links w' :
  own_selectors index → sandbox_links rs sel skip (Some index) w = (Ret links, w') →
  ∀ s, s ∈ links.1 → ∀ run, s ≠ pods_of_run run.
Proof.
  intros [Hpools Hindex] E s Hs run. unfold sandbox_links in E.
  apply bind_ret_inv in E as (sels & w1 & E1 & E). apply bind_ret_inv in E as (names & w2 & _ & E).
  apply bind_ret_inv in E as (claimed & w3 & _ & E). apply bind_ret_inv in E as (sels' & w4 & E4 & E).
  apply mret_inv in E as [<- _]. cbn in Hs.
  assert (∀ s, s ∈ sels → s ≠ pods_of_run run) as Hsels.
  { intros s' Hs'. unfold swallow in E1. apply except_ret_inv in E1 as [E1|(e & k & s1 & _ & [= <-] & E1)].
    2: { apply mret_inv in E1 as [<- _]. by apply not_elem_of_nil in Hs'. }
    apply bind_ret_inv in E1 as (l & w5 & E1 & E5). apply mret_inv in E5 as [<- _].
    apply link_pools_inv in Hs' as [Hn|(pool & v & Hp1 & Hv & ->)]; [by apply not_elem_of_nil in Hn|]. by eapply Hpools. }
  destruct claimed as [|c claimed]; [apply mret_inv in E4 as [<- _]; by apply Hsels|].
  unfold swallow in E4. apply except_ret_inv in E4 as [E4|(e & k & s1 & _ & [= <-] & E4)]; [|apply mret_inv in E4 as [<- _]; by apply Hsels].
  injection E4 as <- _. apply (add_selectors_inv index (c :: claimed)) in Hs as [?|(n & v & Hg & ->)]; [by apply Hsels|by eapply Hindex].
Qed.

Lemma reap_each_only ok linked with_pods p index rids w :
  (∀ r n, r ≠ WARMPOOLS → r ≠ TEMPLATES → ok (DelObject r n)) →
  (∀ n, n ∉ pr_pools p → ok (DelObject WARMPOOLS n)) → (∀ n, n ∉ pr_templates p → ok (DelObject TEMPLATES n)) →
  (∀ n, (∀ sel, sel ∈ pr_selectors p → ¬ always_listed rs sel n) → ok (DelPod n)) →
  (∀ sel, pr_selectors p = [] ∨ linked sel → ok (DelPods sel)) →
  (∀ sel skip w1 links w2, sandbox_links rs sel skip (Some index) w1 = (Ret links, w2) → ∀ s, s ∈ links.1 → linked s) →
  moves (only ok) (reap_each rs with_pods p index rids) w.
Proof.
  intros H1 H2 H3 H4 H5 H6. revert w. induction rids as [|r rids IH]; intros w; cbn [reap_each]; moves.
  unfold reap_with_cluster. moves. apply mret_inv in H as [<- ->]. by apply (reap_protected_only _ _ _ linked).
Qed.

Lemma find_orphan_runs_only ok alive min_age now w : moves (only ok) (find_orphan_runs rs alive min_age now) w.
Proof.
  unfold find_orphan_runs. moves. generalize [CLAIM; WARMPOOLS; TEMPLATES] ([] : list (string * orphan)).
  intros kinds. revert w. induction kinds as [|k kinds IH]; intros w seen; cbn [note_kinds]; moves. apply list_of_only.
Qed.

End theorems.

Section verify.
Context {W : Type} `{Clock W} `{Clusters W} (pods_of : string → PodApi W).

(** A check after a teardown never reports that pods could not be deleted: the reaper
    counts pods even when every forced delete failed, so the entry for that error, which
    looks for a missing count, is never made. *)
Theorem verify_never_reports_undeleted_pods fuel c s counts remaining s' :
  verify_cluster pods_of fuel c s = (Ret (Verified counts remaining), s') → dget "error" counts = None.
Proof.
  unfold verify_cluster. intros E. run_inv. repeat (case_match; [by apply mret_inv in E as [? _]|]).
  apply except_ret_inv in E as [E|(e & k & s1 & _ & [= <-] & E)]; [|by apply mret_inv in E as [? _]].
  run_inv. apply mret_inv in E as [[= <- _] _]. apply world_run_inv in Hrun0 as [Hr _].
  apply reap_counts in Hr as [[v ->] He]. by rewrite dget_dset_ne.
Qed.
End verify.

(** ** A namespace where two runs share a pool *)

Record yard := Yard {
  yd_objects : list (resource * json);
  yd_deleted : list deletion;
  (** lists of claims fail *)
  yd_deaf : bool;
}.

Definition object_of (name : string) (run : string) (spec : json) : json :=
  JObj [("metadata", JObj [("name", JStr name); ("labels", JObj [(RUN_ID_LABEL, JStr run)])]); ("spec", spec)].
Definition labelled (sel : option string) (o : json) : bool :=
  match sel with
  | None => true
  | Some s => (s =? managed_selector)%string ||
              match owner_of o with Ret (JStr r) => (s =? run_labelled RUN_ID_LABEL r)%string | _ => false end
  end.
Definition note_delete {A} (d : deletion) (o : outcome A) : M yard A := λ w,
  (o, Yard (yd_objects w) (yd_deleted w ++ [d]) (yd_deaf w)).

(** The status of a pool is the controller's. *)
Definition controlled (r : resource) (o : json) : json :=
  match o with
  | JObj d =>
      if bool_decide (r = WARMPOOLS) then
        let name := match meta_name o with Ret (JStr n) => n | _ => EmptyString end in
        JObj (dset "status" (JObj [("selector", JStr ("pool=" +:+ name))]) d)
      else o
  | o => o
  end.

#[local] Instance yard_api : K8sApi yard := {|
  create_object := λ _ _ body, mret body;
  get_object := λ _ _ _, raise (ApiException 404);
  delete_object := λ r _ n _, note_delete (DelObject r n) (Ret JNull);
  patch_object := λ _ _ _ body, mret body;
  list_objects := λ r _ sel w,
    if yd_deaf w && bool_decide (r = CLAIM) then (Raise (ApiException 500), w)
    else (Ret (JObj [("items", JList (controlled r <$> filter (λ o, labelled sel o = true)
                 (filter (λ x, x.1 = r) (yd_objects w)).*2))]), w);
  watch_stream := λ _ w, SEnd w;
|}.
#[local] Instance yard_pods : PodApi yard := {|
  list_pod_names := λ _ sel, mret (if (sel =? "pool=pool-2")%string then ["pod-2"] else ["pod-1"; "pod-2"]);
  delete_pod := λ n _, note_delete (DelPod n) (Ret ());
  delete_pods := λ _ sel, note_delete (DelPods sel) (Ret ());
|}.
#[local] Instance yard_deletions : Deletions yard.
Proof.
  refine {| deleted := yd_deleted |}; try done. intros r ns sel w. cbn. by case_match.
Defined.

(** The claim of [run2] uses a pool and a template that carry [run1]'s label. *)
Definition shared_yard (deaf : bool) : yard :=
  Yard [(CLAIM, object_of "claim-1" "run1" (JObj [("warmPoolRef", JObj [("name", JStr "pool-1")])]));
        (CLAIM, object_of "claim-2" "run2" (JObj [("warmPoolRef", JObj [("name", JStr "pool-2")])]));
        (WARMPOOLS, object_of "pool-1" "run1" (JObj [("sandboxTemplateRef", JObj [("name", JStr "tmpl-1")])]));
        (WARMPOOLS, object_of "pool-2" "run1" (JObj [("sandboxTemplateRef", JObj [("name", JStr "tmpl-2")])]));
        (TEMPLATES, object_of "tmpl-1" "run1" (JObj [])); (TEMPLATES, object_of "tmpl-2" "run1" (JObj []))] [] deaf.
Definition yard_rs : resources := new_resources "default" [].

Lemma reap_spares_what_is_in_use_witness :
  (∃ new, deleted (reap yard_rs (Some "run1") false false (shared_yard false)).2 = deleted (shared_yard false) ++ new ∧
    (DelObject WARMPOOLS "pool-2" ∉ new) ∧
    ∀ t, template_in_use yard_rs "pool-2" (shared_yard false) t → DelObject TEMPLATES t ∉ new) ∧
  deleted (reap yard_rs (Some "run1") false false (shared_yard false)).2 =
    [DelObject CLAIM "claim-1"; DelObject WARMPOOLS "pool-1"; DelObject TEMPLATES "tmpl-1"].
Proof.
  split; [|vm_compute; reflexivity].
  eapply (reap_spares_what_is_in_use yard_rs "run1" false (shared_yard false) _ (shared_yard false)
    (object_of "claim-2" "run2" (JObj [("warmPoolRef", JObj [("name", JStr "pool-2")])])) (JStr "run2"));
    [done|vm_compute; reflexivity|by right; left|reflexivity|reflexivity|reflexivity|done].
Defined.

Lemma reap_unsure_deletes_nothing_witness :
  reap yard_rs (Some "run1") true false (shared_yard true) = (Raise FleetError, shared_yard true) ∧
  deleted (shared_yard true) = deleted (shared_yard true).
Proof. eapply (reap_unsure_deletes_nothing yard_rs "run1" true (shared_yard true)); [done|reflexivity]. Defined.

Lemma yard_selectors : own_selectors yard_rs [].
Proof.
  split; [|done]. intros sel w l w' pool v run E Hpool Hsel. unfold list_of in E.
  apply bind_ret_inv in E as (objs & w1 & E1 & E). cbn in E1. rewrite andb_false_r in E1. injection E1 as <- <-.
  cbn in E. injection E as <- <-. apply list_elem_of_fmap in Hpool as (o & -> & _). unfold controlled in Hsel.
  destruct o as [| | | | | |d]; try done.
  rewrite bool_decide_true in Hsel by done. unfold pool_selector, get_dict in Hsel.
  assert (∀ x, py_get_def (JObj (dset "status" x d)) "status" (JObj []) = Ret x) as Hx
    by (intros; unfold py_get_def; by rewrite dget_dset_eq).
  rewrite Hx in Hsel. cbn in Hsel. injection Hsel as <-. done.
Qed.


Definition failing_pods (c : string) : PodApi sim := {|
  list_pod_names := λ _ _, mret [];
  delete_pod := λ _ _, raise (ApiException 500);
  delete_pods := λ _ _, raise (ApiException 500);
|}.

Lemma verify_never_reports_undeleted_pods_witness :
  ∃ s c counts remaining s', new_sim_fleet false (Some 2) None empty_sim = Some s ∧
  dget "east" (f_registry s.1) = Some c ∧
  verify_cluster failing_pods 5 c s = (Ret (Verified counts remaining), s') ∧ dget "error" counts = None.
Proof.
  eexists _, _, _, _, _. split; [vm_compute; reflexivity|]. split; [vm_compute; reflexivity|].
  assert (∀ s c counts remaining s', verify_cluster failing_pods 5 c s = (Ret (Verified counts remaining), s') →
    verify_cluster failing_pods 5 c s = (Ret (Verified counts remaining), s') ∧ dget "error" counts = None) as Hw.
  { intros s c counts remaining s' E. split; [done|].
    exact (verify_never_reports_undeleted_pods failing_pods 5 c s counts remaining s' E). }
  apply Hw; vm_compute; reflexivity.
Defined.
