(* ===== verification/RlFleetProofs.v ===== *)
(** What the fleet promises: the discovery of pools ([RlResources]), and the claims, the
    teardown, the waves, the circuit breaker and the batches of tasks of [RlFleet]. *)

From Stdlib Require Import Ascii String ZArith Lia.
From stdpp Require Import base option list strings sets.
From S2P Require Import Prelude Hoare Float Json PyList PyText IpAddress Models Utils World K8sHelper DateTime Budget BudgetProofs Snapshots RlResources RlConfig RlHandles RlFleet RlOwnership RlSim RlFleetOwnership.

#[local] Open Scope Z_scope.

(** ** Discovery *)

Lemma deeper_asym p q : deeper p q = true → deeper q p = true → False.
Proof.
  unfold deeper. rewrite !orb_true_iff, !andb_true_iff, !Z.ltb_lt, !Z.eqb_eq. intros [?|[? Hp]] [?|[? Hq]]; try lia.
  by rewrite (str_lt_asym _ _ Hp) in Hq.
Qed.
Lemma deeper_trans p q r : deeper p q = true → deeper q r = true → deeper p r = true.
Proof.
  unfold deeper. rewrite !orb_true_iff, !andb_true_iff, !Z.ltb_lt, !Z.eqb_eq. intros [?|[? Hp]] [?|[? Hq]]; try (left; lia).
  right. split; [lia|]. by eapply str_lt_trans.
Qed.
Lemma deeper_total p q : dp_pool p ≠ dp_pool q → deeper p q = false → deeper q p = true.
Proof.
  unfold deeper. intros Hne. rewrite orb_false_iff, andb_false_iff, orb_true_iff, andb_true_iff, !Z.ltb_lt, !Z.ltb_ge, !Z.eqb_eq, Z.eqb_neq.
  intros [Hle [Hd|Hs]]; [lia|]. destruct (decide (dp_replicas p = dp_replicas q)); [right|left; lia].
  split; [done|]. destruct (str_lt (dp_pool q) (dp_pool p)) eqn:E; [done|]. by destruct Hne; apply str_lt_total.
Qed.

(** What was found for an image: the deepest pool so far *)
Definition deepest (ps : list DiscoveredPool) (i : string) (p : DiscoveredPool) : Prop :=
  p ∈ ps ∧ dp_image p = i ∧ ∀ q, q ∈ ps → dp_image q = i → q = p ∨ deeper p q = true.

(** The map of what was found, for the pools seen so far *)
Definition discovered (seen : list DiscoveredPool) (found : list (string * DiscoveredPool)) : Prop :=
  ∀ i, match dget i found with
       | Some p => deepest seen i p
       | None => ∀ q, q ∈ seen → dp_image q ≠ i
       end.

Lemma deepest_other seen x i p : dp_image x ≠ i → deepest seen i p → deepest (seen ++ [x]) i p.
Proof.
  intros Hx (Hp & Hi & Hall). split; [apply elem_of_app; by left|]. split; [done|]. intros q Hq Hqi.
  apply elem_of_app in Hq as [Hq|Hq]; [by apply Hall|]. apply list_elem_of_singleton in Hq as ->. done.
Qed.

Lemma add_pool_discovered seen found x :
  (∀ q, q ∈ seen → dp_pool q ≠ dp_pool x) → discovered seen found → discovered (seen ++ [x]) (add_pool found x).
Proof.
  intros Hx Hf i. unfold add_pool. destruct (decide (dp_image x = i)) as [<-|Hne].
  - specialize (Hf (dp_image x)). destruct (dget (dp_image x) found) as [prev|]; rewrite dget_dset_eq.
    + destruct Hf as (Hp & Hpi & Hall). destruct (deeper x prev) eqn:Hd.
      * split; [apply elem_of_app; right; constructor|]. split; [done|]. intros q Hq Hqi.
        apply elem_of_app in Hq as [Hq|Hq]; [|apply list_elem_of_singleton in Hq; by left].
        right. destruct (Hall q Hq Hqi) as [->|]; [done|]. by eapply deeper_trans.
      * split; [apply elem_of_app; by left|]. split; [done|]. intros q Hq Hqi.
        apply elem_of_app in Hq as [Hq|Hq]; [by apply Hall|]. apply list_elem_of_singleton in Hq as ->.
        right. apply deeper_total; [|done]. intros E. by destruct (Hx prev Hp).
    + split; [apply elem_of_app; right; constructor|]. split; [done|]. intros q Hq Hqi.
      apply elem_of_app in Hq as [Hq|Hq]; [by destruct (Hf q Hq)|]. apply list_elem_of_singleton in Hq. by left.
  - assert (dget i (match dget (dp_image x) found with
      | Some prev => dset (dp_image x) (if deeper x prev then x else prev) found
      | None => dset (dp_image x) x found end) = dget i found) as -> by (case_match; by apply dget_dset_ne).
    specialize (Hf i). destruct (dget i found); [by apply deepest_other|].
    intros q Hq. apply elem_of_app in Hq as [Hq|Hq]; [by apply Hf|]. by apply list_elem_of_singleton in Hq as ->.
Qed.

Lemma add_pools_discovered ps seen found :
  NoDup (dp_pool <$> seen ++ ps) → discovered seen found → discovered (seen ++ ps) (foldl add_pool found ps).
Proof.
  revert seen found. induction ps as [|x ps IH]; intros seen found Hnd Hf; cbn; [by rewrite app_nil_r|].
  rewrite (cons_middle x), app_assoc in Hnd |- *. apply IH; [done|]. apply add_pool_discovered; [|done].
  intros q Hq E. rewrite !fmap_app in Hnd. apply NoDup_app in Hnd as [Hnd _]. apply NoDup_app in Hnd as (_ & Hd & _).
  apply (Hd (dp_pool q)); [by apply list_elem_of_fmap_2|]. rewrite E. constructor.
Qed.

Lemma deepest_unique ps i p q : deepest ps i p → deepest ps i q → p = q.
Proof.
  intros (Hp & Hpi & Hpa) (Hq & Hqi & Hqa). destruct (Hpa q Hq Hqi) as [->|H1]; [done|].
  destruct (Hqa p Hp Hpi) as [->|H2]; [done|]. by destruct (deeper_asym p q).
Qed.

Lemma deepest_perm ps ps' i p : ps ≡ₚ ps' → deepest ps i p → deepest ps' i p.
Proof. intros Hp (H1 & H2 & H3). split; [by rewrite <-Hp|]. split; [done|]. intros q Hq. apply H3. by rewrite Hp. Qed.

Lemma discovered_deepest ps found i p : discovered ps found → dget i found = Some p ↔ deepest ps i p.
Proof.
  intros Hd. specialize (Hd i). destruct (dget i found) as [q|]; split.
  - by intros [= <-].
  - intros Hp. f_equal. by eapply deepest_unique.
  - done.
  - intros (Hp & Hi & _). by destruct (Hd p).
Qed.

(** The pool adopted for an image is the one with the most replicas, the first by name
    among equals, however the API server orders its list. *)
Theorem discovery_order_irrelevant ps ps' i :
  NoDup (dp_pool <$> ps) → ps ≡ₚ ps' →
  dget i (foldl add_pool [] ps) = dget i (foldl add_pool [] ps') ∧
  ∀ p, dget i (foldl add_pool [] ps) = Some p ↔
    p ∈ ps ∧ dp_image p = i ∧
    ∀ q, q ∈ ps → dp_image q = i → q = p ∨ dp_replicas q < dp_replicas p ∨
      (dp_replicas q = dp_replicas p ∧ str_lt (dp_pool p) (dp_pool q) = true).
Proof.
  intros Hnd Hp. assert (∀ l, NoDup (dp_pool <$> l) → discovered l (foldl add_pool [] l)) as Hd.
  { intros l Hl. apply (add_pools_discovered l [] []); [done|]. intros j. cbn. intros q Hq. by apply not_elem_of_nil in Hq. }
  pose proof (Hd ps Hnd) as H1. pose proof (Hd ps' ltac:(by rewrite <-Hp)) as H2. split.
  - apply option_eq. intros p. rewrite !discovered_deepest by done. split; by apply deepest_perm.
  - intros p. rewrite discovered_deepest by done. unfold deepest, deeper.
    setoid_rewrite orb_true_iff. setoid_rewrite andb_true_iff. setoid_rewrite Z.ltb_lt. by setoid_rewrite Z.eqb_eq.
Qed.

(** ** Fields that an operation leaves alone *)

Section keeps.
Context {W : Type} `{Clock W} `{Sdk W} `{PodExec W} `{Clusters W}.
Context (special : list ascii → outcome (list ascii)).
(** A property of the fields that only tracking, slots, setup and teardown change *)
Context (P : (bool * list nat * Z * list handle) → Prop).
Definition ledger (f : fleet) : bool * list nat * Z * list handle :=
  (f_torndown f, f_handles f, f_reserved f, f_heap f).
Abbreviation keeps := (stable (λ s : fleet * W, P (ledger s.1))).

Lemma keeps_world {A} (m : M W A) : keeps (world m).
Proof. apply (stable_object (λ f, P (ledger f))). Qed.
Lemma keeps_set_self g : (∀ f, ledger (g f) = ledger f) → keeps (set_self g).
Proof. intros Hg. apply (stable_update (λ f, P (ledger f))). intros f. by rewrite Hg. Qed.
Lemma keeps_on_cluster n g : keeps (on_cluster n g).
Proof. apply keeps_set_self. intros f. by case_match. Qed.
Lemma keeps_identify h : keeps (identify h).
Proof. intros s Hs. unfold identify. by destruct (record_pod_identity _) as [? []]. Qed.
#[local] Hint Resolve keeps_world keeps_set_self keeps_on_cluster keeps_identify : stable.

Lemma keeps_find_target image : keeps (find_target special image).
Proof.
  unfold find_target, the_cluster, ensure_pool, r_ensure_template, r_create_warmpool. stable.
Qed.
Lemma keeps_make_claim ff t image claim annotations : keeps (make_claim ff t image claim annotations).
Proof.
  unfold make_claim, undo_claim, remove_ondemand, pool_ownership, delete_inspected, delete_template_if_owned,
    claim_details, attempt, logged, r_get_warmpool, r_get_template, r_delete_warmpool, r_delete_template,
    r_delete_claim. stable.
Qed.
End keeps.

Section claims.
Context {W : Type} `{Clock W} `{Sdk W} `{PodExec W} `{Clusters W}.
Context (fsum : list pyfloat → pyfloat) (special : list ascii → outcome (list ascii)).
Abbreviation keeps m := (∀ P, stable (λ s : fleet * W, P (ledger s.1)) m).
#[local] Hint Resolve keeps_world keeps_set_self keeps_on_cluster keeps_identify keeps_find_target keeps_make_claim
  : stable.

Lemma keeps_run {A} (m : M (fleet * W) A) s r s' : keeps m → m s = (r, s') → ledger s'.1 = ledger s.1.
Proof. intros Hm E. by eapply stable_run in E; [exact E|exact (Hm (λ x, x = ledger s.1))|]. Qed.

(** The part of a claim before the handle is tracked, and the part after it *)
Definition claim_part (image : string) (snapshot_uid : option string) (pod_annotations : list (string * string))
    : M (fleet * W) (claim_target * string * sandbox * string * handle) :=
  let annotations := match str_or snapshot_uid None with
                     | Some u => dset "podsnapshot.gke.io/ps-name" u pod_annotations
                     | None => pod_annotations
                     end in
  t ← find_target special image;
  f ← self;
  let c := tg_cluster t in
  let ff := fc_fail_fast (f_config f) in
  u ← world new_uuid;
  let claim := CLAIM_PREFIX +:+ String.substring 0 12 u in
  _ ← (if ff then world (watchdog_start (cl_name c) claim) else mret ());
  '(sb, (pod, ip)) ← finally (if ff then _ ← world (watchdog_stop claim); mret () else mret ())
    (make_claim ff t image claim annotations);
  h ← identify (Handle image (cl_name c) (cl_namespace c) (sb_claim_name sb) sb (default EmptyString pod) ip None
        (str_or (tg_entry t ≫= pe_container) (Some RUNTIME_CONTAINER)) None None false JNull JNull);
  mret (t, claim, sb, default EmptyString pod, h).

Definition track_part (snapshot_uid : option string) (x : claim_target * string * sandbox * string * handle)
    : M (fleet * W) nat :=
  let '(t, claim, sb, pod, h) := x in
  let c := tg_cluster t in
  id ← gets (λ s : fleet * W, length (f_heap s.1));
  tracked ← section (λ f, Ret (track_handle h f));
  if negb tracked then
    _ ← logged () (world (sdk_terminate sb));
    _ ← world (sdk_forget (cl_name c) (cl_namespace c) claim);
    raise FleetError
  else
    _ ← on_cluster (cl_name c) reserve_claim;
    match str_or snapshot_uid None with
    | None => mret id
    | Some uid =>
        st ← world (pod_restore_status (cl_name c) (cl_namespace c) pod);
        _ ← (if from_snapshot st (Some uid) then mret ()
             else set_self (update_handle id (with_pending (Some uid))));
        mret id
    end.

Lemma bind_assoc {S A B C} (m : M S A) (k : A → M S B) (k' : B → M S C) s :
  ((m ≫= k) ≫= k') s = (m ≫= λ a, k a ≫= k') s.
Proof. unfold mbind, M_bind. by destruct (m s) as [[|  |]]. Qed.
Lemma bind_ext {S A B} (m : M S A) (k k' : A → M S B) s : (∀ a s, k a s = k' a s) → (m ≫= k) s = (m ≫= k') s.
Proof. intros E. unfold mbind, M_bind. destruct (m s) as [[|  |]]; [apply E|done|done]. Qed.

Lemma acquire_reserved_parts image snapshot_uid annotations s :
  acquire_reserved special image snapshot_uid annotations s =
  (claim_part image snapshot_uid annotations ≫= track_part snapshot_uid) s.
Proof.
  unfold acquire_reserved, claim_part.
  repeat (rewrite bind_assoc; apply bind_ext; intros ? ?). destruct a3 as [sb [pod ip]].
  rewrite bind_assoc. apply bind_ext. intros h s5. done.
Qed.
Lemma keeps_finally {A} (fin : M (fleet * W) ()) (m : M (fleet * W) A) : keeps m → keeps fin → keeps (finally fin m).
Proof.
  intros Hm Hf P s Hs. unfold finally. specialize (Hm P s Hs). destruct (m s) as [r s1]. cbn in Hm.
  specialize (Hf P s1 Hm). destruct r; [| |done]; by destruct (fin s1) as [[]].
Qed.

Lemma keeps_claim_part image snapshot_uid annotations : keeps (claim_part image snapshot_uid annotations).
Proof.
  intros P. unfold claim_part. stable. apply keeps_finally; intros P'; stable.
Qed.

(** After the handle is tracked nothing is raised, and no slot or handle moves. *)
Definition restore_part (c : cluster) (pod : string) (snapshot_uid : option string) (id : nat) : M (fleet * W) nat :=
  match str_or snapshot_uid None with
  | None => mret id
  | Some uid =>
      st ← world (pod_restore_status (cl_name c) (cl_namespace c) pod);
      _ ← (if from_snapshot st (Some uid) then mret ()
           else set_self (update_handle id (with_pending (Some uid))));
      mret id
  end.

Lemma pod_restore_status_total c ns pod (w : W) :
  (∃ st w', pod_restore_status c ns pod w = (Ret st, w')) ∨ ∃ w', pod_restore_status c ns pod w = (NoFuel, w').
Proof.
  unfold pod_restore_status, except, mbind, M_bind, mret, M_ret.
  destruct (pod_conditions c ns pod w) as [[l|e|] w']; eauto.
Qed.

Lemma restore_part_outcome c pod snapshot_uid id s r s' :
  restore_part c pod snapshot_uid id s = (r, s') →
  (r = Ret id ∨ r = NoFuel) ∧ f_handles s'.1 = f_handles s.1 ∧ f_reserved s'.1 = f_reserved s.1.
Proof.
  unfold restore_part. destruct (str_or snapshot_uid None) as [uid|]; [|intros [= <- <-]; eauto].
  destruct s as [f w]. unfold mbind at 1, M_bind at 1, world.
  destruct (pod_restore_status_total (cl_name c) (cl_namespace c) pod w) as [(st & w' & E)|(w' & E)]; cbn;
    rewrite E; [|intros [= <- <-]; eauto].
  destruct (from_snapshot st (Some uid)); cbn; intros [= <- <-]; [by eauto|].
  split; [by left|]. unfold update_handle. by case_match.
Qed.

(** Where the handle ends up *)
Lemma track_part_outcome snapshot_uid x s r s' :
  track_part snapshot_uid x s = (r, s') →
  f_reserved s'.1 = f_reserved s.1 ∧
  match r with
  | Ret id => f_torndown s.1 = false ∧ id = length (f_heap s.1) ∧ f_handles s'.1 = f_handles s.1 ++ [id]
  | Raise _ => f_handles s'.1 = f_handles s.1
  | NoFuel => True
  end.
Proof.
  destruct x as [[[[t claim] sb] pod] h]. unfold track_part. destruct s as [f w].
  unfold mbind at 1, M_bind at 1, gets. cbn [fst].
  unfold mbind at 1, M_bind at 1, section, track_handle. cbn. destruct (f_torndown f) eqn:T; cbn.
  - intros E. assert (ledger s'.1 = ledger (set_heap (f_heap f ++ [h]) f)) as [= _ Eh Er _].
    { eapply (keeps_run _ (set_heap (f_heap f ++ [h]) f, w)); [|exact E]. intros P. unfold logged. stable. }
    split; [exact Er|]. destruct r; [by run_inv|exact Eh|done].
  - unfold mbind at 1, M_bind at 1, on_cluster, set_self. cbn.
    intros E. apply (restore_part_outcome (tg_cluster t) pod snapshot_uid) in E as ([-> | ->] & Eh & Er).
    all: revert Eh Er; cbn; case_match; cbn; intros Eh Er; rewrite Er; auto.
Qed.

Lemma acquire_reserved_outcome image snapshot_uid annotations s r s' :
  acquire_reserved special image snapshot_uid annotations s = (r, s') →
  f_reserved s'.1 = f_reserved s.1 ∧
  match r with
  | Ret id => f_torndown s.1 = false ∧ id = length (f_heap s.1) ∧ f_handles s'.1 = f_handles s.1 ++ [id]
  | Raise _ => f_handles s'.1 = f_handles s.1
  | NoFuel => True
  end.
Proof.
  rewrite acquire_reserved_parts. unfold mbind, M_bind.
  destruct (claim_part image snapshot_uid annotations s) as [[x|e|] s1] eqn:E;
    (eapply keeps_run in E as [= Et Eh Er Ep]; [|apply keeps_claim_part]).
  - intros E2. apply track_part_outcome in E2. by rewrite Et, Eh, Er, Ep in E2.
  - by intros [= <- <-].
  - by intros [= <- <-].
Qed.

(** C35. A claim is made or not made: when [acquire] returns, the fleet was not torn down
    and had a free slot, the new handle is the last one tracked and one more slot is
    taken; when it raises, whatever failed, the handles and the slots are what they
    were. *)
Theorem acquire_all_or_nothing image snapshot_uid annotations s r s' :
  0 ≤ f_reserved s.1 → acquire special image snapshot_uid annotations s = (r, s') →
  match r with
  | Ret id => f_torndown s.1 = false ∧ slots_full s.1 = false ∧ id = length (f_heap s.1) ∧
      f_handles s'.1 = f_handles s.1 ++ [id] ∧ f_reserved s'.1 = f_reserved s.1 + 1
  | Raise _ => f_handles s'.1 = f_handles s.1 ∧ f_reserved s'.1 = f_reserved s.1
  | NoFuel => True
  end.
Proof.
  intros Hr. destruct s as [f w]. unfold acquire, take_slot. unfold mbind at 1, M_bind at 1, section. cbn.
  destruct (slots_full f) eqn:Hf; cbn; [by intros [= <- <-]|].
  unfold except. destruct (acquire_reserved _ _ _ _ _) as [[id|e|] s1] eqn:E;
    apply acquire_reserved_outcome in E as [Er E]; cbn in *.
  - intros [= <- <-]. destruct E as (? & -> & ?). auto.
  - intros [= <- <-]. cbn. rewrite Er, E. split; [done|lia].
  - by intros [= <- <-].
Qed.
End claims.

(** ** Teardown *)

Section teardown.
Context {W : Type} `{Clock W} `{Sdk W} `{PodExec W} `{Clusters W}.
Context (fsum : list pyfloat → pyfloat) (special : list ascii → outcome (list ascii)).

(** What releases leave alone *)
Definition plans (f : fleet) : bool * list (string * Z) * option (list PlanEntry) := (f_torndown f, f_warmed f, f_plan f).
Context (P : bool * list (string * Z) * option (list PlanEntry) → Prop).
Abbreviation keeps := (stable (λ s : fleet * W, P (plans s.1))).

Lemma plans_world {A} (m : M W A) : keeps (world m).
Proof. apply (stable_object (λ f, P (plans f))). Qed.
Lemma plans_set_self g : (∀ f, plans (g f) = plans f) → keeps (set_self g).
Proof. intros Hg. apply (stable_update (λ f, P (plans f))). intros f. by rewrite Hg. Qed.
Lemma plans_on_cluster n g : keeps (on_cluster n g).
Proof. apply plans_set_self. intros f. by case_match. Qed.
Lemma plans_on_handle {A} id (m : M (handle * W) A) : keeps (on_handle id m).
Proof.
  intros s Hs. unfold on_handle. destruct (f_heap s.1 !! id); [|done]. destruct (m _) as [r [h' w']]. cbn.
  unfold update_handle. by case_match.
Qed.
#[local] Hint Resolve plans_world plans_set_self plans_on_cluster plans_on_handle : stable.

Lemma plans_release id del : keeps (release id del).
Proof.
  unfold release. intros s Hs. unfold mbind at 1, M_bind at 1, self. cbn.
  unfold untrack_handle. case_decide; [|done]. destruct s as [f w].
  unfold mbind at 1, M_bind at 1, set_self. cbn.
  refine ((_ : keeps _) (set_handles (remove_first id (f_handles f)) f, w) Hs).
  unfold doomed_snapshots, snapshot_uids_by_label, settle_release, delete_one_snapshot, logged, the_cluster. stable.
Qed.
End teardown.

Section teardown_theorems.
Context {W : Type} `{Clock W} `{Sdk W} `{PodExec W} `{Clusters W} `{Audit W} `{!AuditLaws W}.
Context (fsum : list pyfloat → pyfloat) (special : list ascii → outcome (list ascii)).

Lemma release_all_plans (s : fleet * W) r s' : release_all s = (r, s') → plans s'.1 = plans s.1.
Proof.
  intros E. eapply (stable_run (λ s, plans s.1 = plans _)) in E; [exact E| |done].
  unfold release_all. apply stable_bind; [apply stable_self|]. intros f. apply stable_for_each. intros id.
  apply (plans_release (λ x, x = plans s.1)).
Qed.

Lemma release_all_spares (s : fleet * W) r s' : release_all s = (r, s') → honest spares_pools s.2 s'.2.
Proof.
  intros E. assert (moves (fleet_step (λ _, True) spares_pools) release_all s) as [_ Hw]; [|done|by rewrite E in Hw].
  unfold release_all. apply moves_self_bind. apply moves_for_each; [apply _|]. intros. by apply release_steps; apply _.
Qed.

Lemma torndown_inert delete_namespace (s : fleet * W) :
  f_torndown s.1 = true →
  teardown fsum special delete_namespace s = (Ret (), s) ∧ safe_teardown fsum special s = (Ret (), s).
Proof. intros Ht. destruct s as [f w]. unfold safe_teardown, teardown, mbind, M_bind, self. cbn in *. by rewrite Ht. Qed.

(** A claim that cannot be released ends the teardown for good: [teardown] raises
    before it has swept anything, so no pool and no template of the run is deleted and
    what was warmed is still recorded, and since the fleet counts as torn down every
    later [teardown], the one at exit included, returns without doing anything. *)
Theorem failed_release_abandons_teardown delete_namespace (s : fleet * W) e s1 :
  f_torndown s.1 = false → release_all (set_torndown true s.1, s.2) = (Raise e, s1) →
  teardown fsum special delete_namespace s = (Raise e, s1) ∧
  f_warmed s1.1 = f_warmed s.1 ∧
  (∃ new, writes s1.2 = writes s.2 ++ new ∧ Forall (λ x, wr_res x ≠ WARMPOOLS ∧ wr_res x ≠ TEMPLATES) new) ∧
  ∀ again, teardown fsum special again s1 = (Ret (), s1) ∧ safe_teardown fsum special s1 = (Ret (), s1).
Proof.
  intros Ht E. pose proof (release_all_plans _ _ _ E) as [= Ht1 Hw1 _].
  pose proof (release_all_spares _ _ _ E) as [_ Hw]. destruct s as [f w]. cbn in *.
  split_and!; [|done|exact Hw|by intros; apply torndown_inert].
  unfold teardown, teardown_body. unfold mbind at 1, M_bind at 1, self. cbn. rewrite Ht.
  unfold mbind at 1, M_bind at 1, set_self. cbn. by apply bind_raise.
Qed.
End teardown_theorems.

(** ** Waves *)

Lemma waves_concat budget wave creates entries : concat (waves budget wave creates entries) = wave ++ entries.
Proof.
  revert wave creates. induction entries as [|e entries IH]; intros wave creates; cbn.
  - destruct wave; cbn; by rewrite ?app_nil_r.
  - destruct (negb _ && _); cbn; rewrite IH; [done|by rewrite <-app_assoc].
Qed.

Definition wave_ok (budget : Z) (wave : list PlanEntry) : Prop :=
  wave ≠ [] ∧ (total_replicas wave ≤ budget ∨ length wave = 1%nat).

Lemma total_replicas_app l l' : total_replicas (l ++ l') = total_replicas l + total_replicas l'.
Proof.
  unfold total_replicas. rewrite fmap_app. induction (pe_replicas <$> l) as [|z zs IH]; cbn in *; [done|lia].
Qed.

Lemma waves_ok budget wave creates entries :
  creates = total_replicas wave → (wave ≠ [] → wave_ok budget wave) → Forall (wave_ok budget) (waves budget wave creates entries).
Proof.
  revert wave creates. induction entries as [|e entries IH]; intros wave creates -> Hw; cbn.
  - destruct wave; constructor; [|done]. by apply Hw.
  - assert (total_replicas [e] = pe_replicas e) as He by (unfold total_replicas; cbn; lia).
    destruct (decide (wave = [])) as [->|Hne]; cbn.
    + apply IH; [by rewrite He|]. split; [done|by right].
    + rewrite bool_decide_false by done. cbn. destruct (Z.ltb_spec budget (total_replicas wave + pe_replicas e)).
      * constructor; [by apply Hw|]. apply IH; [by rewrite He|]. split; [done|by right].
      * apply IH; [by rewrite total_replicas_app, He|]. intros _. split; [by destruct wave|].
        left. rewrite total_replicas_app, He. lia.
Qed.

(** The waves of a staged warm-up are the planned pools in their order, none left out
    and none twice; every wave creates at least one pool, and no more replicas than the
    budget unless a single pool alone exceeds it. *)
Theorem waves_partition_plan budget entries :
  concat (waves budget [] 0 entries) = entries ∧
  Forall (λ wave, wave ≠ [] ∧ (total_replicas wave ≤ budget ∨ length wave = 1%nat)) (waves budget [] 0 entries).
Proof. split; [apply waves_concat|]. by apply waves_ok. Qed.

(** ** The circuit breaker *)

(** [n] polls in a row above the ceiling *)
Definition above (ceiling : Z) (l : list Z) (k : nat) : Prop := ∃ x, l !! k = Some x ∧ ceiling < x.
Definition breach (ceiling : Z) (n : nat) (l : list Z) : Prop := ∃ i, ∀ j, (j < n)%nat → above ceiling l (i + j).

Lemma breach_below ceiling n k x l :
  (k < n)%nat → x ≤ ceiling → breach ceiling n (replicate k (ceiling + 1) ++ x :: l) ↔ breach ceiling n l.
Proof.
  intros Hk Hx. split.
  - intros [i Hi]. assert (k < i)%nat as Hki.
    { destruct (decide (k < i)%nat); [done|exfalso]. destruct (Hi (k - i)%nat) as (y & Hy & ?); [lia|].
      replace (i + (k - i))%nat with k in Hy by lia. rewrite lookup_app_r in Hy by (rewrite length_replicate; lia).
      rewrite length_replicate, Nat.sub_diag in Hy. simplify_eq/=. lia. }
    exists (i - S k)%nat. intros j Hj. destruct (Hi j Hj) as (y & Hy & ?). exists y. split; [|done].
    rewrite lookup_app_r in Hy by (rewrite length_replicate; lia). rewrite length_replicate in Hy.
    by replace (i + j - k)%nat with (S (i - S k + j)) in Hy by lia.
  - intros [i Hi]. exists (S k + i)%nat. intros j Hj. destruct (Hi j Hj) as (y & Hy & ?). exists y. split; [|done].
    rewrite lookup_app_r by (rewrite length_replicate; lia). rewrite length_replicate.
    by replace (S k + i + j - k)%nat with (S (i + j)) by lia.
Qed.

Lemma above_first ceiling k x y l j :
  ceiling < x → ceiling < y →
  above ceiling (replicate k y ++ x :: l) j ↔ above ceiling (replicate (S k) y ++ l) j.
Proof.
  intros Hx Hy. rewrite replicate_S_end, <-app_assoc. unfold above. cbn.
  destruct (decide (j < k)%nat); [by rewrite !lookup_app_l by (rewrite length_replicate; lia)|].
  rewrite !lookup_app_r, !length_replicate by (rewrite length_replicate; lia).
  destruct (j - k)%nat eqn:E; cbn; [|done]. split; intros _; eauto.
Qed.

Lemma breaker_loop_breach ceiling need b polls :
  (b < need)%nat →
  is_Some (breaker_loop ceiling (Z.of_nat need) (Z.of_nat b) polls) ↔
  breach ceiling need (replicate b (ceiling + 1) ++ polls).
Proof.
  revert b. induction polls as [|n polls IH]; intros b Hb; cbn [breaker_loop].
  - rewrite app_nil_r. split; [by intros []|]. intros [i Hi]. exfalso.
    destruct (Hi (need - 1)%nat) as (x & Hx & _); [lia|]. apply lookup_lt_Some in Hx.
    rewrite length_replicate in Hx. lia.
  - destruct (Z.ltb_spec ceiling n) as [Hn|Hn].
    + assert (breach ceiling need (replicate b (ceiling + 1) ++ n :: polls) ↔
        breach ceiling need (replicate (S b) (ceiling + 1) ++ polls)) as ->.
      { unfold breach. by setoid_rewrite (above_first ceiling b n (ceiling + 1) polls); [|lia|lia]. }
      destruct (Z.ltb_spec (Z.of_nat b + 1) (Z.of_nat need)).
      * replace (Z.of_nat b + 1) with (Z.of_nat (S b)) by lia. apply IH. lia.
      * split; [|eauto]. intros _. exists 0%nat. intros j Hj. exists (ceiling + 1). split; [|lia].
        rewrite lookup_app_l by (rewrite length_replicate; lia). by apply lookup_replicate_2; lia.
    + rewrite breach_below by done. specialize (IH 0%nat). cbn in IH. apply IH. lia.
Qed.

(** The circuit breaker trips exactly when the live sandboxes exceeded the ceiling in as
    many polls in a row as are configured, and in none of its polls when they never did
    so long. *)
Theorem breaker_trips_on_sustained_breach f ceiling polls :
  is_Some (breaker_loop ceiling (breaker_need f) 0 polls) ↔
  ∃ i, ∀ j, Z.of_nat j < breaker_need f → ∃ n, polls !! (i + j)%nat = Some n ∧ ceiling < n.
Proof.
  assert (1 ≤ breaker_need f) as Hneed by (unfold breaker_need; lia).
  rewrite <-(Z2Nat.id (breaker_need f)) by lia. rewrite (breaker_loop_breach ceiling _ 0 polls) by lia. cbn.
  unfold breach, above. by setoid_rewrite Nat2Z.inj_lt.
Qed.

(** ** Batches of tasks *)

Definition covers (p : list PlanEntry) (image : string) : Prop := image ∈ pe_image <$> p.

Lemma for_image_covers p image : is_Some (for_image p image) ↔ covers p image.
Proof.
  unfold for_image, covers. rewrite last_is_Some, list_elem_of_fmap. split.
  - intros Hne. destruct (filter _ p) as [|e l] eqn:E; [done|]. exists e.
    assert (e ∈ filter (λ e, pe_image e = image) p) as He by (rewrite E; constructor).
    apply list_elem_of_filter in He as [? ?]. eauto.
  - intros (e & -> & He) E. assert (e ∈ filter (λ e0, pe_image e0 = pe_image e) p) as Hin
      by by apply list_elem_of_filter. rewrite E in Hin. by apply not_elem_of_nil in Hin.
Qed.

Lemma remove_first_elem {A} `{EqDecision A} (x y : A) l : y ∈ l → y ≠ x → y ∈ remove_first x l.
Proof.
  induction 1 as [l|z l Hl IH]; intros Hne; cbn; case_decide; subst; try done; [constructor|]. constructor. auto.
Qed.

Lemma plan_add_covers p e image : covers p image ∨ image = pe_image e → covers (plan_add p e) image.
Proof.
  unfold covers, plan_add. intros Hc. destruct (for_image p (pe_image e)) as [old|] eqn:E.
  - assert (pe_image old = pe_image e) as Hold.
    { unfold for_image in E. apply last_Some_elem_of in E. by apply list_elem_of_filter in E as [? _]. }
    rewrite fmap_app, elem_of_app. destruct (decide (image = pe_image e)) as [->|Hne]; [right; constructor|].
    left. destruct Hc as [Hc|]; [|done]. apply list_elem_of_fmap in Hc as (x & -> & Hx).
    apply list_elem_of_fmap_2, remove_first_elem; [done|]. intros ->. congruence.
  - rewrite fmap_app, elem_of_app. destruct Hc as [?| ->]; [by left|right; constructor].
Qed.

Lemma plan_adds_cover p es image : covers p image ∨ covers es image → covers (foldl plan_add p es) image.
Proof.
  revert p. induction es as [|e es IH]; intros p Hc; cbn.
  - destruct Hc as [|Hc]; [done|]. by apply not_elem_of_nil in Hc.
  - apply IH. destruct Hc as [Hc|Hc]; [left; apply plan_add_covers; by left|].
    unfold covers in Hc. cbn in Hc. apply elem_of_cons in Hc as [->|Hc]; [|by right].
    left. apply plan_add_covers. by right.
Qed.

Lemma bumps_cover p bumps image : covers (foldl bump_entry p bumps) image ↔ covers p image.
Proof.
  revert p. induction bumps as [|b bumps IH]; intros p; cbn; [done|]. rewrite IH. unfold covers, bump_entry.
  rewrite <-list_fmap_compose. erewrite list_fmap_ext; [done|]. intros i e _. cbn. by case_decide.
Qed.

Lemma counts_cover tasks t : t ∈ tasks → t_image t ∈ (image_counts tasks).*1.
Proof.
  unfold image_counts. assert (∀ d, t ∈ tasks ∨ t_image t ∈ d.*1 →
    t_image t ∈ (foldl (λ d t, dadd (t_image t) 1 d) d tasks).*1) as Hd; [|eauto].
  induction tasks as [|t' tasks IH]; intros d [Ht|Ht]; cbn; [by apply not_elem_of_nil in Ht|done| |].
  - apply IH. apply elem_of_cons in Ht as [->|Ht]; [|by left]. right. apply elem_of_dset_keys. by left.
  - apply IH. right. apply elem_of_dset_keys. by right.
Qed.

Section batches.
Context {W : Type} `{Clock W} `{Sdk W} `{PodExec W} `{Clusters W}.
Context (fsum : list pyfloat → pyfloat) (special : list ascii → outcome (list ascii)).

(** The tasks and the plan *)
Definition work (f : fleet) : list task * option (list PlanEntry) := (f_tasks f, f_plan f).
Abbreviation same_work := (λ s s' : fleet * W, work s'.1 = work s.1).
#[local] Instance same_work_preorder : PreOrder same_work.
Proof. split; [done|]. intros ??? E1 E2. congruence. Qed.

Lemma work_world {A} (m : M W A) s : moves same_work (world m) s.
Proof. destruct s as [f w]. unfold moves, world. cbn. by destruct (m w). Qed.
Lemma work_set_self g s : (∀ f, work (g f) = work f) → moves same_work (set_self g) s.
Proof. intros Hg. destruct s. apply Hg. Qed.
#[local] Hint Resolve work_world work_set_self : moves.

Lemma place_batch_work p totals counts s : moves same_work (place_batch p totals counts) s.
Proof. revert totals s. induction counts as [|[i n] counts IH]; intros totals s; cbn [place_batch]; moves. Qed.

Lemma place_batch_covers p totals counts (s : fleet * W) fresh bump totals' s' :
  place_batch p totals counts s = (Ret (fresh, bump, totals'), s') →
  ∀ i, i ∈ counts.*1 → covers p i ∨ i ∈ fresh.*1.*1.
Proof.
  revert totals s fresh bump totals' s'.
  induction counts as [|[image n] counts IH]; intros totals s fresh bump totals' s' E i Hi; cbn in *;
    [by apply not_elem_of_nil in Hi|]. apply elem_of_cons in Hi.
  destruct (for_image p image) as [e|] eqn:Ef.
  - run_inv. destruct a as [[fresh0 bump0] totals0]. apply mret_inv in E as [E _]. simplify_eq.
    destruct Hi as [->|Hi]; [left; apply for_image_covers; eauto|]. by eapply IH.
  - run_inv. destruct (select _ _ _). run_inv. destruct a1 as [[fresh0 bump0] totals0].
    apply mret_inv in E as [E _]. simplify_eq. cbn. rewrite elem_of_cons.
    destruct Hi as [->|Hi]; [by right; left|]. eapply IH in Hi as [?|?]; [by left|right; by right|done].
Qed.

Lemma size_images_covers cfg totals budget fresh entries :
  traverse (size_image special cfg totals budget) fresh = Ret entries → pe_image <$> entries = fresh.*1.*1.
Proof.
  intros E. apply traverse_Forall2 in E. induction E as [|[[i n] c] e fresh entries Hs _ IH]; [done|]. cbn.
  rewrite IH. f_equal. unfold size_image in Hs. run_inv. by simplify_eq.
Qed.

(** The sizing step of [extend_plan] *)
Definition sized (f : fleet) (totals : list (string * Z)) (fresh : list (string * Z * cluster))
    : M (fleet * W) (list PlanEntry) :=
  match fresh with
  | [] => mret []
  | _ => budget ← lift (cluster_budget fsum f totals);
         lift (traverse (size_image special (f_config f) totals budget) fresh)
  end.

Lemma sized_outcome f totals fresh s r s' :
  sized f totals fresh s = (r, s') → s' = s ∧ ∀ es, r = Ret es → pe_image <$> es = fresh.*1.*1.
Proof.
  unfold sized. destruct fresh as [|x fresh]; [intros [= <- <-]; split; [done|]; by intros es [= <-]|].
  unfold mbind, M_bind, lift. destruct (cluster_budget _ _ _) as [b|e|]; intros [= <- <-]; (split; [done|]); [|done|done].
  intros es. apply (size_images_covers (f_config f) totals b (x :: fresh)).
Qed.

Lemma extend_plan_outcome p new (s : fleet * W) r s' :
  f_plan s.1 = Some p → extend_plan fsum special p new s = (r, s') →
  f_tasks s'.1 = f_tasks s.1 ∧
  match r with
  | Ret _ => ∃ p', f_plan s'.1 = Some p' ∧ (∀ i, covers p i → covers p' i) ∧ ∀ t, t ∈ new → covers p' (t_image t)
  | _ => f_plan s'.1 = f_plan s.1
  end.
Proof.
  intros Hp. unfold extend_plan. unfold mbind at 1, M_bind at 1.
  set (totals := foldl _ _ _). pose proof (place_batch_work p totals (image_counts new) s) as Hw.
  destruct (place_batch p totals (image_counts new) s) as [[[[fresh bump] totals']|e|] s1] eqn:E;
    unfold moves in Hw; rewrite E in Hw; cbn in Hw; injection Hw as Hwt Hwp; [|by intros [= <- <-]|by intros [= <- <-]].
  unfold mbind at 1, M_bind at 1, self. fold (sized s1.1 totals' fresh). unfold mbind at 1, M_bind at 1.
  destruct (sized s1.1 totals' fresh s1) as [r1 s2] eqn:E1. apply sized_outcome in E1 as [-> Hes].
  destruct r1 as [es|e|]; [|by intros [= <- <-]|by intros [= <- <-]].
  destruct s1 as [f1 w1]. intros [= <- <-]. cbn in *. split; [done|]. eexists; split; [done|]. split.
  - intros i Hi. apply plan_adds_cover. left. by apply bumps_cover.
  - intros t Ht. apply plan_adds_cover. apply counts_cover in Ht.
    eapply place_batch_covers in Ht as [Ht|Ht]; [left; by apply bumps_cover|right|exact E].
    unfold covers. by rewrite Hes.
Qed.
Lemma discover_all_work cs s : moves same_work (discover_all cs) s.
Proof. revert s. induction cs as [|c cs IH]; intros s; cbn [discover_all]; unfold r_discover_pools; moves. Qed.

Lemma plan_adopt_outcome (s : fleet * W) r s' :
  plan_adopt s = (r, s') →
  f_tasks s'.1 = f_tasks s.1 ∧
  match r with
  | Ret p => f_plan s'.1 = Some p ∧ ∀ t, t ∈ f_tasks s.1 → covers p (t_image t)
  | _ => f_plan s'.1 = f_plan s.1
  end.
Proof.
  unfold plan_adopt. unfold mbind at 1, M_bind at 1, self. unfold mbind at 1, M_bind at 1.
  pose proof (discover_all_work (f_registry s.1).*2 s) as Hw. unfold moves in Hw.
  destruct (discover_all _ s) as [[d|e|] s1]; cbn in Hw; injection Hw as Hwt Hwp;
    [|by intros [= <- <-]|by intros [= <- <-]].
  destruct (forallb _ _) eqn:Hall; [|by intros [= <- <-]]. destruct s1 as [f1 w1]. intros [= <- <-]. cbn in *.
  split; [done|]. split; [done|]. intros t Ht. apply counts_cover, list_elem_of_fmap in Ht as ([i n] & Hi & Ht).
  rewrite forallb_forall in Hall. specialize (Hall (adopt_image d (i, n))).
  rewrite <-list_elem_of_In in Hall. specialize (Hall (list_elem_of_fmap_2 _ _ _ Ht)).
  apply bool_decide_eq_true in Hall as [e He]. unfold covers. apply list_elem_of_fmap. exists e. split.
  - unfold adopt_image in He. case_match; [done|]. case_match. by simplify_eq.
  - apply list_elem_of_omap. exists (Some e). split; [|done]. rewrite <-He. by apply list_elem_of_fmap_2.
Qed.

(** A batch of tasks is added whole or not at all: when [add_tasks] raises, the tasks
    and the plan are what they were; when it returns, the new tasks follow the old ones
    and, if there was a plan or the fleet adopts pools, there is a plan that covers the
    image of every new task. *)
Theorem add_tasks_atomic source rewrite (s : fleet * W) r s' :
  add_tasks fsum special source rewrite s = (r, s') →
  match r with
  | Ret new => new = rewrite_task rewrite <$> source ∧ f_tasks s'.1 = f_tasks s.1 ++ new ∧
      (new ≠ [] → is_Some (f_plan s.1) ∨ fc_adopt_existing (f_config s.1) = true →
        ∃ p, f_plan s'.1 = Some p ∧ ∀ t, t ∈ new → covers p (t_image t))
  | Raise _ => f_tasks s'.1 = f_tasks s.1 ∧ f_plan s'.1 = f_plan s.1
  | NoFuel => True
  end.
Proof.
  unfold add_tasks. destruct (rewrite_task rewrite <$> source) as [|t ts] eqn:En.
  { intros [= <- <-]. by rewrite app_nil_r. }
  destruct s as [f w]. unfold mbind at 1, M_bind at 1, self. cbn [fst].
  destruct (fc_adopt_existing (f_config f)) eqn:Ha.
  - assert (match f_plan f with Some _ => mret () | None => mret () end = (mret () : M (fleet * W) ())) as ->
      by by case_match.
    rewrite (bind_step _ _ _ () (f, w)) by done.
    rewrite (bind_step _ _ _ () (set_tasks (f_tasks f ++ t :: ts) f, w)) by done.
    unfold mbind at 1, M_bind at 1, except. unfold mbind at 1, M_bind at 1.
    destruct (plan_adopt _) as [r1 s1] eqn:E. apply plan_adopt_outcome in E as [Et Er]. cbn in Et, Er.
    destruct r1 as [p|e|]; cbn; intros [= <- <-]; [|done|done].
    destruct Er as [Ep Hc]. split_and!; [done|done|]. intros _ _. exists p. split; [done|].
    intros t' Ht'. apply Hc. apply elem_of_app. by right.
  - destruct (f_plan f) as [p|] eqn:Ep.
    + unfold mbind at 1, M_bind at 1. destruct (extend_plan _ _ _ _ _) as [r1 s1] eqn:E.
      apply extend_plan_outcome in E as [Et Er]; [|done]. cbn in Et, Er.
      destruct r1 as [[]|e|]; [|by intros [= <- <-]; rewrite Er|by intros [= <- <-]].
      destruct s1 as [f1 w1]. intros [= <- <-]. cbn in *. rewrite Et. destruct Er as (p' & Ep' & _ & Hc). eauto.
    + intros [= <- <-]. cbn. split_and!; [done|done|]. by intros _ [[]|].
Qed.
End batches.

(** ** Runs against the simulated cluster *)

Definition stuck_sim : sim := Sim [] [] true 0.

Lemma discovery_order_irrelevant_witness :
  let a := Discovered "pool-a" "t" "img" 2 None in
  let b := Discovered "pool-b" "t" "img" 3 None in
  dget "img" (foldl add_pool [] [a; b]) = dget "img" (foldl add_pool [] [b; a]) ∧
  dget "img" (foldl add_pool [] [b; a]) = Some b.
Proof.
  split; [|reflexivity]. apply discovery_order_irrelevant; [|constructor].
  by apply (bool_decide_unpack _).
Defined.

Lemma acquire_all_or_nothing_witness :
  ∃ s s' id, new_sim_fleet false (Some 2) (Some "run1") empty_sim = Some s ∧
  acquire no_special "img:a" None [] s = (Ret id, s') ∧
  f_handles s'.1 = f_handles s.1 ++ [id] ∧ f_reserved s'.1 = f_reserved s.1 + 1.
Proof.
  eexists _, _, _. split; [vm_compute; reflexivity|].
  assert (∀ (s s' : fleet * sim) id, acquire no_special "img:a" None [] s = (Ret id, s') → (0 <=? f_reserved s.1) = true →
    acquire no_special "img:a" None [] s = (Ret id, s') ∧
    f_handles s'.1 = f_handles s.1 ++ [id] ∧ f_reserved s'.1 = f_reserved s.1 + 1) as Hw.
  { intros s s' id E Hr. apply Z.leb_le in Hr. split; [done|].
    by destruct (acquire_all_or_nothing no_special "img:a" None [] s (Ret id) s' Hr E) as (_ & _ & _ & ? & ?). }
  apply Hw; vm_compute; reflexivity.
Defined.

Lemma failed_release_abandons_teardown_witness :
  ∃ f s1, new_sim_fleet false (Some 2) (Some "run1") stuck_sim = Some f ∧
  teardown sim_fsum no_special false
    (run_ops sim_fsum no_special
       [OpLoadTasks sim_tasks None; OpStartWarmpools 5 true None; OpAcquire "img:a" None []] f).2
    = (Raise RuntimeError, s1) ∧
  f_warmed s1.1 = [("img:a", 1); ("img:b", 1)] ∧ teardown sim_fsum no_special false s1 = (Ret (), s1).
Proof.
  eexists _, _. split; [vm_compute; reflexivity|].
  assert (∀ s s1, teardown sim_fsum no_special false s = (Raise RuntimeError, s1) →
    f_torndown s.1 = false → release_all (set_torndown true s.1, s.2) = (Raise RuntimeError, s1) →
    f_warmed s.1 = [("img:a", 1); ("img:b", 1)] →
    teardown sim_fsum no_special false s = (Raise RuntimeError, s1) ∧
    f_warmed s1.1 = [("img:a", 1); ("img:b", 1)] ∧ teardown sim_fsum no_special false s1 = (Ret (), s1)) as Hw.
  { intros s s1 E Ht Er Ef. destruct (failed_release_abandons_teardown sim_fsum no_special false s _ _ Ht Er) as (_ & Ew & _ & Ha).
    split; [done|]. split; [congruence|apply Ha]. }
  apply Hw; vm_compute; reflexivity.
Defined.

Lemma add_tasks_atomic_witness :
  ∃ f s', new_sim_fleet true (Some 2) (Some "run1") pooled_sim = Some f ∧
  add_tasks sim_fsum no_special sim_tasks None f = (Ret sim_tasks, s') ∧
  ∃ p, f_plan s'.1 = Some p ∧ ∀ t, t ∈ sim_tasks → covers p (t_image t).
Proof.
  eexists _, _. split; [vm_compute; reflexivity|].
  assert (∀ f s' : fleet * sim, add_tasks sim_fsum no_special sim_tasks None f = (Ret sim_tasks, s') →
    fc_adopt_existing (f_config f.1) = true →
    add_tasks sim_fsum no_special sim_tasks None f = (Ret sim_tasks, s') ∧
    ∃ p, f_plan s'.1 = Some p ∧ ∀ t, t ∈ sim_tasks → covers p (t_image t)) as Hw.
  { intros f s' E Ha. split; [done|].
    destruct (add_tasks_atomic sim_fsum no_special sim_tasks None f (Ret sim_tasks) s' E) as (_ & _ & Hc).
    apply Hc; [done|by right]. }
  apply Hw; vm_compute; reflexivity.
Defined.
