(* ===== verification/RlLookahead.v ===== *)
(** Warm pools for the batches of a training loop: models [lookahead.py] of
    [src/examples/agent-sandbox-rl/agent_sandbox_rl].

    The warmer is a record next to the state of the fleet that it is given; what it calls
    of the fleet is an interface, which the fleet of [RlFleet] implements. The jobs of a reconcile run one after another. The text of
    errors, log lines and [add_async], which is [add] on a thread, are left out. *)

From Stdlib Require Import Ascii String ZArith Lia.
From stdpp Require Import base option list strings sets.
From S2P Require Import Prelude Hoare Float Json PyList PyText IpAddress Models Utils World K8sHelper DateTime ObjectStore Budget Snapshots RlResources RlConfig RlHandles RlFleet RlOwnership RlSim.

#[local] Open Scope Z_scope.

Abbreviation counts := (list (string * Z)).

Record warmer := Warmer {
  wa_cap : Z;
  wa_keep_finished : nat;
  wa_fail_fast : bool;
  wa_register_images : bool;
  (** by batch id, in insertion order *)
  wa_live : list (string * counts);
  (** the oldest first *)
  wa_finished : list counts;
  (** replicas this warmer asked for *)
  wa_active : counts;
}.

Definition set_batches (live : list (string * counts)) (finished : list counts) (a : warmer) : warmer :=
  Warmer (wa_cap a) (wa_keep_finished a) (wa_fail_fast a) (wa_register_images a) live finished (wa_active a).
Definition set_active (active : counts) (a : warmer) : warmer :=
  Warmer (wa_cap a) (wa_keep_finished a) (wa_fail_fast a) (wa_register_images a) (wa_live a) (wa_finished a) active.

Record WarmReport := Report {
  rp_created : list string;
  rp_scaled : counts;
  rp_removed : list string;
  rp_errors : list string;
  rp_ready : list (string * bool);
}.
Definition empty_report : WarmReport := Report [] [] [] [] [].

(** [cap] is an argument or the fleet's [max_warmpool_size]; [keep_finished] may be
    negative *)
Definition new_warmer (f : fleet) (cap : option Z) (keep_finished : Z) (fail_fast register_images : bool) : warmer :=
  Warmer (default (fc_max_warmpool_size (f_config f)) cap) (Z.to_nat keep_finished) fail_fast register_images [] [] [].

(** [for image, n in counts.items(): if n > 0: totals[image] += n] *)
Definition add_counts (totals c : counts) : counts :=
  foldl (λ d kv, if 0 <? kv.2 then dadd kv.1 kv.2 d else d) totals c.

Definition desired (a : warmer) : counts :=
  (λ kv, (kv.1, Z.min (wa_cap a) kv.2)) <$> foldl add_counts [] (wa_finished a ++ (wa_live a).*2).

(** [{k: v for k, v in counts.items() if v > 0}] *)
Definition clean (c : counts) : counts := filter (λ kv, 0 < kv.2) c.

Definition register_batch (id : string) (c : counts) (a : warmer) : warmer :=
  set_batches (dset id (clean c) (wa_live a)) (wa_finished a) a.

(** [deque(maxlen=n).append] *)
Definition push_finished (n : nat) (c : counts) (l : list counts) : list counts :=
  let l' := l ++ [c] in drop (length l' - n) l'.

Definition is_fleet_error (e : exn) : bool :=
  match e with
  | FleetError | PreflightError | PoolNotFoundError | OwnedByAnotherRunError _ | FleetOvercommitError
  | NoClusterAvailableError | SnapshotError | SnapshotsUnavailable | SandboxStartError _ | SandboxLostError => true
  | _ => false
  end.

Inductive job := Create (image : string) (n : Z) | Scale (image : string) (n : Z) | Remove (image : string).

(** [to_create], [to_scale] and [to_remove] *)
Definition to_create (want active : counts) : counts := filter (λ kv, dget kv.1 active = None) want.
Definition to_scale (want active : counts) : counts :=
  filter (λ kv, is_Some (dget kv.1 active) ∧ dget kv.1 active ≠ Some kv.2) want.
Definition to_remove (want active : counts) : list string := filter (λ i, dget i want = None) active.*1.

Definition jobs_of (want active : counts) : list job :=
  ((λ kv, Create kv.1 kv.2) <$> to_create want active) ++ ((λ kv, Scale kv.1 kv.2) <$> to_scale want active)
  ++ (Remove <$> to_remove want active).

(** What the warmer calls of the fleet *)
Class WarmFleet (S : Type) := {
  (** [plan_] *)
  wf_plan_ : S → option (list PlanEntry);
  wf_plan : M S ();
  wf_add_tasks : list task → M S ();
  (** [warm_image(image, replicas_override=n, wait=False)] *)
  wf_warm_image : string → Z → M S ();
  wf_set_pool_replicas : string → Z → M S ();
  wf_unwarm_image : string → M S ();
  wf_wait_pools_ready : list string → option Z → counts → M S (list (string * bool));
}.

Definition fleet_warming {W} `{Clock W} `{Sdk W} `{PodExec W} `{Clusters W} (fsum : list pyfloat → pyfloat)
    (special : list ascii → outcome (list ascii)) (fuel : nat) : WarmFleet (fleet * W) := {|
  wf_plan_ s := f_plan s.1;
  wf_plan := _ ← plan fsum special; mret ();
  wf_add_tasks ts := _ ← add_tasks fsum special ts None; mret ();
  wf_warm_image image n := warm_image fsum special fuel image (Some n) false;
  wf_set_pool_replicas := set_pool_replicas fsum special;
  wf_unwarm_image := unwarm_image fsum special;
  wf_wait_pools_ready := wait_pools_ready fsum special fuel;
|}.

Section warmer.
Context {S : Type} `{WarmFleet S}.

Abbreviation WM := (M (warmer * S)).

Definition try_fleet {A} (m : M S A) : WM (exn + A) :=
  except (λ e, Some (mret (inl e))) (a ← world m; mret (inr a)).

(** [_register]: errors are reported by the warm of each image *)
Definition register (images : list string) : WM () :=
  p ← world (gets wf_plan_);
  let unknown := match p with
                 | None => images
                 | Some p => filter (λ i, for_image p i = None) images
                 end in
  match unknown with
  | [] => mret ()
  | _ => _ ← try_fleet (wf_add_tasks ((λ i, Task i i []) <$> unknown)); mret ()
  end.

Definition note_active (image : string) (n : Z) : WM () :=
  set_self (λ a, set_active (dset image n (wa_active a)) a).

(** A job: the report, and the first error that is fatal *)
Definition run_job (j : job) (r : WarmReport) (fatal : option exn) : WM (WarmReport * option exn) :=
  a ← self;
  let failed image := Report (rp_created r) (rp_scaled r) (rp_removed r) (rp_errors r ++ [image]) (rp_ready r) in
  match j with
  | Create image n =>
      x ← try_fleet (wf_warm_image image n);
      match x with
      | inr _ =>
          _ ← note_active image n;
          mret (Report (rp_created r ++ [image]) (rp_scaled r) (rp_removed r) (rp_errors r) (rp_ready r), fatal)
      | inl e =>
          mret (failed image, match fatal with
                              | Some _ => fatal
                              | None => if wa_fail_fast a && is_fleet_error e then Some e else None
                              end)
      end
  | Scale image n =>
      x ← try_fleet (wf_set_pool_replicas image n);
      match x with
      | inr _ =>
          _ ← note_active image n;
          mret (Report (rp_created r) (rp_scaled r ++ [(image, n)]) (rp_removed r) (rp_errors r) (rp_ready r), fatal)
      | inl _ => mret (failed image, fatal)
      end
  | Remove image =>
      x ← try_fleet (wf_unwarm_image image);
      match x with
      | inr _ =>
          _ ← set_self (λ a, set_active (dpop image (wa_active a)) a);
          mret (Report (rp_created r) (rp_scaled r) (rp_removed r ++ [image]) (rp_errors r) (rp_ready r), fatal)
      | inl _ => mret (failed image, fatal)
      end
  end.

Fixpoint run_all (js : list job) (r : WarmReport) (fatal : option exn) : WM (WarmReport * option exn) :=
  match js with
  | [] => mret (r, fatal)
  | j :: js' => '(r, fatal) ← run_job j r fatal; run_all js' r fatal
  end.

Definition reconcile : WM WarmReport :=
  a ← self;
  let want := desired a in
  let js := jobs_of want (wa_active a) in
  match js with
  | [] => mret empty_report
  | _ =>
      let create := to_create want (wa_active a) in
      _ ← (if wa_register_images a then register create.*1 else mret ());
      p ← world (gets wf_plan_);
      _ ← match create, p with
          | _ :: _, None => _ ← try_fleet wf_plan; mret ()
          | _, _ => mret ()
          end;
      '(r, fatal) ← run_all js empty_report None;
      match fatal with Some e => raise e | None => mret r end
  end.

(** Times in nanoseconds *)
Definition wait_ready (images : option (list string)) (timeout : option Z) (replicas : counts)
    : WM (list (string * bool)) :=
  a ← self;
  match default (wa_active a).*1 images with
  | [] => mret []
  | targets => world (wf_wait_pools_ready targets timeout replicas)
  end.

Definition apply (c : counts) (wait : bool) (timeout : option Z) : WM WarmReport :=
  r ← reconcile;
  if wait then
    a ← self;
    ready ← wait_ready (Some c.*1) timeout ((λ kv, (kv.1, Z.min (wa_cap a) kv.2)) <$> c);
    mret (Report (rp_created r) (rp_scaled r) (rp_removed r) (rp_errors r) ready)
  else mret r.

Definition add (id : string) (c : counts) (wait : bool) (timeout : option Z) : WM WarmReport :=
  _ ← set_self (register_batch id c); apply (clean c) wait timeout.

Definition finish (id : string) : WM WarmReport :=
  a ← self;
  match dget id (wa_live a) with
  | None => mret empty_report
  | Some c =>
      _ ← set_self (λ a, set_batches (dpop id (wa_live a))
            (match wa_keep_finished a with
             | O => wa_finished a
             | n => push_finished n c (wa_finished a)
             end) a);
      reconcile
  end.

Definition close : WM WarmReport := _ ← set_self (set_batches [] []); reconcile.
End warmer.

(** ** A reconcile reaches what is desired *)

Definition job_image (j : job) : string := match j with Create i _ | Scale i _ | Remove i => i end.
Definition job_target (j : job) : option Z := match j with Create _ n | Scale _ n => Some n | Remove _ => None end.

Lemma dadd_NoDup k n (d : counts) : NoDup d.*1 → NoDup (dadd k n d).*1.
Proof. apply dset_NoDup. Qed.

Lemma desired_NoDup a : NoDup (desired a).*1.
Proof.
  unfold desired. rewrite <-list_fmap_compose. change (fst ∘ _) with (fst : string * Z → string).
  assert (∀ l d, NoDup d.*1 → NoDup (foldl add_counts d l).*1) as Hf; [|apply Hf; constructor].
  intros l. induction l as [|c l IH]; intros d Hd; cbn; [done|]. apply IH. unfold add_counts. revert d Hd.
  induction c as [|kv c IHc]; intros d Hd; cbn; [done|]. apply IHc. case_match; [by apply dadd_NoDup|done].
Qed.

Section jobs.
Context (want active : counts) (Hw : NoDup want.*1) (Ha : NoDup active.*1).

Lemma job_wants j : j ∈ jobs_of want active → job_target j = dget (job_image j) want.
Proof using Hw.
  unfold jobs_of. rewrite !elem_of_app, !list_elem_of_fmap.
  intros [([i n] & -> & Hj)|[([i n] & -> & Hj)|(i & -> & Hj)]]; apply list_elem_of_filter in Hj as [Hc Hj]; cbn.
  - symmetry. by apply dget_elem_of.
  - symmetry. by apply dget_elem_of.
  - done.
Qed.

Lemma job_missing i : (∀ j, j ∈ jobs_of want active → job_image j ≠ i) → dget i active = dget i want.
Proof using Hw Ha.
  intros Hj. destruct (dget i want) as [n|] eqn:Ew.
  - assert ((i, n) ∈ want) as Hin by by apply dget_elem_of.
    destruct (dget i active) as [m|] eqn:Ea.
    + destruct (decide (m = n)) as [->|Hne]; [done|]. exfalso. apply (Hj (Scale i n)); [|done].
      unfold jobs_of. rewrite !elem_of_app. right; left. apply (list_elem_of_fmap_2 (λ kv, Scale kv.1 kv.2) _ (i, n)).
      apply list_elem_of_filter. cbn. rewrite Ea. split; [split; [eauto|congruence]|done].
    + exfalso. apply (Hj (Create i n)); [|done]. unfold jobs_of. rewrite !elem_of_app. left.
      apply (list_elem_of_fmap_2 (λ kv, Create kv.1 kv.2) _ (i, n)). by apply list_elem_of_filter.
  - destruct (dget i active) as [m|] eqn:Ea; [|done]. exfalso. apply (Hj (Remove i)); [|done].
    unfold jobs_of. rewrite !elem_of_app. right; right. apply list_elem_of_fmap_2. apply list_elem_of_filter.
    split; [done|]. apply dget_elem_of in Ea; [|done]. by apply (list_elem_of_fmap_2 fst _ (i, m)).
Qed.
End jobs.

Section convergence.
Context {S : Type} `{WarmFleet S}.

Lemma try_fleet_inv {A} (m : M S A) (s : warmer * S) x s' :
  try_fleet m s = (Ret x, s') → s'.1 = s.1.
Proof.
  intros E. eapply (stable_run (λ s0, s0.1 = s.1)) in E; [exact E| |done].
  unfold try_fleet. stable. apply (stable_object (λ a, a = s.1)).
Qed.

Lemma run_job_outcome j r fatal s r' fatal' s' :
  run_job j r fatal s = (Ret (r', fatal'), s') → NoDup (wa_active s.1).*1 →
  NoDup (wa_active s'.1).*1 ∧
  (∀ i, i ≠ job_image j → dget i (wa_active s'.1) = dget i (wa_active s.1)) ∧
  (rp_errors r' = rp_errors r ++ [job_image j] ∨
   rp_errors r' = rp_errors r ∧ dget (job_image j) (wa_active s'.1) = job_target j).
Proof.
  unfold run_job. intros E Hnd. run_inv. destruct j as [image n|image n|image]; cbn in *; run_inv;
    apply try_fleet_inv in Hrun as Hs; destruct a as [e|u]; run_inv; apply mret_inv in E as [[= <- <-] ->].
  all: try (rewrite Hs; split_and!; [done|done|by left]).
  all: destruct s0 as [a0 w0]; cbn in Hs; subst a0; injection Hrun0 as _ <-; cbn.
  1, 2: split_and!; [by apply dset_NoDup|intros; by apply dget_dset_ne|right; split; [done|apply dget_dset_eq]].
  split_and!; [by apply dpop_NoDup|intros i Hi; by rewrite dget_dpop, decide_False|].
  right. split; [done|]. by rewrite dget_dpop, decide_True.
Qed.

Lemma run_all_outcome (T : string → option Z) js r fatal s r' fatal' s' :
  (∀ j, j ∈ js → job_target j = T (job_image j)) →
  run_all js r fatal s = (Ret (r', fatal'), s') → NoDup (wa_active s.1).*1 →
  (∀ i, i ∈ rp_errors r → i ∈ rp_errors r') ∧
  ∀ i, i ∉ rp_errors r' → dget i (wa_active s'.1) = T i ∨
    (dget i (wa_active s'.1) = dget i (wa_active s.1) ∧ ∀ j, j ∈ js → job_image j ≠ i).
Proof.
  revert r fatal s. induction js as [|j js IH]; intros r fatal s HT E Hnd; cbn in E.
  - apply mret_inv in E as [[= <- <-] ->]. split; [done|]. intros i _. right. split; [done|].
    intros j Hj. by apply not_elem_of_nil in Hj.
  - run_inv. destruct a as [r1 fatal1]. apply run_job_outcome in Hrun as (Hnd1 & Hother & Hj); [|done].
    apply IH in E as [Herr Hres]; [|intros; apply HT; by constructor|done]. split.
    + intros i Hi. apply Herr. destruct Hj as [->|[-> _]]; [|done]. apply elem_of_app. by left.
    + intros i Hi. destruct (Hres i Hi) as [|[Hi1 Hno]]; [by left|].
      destruct (decide (i = job_image j)) as [->|Hne].
      * left. destruct Hj as [Hj|[_ Hj]].
        -- exfalso. apply Hi, Herr. rewrite Hj. apply elem_of_app. right. constructor.
        -- rewrite Hi1, Hj. apply HT. constructor.
      * right. split; [by rewrite Hi1, Hother|]. intros j' Hj'. apply elem_of_cons in Hj' as [->|Hj']; [done|]. by apply Hno.
Qed.

Lemma register_active images (s : warmer * S) u s' :
  register images s = (Ret u, s') → s'.1 = s.1.
Proof.
  intros E. eapply (stable_run (λ s0, s0.1 = s.1)) in E; [exact E| |done].
  unfold register, try_fleet. stable; apply (stable_object (λ a, a = s.1)).
Qed.

Lemma reconcile_reaches s report s' :
  NoDup (wa_active s.1).*1 → reconcile s = (Ret report, s') →
  ∀ image, image ∉ rp_errors report → dget image (wa_active s'.1) = dget image (desired s.1).
Proof.
  intros Hnd E image Hi. pose proof (desired_NoDup s.1) as Hw. unfold reconcile in E.
  unfold mbind at 1, M_bind at 1, self in E. destruct (jobs_of _ _) as [|j js] eqn:Ej.
  - apply mret_inv in E as [_ ->]. apply job_missing; [done|done|]. rewrite Ej. intros j Hj. by apply not_elem_of_nil in Hj.
  - run_inv. assert (s2.1 = s.1) as Hs.
    { assert (s0.1 = s.1) as H0s by (destruct (wa_register_images s.1); [by eapply register_active|by run_inv]).
      apply world_run_inv in Hrun0 as [_ H1s]. assert (s2.1 = s1.1) as ->; [|congruence].
      repeat case_match; run_inv; done || by eapply try_fleet_inv. }
    destruct a2 as [r [e|]]; [done|]. apply mret_inv in E as [-> ->].
    eapply (run_all_outcome (λ i, dget i (desired s.1))) in Hrun2 as [_ Hres]; [|rewrite <-Ej; by apply job_wants|by rewrite Hs].
    destruct (Hres image Hi) as [|[-> Hno]]; [done|]. rewrite Hs. apply job_missing; [done|done|]. by rewrite Ej.
Qed.

(** What counting replicas leaves alone *)
Lemma reconcile_keeps (Q : warmer → Prop) :
  (∀ a i n, Q a → Q (set_active (dset i n (wa_active a)) a)) →
  (∀ a i, Q a → Q (set_active (dpop i (wa_active a)) a)) →
  stable (λ s : warmer * S, Q s.1) (reconcile).
Proof.
  intros Hset Hpop. assert (∀ A (m : M S A), stable (λ s : warmer * S, Q s.1) (world m)) as Hw
    by (intros; apply (stable_object Q)).
  assert (∀ g, (∀ a, Q a → Q (g a)) → stable (λ s : warmer * S, Q s.1) (set_self g)) as Hu
    by (intros; by apply (stable_update Q)).
  assert (∀ js r fatal, stable (λ s : warmer * S, Q s.1) (run_all js r fatal)) as Hall.
  { intros js. induction js as [|[] js IH]; intros r fatal; cbn [run_all]; unfold run_job, note_active, try_fleet; stable. }
  unfold reconcile, register, try_fleet. stable. destruct (to_create _ _), a1; stable.
Qed.

Lemma reconcile_NoDup :
  stable (λ s : warmer * S, NoDup (wa_active s.1).*1) (reconcile).
Proof.
  apply (reconcile_keeps (λ a, NoDup (wa_active a).*1)); intros; cbn; [by apply dset_NoDup|by apply dpop_NoDup].
Qed.

Lemma reconcile_desired s r s' : reconcile s = (r, s') → desired s'.1 = desired s.1.
Proof.
  intros E. by eapply (stable_run (λ s0, desired s0.1 = desired s.1));
    [apply (reconcile_keeps (λ a, desired a = desired s.1))| |exact E].
Qed.

(** *** The calls of a training loop *)

Inductive warm_op :=
  | WarmAdd (id : string) (c : counts) (wait : bool) (timeout : option Z)
  | WarmFinish (id : string)
  | WarmClose.

Definition run_warm_op (op : warm_op) : M (warmer * S) WarmReport :=
  match op with
  | WarmAdd id c wait timeout => add id c wait timeout
  | WarmFinish id => finish id
  | WarmClose => close
  end.
(** Errors of earlier calls are the caller's *)
Definition run_warm_ops (ops : list warm_op) : M (warmer * S) () :=
  for_each ops (λ op, except (λ _, Some (mret ())) (_ ← run_warm_op op; mret ())).

(** A batch that is not live cannot be finished *)
Definition applies (op : warm_op) (a : warmer) : Prop :=
  match op with WarmFinish id => is_Some (dget id (wa_live a)) | _ => True end.

Lemma wait_ready_warmer (Q : warmer → Prop) images timeout replicas :
  stable (λ s : warmer * S, Q s.1) (wait_ready images timeout replicas).
Proof. unfold wait_ready. stable; apply (stable_object Q). Qed.

Lemma run_warm_op_NoDup op :
  stable (λ s : warmer * S, NoDup (wa_active s.1).*1) (run_warm_op op).
Proof.
  pose proof (reconcile_NoDup). pose proof (wait_ready_warmer (λ a, NoDup (wa_active a).*1)).
  assert (∀ g, (∀ a, wa_active (g a) = wa_active a) →
    stable (λ s : warmer * S, NoDup (wa_active s.1).*1) (set_self g)) as Hg.
  { intros g Hg. apply (stable_update (λ a, NoDup (wa_active a).*1)). intros a. by rewrite Hg. }
  destruct op; cbn [run_warm_op]; unfold add, apply, finish, close; stable; by apply Hg.
Qed.

(** A reconcile, then waiting or not *)
Lemma reconciled s report s' :
  NoDup (wa_active s.1).*1 → reconcile s = (Ret report, s') →
  ∀ image, image ∉ rp_errors report → dget image (wa_active s'.1) = dget image (desired s'.1).
Proof. intros Hnd E image Hi. rewrite (reconcile_desired _ _ _ E). by eapply reconcile_reaches. Qed.

Lemma apply_reaches c wait timeout s report s' :
  NoDup (wa_active s.1).*1 → apply c wait timeout s = (Ret report, s') →
  ∀ image, image ∉ rp_errors report → dget image (wa_active s'.1) = dget image (desired s'.1).
Proof.
  intros Hnd E. unfold apply in E. apply bind_ret_inv in E as (r & s1 & E1 & E).
  destruct wait; [|by apply mret_inv in E as [<- ->]; eapply reconciled].
  unfold mbind at 1, M_bind at 1, self in E. apply bind_ret_inv in E as (ready & s2 & E2 & E).
  apply mret_inv in E as [<- ->]. cbn. assert (s2.1 = s1.1) as ->; [|by eapply reconciled].
  by eapply (stable_run (λ s0, s0.1 = s1.1)); [apply (wait_ready_warmer (λ a, a = s1.1))| |exact E2].
Qed.


Lemma run_warm_op_reaches op s report s' :
  NoDup (wa_active s.1).*1 → applies op s.1 → run_warm_op op s = (Ret report, s') →
  ∀ image, image ∉ rp_errors report → dget image (wa_active s'.1) = dget image (desired s'.1).
Proof.
  intros Hnd Ha E image Hi. destruct s as [a s], op; cbn in E.
  - by eapply (apply_reaches _ _ _ (register_batch id c a, s)); [exact Hnd|exact E|].
  - unfold finish in E. unfold mbind at 1, M_bind at 1, self in E. destruct Ha as [c Hc]. cbn in E, Hc. rewrite Hc in E.
    eapply reconciled; [|exact E|done]. done.
  - eapply reconciled; [|exact E|done]. done.
Qed.

(** The live batches and the finished ones that are kept, after a call *)
Definition batches_after (keep : nat) (b : list (string * counts) * list counts) (op : warm_op) :=
  match op with
  | WarmAdd id c _ _ => (dset id (clean c) b.1, b.2)
  | WarmFinish id =>
      match dget id b.1 with
      | None => b
      | Some c => (dpop id b.1, let l := b.2 ++ [c] in drop (length l - keep) l)
      end
  | WarmClose => ([], [])
  end.

(** The batches of the warmer *)
Definition has_batches (b : list (string * counts) * list counts) (a : warmer) : Prop :=
  wa_live a = b.1 ∧ wa_finished a = b.2 ∧ (wa_keep_finished a = O → b.2 = []).
Lemma reconcile_batches keep b :
  stable (λ s : warmer * S, has_batches b s.1 ∧ wa_keep_finished s.1 = keep) reconcile.
Proof. by apply (reconcile_keeps (λ a, has_batches b a ∧ wa_keep_finished a = keep)). Qed.

Lemma run_warm_op_batches keep b op s :
  has_batches b s.1 ∧ wa_keep_finished s.1 = keep →
  has_batches (batches_after keep b op) (run_warm_op op s).2.1 ∧ wa_keep_finished (run_warm_op op s).2.1 = keep.
Proof.
  intros [(Hl & Hf & H0) Hk]. destruct s as [a s]. cbn in *.
  pose proof (λ b, wait_ready_warmer (λ a, has_batches b a ∧ wa_keep_finished a = keep)) as Hwait.
  destruct op as [id c wait timeout|id|]; cbn [run_warm_op batches_after].
  - assert (stable (λ s : warmer * S, has_batches (dset id (clean c) b.1, b.2) s.1 ∧ wa_keep_finished s.1 = keep)
      (apply (clean c) wait timeout)) as Ha by (pose proof (reconcile_batches keep); unfold apply; stable).
    apply (Ha (register_batch id c a, s)). unfold register_batch, has_batches. cbn. by rewrite Hl, Hf.
  - assert (finish id (a, s) = match dget id (wa_live a) with
      | None => (Ret empty_report, (a, s))
      | Some c => reconcile (set_batches (dpop id (wa_live a))
          (match wa_keep_finished a with O => wa_finished a | n => push_finished n c (wa_finished a) end) a, s)
      end) as -> by (unfold finish, mbind, M_bind, self; cbn; by destruct (dget id (wa_live a))).
    rewrite Hl. destruct (dget id b.1) as [c|]; [|exact (conj (conj Hl (conj Hf H0)) Hk)].
    apply (reconcile_batches keep). cbn. split; [|done]. unfold has_batches. cbn. rewrite Hf. split; [done|].
    destruct (wa_keep_finished a) as [|n] eqn:Ek; subst keep; [|by split].
    rewrite (H0 eq_refl). by split.
  - apply (reconcile_batches keep). by split.
Qed.
End convergence.

(** *** The calls that the fleet received *)

Inductive warm_call :=
  | CWarm (image : string) (n : Z) (o : outcome ())
  | CScale (image : string) (n : Z) (o : outcome ())
  | CUnwarm (image : string) (o : outcome ()).

Definition logged_warming {S} `{WarmFleet S} : WarmFleet (S * list warm_call) := {|
  wf_plan_ s := wf_plan_ s.1;
  wf_plan := unlogged wf_plan;
  wf_add_tasks ts := unlogged (wf_add_tasks ts);
  wf_warm_image image n := logging (CWarm image n) (wf_warm_image image n);
  wf_set_pool_replicas image n := logging (CScale image n) (wf_set_pool_replicas image n);
  wf_unwarm_image image := logging (CUnwarm image) (wf_unwarm_image image);
  wf_wait_pools_ready images timeout replicas := unlogged (wf_wait_pools_ready images timeout replicas);
|}.

(** The size of the pool of an image, from the calls that succeeded; [None]: there is
    none *)
Definition pool_size (image : string) (l : list warm_call) : option Z :=
  foldl (λ size c, match c with
                   | CWarm i n (Ret _) | CScale i n (Ret _) => if decide (i = image) then Some n else size
                   | CUnwarm i (Ret _) => if decide (i = image) then None else size
                   | _ => size
                   end) None l.
Lemma pool_size_snoc image l c :
  pool_size image (l ++ [c]) =
  match c with
  | CWarm i n (Ret _) | CScale i n (Ret _) => if decide (i = image) then Some n else pool_size image l
  | CUnwarm i (Ret _) => if decide (i = image) then None else pool_size image l
  | _ => pool_size image l
  end.
Proof. unfold pool_size. by rewrite foldl_app. Qed.
#[local] Arguments pool_size : simpl never.

(** The claims on an image in these batches, and the size of the pool they ask for *)
Definition claims_on (image : string) (c : counts) : Z :=
  foldr Z.add 0 ((λ kv, if decide (kv.1 = image) then Z.max 0 kv.2 else 0) <$> c).
Definition size_for (cap : Z) (image : string) (cs : list counts) : option Z :=
  let n := foldr Z.add 0 (claims_on image <$> cs) in if n =? 0 then None else Some (Z.min cap n).

Lemma claims_on_nonneg image c : 0 ≤ claims_on image c.
Proof. unfold claims_on. induction c as [|kv c IH]; cbn in *; [lia|]. case_decide; lia. Qed.

(** Totals that are positive where they are given *)
Definition totals (d : counts) (t : string → Z) : Prop :=
  ∀ image, 0 ≤ t image ∧ dget image d = if t image =? 0 then None else Some (t image).
Lemma add_counts_totals d t c :
  totals d t → totals (add_counts d c) (λ image, t image + claims_on image c).
Proof.
  unfold add_counts. revert d t. induction c as [|[i n] c IH]; intros d t Hd; cbn [foldl].
  { intros image. unfold claims_on. cbn. rewrite Z.add_0_r. apply Hd. }
  assert (totals (if 0 <? n then dadd i n d else d) (λ image, t image + if decide (i = image) then Z.max 0 n else 0)) as H1.
  { intros image. destruct (Hd image) as [H0 Hg]. destruct (Z.ltb_spec 0 n) as [Hn|Hn].
    - unfold dadd. destruct (decide (i = image)) as [->|Hne].
      + split; [lia|]. rewrite dget_dset_eq, Hg. replace (t image + Z.max 0 n =? 0) with false by (symmetry; apply Z.eqb_neq; lia).
        f_equal. destruct (Z.eqb_spec (t image) 0); cbn; lia.
      + rewrite dget_dset_ne by done. by rewrite Z.add_0_r.
    - replace (if decide (i = image) then Z.max 0 n else 0) with 0 by (case_decide; lia). by rewrite Z.add_0_r. }
  intros image. destruct (IH _ _ H1 image) as [H2 H3]. unfold claims_on in *. cbn [fmap list_fmap foldr fst snd] in *.
  by rewrite !Z.add_assoc.
Qed.

Lemma desired_size a image : dget image (desired a) = size_for (wa_cap a) image (wa_finished a ++ (wa_live a).*2).
Proof.
  unfold desired, size_for. generalize (wa_finished a ++ (wa_live a).*2) as cs. intros cs.
  assert (∀ d t, totals d t → totals (foldl add_counts d cs) (λ image, t image + foldr Z.add 0 (claims_on image <$> cs))) as Hf.
  { induction cs as [|c cs IH]; intros d t Hd; cbn.
    - intros i. rewrite Z.add_0_r. apply Hd.
    - intros i. specialize (IH _ _ (add_counts_totals d t c Hd) i). cbn in IH. by rewrite Z.add_assoc. }
  destruct (Hf [] (λ _, 0) (λ _, conj (Z.le_refl 0) eq_refl) image) as [_ Hg]. cbn in Hg.
  rewrite dget_fmap, Hg, Z.add_0_l. by destruct (_ =? 0).
Qed.

Section calls.
Context {S : Type} {Hfleet : WarmFleet S}.
#[local] Existing Instance logged_warming.
Abbreviation LS := (S * list warm_call)%type.

(** What the warmer takes for active is what the calls say. *)
Definition tracks (s : warmer * LS) : Prop :=
  NoDup (wa_active s.1).*1 ∧ ∀ image, pool_size image s.2.2 = dget image (wa_active s.1).

Lemma try_logged (entry : outcome () → warm_call) (m : M S ()) (a : warmer) s l :
  try_fleet (logging entry m) (a, (s, l)) =
  let '(o, s') := m s in
  (match o with Ret u => Ret (inr u) | Raise e => Ret (inl e) | NoFuel => NoFuel end, (a, (s', l ++ [entry o]))).
Proof. unfold try_fleet, except, mbind, M_bind, world, logging. cbn. by destruct (m s) as [[]]. Qed.

Lemma failed_tracks a (s s' : S) l c :
  tracks (a, (s, l)) → (∀ image, pool_size image (l ++ [c]) = pool_size image l) → tracks (a, (s', l ++ [c])).
Proof. intros [Hnd Ht] Hc. split; [done|]. intros image. rewrite <-Ht. apply Hc. Qed.
Lemma sized_tracks a (s s' : S) l c i n :
  tracks (a, (s, l)) → (∀ image, pool_size image (l ++ [c]) = if decide (i = image) then Some n else pool_size image l) →
  tracks (set_active (dset i n (wa_active a)) a, (s', l ++ [c])).
Proof.
  intros [Hnd Ht] Hc. split; [by apply dset_NoDup|]. intros image. cbn. rewrite Hc. case_decide as Hi.
  - subst. by rewrite dget_dset_eq.
  - rewrite dget_dset_ne by done. apply Ht.
Qed.
Lemma removed_tracks a (s s' : S) l c i :
  tracks (a, (s, l)) → (∀ image, pool_size image (l ++ [c]) = if decide (i = image) then None else pool_size image l) →
  tracks (set_active (dpop i (wa_active a)) a, (s', l ++ [c])).
Proof.
  intros [Hnd Ht] Hc. split; [by apply dpop_NoDup|]. intros image. cbn. rewrite Hc, dget_dpop by done.
  destruct (decide (i = image)) as [->|Hne]; [by rewrite decide_True|]. rewrite decide_False by done. apply Ht.
Qed.

Lemma run_job_tracks j r fatal : stable tracks (run_job j r fatal).
Proof.
  intros [a [s l]] Ht. unfold run_job. rewrite (bind_step _ _ _ a (a, (s, l))) by done.
  destruct j as [i n|i n|i]; cbn [wf_warm_image wf_set_pool_replicas wf_unwarm_image logged_warming];
    unfold mbind at 1, M_bind at 1; rewrite try_logged.
  1: destruct (wf_warm_image i n s) as [[[]|e|] s1].
  4: destruct (wf_set_pool_replicas i n s) as [[[]|e|] s1].
  7: destruct (wf_unwarm_image i s) as [[[]|e|] s1].
  1, 4: apply (sized_tracks a s s1 l); [done|intros image; by rewrite pool_size_snoc].
  5: apply (removed_tracks a s s1 l); [done|intros image; by rewrite pool_size_snoc].
  all: apply (failed_tracks a s s1 l); [done|intros image; by rewrite pool_size_snoc].
Qed.

Lemma quiet_tracks {A} (m : M LS A) : (∀ s, (m s).2.2 = s.2) → stable tracks (world m).
Proof.
  intros Hm [a s] [Hnd Ht]. specialize (Hm s). unfold world. cbn in *. destruct (m s) as [o s']. cbn in *.
  split; [done|]. cbn. by rewrite Hm.
Qed.
Lemma unlogged_tracks {A} (m : M S A) : stable tracks (world (unlogged m)).
Proof. apply quiet_tracks. intros s. unfold unlogged. by destruct (m s.1). Qed.
Lemma gets_tracks {A} (f : LS → A) : stable tracks (world (gets f)).
Proof. by apply quiet_tracks. Qed.
Lemma update_tracks g : (∀ a, wa_active (g a) = wa_active a) → stable tracks (set_self g).
Proof. intros Hg [a s] [Hnd Ht]. unfold tracks. cbn in *. by rewrite Hg. Qed.

Lemma reconcile_tracks : stable tracks reconcile.
Proof.
  assert (∀ js r fatal, stable tracks (run_all js r fatal)) as Hall.
  { intros js. induction js as [|j js IH]; intros r fatal; cbn [run_all]; [stable|].
    pose proof (run_job_tracks j r fatal). stable. }
  pose proof (@gets_tracks).
  assert (∀ ts, stable tracks (world (wf_add_tasks ts))) by (intros; apply unlogged_tracks).
  assert (stable tracks (world wf_plan)) by apply unlogged_tracks.
  unfold reconcile, register, try_fleet. stable. destruct (to_create _ _), a1; stable.
Qed.

Lemma run_warm_op_tracks op : stable tracks (run_warm_op op).
Proof.
  pose proof reconcile_tracks. pose proof update_tracks as Hu.
  assert (∀ images timeout replicas, stable tracks (wait_ready images timeout replicas)) as Hw.
  { intros. unfold wait_ready. stable; apply unlogged_tracks. }
  destruct op; cbn [run_warm_op]; unfold add, apply, finish, close; stable; by apply Hu.
Qed.

Lemma run_warm_op_cap op c : stable (λ s : warmer * LS, wa_cap s.1 = c) (run_warm_op op).
Proof.
  assert (stable (λ s : warmer * LS, wa_cap s.1 = c) reconcile) by (by apply (reconcile_keeps (λ a, wa_cap a = c))).
  pose proof (wait_ready_warmer (S := LS) (λ a, wa_cap a = c)) as Hw.
  assert (∀ g, (∀ a, wa_cap (g a) = wa_cap a) → stable (λ s : warmer * LS, wa_cap s.1 = c) (set_self g)) as Hg.
  { intros g Hg. apply (stable_update (λ a, wa_cap a = c)). intros a. by rewrite Hg. }
  destruct op; cbn [run_warm_op]; unfold add, apply, finish, close; stable; by apply Hg.
Qed.

(** After any calls, the warmer has the batches they left and knows the pools. *)
Definition consistent (cap : Z) (keep : nat) b (s : warmer * LS) : Prop :=
  tracks s ∧ has_batches b s.1 ∧ wa_keep_finished s.1 = keep ∧ wa_cap s.1 = cap.
Lemma run_warm_op_consistent cap keep b op s :
  consistent cap keep b s → consistent cap keep (batches_after keep b op) (run_warm_op op s).2.
Proof.
  intros (Ht & Hb & Hk & Hc). split; [by apply run_warm_op_tracks|].
  destruct (run_warm_op_batches keep b op s (conj Hb Hk)) as [? ?]. split_and!; [done|done|by apply run_warm_op_cap].
Qed.
Lemma run_warm_ops_consistent cap keep ops b s s' :
  consistent cap keep b s → run_warm_ops ops s = (Ret (), s') → consistent cap keep (foldl (batches_after keep) b ops) s'.
Proof.
  revert b s. induction ops as [|op ops IH]; intros b s Hs E; cbn in E; [by apply mret_inv in E as [_ ->]|].
  apply bind_ret_inv in E as ([] & s1 & E1 & E). eapply IH; [|exact E]. clear E.
  pose proof (run_warm_op_consistent cap keep b op s Hs) as H1. unfold except, mbind, M_bind in E1.
  destruct (run_warm_op op s) as [[x|e|] s2]; cbn in *; [by injection E1 as <-|by injection E1 as <-|done].
Qed.

(** C22. The warmer converges: after any batches were added, finished and closed, with
    whatever errors, a call that reconciles and returns leaves the pool of every image
    without an error in its report, as the calls that the fleet accepted make it, at
    exactly the claims on it in the live batches and the last [keep] finished ones,
    up to the cap, and without a pool when there are none. (Finishing a batch that is not
    live reconciles nothing; a call that fails counts as one that changed nothing.) *)
Theorem warmer_converges f s cap keep fail_fast register ops op a' w' report s' l :
  run_warm_ops ops (new_warmer f cap keep fail_fast register, (s, [])) = (Ret (), (a', w')) →
  applies op a' → (∃ a, run_warm_op op (a', w') = (Ret report, (a, (s', l)))) →
  let '(live, kept) := foldl (batches_after (Z.to_nat keep)) ([], []) (ops ++ [op]) in
  ∀ image, image ∉ rp_errors report →
    pool_size image l = size_for (default (fc_max_warmpool_size (f_config f)) cap) image (kept ++ live.*2).
Proof.
  intros E1 Ha [a E2].
  set (C := default (fc_max_warmpool_size (f_config f)) cap). set (K := Z.to_nat keep).
  assert (consistent C K ([], []) (new_warmer f cap keep fail_fast register, (s, []))) as H0
    by (split; [split; [constructor|done]|]; by split_and!).
  pose proof (run_warm_ops_consistent C K _ _ _ _ H0 E1) as H1.
  pose proof (run_warm_op_consistent C K _ op _ H1) as H2. rewrite E2, <-foldl_snoc in H2. cbn in H2.
  destruct (foldl _ _ (ops ++ [op])) as [live kept]. intros image Hi.
  destruct H2 as ([_ Ht] & (Hl & Hf & _) & _ & Hc). cbn in Ht, Hl, Hf, Hc.
  assert (NoDup (wa_active a').*1) as Hnd by apply H1.
  pose proof (run_warm_op_reaches op (a', w') report _ Hnd Ha E2 image Hi) as Hd. cbn in Hd.
  by rewrite Ht, Hd, desired_size, Hl, Hf, Hc.
Qed.
End calls.

Definition sim_warm_ops : list warm_op :=
  [WarmAdd "batch-1" [("img:a", 3); ("img:b", 9)] false None; WarmAdd "batch-2" [("img:a", 1)] false None].

Definition sim_warming : WarmFleet ((fleet * sim) * list warm_call) :=
  @logged_warming _ (fleet_warming sim_fsum no_special 5).
Definition sim_warmed : option (outcome () * (warmer * ((fleet * sim) * list warm_call))) :=
  s ← new_sim_fleet false None None empty_sim;
  Some (run_warm_ops (H := sim_warming) sim_warm_ops (new_warmer s.1 None 0 false true, (s, []))).
Definition sim_finished : option (outcome WarmReport * (warmer * ((fleet * sim) * list warm_call))) :=
  r ← sim_warmed; Some (run_warm_op (H := sim_warming) (WarmFinish "batch-1") r.2).

(** Finishing the first batch leaves one replica for the second one and no pool for the
    image that only the first one used. *)
Lemma warmer_converges_witness :
  ∃ report a s' l, sim_finished = Some (Ret report, (a, (s', l))) ∧ rp_errors report = [] ∧
  pool_size "img:a" l = Some 1 ∧ pool_size "img:b" l = None ∧
  ∀ image, image ∉ rp_errors report → pool_size image l = size_for 4 image [[("img:a", 1)]].
Proof.
  assert (∀ report a s' l, sim_finished = Some (Ret report, (a, (s', l))) →
    ∀ image, image ∉ rp_errors report → pool_size image l = size_for 4 image [[("img:a", 1)]]) as Hw.
  { intros report a s' l. unfold sim_finished, sim_warmed, mbind, option_bind.
    destruct (new_sim_fleet false None None empty_sim) as [s|] eqn:Es; [|done].
    destruct (run_warm_ops sim_warm_ops _) as [o [a1 w1]] eqn:E1. intros [= E2] image Hi.
    assert (o = Ret () ∧ is_Some (dget "batch-1" (wa_live a1)) ∧ fc_max_warmpool_size (f_config s.1) = 4) as (-> & Ha & Hc).
    { vm_compute in Es. injection Es as <-. vm_compute in E1. injection E1 as <- <- _. by split_and!; [|eexists|]. }
    pose proof (warmer_converges (Hfleet := fleet_warming sim_fsum no_special 5) s.1 s None 0 false true sim_warm_ops
      (WarmFinish "batch-1") a1 w1 report s' l E1 Ha (ex_intro _ a E2) image Hi) as Hp.
    cbn [default] in Hp. rewrite Hc in Hp. exact Hp. }
  eexists _, _, _, _. split; [vm_compute; reflexivity|]. do 3 (split; [reflexivity|]).
  eapply Hw. vm_compute. reflexivity.
Defined.
