(* ===== verification/RlStrategies.v ===== *)
(** Running all tasks: models [strategies.py] of
    [src/examples/agent-sandbox-rl/agent_sandbox_rl], [run] of [fleet.py], and the
    runs of [async_fleet.py].

    [process_fn] is the caller's. The tasks of a batch run one after another, and the
    next window of the pipelined strategy is warmed when its job is submitted.
    An executor runs the tasks of a batch; [Executor] is what the strategies need of it.
    Observability and the circuit breaker around a run ([RlFleet]) are left out. *)

From Stdlib Require Import Ascii String ZArith Lia.
From stdpp Require Import base option list strings sets.
From S2P Require Import Prelude Hoare Float Json PyList PyText IpAddress Models Utils World K8sHelper DateTime Budget Snapshots RlResources RlConfig RlHandles RlFleet RlOwnership RlFleetOwnership RlFleetProofs RlSim.

#[local] Open Scope Z_scope.

Section strategies.
Context {W : Type} `{Clock W} `{Sdk W} `{PodExec W} `{Clusters W}.
Context (fsum : list pyfloat → pyfloat) (special : list ascii → outcome (list ascii)).
Context {R : Type} (process_fn : task → nat → M (fleet * W) R).
(** [fleet.preflight()] *)
Context (preflight : M (fleet * W) ()).

Abbreviation FM := (M (fleet * W)).
(** The result of a task, or the exception that was captured *)
Abbreviation result := (exn + R)%type.

(** [_one]: acquire, process, release *)
Definition process_one (t : task) : FM R :=
  h ← acquire special (t_image t) None [];
  finally (release h false) (process_fn t h).

Fixpoint process_parallel (tasks : list task) : FM (list result) :=
  match tasks with
  | [] => mret []
  | t :: rest => r ← attempt (process_one t); rs ← process_parallel rest; mret (r :: rs)
  end.

(** [_process_parallel] of the asynchronous fleet: the results are written at the
    position of their task; [none] is Python's [None] *)
Fixpoint write_each (i : nat) (tasks : list task) (results : list (option result)) : FM (list (option result)) :=
  match tasks with
  | [] => mret results
  | t :: rest => r ← attempt (process_one t); write_each (S i) rest (<[i := Some r]> results)
  end.
Definition aprocess_parallel (none : R) (tasks : list task) : FM (list result) :=
  results ← write_each 0 tasks (replicate (length tasks) None); mret (default (inr none) <$> results).

(** What runs a batch of tasks *)
Context (executor : list task → FM (list result)).

Definition when (b : bool) (m : FM ()) : FM () := if b then m else mret ().

Definition run_naive (fuel : nat) (hooks teardown_after : bool) : FM (list result) :=
  finally (when teardown_after (teardown fsum special false))
    (_ ← setup fsum special fuel hooks preflight None; f ← self; executor (f_tasks f)).

(** [by_image[img]]: the tasks of the image with their positions *)
Definition pairs_of (tasks : list task) (image : string) : list (nat * task) :=
  filter (λ it, t_image it.2 = image) (zip (seq 0 (length tasks)) tasks).

(** [results[i] = r] for the pairs of a batch *)
Fixpoint write_results (pairs : list (nat * task)) (rs : list result) (results : list (option result))
    : outcome (list (option result)) :=
  match pairs, rs with
  | [], [] => Ret results
  | (i, _) :: pairs', r :: rs' => write_results pairs' rs' (<[i := Some r]> results)
  | _, _ => Raise ValueError
  end.

(** [images[start:start + window]] for each start *)
Fixpoint chunks (fuel : nat) (window : nat) (images : list string) : list (list string) :=
  match fuel, images with
  | S fuel', _ :: _ => take window images :: chunks fuel' window (drop window images)
  | _, _ => []
  end.

(** The batches of [range(0, len(images), window)]; a step of zero is refused *)
Definition batches (window : Z) (images : list string) : outcome (list (list string)) :=
  if window =? 0 then Raise ValueError
  else if window <? 0 then Ret []
  else Ret (chunks (length images) (Z.to_nat window) images).

(** How the pools of a batch are removed: one by one, or together when asynchronous *)
Definition unwarm_each (batch : list string) : FM () := for_each batch (unwarm_image fsum special).

Definition run_batch (unwarm : list string → FM ()) (tasks : list task) (batch : list string)
    (results : list (option result)) : FM (list (option result)) :=
  let pairs := batch ≫= pairs_of tasks in
  rs ← executor pairs.*2;
  results ← lift (write_results pairs rs results);
  _ ← unwarm batch;
  mret results.

Fixpoint run_windows (unwarm : list string → FM ()) (fuel : nat) (override : option Z) (tasks : list task)
    (bs : list (list string)) (results : list (option result)) : FM (list (option result)) :=
  match bs with
  | [] => mret results
  | b :: bs' =>
      _ ← warm_images fsum special fuel b override true;
      results ← run_batch unwarm tasks b results;
      run_windows unwarm fuel override tasks bs' results
  end.

(** [_run_windowed] *)
Definition run_windowed (unwarm : list string → FM ()) (fuel : nat) (window : Z) (override : option Z)
    (teardown_after : bool) : FM (list (option result)) :=
  _ ← (_ ← ensure_run_namespaces; preflight);
  _ ← plan fsum special;
  f ← self;
  let tasks := f_tasks f in
  let images := (image_counts tasks).*1 in
  finally (when teardown_after (teardown fsum special false))
    (bs ← lift (batches window images);
     run_windows unwarm fuel override tasks bs (replicate (length tasks) None)).

(** The loop of [_run_pipelined]: the next window is warmed before the tasks of this
    one run, and its error surfaces after this one is unwarmed *)
Fixpoint pipeline (unwarm : list string → FM ()) (fuel : nat) (tasks : list task) (bs : list (list string))
    (results : list (option result)) : FM (list (option result)) :=
  match bs with
  | [] => mret results
  | b :: bs' =>
      nxt ← match bs' with
            | next :: _ => r ← attempt (warm_images fsum special fuel next None true); mret (Some r)
            | [] => mret None
            end;
      results ← run_batch unwarm tasks b results;
      _ ← match nxt with Some (inl e) => raise e | _ => mret () end;
      pipeline unwarm fuel tasks bs' results
  end.

(** [_run_pipelined] *)
Definition run_prefetched (unwarm : list string → FM ()) (fuel : nat) (window : Z) (teardown_after : bool)
    : FM (list (option result)) :=
  _ ← (_ ← ensure_run_namespaces; preflight);
  _ ← plan fsum special;
  f ← self;
  let tasks := f_tasks f in
  let images := (image_counts tasks).*1 in
  bs ← lift (batches window images);
  finally (when teardown_after (teardown fsum special false))
    (_ ← match bs with b :: _ => warm_images fsum special fuel b None true | [] => mret () end;
     pipeline unwarm fuel tasks bs (replicate (length tasks) None)).

Definition run_pipelined (unwarm : list string → FM ()) (fuel : nat) (teardown_after : bool)
    : FM (list (option result)) :=
  f ← self; window ← lift (recommended_window f true); run_prefetched unwarm fuel window teardown_after.

Definition run_sliding (unwarm : list string → FM ()) (fuel : nat) (teardown_after : bool)
    : FM (list (option result)) :=
  f ← self; window ← lift (recommended_window f false); run_windowed unwarm fuel window None teardown_after.

Definition run_none (unwarm : list string → FM ()) (fuel : nat) (teardown_after : bool)
    : FM (list (option result)) :=
  run_windowed unwarm fuel 1 (Some 1) teardown_after.

(** [STRATEGIES] *)
Definition dispatch (unwarm : list string → FM ()) (fuel : nat) (hooks : bool) (strategy : string)
    (teardown_after : bool) : FM (list (option result)) :=
  if (strategy =? "none")%string then run_none unwarm fuel teardown_after
  else if (strategy =? "naive")%string then rs ← run_naive fuel hooks teardown_after; mret (Some <$> rs)
  else if (strategy =? "sliding")%string then run_sliding unwarm fuel teardown_after
  else run_pipelined unwarm fuel teardown_after.
Definition strategies : list string := ["none"; "naive"; "sliding"; "pipelined"].

(** ** [SandboxFleet.run] *)

Definition run_strategy (fuel : nat) (hooks : bool) (strategy : string) (teardown_after : bool)
    : FM (list (option result)) :=
  dispatch unwarm_each fuel hooks strategy teardown_after.

(** The epochs: the last one tears down, and one that fails before it does too *)
Fixpoint run_epochs (once : bool → FM (list (option result))) (keep_warm : bool) (n : nat)
    : FM (list (list (option result))) :=
  match n with
  | O => mret []
  | S n' =>
      let last := bool_decide (n' = 0%nat) in
      r ← except (λ e, Some (_ ← when (negb keep_warm && negb last) (teardown fsum special false); raise e))
            (once (last && negb keep_warm));
      rs ← run_epochs once keep_warm n'; mret (r :: rs)
  end.

(** One pass or several, over a fleet that has a plan *)
Definition run_passes (once : bool → FM (list (option result))) (epochs : Z) (keep_warm : bool)
    : FM (list (list (option result))) :=
  if epochs <? 1 then raise ValueError
  else
    f ← self;
    _ ← match f_plan f with None => _ ← plan fsum special; mret () | Some _ => mret () end;
    if epochs =? 1 then r ← once (negb keep_warm); mret [r]
    else run_epochs once keep_warm (Z.to_nat epochs).

Definition run (fuel : nat) (hooks : bool) (strategy : string) (epochs : Z) (keep_warm : bool)
    : FM (list (list (option result))) :=
  if negb (str_mem strategy strategies) then raise ValueError
  else run_passes (run_strategy fuel hooks strategy) epochs keep_warm.

(** ** [AsyncSandboxFleet.run]

    The same passes; an unknown strategy is noticed when the first one starts. *)

(** The pools of a window are removed together *)
Definition arun_windowed := run_windowed (unwarm_images fsum special).
Definition arun_pipelined := run_prefetched (unwarm_images fsum special).

(** [_run_once] *)
Definition arun_once (fuel : nat) (hooks : bool) (strategy : string) (teardown_after : bool)
    : FM (list (option result)) :=
  if (strategy =? "naive")%string then rs ← run_naive fuel hooks teardown_after; mret (Some <$> rs)
  else if (strategy =? "sliding")%string then
    f ← self; window ← lift (recommended_window f false); arun_windowed fuel window None teardown_after
  else if (strategy =? "pipelined")%string then
    f ← self; window ← lift (recommended_window f true); arun_pipelined fuel window teardown_after
  else if (strategy =? "none")%string then arun_windowed fuel 1 (Some 1) teardown_after
  else raise ValueError.

Definition arun (fuel : nat) (hooks : bool) (strategy : string) (epochs : Z) (keep_warm : bool)
    : FM (list (list (option result))) :=
  run_passes (arun_once fuel hooks strategy) epochs keep_warm.
End strategies.

(** ** Windows cover the images *)

Lemma chunks_concat fuel window images :
  (1 ≤ window)%nat → (length images ≤ fuel)%nat → concat (chunks fuel window images) = images.
Proof.
  intros Hw. revert images. induction fuel as [|fuel IH]; intros images Hl; [by destruct images; cbn in *; [|lia]|].
  destruct images as [|i images]; [done|]. cbn [chunks concat]. rewrite IH; [by rewrite take_drop|].
  rewrite length_drop. cbn in *. lia.
Qed.

Lemma pairs_of_elem tasks image i t :
  (i, t) ∈ pairs_of tasks image ↔ tasks !! i = Some t ∧ t_image t = image.
Proof.
  unfold pairs_of. rewrite list_elem_of_filter. cbn.
  assert ((i, t) ∈ zip (seq 0 (length tasks)) tasks ↔ tasks !! i = Some t) as ->; [|tauto].
  rewrite list_elem_of_lookup. setoid_rewrite lookup_zip_Some. split.
  - intros (k & Hk & Ht). apply lookup_seq in Hk as [-> _]. done.
  - intros Ht. exists i. split; [|done]. apply lookup_seq. split; [done|]. by eapply lookup_lt_Some.
Qed.

Section results.
Context {R : Type}.
Abbreviation result := (exn + R)%type.
Context (P : task → result → Prop) (tasks : list task).

(** The position [i] holds the result of its task *)
Definition written (results : list (option result)) (i : nat) : Prop :=
  ∃ t r, tasks !! i = Some t ∧ results !! i = Some (Some r) ∧ P t r.

Lemma write_results_written pairs rs results results' :
  (∀ i t, (i, t) ∈ pairs → tasks !! i = Some t) → Forall2 P pairs.*2 rs → length results = length tasks →
  write_results pairs rs results = Ret results' →
  length results' = length tasks ∧ ∀ i, (written results i ∨ i ∈ pairs.*1) → written results' i.
Proof.
  revert rs results. induction pairs as [|[i t] pairs IH]; intros [|r rs] results Hp HP Hlen E; cbn in E; try done.
  - simplify_eq. split; [done|]. intros i [|Hi]; [done|]. by apply not_elem_of_nil in Hi.
  - apply Forall2_cons in HP as [Hr HP].
    assert (tasks !! i = Some t) as Ht by (apply Hp; constructor).
    assert (i < length results)%nat as Hi by (rewrite Hlen; by eapply lookup_lt_Some).
    eapply IH in E as [Hl Hw]; [|intros; apply Hp; by constructor|done|by rewrite length_insert].
    split; [done|]. intros j Hj. apply Hw.
    destruct (decide (i = j)) as [<-|Hne].
    + left. exists t, r. by rewrite list_lookup_insert_eq.
    + destruct Hj as [(t' & r' & ?)|Hj].
      * left. exists t', r'. by rewrite list_lookup_insert_ne.
      * right. cbn in Hj. apply elem_of_cons in Hj as [->|]; done.
Qed.
End results.

(** ** What planning and warming leave alone *)

Section outer.
Context {W : Type} `{Clock W} `{Sdk W} `{PodExec W} `{Clusters W}.
Context (fsum : list pyfloat → pyfloat) (special : list ascii → outcome (list ascii)).

Definition outer (f : fleet) : bool * list task := (f_torndown f, f_tasks f).
Definition same_outer (s s' : fleet * W) : Prop := outer s'.1 = outer s.1.
#[local] Instance same_outer_preorder : PreOrder same_outer.
Proof. split; [done|]. intros ??? E1 E2. unfold same_outer in *. congruence. Qed.
Abbreviation keeps m := (∀ s, moves same_outer m s).

Lemma outer_world {A} (m : M W A) : keeps (world m).
Proof. intros [f w]. unfold moves, world. cbn. by destruct (m w). Qed.
Lemma outer_set_self g : (∀ f, outer (g f) = outer f) → keeps (set_self g).
Proof. intros Hg [f w]. apply Hg. Qed.
Lemma outer_on_cluster n g : keeps (on_cluster n g).
Proof. apply outer_set_self. intros f. by case_match. Qed.
Lemma outer_attempt {A} (m : M (fleet * W) A) s : moves same_outer m s → moves same_outer (attempt m) s.
Proof. intros. unfold attempt. moves. Qed.
#[local] Hint Resolve outer_world outer_set_self outer_on_cluster outer_attempt : moves.
Ltac outer := moves_with ltac:(fun _ => first [progress unfold logged | simple apply outer_attempt]).

Lemma outer_ensure_rounds labels created cs : keeps (ensure_rounds labels created cs).
Proof.
  revert created. induction cs as [|c cs IH]; intros created s; cbn [ensure_rounds]; unfold r_ensure_namespace; outer.
Qed.
#[local] Hint Resolve outer_ensure_rounds : moves.
Lemma outer_namespaces : keeps ensure_run_namespaces.
Proof. intros s. unfold ensure_run_namespaces, roll_back_namespace, r_delete_namespace. outer. Qed.
Lemma outer_place_images counts : keeps (place_images counts).
Proof. induction counts as [|[image n] counts IH]; intros s; cbn [place_images]; outer. Qed.
Lemma outer_discover_all cs : keeps (discover_all cs).
Proof. induction cs as [|c cs IH]; intros s; cbn [discover_all]; unfold r_discover_pools; outer. Qed.
#[local] Hint Resolve outer_namespaces outer_place_images outer_discover_all : moves.
Lemma outer_plan : keeps (plan fsum special).
Proof. intros s. unfold plan, plan_adopt. outer. Qed.
#[local] Hint Resolve outer_plan : moves.
Lemma outer_the_plan : keeps (the_plan fsum special).
Proof. intros s. unfold the_plan. outer. Qed.
Lemma outer_run_jobs {A} (job : A → M (fleet * W) ()) err l : (∀ a, keeps (job a)) → keeps (run_jobs job err l).
Proof. intros Hj. revert err. induction l as [|a l IH]; intros err s; cbn [run_jobs]; outer. Qed.
#[local] Hint Resolve outer_the_plan outer_run_jobs : moves.
Lemma outer_warm_entry fuel e wait override : keeps (warm_entry fuel e wait override).
Proof.
  intros s. unfold warm_entry, adopt_entry, own_template, warm_pool, await_pool, the_cluster, r_ensure_template,
    r_warm_shared_pool, r_create_warmpool, r_wait_for_pool_ready. outer.
Qed.
#[local] Hint Resolve outer_warm_entry : moves.
Lemma outer_warm_images fuel images override wait : keeps (warm_images fsum special fuel images override wait).
Proof. intros s. unfold warm_images, warm_entries. outer. Qed.
Lemma outer_unwarm_entry e : keeps (unwarm_entry e).
Proof.
  intros s. unfold unwarm_entry, keep_warmed, the_cluster, pool_ownership, delete_inspected,
    delete_template_if_owned, r_get_warmpool, r_get_template, r_delete_warmpool, r_delete_template. outer.
  by repeat case_match; outer.
Qed.
#[local] Hint Resolve outer_unwarm_entry : moves.
Lemma outer_unwarm_image image : keeps (unwarm_image fsum special image).
Proof. intros s. unfold unwarm_image. outer. Qed.
Lemma outer_unwarm_each batch : keeps (unwarm_each fsum special batch).
Proof.
  intros s. unfold unwarm_each. apply moves_for_each; [apply _|]. intros. apply outer_unwarm_image.
Qed.
Lemma outer_unwarm_images images : keeps (unwarm_images fsum special images).
Proof. intros s. unfold unwarm_images. outer. Qed.
End outer.

(** ** What no operation of a run changes: the tasks *)

Section tasks.
Context {W : Type} `{Clock W} `{Sdk W} `{PodExec W} `{Clusters W}.
Context (fsum : list pyfloat → pyfloat) (special : list ascii → outcome (list ascii)).

Definition same_tasks (s s' : fleet * W) : Prop := f_tasks s'.1 = f_tasks s.1.
#[local] Instance same_tasks_preorder : PreOrder same_tasks.
Proof. split; [done|]. intros ??? E1 E2. unfold same_tasks in *. congruence. Qed.
Abbreviation keeps m := (∀ s, moves same_tasks m s).

Lemma tasks_outer {A} (m : M (fleet * W) A) s : moves same_outer m s → moves same_tasks m s.
Proof. by intros [=]. Qed.
Lemma tasks_world {A} (m : M W A) : keeps (world m).
Proof. intros s. apply tasks_outer, outer_world. Qed.
Lemma tasks_set_self g : (∀ f, f_tasks (g f) = f_tasks f) → keeps (set_self g).
Proof. intros Hg [f w]. apply Hg. Qed.
Lemma tasks_on_cluster n g : keeps (on_cluster n g).
Proof. intros s. apply tasks_outer, outer_on_cluster. Qed.
Lemma tasks_attempt {A} (m : M (fleet * W) A) s : moves same_tasks m s → moves same_tasks (attempt m) s.
Proof. intros. unfold attempt. moves. Qed.
Lemma tasks_update_handle id g f : f_tasks (update_handle id g f) = f_tasks f.
Proof. unfold update_handle. by case_match. Qed.
Lemma tasks_on_handle {A} id (m : M (handle * W) A) : keeps (on_handle id m).
Proof.
  intros s. unfold moves, same_tasks, on_handle. destruct (f_heap s.1 !! id); [|done]. destruct (m _) as [r [h' w']].
  apply tasks_update_handle.
Qed.
Lemma tasks_section {A} (g : fleet → outcome (A * fleet)) :
  (∀ f a f', g f = Ret (a, f') → f_tasks f' = f_tasks f) → keeps (section g).
Proof.
  intros Hg s. unfold moves, same_tasks, section. destruct (g s.1) as [[a f']| |] eqn:E; [by eapply Hg|done|done].
Qed.
Lemma tasks_identify h : keeps (identify h).
Proof. intros s. unfold moves, same_tasks, identify. by destruct (record_pod_identity _) as [? []]. Qed.
#[local] Hint Resolve tasks_world tasks_set_self tasks_on_cluster tasks_attempt tasks_update_handle tasks_on_handle
  tasks_section tasks_identify : moves.
Ltac same := moves_with ltac:(fun _ => first [progress unfold logged | simple apply tasks_attempt]).

Lemma tasks_release id del : keeps (release id del).
Proof.
  intros s. unfold release, doomed_snapshots, snapshot_uids_by_label, settle_release, delete_one_snapshot, the_cluster.
  same. destruct s as [f0 w]. unfold untrack_handle in *. by case_decide; simplify_eq.
Qed.
Lemma tasks_find_target image : keeps (find_target special image).
Proof. intros s. unfold find_target, the_cluster, ensure_pool, r_ensure_template, r_create_warmpool. same. Qed.
Lemma tasks_make_claim ff t image claim annotations : keeps (make_claim ff t image claim annotations).
Proof.
  intros s. unfold make_claim, undo_claim, remove_ondemand, pool_ownership, delete_inspected, delete_template_if_owned,
    claim_details, r_get_warmpool, r_get_template, r_delete_warmpool, r_delete_template, r_delete_claim. same.
Qed.
Lemma tasks_take_slot : keeps (section (λ f, f' ← take_slot f; Ret (tt, f'))).
Proof. apply tasks_section. intros f a f' E. run_inv. simplify_eq. unfold take_slot in *. by case_match; simplify_eq. Qed.
Lemma tasks_track h : keeps (section (λ f, Ret (track_handle h f))).
Proof. apply tasks_section. intros f a f' [= E]. unfold track_handle in E. by case_match; simplify_eq. Qed.
#[local] Hint Resolve tasks_release tasks_find_target tasks_make_claim tasks_take_slot tasks_track : moves.
Lemma tasks_acquire image snapshot_uid annotations : keeps (acquire special image snapshot_uid annotations).
Proof.
  intros s. unfold acquire, acquire_reserved. same.
Qed.
Lemma tasks_unwarm_image image : keeps (unwarm_image fsum special image).
Proof. intros s. apply tasks_outer, outer_unwarm_image. Qed.
Lemma tasks_warm_images fuel images override wait : keeps (warm_images fsum special fuel images override wait).
Proof. intros s. apply tasks_outer, outer_warm_images. Qed.
Lemma tasks_plan : keeps (plan fsum special).
Proof. intros s. apply tasks_outer, outer_plan. Qed.
Lemma tasks_namespaces : keeps ensure_run_namespaces.
Proof. intros s. apply tasks_outer, outer_namespaces. Qed.
#[local] Hint Resolve tasks_unwarm_image tasks_warm_images tasks_plan tasks_namespaces tasks_acquire : moves.

Lemma tasks_warm_waves fuel wait ws : keeps (warm_waves fuel wait ws).
Proof.
  induction ws as [|w [|w' ws] IH]; intros s; [done|apply tasks_outer, outer_run_jobs; intros; apply outer_warm_entry|].
  apply moves_bind; [apply _| |auto]. apply tasks_outer, outer_run_jobs. intros; apply outer_warm_entry.
Qed.
Lemma tasks_start_warmpools fuel wait budget : keeps (start_warmpools fsum special fuel wait budget).
Proof.
  intros s. unfold start_warmpools. apply moves_self_bind. apply moves_bind; [apply _|apply tasks_outer, outer_the_plan|].
  intros es s1 _. case_match; [|apply tasks_warm_waves].
  apply tasks_outer, outer_run_jobs. intros; apply outer_warm_entry.
Qed.
#[local] Hint Resolve tasks_start_warmpools : moves.

Lemma tasks_setup fuel hooks preflight budget :
  keeps preflight → keeps (setup fsum special fuel hooks preflight budget).
Proof. intros Hp s. unfold setup. same. apply tasks_set_self. intros f. by destruct hooks. Qed.
Lemma tasks_sweep_cluster del c : keeps (sweep_cluster del c).
Proof.
  intros s. unfold sweep_cluster, sweep_lists, sweep_namespace, r_delete_claim, r_delete_warmpool, r_delete_template. same.
Qed.
#[local] Hint Resolve tasks_sweep_cluster : moves.
Lemma tasks_unwarm_images images : keeps (unwarm_images fsum special images).
Proof. intros s. apply tasks_outer, outer_unwarm_images. Qed.
#[local] Hint Resolve tasks_unwarm_images : moves.
Lemma tasks_teardown del : keeps (teardown fsum special del).
Proof. intros s. unfold teardown, teardown_body, release_all. same. Qed.
End tasks.

Lemma keeps_stable {W A} (Q : bool * list task → Prop) (m : M (fleet * W) A) :
  (∀ s, moves same_outer m s) → stable (λ s, Q (outer s.1)) m.
Proof. intros Hm s Hs. specialize (Hm s). unfold moves, same_outer in Hm. by rewrite Hm. Qed.

(** Every task of the images has the result of that task at its position. *)
Definition done_for {R} (P : task → exn + R → Prop) (tasks : list task) (results : list (option (exn + R)))
    (images : list string) : Prop :=
  length results = length tasks ∧
  ∀ i t, tasks !! i = Some t → t_image t ∈ images → written P tasks results i.

(** A window holds at least one image. *)
Lemma recommended_window_pos f pipelined window : recommended_window f pipelined = Ret window → 1 ≤ window.
Proof.
  unfold recommended_window, disk_spec, recommend_window_pipelined. intros E.
  repeat first [apply outcome_bind_inv in E as (? & ? & E) | case_match]; simplify_eq; lia.
Qed.

Section windows.
Context {W : Type} `{Clock W} `{Sdk W} `{PodExec W} `{Clusters W}.
Context (fsum : list pyfloat → pyfloat) (special : list ascii → outcome (list ascii)).
Context {R : Type} (preflight : M (fleet * W) ()) (executor : list task → M (fleet * W) (list (exn + R))).
(** What holds of the fleet throughout, and what the executor promises of a result
    then *)
Context (Q : bool → Prop) (P : task → exn + R → Prop).
Abbreviation I := (λ s : fleet * W, Q (f_torndown s.1)).
Hypothesis executor_results : ∀ ts s rs s', I s → executor ts s = (Ret rs, s') → Forall2 P ts rs.
Hypothesis executor_keeps : ∀ ts, stable I (executor ts).
Context (unwarm : list string → M (fleet * W) ()).
Hypothesis unwarm_keeps : ∀ b s, moves same_outer (unwarm b) s.
Hypothesis preflight_keeps : ∀ s, moves same_outer preflight s.

Lemma outer_I {A} (m : M (fleet * W) A) : (∀ s, moves same_outer m s) → stable I m.
Proof. apply (keeps_stable (λ o, Q o.1)). Qed.

Lemma run_batch_done tasks b results seen s results' s' :
  I s → done_for P tasks results seen → run_batch executor unwarm tasks b results s = (Ret results', s') →
  I s' ∧ done_for P tasks results' (seen ++ b).
Proof using executor_results executor_keeps unwarm_keeps.
  intros HI [Hl Hd] E. unfold run_batch in E. run_inv.
  pose proof (stable_run I _ _ _ _ (executor_keeps _) HI Hrun) as HI0.
  split.
  { eapply (stable_run I); [|exact HI0|exact Hrun1]. by apply outer_I. }
  eapply (write_results_written P tasks) in Hrun0 as [Hl' Hw]; [| |by eapply (executor_results _ s)|done].
  - split; [done|]. intros i t Ht Hi. apply Hw. apply elem_of_app in Hi as [Hi|Hi]; [left; by eapply Hd|right].
    apply list_elem_of_fmap. exists (i, t). split; [done|]. apply list_elem_of_bind. exists (t_image t).
    split; [|done]. by apply pairs_of_elem.
  - intros i t Hin. apply list_elem_of_bind in Hin as (image & Hin & _). by apply pairs_of_elem in Hin as [? _].
Qed.

Lemma run_windows_done fuel override tasks bs results seen s results' s' :
  I s → done_for P tasks results seen →
  run_windows fsum special executor unwarm fuel override tasks bs results s = (Ret results', s') →
  done_for P tasks results' (seen ++ concat bs).
Proof using executor_results executor_keeps unwarm_keeps.
  revert results seen s. induction bs as [|b bs IH]; intros results seen s HI Hd E; cbn in E.
  - run_inv. cbn. by rewrite app_nil_r.
  - run_inv. eapply run_batch_done in Hrun0 as [HI1 Hd1];
      [|eapply (stable_run I); [|exact HI|exact Hrun]; apply outer_I, outer_warm_images|exact Hd].
    cbn. rewrite app_assoc. by eapply IH.
Qed.

Lemma finally_ret_inv {S A} (fin : M S ()) (m : M S A) s a s' :
  finally fin m s = (Ret a, s') → ∃ s1, m s = (Ret a, s1).
Proof.
  unfold finally. destruct (m s) as [r s1]. destruct r; [| |done]; destruct (fin s1) as [[]]; intros; simplify_eq; eauto.
Qed.

Lemma all_done tasks results images :
  (∀ t, t ∈ tasks → t_image t ∈ images) → done_for P tasks results images →
  Forall2 (λ t o, ∃ r, o = Some r ∧ P t r) tasks results.
Proof.
  intros Hall [Hl Hd]. apply Forall2_same_length_lookup. split; [done|]. intros i t o Ht Ho.
  destruct (Hd i t Ht) as (t' & r & Ht' & Hr & HP); [apply Hall; by eapply list_elem_of_lookup_2|].
  simplify_eq. eauto.
Qed.

Lemma pipeline_done fuel tasks bs results seen s results' s' :
  I s → done_for P tasks results seen →
  pipeline fsum special executor unwarm fuel tasks bs results s = (Ret results', s') →
  done_for P tasks results' (seen ++ concat bs).
Proof using executor_results executor_keeps unwarm_keeps.
  revert results seen s. induction bs as [|b bs IH]; intros results seen s HI Hd E; cbn in E.
  - run_inv. cbn. by rewrite app_nil_r.
  - run_inv. assert (I s0) as HI0.
    { destruct bs as [|next bs]; run_inv; [done|]. eapply (stable_run I); [|exact HI|exact Hrun2].
      apply outer_I. intros. apply outer_attempt, outer_warm_images. }
    eapply run_batch_done in Hrun0 as [HI1 Hd1]; [|exact HI0|exact Hd].
    cbn. rewrite app_assoc. eapply IH; [|exact Hd1|exact E].
    repeat case_match; run_inv; done.
Qed.

Lemma outer_run {A} (m : M (fleet * W) A) s r s' : (∀ s, moves same_outer m s) → m s = (r, s') → outer s'.1 = outer s.1.
Proof. intros Hm E. specialize (Hm s). unfold moves, same_outer in Hm. by rewrite E in Hm. Qed.

Lemma prepared s u s1 p s2 :
  (_ ← ensure_run_namespaces; preflight) s = (Ret u, s1) → plan fsum special s1 = (Ret p, s2) → outer s2.1 = outer s.1.
Proof using preflight_keeps.
  intros E1 E2. run_inv. apply outer_run in Hrun as E3; [|apply outer_namespaces].
  apply outer_run in E1; [|done]. apply outer_run in E2; [|apply outer_plan]. congruence.
Qed.

Lemma batches_cover window tasks bs :
  1 ≤ window → batches window (image_counts tasks).*1 = Ret bs → ∀ t, t ∈ tasks → t_image t ∈ concat bs.
Proof.
  unfold batches. intros Hw E t Ht. rewrite (proj2 (Z.eqb_neq _ _)), (proj2 (Z.ltb_ge _ _)) in E by lia. simplify_eq.
  rewrite chunks_concat by lia. by apply counts_cover.
Qed.

Lemma nothing_done tasks : done_for P tasks (replicate (length tasks) None) [].
Proof. split; [apply length_replicate|]. intros i t _ Hi. by apply not_elem_of_nil in Hi. Qed.

Lemma windowed_done fuel window override td s results s' :
  I s → 1 ≤ window → run_windowed fsum special preflight executor unwarm fuel window override td s = (Ret results, s') →
  Forall2 (λ t o, ∃ r, o = Some r ∧ P t r) (f_tasks s.1) results.
Proof using executor_results executor_keeps unwarm_keeps preflight_keeps.
  intros HI Hw E. unfold run_windowed in E.
  apply bind_ret_inv in E as (u & s1 & E1 & E). apply bind_ret_inv in E as (p & s2 & E2 & E).
  pose proof (prepared _ _ _ _ _ E1 E2) as [= Et Ef]. unfold mbind at 1, M_bind at 1, self in E.
  apply finally_ret_inv in E as [s3 E]. run_inv. rewrite <-Ef.
  eapply all_done; [by eapply batches_cover|]. eapply (run_windows_done _ _ _ _ _ []) in E; [exact E| |apply nothing_done].
  by rewrite Et.
Qed.

Lemma prefetched_done fuel window td s results s' :
  I s → 1 ≤ window →
  run_prefetched fsum special preflight executor unwarm fuel window td s = (Ret results, s') →
  Forall2 (λ t o, ∃ r, o = Some r ∧ P t r) (f_tasks s.1) results.
Proof using executor_results executor_keeps unwarm_keeps preflight_keeps.
  intros HI Hw E. unfold run_prefetched in E.
  apply bind_ret_inv in E as (u & s1 & E1 & E). apply bind_ret_inv in E as (p & s2 & E2 & E).
  pose proof (prepared _ _ _ _ _ E1 E2) as [= Et Ef]. unfold mbind at 1, M_bind at 1, self in E.
  apply bind_ret_inv in E as (bs & s3 & Eb & E). apply lift_ret_inv in Eb as [Eb ->].
  apply finally_ret_inv in E as [s4 E]. apply bind_ret_inv in E as (v & s5 & E5 & E). rewrite <-Ef.
  eapply all_done; [by eapply batches_cover|]. eapply (pipeline_done _ _ _ _ []) in E; [exact E| |apply nothing_done].
  assert (I s2) as HI2 by by rewrite Et. destruct bs as [|b bs]; [by run_inv|].
  eapply (stable_run I); [|exact HI2|exact E5]. apply outer_I, outer_warm_images.
Qed.

Lemma dispatch_done fuel hooks strategy td s results s' :
  strategy ≠ "naive"%string → I s →
  dispatch fsum special preflight executor unwarm fuel hooks strategy td s = (Ret results, s') →
  Forall2 (λ t o, ∃ r, o = Some r ∧ P t r) (f_tasks s.1) results.
Proof using executor_results executor_keeps unwarm_keeps preflight_keeps.
  intros Hn HI. unfold dispatch. rewrite (proj2 (String.eqb_neq strategy "naive") Hn). intros E.
  repeat case_match; [by eapply windowed_done| |].
  - unfold run_sliding in E. unfold mbind at 1, M_bind at 1, self in E.
    apply bind_ret_inv in E as (w & s1 & E1 & E). apply lift_ret_inv in E1 as [E1 ->].
    eapply windowed_done; [exact HI|by eapply recommended_window_pos|exact E].
  - unfold run_pipelined in E. unfold mbind at 1, M_bind at 1, self in E.
    apply bind_ret_inv in E as (w & s1 & E1 & E). apply lift_ret_inv in E1 as [E1 ->].
    eapply prefetched_done; [exact HI|by eapply recommended_window_pos|exact E].
Qed.
End windows.

(** ** The executor *)

Section parallel.
Context {W : Type} `{Clock W} `{Sdk W} `{PodExec W} `{Clusters W}.
Context (special : list ascii → outcome (list ascii)).
Context {R : Type} (process_fn : task → nat → M (fleet * W) R).
Context (I : fleet * W → Prop) (P : task → exn + R → Prop).
Hypothesis one_result : ∀ t s x s', I s → attempt (process_one special process_fn t) s = (Ret x, s') → P t x.
Hypothesis one_keeps : ∀ t, stable I (attempt (process_one special process_fn t)).

Lemma parallel_results ts s rs s' : I s → process_parallel special process_fn ts s = (Ret rs, s') → Forall2 P ts rs.
Proof using one_result one_keeps.
  revert s rs. induction ts as [|t ts IH]; intros s rs HI E; cbn in E.
  - apply mret_inv in E as [[= <-] ->]. constructor.
  - apply bind_ret_inv in E as (x & s1 & E1 & E). apply bind_ret_inv in E as (xs & s2 & E2 & E).
    apply mret_inv in E as [<- ->]. constructor; [by eapply one_result|].
    eapply IH; [|exact E2]. by eapply (stable_run I); [apply (one_keeps t)| |exact E1].
Qed.
Lemma parallel_keeps ts : stable I (process_parallel special process_fn ts).
Proof using one_keeps. induction ts as [|t ts IH]; cbn [process_parallel]; stable. Qed.
End parallel.

(** The asynchronous executor agrees with the synchronous one. *)
Section asynchronous.
Context {W : Type} `{Clock W} `{Sdk W} `{PodExec W} `{Clusters W}.
Context (special : list ascii → outcome (list ascii)).
Context {R : Type} (process_fn : task → nat → M (fleet * W) R) (none : R).

Lemma write_each_sync before ts s :
  write_each special process_fn (length before) ts (before ++ replicate (length ts) None) s
  = (rs ← process_parallel special process_fn ts; mret (before ++ (Some <$> rs))) s.
Proof.
  revert before s. induction ts as [|t ts IH]; intros before s; [unfold mbind, M_bind; cbn; unfold mret, M_ret; cbn; by rewrite ?app_nil_r|].
  cbn [write_each process_parallel length replicate]. unfold mbind, M_bind.
  destruct (attempt _ s) as [[x|e|] s1]; [|done|done]. rewrite insert_app_r_alt by lia. rewrite Nat.sub_diag. cbn [insert list_insert].
  specialize (IH (before ++ [Some x]) s1). rewrite length_app, Nat.add_1_r, <-app_assoc in IH.
  cbn [app] in IH. rewrite IH. unfold mbind, M_bind.
  destruct (process_parallel _ _ ts s1) as [[rs|e|] s2]; [|done|done]. cbn. by rewrite <-app_assoc.
Qed.

Lemma async_parallel_sync ts s :
  aprocess_parallel special process_fn none ts s = process_parallel special process_fn ts s.
Proof.
  unfold aprocess_parallel. unfold mbind at 1, M_bind at 1.
  pose proof (write_each_sync [] ts s) as E. cbn [length app] in E. rewrite E. unfold mbind, M_bind.
  destruct (process_parallel _ _ ts s) as [[rs|e|] s1]; [|done|done]. cbn. rewrite <-list_fmap_compose.
  by rewrite list_fmap_id.
Qed.
End asynchronous.

(** ** A run answers every task *)

Section answers.
Context {R : Type} (P : task → R → Prop).

(** An error or a result [P] holds of *)
Definition answers (t : task) (x : exn + R) : Prop := match x with inl _ => True | inr r => P t r end.
Definition answered (tasks : list task) (results : list (option (exn + R))) : Prop :=
  Forall2 (λ t o, ∃ x, o = Some x ∧ answers t x) tasks results.
End answers.

(** What a strategy needs of what runs its batches: one result per task, in their
    order. [P] is what the caller's function promises of a result. *)
Class Executor {W R : Type} (P : task → R → Prop) (executor : list task → M (fleet * W) (list (exn + R))) : Prop := {
  executor_answers ts s rs s' : executor ts s = (Ret rs, s') → Forall2 (answers P) ts rs;
  executor_tasks ts s : moves same_tasks (executor ts) s;
}.

Section delivery.
Context {W : Type} `{Clock W} `{Sdk W} `{PodExec W} `{Clusters W}.
Context (fsum : list pyfloat → pyfloat) (special : list ascii → outcome (list ascii)).
Context {R : Type} (preflight : M (fleet * W) ()) (P : task → R → Prop).
Context (executor : list task → M (fleet * W) (list (exn + R))) `{!Executor P executor}.
Hypothesis preflight_keeps : ∀ s, moves same_outer preflight s.

Abbreviation keeps m := (∀ s, moves same_tasks m s).
#[local] Existing Instance same_tasks_preorder.

Lemma tasks_preflight : keeps preflight.
Proof using preflight_keeps. intros s. apply tasks_outer, preflight_keeps. Qed.
#[local] Hint Resolve tasks_warm_images tasks_plan tasks_namespaces tasks_start_warmpools tasks_setup tasks_teardown
  tasks_preflight executor_tasks : moves.

(** One pass under a strategy, whichever way it removes the pools of a batch *)
Section pass.
Context (unwarm : list string → M (fleet * W) ()).
Hypothesis unwarm_keeps : ∀ b s, moves same_outer (unwarm b) s.

Lemma tasks_unwarm b : keeps (unwarm b).
Proof using unwarm_keeps. intros s. apply tasks_outer, unwarm_keeps. Qed.
#[local] Hint Resolve tasks_unwarm : moves.
Lemma tasks_run_batch tasks b results : keeps (run_batch executor unwarm tasks b results).
Proof using All. intros s. unfold run_batch. moves. Qed.
#[local] Hint Resolve tasks_run_batch : moves.
Lemma tasks_run_windows fuel override tasks bs results :
  keeps (run_windows fsum special executor unwarm fuel override tasks bs results).
Proof using All. revert results. induction bs as [|b bs IH]; intros results s; cbn [run_windows]; moves. Qed.
Lemma tasks_pipeline fuel tasks bs results : keeps (pipeline fsum special executor unwarm fuel tasks bs results).
Proof using All.
  revert results. induction bs as [|b bs IH]; intros results s; cbn [pipeline];
    moves_with ltac:(fun _ => simple apply tasks_attempt).
Qed.
#[local] Hint Resolve tasks_run_windows tasks_pipeline : moves.
Lemma tasks_dispatch fuel hooks strategy td :
  keeps (dispatch fsum special preflight executor unwarm fuel hooks strategy td).
Proof using All.
  intros s. unfold dispatch, run_none, run_naive, run_sliding, run_windowed, run_pipelined, run_prefetched, when. moves.
Qed.

Lemma dispatch_answers fuel hooks strategy td s results s' :
  dispatch fsum special preflight executor unwarm fuel hooks strategy td s = (Ret results, s') →
  answered P (f_tasks s.1) results.
Proof using All.
  destruct (decide (strategy = "naive"%string)) as [->|Hn].
  - cbn. intros E. apply bind_ret_inv in E as (rs & s1 & E1 & E). apply mret_inv in E as [<- ->].
    unfold run_naive in E1.
    apply finally_ret_inv in E1 as [s2 E1]. apply bind_ret_inv in E1 as ([] & s3 & E2 & E1).
    unfold mbind, M_bind, self in E1. apply executor_answers in E1.
    assert (f_tasks s3.1 = f_tasks s.1) as <-.
    { pose proof (tasks_setup fsum special fuel hooks preflight None tasks_preflight s) as Ht.
      unfold moves, same_tasks in Ht. by rewrite E2 in Ht. }
    unfold answered. apply Forall2_fmap_r. eapply Forall2_impl; [exact E1|]. cbn. eauto.
  - apply (dispatch_done fsum special preflight executor (λ _, True)); try done.
    intros ts s1 rs s1' _ E. by eapply executor_answers.
Qed.
End pass.

(** Passes that answer every task and keep the tasks *)
Section passes.
Context (once : bool → M (fleet * W) (list (option (exn + R)))).
Hypothesis once_answers : ∀ td s results s', once td s = (Ret results, s') → answered P (f_tasks s.1) results.
Hypothesis once_keeps : ∀ td, keeps (once td).

Lemma epochs_answered keep_warm n s rss s' :
  run_epochs fsum special once keep_warm n s = (Ret rss, s') →
  length rss = n ∧ Forall (answered P (f_tasks s.1)) rss.
Proof using once_answers once_keeps.
  revert s rss. induction n as [|n IH]; intros s rss E; cbn [run_epochs] in E.
  - apply mret_inv in E as [<- _]. by split.
  - apply bind_ret_inv in E as (r & s1 & E1 & E). apply bind_ret_inv in E as (rs & s2 & E2 & E).
    apply mret_inv in E as [<- <-].
    apply except_ret_inv in E1 as [E1|(e & k & s3 & _ & [= <-] & E1)];
      [|by apply bind_ret_inv in E1 as (? & ? & _ & E1)].
    pose proof (once_keeps (bool_decide (n = 0%nat) && negb keep_warm) s) as Ht.
    unfold moves, same_tasks in Ht. rewrite E1 in Ht. cbn [snd] in Ht.
    apply IH in E2 as [<- HF]. rewrite Ht in HF. split; [done|]. constructor; [by eapply once_answers|done].
Qed.

Lemma passes_answered epochs keep_warm s rss s' :
  run_passes fsum special once epochs keep_warm s = (Ret rss, s') →
  length rss = Z.to_nat epochs ∧ Forall (answered P (f_tasks s.1)) rss.
Proof using once_answers once_keeps.
  unfold run_passes. intros E. case_match; [done|]. unfold mbind at 1, M_bind at 1, self in E.
  apply bind_ret_inv in E as (u & s1 & E1 & E).
  assert (f_tasks s1.1 = f_tasks s.1) as <-.
  { assert (moves same_tasks (match f_plan s.1 with None => _ ← plan fsum special; mret () | Some _ => mret () end) s) as Ht
      by (case_match; moves). unfold moves, same_tasks in Ht. by rewrite E1 in Ht. }
  case_match eqn:He; [|by eapply epochs_answered].
  apply bind_ret_inv in E as (r & s2 & E2 & E). apply mret_inv in E as [<- _]. apply Z.eqb_eq in He as ->.
  split; [done|]. repeat constructor. by eapply once_answers.
Qed.
End passes.

(** A pass of the asynchronous fleet is one of the strategies, or is refused. *)
Lemma arun_once_dispatch fuel hooks strategy td :
  arun_once fsum special preflight executor fuel hooks strategy td =
    dispatch fsum special preflight executor (unwarm_images fsum special) fuel hooks strategy td
  ∨ arun_once fsum special preflight executor fuel hooks strategy td = raise ValueError.
Proof using.
  unfold arun_once, dispatch.
  destruct (String.eqb_spec strategy "naive") as [->|_]; [by left|].
  destruct (String.eqb_spec strategy "sliding") as [->|_]; [by left|].
  destruct (String.eqb_spec strategy "pipelined") as [->|_]; [by left|].
  destruct (String.eqb_spec strategy "none"); [by left|by right].
Qed.

(** C11. A run answers every task once, in task order and in every epoch, whichever of the
    four strategies runs it, however the images are grouped into windows, whether a
    sandbox is claimed per task or recycled, and for the synchronous and the
    asynchronous fleet: the position of a task holds what [process_fn] returned for
    that very task, or the exception that was captured, and no position is left empty. *)
Theorem run_answers_every_task fuel hooks strategy epochs keep_warm s rss s' :
  run fsum special preflight executor fuel hooks strategy epochs keep_warm s = (Ret rss, s')
  ∨ arun fsum special preflight executor fuel hooks strategy epochs keep_warm s = (Ret rss, s') →
  length rss = Z.to_nat epochs ∧ Forall (answered P (f_tasks s.1)) rss.
Proof using All.
  intros [E|E].
  - unfold run in E. case_match; [done|]. eapply passes_answered; [| |exact E].
    + intros td s1 results s1'. apply dispatch_answers. apply outer_unwarm_each.
    + intros td. apply tasks_dispatch. apply outer_unwarm_each.
  - unfold arun in E. eapply passes_answered; [| |exact E].
    + intros td s1 results s1'. destruct (arun_once_dispatch fuel hooks strategy td) as [->| ->]; [|done].
      apply dispatch_answers. apply outer_unwarm_images.
    + intros td s1. destruct (arun_once_dispatch fuel hooks strategy td) as [->| ->]; [|done].
      apply tasks_dispatch. apply outer_unwarm_images.
Qed.
End delivery.

(** Claiming a sandbox for each task is an executor, in both fleets *)
Section fresh.
Context {W : Type} `{Clock W} `{Sdk W} `{PodExec W} `{Clusters W}.
Context (special : list ascii → outcome (list ascii)).
Context {R : Type} (process_fn : task → nat → M (fleet * W) R) (P : task → R → Prop).
Hypothesis process_result : ∀ t h s r s', process_fn t h s = (Ret r, s') → P t r.
Hypothesis process_keeps : ∀ t h s, moves same_tasks (process_fn t h) s.
#[local] Existing Instance same_tasks_preorder.

Lemma process_one_answers t s x s' : attempt (process_one special process_fn t) s = (Ret x, s') → answers P t x.
Proof using process_result.
  unfold attempt, process_one. intros E. apply except_ret_inv in E as [E|(e & k & s1 & _ & [= <-] & E)].
  - apply bind_ret_inv in E as (r & s1 & E1 & E). apply mret_inv in E as [<- _].
    apply bind_ret_inv in E1 as (h & s2 & _ & E1). apply finally_ret_inv in E1 as [s3 E1]. by eapply process_result.
  - by apply mret_inv in E as [<- _].
Qed.

#[local] Hint Resolve tasks_acquire tasks_release : moves.
Lemma parallel_executor : Executor P (process_parallel special process_fn).
Proof using process_result process_keeps.
  split.
  - intros ts s rs s'. apply (parallel_results special process_fn (λ _, True)); [|by intros t s0|done].
    intros t s0 x s0' _. apply process_one_answers.
  - intros ts. induction ts as [|t ts IH]; intros s; cbn [process_parallel]; [done|].
    apply moves_bind; [apply _| |intros; apply moves_bind; [apply _|apply IH|done]].
    apply tasks_attempt. unfold process_one. moves.
Qed.
End fresh.

(** ** A fleet that was torn down *)

Section torn.
Context {W : Type} `{Clock W} `{Sdk W} `{PodExec W} `{Clusters W}.
Context (fsum : list pyfloat → pyfloat) (special : list ascii → outcome (list ascii)).
Context {R : Type} (process_fn : task → nat → M (fleet * W) R) (preflight : M (fleet * W) ()).
Hypothesis preflight_keeps : ∀ s, moves same_outer preflight s.
Abbreviation torn := (λ s : fleet * W, f_torndown s.1 = true).

Lemma torn_set_self g : (∀ f, f_torndown (g f) = f_torndown f) → stable torn (set_self g).
Proof. intros Hg. apply (stable_update (λ f, f_torndown f = true)). intros f. by rewrite Hg. Qed.
Lemma torn_world {A} (m : M W A) : stable torn (world m).
Proof. apply (stable_object (λ f, f_torndown f = true)). Qed.
Lemma torn_track h : stable torn (section (λ f, Ret (track_handle h f))).
Proof. intros [f w] Ht. cbn in *. unfold track_handle. cbn. by rewrite Ht. Qed.
Lemma torn_on_cluster n g : stable torn (on_cluster n g).
Proof. apply torn_set_self. intros f. by case_match. Qed.
Lemma torn_update_handle id g f : f_torndown (update_handle id g f) = f_torndown f.
Proof. unfold update_handle. by case_match. Qed.
#[local] Hint Resolve torn_set_self torn_world torn_track torn_on_cluster torn_update_handle : stable.

Lemma acquire_reserved_torn image : stable torn (acquire_reserved special image None []).
Proof.
  intros s Hs. rewrite acquire_reserved_parts. revert s Hs. apply (stable_bind torn).
  - exact (keeps_claim_part special image None [] (λ l, l.1.1.1 = true)).
  - intros [[[[t claim] sb] pod] h]. unfold track_part, logged. stable.
Qed.

(** Every claim of a fleet that was torn down is refused. *)
Lemma acquire_torn image (s : fleet * W) r s' :
  torn s → acquire special image None [] s = (r, s') → (∀ id, r ≠ Ret id) ∧ torn s'.
Proof.
  intros Ht. destruct s as [f w]. unfold acquire, take_slot. unfold mbind at 1, M_bind at 1, section. cbn.
  destruct (slots_full f) eqn:Hf; cbn; [by intros [= <- <-]|]. cbn in Ht.
  unfold except. destruct (acquire_reserved _ _ _ _ _) as [r1 s1] eqn:E.
  assert (torn s1) as H1s by (eapply (stable_run torn); [apply acquire_reserved_torn| |exact E]; done).
  apply acquire_reserved_outcome in E as [_ E]. destruct r1 as [id|e|]; [by destruct E; simplify_eq/=; congruence| |];
    by intros [= <- <-].
Qed.

Lemma process_one_torn t (s : fleet * W) x s' :
  torn s → attempt (process_one special process_fn t) s = (x, s') →
  (∀ y, x = Ret y → ∃ e, y = inl e) ∧ torn s'.
Proof.
  intros Ht. unfold attempt, process_one, except. unfold mbind at 1, M_bind at 1. unfold mbind at 1, M_bind at 1.
  destruct (acquire _ _ _ _ s) as [r s1] eqn:E. apply acquire_torn in E as [Hr Hs1]; [|done].
  destruct r as [id|e|]; [by destruct (Hr id)| |]; intros [= <- <-]; (split; [|done]); intros y [= <-]. eauto.
Qed.

(** The strategies that work in windows do not set the fleet up, so on one that was
    torn down, by an earlier run say, every task gets an error without [process_fn]
    ever being called, and the teardown at the end does nothing. *)
Theorem windowed_run_after_teardown fuel hooks strategy td (s : fleet * W) results s' :
  strategy ≠ "naive"%string → f_torndown s.1 = true →
  run_strategy fsum special preflight (process_parallel special process_fn) fuel hooks strategy td s
    = (Ret results, s') →
  Forall2 (λ _ o, ∃ e, o = Some (inl e)) (f_tasks s.1) results.
Proof using preflight_keeps.
  intros Hn Ht E. set (P := λ (_ : task) (x : exn + R), ∃ e, x = inl e).
  assert (∀ t, stable torn (attempt (process_one special process_fn t))) as Hs.
  { intros t s0 Hs0. destruct (attempt _ s0) as [x s0'] eqn:E0. exact (proj2 (process_one_torn _ _ _ _ Hs0 E0)). }
  assert (∀ ts (s : fleet * W) rs s', torn s → process_parallel special process_fn ts s = (Ret rs, s') → Forall2 P ts rs) as Hp.
  { apply parallel_results; [|done]. intros t s0 x s0' Hs0 E0. apply process_one_torn in E0 as [E0 _]; [by apply E0|done]. }
  assert (∀ ts, stable torn (process_parallel special process_fn ts)) as Hk by (intros ts; by apply parallel_keeps).
  eapply (dispatch_done fsum special preflight _ (λ b, b = true) P) in E; try done; [|apply outer_unwarm_each].
  eapply Forall2_impl; [exact E|]. intros t o (r & -> & e & ->). eauto.
Qed.
End torn.

(** ** Runs against the simulated cluster *)

(** Each task reports its image *)
Definition sim_process (t : task) (h : nat) : M (fleet * sim) string := mret (t_image t).
Definition no_preflight : M (fleet * sim) () := mret ().
Definition three_tasks : list task := [Task "t1" "img:a" []; Task "t2" "img:b" []; Task "t3" "img:a" []].

Definition loaded (s : fleet * sim) : fleet * sim := (load_tasks three_tasks None s).2.
Definition sim_run (strategy : string) (s : fleet * sim) :=
  run sim_fsum no_special no_preflight (process_parallel no_special sim_process) 5 false strategy 2 false s.

#[local] Instance sim_executor : Executor (λ t r, r = t_image t) (process_parallel no_special sim_process).
Proof. apply parallel_executor; [by intros t h s r s' [= <-]|by intros t h s]. Qed.

Lemma run_answers_every_task_witness :
  ∃ s rss s', new_sim_fleet false None None empty_sim = Some s ∧
  sim_run "pipelined" (loaded s) = (Ret rss, s') ∧
  (length rss = 2%nat ∧ Forall (answered (λ t r, r = t_image t) (f_tasks (loaded s).1)) rss) ∧
  rss !! 1%nat = Some [Some (inr "img:a"); Some (inr "img:b"); Some (inr "img:a")].
Proof.
  eexists _, _, _. split; [vm_compute; reflexivity|]. split; [vm_compute; reflexivity|]. split; [|reflexivity].
  eapply (run_answers_every_task sim_fsum no_special no_preflight (λ t r, r = t_image t)
    (process_parallel no_special sim_process) ltac:(by intros s) 5 false "pipelined" 2 false).
  left. vm_compute. reflexivity.
Defined.

Lemma windowed_run_after_teardown_witness :
  ∃ s rss s1 results s', new_sim_fleet false None None empty_sim = Some s ∧
  sim_run "sliding" (loaded s) = (Ret rss, s1) ∧
  rss !! 1%nat = Some [Some (inr "img:a"); Some (inr "img:b"); Some (inr "img:a")] ∧
  run_strategy sim_fsum no_special no_preflight (process_parallel no_special sim_process) 5 false "sliding" true s1
    = (Ret results, s') ∧
  length results = 3%nat ∧ Forall2 (λ _ o, ∃ e, o = Some (inl e)) (f_tasks s1.1) results.
Proof.
  eexists _, _, _, _, _. split; [vm_compute; reflexivity|]. split; [vm_compute; reflexivity|]. split; [reflexivity|].
  split; [vm_compute; reflexivity|]. split; [reflexivity|].
  eapply (windowed_run_after_teardown sim_fsum no_special sim_process no_preflight ltac:(by intros s) 5 false "sliding" true);
    [done|reflexivity|vm_compute; reflexivity].
Defined.
