(* ===== verification/RlRecycle.v ===== *)
(** Reusing a sandbox for several tasks: models [recycle.py] of
    [src/examples/agent-sandbox-rl/agent_sandbox_rl] and what it promises.

    The groups of the synchronous executor run one after another, over the fleet of
    [RlFleet]; the shards of the asynchronous one are a transition system of the
    sections they run under the lock of their image. Log lines and phases are left out.
    Times are in nanoseconds, and the seconds of a reset are not
    rounded. *)

From Stdlib Require Import Ascii String ZArith Lia.
From stdpp Require Import base option list strings sets relations.
From S2P Require Import Prelude Hoare Float Json PyList PyText IpAddress Models Utils World K8sHelper DateTime Budget Snapshots RlResources RlConfig RlHandles RlFleet RlOwnership RlSim RlFleetOwnership RlFleetProofs RlStrategies.

#[local] Open Scope Z_scope.

(** ** The reset *)

(** A line ends at one of these; a carriage return takes a following line feed *)
Definition line_break (c : ascii) : bool :=
  let n := code c in
  ((10 <=? n) && (n <=? 13) || (28 <=? n) && (n <=? 30) || (n =? 133))%N.

(** [str.splitlines()] *)
Fixpoint splitlines_chars (acc l : list ascii) : list (list ascii) :=
  match l with
  | [] => match acc with [] => [] | _ => [reverse acc] end
  | c :: l' =>
      if line_break c then
        reverse acc ::
        match l' with
        | d :: l'' => if bool_decide (c = chr 13 ∧ d = LF) then splitlines_chars [] l'' else splitlines_chars [] l'
        | [] => []
        end
      else splitlines_chars (c :: acc) l'
  end.
Definition splitlines (s : string) : list string := implode <$> splitlines_chars [] (explode s).

Record ResetBaseline := Baseline {
  pristine_sha : string;
  env_hash : string;
  config_hash : string;
  proc_count : Z;
}.
Definition no_baseline : ResetBaseline := Baseline EmptyString EmptyString EmptyString 0.

Record ResetOutcome := Outcome {
  ro_clean : bool;
  ro_elapsed : Z;
  ro_reason : string;
  ro_detail : list (string * string);
}.

Record GitRestoreReset := GitRestore {
  gr_testbed : string;
  gr_check_env : bool;
  gr_check_config : bool;
  gr_wipe : list string;
  gr_kill_new_procs : bool;
}.
Definition DEFAULT_WIPE : list string := ["/tmp/*"; "/var/tmp/*"; "$HOME/.cache/*"].
Definition default_reset : GitRestoreReset := GitRestore "/testbed" false false DEFAULT_WIPE true.

(** Shell text: a backquote stands for a double quote *)
Definition sh (s : string) : string :=
  implode ((λ c, if bool_decide (c = "`"%char) then DQUOTE else c) <$> explode s).

Definition fingerprint_sh (r : GitRestoreReset) : string :=
  let tb := gr_testbed r in
  join "; "
    ([sh "echo `PRISTINE=$(git -C " +:+ tb +:+ sh " rev-parse pristine 2>/dev/null)`";
      sh "echo `HEAD=$(git -C " +:+ tb +:+ sh " rev-parse HEAD 2>/dev/null)`";
      sh "echo `DIRTY=$(git -C " +:+ tb +:+ sh " status --porcelain 2>/dev/null | wc -l | tr -d ` `)`"]
     ++ (if gr_check_env r then [sh "echo `ENV=$(pip freeze 2>/dev/null | sha256sum | cut -d` ` -f1)`"] else [])
     ++ (if gr_check_config r then
           [sh "echo `CFG=$( (git -C " +:+ tb +:+ sh " config --list --local 2>/dev/null | sort; for f in "
            +:+ tb +:+ sh "/.git/hooks/*; do [ -f `$f` ] && echo `H:$(basename `$f`)` && cat `$f`; done 2>/dev/null) "
            +:+ sh "| sha256sum | cut -d` ` -f1)`"]
         else [])
     ++ (if gr_kill_new_procs r then [sh "echo `PROCS=$(ps -eo pid= 2>/dev/null | wc -l | tr -d ` `)`"] else [])).

(** [KEY=VALUE] lines *)
Definition add_line (d : list (string * string)) (line : string) : list (string * string) :=
  let '(k, found, v) := partition "=" line in if found : bool then dset (strip k) (strip v) d else d.
Definition parse_fingerprint (out : string) : list (string * string) := foldl add_line [] (splitlines out).

Definition get_or (d : list (string * string)) (k default : string) : string :=
  match dget k d with Some v => v | None => default end.

Definition recyclable (b : ResetBaseline) : bool := negb (pristine_sha b =? EmptyString)%string.

Definition prime_script (r : GitRestoreReset) : string :=
  let tb := gr_testbed r in
  "set +e; git -C " +:+ tb +:+ " tag -f pristine >/dev/null 2>&1; git -C " +:+ tb +:+ " config gc.auto 0; git -C "
  +:+ tb +:+ " config maintenance.auto false; git -C " +:+ tb +:+ " config gc.pruneExpire never; git -C " +:+ tb
  +:+ " checkout -q --detach pristine >/dev/null 2>&1; " +:+ fingerprint_sh r.

Definition kill_script (r : GitRestoreReset) : string :=
  if gr_kill_new_procs r then
    sh "for p in $(ps -eo pid= 2>/dev/null | tr -d ` `); do [ `$p` = `1` ] || [ `$p` = `$$` ] || [ `$p` = `$PPID` ] || "
    +:+ sh "kill -9 `$p` 2>/dev/null; done; "
  else EmptyString.

Definition reset_script (r : GitRestoreReset) : string :=
  let tb := gr_testbed r in
  "set +e; " +:+ kill_script r +:+ "git -C " +:+ tb +:+ " reset -q --hard pristine >/dev/null 2>&1; git -C " +:+ tb
  +:+ " clean -qxdff >/dev/null 2>&1; git -C " +:+ tb +:+ " checkout -q --detach pristine >/dev/null 2>&1; rm -rf "
  +:+ join " " (gr_wipe r) +:+ " >/dev/null 2>&1; " +:+ fingerprint_sh r.

(** [_first_failure]; empty when nothing failed. Times in nanoseconds *)
Definition first_failure (r : GitRestoreReset) (d : list (string * string)) (base : ResetBaseline)
    (elapsed timeout : Z) : string :=
  if (pristine_sha base =? EmptyString)%string then "no_pristine_anchor"
  else if timeout <? elapsed then "timeout"
  else if negb (get_or d "HEAD" EmptyString =? pristine_sha base)%string then "head_mismatch"
  else if negb (default "0" (str_or (dget "DIRTY" d) None) =? "0")%string then "worktree_dirty"
  else if gr_check_env r && (env_hash base =? EmptyString)%string then "env_baseline_missing"
  else if gr_check_env r && negb (get_or d "ENV" EmptyString =? env_hash base)%string then "env_drift"
  else if gr_check_config r && (config_hash base =? EmptyString)%string then "config_baseline_missing"
  else if gr_check_config r && negb (get_or d "CFG" EmptyString =? config_hash base)%string
  then "config_or_hooks_drift"
  else if proc_count base =? 0 then EmptyString
  else match py_int (get_or d "PROCS" "0") with
       | Some n => if proc_count base + 2 <? n then "process_leak" else EmptyString
       | None => EmptyString
       end.

Section reset.
Context {W : Type} `{Clock W} `{Sdk W} `{PodExec W}.
Abbreviation HM := (M (handle * W)).

(** [_runtime_exec_kwargs] *)
Definition runtime_exec_container (h : handle) : option string := str_or (hd_runtime_container h) None.

Definition exec_script (fuel : nat) (script : string) : HM (list (string * string)) :=
  h ← self;
  out ← exec fuel (Argv ["bash"; "-lc"; script]) None (runtime_exec_container h);
  mret (parse_fingerprint out).

(** What [prime] read; the number of processes may not be a number *)
Definition baseline_of (d : list (string * string)) : outcome ResetBaseline :=
  n ← match str_or (dget "PROCS" d) None with
      | None => Ret 0
      | Some s => match py_int s with Some n => Ret n | None => Raise ValueError end
      end;
  Ret (Baseline (get_or d "PRISTINE" EmptyString) (get_or d "ENV" EmptyString) (get_or d "CFG" EmptyString) n).

Definition prime (r : GitRestoreReset) (fuel : nat) : HM ResetBaseline :=
  d ← except (λ _, Some (mret None)) (d ← exec_script fuel (prime_script r); mret (Some d));
  match d with None => mret no_baseline | Some d => lift (baseline_of d) end.

Definition reset (r : GitRestoreReset) (fuel : nat) (base : ResetBaseline) (timeout : Z) : HM ResetOutcome :=
  t0 ← world read_clock;
  d ← except (λ _, Some (mret None)) (d ← exec_script fuel (reset_script r); mret (Some d));
  t1 ← world read_clock;
  mret (match d with
        | None => Outcome false (t1 - t0) "exec_error" []
        | Some d => let reason := first_failure r d base (t1 - t0) timeout in
                    Outcome (reason =? EmptyString)%string (t1 - t0) reason d
        end).
End reset.

(** ** The executor *)

(** What the executor calls: methods of the fleet, of its handles, named by their
    number, and of the reset *)
Class RecycleOps (S : Type) := {
  (** [fleet.warm_image(image, replicas_override=1, wait=True)] *)
  op_warm_image : string → M S ();
  op_acquire : string → M S nat;
  op_open_session : nat → M S ();
  op_prime : nat → M S ResetBaseline;
  op_reset : nat → ResetBaseline → Z → M S ResetOutcome;
  op_unwarm_image : string → M S ();
  op_release : nat → M S ();
}.

(** The results of all groups, and the variables of one group *)
Record group_state {R : Type} := Group {
  g_results : list (option (exn + R));
  g_handle : option nat;
  g_baseline : ResetBaseline;
  g_uses : Z;
  (** [None] until the first [prime] *)
  g_recyclable : option bool;
}.
Arguments group_state : clear implicits.

Section executor.
Context {S : Type} `{RecycleOps S} {R : Type} (process_fn : task → nat → M S R).
Context (max_reuses reset_timeout : Z) (use_session scale_on_hold : bool).

Abbreviation GM := (M (group_state R * S)).

Definition with_handle (h : option nat) (g : group_state R) : group_state R :=
  Group R (g_results g) h (g_baseline g) (g_uses g) (g_recyclable g).
Definition with_baseline (b : ResetBaseline) (rec : option bool) (g : group_state R) : group_state R :=
  Group R (g_results g) (g_handle g) b (g_uses g) rec.
Definition with_uses (n : Z) (g : group_state R) : group_state R :=
  Group R (g_results g) (g_handle g) (g_baseline g) n (g_recyclable g).
Definition with_result (i : nat) (x : exn + R) (g : group_state R) : group_state R :=
  Group R (<[i := Some x]> (g_results g)) (g_handle g) (g_baseline g) (g_uses g) (g_recyclable g).

Definition is_recyclable (g : group_state R) : bool := bool_decide (g_recyclable g = Some true).

(** A sandbox for the next task, primed; its pool is dropped while it is held *)
Definition claim (t : task) : GM nat :=
  g ← self;
  _ ← (if scale_on_hold && is_recyclable g then world (op_warm_image (t_image t)) else mret ());
  id ← world (op_acquire (t_image t));
  _ ← set_self (with_handle (Some id));
  _ ← (if use_session then world (except (λ _, Some (mret ())) (op_open_session id)) else mret ());
  g ← self;
  _ ← match g_recyclable g with
      | None => b ← world (op_prime id); set_self (with_baseline b (Some (recyclable b)))
      | Some true => b ← world (op_prime id); set_self (with_baseline b (Some true))
      | Some false => mret ()
      end;
  g ← self;
  _ ← (if scale_on_hold && is_recyclable g then world (op_unwarm_image (t_image t)) else mret ());
  _ ← set_self (with_uses 0);
  mret id.

(** [_process]: an exception is the task's result *)
Definition process (id i : nat) (t : task) : GM () :=
  x ← world (except (λ e, Some (mret (inl e))) (a ← process_fn t id; mret (inr a)));
  set_self (with_result i x).

(** [fleet.release(handle); handle = None] *)
Definition hand_back (id : nat) : GM () := _ ← world (op_release id); set_self (with_handle None).

(** Between two tasks: a fresh claim when the image cannot be reset or the sandbox
    served enough tasks, a reset otherwise, and a fresh claim when it is not clean *)
Definition between (id : nat) : GM () :=
  g ← self;
  if negb (is_recyclable g) then hand_back id
  else
    _ ← set_self (with_uses (g_uses g + 1));
    if max_reuses <=? g_uses g + 1 then hand_back id
    else
      o ← world (op_reset id (g_baseline g) reset_timeout);
      if ro_clean o then mret () else hand_back id.

Fixpoint run_tasks (group : list (nat * task)) : GM () :=
  match group with
  | [] => mret ()
  | (i, t) :: rest =>
      g ← self;
      id ← match g_handle g with Some id => mret id | None => claim t end;
      _ ← process id i t;
      match rest with
      | [] => mret ()
      | _ => _ ← between id; run_tasks rest
      end
  end.

(** An error of the fleet is the result of the tasks of the group that have none *)
Definition fail_rest (group : list (nat * task)) (e : exn) (g : group_state R) : group_state R :=
  foldl (λ g it, match g_results g !! it.1 with
                 | Some None => with_result it.1 (inl e) g
                 | _ => g
                 end) g group.

(** The [finally] of a group *)
Definition cleanup : GM () :=
  g ← self;
  match g_handle g with
  | None => mret ()
  | Some id => world (except (λ _, Some (mret ())) (op_release id))
  end.

Definition run_group (group : list (nat * task)) : GM () :=
  _ ← set_self (λ g, Group R (g_results g) None no_baseline 0 None);
  finally cleanup
    (except (λ e, Some (set_self (fail_rest group e))) (run_tasks group)).

(** The tasks of each image with their positions *)
Definition groups_of (tasks : list task) : list (list (nat * task)) :=
  pairs_of tasks <$> (image_counts tasks).*1.

Definition new_group (n : nat) : group_state R := Group R (replicate n None) None no_baseline 0 None.

Definition run_groups (tasks : list task) : M S (list (option (exn + R))) := λ s,
  match for_each (groups_of tasks) run_group (new_group (length tasks), s) with
  | (Ret _, (g, s')) => (Ret (g_results g), s')
  | (Raise e, (_, s')) => (Raise e, s')
  | (NoFuel, (_, s')) => (NoFuel, s')
  end.
End executor.

(** ** The executor on the fleet *)
Section fleet_executor.
Context {W : Type} `{Clock W} `{Sdk W} `{PodExec W} `{Clusters W}.
Context (fsum : list pyfloat → pyfloat) (special : list ascii → outcome (list ascii)).
Context {R : Type} (process_fn : task → nat → M (fleet * W) R).
(** What Python's [None] is among the results *)
Context (none : R).
Context (r : GitRestoreReset) (fuel : nat).

Abbreviation FM := (M (fleet * W)).

Definition fleet_ops : RecycleOps (fleet * W) := {|
  op_warm_image image := warm_image fsum special fuel image (Some 1) true;
  op_acquire image := acquire special image None [];
  op_open_session id := _ ← on_handle id (h ← self; open_session fuel (runtime_exec_container h)); mret ();
  op_prime id := on_handle id (prime r fuel);
  op_reset id base timeout := on_handle id (reset r fuel base timeout);
  op_unwarm_image := unwarm_image fsum special;
  op_release id := release id false;
|}.
#[local] Existing Instance fleet_ops.

(** [reentrant] and [counts] are those of [overcommit_guard]. *)
Definition reuse_git_restore_sandbox (max_reuses reset_timeout : Z) (use_session scale_on_hold reentrant : bool)
    (counts : list Z) (tasks : list task) : FM (list (exn + R)) :=
  f ← self;
  let expected := match f_plan f with
                  | Some p => total_replicas p
                  | None => Z.of_nat (length (groups_of tasks))
                  end in
  overcommit_guard fsum special reentrant counts (Some expected)
    (results ← run_groups process_fn max_reuses reset_timeout use_session scale_on_hold tasks;
     mret (default (inr none) <$> results)).

(** [determinism_canary]: whether two runs of a task around a reset agree *)
Definition determinism_canary (t : task) (same : R → R → bool) : FM (bool * ResetOutcome * R * R) :=
  id ← acquire special (t_image t) None [];
  finally (release id false)
    (b ← on_handle id (prime r fuel);
     first ← process_fn t id;
     o ← on_handle id (reset r fuel b (5 * SECOND));
     second ← process_fn t id;
     mret (same first second, o, first, second)).
End fleet_executor.
