(* ===== verification/RlRecycleProofs.v ===== *)
(** What recycling promises: a sandbox serves a task only when it is fresh or was
    verified clean, serves a bounded number of them and is always released; and every
    task of a batch gets its own result. *)

From Stdlib Require Import Ascii String ZArith Lia.
From stdpp Require Import base option list strings sets.
From S2P Require Import Prelude Hoare Float Json PyList PyText IpAddress Models Utils World K8sHelper DateTime Budget Snapshots RlResources RlConfig RlHandles RlFleet RlOwnership RlSim RlFleetOwnership RlFleetProofs RlStrategies RlRecycle.

#[local] Open Scope Z_scope.

(** ** What a clean reset means *)

(** The fingerprint of the sandbox is the one that was taken when it was fresh, as far
    as the reset checks it. *)
Record verified (r : GitRestoreReset) (b : ResetBaseline) (d : list (string * string)) : Prop := {
  v_anchor : pristine_sha b ≠ EmptyString;
  v_head : dget "HEAD" d = Some (pristine_sha b);
  v_worktree : dget "DIRTY" d ∈ [None; Some EmptyString; Some "0"%string];
  v_env : gr_check_env r = true → env_hash b ≠ EmptyString ∧ dget "ENV" d = Some (env_hash b);
  v_config : gr_check_config r = true → config_hash b ≠ EmptyString ∧ dget "CFG" d = Some (config_hash b);
  v_procs : ∀ n, proc_count b ≠ 0 → py_int (get_or d "PROCS" "0") = Some n → n ≤ proc_count b + 2;
}.

Lemma get_or_nonempty d k v : v ≠ EmptyString → get_or d k EmptyString = v → dget k d = Some v.
Proof. unfold get_or. intros Hv. destruct (dget k d); congruence. Qed.

Lemma get_or_found d k v : dget k d = Some v → get_or d k EmptyString = v.
Proof. unfold get_or. by intros ->. Qed.

Lemma clean_worktree d :
  default "0"%string (str_or (dget "DIRTY" d) None) = "0"%string ↔
  dget "DIRTY" d ∈ [None; Some EmptyString; Some "0"%string].
Proof.
  rewrite !elem_of_cons, elem_of_nil. destruct (dget "DIRTY" d) as [[|c v]|]; cbn; [tauto| |tauto].
  split; [by intros ->; auto|by intros [|[|[|[]]]]; simplify_eq].
Qed.

(** A tripwire that is not armed, or whose hash was taken and did not change *)
Lemma hash_matches d check hash k :
  check && (hash =? EmptyString)%string = false ∧ check && negb (get_or d k EmptyString =? hash)%string = false ↔
  (check = true → hash ≠ EmptyString ∧ dget k d = Some hash).
Proof.
  destruct check; cbn; [|by split]. destruct (String.eqb_spec hash EmptyString) as [->|Hn].
  - split; [by intros []|]. intros Hk. by destruct (Hk eq_refl).
  - destruct (String.eqb_spec (get_or d k EmptyString) hash) as [E|E]; cbn; (split; [|done || intros Hk]).
    + intros _ _. split; [done|by apply get_or_nonempty].
    + by intros [].
    + destruct (Hk eq_refl) as [_ E']. by apply get_or_found in E'.
Qed.

(** A reset counts as clean exactly when the fingerprint verifies in time. *)
Lemma first_failure_none r d b elapsed timeout :
  first_failure r d b elapsed timeout = EmptyString ↔ verified r b d ∧ elapsed ≤ timeout.
Proof.
  unfold first_failure.
  destruct (String.eqb_spec (pristine_sha b) EmptyString) as [?|Ha]; [by split; [|intros [[] ?]]|].
  destruct (Z.ltb_spec timeout elapsed) as [?|Ht]; [split; [done|intros [_ ?]; lia]|].
  destruct (String.eqb_spec (get_or d "HEAD" EmptyString) (pristine_sha b)) as [Eh|Hh]; cbn [negb];
    [apply get_or_nonempty in Eh; [|done]|split; [done|intros [[] _]; by apply get_or_found in v_head0]].
  destruct (String.eqb_spec (default "0"%string (str_or (dget "DIRTY" d) None)) "0") as [Ed%clean_worktree|Hd]; cbn [negb];
    [|split; [done|intros [[] _]; by apply clean_worktree in v_worktree0]].
  pose proof (hash_matches d (gr_check_env r) (env_hash b) "ENV"%string) as He.
  pose proof (hash_matches d (gr_check_config r) (config_hash b) "CFG"%string) as Hc.
  destruct (gr_check_env r && (env_hash b =? EmptyString)%string); [split; [done|intros [[] _]; by apply He in v_env0 as []]|].
  destruct (gr_check_env r && negb _); [split; [done|intros [[] _]; by apply He in v_env0 as []]|].
  destruct (gr_check_config r && (config_hash b =? EmptyString)%string);
    [split; [done|intros [[] _]; by apply Hc in v_config0 as []]|].
  destruct (gr_check_config r && negb _); [split; [done|intros [[] _]; by apply Hc in v_config0 as []]|].
  assert ((∀ n, proc_count b ≠ 0 → py_int (get_or d "PROCS" "0") = Some n → n ≤ proc_count b + 2) →
    verified r b d ∧ elapsed ≤ timeout) as Hok by (split; [constructor; tauto|done]).
  destruct (Z.eqb_spec (proc_count b) 0) as [Ep|Hp]; [split; [intros; apply Hok; lia|done]|].
  destruct (py_int _) as [n|] eqn:En; [|split; [intros _; by apply Hok|done]].
  destruct (Z.ltb_spec (proc_count b + 2) n) as [?|Hn];
    [split; [done|intros [[] _]; specialize (v_procs0 _ Hp En); lia]|].
  split; [intros _; apply Hok; intros ? _ [= <-]; done|done].
Qed.

Section reset_spec.
Context {W : Type} `{Clock W} `{Sdk W} `{PodExec W}.

Lemma reset_clean r fuel b timeout (s : handle * W) o s' :
  reset r fuel b timeout s = (Ret o, s') → ro_clean o = true → verified r b (ro_detail o) ∧ ro_elapsed o ≤ timeout.
Proof.
  unfold reset. intros E Hc. apply bind_ret_inv in E as (t0 & s1 & _ & E).
  apply bind_ret_inv in E as ([d|] & s2 & _ & E); apply bind_ret_inv in E as (t1 & s3 & _ & E);
    apply mret_inv in E as [<- _]; [|done].
  cbn in *. apply String.eqb_eq in Hc. by apply first_failure_none in Hc.
Qed.
End reset_spec.

(** ** The calls of the executor *)

(** What the executor asked for, with the answer *)
Inductive call :=
  | CAcquire (o : outcome nat)
  | CPrime (id : nat) (o : outcome ResetBaseline)
  | CTask (id : nat) (t : task)
  | CReset (id : nat) (b : ResetBaseline) (o : outcome ResetOutcome)
  | CRelease (id : nat) (o : outcome ()).

Definition logged_ops {S} `{RecycleOps S} : RecycleOps (S * list call) := {|
  op_warm_image image := unlogged (op_warm_image image);
  op_acquire image := logging CAcquire (op_acquire image);
  op_open_session id := unlogged (op_open_session id);
  op_prime id := logging (CPrime id) (op_prime id);
  op_reset id b timeout := logging (CReset id b) (op_reset id b timeout);
  op_unwarm_image image := unlogged (op_unwarm_image image);
  op_release id := logging (CRelease id) (op_release id);
|}.
Definition logged_process {S R} (process_fn : task → nat → M S R) (t : task) (id : nat) : M (S * list call) R :=
  logging (λ _, CTask id t) (process_fn t id).

(** ** The life of the sandboxes of a batch *)

Section life.
Context (r : GitRestoreReset) (max_reuses reset_timeout : Z).

(** No sandbox is held; or one is, with what was read when it was primed, whether
    it is clean, and the number of tasks it served; or its release has failed. *)
Inductive hold :=
  | NotHeld
  | Held (id : nat) (b : option ResetBaseline) (clean : bool) (served : Z)
  | Unreleased (id : nat).

Definition vacant (h : hold) : Prop := match h with Held _ _ _ _ => False | _ => True end.
(** The sandbox, if there is one *)
Definition holds (id : nat) (h : hold) : Prop :=
  match h with NotHeld => False | Held id' _ _ _ | Unreleased id' => id' = id end.

(** What may happen: a sandbox is claimed when the release of the last one was asked
    for; tasks run in clean sandboxes only, at most [max_reuses] in one of them; and a
    sandbox that served is clean again when its fingerprint verifies against the one
    read when it was primed. *)
Inductive hstep : hold → call → hold → Prop :=
  | h_acquire h id : vacant h → hstep h (CAcquire (Ret id)) (Held id None true 0)
  | h_not_acquired h e : vacant h → hstep h (CAcquire (Raise e)) h
  | h_prime id b : hstep (Held id None true 0) (CPrime id (Ret b)) (Held id (Some b) true 0)
  | h_not_primed id e : hstep (Held id None true 0) (CPrime id (Raise e)) (Held id None true 0)
  | h_task id b n t : n < Z.max 1 max_reuses → hstep (Held id b true n) (CTask id t) (Held id b false (n + 1))
  | h_clean id b n o :
      verified r b (ro_detail o) → ro_elapsed o ≤ reset_timeout →
      hstep (Held id (Some b) false n) (CReset id b (Ret o)) (Held id (Some b) true n)
  | h_not_clean id b n o : hstep (Held id (Some b) false n) (CReset id b o) (Held id (Some b) false n)
  | h_release h id u : holds id h → hstep h (CRelease id (Ret u)) NotHeld
  | h_not_released h id e : holds id h → hstep h (CRelease id (Raise e)) (Unreleased id).

Inductive life : list call → hold → Prop :=
  | life_nil : life [] NotHeld
  | life_snoc l h c h' : life l h → hstep h c h' → life (l ++ [c]) h'.
End life.

(** ** The executor keeps to it *)

Section hygiene.
Context {S : Type} {Hops : RecycleOps S} {R : Type} (process_fn : task → nat → M S R).
Context (r : GitRestoreReset) (max_reuses reset_timeout : Z) (use_session scale_on_hold : bool).
Hypothesis reset_verifies : ∀ id b s o s', op_reset id b reset_timeout s = (Ret o, s') → ro_clean o = true →
  verified r b (ro_detail o) ∧ ro_elapsed o ≤ reset_timeout.

Abbreviation life := (life r max_reuses reset_timeout).
Abbreviation hstep := (hstep r max_reuses reset_timeout).
Abbreviation LS := (S * list call)%type.
#[local] Existing Instance logged_ops.

(** Specifications that speak of the variables of the group and of the calls *)
Definition gspec {A} (pre : group_state R → list call → Prop) (m : M (group_state R * LS) A)
    (post : A → group_state R → list call → Prop) (fin : group_state R → list call → Prop) : Prop :=
  spec (λ s, pre s.1 s.2.2) m (λ a s, post a s.1 s.2.2) (λ s, fin s.1 s.2.2).

Lemma gspec_bind {A B} pre (m : M (group_state R * LS) A) (k : A → M (group_state R * LS) B) mid post fin :
  gspec pre m mid fin → (∀ a, gspec (mid a) (k a) post fin) → gspec pre (m ≫= k) post fin.
Proof. apply spec_bind. Qed.
Lemma gspec_weaken {A} (pre pre' : group_state R → list call → Prop) (m : M (group_state R * LS) A) post post'
    (fin fin' : group_state R → list call → Prop) :
  gspec pre' m post' fin' → (∀ g l, pre g l → pre' g l) → (∀ a g l, post' a g l → post a g l) →
  (∀ g l, fin' g l → fin g l) → gspec pre m post fin.
Proof. intros Hm Hp Hq Hf. eapply spec_weaken; [exact Hm|..]; cbn; auto. Qed.
Lemma gspec_ret {A} (a : A) (pre : group_state R → list call → Prop) post fin :
  (∀ g l, pre g l → post a g l) → gspec pre (mret a) post fin.
Proof. intros Ha. apply spec_ret. intros s. apply Ha. Qed.
Lemma gspec_set f (pre post fin : group_state R → list call → Prop) :
  (∀ g l, pre g l → post (f g) l) → gspec pre (set_self f) (λ _, post) fin.
Proof. intros Hf. apply spec_set_self. intros g [w l]. apply Hf. Qed.
Lemma gspec_self {A} (pre : group_state R → list call → Prop) (k : group_state R → M (group_state R * LS) A) post fin :
  (∀ g, gspec (λ g' l, g' = g ∧ pre g l) (k g) post fin) → gspec pre (self ≫= k) post fin.
Proof. intros Hk s Hs. by apply (Hk s.1 s). Qed.
(** A call that is on the log *)
Lemma gspec_call {A B} (entry : outcome A → call) (m : M S A) (k : A → M (group_state R * LS) B) pre mid post fin :
  (∀ e g l, pre g l → fin g (l ++ [entry (Raise e)])) →
  (∀ a s s' g l, m s = (Ret a, s') → pre g l → mid a g (l ++ [entry (Ret a)])) →
  (∀ a, gspec (mid a) (k a) post fin) → gspec pre (world (logging entry m) ≫= k) post fin.
Proof.
  intros Hf Hm Hk. eapply spec_bind; [|exact Hk]. apply spec_world. intros g [s l] Hg. unfold logging. cbn in *.
  destruct (m s) as [[a|e|] s'] eqn:E; cbn; [by eapply Hm|by apply Hf|done].
Qed.
(** Calls that are not *)
Lemma gspec_quiet {A} (m : M LS A) (pre fin : group_state R → list call → Prop) :
  (∀ s, (m s).2.2 = s.2) → (∀ g l, pre g l → fin g l) → gspec pre (world m) (λ _, pre) fin.
Proof.
  intros Hm Hf. apply spec_world. intros g s Hs. specialize (Hm s). cbn in *.
  destruct (m s) as [[a|e|] s']; cbn in *; rewrite ?Hm; auto.
Qed.
Lemma unlogged_quiet {A} (m : M S A) (s : LS) : (unlogged m s).2.2 = s.2.
Proof. unfold unlogged. by destruct (m s.1). Qed.

(** The group holds the sandbox *)
Definition held (id : nat) (clean : bool) (n : Z) (g : group_state R) (l : list call) : Prop :=
  g_handle g = Some id ∧ ∃ b, life l (Held id b clean n) ∧ (g_recyclable g = Some true → b = Some (g_baseline g)).
Definition idle (g : group_state R) (l : list call) : Prop := g_handle g = None ∧ ∃ h, life l h ∧ vacant h.
(** Wherever a group stops *)
Definition safe (g : group_state R) (l : list call) : Prop :=
  idle g l ∨ ∃ id h, g_handle g = Some id ∧ life l h ∧ holds id h.
(** Before a task *)
Definition ready (g : group_state R) (l : list call) : Prop :=
  idle g l ∨ ∃ id, held id true (g_uses g) g l ∧ g_uses g < Z.max 1 max_reuses.
(** Just claimed, not primed *)
Definition fresh (id : nat) (g : group_state R) (l : list call) : Prop :=
  g_handle g = Some id ∧ life l (Held id None true 0).

Lemma held_safe id clean n g l : held id clean n g l → safe g l.
Proof. intros [Hh (b & Hl & _)]. right. by exists id, (Held id b clean n). Qed.
Lemma fresh_safe id g l : fresh id g l → safe g l.
Proof. intros [Hh Hl]. right. by exists id, (Held id None true 0). Qed.
Lemma ready_safe g l : ready g l → safe g l.
Proof. intros [?|(id & ? & _)]; [by left|by eapply held_safe]. Qed.

Lemma hand_back_spec id clean n : gspec (held id clean n) (hand_back id) (λ _, idle) safe.
Proof.
  apply (gspec_call (CRelease id) _ _ _ (λ _ g l, life l NotHeld)).
  - intros e g l [Hh (b & Hl & _)]. right. exists id, (Unreleased id). split; [done|]. split; [|done].
    eapply life_snoc; [done|by constructor].
  - intros u s s' g l _ [_ (b & Hl & _)]. eapply life_snoc; [done|by constructor].
  - intros u. apply gspec_set. intros g l Hl. split; [done|]. by exists NotHeld.
Qed.

Lemma process_spec id i t :
  gspec (λ g l, held id true (g_uses g) g l ∧ g_uses g < Z.max 1 max_reuses) (process (logged_process process_fn) id i t)
    (λ _ g l, held id false (g_uses g + 1) g l) safe.
Proof.
  eapply gspec_bind with (mid := λ _ g l, held id false (g_uses g + 1) g l); [|intros x; by apply gspec_set].
  apply spec_world. intros g [s l] [[Hh (b & Hl & Hb)] Hn]. cbn in *.
  assert (held id false (g_uses g + 1) g (l ++ [CTask id t])) as Ht.
  { split; [done|]. exists b. split; [|done]. eapply life_snoc; [done|by constructor]. }
  unfold except, mbind, M_bind, logged_process, logging. cbn. by destruct (process_fn t id s) as [[a|e|] s'].
Qed.

(** After a task: the sandbox is gone, or clean again with room for another task. *)
Lemma between_spec id :
  gspec (λ g l, held id false (g_uses g + 1) g l) (between max_reuses reset_timeout id) (λ _, ready) safe.
Proof using reset_verifies.
  assert (∀ n, gspec (held id false n) (hand_back id) (λ _, ready) safe) as Hback.
  { intros n. eapply gspec_weaken; [apply hand_back_spec|done| |done]. intros ? g l Hg. by left. }
  apply gspec_self. intros g. destruct (is_recyclable g) eqn:Er; cbn [negb].
  2: { eapply gspec_weaken; [apply (Hback (g_uses g + 1))|by intros g1 l [-> ?]|done|done]. }
  apply bool_decide_eq_true in Er.
  eapply gspec_bind with (mid := λ _ g' l, held id false (g_uses g + 1) g' l ∧ g_uses g' = g_uses g + 1
    ∧ g_baseline g' = g_baseline g ∧ g_recyclable g' = Some true).
  { apply gspec_set. by intros g1 l [-> Hg]. }
  intros ?. destruct (Z.leb_spec max_reuses (g_uses g + 1)) as [Hm|Hm].
  { eapply gspec_weaken; [apply (Hback (g_uses g + 1))|by intros ? ? []|done|done]. }
  assert (∀ g' l, held id false (g_uses g + 1) g' l → g_baseline g' = g_baseline g → g_recyclable g' = Some true →
    life l (Held id (Some (g_baseline g)) false (g_uses g + 1))) as Hlife.
  { intros g' l [_ (b & Hl & Hb)] <- Hrec. by rewrite <-(Hb Hrec). }
  apply (gspec_call (CReset id (g_baseline g)) _ _ _
    (λ o g' l, if ro_clean o then ready g' l else held id false (g_uses g + 1) g' l)).
  - intros e g' l (Hg & Hu & Hbase & Hrec). right. exists id. eexists. split; [apply Hg|].
    split; [eapply life_snoc; [by eapply Hlife|apply h_not_clean]|done].
  - intros o s s' g' l E (Hg & Hu & Hbase & Hrec). pose proof (Hlife g' l Hg Hbase Hrec) as Hl. destruct (ro_clean o) eqn:Ec.
    + destruct (reset_verifies _ _ _ _ _ E Ec) as [Hv Ht]. right. exists id. split; [|lia]. split; [apply Hg|].
      exists (Some (g_baseline g')). split; [|done]. rewrite Hu, Hbase. eapply life_snoc; [done|by apply h_clean].
    + split; [apply Hg|]. exists (Some (g_baseline g')). split; [|done]. rewrite Hbase.
      eapply life_snoc; [done|apply h_not_clean].
  - intros o. destruct (ro_clean o); [by apply gspec_ret|apply Hback].
Qed.

Lemma prime_spec id (rec : ResetBaseline → bool) :
  gspec (fresh id) (b ← world (op_prime id); set_self (with_baseline b (Some (rec b)))) (λ _, held id true 0) safe.
Proof.
  apply (gspec_call (CPrime id) _ _ _ (λ b g l, g_handle g = Some id ∧ life l (Held id (Some b) true 0))).
  - intros e g l [Hh Hl]. apply (fresh_safe id). split; [done|]. eapply life_snoc; [done|constructor].
  - intros b s s' g l _ [Hh Hl]. split; [done|]. eapply life_snoc; [done|constructor].
  - intros b. apply gspec_set. intros g l [Hh Hl]. split; [done|]. by exists (Some b).
Qed.

Lemma claim_spec t :
  gspec idle (claim use_session scale_on_hold t)
    (λ id g l, held id true (g_uses g) g l ∧ g_uses g < Z.max 1 max_reuses) safe.
Proof.
  assert (∀ (b : bool) (m : M LS ()) (pre : group_state R → list call → Prop),
    (∀ s, (m s).2.2 = s.2) → (∀ g l, pre g l → safe g l) →
    gspec pre (if b then world m else mret ()) (λ _, pre) safe) as Hwhen.
  { intros b m pre Hm Hp. destruct b; [by apply gspec_quiet|by apply gspec_ret]. }
  apply gspec_self. intros g0.
  eapply gspec_bind; [apply Hwhen; [apply unlogged_quiet|intros g l [-> ?]; by left]|]. intros ?.
  apply (gspec_call CAcquire _ _ _ (λ id g l, life l (Held id None true 0))).
  { intros e g l [-> [Hh (h & Hl & Hv)]]. left. split; [done|]. exists h. split; [|done]. eapply life_snoc; [done|by constructor]. }
  { intros id s s' g l _ [-> [_ (h & Hl & Hv)]]. eapply life_snoc; [done|by constructor]. }
  intros id. eapply gspec_bind with (mid := λ _, fresh id); [by apply gspec_set|]. intros ?.
  eapply gspec_bind; [apply Hwhen; [|apply fresh_safe]|].
  { intros s. unfold except. pose proof (unlogged_quiet (op_open_session id) s). cbn. by destruct (unlogged _ s) as [[]]. }
  intros ?. apply gspec_self. intros g1. eapply gspec_bind with (mid := λ _, held id true 0).
  { destruct (g_recyclable g1) as [[]|] eqn:Er.
    - eapply gspec_weaken; [apply (prime_spec id (λ _, true))|by intros g l [-> ?]|done|done].
    - apply gspec_ret. intros g l [-> [Hh Hl]]. split; [done|]. exists None. split; [done|by rewrite Er].
    - eapply gspec_weaken; [apply (prime_spec id recyclable)|by intros g l [-> ?]|done|done]. }
  intros ?. apply gspec_self. intros g2.
  eapply gspec_bind; [apply Hwhen; [apply unlogged_quiet|intros g l [-> ?]; by eapply held_safe]|]. intros ?.
  eapply gspec_bind with (mid := λ _ g l, held id true (g_uses g) g l ∧ g_uses g < Z.max 1 max_reuses);
    [|intros; by apply gspec_ret].
  apply gspec_set. intros g l [-> Hg]. split; [exact Hg|cbn; lia].
Qed.

Lemma run_tasks_spec group :
  gspec ready (run_tasks (logged_process process_fn) max_reuses reset_timeout use_session scale_on_hold group) (λ _, safe) safe.
Proof using reset_verifies.
  induction group as [|[i t] rest IH]; cbn [run_tasks]; [apply gspec_ret, ready_safe|].
  apply gspec_self. intros g.
  eapply gspec_bind with (mid := λ id g l, held id true (g_uses g) g l ∧ g_uses g < Z.max 1 max_reuses).
  { destruct (g_handle g) as [id|] eqn:Eh.
    - apply gspec_ret. intros g' l [-> [[Hn _]|(id' & Hh & Hn)]]; [congruence|].
      assert (id' = id) as -> by (destruct Hh; congruence). done.
    - eapply gspec_weaken; [apply claim_spec| |done|done].
      intros g' l [-> [?|(id & [Hh _] & _)]]; [done|congruence]. }
  intros id. eapply gspec_bind; [apply process_spec|]. intros ?. destruct rest as [|next rest].
  - apply gspec_ret. intros g' l. apply held_safe.
  - eapply gspec_bind; [apply between_spec|]. intros ?. exact IH.
Qed.

Definition over (g : group_state R) (l : list call) : Prop := ∃ h, life l h ∧ vacant h.

Lemma fail_rest_keeps group e (g : group_state R) : g_handle (fail_rest group e g) = g_handle g.
Proof.
  unfold fail_rest. revert g. induction group as [|[i t] group IH]; intros g; [done|]. cbn. rewrite IH. by repeat case_match.
Qed.
Lemma fail_rest_safe group e g l : safe g l → safe (fail_rest group e g) l.
Proof. unfold safe, idle. by rewrite fail_rest_keeps. Qed.

Lemma cleanup_spec : gspec safe cleanup (λ _, over) (λ _ _, False).
Proof.
  apply gspec_self. intros g. destruct (g_handle g) as [id|] eqn:Eh.
  - apply spec_world. intros g' [s l] [E [[Hn _]|(id' & h & Hh & Hl & Hi)]]; cbn in *; subst g'; [congruence|].
    assert (id' = id) as -> by congruence. unfold except, logging. cbn.
    destruct (op_release id s) as [[u|e|] s']; cbn; [exists NotHeld|exists (Unreleased id)|done];
      (split; [eapply life_snoc; [done|by constructor]|done]).
  - apply gspec_ret. intros g' l [-> [[_ ?]|(id & h & ? & _)]]; [done|congruence].
Qed.

Abbreviation run_group := (run_group (logged_process process_fn) max_reuses reset_timeout use_session scale_on_hold).

Lemma run_group_spec group : gspec over (run_group group) (λ _, over) (λ _ _, False).
Proof using reset_verifies.
  eapply gspec_bind with (mid := λ _, ready); [apply gspec_set; intros g l Hg; by left|]. intros ?.
  eapply spec_finally with (postm := λ _ s, safe s.1 s.2.2) (mid := λ _, False);
    [|intros ?; apply cleanup_spec|by intros s []].
  eapply spec_except; [apply run_tasks_spec|]. intros e. exact (gspec_set _ safe safe (λ _ _, False) (fail_rest_safe group e)).
Qed.

Lemma run_groups_life tasks (s : LS) o s' :
  run_groups (logged_process process_fn) max_reuses reset_timeout use_session scale_on_hold tasks s = (o, s') → s.2 = [] →
  match o with Ret _ => ∃ h, life s'.2 h ∧ vacant h | Raise _ => False | NoFuel => True end.
Proof using reset_verifies.
  intros E Hs. unfold run_groups in E.
  assert (gspec over (for_each (groups_of tasks) run_group) (λ _, over) (λ _ _, False)) as Hg
    by (apply spec_for_each; intros group _; apply run_group_spec).
  specialize (Hg (new_group (length tasks), s)). cbn in Hg. rewrite Hs in Hg.
  specialize (Hg (ex_intro _ NotHeld (conj (life_nil _ _ _) I))).
  destruct (for_each _ _ _) as [[u|e|] [g s1]]; injection E as <- <-; done.
Qed.
End hygiene.
(** The groups capture every exception. *)
Lemma run_groups_no_raise {S} `{RecycleOps S} {R} (process_fn : task → nat → M S R) max_reuses reset_timeout use_session
    scale_on_hold tasks s e s' :
  run_groups process_fn max_reuses reset_timeout use_session scale_on_hold tasks s ≠ (Raise e, s').
Proof.
  assert (∀ group, spec (λ _, True) (run_group process_fn max_reuses reset_timeout use_session scale_on_hold group)
    (λ _ _, True) (λ _, False)) as Hg.
  { intros group. apply spec_bind with (mid := λ _ _, True); [by apply spec_set_self|]. intros ?.
    eapply spec_finally with (postm := λ _ _, True) (mid := λ _, False); [| |by intros ? []].
    - eapply spec_except with (mid := λ _, True); [intros ? ?; by repeat case_match|]. intros ?. by apply spec_set_self.
    - intros ?. apply spec_self_bind. intros g. destruct (g_handle g); [|by apply spec_ret]. apply spec_world.
      intros ? ? ?. unfold except. by repeat case_match. }
  intros E. unfold run_groups in E.
  pose proof (spec_for_each (groups_of tasks) _ (λ _, True) (λ _, False) (λ group _, Hg group) (new_group (length tasks), s) I) as Hs.
  destruct (for_each _ _ _) as [[u|e'|] [g s1]]; done.
Qed.

(** ** The executor on the fleet *)

Section fleet_hygiene.
Context {W : Type} `{Clock W} `{Sdk W} `{PodExec W} `{Clusters W}.
Context (fsum : list pyfloat → pyfloat) (special : list ascii → outcome (list ascii)).
Context {R : Type} (process_fn : task → nat → M (fleet * W) R).
Context (r : GitRestoreReset) (fuel : nat) (max_reuses reset_timeout : Z) (use_session scale_on_hold : bool).

Lemma fleet_reset_verifies id b (s : fleet * W) o s' :
  op_reset (RecycleOps := fleet_ops fsum special r fuel) id b reset_timeout s = (Ret o, s') → ro_clean o = true →
  verified r b (ro_detail o) ∧ ro_elapsed o ≤ reset_timeout.
Proof.
  cbn. unfold on_handle. intros E Hc. destruct (f_heap s.1 !! id) as [h|]; [|done].
  destruct (reset _ _ _ _ _) as [o' [h' w']] eqn:E'. injection E as -> _. by eapply reset_clean.
Qed.

(** What the guard adds to a body that raises nothing *)
Lemma guard_raises {A} reentrant counts expected (body : M (fleet * W) A) s e s' :
  (∀ s e s', body s ≠ (Raise e, s')) → overcommit_guard fsum special reentrant counts expected body s = (Raise e, s') →
  breaker_ceiling s.1 expected = Raise e ∨
  e = FleetOvercommitError ∧ reentrant = false ∧
  ∃ ceiling n, breaker_ceiling s.1 expected = Ret (Some ceiling) ∧
    breaker_loop ceiling (breaker_need s.1) 0 counts = Some n.
Proof.
  intros Hb. unfold overcommit_guard. generalize (teardown fsum special false) as td. intros td.
  unfold mbind, M_bind, self, lift. cbn.
  destruct (breaker_ceiling s.1 expected) as [[ceiling|]|e'|]; [|by intros ?%Hb|by intros [= <- _]; left|done].
  destruct reentrant; [by intros ?%Hb|]. unfold finally. pose proof (Hb s) as Hs. destruct (body s) as [[a|e'|] s1]; [|by destruct (Hs e' s1)|done].
  destruct (breaker_loop ceiling _ 0 counts) as [n|] eqn:En; cbn; [|done].
  unfold logged, except. destruct (td s1) as [[u|e'|] s2]; cbn; [| |done];
    (destruct (bool_decide (n = 0)); [done|]; intros [= <- _]; right; split; [done|]; split; [done|]; by exists ceiling, n).
Qed.

End fleet_hygiene.

(** ** Every task gets its result *)

Section results.
Context {W : Type} `{Clock W} `{Sdk W} `{PodExec W} `{Clusters W}.
Context (fsum : list pyfloat → pyfloat) (special : list ascii → outcome (list ascii)).
Context {R : Type} (process_fn : task → nat → M (fleet * W) R) (none : R).
Context (r : GitRestoreReset) (fuel : nat) (max_reuses reset_timeout : Z) (use_session scale_on_hold : bool).
Context (P : task → R → Prop).
Hypothesis process_result : ∀ t h s x s', process_fn t h s = (Ret x, s') → P t x.
Hypothesis process_keeps : ∀ t h s, moves same_tasks (process_fn t h) s.
Context (tasks : list task).

Abbreviation ops := (fleet_ops fsum special r fuel).
Abbreviation claim := (claim (H := ops) use_session scale_on_hold).
Abbreviation hand_back := (hand_back (H := ops) (R := R)).
Abbreviation between := (between (H := ops) (R := R) max_reuses reset_timeout).
Abbreviation cleanup := (cleanup (H := ops) (R := R)).
Abbreviation run_tasks := (run_tasks (H := ops) process_fn max_reuses reset_timeout use_session scale_on_hold).
Abbreviation run_group := (run_group (H := ops) process_fn max_reuses reset_timeout use_session scale_on_hold).
Ltac unfold_ops :=
  cbn [op_warm_image op_acquire op_open_session op_prime op_reset op_unwarm_image op_release fleet_ops].

Definition filled (g : group_state R) (i : nat) : Prop := ∃ x, g_results g !! i = Some (Some x).
(** As many results as tasks, and each answers its task *)
Definition sound (g : group_state R) : Prop :=
  length (g_results g) = length tasks ∧
  ∀ i t x, tasks !! i = Some t → g_results g !! i = Some (Some x) → answers P t x.
(** Results are added and never lost, and the tasks of the fleet stay. *)
Definition grows (s s' : group_state R * (fleet * W)) : Prop :=
  same_tasks s.2 s'.2 ∧ (sound s.1 → sound s'.1) ∧ ∀ i, filled s.1 i → filled s'.1 i.
#[local] Instance grows_preorder : PreOrder grows.
Proof.
  split; [by intros s; split|]. intros ??? (A1 & A2 & A3) (B1 & B2 & B3).
  split; [unfold same_tasks in *; congruence|]. auto.
Qed.
#[local] Existing Instance same_tasks_preorder.

Lemma grows_world {A} (m : M (fleet * W) A) s : moves same_tasks m s.2 → moves grows (world m) s.
Proof. intros Hm. destruct s as [g w]. unfold moves, world in *. cbn in *. by destruct (m w). Qed.
Lemma grows_note (f : group_state R → group_state R) s : (∀ g, g_results (f g) = g_results g) → moves grows (set_self f) s.
Proof.
  intros Hf. destruct s as [g w]. split; [done|]. unfold sound, filled. cbn. by rewrite Hf.
Qed.
Lemma with_result_grows i x (g : group_state R) :
  (∀ t, tasks !! i = Some t → answers P t x) →
  (sound g → sound (with_result i x g)) ∧ ∀ j, filled g j → filled (with_result i x g) j.
Proof.
  intros Hx. split.
  - intros [Hl Hs]. split; [cbn; by rewrite length_insert|]. cbn. intros j t y Ht.
    destruct (decide (i = j)) as [<-|Hn]; [|rewrite list_lookup_insert_ne by done; by apply Hs].
    rewrite list_lookup_insert. case_decide; [|intros ?; by eapply Hs]. intros [= <-]. by apply Hx.
  - intros j [y Hy]. unfold filled. cbn. rewrite list_lookup_insert. case_decide; eauto.
Qed.

Lemma tasks_warm_image n image override wait s : moves same_tasks (warm_image fsum special n image override wait) s.
Proof.
  apply tasks_outer. unfold warm_image. apply moves_bind; [apply same_outer_preorder|apply outer_the_plan|].
  intros es s1 _. case_match; [apply outer_warm_entry|by apply moves_raise, same_outer_preorder].
Qed.
Lemma tasks_swallow (m : M (fleet * W) ()) s : moves same_tasks m s → moves same_tasks (except (λ _, Some (mret ())) m) s.
Proof. intros. moves. Qed.
Lemma tasks_open_session id s :
  moves same_tasks (_ ← on_handle id (h ← self; open_session fuel (runtime_exec_container h)); mret ()) s.
Proof. moves_with ltac:(fun _ => apply tasks_on_handle). Qed.
#[local] Hint Resolve grows_world grows_note tasks_warm_image tasks_unwarm_image tasks_acquire tasks_release
  tasks_on_handle tasks_attempt tasks_swallow tasks_open_session : moves.

Lemma grows_claim t s : moves grows (claim t) s.
Proof.
  unfold RlRecycle.claim. unfold_ops. moves_with ltac:(fun _ => first [simple apply grows_world | simple apply grows_note; done | simple apply tasks_swallow]).
Qed.

Lemma attempt_answers t h s x s' :
  except (λ e, Some (mret (inl e))) (a ← process_fn t h; mret (inr a)) s = (Ret x, s') → answers P t x.
Proof using process_result.
  intros E. apply except_ret_inv in E as [E|(e & k & s1 & _ & [= <-] & E)].
  - apply bind_ret_inv in E as (y & s1 & E1 & E). apply mret_inv in E as [<- _]. by eapply process_result.
  - by apply mret_inv in E as [<- _].
Qed.

Lemma grows_process id i t s : tasks !! i = Some t → moves grows (process process_fn id i t) s.
Proof using process_result process_keeps.
  intros Ht. unfold process. apply moves_bind; [apply _|by apply grows_world, tasks_attempt|].
  intros x s1 E. apply world_run_inv in E as [E _]. apply attempt_answers in E. destruct s1 as [g w].
  split; [done|]. cbn. apply (with_result_grows i x g). intros t' Ht'. by simplify_eq.
Qed.
Lemma process_fills id i t s u s' :
  tasks !! i = Some t → sound s.1 → process process_fn id i t s = (Ret u, s') → filled s'.1 i.
Proof.
  intros Ht [Hl _] E. unfold process in E. apply bind_ret_inv in E as (x & s1 & E1 & E).
  apply world_run_inv in E1 as [_ E1]. destruct s1 as [g w]. cbn in E1. subst g. injection E as _ <-. exists x. cbn.
  apply list_lookup_insert_eq. rewrite Hl. by eapply lookup_lt_Some.
Qed.

Lemma grows_hand_back id s : moves grows (hand_back id) s.
Proof. unfold RlRecycle.hand_back. unfold_ops. moves_with ltac:(fun _ => simple apply grows_note; done). Qed.
#[local] Hint Resolve grows_claim grows_hand_back : moves.
Lemma grows_between id s : moves grows (between id) s.
Proof. unfold RlRecycle.between. unfold_ops. moves_with ltac:(fun _ => first [simple apply grows_world | simple apply grows_note; done]). Qed.

Lemma grows_run_tasks group s :
  (∀ i t, (i, t) ∈ group → tasks !! i = Some t) → moves grows (run_tasks group) s.
Proof using process_result process_keeps.
  revert s. induction group as [|[i t] rest IH]; intros s Hg; cbn [RlRecycle.run_tasks]; [done|].
  apply moves_self_bind. apply moves_bind; [apply _|destruct (g_handle _); [done|apply grows_claim]|]. intros id s1 _.
  apply moves_bind; [apply _|apply grows_process, Hg; left|]. intros _ s2 _. destruct rest as [|n rest]; [done|].
  apply moves_bind; [apply _|apply grows_between|]. intros _ s3 _. apply IH. intros; apply Hg. by right.
Qed.

Lemma grows_run s s' {A} (m : M (group_state R * (fleet * W)) A) x : moves grows m s → m s = (x, s') → grows s s'.
Proof. unfold moves. intros Hm E. by rewrite E in Hm. Qed.

Lemma run_tasks_fills group s u s' :
  (∀ i t, (i, t) ∈ group → tasks !! i = Some t) → sound s.1 → run_tasks group s = (Ret u, s') →
  ∀ i, i ∈ group.*1 → filled s'.1 i.
Proof using process_result process_keeps.
  revert s. induction group as [|[i t] rest IH]; intros s Hg Hs E j Hj; [by apply not_elem_of_nil in Hj|].
  cbn [RlRecycle.run_tasks] in E. unfold mbind at 1, M_bind at 1, self in E.
  apply bind_ret_inv in E as (id & s1 & E1 & E). apply bind_ret_inv in E as (v & s2 & E2 & E).
  assert (grows s s1) as (_ & G1 & _) by (eapply grows_run; [|exact E1]; destruct (g_handle _); [done|apply grows_claim]).
  assert (grows s1 s2) as (_ & G2 & _) by (eapply grows_run; [|exact E2]; apply grows_process, Hg; left).
  assert (filled s2.1 i) as Hi by (eapply process_fills; [apply Hg; left|by apply G1|exact E2]).
  assert (∃ s3, grows s2 s3 ∧ run_tasks rest s3 = (Ret u, s')) as (s3 & G3 & E3).
  { destruct rest as [|n rest]; [by exists s2|]. apply bind_ret_inv in E as (w & s3 & E3 & E). exists s3. split; [|done].
    eapply grows_run; [apply grows_between|exact E3]. }
  assert (∀ i t, (i, t) ∈ rest → tasks !! i = Some t) as Hg' by (intros; apply Hg; by right).
  cbn in Hj. apply elem_of_cons in Hj as [->|Hj]; [|by eapply (IH s3); [done|apply G3; auto|done|done]].
  pose proof (grows_run _ _ _ _ (grows_run_tasks rest s3 Hg') E3) as (_ & _ & G4). by apply G4, G3.
Qed.

Lemma fail_rest_fills group e (g : group_state R) :
  (∀ i t, (i, t) ∈ group → tasks !! i = Some t) → sound g →
  sound (fail_rest group e g) ∧ (∀ j, filled g j → filled (fail_rest group e g) j)
  ∧ ∀ j, j ∈ group.*1 → filled (fail_rest group e g) j.
Proof.
  unfold fail_rest. revert g. induction group as [|[i t] group IH]; intros g Hg Hs; cbn [foldl].
  { split; [done|split; [done|]]. intros j Hj. by apply not_elem_of_nil in Hj. }
  set (g1 := match g_results g !! (i, t).1 with Some None => with_result (i, t).1 (inl e) g | _ => g end).
  assert (sound g1 ∧ (∀ j, filled g j → filled g1 j) ∧ filled g1 i) as (Hs1 & Hf1 & Hi).
  { assert (i < length (g_results g))%nat as Hlt by (rewrite (proj1 Hs); eapply lookup_lt_Some, Hg; left).
    destruct (with_result_grows i (inl e) g) as [Ws Wf]; [done|]. subst g1. cbn.
    destruct (lookup_lt_is_Some_2 _ _ Hlt) as [[x|] Ei]; rewrite Ei; [by split; [|split; [|exists x]]|].
    split; [by apply Ws|]. split; [done|]. exists (inl e). by apply list_lookup_insert_eq. }
  destruct (IH g1) as (Hs2 & Hf2 & Hg2); [intros; apply Hg; by right|done|].
  split; [done|]. split; [auto|]. intros j Hj. apply elem_of_cons in Hj as [->|Hj]; auto.
Qed.

Lemma grows_cleanup (s : group_state R * (fleet * W)) : moves grows cleanup s.
Proof.
  unfold RlRecycle.cleanup. unfold_ops. apply moves_self_bind. destruct (g_handle _); [|done].
  moves_with ltac:(fun _ => first [simple apply grows_world | simple apply grows_note; done | simple apply tasks_swallow]).
Qed.

(** A group that ends has a result for each of its tasks, and loses none. *)
Lemma run_group_fills group s u s' :
  (∀ i t, (i, t) ∈ group → tasks !! i = Some t) → sound s.1 → run_group group s = (Ret u, s') →
  same_tasks s.2 s'.2 ∧ sound s'.1 ∧ (∀ i, filled s.1 i → filled s'.1 i) ∧ ∀ i, i ∈ group.*1 → filled s'.1 i.
Proof using process_result process_keeps.
  intros Hg Hs E. unfold RlRecycle.run_group in E. apply bind_ret_inv in E as (v & s1 & E1 & E).
  assert (grows s s1) as (T1 & G1 & F1) by (eapply grows_run; [|exact E1]; by apply grows_note).
  apply G1 in Hs. clear G1 E1.
  assert (∃ s2, except (λ e, Some (set_self (fail_rest group e))) (run_tasks group) s1 = (Ret u, s2) ∧ grows s2 s')
    as (s2 & E2 & T3 & G3 & F3).
  { unfold finally in E. destruct (except _ _ s1) as [x s2] eqn:E2.
    destruct (cleanup s2) as [y s3] eqn:E3. pose proof (grows_run _ _ _ _ (grows_cleanup s2) E3).
    destruct x, y; simplify_eq; eauto. }
  assert (same_tasks s1.2 s2.2 ∧ sound s2.1 ∧ (∀ i, filled s1.1 i → filled s2.1 i) ∧ ∀ i, i ∈ group.*1 → filled s2.1 i)
    as (T2 & S2 & F2 & D2).
  { apply except_ret_inv in E2 as [E2|(e & k & s3 & E2 & [= <-] & E4)];
      pose proof (grows_run _ _ _ _ (grows_run_tasks group s1 Hg) E2) as (T & G & F).
    - split; [done|]. split; [auto|]. split; [done|]. by eapply run_tasks_fills.
    - destruct s3 as [g3 w3]. injection E4 as _ <-. destruct (fail_rest_fills group e g3 Hg (G Hs)) as (A & B & C).
      split; [done|]. split; [done|]. split; [|done]. intros i Hi. by apply B, F. }
  split; [unfold same_tasks in *; congruence|]. split; [auto|]. split; [intros i Hi; by apply F3, F2, F1|].
  intros i Hi. by apply F3, D2.
Qed.

Lemma groups_of_pairs group i t : group ∈ groups_of tasks → (i, t) ∈ group → tasks !! i = Some t.
Proof.
  intros (image & -> & _)%list_elem_of_fmap Hi. by apply pairs_of_elem in Hi as [? _].
Qed.
Lemma groups_cover i t : tasks !! i = Some t → ∃ group, group ∈ groups_of tasks ∧ i ∈ group.*1.
Proof.
  intros Ht. exists (pairs_of tasks (t_image t)). split.
  - apply list_elem_of_fmap. eexists. split; [done|]. apply counts_cover. by eapply list_elem_of_lookup_2.
  - apply list_elem_of_fmap. exists (i, t). split; [done|]. by apply pairs_of_elem.
Qed.

Lemma groups_fill groups s u s' :
  (∀ group, group ∈ groups → group ∈ groups_of tasks) → sound s.1 → for_each groups run_group s = (Ret u, s') →
  sound s'.1 ∧ (∀ i, filled s.1 i → filled s'.1 i) ∧ ∀ group i, group ∈ groups → i ∈ group.*1 → filled s'.1 i.
Proof using process_result process_keeps.
  revert s. induction groups as [|group groups IH]; intros s Hin Hs E; cbn [for_each] in E.
  - apply mret_inv in E as [_ ->]. split; [done|]. split; [done|]. intros group i Hg. by apply not_elem_of_nil in Hg.
  - apply bind_ret_inv in E as (v & s1 & E1 & E).
    apply run_group_fills in E1 as (_ & Hs1 & F1 & D1); [|intros i t; apply groups_of_pairs, Hin; left|done].
    apply IH in E as (Hs2 & F2 & D2); [|intros; apply Hin; by right|done].
    split; [done|]. split; [auto|]. intros g i Hg Hi. apply elem_of_cons in Hg as [->|Hg]; eauto.
Qed.

#[local] Hint Resolve moves_world moves_set_self : moves.
Lemma tasks_run_group group s : moves (on_world same_tasks) (run_group group) s.
Proof using process_keeps.
  assert (∀ s, moves (on_world same_tasks) (run_tasks group) s) as Hr.
  { clear s. induction group as [|[i t] rest IH]; intros s; cbn [RlRecycle.run_tasks]; [done|].
    unfold RlRecycle.claim, process, RlRecycle.between, RlRecycle.hand_back. unfold_ops.
    moves_with ltac:(fun _ => first [simple apply moves_world | simple apply tasks_swallow | simple apply tasks_attempt]). }
  unfold RlRecycle.run_group, RlRecycle.cleanup. unfold_ops. moves_with ltac:(fun _ => first [simple apply moves_world | simple apply tasks_swallow]).
Qed.
End results.

(** Recycling is an executor too, so runs that recycle answer every task. *)
Section recycling.
Context {W : Type} `{Clock W} `{Sdk W} `{PodExec W} `{Clusters W}.
Context (fsum : list pyfloat → pyfloat) (special : list ascii → outcome (list ascii)).
Context {R : Type} (process_fn : task → nat → M (fleet * W) R) (none : R).
Context (r : GitRestoreReset) (fuel : nat) (max_reuses reset_timeout : Z) (use_session scale_on_hold : bool).
Context (P : task → R → Prop).
Hypothesis process_result : ∀ t h s x s', process_fn t h s = (Ret x, s') → P t x.
Hypothesis process_keeps : ∀ t h s, moves same_tasks (process_fn t h) s.
Abbreviation run_groups :=
  (run_groups (H := fleet_ops fsum special r fuel) process_fn max_reuses reset_timeout use_session scale_on_hold).
Abbreviation recycle reentrant counts :=
  (reuse_git_restore_sandbox fsum special process_fn none r fuel max_reuses reset_timeout use_session scale_on_hold
     reentrant counts).

Lemma guard_returns {A} reentrant counts expected (body : M (fleet * W) A) s a s' :
  overcommit_guard fsum special reentrant counts expected body s = (Ret a, s') → ∃ s1, body s = (Ret a, s1).
Proof.
  unfold overcommit_guard. generalize (teardown fsum special false) as td. intros td. unfold mbind, M_bind, self, lift. cbn.
  destruct (breaker_ceiling s.1 expected) as [[ceiling|]| |]; [|by eauto|done|done]. destruct reentrant; [by eauto|].
  unfold finally. destruct (body s) as [[a1|e|] s1]; [| |done].
  - intros E. exists s1. f_equal. f_equal. revert E. generalize (breaker_loop ceiling (breaker_need s.1) 0 counts) as tripped.
    intros tripped. destruct (match tripped with Some _ => logged () td | None => mret () end s1) as [[u|e|] s2]; [|done|done].
    by destruct (bool_decide _); [intros [= -> _]|].
  - generalize (breaker_loop ceiling (breaker_need s.1) 0 counts) as tripped. intros tripped.
    by destruct (match tripped with Some _ => logged () td | None => mret () end s1) as [[u|e'|] s2].
Qed.

#[local] Existing Instance same_tasks_preorder.
Lemma guard_tasks {A} reentrant counts expected (body : M (fleet * W) A) s :
  (∀ s, moves same_tasks body s) → moves same_tasks (overcommit_guard fsum special reentrant counts expected body) s.
Proof.
  intros Hb. pose proof (tasks_teardown fsum special false) as Ht. unfold overcommit_guard, logged.
  moves_with ltac:(fun _ => apply Ht).
Qed.

Lemma recycling_answers reentrant counts ts s rs s' : recycle reentrant counts ts s = (Ret rs, s') → Forall2 (answers P) ts rs.
Proof using process_result process_keeps.
  unfold reuse_git_restore_sandbox. unfold mbind at 1, M_bind at 1, self. intros (s1 & E)%guard_returns.
  apply bind_ret_inv in E as (results & s2 & E & E2). apply mret_inv in E2 as [<- _].
  unfold RlRecycle.run_groups in E. destruct (for_each _ _ _) as [[u|e|] [g s3]] eqn:Eg; [|done|done]. injection E as <- _.
  apply (groups_fill fsum special process_fn r fuel max_reuses reset_timeout use_session scale_on_hold P
    process_result process_keeps ts) in Eg as ([Hl Hs] & _ & Hd); [|done|].
  - apply Forall2_fmap_r, Forall2_same_length_lookup. split; [done|]. intros i t o Ht Ho.
    destruct (groups_cover ts i t Ht) as (group & Hg & Hi). destruct (Hd group i Hg Hi) as [x Hx].
    cbn in Hx. rewrite Hx in Ho. injection Ho as <-. cbn. by eapply Hs.
  - split; [apply length_replicate|]. cbn. intros i t x _ Hx. apply lookup_replicate in Hx as [? _]. done.
Qed.

Lemma tasks_run_groups ts s : moves same_tasks (run_groups ts) s.
Proof using process_keeps.
  unfold moves, RlRecycle.run_groups.
  assert (moves (on_world same_tasks) (for_each (groups_of ts) (run_group (H := fleet_ops fsum special r fuel) process_fn
    max_reuses reset_timeout use_session scale_on_hold)) (new_group (length ts), s)) as Hm.
  { apply moves_for_each; [apply on_world_preorder, same_tasks_preorder|]. intros group s1. by apply tasks_run_group. }
  unfold moves in Hm. by destruct (for_each _ _ _) as [[u|e|] [g s1]].
Qed.

Lemma recycling_executor reentrant counts : Executor P (recycle reentrant counts).
Proof using process_result process_keeps.
  split; [apply recycling_answers|]. intros ts s. unfold reuse_git_restore_sandbox.
  apply moves_self_bind, guard_tasks. intros s1. moves_with ltac:(fun _ => apply tasks_run_groups).
Qed.
End recycling.

(** ** A batch against the simulated cluster *)

(** Pods with a repository; a fingerprint takes no time and shows it pristine. *)
Definition LF_s : string := implode [LF].
Definition sim_fingerprint : string :=
  "PRISTINE=c0ffee" +:+ LF_s +:+ "HEAD=c0ffee" +:+ LF_s +:+ "DIRTY=0" +:+ LF_s +:+ "PROCS=3".
#[local] Instance git_exec : PodExec sim := {|
  open_stream := λ _ _ _ _, raise OSError;
  stream_is_open := λ _, mret false;
  stream_update := λ _ _, mret ();
  write_stdin := λ _ _, mret ();
  peek_stdout := λ _, mret false;
  read_stdout := λ _, mret EmptyString;
  peek_stderr := λ _, mret false;
  read_stderr := λ _, mret EmptyString;
  close_stream := λ _, mret ();
  exec_once := λ _ _ _ _ _, mret (Some sim_fingerprint);
  pod_status := λ _ _ _, mret (JObj []);
  pod_conditions := λ _ _ _, mret [];
|}.
Definition four_tasks : list task :=
  [Task "t1" "img:a" []; Task "t2" "img:a" []; Task "t3" "img:a" []; Task "t4" "img:a" []].
Definition sim_recycle (s : fleet * sim) :=
  run_groups (H := @logged_ops _ (fleet_ops sim_fsum no_special default_reset 5)) (logged_process sim_process)
    2 (5 * SECOND) true true four_tasks (s, []).
(** Load the tasks, set the fleet up, run them *)
Definition recycled : option (outcome (list (option (exn + string))) * ((fleet * sim) * list call)) :=
  s ← new_sim_fleet false None None empty_sim;
  Some (sim_recycle
    ((_ ← load_tasks four_tasks None; setup sim_fsum no_special 5 false no_preflight None) s).2).

Definition is_claim (e : call) : bool := match e with CAcquire (Ret _) => true | _ => false end.
Definition is_reset (e : call) : bool := match e with CReset _ _ _ => true | _ => false end.

