(* ===== verification/RlShards.v ===== *)
(** The shards of the asynchronous recycling executor: models
    [reuse_git_restore_sandbox_async] of [recycle.py] in
    [src/examples/agent-sandbox-rl/agent_sandbox_rl].

    The tasks of an image are dealt to shards, each a coroutine that holds one sandbox
    at a time. The shards of an image share two counters, and each section that changes
    them runs under the image's lock and asks the fleet for as many warm replicas as
    there are active shards that hold nothing. The model is the transition system of
    these sections, with the calls of the fleet that may fail in between; what a shard
    does with its sandbox is [RlRecycle]'s. *)

From Stdlib Require Import String ZArith Lia.
From stdpp Require Import base option list strings relations.
From S2P Require Import Prelude RlConfig RlFleet RlFleetProofs RlStrategies.

#[local] Open Scope Z_scope.

(** ** Dealing the tasks of an image *)

(** [items[s::K]] *)
Fixpoint stride {A} (k s : nat) (items : list A) : list A :=
  match items with
  | [] => []
  | a :: items' => match s with O => a :: stride k (k - 1) items' | S s' => stride k s' items' end
  end.

(** The non-empty shards of an image *)
Definition deal {A} (k : nat) (items : list A) : list (list A) :=
  filter (λ shard, shard ≠ []) ((λ s, stride k s items) <$> seq 0 k).

(** [groups] *)
Definition shard_groups (shards_per_image : Z) (tasks : list task) : list (string * list (nat * task)) :=
  let k := Z.to_nat (Z.max 1 shards_per_image) in
  (image_counts tasks).*1 ≫= λ image,
    (λ g, (image, g)) <$> (if (k <=? 1)%nat then [pairs_of tasks image] else deal k (pairs_of tasks image)).

(** ** The counters of an image *)

Record counters := Counters {
  (** shards that are not done *)
  active : Z;
  (** sandboxes that are held *)
  holding : Z;
  (** warm replicas the pool was last asked for *)
  desired : Z;
}.

(** [_rescale]: the fleet may refuse *)
Definition rescale (ok : bool) (c : counters) : counters :=
  if ok then Counters (active c) (holding c) (active c - holding c) else c.
Definition take_hold (ok : bool) (c : counters) : counters :=
  rescale ok (Counters (active c) (holding c + 1) (desired c)).
Definition drop_hold (ok : bool) (c : counters) : counters :=
  rescale ok (Counters (active c) (holding c - 1) (desired c)).
(** The section of the [finally] block *)
Definition leave (ok counted held : bool) (c : counters) : counters :=
  let c := Counters (active c - 1) (holding c) (desired c) in
  if counted then rescale ok (if held then Counters (active c) (holding c - 1) (desired c) else c) else c.

(** ** Shards *)

Inductive pc :=
  (** at the head of the loop, without a sandbox *)
  | Claiming
  (** claimed and primed *)
  | Claimed
  | Working
  (** the sandbox was released, to be replaced *)
  | Rotating
  (** before the [finally] block *)
  | Closing
  | Closed.

Record shard := Shard {
  sh_pc : pc;
  (** [handle is not None] *)
  sh_handle : bool;
  sh_recyclable : option bool;
}.

Section shards.
Context (scale_on_hold : bool).

Definition scales (sh : shard) : bool := scale_on_hold && bool_decide (sh_recyclable sh = Some true).

(** What [recyclable] may be after a claim *)
Definition decides (before after : option bool) : Prop := after = before ∨ before = None.

(** Steps of one shard. [fault]: the fleet refused to rescale after a release, or the
    fingerprint of a replacement could not be read. *)
Inductive shard_step : counters * shard → bool → counters * shard → Prop :=
  | claim_failed c rec :
      shard_step (c, Shard Claiming false rec) false (c, Shard Closing false rec)
  | claim_done c rec rec' : is_Some rec' → decides rec rec' →
      shard_step (c, Shard Claiming false rec) false (c, Shard Claimed true rec')
  | prime_failed c rec :
      shard_step (c, Shard Claiming false rec) (bool_decide (rec = Some true)) (c, Shard Closing true rec)
  | hold_done c sh ok : sh_pc sh = Claimed → scales sh = true →
      shard_step (c, sh) false
        (take_hold ok c, Shard (if ok then Working else Closing) (sh_handle sh) (sh_recyclable sh))
  | hold_skipped c sh : sh_pc sh = Claimed → scales sh = false →
      shard_step (c, sh) false (c, Shard Working (sh_handle sh) (sh_recyclable sh))
  | reset_done c h rec :
      shard_step (c, Shard Working h rec) false (c, Shard Working h rec)
  (** the last task is done, or a release failed *)
  | work_ended c h rec :
      shard_step (c, Shard Working h rec) false (c, Shard Closing h rec)
  | not_recyclable c h :
      shard_step (c, Shard Working h (Some false)) false (c, Shard Claiming false (Some false))
  | released c h :
      shard_step (c, Shard Working h (Some true)) false (c, Shard Rotating h (Some true))
  | drop_done c h : scale_on_hold = true →
      shard_step (c, Shard Rotating h (Some true)) false (drop_hold true c, Shard Claiming false (Some true))
  | drop_failed c h : scale_on_hold = true →
      shard_step (c, Shard Rotating h (Some true)) true (drop_hold false c, Shard Closing h (Some true))
  | drop_skipped c h : scale_on_hold = false →
      shard_step (c, Shard Rotating h (Some true)) false (c, Shard Claiming false (Some true))
  | left c sh ok : sh_pc sh = Closing →
      shard_step (c, sh) false
        (leave ok (scales sh) (sh_handle sh) c, Shard Closed (sh_handle sh) (sh_recyclable sh)).

(** A step of one of the shards of the image *)
Inductive step : counters * list shard → bool → counters * list shard → Prop :=
  | step_at c c' shs i sh sh' fault :
      shs !! i = Some sh → shard_step (c, sh) fault (c', sh') → step (c, shs) fault (c', <[i := sh']> shs).

Definition start (n : nat) (warm : Z) : counters * list shard :=
  (Counters (Z.of_nat n) 0 warm, replicate n (Shard Claiming false None)).

(** Runs without a fault *)
Definition reachable (n : nat) (warm : Z) : counters * list shard → Prop :=
  rtc (λ s s', step s false s') (start n warm).
End shards.

(** ** The shards of an image are its tasks *)

Lemma concat_nonempty {A} (l : list (list A)) : concat (filter (λ x, x ≠ []) l) = concat l.
Proof. induction l as [|[|a x] l IH]; [done| |]; rewrite filter_cons; case_decide; cbn; congruence. Qed.

Lemma deal_perm {A} (k : nat) (items : list A) : (1 ≤ k)%nat → concat (deal k items) ≡ₚ items.
Proof.
  intros Hk. unfold deal. rewrite concat_nonempty. destruct k as [|k]; [lia|]. clear Hk.
  induction items as [|a items IH].
  { generalize (seq 0 (S k)). intros l. by induction l. }
  assert ((λ s, stride (S k) s (a :: items)) <$> seq 0 (S k)
    = (a :: stride (S k) k items) :: ((λ s, stride (S k) s items) <$> seq 0 k)) as ->.
  { cbn [seq fmap list_fmap stride]. rewrite Nat.sub_succ, Nat.sub_0_r. f_equal.
    rewrite <-fmap_S_seq, <-list_fmap_compose. done. }
  rewrite <-IH at 2. rewrite seq_S, fmap_app, concat_app. cbn. rewrite app_nil_r. constructor. apply Permutation_app_comm.
Qed.

(** Every task with its position is in a shard of its image. *)
Lemma shard_groups_cover k tasks i t :
  (∃ image group, (image, group) ∈ shard_groups k tasks ∧ (i, t) ∈ group) ↔ tasks !! i = Some t.
Proof.
  unfold shard_groups. set (n := Z.to_nat (Z.max 1 k)).
  assert (∀ image, (∃ g, g ∈ (if (n <=? 1)%nat then [pairs_of tasks image] else deal n (pairs_of tasks image)) ∧ (i, t) ∈ g)
    ↔ (i, t) ∈ pairs_of tasks image) as Hd.
  { intros image. destruct (n <=? 1)%nat.
    - split; [intros (g & Hg & ?); apply list_elem_of_singleton in Hg; by subst|]. intros Hp. eexists. split; [by left|done].
    - assert (concat (deal n (pairs_of tasks image)) ≡ₚ pairs_of tasks image) as Hp by (apply deal_perm; lia).
      transitivity ((i, t) ∈ concat (deal n (pairs_of tasks image))); [|by rewrite Hp].
      rewrite list_elem_of_In, in_concat. setoid_rewrite list_elem_of_In. done. }
  split.
  - intros (image & g & Hin & Hi). apply list_elem_of_bind in Hin as (image' & Hin & _).
    apply list_elem_of_fmap in Hin as (g' & [= -> ->] & Hg). apply (pairs_of_elem tasks image'), Hd. eauto.
  - intros Ht. destruct (proj2 (Hd (t_image t))) as (g & Hg & Hi); [by apply pairs_of_elem|].
    exists (t_image t), g. split; [|done]. apply list_elem_of_bind. exists (t_image t).
    split; [apply list_elem_of_fmap; eauto|]. apply counts_cover. by eapply list_elem_of_lookup_2.
Qed.

(** ** Counting shards *)

Definition b2z (b : bool) : Z := if b then 1 else 0.
Definition count (f : shard → bool) (shs : list shard) : Z := foldr (λ sh n, b2z (f sh) + n) 0 shs.
Arguments count : simpl never.

Lemma count_insert f shs i sh sh' :
  shs !! i = Some sh → count f (<[i := sh']> shs) = count f shs - b2z (f sh) + b2z (f sh').
Proof.
  unfold count. revert i. induction shs as [|s shs IH]; intros [|i] Hi; [done|done| |]; cbn in *.
  - simplify_eq. lia.
  - specialize (IH i Hi). unfold insert in *. lia.
Qed.
Lemma count_nonneg f shs : 0 ≤ count f shs.
Proof. unfold count. induction shs as [|s shs IH]; cbn; [done|]. unfold b2z at 1. case_match; lia. Qed.
Lemma count_zero f shs : (∀ i sh, shs !! i = Some sh → f sh = false) → count f shs = 0.
Proof.
  unfold count. induction shs as [|s shs IH]; intros Hf; [done|]. cbn. rewrite IH; [|intros i; apply (Hf (S i))].
  by rewrite (Hf 0%nat s).
Qed.
Lemma count_replicate f n sh : count f (replicate n sh) = Z.of_nat n * b2z (f sh).
Proof. unfold count. induction n as [|n IH]; cbn [replicate foldr]; [lia|]. rewrite IH. lia. Qed.

(** ** The counters count *)

Section counting.
Context (scale_on_hold : bool).

Definition is_open (sh : shard) : bool := match sh_pc sh with Closed => false | _ => true end.
(** The shard is counted among those that hold a sandbox. *)
Definition counted (sh : shard) : bool :=
  scales scale_on_hold sh &&
  match sh_pc sh with Working | Rotating => true | Closing => sh_handle sh | _ => false end.
(** It is not done and holds nothing *)
Definition waiting (sh : shard) : bool := is_open sh && negb (counted sh).

Definition shard_ok (sh : shard) : Prop :=
  match sh_pc sh with Claiming => sh_handle sh = false | Claimed | Working | Rotating => sh_handle sh = true | _ => True end.

(** What one step does to the counters and to the counts is the same. *)
Lemma shard_step_counts c sh c' sh' :
  shard_step scale_on_hold (c, sh) false (c', sh') → shard_ok sh →
  shard_ok sh' ∧ active c' - active c = b2z (is_open sh') - b2z (is_open sh)
  ∧ holding c' - holding c = b2z (counted sh') - b2z (counted sh).
Proof.
  unfold counted. destruct scale_on_hold; intros Hs Hok; inversion Hs; subst; unfold counted, is_open, shard_ok, take_hold, drop_hold, leave, rescale, scales in *;
    cbn in *; try (destruct sh as [p h rec]; cbn in *; subst p); repeat case_match; subst; cbn in *; simplify_eq;
    repeat case_bool_decide; cbn in *; simplify_eq; (split; [done|lia]).
Qed.

(** The counters are the counts, and every shard is in order. *)
Definition balanced (s : counters * list shard) : Prop :=
  active s.1 = count is_open s.2 ∧ holding s.1 = count counted s.2 ∧ Forall shard_ok s.2.

Lemma step_balanced s s' : step scale_on_hold s false s' → balanced s → balanced s'.
Proof.
  intros Hs (Ha & Hh & Hok). inversion Hs as [c c' shs i sh sh' fault Hi Hstep]; subst. cbn in *.
  pose proof (Forall_lookup_1 _ _ _ _ Hok Hi) as Hsh.
  apply shard_step_counts in Hstep as (Hsh' & Ea & Eh); [|done].
  unfold balanced. cbn. rewrite !(count_insert _ _ _ _ _ Hi). split; [lia|]. split; [lia|]. by apply Forall_insert.
Qed.

Lemma reachable_balanced n warm s : reachable scale_on_hold n warm s → balanced s.
Proof.
  intros Hr. assert (balanced (start n warm)) as Hb.
  { split; [|split]; cbn; [by rewrite count_replicate; cbn; lia| |by apply Forall_replicate].
    rewrite count_replicate. unfold counted. by rewrite andb_false_r; cbn; lia. }
  unfold reachable in Hr. induction Hr as [s|s1 s2 s3 Hs _ IH]; [done|]. by apply IH, (step_balanced s1).
Qed.

Lemma waiting_count shs : count is_open shs - count counted shs = count waiting shs.
Proof.
  unfold count. induction shs as [|sh shs IH]; [done|]. cbn [foldr]. rewrite <-IH. unfold waiting, counted, is_open.
  destruct (scales _ _), (sh_pc sh), (sh_handle sh); cbn; lia.
Qed.

End counting.

(** ** What stays behind *)

Abbreviation unstarted := (Shard Claiming false None).
Abbreviation dead := (Shard Closed false None).
Abbreviation runs := (rtc (λ s s', step true s false s')).

Lemma one_step c c' pre post sh sh' :
  shard_step true (c, sh) false (c', sh') → runs (c, pre ++ sh :: post) (c', pre ++ sh' :: post).
Proof.
  intros Hs. apply rtc_once. pose proof (step_at true c c' (pre ++ sh :: post) (length pre) sh sh' false) as Ht.
  rewrite list_lookup_middle, insert_app_r_alt, Nat.sub_diag in Ht by done. by apply Ht.
Qed.

(** Shards whose claim fails leave without a rescale. *)
Lemma dead_shards_leave k pre d :
  runs (Counters (Z.of_nat k) 0 d, pre ++ replicate k unstarted) (Counters 0 0 d, pre ++ replicate k dead).
Proof.
  revert pre. induction k as [|k IH]; intros pre; [done|]. cbn [replicate].
  etrans; [eapply one_step, claim_failed|]. etrans; [by eapply one_step, (left true _ _ true)|].
  unfold leave. cbn [scales andb sh_recyclable]. rewrite bool_decide_eq_false_2 by done. cbn.
  replace (Z.of_nat (S k) - 1) with (Z.of_nat k) by lia.
  specialize (IH (pre ++ [dead])). by rewrite <-!app_assoc in IH.
Qed.

(** Shards that end without ever having claimed a sandbox do not rescale. When they
    end after the shards that did, the replicas that were kept warm for them stay: with
    [k] such shards and one that recycles and ends first, all shards are done, nothing
    is held, no call to rescale failed, and the pool still keeps [k] replicas. *)
Theorem dead_shards_leave_replicas k warm :
  ∃ c shs, reachable true (S k) warm (c, shs) ∧ Forall (λ sh, sh_pc sh = Closed) shs ∧
    active c = 0 ∧ holding c = 0 ∧ desired c = Z.of_nat k.
Proof.
  exists (Counters 0 0 (Z.of_nat k)), (Shard Closed true (Some true) :: replicate k dead).
  split; [|split; [constructor; [done|by apply Forall_replicate]|done]].
  unfold reachable, start. cbn [replicate].
  etrans; [eapply (one_step _ _ []), (claim_done true _ _ (Some true)); [done|by right]|].
  etrans; [by eapply (one_step _ _ []), (hold_done true _ _ true)|].
  etrans; [eapply (one_step _ _ []), work_ended|]. etrans; [by eapply (one_step _ _ []), (left true _ _ true)|].
  unfold leave, take_hold, rescale. cbn [scales sh_recyclable sh_handle andb bool_decide]. cbn.
  replace (Z.of_nat (S k) - 1) with (Z.of_nat k) by lia. rewrite Z.sub_0_r.
  apply (dead_shards_leave k [_]).
Qed.

(** When the fleet refuses to rescale after a sandbox was released, the shard still has
    the handle, and its [finally] block counts the sandbox as released a second time: from
    then on the pool is asked for one replica more than there are shards that wait. *)
Theorem failed_rescale_miscounts n warm c shs i :
  reachable true n warm (c, shs) → shs !! i = Some (Shard Rotating true (Some true)) →
  let c1 := drop_hold false c in
  let c2 := leave true true true c1 in
  let shs1 := <[i := Shard Closing true (Some true)]> shs in
  let shs2 := <[i := Shard Closed true (Some true)]> shs1 in
  step true (c, shs) true (c1, shs1) ∧ step true (c1, shs1) false (c2, shs2) ∧
  active c2 = count is_open shs2 ∧ holding c2 = count (counted true) shs2 - 1 ∧
  desired c2 = count (waiting true) shs2 + 1.
Proof.
  intros (Ha & Hh & _)%reachable_balanced Hi c1 c2 shs1 shs2. cbn in Ha, Hh.
  assert (shs1 !! i = Some (Shard Closing true (Some true))) as Hi1
    by (apply list_lookup_insert_eq; by eapply lookup_lt_Some).
  split; [by econstructor; [|apply drop_failed]|]. split; [exact (step_at true c1 c2 shs1 i _ _ false Hi1 (left true c1 (Shard Closing true (Some true)) true eq_refl))|].
  rewrite <-waiting_count. subst c2 shs2. rewrite !(count_insert _ _ _ _ _ Hi1). subst shs1 c1.
  rewrite !(count_insert _ _ _ _ _ Hi), <-Ha, <-Hh. unfold leave, drop_hold, rescale, counted, is_open. cbn.
  rewrite bool_decide_eq_true_2 by done. cbn. lia.
Qed.


Lemma failed_rescale_miscounts_witness :
  ∃ c shs, reachable true 1 1 (c, shs) ∧ shs = [Shard Rotating true (Some true)] ∧
    desired (leave true true true (drop_hold false c))
      = count (waiting true) [Shard Closed true (Some true)] + 1.
Proof.
  exists (Counters 1 1 0), [Shard Rotating true (Some true)].
  assert (reachable true 1 1 (Counters 1 1 0, [Shard Rotating true (Some true)])) as Hr.
  { unfold reachable, start. cbn [replicate].
    etrans; [eapply (one_step _ _ []), (claim_done true _ _ (Some true)); [done|by right]|].
    etrans; [by eapply (one_step _ _ []), (hold_done true _ _ true)|]. eapply (one_step _ _ []), released. }
  split; [done|]. split; [done|].
  exact (proj2 (proj2 (proj2 (proj2 (failed_rescale_miscounts 1 1 _ _ 0 Hr eq_refl))))).
Defined.
