(* ===== verification/RlFailFast.v ===== *)
(** The fail-fast watchdog of a claim: models [failfast.py] and [FailFastPolicy] of
    [config.py] in [src/examples/agent-sandbox-rl/agent_sandbox_rl].

    A pod is its API dict. Times are in nanoseconds. The watchdog's thread is a
    transition system next to the thread that waits for the claim; [_decide_lock] makes
    [stop] and [commit_verdict] atomic. Log lines are left out. *)

From Stdlib Require Import Ascii String ZArith Lia.
From stdpp Require Import base option list strings pretty relations.
From S2P Require Import Prelude Hoare Float Json PyList PyText Models Utils World K8sHelper Sandbox Snapshots RlResources RlConfig RlHandles.

#[local] Open Scope Z_scope.

Definition TERMINAL_WAITING_REASONS : list string := ["InvalidImageName"; "ErrImageNeverPull"].
Definition RETRYABLE_WAITING_REASONS : list string :=
  ["ErrImagePull"; "ImagePullBackOff"; "CreateContainerConfigError"; "CreateContainerError"; "RunContainerError";
   "CrashLoopBackOff"; "PostStartHookError"].

Record FailFastPolicy := FailFast {
  ff_grace : option Z;
  ff_unschedulable_grace : option Z;
}.

Record StartVerdict := Verdict {
  v_reason : string;
  v_message : json;
  v_pod_name : json;
}.

(** ** Classifying a pod *)

(** [_as_dict]: decoded JSON has no [to_dict] *)
Definition as_dict (v : json) : list (string * json) := match v with JObj kvs => kvs | _ => [] end.
(** [d.get(k)] *)
Definition item (d : list (string * json)) (k : string) : json := default JNull (dget k d).
(** [_get] *)
Definition item_of (d : list (string * json)) (snake camel : string) : json :=
  match dget snake d with Some v => v | None => item d camel end.

(** [v in frozenset(...)]: lists and dicts are not hashable *)
Definition in_set (v : json) (l : list string) : outcome bool :=
  match v with
  | JStr s => Ret (str_mem s l)
  | JList _ | JObj _ => Raise TypeError
  | _ => Ret false
  end.

(** [first_seen] and [last_seen], and the keys that the current poll saw *)
Record seen := Seen {
  first_seen : list (string * Z);
  last_seen : list (string * Z);
  present : list string;
}.

Definition modify_seen (f : seen → seen) : M seen () := λ s, (Ret (), f s).

Section classify.
Context (policy : FailFastPolicy) (now : Z).

(** [_held_for] *)
Definition held_for (key : string) (grace : option Z) : M seen (option Z) := λ s,
  match grace with
  | None => (Ret None, s)
  | Some g =>
      let first := default now (dget key (first_seen s)) in
      let s' := Seen (dset key first (first_seen s)) (dset key now (last_seen s)) (key :: present s) in
      (Ret (if g <=? now - first then Some (now - first) else None), s')
  end.

(** [int(held)] in seconds *)
Definition seconds (held : Z) : string := pretty (Z.quot held SECOND).

(** The phase *)
Definition phase_verdict (name : json) (status : list (string * json)) : option StartVerdict :=
  let verdict p :=
    Verdict ("Pod" +:+ p)
      (py_or (py_or (item status "message") (item status "reason"))
         (JStr ("pod phase is " +:+ p +:+ " before it became ready"))) name in
  match item status "phase" with
  | JStr p => if (p =? "Failed")%string || (p =? "Succeeded")%string then Some (verdict p) else None
  | _ => None
  end.

(** One container *)
Definition container_verdict (name : json) (cs : list (string * json)) : M seen (option StartVerdict) :=
  let cname := py_str (py_or (item cs "name") (JStr "?")) in
  let state := as_dict (item cs "state") in
  let term := as_dict (item state "terminated") in
  let last := as_dict (item (as_dict (item_of cs "last_state" "lastState")) "terminated") in
  if is_str (item term "reason") "OOMKilled"
     || is_str (item last "reason") "OOMKilled" && negb (truthy (item state "running")) then
    mret (Some (Verdict "OOMKilled"
      (JStr ("container '" +:+ cname +:+ "' was OOM-killed while starting; "
             +:+ "the template's memory limit is too small for this image")) name))
  else
    let waiting := as_dict (item state "waiting") in
    let reason := item waiting "reason" in
    if negb (truthy reason) then mret None
    else
      let msg := py_str (py_or (item waiting "message") reason) in
      terminal ← lift (in_set reason TERMINAL_WAITING_REASONS);
      if terminal : bool then
        mret (Some (Verdict (py_str reason) (JStr ("container '" +:+ cname +:+ "': " +:+ msg)) name))
      else
        retryable ← lift (in_set reason RETRYABLE_WAITING_REASONS);
        if retryable : bool then
          held ← held_for (cname +:+ ":retryable") (ff_grace policy);
          mret ((λ h, Verdict (py_str reason)
                   (JStr ("container '" +:+ cname +:+ "' has been in " +:+ py_str reason +:+ " for " +:+ seconds h
                          +:+ "s: " +:+ msg)) name) <$> held)
        else mret None.

(** The containers until one has a verdict *)
Fixpoint containers_verdict (name : json) (statuses : list json) : M seen (option StartVerdict) :=
  match statuses with
  | [] => mret None
  | cs :: rest =>
      v ← container_verdict name (as_dict cs);
      match v with Some _ => mret v | None => containers_verdict name rest end
  end.

(** The first condition that says unschedulable *)
Fixpoint conditions_verdict (name : json) (conditions : list json) : M seen (option StartVerdict) :=
  match conditions with
  | [] => mret None
  | c :: rest =>
      let cond := as_dict c in
      if is_str (item cond "type") "PodScheduled" && is_str (item cond "status") "False"
         && is_str (item cond "reason") "Unschedulable" then
        held ← held_for "Unschedulable" (ff_unschedulable_grace policy);
        mret ((λ h, Verdict "Unschedulable"
                 (JStr (implode (rstrip_chars (λ c, bool_decide (c ∈ [":"; " "]%char))
                    (explode ("pod unschedulable for " +:+ seconds h +:+ "s: "
                              +:+ py_str (py_or (item cond "message") (JStr EmptyString))))))) name) <$> held)
      else conditions_verdict name rest
  end.

Definition grace_of (key : string) : option Z :=
  if (key =? "Unschedulable")%string then ff_unschedulable_grace policy else ff_grace policy.

(** Whether a key is dropped at the end of a poll *)
Definition stale (s : seen) (key : string) : bool :=
  negb (str_mem key (present s)) &&
  match grace_of key, dget key (last_seen s) with
  | Some g, Some l => g <=? now - l
  | _, _ => true
  end.

Definition drop_key (s : seen) (key : string) : seen :=
  if stale s key then Seen (dpop key (first_seen s)) (dpop key (last_seen s)) (present s) else s.
Definition drop_stale (s : seen) : seen := foldl drop_key s (first_seen s).*1.

Definition classify_pod (pod : json) : M seen (option StartVerdict) :=
  let d := as_dict pod in
  let status := as_dict (item d "status") in
  let name := item (as_dict (item d "metadata")) "name" in
  let verdict := phase_verdict name status in
  _ ← modify_seen (λ s, Seen (first_seen s) (last_seen s) []);
  init ← lift (py_iter (py_or (item_of status "init_container_statuses" "initContainerStatuses") (JList [])));
  main ← lift (py_iter (py_or (item_of status "container_statuses" "containerStatuses") (JList [])));
  v ← match verdict with Some _ => mret verdict | None => containers_verdict name (init ++ main) end;
  v ← match v with
      | Some _ => mret v
      | None => conditions ← lift (py_iter (py_or (item status "conditions") (JList []))); conditions_verdict name conditions
      end;
  _ ← modify_seen drop_stale;
  mret v.
End classify.

(** ** The watchdog *)

Record watchdog := Watchdog {
  wd_cluster : cluster;
  wd_claim : string;
  wd_policy : FailFastPolicy;
  wd_verdict : option StartVerdict;
  wd_pod_name : option json;
  (** [_stop_evt] is set *)
  wd_stopped : bool;
  wd_deleted : bool;
  wd_seen : seen;
}.

Definition new_watchdog (c : cluster) (claim : string) (policy : FailFastPolicy) : watchdog :=
  Watchdog c claim policy None None false false (Seen [] [] []).

Definition with_pod (n : option json) (d : watchdog) : watchdog :=
  Watchdog (wd_cluster d) (wd_claim d) (wd_policy d) (wd_verdict d) n (wd_stopped d) (wd_deleted d) (wd_seen d).
Definition with_seen (s : seen) (d : watchdog) : watchdog :=
  Watchdog (wd_cluster d) (wd_claim d) (wd_policy d) (wd_verdict d) (wd_pod_name d) (wd_stopped d) (wd_deleted d) s.
Definition stop_event (d : watchdog) : watchdog :=
  Watchdog (wd_cluster d) (wd_claim d) (wd_policy d) (wd_verdict d) (wd_pod_name d) true (wd_deleted d) (wd_seen d).
Definition with_verdict (v : StartVerdict) (d : watchdog) : watchdog :=
  Watchdog (wd_cluster d) (wd_claim d) (wd_policy d) (Some v) (wd_pod_name d) (wd_stopped d) (wd_deleted d) (wd_seen d).
Definition with_deleted (d : watchdog) : watchdog :=
  Watchdog (wd_cluster d) (wd_claim d) (wd_policy d) (wd_verdict d) (wd_pod_name d) (wd_stopped d) true (wd_seen d).

(** [stop] *)
Definition stop (d : watchdog) : option StartVerdict * watchdog := (wd_verdict d, stop_event d).

Section watchdog.
Context {W : Type} `{Clock W} `{K8sApi W} `{PodExec W}.
Abbreviation WM := (M (watchdog * W)).

(** [_resolve_pod_name] *)
Definition resolve_pod_name : WM (option json) :=
  d ← self;
  let ns := cl_namespace (wd_cluster d) in
  claim ← world (none_if_missing (get_object CLAIM ns (wd_claim d)));
  match claim with
  | None => mret None
  | Some claim =>
      status ← lift (v ← py_get claim "status"; Ret (py_or v (JObj [])));
      sb ← lift (v ← py_get status "sandbox"; Ret (py_or v (JObj [])));
      n1 ← lift (py_get sb "name");
      name ← (if truthy n1 then mret n1 else lift (py_get sb "Name"));
      if negb (truthy name) then mret None
      else
        sandbox ← world (none_if_missing (get_object SANDBOX ns (py_str name)));
        match sandbox with
        | None => mret (Some name)
        | Some sandbox =>
            annotations ← lift (m ← metadata_of sandbox; v ← py_get m "annotations"; Ret (py_or v (JObj [])));
            pod ← lift (py_get annotations POD_NAME_ANNOTATION);
            mret (Some (py_or pod name))
        end
  end.

(** [_read_pod] *)
Definition read_pod (name : json) : WM (option json) :=
  d ← self; world (none_if_missing (pod_status (cl_name (wd_cluster d)) (cl_namespace (wd_cluster d)) (py_str name))).

Definition classify_now (pod : json) : WM (option StartVerdict) := λ s,
  let '(now, w) := monotonic s.2 in
  let '(r, seen') := classify_pod (wd_policy s.1) now pod (wd_seen s.1) in
  (r, (with_seen seen' s.1, w)).

(** [_check]: one poll *)
Definition check : WM (option StartVerdict) :=
  d ← self;
  _ ← match wd_pod_name d with
      | Some _ => mret ()
      | None => n ← resolve_pod_name; set_self (with_pod n)
      end;
  d ← self;
  match wd_pod_name d with
  | None => mret None
  | Some name =>
      pod ← read_pod name;
      match pod with None => mret None | Some pod => classify_now pod end
  end.

(** A verdict is committed and the claim deleted, unless [stop] came first *)
Definition commit_verdict (v : StartVerdict) : WM () :=
  d ← self;
  if wd_stopped d then mret ()
  else
    _ ← set_self (with_verdict v);
    except (λ _, Some (mret ()))
      (_ ← world (delete_claim (cl_resources (wd_cluster d)) (wd_claim d)); set_self with_deleted).

(** ** The thread *)

Inductive wpc :=
  (** in [_stop_evt.wait] *)
  | Waiting
  | Polling
  | Deciding (v : StartVerdict)
  | Returned.

(** What everybody else does to the world *)
Context (other : relation W).

(** Steps of the thread, of the callers of [stop], and of everybody else *)
Inductive wstep : wpc * (watchdog * W) → wpc * (watchdog * W) → Prop :=
  | w_woken d w : wd_stopped d = true → wstep (Waiting, (d, w)) (Returned, (d, w))
  | w_timeout d w : wd_stopped d = false → wstep (Waiting, (d, w)) (Polling, (d, w))
  | w_checked s r s' : check s = (r, s') → (∀ v, r ≠ Ret (Some v)) → wstep (Polling, s) (Waiting, s')
  | w_verdict s v s' : check s = (Ret (Some v), s') → wstep (Polling, s) (Deciding v, s')
  | w_commit s v r s' : commit_verdict v s = (r, s') → wstep (Deciding v, s) (Returned, s')
  | w_stop p d w : wstep (p, (d, w)) (p, ((stop d).2, w))
  | w_other p d w w' : other w w' → wstep (p, (d, w)) (p, (d, w')).

Definition watching (c : cluster) (claim : string) (policy : FailFastPolicy) (w : W) : wpc * (watchdog * W) :=
  (Waiting, (new_watchdog c claim policy, w)).
End watchdog.

(** ** A verdict and a stop exclude each other *)

#[local] Existing Instance logged_clock.
#[local] Existing Instance logged_k8s.
(** Nothing that is done in pods is logged. *)
Definition unlogged_exec {W E} `{PodExec W} : PodExec (W * list E) := {|
  open_stream c ns p k := unlogged (open_stream c ns p k);
  stream_is_open i := unlogged (stream_is_open i);
  stream_update i t := unlogged (stream_update i t);
  write_stdin i t := unlogged (write_stdin i t);
  peek_stdout i := unlogged (peek_stdout i);
  read_stdout i := unlogged (read_stdout i);
  peek_stderr i := unlogged (peek_stderr i);
  read_stderr i := unlogged (read_stderr i);
  close_stream i := unlogged (close_stream i);
  exec_once c ns p cmd k := unlogged (exec_once c ns p cmd k);
  pod_status c ns p := unlogged (pod_status c ns p);
  pod_conditions c ns p := unlogged (pod_conditions c ns p);
|}.
#[local] Existing Instance unlogged_exec.

Section settling.
Context {W : Type} `{Clock W} `{K8sApi W} `{PodExec W}.
(** The world, and what this watchdog asked the API server to change in it *)
Abbreviation LW := (W * list api_write)%type.
Abbreviation state := (wpc * (watchdog * LW))%type.

(** Others do as they like; the log is of this watchdog. *)
Definition others (w w' : LW) : Prop := w'.2 = w.2.

Definition core (s : watchdog * LW) := (wd_verdict s.1, wd_stopped s.1, wd_deleted s.1, wd_cluster s.1, wd_claim s.1, s.2.2).
Definition same_core (s s' : watchdog * LW) : Prop := core s' = core s.
#[local] Instance same_core_preorder : PreOrder same_core.
Proof. split; [done|]. intros ??? E1 E2. unfold same_core in *. congruence. Qed.
Lemma core_unlogged {A} (m : M W A) s : moves same_core (world (unlogged m)) s.
Proof. destruct s as [d [w l]]. unfold moves, world, unlogged. cbn. by destruct (m w). Qed.
Lemma core_missing {A} (m : M W A) s : moves same_core (world (none_if_missing (unlogged m))) s.
Proof.
  destruct s as [d [w l]]. unfold moves, world, none_if_missing, except, mbind, M_bind, unlogged. cbn.
  destruct (m w) as [[a|e|] w']; [done| |done]. by case_decide.
Qed.
Lemma core_set_self f s : (∀ d w, core (f d, w) = core (d, w)) → moves same_core (set_self f) s.
Proof. destruct s as [d w]. intros Hf. apply Hf. Qed.
Lemma core_classify pod s : moves same_core (classify_now pod) s.
Proof.
  destruct s as [d [w l]]. unfold moves, classify_now. cbn. destruct (monotonic w) as [now w'].
  by destruct (classify_pod _ _ _ _) as [r seen'].
Qed.
#[local] Hint Resolve core_unlogged core_missing core_set_self core_classify : moves.
Lemma core_get r ns n s : moves same_core (world (none_if_missing (get_object r ns n))) s.
Proof. apply core_missing. Qed.
Lemma core_status c ns n s : moves same_core (world (none_if_missing (pod_status c ns n))) s.
Proof. apply core_missing. Qed.
#[local] Hint Resolve core_get core_status : moves.
Lemma core_check s : moves same_core check s.
Proof. unfold check, resolve_pod_name, read_pod. moves. Qed.

(** The deletion of the claim, and nothing else *)
Definition deletion (c : cluster) (claim : string) : api_write := ADelete CLAIM (rs_namespace (cl_resources c)) claim None.

(** With a verdict the deletion was asked for, once, and the thread is done; without
    one nothing was. *)
Definition settled (c : cluster) (claim : string) (s : state) : Prop :=
  let d := s.2.1 in
  wd_cluster d = c ∧ wd_claim d = claim ∧
  s.2.2.2 = (if wd_verdict d is Some _ then [deletion c claim] else []) ∧
  (wd_deleted d = true → is_Some (wd_verdict d)) ∧ (is_Some (wd_verdict d) → s.1 = Returned).

Lemma delete_claim_logs rs claim (s : LW) : (delete_claim rs claim s).2.2 = s.2 ++ [ADelete CLAIM (rs_namespace rs) claim None].
Proof.
  unfold delete_claim, delete_named, except, mbind, M_bind. cbn. unfold logging.
  destruct (@delete_object W _ _ _ _ _ s.1) as [[x|e|] w]; cbn; [done| |done]. by repeat case_match; simplify_eq/=.
Qed.

Lemma commit_cases v d w l r d' w' l' :
  commit_verdict v (d, (w, l)) = (r, (d', (w', l'))) →
  if wd_stopped d then d' = d ∧ l' = l
  else wd_verdict d' = Some v ∧ wd_stopped d' = false ∧ wd_cluster d' = wd_cluster d ∧ wd_claim d' = wd_claim d
    ∧ l' = l ++ [deletion (wd_cluster d) (wd_claim d)].
Proof.
  unfold commit_verdict. unfold mbind at 1, M_bind at 1, self. cbn. destruct (wd_stopped d) eqn:Es; [by intros [= _ <- _ <-]|].
  pose proof (delete_claim_logs (cl_resources (wd_cluster d)) (wd_claim d) (w, l)) as Hl.
  unfold mbind, M_bind, except, world. cbn.
  destruct (delete_claim _ _ (w, l)) as [[[]|e|] [w1 l1]]; cbn in *; intros [= _ <- _ <-]; by rewrite Hl.
Qed.

Lemma checked_settled c claim s0 s1 p p' r :
  check s0 = (r, s1) → settled c claim (p, s0) → p ≠ Returned → settled c claim (p', s1).
Proof.
  intros E (H1' & H2' & Hl & Hd & Hp) Hne. pose proof (core_check s0) as Hc. unfold moves, same_core, core in Hc.
  rewrite E in Hc. cbn in Hc. injection Hc as Ev _ Ed Ec Ecl El. unfold settled in *. cbn in *. rewrite Ev, Ed, Ec, Ecl, El.
  split_and!; [done..|]. intros Hv. by apply Hp in Hv.
Qed.

Lemma wstep_settled c claim s s' : wstep others s s' → settled c claim s → settled c claim s'.
Proof.
  intros Hs Hset. inversion Hs as [| |s0 r s1 E Hr|s0 v s1 E|s0 v r s1 E|p d w|p d w w' Ho]; subst; cbn in *.
  - destruct Hset as (? & ? & ? & ? & ?). by split_and!.
  - destruct Hset as (? & ? & ? & ? & Hp). split_and!; [done..|]. intros Hv. by apply Hp in Hv.
  - by eapply checked_settled.
  - by eapply checked_settled.
  - destruct s0 as [d [w l]], s1 as [d' [w' l']]. apply commit_cases in E. destruct Hset as (H1' & H2' & Hl & Hd & Hp).
    cbn in *. destruct (wd_stopped d).
    + destruct E as [-> ->]. by split_and!.
    + destruct E as (Ev & _ & Ec & Ecl & ->). unfold settled. cbn. rewrite Ev, Ec, Ecl.
      destruct (wd_verdict d); [by specialize (Hp (mk_is_Some _ _ eq_refl))|]. subst. split_and!; auto.
  - exact Hset.
  - unfold others in Ho. unfold settled in *. cbn in *. by rewrite Ho.
Qed.

Lemma stopped_core s s' : wstep others s s' → wd_stopped s.2.1 = true → core s'.2 = core s.2.
Proof.
  intros Hs Hst. inversion Hs as [| |s0 r s1 E Hr|s0 v s1 E|s0 v r s1 E|p d w|p d w w' Ho]; subst; cbn in *; try done.
  - pose proof (core_check s0) as Hc. unfold moves, same_core in Hc. by rewrite E in Hc.
  - pose proof (core_check s0) as Hc. unfold moves, same_core in Hc. by rewrite E in Hc.
  - destruct s0 as [d [w l]], s1 as [d' [w' l']]. apply commit_cases in E. cbn in *. rewrite Hst in E. by destruct E as [-> ->].
  - unfold core. cbn. by rewrite Hst.
  - unfold core. cbn. by rewrite Ho.
Qed.

(** C24. What the watchdog asks the API server to change is settled when [stop]
    returns, however the thread, the callers of [stop] and the rest of the world
    interleave. If [stop] returned no verdict, the watchdog has asked for nothing and
    never will. If it returned one, it has asked for the deletion of its claim, once,
    and for nothing else ever; the verdict stands, and so does [deleted_claim]. *)
Theorem stop_settles_the_claim c claim policy (w : W) p d w1 s2 :
  rtc (wstep others) (watching c claim policy (w, [])) (p, (d, w1)) →
  rtc (wstep others) (p, ((stop d).2, w1)) s2 →
  w1.2 = (if (stop d).1 is Some _ then [ADelete CLAIM (rs_namespace (cl_resources c)) claim None] else []) ∧
  s2.2.2.2 = w1.2 ∧ wd_verdict s2.2.1 = (stop d).1 ∧ wd_deleted s2.2.1 = wd_deleted d ∧
  ((stop d).1 = None → wd_deleted d = false).
Proof.
  intros H1s H2s.
  assert (settled c claim (p, (d, w1))) as (_ & _ & Hl & Hd & _).
  { assert (settled c claim (watching c claim policy ((w, []) : LW))) as Hi by by split_and!; [..|intros []].
    revert Hi. generalize (watching c claim policy ((w, []) : LW)) H1s. clear. intros s Hs.
    remember (p, (d, w1)) as s' eqn:E. induction Hs as [|s1 s2 s3 Hs _ IH]; [done|]. intros Hi. by apply IH, (wstep_settled _ _ s1). }
  assert (core s2.2 = core (stop_event d, w1)) as Hc.
  { change (core (stop_event d, w1)) with (core (p, ((stop d).2, w1)).2).
    assert (wd_stopped (p, ((stop d).2, w1)).2.1 = true) as Hst by done. clear -H2s Hst.
    induction H2s as [|s1 s2 s3 Hs _ IH]; [done|]. apply stopped_core in Hs as E; [|done]. rewrite IH; [done|].
    unfold core in E. by injection E as _ -> _ _ _ _. }
  unfold core in Hc. injection Hc as -> _ -> _ _ ->. cbn in *. split; [done|]. split; [done|]. split; [done|]. split; [done|].
  intros Hn. destruct (wd_deleted d); [|done]. rewrite Hn in Hd. by destruct (Hd eq_refl).
Qed.
End settling.

(** ** What a pod shows

    Stated on the pod alone, without the keys and lists of the code. *)

(** A condition that may go away: a container that cannot start for now, or a pod that
    cannot be scheduled *)
Inductive condition :=
  | Retryable (cname : string)
  | Unschedulable.

Definition entries (v : json) : list json := match v with JList l => l | _ => [] end.
Definition pod_state (pod : json) : list (string * json) := as_dict (item (as_dict pod) "status").
Definition container_statuses (pod : json) : list json :=
  entries (item_of (pod_state pod) "init_container_statuses" "initContainerStatuses")
  ++ entries (item_of (pod_state pod) "container_statuses" "containerStatuses").
Definition container_name (cs : json) : string := py_str (py_or (item (as_dict cs) "name") (JStr "?")).
Definition container_state (cs : json) (k : string) : list (string * json) :=
  as_dict (item (as_dict (item (as_dict cs) "state")) k).
(** The container waits for one of the reasons *)
Definition waits_for (reasons : list string) (cs : json) : bool :=
  match item (container_state cs "waiting") "reason" with JStr r => bool_decide (r ∈ reasons) | _ => false end.
Definition may_recover : json → bool :=
  waits_for ["CrashLoopBackOff"; "ImagePullBackOff"; "ErrImagePull"; "CreateContainerConfigError"; "CreateContainerError";
             "RunContainerError"; "PostStartHookError"].

Definition unschedulable (c : json) : bool :=
  is_str (item (as_dict c) "type") "PodScheduled" && is_str (item (as_dict c) "status") "False"
  && is_str (item (as_dict c) "reason") "Unschedulable".

Definition shows (c : condition) (pod : json) : bool :=
  match c with
  | Retryable cname => existsb (λ cs, bool_decide (container_name cs = cname) && may_recover cs) (container_statuses pod)
  | Unschedulable => existsb unschedulable (entries (item (pod_state pod) "conditions"))
  end.

(** What cannot get better: the pod has ended, a container was killed for its memory,
    or it has an image that can never be pulled *)
Definition out_of_memory (cs : json) : bool :=
  is_str (item (container_state cs "terminated") "reason") "OOMKilled"
  || is_str (item (as_dict (item (as_dict (item_of (as_dict cs) "last_state" "lastState")) "terminated")) "reason") "OOMKilled"
     && negb (truthy (item (as_dict (item (as_dict cs) "state")) "running")).
Definition doomed_container (cs : json) : bool :=
  out_of_memory cs || waits_for ["InvalidImageName"; "ErrImageNeverPull"] cs.
Definition has_ended (pod : json) : bool :=
  is_str (item (pod_state pod) "phase") "Failed" || is_str (item (pod_state pod) "phase") "Succeeded".
Definition doomed (pod : json) : bool := has_ended pod || existsb doomed_container (container_statuses pod).

Definition grace_for (policy : FailFastPolicy) (c : condition) : option Z :=
  match c with Retryable _ => ff_grace policy | Unschedulable => ff_unschedulable_grace policy end.

(** The spell of a condition at the last poll: when it began, and when it was last
    seen. It ends when a poll finds the condition absent for a full grace period. Polls
    are given latest first, with the pod each one read. *)
Fixpoint spell (g : Z) (c : condition) (hist : list (Z * json)) : option (Z * Z) :=
  match hist with
  | [] => None
  | (t, pod) :: hist' =>
      if shows c pod then Some (default t (fst <$> spell g c hist'), t)
      else match spell g c hist' with
           | Some (f, l) => if g <=? t - l then None else Some (f, l)
           | None => None
           end
  end.

(** ** The keys of the code *)

(** The spell of a key at the last poll: when it began and when the key was last
    seen. It ends when a poll finds the key absent for a full grace period. Polls are
    given latest first, with the keys each saw. *)
Fixpoint since (g : Z) (k : string) (hist : list (Z * list string)) : option (Z * Z) :=
  match hist with
  | [] => None
  | (t, ks) :: hist' =>
      if bool_decide (k ∈ ks) then Some (default t (fst <$> since g k hist'), t)
      else match since g k hist' with
           | Some (f, l) => if g <=? t - l then None else Some (f, l)
           | None => None
           end
  end.

Section spells.
Context (policy : FailFastPolicy).

(** Polls of a new watchdog that found nothing, as all do before the last one *)
Inductive polled : list (Z * json) → seen → Prop :=
  | polled_new : polled [] (Seen [] [] [])
  | polled_more hist s now pod s' :
      polled hist s → classify_pod policy now pod s = (Ret None, s') → polled ((now, pod) :: hist) s'.

Definition key_of (c : condition) : string :=
  match c with Retryable cname => cname +:+ ":retryable" | Unschedulable => "Unschedulable" end.

(** The two dicts hold the spells. *)
Record tracks (s : seen) (hist : list (Z * list string)) : Prop := {
  tr_first_keys : NoDup (first_seen s).*1;
  tr_last_keys : NoDup (last_seen s).*1;
  tr_graced k g : grace_of policy k = Some g →
    dget k (first_seen s) = fst <$> since g k hist ∧ dget k (last_seen s) = snd <$> since g k hist;
  tr_ungraced k : grace_of policy k = None → dget k (first_seen s) = None ∧ dget k (last_seen s) = None;
}.

Section poll.
Context (now : Z).

(** What the checks of a poll do to the dicts they began with *)
Record observed (s0 s : seen) : Prop := {
  ob_first_keys : NoDup (first_seen s).*1;
  ob_last_keys : NoDup (last_seen s).*1;
  ob_present k : k ∈ present s →
    is_Some (grace_of policy k) ∧ dget k (first_seen s) = Some (default now (dget k (first_seen s0)))
    ∧ dget k (last_seen s) = Some now;
  ob_absent k : k ∉ present s →
    dget k (first_seen s) = dget k (first_seen s0) ∧ dget k (last_seen s) = dget k (last_seen s0);
}.

(** Whether a key was first seen a grace period ago *)
Definition old (s : seen) (k : string) : bool :=
  match grace_of policy k, dget k (first_seen s) with
  | Some g, Some f => g <=? now - f
  | _, _ => false
  end.
Definition young (s : seen) : Prop := ∀ k, k ∈ present s → old s k = false.
Definition has_old (s : seen) : Prop := ∃ k, k ∈ present s ∧ old s k = true.

Lemma held_for_observed s0 s k r s' :
  observed s0 s → young s → held_for now k (grace_of policy k) s = (Ret r, s') →
  observed s0 s' ∧ match r with None => young s' | Some _ => has_old s' end
  ∧ ∀ k', k' ∈ present s' ↔ k' ∈ present s ∨ (k' = k ∧ is_Some (grace_of policy k)).
Proof.
  intros [Hf Hl Hp Ha] Hy. unfold held_for. destruct (grace_of policy k) as [g|] eqn:Eg; intros [= <- <-].
  2: { split; [done|]. split; [done|]. intros k'. split; [by left|]. by intros [?|[_ [? ?]]]. }
  set (first := default now (dget k (first_seen s))).
  assert (first = default now (dget k (first_seen s0))) as Efirst.
  { subst first. destruct (decide (k ∈ present s)) as [Hk|Hk]; [destruct (Hp k Hk) as (_ & -> & _)|destruct (Ha k Hk) as [-> _]]; done. }
  set (s' := Seen _ _ _).
  assert (∀ k', k' ≠ k → old s' k' = old s k') as Hold by (intros k' Hn; unfold old; cbn; by rewrite dget_dset_ne).
  assert (old s' k = (g <=? now - first)) as Hk by (unfold old; cbn; by rewrite Eg, dget_dset_eq).
  split_and!.
  - split; cbn; [by apply dset_NoDup|by apply dset_NoDup| |].
    + intros k' Hk'. destruct (decide (k' = k)) as [->|Hn]; [by rewrite Eg, !dget_dset_eq, Efirst|].
      rewrite !dget_dset_ne by done. apply Hp. by apply elem_of_cons in Hk' as [|].
    + intros k' [Hn Hk']%not_elem_of_cons. rewrite !dget_dset_ne by done. by apply Ha.
  - destruct (g <=? now - first); [exists k; by split; [left|]|]. intros k' Hk'.
    destruct (decide (k' = k)) as [->|Hn]; [done|]. rewrite Hold by done. apply Hy. by apply elem_of_cons in Hk' as [|].
  - intros k'. cbn. rewrite elem_of_cons. split; [intros [->|?]; [right; by split|by left]|intros [?|[-> _]]; [by right|by left]].
Qed.

(** Keys of containers are not the one of the pod. *)
Lemma key_grace c : grace_of policy (key_of c) = grace_for policy c.
Proof.
  destruct c as [cname|]; [|done]. unfold grace_of, key_of.
  destruct (String.eqb_spec (cname +:+ ":retryable") "Unschedulable") as [E|]; [|done].
  exfalso. apply (f_equal (λ s, bool_decide (":"%char ∈ explode s))) in E.
  rewrite bool_decide_eq_true_2 in E; [vm_compute in E; done|]. rewrite explode_app. apply elem_of_app. right. cbn. left.
Qed.

(** What the checks saw, when they found nothing and when they found something *)
Definition checked (doom : bool) (sees : string → Prop) (s s' : seen) (v : option StartVerdict) : Prop :=
  match v with
  | None => young s' ∧ doom = false ∧ ∀ k, k ∈ present s' ↔ k ∈ present s ∨ sees k
  | Some _ => (doom = true ∨ has_old s') ∧ ∀ k, k ∈ present s' → k ∈ present s ∨ sees k
  end.

(** The container is recorded *)
Definition noted (cs : json) (k : string) : Prop :=
  may_recover cs = true ∧ is_Some (ff_grace policy) ∧ k = key_of (Retryable (container_name cs)).

Lemma in_set_waits reason l l' b cs :
  item (container_state cs "waiting") "reason" = reason → in_set reason l = Ret b → (∀ r, r ∈ l ↔ r ∈ l') → waits_for l' cs = b.
Proof.
  unfold waits_for. intros -> Hin Hl. destruct reason; cbn in Hin; simplify_eq; try done. unfold str_mem.
  by apply bool_decide_ext.
Qed.

Lemma container_checked s0 s name cs v s' :
  observed s0 s → young s → container_verdict policy now name (as_dict cs) s = (Ret v, s') →
  observed s0 s' ∧ checked (doomed_container cs) (noted cs) s s' v.
Proof.
  intros Ho Hy. unfold container_verdict. fold (container_state cs "terminated"). fold (container_state cs "waiting").
  fold (container_name cs). unfold doomed_container. fold (out_of_memory cs).
  destruct (out_of_memory cs) eqn:Eo; [intros [= <- <-]; split; [done|split; [by left|by left]]|]. cbn [orb].
  set (reason := item (container_state cs "waiting") "reason").
  destruct (truthy reason) eqn:Et; cbn [negb].
  2: { assert (∀ l, EmptyString ∉ l → waits_for l cs = false) as Hw.
    { intros l Hl. unfold waits_for. fold reason. destruct reason as [| | | |r| |]; try done. cbn in Et.
      destruct r; [|done]. by apply bool_decide_eq_false_2. }
    intros [= <- <-]. split; [done|]. split_and!; [done|apply Hw; set_solver|]. intros k. split; [by left|].
    intros [?|(Hm & _)]; [done|]. unfold may_recover in Hm. rewrite Hw in Hm; [done|set_solver]. }
  intros E. apply bind_ret_inv in E as (b & s1 & E1 & E). apply lift_ret_inv in E1 as [E1 ->].
  rewrite (in_set_waits reason _ ["InvalidImageName"; "ErrImageNeverPull"] b cs eq_refl E1) by done. destruct b.
  { injection E as <- <-. split; [done|]. split; [by left|by left]. }
  apply bind_ret_inv in E as (b & s2 & E2 & E). apply lift_ret_inv in E2 as [E2 ->].
  assert (may_recover cs = b) as Hm.
  { apply (in_set_waits reason RETRYABLE_WAITING_REASONS); [done|done|]. intros r. unfold RETRYABLE_WAITING_REASONS. set_solver. }
  destruct b.
  - apply bind_ret_inv in E as (h & s3 & E3 & E). injection E as <- <-.
    change (ff_grace policy) with (grace_for policy (Retryable (container_name cs))) in E3. rewrite <-key_grace in E3.
    apply (held_for_observed s0) in E3 as (Ho' & Hj & Hp); [|done|done]. split; [done|].
    assert (∀ k, k ∈ present s3 ↔ k ∈ present s ∨ noted cs k) as Hp'.
    { intros k. rewrite Hp. unfold noted. rewrite Hm, key_grace. cbn. naive_solver. }
    destruct h; cbn; [split; [by right|]; intros k Hk; by apply Hp'|by split_and!].
  - injection E as <- <-. split; [done|]. split_and!; [done|done|]. intros k. unfold noted. rewrite Hm. naive_solver.
Qed.

Lemma containers_checked s0 s name l v s' :
  observed s0 s → young s → containers_verdict policy now name l s = (Ret v, s') →
  observed s0 s' ∧ checked (existsb doomed_container l) (λ k, ∃ cs, cs ∈ l ∧ noted cs k) s s' v.
Proof.
  revert s. induction l as [|cs l IH]; intros s Ho Hy E; cbn in E.
  { injection E as <- <-. split; [done|]. split_and!; [done|done|]. intros k. split; [by left|].
    intros [?|(cs & Hcs & _)]; [done|by apply not_elem_of_nil in Hcs]. }
  apply bind_ret_inv in E as (v1 & s1 & E1 & E). apply (container_checked s0) in E1 as [Ho1 Hj1]; [|done|done].
  destruct v1 as [v1|].
  { injection E as <- <-. split; [done|]. destruct Hj1 as [Hd Hp]. cbn. split.
    - destruct Hd as [->|]; [by left|by right].
    - intros k Hk. destruct (Hp k Hk); [by left|right]. exists cs. by split; [left|]. }
  destruct Hj1 as (Hy1 & Hd1 & Hp1). destruct (IH s1 Ho1 Hy1 E) as [Ho2 Hj2]. split; [done|]. cbn [existsb]. rewrite Hd1. cbn [orb].
  destruct v as [v|]; cbn in Hj2 |- *.
  - destruct Hj2 as [Hd Hp]. split; [done|]. intros k Hk. destruct (Hp k Hk) as [[?|?]%Hp1|(c & Hc & ?)]; [by left| |];
      right; [exists cs|exists c]; (split; [|done]); [by left|by right].
  - destruct Hj2 as (Hy2 & Hd2 & Hp2). split_and!; [done|done|]. intros k. rewrite Hp2, Hp1. setoid_rewrite elem_of_cons. naive_solver.
Qed.

Lemma conditions_checked s0 s name l v s' :
  observed s0 s → young s → conditions_verdict policy now name l s = (Ret v, s') →
  observed s0 s' ∧ checked false (λ k, existsb unschedulable l = true ∧ is_Some (ff_unschedulable_grace policy)
                                       ∧ k = key_of Unschedulable) s s' v.
Proof.
  revert s. induction l as [|c l IH]; intros s Ho Hy E; cbn in E.
  { injection E as <- <-. split; [done|]. split_and!; [done|done|]. naive_solver. }
  fold (unschedulable c) in E. cbn [existsb]. destruct (unschedulable c); cbn [orb]; [|by apply IH].
  apply bind_ret_inv in E as (h & s1 & E1 & E). injection E as <- <-.
  change (held_for now "Unschedulable" (ff_unschedulable_grace policy)) with
    (held_for now (key_of Unschedulable) (grace_of policy (key_of Unschedulable))) in E1.
  apply (held_for_observed s0) in E1 as (Ho' & Hj & Hp); [|done|done]. split; [done|]. rewrite key_grace in Hp.
  destruct h; cbn; [split; [by right|]; intros k Hk%Hp|split_and!; [done|done|]; intros k; rewrite Hp; cbn]; cbn in *; naive_solver.
Qed.
(** *** The end of a poll *)

Lemma drop_key_ne s k k' : NoDup (first_seen s).*1 → NoDup (last_seen s).*1 → k ≠ k' →
  dget k (first_seen (drop_key policy now s k')) = dget k (first_seen s) ∧
  dget k (last_seen (drop_key policy now s k')) = dget k (last_seen s).
Proof. intros Hf Hl Hn. unfold drop_key. case_match; [|done]. cbn. by rewrite !dget_dpop, !decide_False. Qed.
Lemma drop_key_eq s k : NoDup (first_seen s).*1 → NoDup (last_seen s).*1 →
  let s' := drop_key policy now s k in
  if stale policy now s k then dget k (first_seen s') = None ∧ dget k (last_seen s') = None else s' = s.
Proof. intros Hf Hl. unfold drop_key. case_match; [|done]. cbn. by rewrite !dget_dpop, !decide_True. Qed.
Lemma drop_key_keys s k : NoDup (first_seen s).*1 → NoDup (last_seen s).*1 →
  NoDup (first_seen (drop_key policy now s k)).*1 ∧ NoDup (last_seen (drop_key policy now s k)).*1
  ∧ present (drop_key policy now s k) = present s.
Proof. intros Hf Hl. unfold drop_key. case_match; [|done]. cbn. split; [|split]; [by apply dpop_NoDup..|done]. Qed.

Lemma drop_keys ks s : NoDup (first_seen s).*1 → NoDup (last_seen s).*1 →
  let s' := foldl (drop_key policy now) s ks in
  NoDup (first_seen s').*1 ∧ NoDup (last_seen s').*1 ∧ present s' = present s ∧
  ∀ k, if bool_decide (k ∈ ks) && stale policy now s k
       then dget k (first_seen s') = None ∧ dget k (last_seen s') = None
       else dget k (first_seen s') = dget k (first_seen s) ∧ dget k (last_seen s') = dget k (last_seen s).
Proof.
  revert s. induction ks as [|k0 ks IH]; intros s Hf Hl; [by split; [|split; [|split]]|]. cbn [foldl].
  destruct (drop_key_keys s k0 Hf Hl) as (Hf1 & Hl1 & Hp1).
  destruct (IH (drop_key policy now s k0) Hf1 Hl1) as (Hf2 & Hl2 & Hp2 & Hk2).
  split; [done|]. split; [done|]. split; [congruence|]. intros k. specialize (Hk2 k).
  destruct (decide (k = k0)) as [->|Hn].
  - pose proof (drop_key_eq s k0 Hf Hl) as He. rewrite (bool_decide_eq_true_2 (k0 ∈ k0 :: ks)) by left. cbn [andb].
    destruct (stale policy now s k0) eqn:Es; [|rewrite He, Es, andb_false_r in Hk2; by rewrite He].
    destruct He as [E1 E2]. destruct (bool_decide _ && _); [done|]. by rewrite E1, E2 in Hk2.
  - destruct (drop_key_ne s k k0 Hf Hl Hn) as [E1 E2].
    assert (stale policy now (drop_key policy now s k0) k = stale policy now s k) as Est
      by (unfold stale; by rewrite Hp1, E2).
    rewrite Est, E1, E2 in Hk2. rewrite (bool_decide_ext (k ∈ k0 :: ks) (k ∈ ks)); [done|].
    rewrite elem_of_cons. naive_solver.
Qed.

(** A poll continues the spells of the keys it saw, and ends those it did not see for a
    grace period. *)
Lemma poll_tracks hist s0 s :
  tracks s0 hist → observed s0 s → tracks (drop_stale policy now s) ((now, present s) :: hist).
Proof.
  intros [_ _ Hg Hu] [Hf Hl Hp Ha].
  destruct (drop_keys (first_seen s).*1 s Hf Hl) as (Hf' & Hl' & _ & Hk). fold (drop_stale policy now s) in *.
  split; [done|done| |].
  - intros k g Eg. specialize (Hk k). destruct (Hg k g Eg) as [E1 E2]. cbn [since].
    destruct (decide (k ∈ present s)) as [Hin|Hin].
    + destruct (Hp k Hin) as (_ & P1 & P2). rewrite bool_decide_eq_true_2 by done.
      assert (stale policy now s k = false) as Est by (unfold stale, str_mem; by rewrite bool_decide_eq_true_2).
      rewrite Est, andb_false_r in Hk. destruct Hk as [-> ->]. by rewrite P1, P2, E1.
    + destruct (Ha k Hin) as [A1 A2]. rewrite bool_decide_eq_false_2 by done. rewrite A1, A2, E1, E2 in Hk.
      assert (stale policy now s k = match since g k hist with Some (_, l) => g <=? now - l | None => true end) as Est.
      { unfold stale, str_mem. rewrite bool_decide_eq_false_2, Eg, A2, E2 by done. by destruct (since g k hist) as [[]|]. }
      rewrite Est in Hk. destruct (since g k hist) as [[f l]|] eqn:Es; [|by destruct (bool_decide _); destruct Hk].
      rewrite bool_decide_eq_true_2 in Hk; [by destruct (g <=? now - l)|].
      apply dec_stable. intros Hn%dget_None. by rewrite A1, E1 in Hn.
  - intros k Eg. destruct (Hu k Eg) as [E1 E2]. specialize (Hk k).
    assert (k ∉ present s) as Hin by (intros Hin; destruct (Hp k Hin) as ([? ?] & _); congruence).
    destruct (Ha k Hin) as [A1 A2]. rewrite A1, A2, E1, E2 in Hk. by destruct (bool_decide _ && _).
Qed.
End poll.

Lemma phase_ended name pod : is_Some (phase_verdict name (pod_state pod)) ↔ has_ended pod = true.
Proof.
  unfold phase_verdict, has_ended, is_str. destruct (item (pod_state pod) "phase") as [| | | |p| |]; cbn; try (split; [by intros [? ?]|done]).
  destruct ((p =? "Failed")%string || (p =? "Succeeded")%string); [done|]. split; [by intros [? ?]|done].
Qed.

(** What iterating over a field of the status gives *)
Lemma iter_entries (f : json → bool) v l :
  py_iter (py_or v (JList [])) = Ret l → (∀ x, as_dict x = [] → f x = false) → existsb f l = existsb f (entries v).
Proof.
  intros E Hf. unfold py_or in E.
  assert (∀ l', (∀ x, x ∈ l' → as_dict x = []) → existsb f l' = false) as Hno.
  { intros l' Hl. induction l' as [|x l' IH]; [done|]. cbn. rewrite Hf by (apply Hl; by left). apply IH. intros y Hy. apply Hl. by right. }
  destruct (truthy v) eqn:Et; [|injection E as <-; by destruct v as [| | | | |[]|]].
  destruct v; cbn in E; simplify_eq; cbn; try done; apply Hno; intros x (? & -> & _)%list_elem_of_fmap; done.
Qed.

Lemma nothing_in_empty cs : as_dict cs = [] → doomed_container cs = false ∧ may_recover cs = false.
Proof. intros E. unfold doomed_container, out_of_memory, may_recover, waits_for, container_state. by rewrite E. Qed.

Definition sees (pod : json) (k : string) : Prop :=
  ∃ c, shows c pod = true ∧ is_Some (grace_for policy c) ∧ k = key_of c.

Lemma classify_checked now khist s pod v s' :
  tracks s khist → classify_pod policy now pod s = (Ret v, s') →
  ∃ s1, s' = drop_stale policy now s1 ∧ observed now s s1 ∧ checked now (doomed pod) (sees pod) (Seen [] [] []) s1 v.
Proof.
  intros Ht E. unfold classify_pod in E. fold (pod_state pod) in E. unfold mbind at 1, M_bind at 1, modify_seen at 1 in E.
  set (sa := Seen (first_seen s) (last_seen s) []) in E.
  assert (observed now s sa ∧ young now sa) as [Ho Hy].
  { split; [|intros k Hk; by apply not_elem_of_nil in Hk]. destruct Ht. split; [done|done| |done].
    intros k Hk. by apply not_elem_of_nil in Hk. }
  apply bind_ret_inv in E as (init & sb & E0 & E). apply lift_ret_inv in E0 as [Ei ->].
  apply bind_ret_inv in E as (main & sb & E0 & E). apply lift_ret_inv in E0 as [Em ->].
  apply bind_ret_inv in E as (v1 & s1 & E1 & E). apply bind_ret_inv in E as (v2 & s2 & E2 & E).
  injection E as <- <-. exists s2. split; [done|].
  assert (∀ f, (∀ x, as_dict x = [] → f x = false) → existsb f (init ++ main) = existsb f (container_statuses pod)) as Hall.
  { intros f Hf. unfold container_statuses. rewrite !existsb_app, (iter_entries f _ _ Ei Hf), (iter_entries f _ _ Em Hf). done. }
  pose proof (phase_ended (item (as_dict (item (as_dict pod) "metadata")) "name") pod) as Hph.
  destruct (phase_verdict _ _) as [v0|] eqn:Ev.
  { injection E1 as <- <-. injection E2 as <- <-. split; [done|]. unfold doomed. rewrite (proj1 Hph) by done.
    split; [by left|]. intros k Hk. by apply not_elem_of_nil in Hk. }
  assert (has_ended pod = false) as Hend by (destruct (has_ended pod); [|done]; by destruct (proj2 Hph eq_refl)).
  apply (containers_checked now s) in E1 as [Ho1 Hj1]; [|done|done].
  rewrite (Hall doomed_container) in Hj1 by (intros x Hx; by apply nothing_in_empty).
  assert (∀ k, (∃ cs, cs ∈ init ++ main ∧ noted cs k) → sees pod k) as Hsee.
  { intros k (cs & Hcs & Hm & Hg & ->). exists (Retryable (container_name cs)). split; [|by split]. cbn.
    rewrite <-(Hall (λ cs', bool_decide (container_name cs' = container_name cs) && may_recover cs')).
    - apply existsb_exists. exists cs. split; [by apply list_elem_of_In|]. by rewrite bool_decide_eq_true_2.
    - intros x Hx. destruct (nothing_in_empty x Hx) as [_ ->]. by rewrite andb_false_r. }
  unfold doomed. rewrite Hend. cbn [orb]. destruct v1 as [v1|].
  { injection E2 as <- <-. split; [done|]. destruct Hj1 as [Hd Hp]. split; [done|].
    intros k Hk. right. destruct (Hp k Hk) as [Hk'|?]; [by apply not_elem_of_nil in Hk'|auto]. }
  destruct Hj1 as (Hy1 & Hd1 & Hp1). apply bind_ret_inv in E2 as (l & sc & E3 & E2). apply lift_ret_inv in E3 as [E3 ->].
  apply (conditions_checked now s) in E2 as [Ho2 Hj2]; [|done|done]. split; [done|].
  rewrite (iter_entries unschedulable _ _ E3) in Hj2 by (intros x Hx; unfold unschedulable; by rewrite Hx).
  assert (∀ k, existsb unschedulable (entries (item (pod_state pod) "conditions")) = true
    ∧ is_Some (ff_unschedulable_grace policy) ∧ k = key_of Unschedulable → sees pod k) as Hsee2.
  { intros k (? & ? & ->). by exists Unschedulable. }
  rewrite Hd1. destruct v2 as [v2|].
  - destruct Hj2 as [[?|Hold] Hp2]; [done|]. split; [by right|]. intros k Hk. right.
    destruct (Hp2 k Hk) as [[Hk'|?]%Hp1|?]; [by apply not_elem_of_nil in Hk'|auto|auto].
  - destruct Hj2 as (Hy2 & _ & Hp2). split_and!; [done|done|]. intros k. rewrite Hp2, Hp1. split.
    + intros [[Hk|?]|?]; [by apply not_elem_of_nil in Hk|right; auto|right; auto].
    + intros [Hk|(c & Hs & Hg & ->)]; [by apply not_elem_of_nil in Hk|]. destruct c as [cname|]; [left; right|by right].
      cbn in Hs. rewrite <-(Hall (λ cs', bool_decide (container_name cs' = cname) && may_recover cs')) in Hs.
      * apply existsb_exists in Hs as (cs & Hin & [Hn%bool_decide_eq_true Hm]%andb_true_iff). exists cs.
        split; [by apply list_elem_of_In|]. by subst cname.
      * intros x Hx. destruct (nothing_in_empty x Hx) as [_ ->]. by rewrite andb_false_r.
Qed.

Lemma drop_stale_present now s0 s : observed now s0 s → present (drop_stale policy now s) = present s.
Proof. intros [Hf Hl _ _]. by apply drop_keys. Qed.

(** The keys of each poll are those of the conditions its pod showed. *)
Definition keyed : list (Z * json) → list (Z * list string) → Prop :=
  Forall2 (λ p k, p.1 = k.1 ∧ ∀ c, is_Some (grace_for policy c) → key_of c ∈ k.2 ↔ shows c p.2 = true).

Lemma retryable_not_pod cname : key_of (Retryable cname) ≠ key_of Unschedulable.
Proof.
  intros E. apply (f_equal (λ s, bool_decide (":"%char ∈ explode s))) in E. cbn [key_of] in E.
  rewrite bool_decide_eq_true_2 in E; [vm_compute in E; done|]. rewrite explode_app. apply elem_of_app. right. cbn. left.
Qed.
Lemma key_of_inj c c' : key_of c = key_of c' → c = c'.
Proof.
  destruct c as [n|], c' as [n'|]; intros E; [|by apply retryable_not_pod in E|by symmetry in E; apply retryable_not_pod in E|done].
  cbn in E. apply (f_equal explode) in E. rewrite !explode_app in E. apply app_inv_tail in E.
  f_equal. by rewrite <-(implode_explode n), E, implode_explode.
Qed.

Lemma spell_keyed g c hist khist :
  keyed hist khist → grace_for policy c = Some g → since g (key_of c) khist = spell g c hist.
Proof.
  intros Hk Hg. induction Hk as [|[t pod] [t' ks] hist khist [Ht Hc] _ IH]; [done|]. cbn in *. subst t'.
  specialize (Hc c ltac:(by rewrite Hg)). rewrite IH. destruct (shows c pod).
  - by rewrite bool_decide_eq_true_2 by (by apply Hc).
  - rewrite bool_decide_eq_false_2; [done|]. by intros ?%Hc.
Qed.

Lemma polled_tracks hist s : polled hist s → ∃ khist, keyed hist khist ∧ tracks s khist.
Proof.
  induction 1 as [|hist s now pod s' _ (khist & Hk & Ht) E]; [exists []; split; [constructor|by split; try constructor]|].
  destruct (classify_checked _ _ _ _ _ _ Ht E) as (s1 & -> & Ho & _ & _ & Hp).
  exists ((now, present s1) :: khist). split; [|by eapply poll_tracks].
  constructor; [|done]. split; [done|]. intros c Hg. cbn. rewrite Hp. split.
  - intros [Hn|(c' & Hs & _ & Heq)]; [by apply not_elem_of_nil in Hn|]. by rewrite (key_of_inj _ _ Heq).
  - intros Hs. right. by exists c.
Qed.

(** C25. Over any history of polls that found nothing, and did not fail, the next poll
    gives a verdict exactly when the pod is past help (it ended, a container was killed
    for its memory or has an image that can never be pulled) or shows a condition whose
    spell has lasted for the grace period that the policy has for it. All reasons for
    which a container may recover are one condition of that container, and the spell of
    a condition goes back over polls that did not show it, unless it was away for a
    full grace period. *)
Theorem grace_is_exact hist s now pod v s' :
  polled hist s → classify_pod policy now pod s = (Ret v, s') →
  is_Some v ↔ doomed pod = true ∨
    ∃ c g f, shows c pod = true ∧ grace_for policy c = Some g ∧ spell g c ((now, pod) :: hist) = Some (f, now) ∧ g ≤ now - f.
Proof.
  intros (khist & Hk & Ht)%polled_tracks E. destruct (classify_checked _ _ _ _ _ _ Ht E) as (s1 & -> & Ho & Hj).
  assert (∀ c g, shows c pod = true → grace_for policy c = Some g → key_of c ∈ present s1 →
    ∃ f, spell g c ((now, pod) :: hist) = Some (f, now) ∧ old now s1 (key_of c) = (g <=? now - f)) as Hspell.
  { intros c g Hs Hg Hin. cbn [spell]. rewrite Hs. eexists. split; [done|].
    destruct (ob_present _ _ _ Ho _ Hin) as (_ & E1 & _). unfold old. rewrite key_grace, Hg, E1.
    rewrite <-(spell_keyed g c hist khist Hk Hg). by rewrite (proj1 (tr_graced _ _ Ht (key_of c) g ltac:(by rewrite key_grace))). }
  split.
  - intros [v' ->]. destruct Hj as [[Hd|(k & Hin & Hold)] Hp]; [by left|right].
    destruct (Hp k Hin) as [Hn|(c & Hs & [g Hg] & ->)]; [by apply not_elem_of_nil in Hn|].
    destruct (Hspell c g Hs Hg Hin) as (f & Es & E1). exists c, g, f. rewrite E1 in Hold. by apply Z.leb_le in Hold.
  - intros Hor. destruct v as [v|]; [done|]. destruct Hj as (Hy & Hd & Hp).
    destruct Hor as [Hd'|(c & g & f & Hs & Hg & Es & Hle)]; [by rewrite Hd in Hd'|].
    assert (key_of c ∈ present s1) as Hin by (apply Hp; right; by exists c).
    destruct (Hspell c g Hs Hg Hin) as (f' & Es' & E1). rewrite Es in Es'. injection Es' as <-.
    rewrite (Hy _ Hin) in E1. symmetry in E1. by apply Z.leb_gt in E1; lia.
Qed.
End spells.

(** ** Examples *)

Definition waiting_pod (reason : option string) : json :=
  let state := match reason with
               | Some r => JObj [("waiting", JObj [("reason", JStr r)])]
               | None => JObj [("running", JObj [("startedAt", JStr "now")])]
               end in
  JObj [("metadata", JObj [("name", JStr "pod")]);
        ("status", JObj [("phase", JStr "Pending");
                         ("containerStatuses", JList [JObj [("name", JStr "c"); ("state", state)]])])].
Definition thirty_seconds : FailFastPolicy := FailFast (Some (30 * SECOND)) None.

(** A pull that fails, a pull that seems to go on, and one that fails again *)
Lemma grace_is_exact_witness :
  let failing := waiting_pod (Some "ImagePullBackOff") in
  let hist := [(20 * SECOND, waiting_pod None); (0, waiting_pod (Some "ErrImagePull"))] in
  ∃ s v s', polled thirty_seconds hist s ∧
  classify_pod thirty_seconds (35 * SECOND) failing s = (Ret (Some v), s') ∧ v_reason v = "ImagePullBackOff"%string ∧
  (doomed failing = true ∨ ∃ c g f, shows c failing = true ∧ grace_for thirty_seconds c = Some g ∧
    spell g c ((35 * SECOND, failing) :: hist) = Some (f, 35 * SECOND) ∧ g ≤ 35 * SECOND - f).
Proof.
  intros failing hist.
  set (s1 := (classify_pod thirty_seconds 0 (waiting_pod (Some "ErrImagePull")) (Seen [] [] [])).2).
  set (s2 := (classify_pod thirty_seconds (20 * SECOND) (waiting_pod None) s1).2).
  assert (polled thirty_seconds hist s2) as Hp.
  { eapply (polled_more _ _ s1 _ (waiting_pod None)); [|vm_compute; reflexivity].
    eapply (polled_more _ _ _ _ (waiting_pod (Some "ErrImagePull"))); [constructor|vm_compute; reflexivity]. }
  eexists s2, _, _. split; [exact Hp|]. split; [vm_compute; reflexivity|]. split; [reflexivity|].
  eapply (grace_is_exact thirty_seconds hist s2 (35 * SECOND) failing); [exact Hp|vm_compute; reflexivity|by eexists].
Defined.

(** A cluster with one claim, whose pod has failed *)
Inductive failing := Failing.
#[local] Instance failing_clock : Clock failing := {|
  monotonic := λ w, (0, w);
  sleep := λ _ w, w;
  utcnow_us := λ w, (0, w);
  utcnow_isoformat := λ w, (EmptyString, w);
|}.
#[local] Instance failing_api : K8sApi failing := {|
  create_object := λ _ _ _, raise (ApiException 409);
  get_object := λ r _ _,
    if bool_decide (r = CLAIM) then mret (JObj [("status", JObj [("sandbox", JObj [("name", JStr "sb")])])])
    else mret (JObj []);
  delete_object := λ _ _ _ _, mret JNull;
  patch_object := λ _ _ _ _, raise (ApiException 404);
  list_objects := λ _ _ _, mret (JObj []);
  watch_stream := λ _ w, SEnd w;
|}.
#[local] Instance failing_exec : PodExec failing := {|
  open_stream := λ _ _ _ _, raise OSError;
  stream_is_open := λ _, mret false;
  stream_update := λ _ _, mret ();
  write_stdin := λ _ _, mret ();
  peek_stdout := λ _, mret false;
  read_stdout := λ _, mret EmptyString;
  peek_stderr := λ _, mret false;
  read_stderr := λ _, mret EmptyString;
  close_stream := λ _, mret ();
  exec_once := λ _ _ _ _ _, mret None;
  pod_status := λ _ _ _, mret (JObj [("status", JObj [("phase", JStr "Failed")])]);
  pod_conditions := λ _ _ _, mret [];
|}.
Definition a_cluster : cluster :=
  Cluster (ClusterConf "c" "ns" None None None (PFin (QArith_base.inject_Z 1)) None) "ns" (Resources "ns" []) 0 0.

Definition failing_world : failing * list api_write := (Failing, []).

(** The watchdog reaches a verdict and deletes the claim; then [stop] is called. *)
Lemma stop_settles_the_claim_witness :
  ∃ d v w, rtc (wstep others) (watching a_cluster "claim" thirty_seconds failing_world) (Returned, (d, w)) ∧
  wd_verdict d = Some v ∧ v_reason v = "PodFailed"%string ∧ w.2 = [ADelete CLAIM "ns" "claim" None] ∧
  wd_verdict (stop d).2 = (stop d).1.
Proof.
  set (s0 := (new_watchdog a_cluster "claim" thirty_seconds, failing_world)).
  set (s1 := (check s0).2).
  set (v := Verdict "PodFailed" (JStr "pod phase is Failed before it became ready") JNull).
  set (s2 := (commit_verdict v s1).2).
  assert (rtc (wstep others) (watching a_cluster "claim" thirty_seconds failing_world) (Returned, (s2.1, s2.2))) as Hr.
  { etrans; [apply rtc_once, w_timeout; reflexivity|].
    etrans; [apply rtc_once, (w_verdict _ s0 v s1); vm_compute; reflexivity|].
    apply rtc_once, (w_commit _ s1 v (Ret ())). vm_compute. reflexivity. }
  exists s2.1, v, s2.2. split; [exact Hr|]. split; [reflexivity|]. split; [reflexivity|].
  destruct (stop_settles_the_claim _ _ _ _ _ _ _ (Returned, ((stop s2.1).2, s2.2)) Hr (rtc_refl _ _)) as (E1 & _ & E2 & _).
  split; [exact E1|exact E2].
Defined.
