(* ===== verification/RlPrepull.v ===== *)
(** Pulling images ahead of a run: models [prepull.py] of
    [src/examples/agent-sandbox-rl/agent_sandbox_rl], and [prepull] and
    [prepull_delete] of [fleet.py].

    DaemonSets are reached through the Kubernetes client, whose calls are the class
    [DaemonSets]. Times are in nanoseconds; log lines are left out. *)

From Stdlib Require Import Ascii String ZArith Lia.
From stdpp Require Import base option list strings pretty sets gmap relations.
From S2P Require Import Prelude Hoare Float Json Models Utils World K8sHelper RlResources RlConfig RlHandles RlFleet.

#[local] Open Scope Z_scope.

(** ** The API *)

(** The numbers of a status that the wait looks at; [None] when the server left them out *)
Record ds_status := DsStatus {
  st_desired : option Z;
  st_ready : option Z;
  st_generation : option Z;
  st_observed : option Z;
  st_updated : option Z;
}.

(** By the name of the cluster and the namespace *)
Class DaemonSets (W : Type) := {
  create_ds : string → string → json → M W ();
  read_ds : string → string → string → M W json;
  replace_ds : string → string → string → json → M W ();
  delete_ds : string → string → string → M W ();
  status_ds : string → string → string → M W ds_status;
  (** the names of the items; an item may have none *)
  list_ds : string → string → string → M W (list (option string));
}.

(** ** Manifests *)

Definition DEFAULT_DS_NAME : string := "agent-sandbox-rl-prepull".
Definition DEFAULT_PAUSE_IMAGE : string := "registry.k8s.io/pause:3.10".
Definition DEFAULT_SHELL_IMAGE : string := "busybox:1.36".
Definition TINY : json := JObj [("requests", JObj [("cpu", JStr "10m"); ("memory", JStr "16Mi")])].
Definition DROP_CACHES_CMD : string := "sync && echo 3 > /proc/sys/vm/drop_caches".

(** What the pods of all DaemonSets of a call have in common *)
Record pull_options := PullOptions {
  po_node_selector : list (string * string);
  po_tolerations : list json;
  po_runtime_class : option string;
  po_pull_secret : option string;
  po_pause_image : string;
  po_shell_image : string;
  po_labels : list (string * string);
}.

Definition json_labels (l : list (string * string)) : json := JObj ((λ kv, (kv.1, JStr kv.2)) <$> l).
(** [{**a, **b}] *)
Definition merge_dicts {A} (a b : list (string * A)) : list (string * A) := foldl (λ d kv, dset kv.1 kv.2 d) a b.

Definition add_some (k : string) (present : bool) (v : json) (d : list (string * json)) : list (string * json) :=
  if present then d ++ [(k, v)] else d.

(** [_pod_spec] *)
Definition pod_spec (o : pull_options) (runtime_class : option string) : list (string * json) :=
  add_some "imagePullSecrets" (truthy_str_opt (po_pull_secret o))
      (JList [JObj [("name", JStr (default EmptyString (po_pull_secret o)))]])
  (add_some "tolerations" (negb (bool_decide (po_tolerations o = []))) (JList (po_tolerations o))
  (add_some "nodeSelector" (negb (bool_decide (po_node_selector o = []))) (json_labels (po_node_selector o))
  (add_some "runtimeClassName" (truthy_str_opt runtime_class) (JStr (default EmptyString runtime_class))
  [("terminationGracePeriodSeconds", JInt 0)]))).

(** [_selector_labels] *)
Definition selector_labels (name : string) : outcome (list (string * string)) :=
  if (63 <? String.length name)%nat then Raise ValueError
  else Ret (merge_dicts DEFAULT_LABELS [("role", "prepull"); ("prepull-ds", name)]).

(** [_manifest] *)
Definition manifest (name namespace : string) (labels : list (string * string)) (spec : list (string * json))
    : outcome json :=
  sel ← selector_labels name;
  let all := json_labels (merge_dicts labels sel) in
  Ret (JObj [("apiVersion", JStr "apps/v1"); ("kind", JStr "DaemonSet");
             ("metadata", JObj [("name", JStr name); ("namespace", JStr namespace); ("labels", all)]);
             ("spec", JObj [("selector", JObj [("matchLabels", json_labels sel)]);
                            ("template", JObj [("metadata", JObj [("labels", all)]); ("spec", JObj spec)])])]).

Definition pause_container (o : pull_options) : json :=
  JList [JObj [("name", JStr "pause"); ("image", JStr (po_pause_image o)); ("imagePullPolicy", JStr "IfNotPresent");
               ("resources", TINY)]].
Definition pull_container (i : nat) (image : string) : json :=
  JObj [("name", JStr ("pull-" +:+ pretty (Z.of_nat i))); ("image", JStr image); ("imagePullPolicy", JStr "IfNotPresent");
        ("command", JList [JStr "sh"; JStr "-c"; JStr "exit 0"]); ("resources", TINY)].

(** [_daemonset_manifest] *)
Definition daemonset_manifest (o : pull_options) (images : list string) (name namespace : string) : outcome json :=
  manifest name namespace (po_labels o)
    (pod_spec o (po_runtime_class o) ++
     [("initContainers", JList (imap pull_container images)); ("containers", pause_container o)]).

(** [_drop_caches_manifest] *)
Definition drop_caches_manifest (o : pull_options) (name namespace : string) : outcome json :=
  manifest name namespace (po_labels o)
    (pod_spec o None ++
     [("initContainers", JList [JObj [("name", JStr "drop-caches"); ("image", JStr (po_shell_image o));
         ("imagePullPolicy", JStr "IfNotPresent");
         ("command", JList [JStr "sh"; JStr "-c"; JStr DROP_CACHES_CMD]);
         ("securityContext", JObj [("privileged", JBool true)]); ("resources", TINY)]]);
      ("containers", pause_container o)]).

(** [obj["spec"]["selector"]["matchLabels"]], as far as it is there *)
Definition existing_selector (obj : json) : outcome json :=
  spec ← (v ← py_get obj "spec"; Ret (py_or v (JObj [])));
  sel ← (v ← py_get spec "selector"; Ret (py_or v (JObj [])));
  py_get sel "matchLabels".

(** The batches: DaemonSets of [images_per_pod] images *)
Fixpoint split_images (fuel n : nat) (i : Z) (ds_name : string) (images : list string) : list (string * list string) :=
  match fuel, images with
  | S fuel', _ :: _ =>
      (ds_name +:+ "-" +:+ pad 3 i, take n images) :: split_images fuel' n (i + 1) ds_name (drop n images)
  | _, _ => []
  end.
Definition pull_batches (ds_name : string) (images_per_pod : option Z) (uniq : list string) : list (string * list string) :=
  match images_per_pod with
  | None => [(ds_name, uniq)]
  | Some n =>
      if (n <=? 0) || (Z.of_nat (length uniq) <=? n) then [(ds_name, uniq)]
      else split_images (length uniq) (Z.to_nat n) 0 ds_name uniq
  end.

(** [list(dict.fromkeys(images))] *)
Definition uniques (images : list string) : list string :=
  foldl (λ acc i, if str_mem i acc then acc else acc ++ [i]) [] images.

(** ** Operations *)

(** A call in progress *)
Record pulls := Pulls {
  pl_pending : list (string * list string);
  (** with the time it was created *)
  pl_running : list (string * Z);
  pl_ok : bool;
  pl_started : nat;
}.

Definition set_pending (l : list (string * list string)) (p : pulls) : pulls :=
  Pulls l (pl_running p) (pl_ok p) (pl_started p).
Definition set_failed (p : pulls) : pulls := Pulls (pl_pending p) (pl_running p) false (pl_started p).
Definition started (name : string) (now : Z) (p : pulls) : pulls :=
  Pulls (pl_pending p) (pl_running p ++ [(name, now)]) (pl_ok p) (S (pl_started p)).
Definition finished (ready : bool) (p : pulls) : pulls :=
  Pulls (pl_pending p) (tail (pl_running p)) (pl_ok p && ready) (pl_started p).

Section operations.
Context {W : Type} `{Clock W} `{DaemonSets W}.
Context (cname ns : string).

(** [_delete] *)
Definition remove_ds (name : string) : M W () :=
  except (λ e, match e with ApiException s => if s =? 404 then Some (mret ()) else None | _ => None end)
    (delete_ds cname ns name).

Definition past (deadline : option Z) : M W bool :=
  match deadline with None => mret false | Some d => now ← read_clock; mret (d <=? now) end.

(** The attempts to create an object whose predecessor is being deleted *)
Fixpoint recreate (attempts : nat) (deadline : option Z) (body : json) : M W () :=
  match attempts with
  | O => mret ()
  | S more =>
      late ← past deadline;
      if late : bool then raise TimeoutError
      else
        done ← except (λ e, match e with
                            | ApiException s => if negb (s =? 409) || bool_decide (more = O) then None else Some (mret false)
                            | _ => None
                            end)
                 (_ ← create_ds cname ns body; mret true);
        if done : bool then mret () else _ ← do_sleep SECOND; recreate more deadline body
  end.

(** [_apply]; [selector] is that of the body *)
Definition apply_ds (name : string) (body : json) (selector : json) (deadline : option Z) : M W () :=
  done ← except (λ e, match e with ApiException s => if s =? 409 then Some (mret false) else None | _ => None end)
           (_ ← create_ds cname ns body; mret true);
  if done : bool then mret ()
  else
    existing ← read_ds cname ns name;
    current ← lift (existing_selector existing);
    if negb (is_none current) && negb (json_eqb current selector) then
      _ ← remove_ds name; recreate 60 deadline body
    else replace_ds cname ns name body.

(** Whether the controller has caught up with the object *)
Definition caught_up (st : ds_status) : bool :=
  match st_generation st, st_observed st with Some g, Some o => g <=? o | _, _ => true end.
Definition rolled_out (st : ds_status) : bool :=
  match st_updated st with Some u => default 0 (st_desired st) <=? u | None => true end.
(** Ready on every node, and at least one *)
Definition all_ready (st : ds_status) : bool :=
  let desired := default 0 (st_desired st) in
  caught_up st && rolled_out st && (0 <? desired) && (desired <=? default 0 (st_ready st)).
Definition no_nodes (st : ds_status) : bool := caught_up st && (default 0 (st_desired st) =? 0).

(** [_wait_ready] *)
Fixpoint await_ds (fuel : nat) (name : string) (deadline poll_interval zero_grace_until : Z) : M W bool :=
  match fuel with
  | O => no_fuel
  | S fuel' =>
      st ← status_ds cname ns name;
      if all_ready st then mret true
      else
        now ← read_clock;
        if no_nodes st && (zero_grace_until <=? now) then mret true
        else if deadline <=? now then mret false
        else
          let pause := Z.min poll_interval (Z.max 0 (deadline - now)) in
          _ ← do_sleep (if pause =? 0 then poll_interval else pause);
          await_ds fuel' name deadline poll_interval zero_grace_until
  end.

Definition labels_selector (name : string) : outcome json := sel ← selector_labels name; Ret (json_labels sel).

(** [_apply(cluster, body_for(name, imgs), ...)] *)
Definition apply_pull (o : pull_options) (name : string) (images : list string) (deadline : option Z) : M W () :=
  body ← lift (daemonset_manifest o images name ns);
  sel ← lift (labels_selector name);
  apply_ds name body sel deadline.

Abbreviation PM := (M (pulls * W)).

(** The inner loop: start batches while there is room and time *)
Fixpoint start_batches (o : pull_options) (parallel : nat) (deadline : Z) (pending : list (string * list string)) : PM () :=
  match pending with
  | [] => mret ()
  | (name, images) :: rest =>
      p ← self;
      if (length (pl_running p) <? parallel)%nat then
        go ← (if (pl_started p =? 0)%nat then mret true else now ← world read_clock; mret (now <? deadline));
        if go : bool then
          _ ← set_self (set_pending rest);
          ok ← except (λ e, match e with TimeoutError => Some (mret false) | _ => None end)
                 (_ ← world (apply_pull o name images (Some deadline)); mret true);
          if ok : bool then
            now ← world read_clock;
            _ ← set_self (started name now);
            start_batches o parallel deadline rest
          else set_self (λ p, set_pending [] (set_failed p))
        else mret ()
      else mret ()
  end.

(** [not (pending or running)] *)
Definition all_pulled (p : pulls) : bool := match pl_pending p, pl_running p with [], [] => true | _, _ => false end.

(** The outer loop *)
Fixpoint pull_loop (fuel waits : nat) (o : pull_options) (parallel : nat) (deadline poll_interval : Z)
    (delete_when_done : bool) : PM () :=
  match fuel with
  | O => no_fuel
  | S fuel' =>
      p ← self;
      if all_pulled p then mret ()
      else
        _ ← start_batches o parallel deadline (pl_pending p);
        p ← self;
        match pl_running p with
        | [] => set_self set_failed
        | (name, created) :: _ =>
            ready ← world (await_ds waits name deadline poll_interval (Z.min deadline (created + 15 * SECOND)));
            _ ← set_self (finished ready);
            _ ← world (if delete_when_done && ready then remove_ds name else mret ());
            pull_loop fuel' waits o parallel deadline poll_interval delete_when_done
        end
  end.

(** [_drop_caches] *)
Definition drop_caches_ds (waits : nat) (o : pull_options) (name : string) (deadline poll_interval : Z) : M W bool :=
  body ← lift (drop_caches_manifest o name ns);
  sel ← lift (labels_selector name);
  applied ← except (λ e, match e with
                         | TimeoutError => Some (mret false)
                         | ApiException s => if s =? 403 then Some (mret false) else None
                         | _ => None
                         end)
              (_ ← apply_ds name body sel (Some deadline); mret true);
  if negb applied then mret false
  else
    finally (remove_ds name)
      (now ← read_clock; await_ds waits name deadline poll_interval (Z.min deadline (now + 15 * SECOND))).

(** [dict(labels) if labels else dict(DEFAULT_LABELS)] *)
Definition default_labels (o : pull_options) : pull_options :=
  PullOptions (po_node_selector o) (po_tolerations o) (po_runtime_class o) (po_pull_secret o) (po_pause_image o)
    (po_shell_image o) (if bool_decide (po_labels o = []) then DEFAULT_LABELS else po_labels o).

(** [prepull], with the batches of a call in progress *)
Definition prepull (fuel waits : nat) (o : pull_options) (images : list string) (ds_name : string) (wait : bool)
    (timeout poll_interval : Z) (images_per_pod : option Z) (max_parallel : Z) (delete_when_done drop_caches : bool)
    : PM bool :=
  let o := default_labels o in
  let uniq := uniques images in
  let batches := pull_batches ds_name images_per_pod uniq in
  if bool_decide (uniq = []) then mret true
  else if negb wait then
    _ ← for_each batches (λ b, world (apply_pull o b.1 b.2 None)); mret true
  else
    start ← world read_clock;
    let deadline := start + timeout in
    _ ← set_self (λ _, Pulls batches [] true 0);
    _ ← pull_loop fuel waits o (Z.to_nat (Z.max 1 max_parallel)) deadline poll_interval delete_when_done;
    p ← self;
    if drop_caches && pl_ok p
    then world (drop_caches_ds waits o (ds_name +:+ "-drop-caches") deadline poll_interval)
    else mret (pl_ok p).

(** [prepull_delete] *)
Definition prepull_delete (ds_name : string) : M W () :=
  _ ← remove_ds ds_name;
  found ← except (λ e, match e with ApiException _ => Some (mret []) | _ => None end)
            (list_ds cname ns (join "," (((λ kv, kv.1 +:+ "=" +:+ kv.2) <$> DEFAULT_LABELS) ++ ["role=prepull"])));
  for_each found (λ n, match n with
                       | Some n => if (n =? EmptyString)%string || (n =? ds_name)%string then mret () else remove_ds n
                       | None => mret ()
                       end).
End operations.

(** ** The fleet *)

(** The [prepull_*] fields of the configuration, and the other arguments *)
Record prepull_config := PrepullConfig {
  pc_images_per_pod : Z;
  pc_max_parallel : Z;
  pc_delete_when_done : bool;
  pc_drop_caches : bool;
  pc_timeout : Z;
  pc_poll_interval : Z;
}.

(** [FleetPlan.by_cluster] *)
Definition by_cluster (entries : list PlanEntry) : list (string * list PlanEntry) :=
  foldl (λ d e, dset (pe_cluster e) (default [] (dget (pe_cluster e) d) ++ [e]) d) [] entries.

(** [ts.extra_pod_spec.get("tolerations")]: a list, or nothing *)
Definition tolerations_of (t : TemplateSpec) : outcome (list json) :=
  match dget "tolerations" (ts_extra_pod_spec t) with
  | None => Ret []
  | Some v => py_iter (py_or v (JList []))
  end.

Section fleet.
Context {W : Type} `{Clock W} `{Sdk W} `{PodExec W} `{Clusters W} `{DaemonSets W}.
Context (fsum : list pyfloat → pyfloat) (special : list ascii → outcome (list ascii)).
Context (pc : prepull_config) (fuel waits : nat).
Abbreviation FM := (M (fleet * W)).

(** A call in a cluster *)
Definition prepull_in (c : cluster) (o : pull_options) (images : list string) (wait : bool) : M W bool := λ w,
  let '(r, (_, w')) :=
    prepull (cl_name c) (cl_namespace c) fuel waits o images DEFAULT_DS_NAME wait (pc_timeout pc) (pc_poll_interval pc)
      (Some (pc_images_per_pod pc)) (pc_max_parallel pc) (pc_delete_when_done pc) (pc_drop_caches pc)
      (Pulls [] [] true 0, w) in
  (r, w').

Fixpoint prepull_clusters (wait : bool) (l : list (string * list PlanEntry)) : FM bool :=
  match l with
  | [] => mret true
  | (cname, entries) :: l' =>
      f ← self;
      c ← the_cluster cname;
      let t := template_spec c (fc_template (f_config f)) in
      tolerations ← lift (tolerations_of t);
      let o := PullOptions (default [] (ts_node_selector t)) tolerations (ts_runtime_class t) (ts_image_pull_secret t)
                 DEFAULT_PAUSE_IMAGE DEFAULT_SHELL_IMAGE (fc_labels (f_config f)) in
      done ← world (prepull_in c o (pe_image <$> entries) wait);
      rest ← prepull_clusters wait l';
      mret (done && rest)
  end.

Definition fleet_prepull (wait : bool) : FM bool :=
  entries ← the_plan fsum special; prepull_clusters wait (by_cluster entries).

Definition fleet_prepull_delete : FM () :=
  f ← self; for_each (f_registry f).*2 (λ c, world (prepull_delete (cl_name c) (cl_namespace c) DEFAULT_DS_NAME)).
End fleet.

(** ** The batches hold the images *)

Lemma uniques_elem images i : i ∈ uniques images ↔ i ∈ images.
Proof.
  unfold uniques. assert (∀ acc, i ∈ foldl (λ acc i, if str_mem i acc then acc else acc ++ [i]) acc images ↔
    i ∈ acc ∨ i ∈ images) as Hf; [|rewrite Hf; set_solver].
  induction images as [|j images IH]; intros acc; cbn [foldl]; [set_solver|]. rewrite IH.
  unfold str_mem. case_bool_decide; set_solver.
Qed.

Lemma split_images_concat fuel n i ds_name images :
  (1 ≤ n)%nat → (length images ≤ fuel)%nat → concat (split_images fuel n i ds_name images).*2 = images.
Proof.
  intros Hn. revert i images. induction fuel as [|fuel IH]; intros i images Hl; [by destruct images; cbn in *; [|lia]|].
  destruct images as [|a images]; [done|]. cbn [split_images fmap list_fmap concat snd].
  rewrite IH; [by rewrite take_drop|]. rewrite length_drop. cbn in *. lia.
Qed.

Lemma pull_batches_cover ds_name n images i :
  i ∈ images → ∃ b, b ∈ pull_batches ds_name n (uniques images) ∧ i ∈ b.2.
Proof.
  rewrite <-uniques_elem. intros Hi. unfold pull_batches.
  assert (∃ b, b ∈ [(ds_name, uniques images)] ∧ i ∈ b.2) as Hone by (eexists; split; [by left|done]).
  destruct n as [n|]; [|done]. case_match eqn:En; [done|]. apply orb_false_iff in En as [E1%Z.leb_gt _].
  rewrite <-(split_images_concat (length (uniques images)) (Z.to_nat n) 0 ds_name) in Hi by lia.
  apply list_elem_of_In, in_concat in Hi as (l & Hl & Hi). apply list_elem_of_In, list_elem_of_fmap in Hl as (b & -> & Hb).
  exists b. split; [done|by apply list_elem_of_In].
Qed.

(** ** What a call asks for *)

(** A value inside an object *)
Fixpoint at_path (keys : list string) (v : json) : json :=
  match keys with
  | [] => v
  | k :: ks => match v with JObj d => at_path ks (default JNull (dget k d)) | _ => JNull end
  end.

(** The name of a DaemonSet, and the images that the init containers of its pods run *)
Definition ds_name_of (body : json) : json := at_path ["metadata"; "name"] body.
Definition ds_images (body : json) : list string :=
  match at_path ["spec"; "template"; "spec"; "initContainers"] body with
  | JList cs => omap (λ c, match at_path ["image"] c with JStr i => Some i | _ => None end) cs
  | _ => []
  end.

Lemma manifest_name name ns labels spec body : manifest name ns labels spec = Ret body → ds_name_of body = JStr name.
Proof. unfold manifest. intros E. run_inv. by injection E as <-. Qed.

Lemma pod_spec_no_init o rc l : dget "initContainers" (pod_spec o rc ++ l) = dget "initContainers" l.
Proof. unfold pod_spec, add_some. by repeat case_match. Qed.

Lemma manifest_spec name ns labels spec body k :
  manifest name ns labels spec = Ret body → at_path ["spec"; "template"; "spec"; k] body = default JNull (dget k spec).
Proof. unfold manifest. intros E. run_inv. injection E as <-. reflexivity. Qed.

Lemma daemonset_images o images name ns body : daemonset_manifest o images name ns = Ret body → ds_images body = images.
Proof.
  intros E. unfold ds_images. rewrite (manifest_spec _ _ _ _ _ _ E), pod_spec_no_init.
  assert (∀ n, omap (λ c, match at_path ["image"] c with JStr i => Some i | _ => None end)
    (imap (λ i, pull_container (n + i)) images) = images) as Ho; [clear E|exact (Ho 0%nat)].
  induction images as [|i images IH]; intros n; [done|]. cbn. f_equal.
  rewrite (imap_ext _ (λ i, pull_container (S n + i))) by (intros j x _; cbn; f_equal; lia). apply IH.
Qed.

(** The calls that matter, as the server answered them *)
Inductive ds_call :=
  (** a create or a replace that succeeded *)
  | Applied (cluster ns name : string) (body : json)
  | Deleted (cluster ns name : string)
  | Reported (cluster ns name : string) (st : ds_status)
  | Other.

Definition applied_call (c n : string) (name : json) (body : json) (o : outcome ()) : ds_call :=
  match o, name with Ret _, JStr name => Applied c n name body | _, _ => Other end.

Definition logged_ds {W} `{DaemonSets W} : DaemonSets (W * list ds_call) := {|
  create_ds c n body := logging (applied_call c n (ds_name_of body) body) (create_ds c n body);
  read_ds c n name := logging (λ _, Other) (read_ds c n name);
  replace_ds c n name body := logging (applied_call c n (JStr name) body) (replace_ds c n name body);
  delete_ds c n name := logging (λ o, match o with Ret _ => Deleted c n name | _ => Other end) (delete_ds c n name);
  status_ds c n name := logging (λ o, match o with Ret st => Reported c n name st | _ => Other end) (status_ds c n name);
  list_ds c n sel := logging (λ _, Other) (list_ds c n sel);
|}.

(** The DaemonSets that were applied, and are not reported ready nor deleted since *)
Definition note_call (s : gset string) (c : ds_call) : gset string :=
  match c with
  | Applied _ _ name _ => {[name]} ∪ s
  | Deleted _ _ name => s ∖ {[name]}
  | Reported _ _ name st => if all_ready st || no_nodes st then s ∖ {[name]} else s
  | Other => s
  end.
Definition now_pulling (l : list ds_call) : gset string := foldl note_call ∅ l.

(** The log grows, and on the way nothing but [N] begins to pull. *)
Record extends (N : gset string) (l l' : list ds_call) : Prop := {
  ext_prefix : l `prefix_of` l';
  ext_pulling : ∀ x, l `prefix_of` x → x `prefix_of` l' → now_pulling x ⊆ N ∪ now_pulling l;
}.

Lemma extends_one N l c : now_pulling (l ++ [c]) ⊆ N ∪ now_pulling l → extends N l (l ++ [c]).
Proof.
  intros Hc. split; [by apply prefix_app_r|]. intros x [k ->] [k' E]. rewrite <-app_assoc in E. apply app_inv_head in E.
  destruct k as [|c' [|]]; [rewrite app_nil_r; set_solver| |by destruct k']. by destruct k'; simplify_eq/=.
Qed.

#[global] Instance extends_preorder N : PreOrder (extends N).
Proof.
  split.
  - intros l. split; [done|]. intros x H1 H2. rewrite (anti_symm prefix x l) by done. set_solver.
  - intros l1 l2 l3 [P1 H1] [P2 H2]. split; [by etrans|]. intros x Hx1 Hx3.
    destruct (prefix_weak_total x l2 l3 Hx3 P2) as [Hx2|Hx2]; [by apply H1|].
    specialize (H2 x Hx2 Hx3). specialize (H1 l2 P1 ltac:(done)). set_solver.
Qed.

Section asked.
Context {W : Type} `{Clock W} `{DaemonSets W}.
#[local] Existing Instance logged_clock.
#[local] Existing Instance logged_ds.
Abbreviation LW := (W * list ds_call)%type.
Context (cname ns : string).

Definition adds (N : gset string) (s s' : LW) : Prop := extends N s.2 s'.2.
#[local] Instance adds_preorder N : PreOrder (adds N).
Proof. split; [by intros s; unfold adds|]. intros s1 s2 s3. apply transitivity. Qed.

Lemma logging_adds {A} N (entry : outcome A → ds_call) m s :
  (∀ o l, now_pulling (l ++ [entry o]) ⊆ N ∪ now_pulling l) → moves (adds N) (logging entry m) s.
Proof. intros He. unfold moves, logging, adds. destruct (m s.1) as [o w]. by apply extends_one. Qed.

Lemma now_pulling_snoc l c : now_pulling (l ++ [c]) = note_call (now_pulling l) c.
Proof. unfold now_pulling. by rewrite foldl_app. Qed.

Lemma read_adds name s : moves (adds ∅) (read_ds cname ns name) s.
Proof. apply logging_adds. intros o l. rewrite now_pulling_snoc. cbn. set_solver. Qed.
Lemma delete_adds name s : moves (adds ∅) (delete_ds cname ns name) s.
Proof. apply logging_adds. intros o l. rewrite now_pulling_snoc. destruct o; cbn; set_solver. Qed.
Lemma status_adds name s : moves (adds ∅) (status_ds cname ns name) s.
Proof. apply logging_adds. intros o l. rewrite now_pulling_snoc. destruct o; cbn; [case_match|..]; set_solver. Qed.
Lemma clock_adds s : moves (adds ∅) read_clock s.
Proof. unfold moves, read_clock, adds. cbn. by destruct (monotonic s.1). Qed.
Lemma sleep_adds d s : moves (adds ∅) (do_sleep d) s.
Proof. by unfold moves, do_sleep, adds. Qed.
#[local] Hint Resolve read_adds delete_adds status_adds clock_adds sleep_adds : moves.

(** A call that either adds the DaemonSet as its last step, or nothing *)
Definition puts {A} (name : string) (body : json) (o : outcome A) (s s' : LW) : Prop :=
  match o with
  | Ret _ => extends {[name]} s.2 s'.2 ∧ ∃ l, s'.2 = l ++ [Applied cname ns name body]
  | _ => extends ∅ s.2 s'.2
  end.

Lemma puts_after {A} name body (o : outcome A) s s1 s' :
  adds ∅ s s1 → puts name body o s1 s' → puts name body o s s'.
Proof.
  unfold puts, adds. intros H1 H2. destruct o; [|by etrans..]. destruct H2 as [H2 Hl]. split; [|done].
  etrans; [|exact H2]. destruct H1 as [P1 H1]. split; [done|]. intros x ? ?. specialize (H1 x). set_solver.
Qed.

Lemma create_puts name body s : ds_name_of body = JStr name →
  puts name body (create_ds cname ns body s).1 s (create_ds cname ns body s).2.
Proof.
  intros Hn. cbn -[ds_name_of]. unfold logging. rewrite Hn. destruct (create_ds cname ns body s.1) as [[[]|e|] w]; cbn.
  - split; [|by eexists]. apply extends_one. rewrite now_pulling_snoc. done.
  - apply extends_one. rewrite now_pulling_snoc. set_solver.
  - apply extends_one. rewrite now_pulling_snoc. set_solver.
Qed.
Lemma replace_puts name body s : puts name body (replace_ds cname ns name body s).1 s (replace_ds cname ns name body s).2.
Proof.
  cbn. unfold logging. destruct (replace_ds cname ns name body s.1) as [[[]|e|] w]; cbn.
  - split; [|by eexists]. apply extends_one. rewrite now_pulling_snoc. done.
  - apply extends_one. rewrite now_pulling_snoc. set_solver.
  - apply extends_one. rewrite now_pulling_snoc. set_solver.
Qed.

Lemma remove_adds name s : moves (adds ∅) (remove_ds cname ns name) s.
Proof. unfold remove_ds. moves. Qed.
Lemma past_adds deadline s : moves (adds ∅) (past deadline) s.
Proof. unfold past. moves. Qed.
#[local] Hint Resolve remove_adds past_adds : moves.

(** Code before a call that puts *)
Lemma puts_bind {A B} name body (m : M LW A) (k : A → M LW B) s :
  moves (adds ∅) m s → (∀ a s1, m s = (Ret a, s1) → puts name body (k a s1).1 s1 (k a s1).2) →
  puts name body ((m ≫= k) s).1 s ((m ≫= k) s).2.
Proof.
  unfold moves, mbind, M_bind. intros Hm Hk. destruct (m s) as [[a|e|] s1] eqn:E; [|done|done].
  eapply puts_after; [exact Hm|]. by apply Hk.
Qed.

Lemma puts_raise {A} name body e s : puts name body (raise e s : outcome A * LW).1 s (raise e s : outcome A * LW).2.
Proof. unfold puts. cbn. reflexivity. Qed.

(** A create whose conflicts are handled by code that puts *)
Lemma create_or name body (h : exn → option (M LW bool)) (k : bool → M LW ()) s :
  ds_name_of body = JStr name → k true = mret () →
  (∀ e h', h e = Some h' → h' = mret false ∧ ∀ s1, puts name body (k false s1).1 s1 (k false s1).2) →
  let m := done ← except h (_ ← create_ds cname ns body; mret true); k done in
  puts name body (m s).1 s (m s).2.
Proof.
  intros Hn Hk1 Hh m. unfold m, except, mbind, M_bind. pose proof (create_puts name body s Hn) as Hp.
  destruct (create_ds cname ns body s) as [[[]|e|] s1]; cbn in Hp |- *; [by rewrite Hk1| |done].
  destruct (h e) as [h'|] eqn:E; [|done]. destruct (Hh e h' E) as [-> Hk]. cbn. eapply puts_after; [exact Hp|]. apply Hk.
Qed.

Lemma recreate_puts n name body deadline s : ds_name_of body = JStr name →
  let m := recreate cname ns (S n) deadline body in puts name body (m s).1 s (m s).2.
Proof.
  intros Hn. revert s. induction n as [|n IH]; intros s m; unfold m;
    (apply puts_bind; [auto with moves|]); intros [] s1 _; try apply puts_raise;
    apply (create_or name body _ (λ done : bool, if done then mret () else _)); try done; intros e h' E.
  - repeat case_match; simplify_eq. by destruct (_ =? 409).
  - repeat case_match; simplify_eq. split; [done|]. intros s2. apply puts_bind; [auto with moves|]. intros. apply IH.
Qed.

Lemma apply_ds_puts name body sel deadline s : ds_name_of body = JStr name →
  let m := apply_ds cname ns name body sel deadline in puts name body (m s).1 s (m s).2.
Proof.
  intros Hn m. unfold m, apply_ds. apply (create_or name body _ (λ done : bool, if done then mret () else _)); [done|done|].
  intros e h' E. repeat case_match; simplify_eq. split; [done|]. intros s1.
  apply puts_bind; [auto with moves|]. intros existing s2 _. apply puts_bind; [apply moves_lift, _|]. intros current s3 _.
  case_match; [|apply replace_puts]. apply puts_bind; [auto with moves|]. intros. by apply recreate_puts.
Qed.

Lemma apply_pull_puts o name images deadline s :
  let m := apply_pull cname ns o name images deadline in
  match m s with
  | (Ret _, s') => extends {[name]} s.2 s'.2 ∧ ∃ l body, s'.2 = l ++ [Applied cname ns name body] ∧ ds_images body = images
  | (_, s') => extends ∅ s.2 s'.2
  end.
Proof.
  intros m. unfold m, apply_pull, mbind, M_bind, lift.
  destruct (daemonset_manifest o images name ns) as [body|e|] eqn:Eb; [|reflexivity..].
  destruct (labels_selector name) as [sel|e|]; [|reflexivity..].
  pose proof (apply_ds_puts name body sel deadline s (manifest_name _ _ _ _ _ Eb)) as Hp. cbn in Hp. destruct (apply_ds _ _ _ _ _ _ _) as [[[]|e|] s']; cbn in Hp; [|done|done].
  destruct Hp as [Hx [l Hl]]. split; [done|]. exists l, body. split; [done|]. by eapply daemonset_images.
Qed.

(** A wait that succeeds has seen the DaemonSet ready. *)
Lemma await_ds_adds fuel name deadline poll grace s : moves (adds ∅) (await_ds cname ns fuel name deadline poll grace) s.
Proof. revert s. induction fuel as [|fuel IH]; intros s; cbn [await_ds]; moves. Qed.
Lemma await_ds_seen fuel name deadline poll grace s s' :
  await_ds cname ns fuel name deadline poll grace s = (Ret true, s') →
  ∃ l st, extends ∅ (s.2 ++ l ++ [Reported cname ns name st]) s'.2 ∧ all_ready st || no_nodes st = true.
Proof.
  revert s. induction fuel as [|fuel IH]; intros s E; [done|]. cbn [await_ds] in E.
  apply bind_ret_inv in E as (st & s1 & E1 & E). 
  assert (s1.2 = s.2 ++ [Reported cname ns name st]) as Hs1.
  { cbn in E1. unfold logging in E1. destruct (status_ds cname ns name s.1). by injection E1 as -> <-. }
  destruct (all_ready st) eqn:Er.
  { injection E as <-. exists [], st. cbn [app]. rewrite Hs1, Er. done. }
  apply bind_ret_inv in E as (now & s2 & E2 & E). pose proof (clock_adds s1) as Hc. unfold moves, adds in Hc. rewrite E2 in Hc. cbn [snd] in Hc.
  destruct (no_nodes st && _) eqn:En.
  { injection E as <-. apply andb_true_iff in En as [En _]. exists [], st. cbn [app]. rewrite En, orb_true_r, <-Hs1. done. }
  case_match; [done|]. apply bind_ret_inv in E as ([] & s3 & E3 & E).
  pose proof (sleep_adds (if Z.min poll (Z.max 0 (deadline - now)) =? 0 then poll else Z.min poll (Z.max 0 (deadline - now))) s2) as Hd.
  unfold moves, adds in Hd. rewrite E3 in Hd. cbn [snd] in Hd.
  destruct (IH s3 E) as (l & st' & Hx & Hst).
  assert (∃ k, s3.2 = s.2 ++ k) as [k Hk].
  { destruct (ext_prefix _ _ _ Hc) as [k1 Hk1]. destruct (ext_prefix _ _ _ Hd) as [k2 Hk2].
    exists ([Reported cname ns name st] ++ k1 ++ k2). by rewrite Hk2, Hk1, Hs1, <-!app_assoc. }
  exists (k ++ l), st'. split; [|done]. rewrite <-app_assoc. by rewrite Hk, <-app_assoc in Hx.
Qed.
End asked.

(** ** A call ends *)

(** The calls of the API return or raise, and time does not go back meanwhile. *)
Class DaemonSetsEnd (W : Type) `{Clock W} `{DaemonSets W} (clock : W → Z) : Prop := {
  create_ends c n b : ends (on_clock Z.le clock) (create_ds c n b);
  read_ends c n name : ends (on_clock Z.le clock) (read_ds c n name);
  replace_ends c n name b : ends (on_clock Z.le clock) (replace_ds c n name b);
  delete_ends c n name : ends (on_clock Z.le clock) (delete_ds c n name);
  status_ends c n name : ends (on_clock Z.le clock) (status_ds c n name);
}.

Section ending.
Context {W : Type} `{Clock W} `{DaemonSets W} (clock : W → Z) `{!ClockLaws W clock} `{!DaemonSetsEnd W clock}.
Context (cname ns : string) (o : pull_options) (parallel : nat) (deadline poll_interval : Z).
Hypothesis poll_pos : 0 < poll_interval.
Abbreviation on_time := (on_clock Z.le clock).

Lemma read_clock_run (w : W) : ∃ now w', read_clock w = (Ret now, w') ∧ clock w ≤ now ∧ clock w' = now.
Proof.
  unfold read_clock. pose proof (monotonic_mono w). pose proof (monotonic_reads w).
  destruct (monotonic w) as [now w']. cbn in *. by exists now, w'.
Qed.
Lemma read_clock_ends : ends on_time read_clock.
Proof. intros w. destruct (read_clock_run w) as (now & w' & -> & ? & <-). by split. Qed.
Lemma do_sleep_ends d : 0 ≤ d → ends on_time (do_sleep d).
Proof. intros Hd w. split; [done|]. unfold on_clock, do_sleep. cbn. pose proof (sleep_waits d w Hd). lia. Qed.
#[local] Hint Resolve py_get_answers outcome_bind_answers read_clock_ends do_sleep_ends create_ends read_ends replace_ends delete_ends status_ends : ends.

Lemma remove_ends name : ends on_time (remove_ds cname ns name).
Proof. unfold remove_ds. ends. Qed.
Lemma recreate_ends attempts dl body : ends on_time (recreate cname ns attempts dl body).
Proof.
  induction attempts as [|n IH]; cbn [recreate]; [apply ends_ret, _|].
  pose proof (do_sleep_ends SECOND ltac:(done)). apply ends_bind; [apply _|unfold past; ends|]. intros []; ends.
Qed.
Lemma apply_ds_ends name body sel dl : ends on_time (apply_ds cname ns name body sel dl).
Proof.
  assert (∀ v, existing_selector v ≠ NoFuel) by (intros v; unfold existing_selector; auto 10 with ends).
  unfold apply_ds. pose proof (remove_ends name). pose proof (recreate_ends 60 dl body). ends.
Qed.

Lemma manifest_answers name labels spec : manifest name ns labels spec ≠ NoFuel ∧ labels_selector name ≠ NoFuel.
Proof. unfold manifest, labels_selector, selector_labels. by case_match. Qed.
Lemma apply_pull_ends name images dl : ends on_time (apply_pull cname ns o name images dl).
Proof.
  unfold apply_pull, daemonset_manifest. pose proof (apply_ds_ends name). apply ends_bind; [apply _| |intros body].
  - apply ends_lift; [apply _|]. by apply manifest_answers.
  - apply ends_bind; [apply _| |auto]. apply ends_lift; [apply _|]. by apply (manifest_answers name [] []).
Qed.

(** One turn of the wait per polling interval, and one more *)
Lemma await_ds_ends n name grace w :
  deadline - clock w ≤ Z.of_nat n * poll_interval →
  ends_at on_time (await_ds cname ns (S n) name deadline poll_interval grace) w.
Proof using ClockLaws0 DaemonSetsEnd0 poll_pos.
  revert w. induction n as [|n IH]; intros w Hn; cbn [await_ds].
  all: pose proof (status_ends cname ns name w) as Hs; apply ends_at_bind; [apply _|done|]; intros st w1 E1;
    rewrite E1 in Hs; destruct Hs as [_ Hs]; unfold on_clock in Hs; cbn in Hs.
  all: destruct (all_ready st); [apply ends_at_ret, _|].
  all: apply ends_at_bind; [apply _|apply read_clock_ends|]; intros now w2 E2.
  all: destruct (read_clock_run w1) as (now' & w2' & E2' & Hc1 & Hc2); rewrite E2' in E2; simplify_eq.
  all: destruct (no_nodes st && _); [apply ends_at_ret, _|].
  all: destruct (Z.leb_spec deadline (clock w2)) as [?|Hd]; [apply ends_at_ret, _|].
  { lia. }
  set (d := if _ =? 0 then _ else _). assert (0 < d ∧ (d = poll_interval ∨ d = deadline - clock w2)) as [Hd1 Hd2].
  { subst d. case_match eqn:Ez; [apply Z.eqb_eq in Ez|apply Z.eqb_neq in Ez]; lia. }
  apply ends_at_bind; [apply _|apply do_sleep_ends; lia|]. intros u w3 [= _ <-].
  pose proof (sleep_waits d w2 ltac:(lia)) as Hsl. apply IH. destruct Hd2 as [->| ->]; nia.
Qed.

Abbreviation in_time := (on_world (X := pulls) on_time).
Lemma start_batches_ends pending : ends in_time (start_batches cname ns o parallel deadline pending).
Proof.
  pose proof read_clock_ends. pose proof apply_pull_ends.
  induction pending as [|[name images] rest IH]; cbn [start_batches]; ends.
Qed.

(** The DaemonSets that are not finished *)
Definition left_over (p : pulls) : nat := (length (pl_pending p) + length (pl_running p))%nat.

Lemma start_batches_left n pending :
  ospec (λ p, pl_pending p = pending ∧ (left_over p ≤ n)%nat) (start_batches (W := W) cname ns o parallel deadline pending)
    (λ _ p, (left_over p ≤ n)%nat) (λ _, True).
Proof.
  induction pending as [|[name images] rest IH]; cbn [start_batches]; [by apply ospec_ret; intros p []|].
  apply ospec_self. intros p0 [Hp Hn]. case_match; [|apply ospec_ret; by intros ? ->].
  apply ospec_bind with (mid := λ _ p, p = p0).
  { case_match; [by apply ospec_ret|]. apply ospec_world_bind; [done|]. intros. by apply ospec_ret. }
  intros go. destruct go; [|apply ospec_ret; by intros ? ->].
  set (taken p := pl_pending p = rest ∧ (S (left_over p) ≤ n)%nat).
  apply ospec_bind with (mid := λ _, taken).
  { apply ospec_set. intros ? ->. split; [done|]. unfold left_over in *. rewrite Hp in Hn. cbn in *. lia. }
  intros _. apply ospec_bind with (mid := λ _, taken).
  { apply ospec_except with (mid := taken).
    - apply ospec_world_bind; [done|]. intros. by apply ospec_ret.
    - intros e. destruct e; try done. by apply ospec_ret. }
  intros ok. destruct ok.
  - apply ospec_world_bind; [done|]. intros now _ _ _.
    apply ospec_bind with (mid := λ _ p, pl_pending p = rest ∧ (left_over p ≤ n)%nat); [|by intros].
    apply ospec_set. intros p [Hr Hl]. split; [done|]. unfold left_over in *. cbn. rewrite length_app. cbn. lia.
  - apply ospec_set. intros p [_ Hl]. unfold left_over in *. cbn. lia.
Qed.

Lemma on_world_ends {A} (m : M W A) (p : pulls) w : ends_at on_time m w → ends_at in_time (world m) (p, w).
Proof. intros [H1w H2w]. unfold ends_at, on_world, world in *. cbn in *. by destruct (m w). Qed.
Lemma ends_at_clock {A} (m : M W A) w r w' : ends_at on_time m w → m w = (r, w') → clock w ≤ clock w'.
Proof. intros [_ Hc] E. by rewrite E in Hc. Qed.

(** A turn of the outer loop per DaemonSet, and one more *)
Lemma pull_loop_ends n waits delete_when_done p w :
  (left_over p ≤ n)%nat → deadline - clock w ≤ Z.of_nat waits * poll_interval →
  ends_at in_time (pull_loop cname ns (S n) (S waits) o parallel deadline poll_interval delete_when_done) (p, w).
Proof using All.
  revert p w. induction n as [|n IH]; intros p w Hn Hw; cbn [pull_loop];
    (apply ends_at_bind; [apply _|apply ends_at_ret, _|]); intros p' s' [= <- <-]; cbn [fst].
  { unfold left_over in Hn. unfold all_pulled. destruct (pl_pending p); [|cbn in Hn; lia].
    destruct (pl_running p); [|cbn in Hn; lia]. apply ends_at_ret, _. }
  destruct (all_pulled p); [apply ends_at_ret, _|].
  apply ends_at_bind; [apply _|apply start_batches_ends|]. intros u [p1 w1] E1.
  pose proof (start_batches_ends (pl_pending p) (p, w)) as [_ Hc1]. rewrite E1 in Hc1. unfold on_world, on_clock in Hc1.
  pose proof (start_batches_left (S n) (pl_pending p) (p, w) (conj eq_refl Hn)) as Hl1. rewrite E1 in Hl1. cbn in Hc1, Hl1.
  apply ends_at_bind; [apply _|apply ends_at_ret, _|]. intros p2 s2 [= <- <-]. cbn [fst].
  destruct (pl_running p1) as [|[name created] rest] eqn:Er1; [apply ends_set_self, _|].
  assert (ends_at on_time (await_ds cname ns (S waits) name deadline poll_interval
    (Z.min deadline (created + 15 * SECOND))) w1) as Ha by (apply await_ds_ends; lia).
  apply ends_at_bind; [apply _|by apply on_world_ends|]. intros ready [p3 w3] E3.
  apply world_run_inv in E3 as [E3 E4]. cbn in E3, E4. subst p3. apply ends_at_clock in E3; [|done].
  apply ends_at_bind; [apply _|apply ends_set_self, _|]. intros v s4 [= _ <-].
  assert (ends_at on_time (if delete_when_done && ready then remove_ds cname ns name else mret ()) w3) as Hr
    by (case_match; [apply remove_ends|apply ends_at_ret, _]).
  apply ends_at_bind; [apply _|by apply on_world_ends|]. intros v2 [p5 w5] E5.
  apply world_run_inv in E5 as [E5 E6]. cbn in E5, E6. subst p5. apply ends_at_clock in E5; [|done].
  apply IH; [|lia]. unfold left_over in *. rewrite Er1 in Hl1. cbn in *. rewrite Er1. cbn. lia.
Qed.
End ending.

Section prepull_total.
Context {W : Type} `{Clock W} `{DaemonSets W} (clock : W → Z) `{!ClockLaws W clock} `{!DaemonSetsEnd W clock}.

Lemma prepull_ends cname ns n o images ds_name timeout poll_interval images_per_pod max_parallel delete_when_done
    drop_caches s :
  0 < poll_interval → timeout ≤ Z.of_nat n * poll_interval →
  ends_at (on_world (on_clock Z.le clock))
    (prepull cname ns (S (length (pull_batches ds_name images_per_pod (uniques images)))) (S n) o images ds_name true timeout
      poll_interval images_per_pod max_parallel delete_when_done drop_caches) s.
Proof.
  intros Hpoll Ht. unfold prepull. case_bool_decide; [apply ends_at_ret, _|]. cbn [negb]. destruct s as [p0 w].
  destruct (read_clock_run clock w) as (start & w1 & E1 & Hc1 & Hc2).
  apply ends_at_bind; [apply _|apply on_world_ends, read_clock_ends, _|]. intros start' s1 Es.
  apply world_run_inv in Es as [Es Ep]. destruct s1 as [p1 w1']. cbn in Es, Ep. rewrite E1 in Es. injection Es as <- <-. subst p1 start.
  apply ends_at_bind; [apply _|apply ends_set_self, _|]. intros u s2 [= _ <-].
  assert (ends_at (on_world (on_clock Z.le clock)) (pull_loop cname ns (S (length (pull_batches ds_name images_per_pod (uniques images))))
    (S n) (default_labels o) (Z.to_nat (Z.max 1 max_parallel)) (clock w1 + timeout) poll_interval delete_when_done)
    (Pulls (pull_batches ds_name images_per_pod (uniques images)) [] true 0, w1)) as Hl.
  { apply pull_loop_ends; [done|done|done|unfold left_over; cbn [pl_pending pl_running length]; lia|lia]. }
  apply ends_at_bind; [apply _|exact Hl|]. intros v [p3 w3] E3. destruct Hl as [_ Hl]. rewrite E3 in Hl.
  unfold on_world, on_clock in Hl. cbn in Hl. apply ends_at_bind; [apply _|apply ends_at_ret, _|]. intros p4 s4 [= <- <-]. cbn [fst].
  case_match; [|apply ends_at_ret, _]. apply on_world_ends. unfold drop_caches_ds, drop_caches_manifest.
  apply ends_at_bind; [apply _|apply ends_lift; [apply _|by apply manifest_answers]|]. intros body w5 E5.
  apply lift_ret_inv in E5 as [_ ->].
  apply ends_at_bind; [apply _|apply ends_lift; [apply _|by apply (manifest_answers ns _ [] [])]|]. intros sel w5 E5.
  apply lift_ret_inv in E5 as [_ ->].
  assert (ends (on_clock Z.le clock) (except (λ e, match e with TimeoutError => Some (mret false)
    | ApiException s => if s =? 403 then Some (mret false) else None | _ => None end)
    (_ ← apply_ds cname ns (ds_name +:+ "-drop-caches") body sel (Some (clock w1 + timeout)); mret true))) as Ha.
  { apply ends_except; [apply _| |intros ? ? ?; repeat case_match; simplify_eq; apply ends_ret, _].
    apply ends_bind; [apply _|by apply apply_ds_ends|intros; apply ends_ret, _]. }
  apply ends_at_bind; [apply _|apply Ha|]. intros applied w6 E6. specialize (Ha w3). rewrite E6 in Ha.
  destruct Ha as [_ Ha]. unfold on_clock in Ha. cbn in Ha. destruct applied; cbn [negb]; [|apply ends_at_ret, _].
  apply ends_at_finally; [apply _| |intros; by apply remove_ends].
  destruct (read_clock_run clock w6) as (now & w7 & E7 & Hc7 & Hc8).
  apply ends_at_bind; [apply _|by apply read_clock_ends|]. intros now' w7' E8. rewrite E7 in E8.
  injection E8 as <- <-. subst now.
  apply await_ds_ends; [done|done|done|lia].
Qed.

End prepull_total.

(** ** Pace and completeness *)

Section pacing.
Context {W : Type} `{Clock W} `{DaemonSets W} (clock : W → Z) `{!ClockLaws W clock} `{!DaemonSetsEnd W clock}.
#[local] Existing Instance logged_clock.
#[local] Existing Instance logged_ds.
Abbreviation LW := (W * list ds_call)%type.
Abbreviation time := (λ s : LW, clock s.1).
#[local] Existing Instance logged_clock_laws.

Lemma logging_ends {A} (entry : outcome A → ds_call) (m : M W A) :
  ends (on_clock Z.le clock) m → ends (on_clock Z.le time) (logging entry m).
Proof. intros Hm s. specialize (Hm s.1). unfold logging, on_clock in *. by destruct (m s.1). Qed.
#[local] Instance logged_ds_end : DaemonSetsEnd LW time.
Proof. split; intros; apply logging_ends; [apply create_ends|apply read_ends|apply replace_ends|apply delete_ends|apply status_ends]. Qed.

Context (cname ns : string) (o : pull_options) (parallel : nat) (deadline : Z) (batches : list (string * list string)).

(** The batch was applied with its images, and was then reported ready. *)
Definition applied (b : string * list string) (l : list ds_call) : Prop :=
  ∃ l1 l2 body, l = l1 ++ Applied cname ns b.1 body :: l2 ∧ ds_images body = b.2.
Definition pulled (b : string * list string) (l : list ds_call) : Prop :=
  ∃ l1 l2 l3 body st, l = l1 ++ Applied cname ns b.1 body :: l2 ++ Reported cname ns b.1 st :: l3
  ∧ ds_images body = b.2 ∧ all_ready st || no_nodes st = true.

Lemma applied_mono b l l' : l `prefix_of` l' → applied b l → applied b l'.
Proof. intros [k ->] (l1 & l2 & body & -> & Hi). exists l1, (l2 ++ k), body. by rewrite <-app_assoc. Qed.
Lemma pulled_mono b l l' : l `prefix_of` l' → pulled b l → pulled b l'.
Proof.
  intros [k ->] (l1 & l2 & l3 & body & st & -> & Hi & Hst). exists l1, l2, (l3 ++ k), body, st.
  by rewrite <-app_assoc; cbn; rewrite <-app_assoc.
Qed.
Lemma applied_pulled b l k st l' :
  applied b l → all_ready st || no_nodes st = true → (l ++ k ++ [Reported cname ns b.1 st]) `prefix_of` l' → pulled b l'.
Proof.
  intros (l1 & l2 & body & -> & Hi) Hst Hp. eapply pulled_mono; [exact Hp|].
  exists l1, (l2 ++ k), [], body, st. split; [|done]. by rewrite <-!app_assoc.
Qed.

(** At every moment so far *)
Definition within (l : list ds_call) : Prop := ∀ x, x `prefix_of` l → (size (now_pulling x) ≤ parallel)%nat.

Lemma within_extends N l l' :
  within l → (size (N ∪ now_pulling l) ≤ parallel)%nat → extends N l l' → within l'.
Proof.
  intros Hl HN [Hp Hx] x Hxl. destruct (prefix_weak_total x l l' Hxl Hp) as [Hxp|Hxp]; [by apply Hl|].
  etrans; [|exact HN]. by apply subseteq_size, Hx.
Qed.

(** Names that pull are running, unless time ran out. *)
Record pacing (p : pulls) (s : LW) : Prop := {
  pa_within : within s.2;
  pa_running : (length (pl_running p) ≤ parallel)%nat;
  pa_started : (length (pl_running p) ≤ pl_started p)%nat;
  pa_names : now_pulling s.2 ⊆ list_to_set (pl_running p).*1 ∨ pl_ok p = false ∧ deadline ≤ time s ∧ pl_started p ≠ 0%nat;
  pa_batches b : pl_ok p = true → b ∈ batches → b ∈ pl_pending p ∨ applied b s.2 ∧ b.1 ∈ (pl_running p).*1 ∨ pulled b s.2;
}.

Definition calm (s s' : LW) : Prop := extends ∅ s.2 s'.2 ∧ time s ≤ time s'.

Lemma pacing_calm p s s' : calm s s' → pacing p s → pacing p s'.
Proof.
  intros [Hx Ht] [H1 H2 H3 H4 H5]. pose proof (ext_prefix _ _ _ Hx) as Hp.
  split; [|done|done| |].
  - eapply within_extends; [exact H1| |exact Hx]. rewrite union_empty_l_L. by apply H1.
  - destruct H4 as [H4|(? & ? & ?)]; [left|right; split_and!; [done|lia|done]].
    pose proof (ext_pulling _ _ _ Hx s'.2 Hp ltac:(done)). set_solver.
  - intros b Hok Hb. destruct (H5 b Hok Hb) as [|[[Ha ?]|]]; [by left|right; left|right; right; by eapply pulled_mono].
    split; [by eapply applied_mono|done].
Qed.

Lemma moves_calm {A} (m : M LW A) s : moves (adds ∅) m s → moves (on_clock Z.le time) m s → moves calm m s.
Proof. by split. Qed.
Lemma ends_moves {A} (m : M LW A) s : ends (on_clock Z.le time) m → moves (on_clock Z.le time) m s.
Proof. intros Hm. apply Hm. Qed.

Lemma clock_calm s : moves calm read_clock s.
Proof. apply moves_calm; [apply clock_adds|apply ends_moves, read_clock_ends, _]. Qed.

Lemma pacing_started name t t' p s : pacing (started name t p) s → pacing (started name t' p) s.
Proof.
  intros [H1 H2 H3 H4 H5]. cbn in *. rewrite fmap_app, length_app in *. cbn in *.
  split; cbn; rewrite ?fmap_app, ?length_app; cbn; auto.
Qed.

(** A batch that was taken from the list *)
Definition taken (name : string) (images : list string) (rest : list (string * list string)) (p : pulls) (s : LW) : Prop :=
  pl_pending p = rest ∧ (length (pl_running p) < parallel)%nat ∧ now_pulling s.2 ⊆ list_to_set (pl_running p).*1
  ∧ pacing (set_pending ((name, images) :: rest) p) s.

Lemma taken_failed name images rest p s : taken name images rest p s → pacing (set_pending [] (set_failed p)) s.
Proof. intros (_ & _ & Hn & [H1 H2 H3 _ _]). by split; [..|left|]. Qed.

Lemma size_names (l : list string) : (size (list_to_set l : gset string) ≤ length l)%nat.
Proof.
  induction l as [|x l IH]; [done|]. cbn [list_to_set foldr]. change (foldr _ _ l) with (list_to_set l : gset string).
  rewrite size_union_alt, size_singleton. cbn [length]. apply le_n_S. etrans; [apply subseteq_size|exact IH]. set_solver.
Qed.

Lemma taken_applied name images rest p s s' :
  taken name images rest p s → extends {[name]} s.2 s'.2 →
  (∃ l body, s'.2 = l ++ [Applied cname ns name body] ∧ ds_images body = images) → pacing (started name 0 p) s'.
Proof.
  intros (Hr & Hlt & Hn & [H1 H2 H3 _ H5]) Hx (l & body & Hl & Hi). cbn in *.
  pose proof (ext_prefix _ _ _ Hx) as Hp. split; cbn; rewrite ?fmap_app, ?length_app; cbn.
  - eapply within_extends; [exact H1| |exact Hx].
    etrans; [|exact Hlt]. transitivity (size (list_to_set (name :: (pl_running p).*1) : gset string)).
    + apply subseteq_size. cbn. set_solver.
    + etrans; [apply size_names|]. cbn. by rewrite length_fmap.
  - lia.
  - lia.
  - left. pose proof (ext_pulling _ _ _ Hx s'.2 Hp ltac:(done)). rewrite list_to_set_app_L. set_solver.
  - intros b Hok Hb. rewrite Hr. destruct (H5 b Hok Hb) as [Hin|[[Ha Hrun]|Hd]].
    + apply elem_of_cons in Hin as [->|Hin]; [|by left]. right. left. cbn. split; [|set_solver].
      exists l, [], body. by split.
    + right. left. split; [by eapply applied_mono|set_solver].
    + right. right. by eapply pulled_mono.
Qed.

Lemma spec_calm {A} (m : M LW A) (I : pulls → LW → Prop) :
  (∀ s, moves calm m s) → (∀ p s s', calm s s' → I p s → I p s') → (∀ p s, I p s → within s.2) →
  spec (λ s, I s.1 s.2) (world m) (λ _ s, I s.1 s.2) (λ s, within s.2.2).
Proof.
  intros Hm HI Hw. apply spec_world. intros p s Hs. specialize (Hm s). unfold moves in Hm. cbn in Hs.
  destruct (m s) as [[a|e|] s']; cbn in *; eauto.
Qed.

Lemma taken_calm name images rest p s s' : calm s s' → taken name images rest p s → taken name images rest p s'.
Proof.
  intros Hc (H1 & H2 & H3 & H4). split_and!; [done|done| |by eapply pacing_calm]. destruct Hc as [Hx _].
  pose proof (ext_pulling _ _ _ Hx s'.2 (ext_prefix _ _ _ Hx) ltac:(done)). set_solver.
Qed.

(** The decision to start another one *)
Lemma go_paced name images rest p0 :
  (length (pl_running p0) < parallel)%nat → pl_pending p0 = (name, images) :: rest →
  spec (λ s, pacing s.1 s.2 ∧ s.1 = p0)
    (if (pl_started p0 =? 0)%nat then mret true else now ← world read_clock; mret (now <? deadline))
    (λ go s, s.1 = p0 ∧ pacing p0 s.2 ∧ (go = true → now_pulling s.2.2 ⊆ list_to_set (pl_running p0).*1)) (λ s, within s.2.2).
Proof.
  intros Hlt Hpend [p s] [Hp Heq]. cbn in Hp, Heq. subst p. destruct (Nat.eqb_spec (pl_started p0) 0) as [Hz|Hz].
  { cbn. split_and!; [done|done|]. intros _. by destruct (pa_names _ _ Hp) as [|(_ & _ & [])]. }
  destruct (read_clock_run time s) as (now & s' & E & Hc1 & Hc2). unfold world, mbind, M_bind. cbn [fst snd]. rewrite E. cbn.
  assert (pacing p0 s') as Hp' by (eapply pacing_calm; [|exact Hp]; pose proof (clock_calm s) as Hm; unfold moves in Hm; by rewrite E in Hm).
  split_and!; [done|done|]. intros Hd%Z.ltb_lt. destruct (pa_names _ _ Hp') as [|(_ & Hd' & _)]; [done|lia].
Qed.

Lemma apply_paced name images rest :
  spec (λ s, taken name images rest s.1 s.2)
    (except (λ e, match e with TimeoutError => Some (mret false) | _ => None end)
       (_ ← world (apply_pull cname ns o name images (Some deadline)); mret true))
    (λ ok s, if ok : bool then pl_pending s.1 = rest ∧ pacing (started name 0 s.1) s.2
             else pacing (set_pending [] (set_failed s.1)) s.2) (λ s, within s.2.2).
Proof.
  apply spec_except with (mid := λ s, taken name images rest s.1 s.2).
  - eapply spec_bind with (mid := λ _ s, pl_pending s.1 = rest ∧ pacing (started name 0 s.1) s.2); [|intros; by apply spec_ret].
    apply spec_world. intros p s Ht. cbn in Ht. pose proof (apply_pull_puts cname ns o name images (Some deadline) s) as Hp.
    pose proof (apply_pull_ends time cname ns o name images (Some deadline) s) as [_ Hc]. unfold on_clock in Hc.
    cbn zeta in Hp. destruct (apply_pull _ _ _ _ _ _ _) as [[[]|e|] s']; cbn in *; [|eapply taken_calm; [by split|done]|done].
    destruct Hp as [Hx Hb]. split; [by destruct Ht|]. by eapply taken_applied.
  - intros e. destruct e; try (intros s Ht; apply Ht). apply spec_ret. intros s Ht. by eapply taken_failed.
Qed.

Lemma start_paced pending :
  spec (λ s, pacing s.1 s.2 ∧ pl_pending s.1 = pending) (start_batches cname ns o parallel deadline pending)
    (λ _ s, pacing s.1 s.2) (λ s, within s.2.2).
Proof.
  induction pending as [|[name images] rest IH]; cbn [start_batches]; [by apply spec_ret; intros s []|].
  apply spec_self_bind. intros p0.
  destruct (Nat.ltb_spec (length (pl_running p0)) parallel) as [Hlt|]; [|by apply spec_ret; intros s [[] _]].
  intros s0 [[Hp Hpend] <-]. revert s0 Hp Hlt Hpend. intros [p0 s0] Hp Hlt Hpend. cbn [fst snd] in *.
  eapply (spec_bind (λ s, pacing s.1 s.2 ∧ s.1 = p0)); [by eapply go_paced| |by split]. intros go. destruct go.
  2: { apply spec_ret. by intros [p s] (-> & ? & _). }
  eapply spec_bind with (mid := λ _ s, taken name images rest s.1 s.2).
  { apply spec_set_self. intros p s (Heq & Hp' & Hn). cbn in *. subst p. split_and!; [done|done|by apply Hn|].
    destruct p0; cbn in *; by subst. }
  intros _. eapply spec_bind; [apply apply_paced|]. intros ok. destruct ok.
  - eapply spec_bind with (mid := λ _ s, pl_pending s.1 = rest ∧ pacing (started name 0 s.1) s.2).
    { apply (spec_calm read_clock (λ p s, pl_pending p = rest ∧ pacing (started name 0 p) s)); [apply clock_calm| |].
      - intros p s s' Hc [? ?]. split; [done|by eapply pacing_calm].
      - intros p s [_ []]. done. }
    intros now. eapply spec_bind; [|intros ?; exact IH].
    apply spec_set_self. intros p s [Hr Hs]. cbn. split; [by eapply pacing_started|done].
  - apply spec_set_self. intros p s Hs. exact Hs.
Qed.

Lemma finished_paced name created rest ready p s s' :
  pl_running p = (name, created) :: rest → pacing p s → calm s s' →
  (if ready : bool then (name ∉ now_pulling s'.2) ∧ (∀ b, applied b s.2 → b.1 = name → pulled b s'.2) else deadline ≤ time s') →
  pacing (finished ready p) s'.
Proof.
  intros Hr Hp Hc Hd. destruct (pacing_calm _ _ _ Hc Hp) as [H1 H2 H3 H4 _]. destruct Hp as [_ _ _ _ H5].
  pose proof (ext_prefix _ _ _ (proj1 Hc)) as Hpre. rewrite Hr in *. cbn in *.
  split; cbn; rewrite ?Hr; cbn; [done|lia|lia| |].
  - destruct ready; [|right; split_and!; [by rewrite andb_false_r|done|lia]].
    destruct H4 as [H4|(Hf & ? & ?)]; [left; set_solver|right; split_and!; [by rewrite andb_true_r|done|done]].
  - intros b [Hok ->]%andb_true_iff Hin. destruct (H5 b Hok Hin) as [|[[Ha Hrun]|]]; [by left| |right; right; by eapply pulled_mono].
    apply elem_of_cons in Hrun as [Heq|Hrun]; [right; right; by apply Hd|right; left]. split; [by eapply applied_mono|done].
Qed.

Lemma await_calm fuel name poll grace s : 0 < poll → moves calm (await_ds cname ns fuel name deadline poll grace) s.
Proof.
  intros Hpoll. apply moves_calm; [apply await_ds_adds|]. revert s. induction fuel as [|fuel IH]; intros s; cbn [await_ds]; [moves|].
  apply moves_bind; [apply _|apply ends_moves, status_ends|]. intros st s1 _. case_match; [moves|].
  apply moves_bind; [apply _|apply ends_moves, read_clock_ends, _|]. intros now s2 _.
  destruct (no_nodes st && _); [moves|]. destruct (deadline <=? now); [moves|].
  apply moves_bind; [apply _|apply ends_moves, (do_sleep_ends time); case_match; lia|]. intros. apply IH.
Qed.

(** What a wait ends with *)
Lemma await_paced fuel name poll grace ready s s' :
  await_ds cname ns fuel name deadline poll grace s = (Ret ready, s') →
  if ready then (name ∉ now_pulling s'.2) ∧ (∀ b, applied b s.2 → b.1 = name → pulled b s'.2) else deadline ≤ time s'.
Proof.
  intros E. destruct ready.
  - apply await_ds_seen in E as (l & st & Hx & Hst). split.
    + pose proof (ext_pulling _ _ _ Hx s'.2 (ext_prefix _ _ _ Hx) ltac:(done)) as Hs.
      rewrite app_assoc, now_pulling_snoc in Hs. cbn in Hs. rewrite Hst in Hs. set_solver.
    + intros b Ha <-. eapply applied_pulled; [exact Ha|exact Hst|]. apply Hx.
  - revert s E. induction fuel as [|fuel IH]; intros s E; [done|]. cbn [await_ds] in E.
    apply bind_ret_inv in E as (st & s1 & _ & E). destruct (all_ready st); [done|].
    apply bind_ret_inv in E as (now & s2 & E2 & E). destruct (no_nodes st && _); [done|].
    destruct (Z.leb_spec deadline now); [|by apply bind_ret_inv in E as (u & s3 & _ & E); eapply IH].
    injection E as <-. destruct (read_clock_run time s1) as (now' & s2' & E2' & _ & Hc). rewrite E2' in E2.
    injection E2 as <- <-. lia.
Qed.

Lemma pull_loop_paced fuel waits poll_interval delete_when_done :
  0 < poll_interval →
  spec (λ s, pacing s.1 s.2) (pull_loop cname ns fuel waits o parallel deadline poll_interval delete_when_done)
    (λ _ s, pacing s.1 s.2 ∧ (pl_ok s.1 = true → pl_pending s.1 = [] ∧ pl_running s.1 = [])) (λ s, within s.2.2).
Proof.
  intros Hpoll. induction fuel as [|fuel IH]; cbn [pull_loop]; [apply spec_no_fuel|].
  apply spec_self_bind. intros p0. destruct (all_pulled p0) eqn:Ea.
  { apply spec_ret. intros [p s] [Hp Heq]. cbn in *. subst. split; [done|]. intros _. unfold all_pulled in Ea. by repeat case_match. }
  eapply spec_bind; [eapply spec_weaken; [apply (start_paced (pl_pending p0))| |done|done]; by intros s [? <-]|].
  intros ?. apply spec_self_bind. intros p1. destruct (pl_running p1) as [|[name created] rest] eqn:Er1.
  { apply spec_set_self. intros p s [Hp Heq]. cbn in *. subst p. split; [|done]. destruct Hp as [? ? ? [Hn|(? & ? & ?)] ?]; split; cbn; try done; [by left|by right]. }
  eapply spec_bind with (mid := λ ready s, s.1 = p1 ∧ pacing (finished ready p1) s.2).
  { apply spec_world. intros p s [Hp Heq]. cbn in *. subst p.
    pose proof (await_calm waits name poll_interval (Z.min deadline (created + 15 * SECOND)) s Hpoll) as Hm. unfold moves in Hm.
    destruct (await_ds _ _ _ _ _ _ _ s) as [[ready|e|] s'] eqn:E; [| |done].
    - split; [done|]. eapply finished_paced; [done|done|exact Hm|]. by eapply await_paced.
    - by eapply pacing_calm. }
  intros ready. eapply spec_bind with (mid := λ _ s, pacing s.1 s.2).
  { apply spec_set_self. intros p s [Heq Hs]. cbn in *. by subst. }
  intros _. eapply spec_bind; [|intros ?; exact IH].
  apply (spec_calm _ pacing); [|intros; by eapply pacing_calm|by intros p s []].
  intros s. case_match; [|by unfold moves; cbn; split]. apply moves_calm; [apply remove_adds|apply ends_moves, remove_ends, _].
Qed.
End pacing.

Section prepulling.
Context {W : Type} `{Clock W} `{DaemonSets W} (clock : W → Z) `{!ClockLaws W clock} `{!DaemonSetsEnd W clock}.
#[local] Existing Instance logged_clock.
#[local] Existing Instance logged_ds.
#[local] Existing Instance logged_clock_laws.
#[local] Existing Instance logged_ds_end.

Definition no_pulls : pulls := Pulls [] [] true 0.

(** Dropping the caches is one more DaemonSet. *)
Lemma drop_caches_adds cname ns waits o name deadline poll (s : W * list ds_call) :
  moves (adds {[name]}) (drop_caches_ds cname ns waits o name deadline poll) s.
Proof.
  assert (∀ s1 s2, adds ∅ s1 s2 → adds (W := W) {[name]} s1 s2) as Hsub.
  { intros s1 s2 [Hp Hx]. split; [done|]. intros x ? ?. specialize (Hx x). set_solver. }
  unfold drop_caches_ds. apply moves_bind; [apply _|apply moves_lift, _|]. intros body s1 E1. apply lift_ret_inv in E1 as [E1 ->].
  apply moves_bind; [apply _|apply moves_lift, _|]. intros sel s2 E2. apply lift_ret_inv in E2 as [E2 ->].
  apply moves_bind; [apply _| |].
  - apply moves_except; [apply _| |intros; repeat case_match; simplify_eq; apply moves_ret, _].
    apply moves_bind; [apply _| |intros; apply moves_ret, _]. unfold moves.
    pose proof (apply_ds_puts cname ns name body sel (Some deadline) s (manifest_name _ _ _ _ _ E1)) as Hp. cbn zeta in Hp.
    destruct (apply_ds _ _ _ _ _ _ _) as [[]]; cbn in *; [apply Hp|by apply Hsub..].
  - intros applied s3 _. case_match; [apply moves_ret, _|].
    apply moves_finally; [apply _| |intros s4; apply Hsub, remove_adds].
    apply moves_bind; [apply _|apply Hsub, clock_adds|]. intros. apply Hsub, await_ds_adds.
Qed.

(** Every image is in a batch that was pulled. *)
Definition all_pulled_in (cname ns : string) (images : list string) (log : list ds_call) : Prop :=
  ∀ i, i ∈ images → ∃ name body st l1 l2 l3,
    log = l1 ++ Applied cname ns name body :: l2 ++ Reported cname ns name st :: l3
    ∧ i ∈ ds_images body ∧ all_ready st || no_nodes st = true.

Lemma pacing_done cname ns parallel deadline ds_name images_per_pod images p (s : W * list ds_call) :
  pacing clock cname ns parallel deadline (pull_batches ds_name images_per_pod (uniques images)) p s → pl_ok p = true →
  pl_pending p = [] → pl_running p = [] → now_pulling s.2 = ∅ ∧ all_pulled_in cname ns images s.2.
Proof.
  intros [_ _ _ Hn Hb] Hok Hpend Hrun. rewrite Hrun, Hok in Hn. split; [destruct Hn as [Hn|[? _]]; [set_solver|done]|].
  intros i Hi. destruct (pull_batches_cover ds_name images_per_pod images i Hi) as (b & Hin & Hib).
  destruct (Hb b Hok Hin) as [H1|[[_ H1]|H1]]; [rewrite Hpend in H1; by apply not_elem_of_nil in H1|
    rewrite Hrun in H1; by apply not_elem_of_nil in H1|].
  destruct H1 as (l1 & l2 & l3 & body & st & Hl & Hi' & Hst). exists b.1, body, st, l1, l2, l3. by rewrite Hi'.
Qed.

Lemma all_pulled_mono cname ns images l l' : l `prefix_of` l' → all_pulled_in cname ns images l → all_pulled_in cname ns images l'.
Proof.
  intros [k ->] Hl i Hi. destruct (Hl i Hi) as (name & body & st & l1 & l2 & l3 & -> & Hb).
  exists name, body, st, l1, l2, (l3 ++ k). split; [|done]. rewrite <-!app_assoc. cbn. by rewrite <-!app_assoc.
Qed.

Lemma prepull_log cname ns fuel waits o images ds_name timeout poll_interval images_per_pod max_parallel delete_when_done
    drop_caches :
  0 < poll_interval → let parallel := Z.to_nat (Z.max 1 max_parallel) in
  spec (λ s, s.2.2 = [])
    (prepull cname ns fuel waits o images ds_name true timeout poll_interval images_per_pod max_parallel delete_when_done drop_caches)
    (λ (b : bool) s, within parallel s.2.2 ∧ (b = true → all_pulled_in cname ns images (s.2 : W * _).2)) (λ s, within parallel s.2.2).
Proof.
  intros Hpoll parallel. assert (within parallel []) as Hw0 by (intros x ->%prefix_nil_inv; change (now_pulling []) with (∅ : gset string); rewrite size_empty; lia).
  unfold prepull. case_bool_decide as Hu.
  { apply spec_ret. intros [p [w l]] Hl. cbn in Hl |- *. subst l. split; [done|]. intros _ i Hi%uniques_elem. rewrite Hu in Hi.
    by apply not_elem_of_nil in Hi. }
  cbn [negb]. set (batches := pull_batches ds_name images_per_pod (uniques images)).
  eapply spec_bind with (mid := λ _ s, s.2.2 = []).
  { apply spec_world. intros p [w l] Hl. cbn in *. subst l. unfold read_clock; cbn; by destruct (monotonic w). }
  intros start. set (deadline := start + timeout).
  eapply spec_bind with (mid := λ _ s, pacing clock cname ns parallel deadline batches s.1 s.2).
  { apply spec_set_self. intros p [w l] Hl. cbn in *. subst l. split; cbn; [done|lia|lia|by left|by left]. }
  intros ?. eapply spec_bind; [by apply pull_loop_paced|]. intros ?. apply spec_self_bind. intros p0.
  destruct (drop_caches && pl_ok p0) eqn:Ed.
  - apply andb_true_iff in Ed as [_ Hok]. apply spec_world. intros p s [[Hp Hend] Heq]. cbn in *. subst p0.
    destruct (Hend Hok) as [Hpend Hrun].
    destruct (pacing_done _ _ _ _ _ _ _ _ _ Hp Hok Hpend Hrun) as [Hn Hall].
    pose proof (drop_caches_adds cname ns waits (default_labels o) (ds_name +:+ "-drop-caches") deadline poll_interval s) as Hm.
    unfold moves in Hm.
    assert (within parallel (drop_caches_ds cname ns waits (default_labels o) (ds_name +:+ "-drop-caches") deadline poll_interval s).2.2) as Hw.
    { eapply within_extends; [apply Hp| |exact Hm]. rewrite Hn, union_empty_r_L, size_singleton. lia. }
    destruct (drop_caches_ds _ _ _ _ _ _ _ _) as [[b|e|] s']; cbn in *; [|done|done]. split; [done|]. intros _.
    eapply all_pulled_mono; [apply Hm|done].
  - apply spec_ret. intros [p s] [[Hp Hend] Heq]. cbn in *. subst p0. split; [apply Hp|]. intros Hok.
    destruct (Hend Hok). by eapply pacing_done.
Qed.

(** C37. A pre-pull that waits ends, given that the calls of the API return or raise
    and take no negative time. At every moment of the call at most [max_parallel]
    DaemonSets were applied that the server has not reported ready (or without nodes)
    and that were not deleted since, the one that drops the caches included. When it
    reports success, every image is in an init container of a DaemonSet that the server
    accepted and then reported ready on all of its nodes, or without nodes. All of this
    is said of the calls that the API received, in their order. *)
Theorem prepull_paced_and_complete cname ns n o images ds_name timeout poll_interval images_per_pod max_parallel
    delete_when_done drop_caches (w : W) r p' w' log :
  0 < poll_interval → timeout ≤ Z.of_nat n * poll_interval →
  prepull cname ns (S (length (pull_batches ds_name images_per_pod (uniques images)))) (S n) o images ds_name true timeout
    poll_interval images_per_pod max_parallel delete_when_done drop_caches (no_pulls, (w, [])) = (r, (p', (w', log))) →
  r ≠ NoFuel
  ∧ (∀ l, l `prefix_of` log → (size (now_pulling l) ≤ Z.to_nat (Z.max 1 max_parallel))%nat)
  ∧ (r = Ret true → ∀ i, i ∈ images → ∃ name body st l1 l2 l3,
       log = l1 ++ Applied cname ns name body :: l2 ++ Reported cname ns name st :: l3
       ∧ i ∈ ds_images body ∧ all_ready st || no_nodes st = true).
Proof.
  intros Hp Ht E. destruct (prepull_ends (λ s, clock s.1) cname ns n o images ds_name timeout poll_interval images_per_pod max_parallel
    delete_when_done drop_caches (no_pulls, (w, [])) Hp Ht) as [Hr _]. rewrite E in Hr. split; [done|].
  eapply spec_run in E; [|by apply prepull_log|done]. destruct r as [b|e|]; cbn in *; [|by split|done].
  destruct E as [Hw Hall]. split; [done|]. intros [= ->]. by apply Hall.
Qed.
End prepulling.

(** ** A cluster with two nodes *)

Record nodes := Nodes { nd_now : Z; nd_ds : list string }.
#[local] Instance nodes_clock : Clock nodes := {|
  monotonic := λ w, (nd_now w, w);
  sleep := λ d w, Nodes (nd_now w + Z.max 0 d) (nd_ds w);
  utcnow_us := λ w, (0, w);
  utcnow_isoformat := λ w, (EmptyString, w);
|}.
(** A pull takes until the tenth second. *)
#[local] Instance nodes_ds : DaemonSets nodes := {|
  create_ds := λ _ _ body w,
    match body with
    | JObj (_ :: _ :: (_, JObj ((_, JStr name) :: _)) :: _) => (Ret (), Nodes (nd_now w) (nd_ds w ++ [name]))
    | _ => (Raise (ApiException 422), w)
    end;
  read_ds := λ _ _ _, raise (ApiException 404);
  replace_ds := λ _ _ _ _, raise (ApiException 404);
  delete_ds := λ _ _ name w, (Ret (), Nodes (nd_now w) (filter (λ n, n ≠ name) (nd_ds w)));
  status_ds := λ _ _ _ w,
    (Ret (DsStatus (Some 2) (Some (if 10 * SECOND <=? nd_now w then 2 else 0)) (Some 1) (Some 1) (Some 2)), w);
  list_ds := λ _ _ _ w, (Ret (Some <$> nd_ds w), w);
|}.
#[local] Instance nodes_clock_laws : ClockLaws nodes nd_now.
Proof. split; cbn; intros; lia. Qed.
#[local] Instance nodes_end : DaemonSetsEnd nodes nd_now.
Proof. split; intros; intros w; unfold on_clock; cbn; repeat case_match; done. Qed.

Definition plain_pull : pull_options := PullOptions [] [] None None DEFAULT_PAUSE_IMAGE DEFAULT_SHELL_IMAGE [].
#[local] Existing Instance logged_clock.
#[local] Existing Instance logged_ds.
Definition sim_prepull :=
  prepull "c" "ns" 4 11 plain_pull ["img:a"; "img:b"; "img:a"; "img:c"] DEFAULT_DS_NAME true (40 * SECOND) (4 * SECOND)
    (Some 1) 2 true false (no_pulls, (Nodes 0 [], [])).

(** Three DaemonSets, two at a time; all are gone afterwards. *)
Lemma prepull_paced_and_complete_witness :
  ∃ p w log, sim_prepull = (Ret true, (p, (w, log))) ∧ nd_ds w = [] ∧
  (∀ l, l `prefix_of` log → (size (now_pulling l) ≤ 2)%nat) ∧
  ∃ name body st l1 l2 l3, log = l1 ++ Applied "c" "ns" name body :: l2 ++ Reported "c" "ns" name st :: l3
    ∧ "img:c"%string ∈ ds_images body ∧ all_ready st || no_nodes st = true.
Proof.
  assert (∀ p w log, sim_prepull = (Ret true, (p, (w, log))) →
    (∀ l, l `prefix_of` log → (size (now_pulling l) ≤ 2)%nat) ∧
    ∃ name body st l1 l2 l3, log = l1 ++ Applied "c" "ns" name body :: l2 ++ Reported "c" "ns" name st :: l3
      ∧ "img:c"%string ∈ ds_images body ∧ all_ready st || no_nodes st = true) as Hw.
  { intros p w log E. apply (prepull_paced_and_complete nd_now "c" "ns" 10) in E as (_ & Hp & Hc); [|done|done].
    split; [exact Hp|]. apply (Hc eq_refl "img:c"%string). rewrite !elem_of_cons. tauto. }
  eexists _, _, _. split; [vm_compute; reflexivity|]. split; [reflexivity|].
  eapply Hw. vm_compute. reflexivity.
Defined.
