(* ===== verification/RlInputs.v ===== *)
(** What a run reads and checks before it starts: models [preflight.py], [sources.py]
    and [capacity.py] of [src/examples/agent-sandbox-rl/agent_sandbox_rl], and
    [preflight] of [fleet.py].

    Details of checks, log lines and the text of plans are left out. Values of dataset
    rows are decoded JSON; [json.loads] and the reading of files are arguments. *)

From Stdlib Require Import Ascii String ZArith QArith Lia.
From stdpp Require Import base option list strings sets relations.
From S2P Require Import Prelude Hoare Float Json PyList PyText Models Utils World K8sHelper Budget Snapshots RlResources RlConfig RlHandles RlFleet RlSim RlFleetProofs RlRecycle RlStrategies.

#[local] Open Scope Z_scope.

(** ** Label selectors *)

Record requirement := Requirement {
  rq_key : string;
  rq_operator : string;
  rq_values : list string;
}.
(** A [V1LabelSelector] *)
Record selector := Selector {
  sl_labels : list (string * string);
  sl_expressions : list requirement;
}.

Definition requirement_covers (known : list (string * string)) (r : requirement) : bool :=
  match dget (rq_key r) known with
  | None => false
  | Some value =>
      negb ((rq_operator r =? "In")%string && negb (str_mem value (rq_values r)))
      && negb ((rq_operator r =? "NotIn")%string && str_mem value (rq_values r))
      && negb (rq_operator r =? "DoesNotExist")%string
      && str_mem (rq_operator r) ["In"; "NotIn"; "Exists"; "DoesNotExist"]
  end.

Definition pod_selector_covers (sel : option selector) (known : list (string * string)) : bool :=
  match sel with
  | None => true
  | Some s =>
      forallb (λ kv, bool_decide (dget kv.1 known = Some kv.2)) (sl_labels s)
      && forallb (requirement_covers known) (sl_expressions s)
  end.

(** ** Preflight *)

Record Check := MkCheck {
  ck_name : string;
  ck_ok : bool;
  ck_warn_only : bool;
}.
(** The checks of a [PreflightReport] *)
Abbreviation report := (list Check).
Definition report_ok (r : report) : bool := forallb (λ c, ck_ok c || ck_warn_only c) r.

(** What the checks read, by the name of the cluster *)
Class PreflightApi (W : Type) := {
  server_version : string → M W string;
  (** the versions of a CRD that are served *)
  served_versions : string → string → M W (list string);
  (** the ready replicas of the controller *)
  controller_ready : string → M W (option Z);
  check_namespace : string → string → M W ();
  check_runtime_class : string → string → M W ();
  check_secret : string → string → string → M W ();
  (** [podSelector] of each NetworkPolicy *)
  network_policies : string → string → M W (list (option selector));
}.

Definition PODSNAPSHOT_GROUP : string := "podsnapshot.gke.io".
(** The CRDs that must be there: plural, group, version *)
Definition REQUIRED_CRDS : list (string * string * string) :=
  [("sandboxtemplates", GROUP, VERSION); ("sandboxwarmpools", GROUP, VERSION); (plural CLAIM, GROUP, VERSION);
   (plural SANDBOX, World.group SANDBOX, api_version SANDBOX)]%string.
Definition SNAPSHOT_CRDS : list (string * string * string) :=
  [("podsnapshots", PODSNAPSHOT_GROUP, "v1"); ("podsnapshotmanualtriggers", PODSNAPSHOT_GROUP, "v1")]%string.
Definition SNAPSHOT_POLICIES : resource := Resource PODSNAPSHOT_GROUP "v1" "podsnapshotpolicies".

(** [policy_groups_by] *)
Fixpoint descend (node : json) (keys : list string) : option json :=
  match keys with
  | [] => Some node
  | k :: keys' => match node with JObj kvs => descend (default JNull (dget k kvs)) keys' | _ => None end
  end.
Definition policy_groups_by (policy : json) (label : string) : bool :=
  match descend policy ["spec"; "snapshotGroupingRules"; "groupByLabelValue"; "labels"] with
  | Some (JList l) => existsb (λ v, is_str v label) l
  | _ => false
  end.

Section preflight.
Context {W : Type} `{Clock W} `{Clusters W} `{PreflightApi W}.

(** A check that fails when the call raises *)
Definition check_call {A} (name : string) (warn : bool) (caught : exn → bool) (ok : A → bool) (m : M W A) : M W Check :=
  except (λ e, if caught e then Some (mret (MkCheck name false warn)) else None) (a ← m; mret (MkCheck name (ok a) warn)).

Definition check_crd (cname : string) (crd : string * string * string) : M W Check :=
  let '(plural, group, version) := crd in
  check_call ("crd:" +:+ plural) false is_api_exception (str_mem version)
    (served_versions cname (plural +:+ "." +:+ group)).

Fixpoint check_each {A} (f : A → M W Check) (l : list A) : M W report :=
  match l with [] => mret [] | a :: l' => c ← f a; cs ← check_each f l'; mret (c :: cs) end.

Definition any_exception (e : exn) : bool := true.

(** A dry run that is rejected for its schema is a failure, other errors are warnings *)
Definition check_manifests (c : cluster) (sample_image : string) (t : TemplateSpec) : M W Check :=
  except (λ e, Some (mret (MkCheck "manifests" false
                             (match e with ApiException s => negb (bool_decide (s ∈ [400; 422])) | _ => true end))))
    (_ ← @validate_manifests W (api_of (cl_name c)) (cl_resources c) sample_image t "asrl-validate";
     mret (MkCheck "manifests" true false)).

Definition check_policies (cname ns : string) (labels : list (string * string)) : M W Check :=
  check_call "networkpolicy" true any_exception
    (λ sels, existsb (λ s, pod_selector_covers s labels) sels) (network_policies cname ns).

(** The items of a list of snapshot policies; one of them groups by the label *)
Definition snapshot_policies_ok (pols : json) : outcome bool :=
  items ← (v ← py_get (py_or pols (JObj [])) "items"; py_iter (py_or v (JList [])));
  _ ← traverse (λ p, m ← py_get p "metadata"; py_get (py_or m (JObj [])) "name") items;
  Ret (existsb (λ p, policy_groups_by p SANDBOX_NAME_HASH_LABEL) items).

Definition check_snapshots (c : cluster) (ns : string) (runtime_class : option string) : M W report :=
  crds ← check_each (check_crd (cl_name c)) SNAPSHOT_CRDS;
  let rc := match str_or runtime_class None with
            | None => MkCheck "snapshots:runtime_class" false false
            | Some r => let ok := (r =? "gvisor")%string in MkCheck "snapshots:runtime_class" ok (negb ok)
            end in
  policy ← check_call "snapshots:policy" true any_exception id
             (pols ← @list_objects W (k8s_of (cl_name c)) SNAPSHOT_POLICIES ns None; lift (snapshot_policies_ok pols));
  mret (crds ++ [rc; policy]).

Definition if_given {A B} (o : option A) (f : A → M W (list B)) : M W (list B) :=
  match o with Some a => f a | None => mret [] end.
Definition one (m : M W Check) : M W report := c ← m; mret [c].

Definition preflight_cluster (c : cluster) (runtime_class pull_secret : option string) (namespace : option string)
    (validate : option TemplateSpec) (sample_image : string) (unmanaged_labels : option (list (string * string)))
    (snapshots : bool) : M W report :=
  let cname := cl_name c in
  let ns := default (cl_namespace c) (str_or namespace None) in
  reachable ← check_call "reachable" false any_exception (λ _, true) (server_version cname);
  if negb (ck_ok reachable) then mret [reachable]
  else
    crds ← check_each (check_crd cname) REQUIRED_CRDS;
    controller ← check_call "controller" true any_exception (λ n, 1 <=? default 0 n) (controller_ready cname);
    nsc ← check_call "namespace" true is_api_exception (λ _, true) (check_namespace cname ns);
    rc ← if_given (str_or runtime_class None) (λ r,
           one (check_call ("runtimeclass:" +:+ r) false any_exception (λ _, true) (check_runtime_class cname r)));
    secret ← if_given (str_or pull_secret None) (λ s,
           one (check_call ("secret:" +:+ s) false any_exception (λ _, true) (check_secret cname s ns)));
    manifests ← if_given validate (λ t, one (check_manifests c sample_image t));
    policies ← if_given unmanaged_labels (λ l, one (check_policies cname ns l));
    snaps ← (if snapshots then check_snapshots c ns runtime_class else mret []);
    mret (reachable :: crds ++ controller :: nsc :: rc ++ secret ++ manifests ++ policies ++ snaps).

(** [_preflight] of the fleet; [snapshots] is the field of the cluster's configuration *)
Fixpoint preflight_all (snapshots : cluster → bool) (f : fleet) (sample_image : string) (cs : list cluster)
    : M W (list (string * report)) :=
  match cs with
  | [] => mret []
  | c :: cs' =>
      let t := template_spec c (fc_template (f_config f)) in
      let unmanaged := if bool_decide (ts_network_policy_management t = Some "Unmanaged"%string)
                       then Some (fleet_pod_labels (cl_resources c)) else None in
      r ← preflight_cluster c (ts_runtime_class t) (ts_image_pull_secret t) (Some (cl_namespace c)) (Some t) sample_image
            unmanaged (snapshots c);
      rs ← preflight_all snapshots f sample_image cs';
      mret ((cl_name c, r) :: rs)
  end.

Definition preflight_reports (snapshots : cluster → bool) : M (fleet * W) (list (string * report)) :=
  f ← self;
  let sample := default "busybox:latest"%string (head (image_counts (f_tasks f)).*1) in
  reports ← world (preflight_all snapshots f sample (f_registry f).*2);
  if forallb (λ nr, report_ok nr.2) reports then mret reports else raise PreflightError.
Definition fleet_preflight (snapshots : cluster → bool) : M (fleet * W) (list (string * report)) :=
  _ ← ensure_run_namespaces; preflight_reports snapshots.

(** The function [preflight] *)
Fixpoint preflight_registry (snapshots : cluster → bool) (runtime_class pull_secret namespace : option string)
    (cs : list cluster) : M W (list (string * report)) :=
  match cs with
  | [] => mret []
  | c :: cs' =>
      r ← preflight_cluster c runtime_class pull_secret namespace None "busybox:latest" None (snapshots c);
      rs ← preflight_registry snapshots runtime_class pull_secret namespace cs';
      mret ((cl_name c, r) :: rs)
  end.
Definition preflight (snapshots : cluster → bool) (runtime_class pull_secret namespace : option string)
    (raise_on_error : bool) (cs : list cluster) : M W (list (string * report)) :=
  reports ← preflight_registry snapshots runtime_class pull_secret namespace cs;
  if raise_on_error && negb (forallb (λ nr, report_ok nr.2) reports) then raise PreflightError else mret reports.
End preflight.

(** ** Rows of datasets *)

Definition DEFAULT_IMAGE_FIELDS : list string :=
  ["image"; "docker_image"; "image_name"; "metadata.image"; "metadata.docker_image"; "metadata.env_config.entry.image";
   "metadata.env_config.entry.docker_image"; "env_config.entry.image"; "env_config.entry.docker_image"].
Definition DEFAULT_ID_FIELDS : list string := ["id"; "instance_id"; "task_id"].
Abbreviation row := (list (string * json)).

(** [image_field] and [id_field] *)
Inductive field :=
  | Default
  | Paths (paths : list string)
  | Callable (f : row → outcome json).

(** [_dig]; [None] when there is nothing *)
Fixpoint descent (node : json) (parts : list string) : json :=
  match parts with
  | [] => node
  | k :: parts' =>
      match node with
      | JObj kvs => match dget k kvs with Some v => descent v parts' | None => JNull end
      | _ => JNull
      end
  end.
Definition dig (r : row) (path : string) : json :=
  match dget path r with Some v => v | None => descent (JObj r) (split "."%char path) end.

(** [_as_scalar] *)
Fixpoint as_scalar (v : json) : json :=
  match v with
  | JList [x] => as_scalar x
  | JList _ | JObj _ => JNull
  | _ => v
  end.

(** [_as_image] *)
Definition as_image (v : json) : option string :=
  match as_scalar v with
  | JStr s => let s := strip s in if (s =? EmptyString)%string then None else Some s
  | _ => None
  end.

Fixpoint first_image (r : row) (paths : list string) : option (string * string) :=
  match paths with
  | [] => None
  | p :: paths' => match as_image (dig r p) with Some i => Some (p, i) | None => first_image r paths' end
  end.

(** [_find_image]: where it was found, and the image *)
Definition find_image (r : row) (f : field) : outcome (option (option string * string)) :=
  match f with
  | Callable g => v ← g r; Ret ((λ i, (None, i)) <$> as_image v)
  | Paths l => Ret ((λ pi, (Some pi.1, pi.2)) <$> first_image r l)
  | Default => Ret ((λ pi, (Some pi.1, pi.2)) <$> first_image r DEFAULT_IMAGE_FIELDS)
  end.
Definition extract_image (r : row) (f : field) : outcome (option string) :=
  o ← find_image r f; Ret (match o with Some (_, i) => Some i | None => None end).

Fixpoint first_id (r : row) (paths : list string) : option (string * string) :=
  match paths with
  | [] => None
  | p :: paths' =>
      let v := as_scalar (dig r p) in if is_none v then first_id r paths' else Some (p, py_str v)
  end.

(** [_find_id] *)
Definition find_id (r : row) (f : field) (index : Z) : outcome (option string * string) :=
  match f with
  | Callable g => v ← g r; if is_none v then Raise KeyError else Ret (None, py_str v)
  | Paths l => match first_id r l with Some (p, i) => Ret (Some p, i) | None => Raise KeyError end
  | Default => match first_id r DEFAULT_ID_FIELDS with
               | Some (p, i) => Ret (Some p, i)
               | None => Ret (None, pretty.pretty index)
               end
  end.

(** The key is in the row, so it was consumed *)
Definition consumed_key (r : row) (o : option string) : list string :=
  match o with Some p => if bool_decide (is_Some (dget p r)) && negb (p =? EmptyString)%string then [p] else [] | None => [] end.

Definition row_to_task (r : row) (index : Z) (image_field id_field : field) : outcome task :=
  o ← find_image r image_field;
  match o with
  | None => Raise KeyError
  | Some (img_path, image) =>
      '(id_path, id) ← find_id r id_field index;
      let consumed := ["id"; "image"]%string ++ consumed_key r img_path ++ consumed_key r id_path in
      Ret (Task id image (filter (λ kv, negb (str_mem kv.1 consumed)) r))
  end.

(** ** Task sources *)

Inductive source_item :=
  | ITask (t : task)
  | IImage (image : string)
  | IRow (r : row)
  | IOther.

Definition to_task (image_field id_field : field) (i : Z) (item : source_item) : outcome task :=
  match item with
  | ITask t => Ret t
  | IImage image => Ret (Task (pretty.pretty i) image [])
  | IRow r => row_to_task r i image_field id_field
  | IOther => Raise TypeError
  end.
(** [to_tasks] of a list *)
Fixpoint to_tasks_from (image_field id_field : field) (i : Z) (items : list source_item) : outcome (list task) :=
  match items with
  | [] => Ret []
  | x :: items' => t ← to_task image_field id_field i x; ts ← to_tasks_from image_field id_field (i + 1) items'; Ret (t :: ts)
  end.
Definition to_tasks (image_field id_field : field) (items : list source_item) : outcome (list task) :=
  to_tasks_from image_field id_field 0 items.

Section jsonl.
(** [json.loads]; each line holds an object *)
Context (loads : string → outcome row).
Context (image_field id_field : field).

Definition line_task (i : Z) (line : string) : outcome task :=
  r ← loads line; row_to_task r i image_field id_field.

(** The loop of [JsonlSource.load]; [n] tasks were read *)
Fixpoint load_lines (limit : option Z) (n i : Z) (lines : list string) : outcome (list task) :=
  match lines with
  | [] => Ret []
  | raw :: rest =>
      let line := strip raw in
      if (line =? EmptyString)%string then load_lines limit n (i + 1) rest
      else
        t ← line_task i line;
        if match limit with Some l => l <=? n + 1 | None => false end then Ret [t]
        else ts ← load_lines limit (n + 1) (i + 1) rest; Ret (t :: ts)
  end.
Definition load_jsonl (limit : option Z) (lines : list string) : outcome (list task) :=
  if bool_decide (limit = Some 0) then Ret [] else load_lines limit 0 0 lines.
End jsonl.

(** [load_image_list] of the text *)
Definition image_line (raw : string) : string :=
  strip (match split "#"%char raw with l :: _ => l | [] => EmptyString end).
Definition add_image (out : list string) (raw : string) : list string :=
  let line := image_line raw in
  if (line =? EmptyString)%string || str_mem line out then out else out ++ [line].
Definition load_image_list (text : string) : list string := foldl add_image [] (splitlines text).
Definition image_tasks (text : string) : list task := (λ i, Task i i []) <$> load_image_list text.

(** ** Capacity *)

Definition GB : Z := 1024 ^ 3.
(** The units, longest suffix first *)
Definition BYTE_UNITS : list (string * Z) :=
  [("Ki", 1024); ("Mi", 1024 ^ 2); ("Gi", 1024 ^ 3); ("Ti", 1024 ^ 4); ("Pi", 1024 ^ 5); ("Ei", 1024 ^ 6);
   ("k", 1000); ("K", 1000); ("M", 1000 ^ 2); ("G", 1000 ^ 3); ("T", 1000 ^ 4); ("P", 1000 ^ 5); ("E", 1000 ^ 6)]%string.

(** [parse_cpu_milli] *)
Definition cpu_milli (q : string) : outcome Z :=
  let s := strip q in
  match before_suffix "m" s with
  | Some p => f ← py_float p; ftrunc f
  | None => scaled s 1000
  end.
(** [parse_quantity_bytes] *)
Definition quantity_bytes (q : string) : outcome Z :=
  let s := strip q in
  match omap (λ um, p ← before_suffix um.1 s; Some (p, um.2)) BYTE_UNITS with
  | (p, mult) :: _ => scaled p mult
  | [] => f ← py_float s; ftrunc f
  end.

(** [round(f, 1)] *)
Definition round_tenth (f : pyfloat) : pyfloat :=
  match f with PFin q => round64 (inject_Z (round_half_even (q * 10)) / 10)%Q | _ => f end.

Record ClusterCapacity := Capacity {
  cap_pool : string;
  cap_nodes : Z;
  cap_machines : list string;
  cap_cpu : Z;
  cap_disk : pyfloat;
  cap_pods : Z;
}.

(** A node: what is allocatable, and its labels *)
Record node := Node { nd_alloc : list (string * string); nd_labels : list (string * string) }.

Definition add_label (k : string) (n : node) (acc : list string) : list string :=
  match dget k (nd_labels n) with
  | Some v => if (v =? EmptyString)%string || str_mem v acc then acc else acc ++ [v]
  | None => acc
  end.

(** The sums over the nodes *)
Fixpoint sum_nodes (pool_label : string) (ns : list node) (cpu : Z) (disk : pyfloat) (pods : Z) (machines pools : list string)
    : outcome (Z * pyfloat * Z * list string * list string) :=
  match ns with
  | [] => Ret (cpu, disk, pods, machines, pools)
  | n :: ns' =>
      let alloc k := default "0"%string (dget k (nd_alloc n)) in
      c ← cpu_milli (alloc "cpu"%string);
      b ← quantity_bytes (alloc "ephemeral-storage"%string);
      g ← int_truediv b GB;
      p ← (f ← py_float (alloc "pods"%string); ftrunc f);
      sum_nodes pool_label ns' (cpu + c) (fadd disk g) (pods + p)
        (add_label "node.kubernetes.io/instance-type" n machines) (add_label pool_label n pools)
  end.

(** [probe_capacity], with the nodes of [list_node] *)
Definition probe_capacity (pool_label : string) (ns : list node) : outcome ClusterCapacity :=
  if bool_decide (ns = []) then Raise ValueError
  else
    '(cpu, disk, pods, machines, pools) ← sum_nodes pool_label ns 0 (PFin 0) 0 [] [];
    let pool := join ", " (sorted str_lt pools) in
    Ret (Capacity (if (pool =? EmptyString)%string then "(unlabeled)" else pool) (Z.of_nat (length ns))
           (sorted str_lt machines) cpu (round_tenth disk) pods).

Record BenchmarkPlan := BenchPlan {
  bp_strategy : string;
  bp_max_concurrent : Z;
  bp_window : option Z;
  bp_warm_per_task : bool;
  bp_colocate : bool;
  bp_replicas : Z;
  bp_warm_pods : Z;
  bp_resident : pyfloat;
  bp_usable : pyfloat;
  bp_bottleneck : string;
  bp_n_images : Z;
  bp_tasks_per_image : Z;
  bp_n_tasks : Z;
}.

(** The arguments of [plan_benchmark] with a default *)
Record bench_options := BenchOptions {
  bo_avg_image_gb : pyfloat;
  bo_cpu_request : Z;
  bo_disk_headroom : pyfloat;
  bo_max_pool : Z;
}.

(** [math.ceil(a / b)] *)
Definition ceil_div (a b : Z) : outcome Z := f ← int_truediv a b; to_int Qround.Qceiling f.
(** [n * f] *)
Definition times (n : Z) (f : pyfloat) : outcome pyfloat := g ← float_of_int n; Ret (fmul g f).

(** What warming everything takes *)
Record footprint := Footprint {
  fp_cpu_cap : Z;
  fp_conc_cap : Z;
  fp_usable : pyfloat;
  fp_resident : pyfloat;
  fp_disk_fits : bool;
  fp_pods_fit : bool;
  fp_cpu_fits : bool;
}.
Definition footprint_of (cap : ClusterCapacity) (n_images replicas : Z) (o : bench_options) : outcome footprint :=
  let nodes := Z.max 1 (cap_nodes cap) in
  let cpu_cap := cap_cpu cap / bo_cpu_request o in
  nf ← float_of_int nodes;
  per_node ← fdiv (cap_disk cap) nf;
  let usable := fmul per_node (fsub (PFin 1) (bo_disk_headroom o)) in
  images_per_node ← ceil_div n_images nodes;
  resident ← times (images_per_node * replicas) (bo_avg_image_gb o);
  let pods := n_images * replicas in
  Ret (Footprint cpu_cap (Z.max 1 (Z.min cpu_cap (cap_pods cap))) usable resident (fle resident usable)
         (pods <=? cap_pods cap) (pods * bo_cpu_request o <=? cap_cpu cap)).

Definition bench_totals (n_images tasks_per_image : Z) : totals :=
  (λ i, ("img" +:+ pretty.pretty (Z.of_nat i), tasks_per_image)) <$> seq 0 (Z.to_nat n_images).

Definition plan_benchmark (cap : ClusterCapacity) (n_images tasks_per_image : Z) (o : bench_options) : outcome BenchmarkPlan :=
  if (n_images <? 1) || (tasks_per_image <? 1) then Raise ValueError
  else if bo_cpu_request o <? 1 then Raise ValueError
  else if bo_max_pool o <? 1 then Raise ValueError
  else if fle (bo_avg_image_gb o) (PFin 0) then Raise ValueError
  else if negb (fle (PFin 0) (bo_disk_headroom o) && flt (bo_disk_headroom o) (PFin 1)) then Raise ValueError
  else
    let n_tasks := n_images * tasks_per_image in
    let rl := 1 <? tasks_per_image in
    let replicas := if rl then Z.min tasks_per_image (bo_max_pool o) else 1 in
    fp ← footprint_of cap n_images replicas o;
    if fp_disk_fits fp && fp_pods_fit fp && fp_cpu_fits fp then
      let mc := Z.min n_tasks (fp_conc_cap fp) in
      let bottleneck := if n_tasks <=? mc then "none" else if fp_cpu_cap fp <=? cap_pods cap then "cpu" else "pods" in
      Ret (BenchPlan "naive" mc None rl rl replicas (n_images * replicas) (round_tenth (fp_resident fp))
             (round_tenth (fp_usable fp)) bottleneck n_images tasks_per_image n_tasks)
    else
      window ← recommend_window_pipelined (bench_totals n_images tasks_per_image) (fp_conc_cap fp) (bo_max_pool o)
                 (Some (bo_avg_image_gb o)) (Some (fp_usable fp)) 0 rl (cap_nodes cap);
      let mc := Z.max 1 (Z.min (fp_conc_cap fp) (window * replicas)) in
      per_node ← ceil_div window (Z.max 1 (cap_nodes cap));
      resident ← times (per_node * replicas) (bo_avg_image_gb o);
      let bottleneck := if negb (fp_disk_fits fp) then "disk" else if negb (fp_pods_fit fp) then "pods" else "cpu" in
      Ret (BenchPlan "pipelined" mc (Some window) rl rl replicas (window * replicas * 2) (round_tenth (fmul resident (PFin 2)))
             (round_tenth (fp_usable fp)) bottleneck n_images tasks_per_image n_tasks).

(** ** Label selectors cover what Kubernetes matches *)

(** How the API server matches a set of labels *)
Definition requirement_matches (labels : list (string * string)) (r : requirement) : Prop :=
  match rq_operator r with
  | "In" => ∃ v, dget (rq_key r) labels = Some v ∧ v ∈ rq_values r
  | "NotIn" => ∀ v, dget (rq_key r) labels = Some v → v ∉ rq_values r
  | "Exists" => is_Some (dget (rq_key r) labels)
  | "DoesNotExist" => dget (rq_key r) labels = None
  | _ => False
  end%string.
Definition selector_matches (labels : list (string * string)) (s : selector) : Prop :=
  (∀ k v, (k, v) ∈ sl_labels s → dget k labels = Some v) ∧
  (∀ r, r ∈ sl_expressions s → requirement_matches labels r).
(** What the API server admits: a known operator, and values for [In] and [NotIn] *)
Definition admitted (r : requirement) : Prop :=
  (rq_operator r ∈ ["In"; "NotIn"]%string ∧ rq_values r ≠ []) ∨ rq_operator r ∈ ["Exists"; "DoesNotExist"]%string.
Definition extends (known labels : list (string * string)) : Prop :=
  ∀ k v, dget k known = Some v → dget k labels = Some v.

Lemma extends_refl known : extends known known.
Proof. by intros k v. Qed.

(** A label the set does not have may have any value. *)
Lemma extends_new known k v : dget k known = None → extends known ((k, v) :: known).
Proof. intros Hk k' v' Hv'. simpl. destruct (decide (k' = k)); congruence. Qed.

(** A requirement covers when it matches whatever other labels there are. *)
Lemma requirement_covers_exact known r :
  admitted r → requirement_covers known r = true ↔ ∀ labels, extends known labels → requirement_matches labels r.
Proof.
  destruct r as [k op vs]. unfold admitted, requirement_covers, requirement_matches. cbn.
  intros Hop. destruct (dget k known) as [v|] eqn:Hk.
  - assert (∀ labels, extends known labels → dget k labels = Some v) as Hext by (intros l Hl; by apply Hl).
    pose proof (extends_refl known) as Hr.
    set_unfold in Hop. destruct Hop as [[[->| [->|[]]] Hvs]|[->|[->|[]]]]; cbn; split.
    all: unfold str_mem; cbn; rewrite ?andb_true_r, ?negb_involutive, ?negb_true_iff, ?bool_decide_eq_true, ?bool_decide_eq_false.
    all: first [naive_solver | set_solver].
  - split; [done|]. intros Hall. exfalso. pose proof (λ v, Hall _ (extends_new known k v Hk)) as Hnew.
    specialize (Hall _ (extends_refl known)). cbn in Hnew. rewrite Hk in Hall.
    set_unfold in Hop. destruct Hop as [[[->| [->|[]]] Hvs]|[->|[->|[]]]]; cbn in *.
    + naive_solver.
    + destruct vs as [|v vs]; [done|]. apply (Hnew v v); [by rewrite decide_True|by left].
    + by destruct Hall.
    + specialize (Hnew EmptyString). by rewrite decide_True in Hnew.
Qed.

(** C40. A selector is reported to cover the pods of the fleet exactly when the API
    server matches it against every set of labels that has the labels of those pods,
    whatever labels are added later. *)
Theorem pod_selector_covers_exact (s : selector) known :
  (∀ r, r ∈ sl_expressions s → admitted r) →
  pod_selector_covers (Some s) known = true ↔ ∀ labels, extends known labels → selector_matches labels s.
Proof.
  intros Hadm. cbn. rewrite andb_true_iff, <- !Is_true_true, !forallb_True, !Forall_forall.
  unfold selector_matches. split.
  - intros [Hl He] labels Hext. split.
    + intros k v Hkv. apply Hext. specialize (Hl _ Hkv). by apply bool_decide_unpack in Hl.
    + intros r Hr. eapply requirement_covers_exact; [by apply Hadm| |done]. by apply Is_true_eq_true, He.
  - intros Hall. split.
    + intros [k v] Hkv. apply bool_decide_pack. by apply (proj1 (Hall _ (extends_refl known))).
    + intros r Hr. apply Is_true_eq_left. apply requirement_covers_exact; [by apply Hadm|].
      intros labels Hext. by apply (proj2 (Hall labels Hext)).
Qed.

(** A policy that selects the pods of a fleet, unless a label is on the list *)
Definition fleet_selector : selector :=
  Selector [("app", "rl")] [Requirement "tier" "NotIn" ["web"; "db"]; Requirement "run" "Exists" []]%string.

Lemma pod_selector_covers_exact_witness :
  (∀ labels, extends [("app", "rl"); ("tier", "batch"); ("run", "7")] labels → selector_matches labels fleet_selector) ∧
  ¬ (∀ labels, extends [("app", "rl"); ("run", "7")] labels → selector_matches labels fleet_selector).
Proof.
  assert (∀ r, r ∈ sl_expressions fleet_selector → admitted r) as Hadm by (unfold admitted; set_solver).
  split.
  - by apply (pod_selector_covers_exact fleet_selector).
  - intros Hall. by apply (pod_selector_covers_exact fleet_selector) in Hall.
Defined.

(** ** A fleet that passes its preflight *)

Section preflight_proofs.
Context {W : Type} `{Clock W} `{Clusters W} `{PreflightApi W}.

(** The calls of a preflight *)
Inductive pcall : relation W :=
  | PVersion c w : pcall w (server_version c w).2
  | PServed c crd w : pcall w (served_versions c crd w).2
  | PController c w : pcall w (controller_ready c w).2
  | PNamespace c ns w : pcall w (check_namespace c ns w).2
  | PRuntimeClass c r w : pcall w (check_runtime_class c r w).2
  | PSecret c s ns w : pcall w (check_secret c s ns w).2
  | PPolicies c ns w : pcall w (network_policies c ns w).2
  | PDryRun c r ns body w : pcall w (@dry_run_object W (api_of c) r ns body w).2
  | PList c r ns sel w : pcall w (@list_objects W (k8s_of c) r ns sel w).2.
#[local] Hint Constructors pcall : moves.

Abbreviation go := (moves (rtc pcall)).
Lemma go_call {A} (m : M W A) w : pcall w (m w).2 → go m w.
Proof. apply rtc_once. Qed.
#[local] Hint Resolve go_call : moves.
(** The answer came between the two states of the run. *)
Abbreviation answered m a := (during pcall m (Ret a)).

Definition serves (cname : string) (crd : string * string * string) (w w' : W) : Prop :=
  ∃ vs, answered (served_versions cname (crd.1.1 +:+ "." +:+ crd.1.2)) vs w w' ∧ crd.2 ∈ vs.

(** What a cluster must have for the tasks of a template, and was seen to have *)
Record cluster_ready (c : cluster) (runtime_class pull_secret : option string) (ns : string)
    (validate : option TemplateSpec) (sample_image : string) (snapshots : bool) (w w' : W) : Prop := {
  ready_reachable : ∃ v, answered (server_version (cl_name c)) v w w';
  ready_crds : ∀ crd, crd ∈ REQUIRED_CRDS → serves (cl_name c) crd w w';
  ready_runtime_class : ∀ r, str_or runtime_class None = Some r → answered (check_runtime_class (cl_name c) r) () w w';
  ready_secret : ∀ s, str_or pull_secret None = Some s → answered (check_secret (cl_name c) s ns) () w w';
  ready_manifests : ∀ t, validate = Some t → ∃ o,
    during pcall (@validate_manifests W (api_of (cl_name c)) (cl_resources c) sample_image t "asrl-validate") o w w'
    ∧ ∀ code, code ∈ [400; 422] → o ≠ Raise (ApiException code);
  ready_snapshots : snapshots = true →
    (∀ crd, crd ∈ SNAPSHOT_CRDS → serves (cl_name c) crd w w') ∧ is_Some (str_or runtime_class None);
}.

Lemma serves_between cname crd w0 w w' w3 :
  rtc pcall w0 w → rtc pcall w' w3 → serves cname crd w w' → serves cname crd w0 w3.
Proof. intros R0 R3 (vs & Hvs & Hv). exists vs. split; [by eapply during_between|done]. Qed.

Lemma ready_between c rc secret ns validate sample snapshots w0 w w' w3 :
  rtc pcall w0 w → rtc pcall w' w3 →
  cluster_ready c rc secret ns validate sample snapshots w w' → cluster_ready c rc secret ns validate sample snapshots w0 w3.
Proof.
  intros R0 R3 [[v H4] H5 H6 H7 H8 H9]. constructor.
  - exists v. by eapply during_between.
  - intros crd Hc. eapply serves_between; eauto.
  - intros r Hr. eapply during_between; eauto.
  - intros x Hx. eapply during_between; eauto.
  - intros t Ht. destruct (H8 t Ht) as (o & Ho & Hcode). exists o. split; [by eapply during_between|done].
  - intros Hs. destruct (H9 Hs) as [Hc Hrc]. split; [|done]. intros crd Hin. eapply serves_between; eauto.
Qed.

(** *** Every check is made of these calls *)

Lemma go_check_call {A} name warn caught ok (m : M W A) w : go m w → go (check_call name warn caught ok m) w.
Proof. intros Hm. unfold check_call. moves. Qed.
Lemma go_check_crd cname crd w : go (check_crd cname crd) w.
Proof. destruct crd as [[? ?] ?]. apply go_check_call. auto with moves. Qed.
Lemma go_check_each {A} (f : A → M W Check) l w : (∀ a w, go (f a) w) → go (check_each f l) w.
Proof. intros Hf. revert w. induction l as [|a l IH]; intros w; cbn [check_each]; moves. Qed.
Lemma go_given {A B} (o : option A) (f : A → M W (list B)) w : (∀ a, go (f a) w) → go (if_given o f) w.
Proof. intros Hf. destruct o; cbn; [apply Hf|moves]. Qed.
Lemma go_one m w : go m w → go (one m) w.
Proof. intros Hm. unfold one. moves. Qed.
Lemma go_manifests c sample t w : go (check_manifests c sample t) w.
Proof. unfold check_manifests, validate_manifests. moves. Qed.
Lemma go_snapshots c ns rc w : go (check_snapshots c ns rc) w.
Proof.
  unfold check_snapshots. apply moves_bind; [apply _|apply go_check_each; intros; apply go_check_crd|]. intros crds w1 _.
  apply moves_bind; [apply _| |intros; moves]. apply go_check_call. moves.
Qed.

(** A run in two parts, each along the calls *)
Lemma go_step {A} (m : M W A) w a w' : go m w → m w = (Ret a, w') → rtc pcall w w'.
Proof. unfold moves. by intros Hm E; rewrite E in Hm. Qed.

Lemma check_call_inv {A} name warn caught ok (m : M W A) w c w' :
  check_call name warn caught ok m w = (Ret c, w') →
  ck_warn_only c = warn ∧ (ck_ok c = true → ∃ a, answered m a w w' ∧ ok a = true).
Proof.
  intros E. unfold check_call in E. apply except_ret_inv in E as [E|(e & k & w1 & E & Hk & Ek)].
  - run_inv. split; [done|]. cbn. intros Ha. exists a. split; [by apply during_run|done].
  - destruct (caught e); simplify_eq. run_inv. done.
Qed.

(** The checks of a list of CRDs that all passed *)
Lemma crds_served cname l w cs w' :
  check_each (check_crd cname) l w = (Ret cs, w') → report_ok cs = true → ∀ crd, crd ∈ l → serves cname crd w w'.
Proof.
  revert w cs. induction l as [|crd l IH]; intros w cs E Hok; [set_solver|]. cbn [check_each] in E.
  apply bind_ret_inv in E as (c & w1 & E1 & E). apply bind_ret_inv in E as (cs' & w2 & E2 & E).
  injection E as <- <-. cbn in Hok. apply andb_true_iff in Hok as [Hok Hoks].
  assert (rtc pcall w w1) as R1 by (eapply go_step; [|exact E1]; apply go_check_crd).
  assert (rtc pcall w1 w2) as R2 by (eapply go_step; [|exact E2]; apply go_check_each; intros; apply go_check_crd).
  intros crd' [->|Hin]%elem_of_cons.
  - destruct crd as [[pl g] v]. apply check_call_inv in E1 as [Hw Hans]. rewrite Hw, orb_false_r in Hok.
    destruct (Hans Hok) as (vs & Hvs & Hv). apply bool_decide_eq_true in Hv. exists vs. split; [|done].
    eapply during_between; [| |exact Hvs]; [reflexivity|done].
  - eapply serves_between; [exact R1|reflexivity|by eapply IH].
Qed.

Lemma report_ok_app r1 r2 : report_ok (r1 ++ r2) = report_ok r1 && report_ok r2.
Proof. apply forallb_app. Qed.

(** A check that is made when a name is given *)
Lemma given_check_inv (o : option string) name (m : string → M W ()) w cs w' :
  if_given o (λ r, one (check_call (name r) false any_exception (λ _, true) (m r))) w = (Ret cs, w') →
  report_ok cs = true → ∀ r, o = Some r → answered (m r) () w w'.
Proof.
  intros E Hok r ->. cbn in E. unfold one in E. run_inv. apply check_call_inv in Hrun as [Hw Hans].
  cbn in Hok. rewrite Hw, orb_false_r, andb_true_r in Hok. by destruct (Hans Hok) as ([] & ? & _).
Qed.

Lemma check_manifests_inv c sample t w ck w' :
  check_manifests c sample t w = (Ret ck, w') → report_ok [ck] = true → ∃ o,
  during pcall (@validate_manifests W (api_of (cl_name c)) (cl_resources c) sample t "asrl-validate") o w w'
  ∧ ∀ code, code ∈ [400; 422] → o ≠ Raise (ApiException code).
Proof.
  intros E Hok. unfold check_manifests, except, mbind, M_bind in E.
  destruct (validate_manifests _ _ _ _ w) as [o w1] eqn:Em. exists o.
  destruct o as [[]|e|]; [| |done]; injection E as <- <-; (split; [by apply during_run|]); [done|].
  intros code Hcode [= ->]. cbn in Hok. by rewrite bool_decide_eq_true_2 in Hok.
Qed.

Lemma check_snapshots_inv c ns rc w cs w' :
  check_snapshots c ns rc w = (Ret cs, w') → report_ok cs = true →
  (∀ crd, crd ∈ SNAPSHOT_CRDS → serves (cl_name c) crd w w') ∧ is_Some (str_or rc None).
Proof.
  intros E Hok. unfold check_snapshots in E. apply bind_ret_inv in E as (crds & w1 & E1 & E). run_inv.
  rewrite report_ok_app in Hok. apply andb_true_iff in Hok as [Hcrds Hrc]. split.
  - intros crd Hin. eapply serves_between; [| |by eapply crds_served]; [reflexivity|].
    eapply go_step; [|exact Hrun]. apply go_check_call. moves.
  - destruct (str_or rc None); done.
Qed.

(** From one state of a run to a later one *)
Ltac chain := repeat first
  [ reflexivity | match goal with R : rtc pcall ?x _ |- rtc pcall ?x _ => etrans; [exact R|]; clear R end ].

Lemma preflight_cluster_ready c rc secret namespace validate sample unmanaged snapshots w r w' :
  preflight_cluster c rc secret namespace validate sample unmanaged snapshots w = (Ret r, w') → report_ok r = true →
  cluster_ready c rc secret (default (cl_namespace c) (str_or namespace None)) validate sample snapshots w w'.
Proof.
  intros E Hok. unfold preflight_cluster in E. apply bind_ret_inv in E as (reach & w1 & Hreach & E).
  assert (rtc pcall w w1) as R1 by (eapply go_step; [|exact Hreach]; apply go_check_call; moves).
  apply check_call_inv in Hreach as [Hw Hans]. destruct (ck_ok reach) eqn:Hr; cbn [negb] in E.
  2: { run_inv. cbn in Hok. by rewrite Hr, Hw in Hok. }
  run_inv. change (?x :: ?l) with ([x] ++ l) in Hok. rewrite !report_ok_app in Hok.
  change (report_ok (?x :: ?y :: ?l)) with (report_ok ([x; y] ++ l)) in Hok. rewrite !report_ok_app, !andb_true_iff in Hok.
  destruct Hok as (_ & Hcrds & _ & Hrc & Hsec & Hman & _ & Hsnap).
  assert (rtc pcall w1 s) as R2 by (eapply go_step; [|exact Hrun]; apply go_check_each; intros; apply go_check_crd).
  assert (rtc pcall s s1) as R3.
  { trans s0; [eapply go_step; [|exact Hrun0]|eapply go_step; [|exact Hrun1]]; apply go_check_call; moves. }
  assert (rtc pcall s1 s2) as R4 by (eapply go_step; [|exact Hrun2]; apply go_given; intros; apply go_one, go_check_call; moves).
  assert (rtc pcall s2 s3) as R5 by (eapply go_step; [|exact Hrun3]; apply go_given; intros; apply go_one, go_check_call; moves).
  assert (rtc pcall s3 s4) as R6 by (eapply go_step; [|exact Hrun4]; apply go_given; intros; apply go_one, go_manifests).
  assert (rtc pcall s4 s5) as R7 by (eapply go_step; [|exact Hrun5]; apply go_given; intros; apply go_one, go_check_call; moves).
  assert (rtc pcall s5 s6) as R8 by (eapply go_step; [|exact Hrun6]; destruct snapshots; [apply go_snapshots|moves]).
  constructor.
  - destruct (Hans eq_refl) as (v & Hv & _). exists v. eapply during_between; [| |exact Hv]; chain.
  - intros crd Hin. eapply serves_between; [| |by eapply crds_served]; chain.
  - intros r Hr'. eapply during_between; [| |exact (given_check_inv _ _ _ _ _ _ Hrun2 Hrc r Hr')]; chain.
  - intros x Hx. eapply during_between; [| |exact (given_check_inv _ _ _ _ _ _ Hrun3 Hsec x Hx)]; chain.
  - intros t ->. cbn in Hrun4. unfold one in Hrun4. run_inv.
    edestruct check_manifests_inv as (o & Ho & Hcode); [done|done|]. exists o. split; [|done].
    eapply during_between; [| |exact Ho]; chain.
  - intros ->. edestruct check_snapshots_inv as [Hc Hi]; [done|done|]. split; [|done]. intros crd Hin.
    eapply serves_between; [| |by apply Hc]; chain.
Qed.

(** What the template of the fleet asks of a cluster *)
Definition template_ready (snapshots : cluster → bool) (f : fleet) (sample : string) (w w' : W) (c : cluster) : Prop :=
  let t := template_spec c (fc_template (f_config f)) in
  cluster_ready c (ts_runtime_class t) (ts_image_pull_secret t)
    (default (cl_namespace c) (str_or (Some (cl_namespace c)) None)) (Some t) sample (snapshots c) w w'.

Lemma go_preflight_cluster c rc secret namespace validate sample unmanaged snapshots w :
  go (preflight_cluster c rc secret namespace validate sample unmanaged snapshots) w.
Proof.
  unfold preflight_cluster. apply moves_bind; [apply _|apply go_check_call; moves|]. intros reach w1 _.
  destruct (negb _); [moves|].
  apply moves_bind; [apply _|apply go_check_each; intros; apply go_check_crd|intros ? ? _].
  do 2 (apply moves_bind; [apply _|apply go_check_call; moves|intros ? ? _]).
  do 2 (apply moves_bind; [apply _|apply go_given; intros; apply go_one, go_check_call; moves|intros ? ? _]).
  apply moves_bind; [apply _|apply go_given; intros; apply go_one, go_manifests|intros ? ? _].
  apply moves_bind; [apply _|apply go_given; intros; apply go_one, go_check_call; moves|intros ? ? _].
  apply moves_bind; [apply _|destruct snapshots; [apply go_snapshots|moves]|intros ? ? _; moves].
Qed.

Lemma go_preflight_all snapshots f sample cs w : go (preflight_all snapshots f sample cs) w.
Proof.
  revert w. induction cs as [|c cs IH]; intros w; cbn [preflight_all]; [moves|].
  apply moves_bind; [apply _|apply go_preflight_cluster|]. intros. moves.
Qed.

Lemma preflight_all_ready snapshots f sample cs w reports w' :
  preflight_all snapshots f sample cs w = (Ret reports, w') → forallb (λ nr, report_ok nr.2) reports = true →
  reports.*1 = cl_name <$> cs ∧ Forall (template_ready snapshots f sample w w') cs.
Proof.
  revert w reports. induction cs as [|c cs IH]; intros w reports E Hok; cbn [preflight_all] in E.
  { injection E as <- <-. by split. }
  apply bind_ret_inv in E as (r & w1 & E1 & E). apply bind_ret_inv in E as (rs & w2 & E2 & E). injection E as <- <-.
  cbn in Hok. apply andb_true_iff in Hok as [Hc Hcs]. destruct (IH _ _ E2 Hcs) as [Hn Hr].
  assert (rtc pcall w w1) as R1 by (eapply go_step; [|exact E1]; apply go_preflight_cluster).
  assert (rtc pcall w1 w2) as R2 by (eapply go_step; [|exact E2]; apply go_preflight_all).
  split; [cbn; by rewrite Hn|]. constructor.
  - eapply ready_between; [| |by eapply preflight_cluster_ready]; chain.
  - eapply Forall_impl; [exact Hr|]. intros c' Hc'. eapply ready_between; [| |exact Hc']; chain.
Qed.

(** C36. A preflight that lets a run start made sure of the run's namespaces first, and
    then, between that moment and its end, asked every cluster of the registry and got
    the answers a run needs: the server's version, a CRD of every kind at the version
    the fleet uses, the runtime class and the pull secret of the template, a dry run of
    its manifests that was not refused with 400 or 422, and with snapshots their CRDs,
    a runtime class being set. Apart from the namespaces the fleet stays as it was. *)
Theorem preflight_passes_when_ready snapshots s reports s' :
  fleet_preflight snapshots s = (Ret reports, s') →
  ∃ s1, ensure_run_namespaces s = (Ret (), s1) ∧ s'.1 = s1.1 ∧ reports.*1 = cl_name <$> (f_registry s1.1).*2 ∧
  ∀ c, c ∈ (f_registry s1.1).*2 →
    template_ready snapshots s1.1 (default "busybox:latest"%string (head (image_counts (f_tasks s1.1)).*1)) s1.2 s'.2 c.
Proof.
  intros E. unfold fleet_preflight in E. apply bind_ret_inv in E as ([] & s1 & E1 & E). exists s1. split; [done|].
  unfold preflight_reports in E. run_inv. apply world_run_inv in Hrun0 as [Hrun Hf].
  destruct (forallb _ _) eqn:Hok; run_inv. split; [done|].
  destruct (preflight_all_ready _ _ _ _ _ _ _ Hrun Hok) as [Hn Hr]. split; [done|]. by apply Forall_forall.
Qed.
End preflight_proofs.

(** A cluster that has everything *)
#[local] Instance sim_preflight : PreflightApi sim := {|
  server_version _ := mret "v1.33.1"%string;
  served_versions _ _ := mret [VERSION; api_version SANDBOX];
  controller_ready _ := mret (Some 1);
  check_namespace _ _ := mret ();
  check_runtime_class _ _ := mret ();
  check_secret _ _ _ := mret ();
  network_policies _ _ := mret [Some fleet_selector];
|}.

Definition sim_preflighted : option (outcome (list (string * report)) * (fleet * sim)) :=
  fleet_preflight (λ _, false) <$> new_sim_fleet false None None empty_sim.

Lemma preflight_passes_when_ready_witness :
  ∃ reports s', sim_preflighted = Some (Ret reports, s') ∧ length reports = 1%nat ∧
    ∃ s1, s'.1 = s1.1 ∧ (f_registry s1.1).*2 ≠ [] ∧
    ∀ c, c ∈ (f_registry s1.1).*2 → ∀ crd, crd ∈ REQUIRED_CRDS → serves (cl_name c) crd s1.2 s'.2.
Proof.
  assert (∀ s reports s', new_sim_fleet false None None empty_sim = Some s → sim_preflighted = Some (Ret reports, s') →
    length reports = 1%nat → ∃ s1, s'.1 = s1.1 ∧ (f_registry s1.1).*2 ≠ [] ∧
    ∀ c, c ∈ (f_registry s1.1).*2 → ∀ crd, crd ∈ REQUIRED_CRDS → serves (cl_name c) crd s1.2 s'.2) as Hw.
  { intros s reports s' Hs E Hl. unfold sim_preflighted in E. rewrite Hs in E. injection E as E.
    apply (preflight_passes_when_ready (λ _, false) s reports s') in E as (s1 & _ & Hf & Hn & Hready).
    exists s1. split; [exact Hf|]. split; [|intros c Hc crd Hcrd; by apply (Hready c Hc)].
    intros Hz. rewrite Hz in Hn. apply fmap_nil_inv in Hn. by rewrite Hn in Hl. }
  do 2 eexists. split; [vm_compute; reflexivity|]. split; [reflexivity|]. eapply Hw; vm_compute; reflexivity.
Defined.

(** ** What a source reads *)

Section jsonl_proofs.
Context (loads : string → outcome row) (image_field id_field : field).

(** With a limit, the loop stops at that many tasks, and the lines after are not read. *)
Lemma load_lines_limit limit lines : ∀ n i ts rest,
  n < limit → load_lines loads image_field id_field None n i lines = Ret ts →
  (limit - n ≤ Z.of_nat (length ts) ∨ rest = []) →
  load_lines loads image_field id_field (Some limit) n i (lines ++ rest) = Ret (take (Z.to_nat (limit - n)) ts).
Proof.
  induction lines as [|raw lines IH]; intros n i ts rest Hn E Hrest; cbn in E |- *.
  { injection E as <-. destruct Hrest as [Hl| ->]; [cbn in Hl; lia|]. by rewrite take_nil. }
  destruct (strip raw =? EmptyString)%string; [by apply IH|]. run_inv. rewrite Hret. cbn.
  injection E as <-. destruct (Z.leb_spec limit (n + 1)).
  - by replace (Z.to_nat (limit - n)) with 1%nat by lia.
  - erewrite IH; [|lia|done|destruct Hrest as [Hl|]; [cbn [length] in Hl; left; lia|by right]]. cbn.
    by replace (Z.to_nat (limit - n)) with (S (Z.to_nat (limit - (n + 1)))) by lia.
Qed.

(** A source with a limit loads the first tasks of what it loads without one, as
    many as the limit says, and what follows the line of the last of them is not read:
    a line there that does not parse is not met. *)
Theorem jsonl_limit_stops_the_read limit lines ts :
  0 ≤ limit → load_jsonl loads image_field id_field None lines = Ret ts →
  load_jsonl loads image_field id_field (Some limit) lines = Ret (take (Z.to_nat limit) ts) ∧
  (limit ≤ Z.of_nat (length ts) → ∀ rest,
     load_jsonl loads image_field id_field (Some limit) (lines ++ rest) = Ret (take (Z.to_nat limit) ts)).
Proof.
  intros Hl E. unfold load_jsonl in *. rewrite bool_decide_eq_false_2 in E by done.
  destruct (decide (limit = 0)) as [->|Hne]; [by rewrite !bool_decide_eq_true_2 by done|].
  rewrite !bool_decide_eq_false_2 by congruence.
  pose proof (λ rest, load_lines_limit limit lines 0 0 ts rest ltac:(lia) E) as Hload. rewrite Z.sub_0_r in Hload.
  split; [|by auto]. rewrite <- (app_nil_r lines) at 1. by auto.
Qed.
End jsonl_proofs.

(** Objects with an image, one that does not parse *)
Definition row_of_line (line : string) : outcome row :=
  if (line =? "{")%string then Raise ValueError else Ret [("image"%string, JStr line)].

Lemma jsonl_limit_stops_the_read_witness :
  load_jsonl row_of_line Default Default (Some 2) (["a"%string; EmptyString; "b"%string; "c"%string] ++ ["{"%string]) =
    Ret [Task "0" "a" []; Task "2" "b" []].
Proof.
  refine (proj2 (jsonl_limit_stops_the_read row_of_line Default Default 2 ["a"; EmptyString; "b"; "c"]%string
    [Task "0" "a" []; Task "2" "b" []; Task "3" "c" []]%string _ _) _ _); [lia|by vm_compute|cbn; lia].
Defined.

(** The images of a manifest: each once, in the order of the first line that has it *)
Lemma load_image_list_exact text :
  NoDup (load_image_list text) ∧
  ∀ img, img ∈ load_image_list text ↔ img ≠ EmptyString ∧ ∃ raw, raw ∈ splitlines text ∧ image_line raw = img.
Proof.
  unfold load_image_list. generalize (splitlines text) as lines.
  assert (∀ lines out, NoDup out →
    NoDup (foldl add_image out lines) ∧
    ∀ img, img ∈ foldl add_image out lines ↔
      img ∈ out ∨ (img ≠ EmptyString ∧ ∃ raw, raw ∈ lines ∧ image_line raw = img)) as Hgen.
  { induction lines as [|raw lines IH]; intros out Hout; cbn.
    - split; [done|]. set_solver.
    - assert (NoDup (add_image out raw) ∧
        ∀ img, img ∈ add_image out raw ↔ img ∈ out ∨ (img ≠ EmptyString ∧ image_line raw = img)) as [Hn Hadd].
      { unfold add_image, str_mem. destruct (String.eqb_spec (image_line raw) EmptyString) as [Hz|Hz]; cbn.
        { split; [done|]. naive_solver. }
        case_bool_decide as Hin.
        { split; [done|]. naive_solver. }
        rewrite NoDup_app. split; [split; [done|]; split; [set_solver|apply NoDup_singleton]|].
        intros img. rewrite elem_of_app, list_elem_of_singleton. naive_solver. }
      destruct (IH _ Hn) as [Hn' Hall]. split; [done|]. intros img. rewrite Hall, Hadd.
      setoid_rewrite elem_of_cons. naive_solver. }
  intros lines. destruct (Hgen lines [] (NoDup_nil_2)) as [Hn Hall]. split; [done|]. intros img. rewrite Hall. set_solver.
Qed.

(** ** A plan fits the pool it was made for *)

(** Windows of images that all take the same: the pools of a window fit the budget,
    unless it is a window of one. *)
Lemma fill_window_fits budget r size l : ∀ w w',
  0 ≤ r → (∀ k cnt r', (k, cnt) ∈ l → size cnt = Ret r' → r' = r) →
  (w ≤ 1)%nat ∨ Z.of_nat w * r ≤ budget → fill_window budget (Z.of_nat w * r) w size l = Ret w' →
  ((w' ≤ 1)%nat ∨ Z.of_nat w' * r ≤ budget) ∧ (w' ≤ w + length l)%nat.
Proof.
  induction l as [|[k cnt] l IH]; intros w w' Hr Hsize Hw E; cbn in E.
  { injection E as <-. cbn. split; [done|lia]. }
  run_inv. assert (a = r) as -> by (eapply Hsize; [by left|done]).
  destruct (bool_decide (1 ≤ w)%nat && (budget <? Z.of_nat w * r + r)) eqn:Hstop.
  { injection E as <-. cbn. split; [done|lia]. }
  replace (Z.of_nat w * r + r) with (Z.of_nat (S w) * r) in E by lia.
  eapply IH in E; [cbn; split; [apply E|lia]|done|by intros; eapply Hsize; [right|]|].
  apply andb_false_iff in Hstop as [Hs|Hs]; [apply bool_decide_eq_false in Hs; left; lia|right].
  apply Z.ltb_ge in Hs. lia.
Qed.

(** A benchmark's images have the same number of tasks, so the same pool. *)
Lemma bench_replicas k total mc mp r :
  1 ≤ k → 1 ≤ mp → compute_replicas k total mc mp 0 (1 <? k) = Ret r → r = Z.min k mp.
Proof.
  intros Hk Hmp. unfold compute_replicas. rewrite (proj2 (Z.leb_gt k 0)) by lia.
  destruct (Z.ltb_spec 1 k); [by intros [= <-]|]. intros E. run_inv. injection E as <-. lia.
Qed.

Lemma bench_window_fits n k mc mp avg usable nodes w :
  1 ≤ n → 1 ≤ k → 1 ≤ mp → 1 ≤ mc →
  recommend_window_pipelined (bench_totals n k) mc mp (Some avg) (Some usable) 0 (1 <? k) nodes = Ret w →
  1 ≤ w ≤ n ∧ (w = 1 ∨ 2 * w * Z.min k mp ≤ mc).
Proof.
  intros Hn Hk Hmp Hmc E. unfold recommend_window_pipelined, recommend_window in E. run_inv.
  injection Hret as <-. injection E as <-.
  change 0 with (Z.of_nat 0 * Z.min k mp) in Hret1 at 1.
  eapply fill_window_fits in Hret1 as [Hw Hl]; [|lia| |left; lia].
  - unfold bench_totals in Hl. rewrite length_fmap, length_seq in Hl.
    assert (1 ≤ Z.min k mp) as HR by lia. revert Hw HR. generalize (Z.min k mp) as R. intros R Hw HR.
    set (W := Z.max 1 (Z.of_nat a1)). pose proof (Z.mul_div_le W 2 ltac:(lia)) as Hdiv.
    generalize dependent (W / 2). intros half Hdiv. set (w := Z.max 1 (Z.min (Z.max 1 half) a0)).
    destruct (decide (w = 1)) as [->|Hne]; [split; [lia|by left]|].
    assert (2 ≤ w ∧ 2 * w ≤ Z.of_nat a1) as [Hw2 Hwa] by lia.
    split; [lia|right]. destruct Hw as [Hw|Hw]; [lia|]. nia.
  - intros i cnt r' Hin Hr. apply list_elem_of_fmap in Hin as (j & [= -> ->] & _). by eapply bench_replicas.
Qed.

(** What limits a plan that cannot warm everything is really short. *)
Definition short_of (fp : footprint) (bottleneck : string) : Prop :=
  (bottleneck = "disk" ∧ fp_disk_fits fp = false) ∨ (bottleneck = "pods" ∧ fp_pods_fit fp = false) ∨
  (bottleneck = "cpu" ∧ fp_cpu_fits fp = false).

(** The plan for a benchmark fits the pool it was made for: each image has one
    replica per task up to the cap; as many tasks run at once as the CPU and the pods
    allow, at least one. A plan that warms everything up front has pods, CPU requests
    and disk that fit. A plan in windows says what is short, and its two windows fit
    the pods and CPU, unless the window is one image. *)
Theorem benchmark_plan_fits cap n k o p :
  plan_benchmark cap n k o = Ret p →
  let R := Z.min k (bo_max_pool o) in
  let room := Z.max 1 (Z.min (cap_cpu cap / bo_cpu_request o) (cap_pods cap)) in
  ∃ fp, footprint_of cap n R o = Ret fp ∧
    bp_replicas p = R ∧ 1 ≤ R ∧ 1 ≤ bp_max_concurrent p ≤ Z.min (n * k) room ∧
    match bp_window p with
    | None =>
        bp_warm_pods p = n * R ∧ n * R ≤ cap_pods cap ∧ n * R * bo_cpu_request o ≤ cap_cpu cap ∧
        fle (fp_resident fp) (fp_usable fp) = true
    | Some w =>
        1 ≤ w ≤ n ∧ bp_warm_pods p = 2 * w * R ∧ (w = 1 ∨ 2 * w * R ≤ room) ∧ short_of fp (bp_bottleneck p)
    end.
Proof.
  intros E R room. unfold plan_benchmark in E.
  destruct ((n <? 1) || (k <? 1)) eqn:H1; [done|]. apply orb_false_iff in H1 as [Hn%Z.ltb_ge Hk%Z.ltb_ge].
  destruct (Z.ltb_spec (bo_cpu_request o) 1); [done|]. destruct (Z.ltb_spec (bo_max_pool o) 1) as [|Hmp]; [done|].
  destruct (fle (bo_avg_image_gb o) (PFin 0)); [done|]. destruct (negb _); [done|].
  replace (if 1 <? k then Z.min k (bo_max_pool o) else 1) with R in E by (unfold R; destruct (Z.ltb_spec 1 k); lia).
  apply outcome_bind_inv in E as (fp & Hfp & E). exists fp. split; [done|].
  assert (1 ≤ R ≤ k) as HR by (unfold R; lia).
  assert (fp_conc_cap fp = room ∧ fp_pods_fit fp = (n * R <=? cap_pods cap) ∧
    fp_cpu_fits fp = (n * R * bo_cpu_request o <=? cap_cpu cap) ∧ fp_disk_fits fp = fle (fp_resident fp) (fp_usable fp))
    as (Hconc & Hpods & Hcpu & Hdisk).
  { unfold footprint_of in Hfp. run_inv. by injection Hfp as <-. }
  rewrite Hconc in E. destruct (fp_disk_fits fp && fp_pods_fit fp && fp_cpu_fits fp) eqn:Hfit.
  - injection E as <-. cbn. apply andb_true_iff in Hfit as [[Hd Hp]%andb_true_iff Hc].
    rewrite Hpods in Hp. rewrite Hcpu in Hc. rewrite <- Hdisk. apply Z.leb_le in Hp, Hc.
    assert (1 ≤ n * k) by nia. assert (1 ≤ room) by (unfold room; lia). repeat split; auto; lia.
  - run_inv. injection E as <-. cbn. apply bench_window_fits in Hret as [Hw Hwin]; [|lia..].
    split; [done|]. split; [lia|]. split; [assert (a * R ≤ n * k) by nia; unfold room; lia|].
    split; [done|]. split; [lia|]. split; [done|].
    unfold short_of. destruct (fp_disk_fits fp); cbn in *; [|by left]. destruct (fp_pods_fit fp); cbn in *; by auto.
Qed.

(** Two nodes of 16 CPUs *)
Definition two_nodes : ClusterCapacity := Capacity "pool" 2 ["n2-standard-16"%string] 31700 (PFin 600) 220.

Lemma benchmark_plan_fits_witness :
  let o := BenchOptions (PFin 10) 250 (PFin (1 # 4)) 64 in
  (∃ p, plan_benchmark two_nodes 20 1 o = Ret p ∧ bp_window p = None ∧ 20 * Z.min 1 64 ≤ cap_pods two_nodes) ∧
  (∃ p w, plan_benchmark two_nodes 500 4 o = Ret p ∧ bp_window p = Some w ∧ (w = 1 ∨ 2 * w * Z.min 4 64 ≤ 126)).
Proof.
  intros o. split.
  - assert (∀ p, plan_benchmark two_nodes 20 1 o = Ret p → bp_window p = None → 20 * Z.min 1 64 ≤ cap_pods two_nodes) as Hw.
    { intros p E Hp. apply benchmark_plan_fits in E as (fp & _ & _ & _ & _ & E). rewrite Hp in E. apply E. }
    eexists. split; [vm_compute; reflexivity|]. split; [vm_compute; reflexivity|].
    eapply Hw; vm_compute; reflexivity.
  - assert (∀ p w, plan_benchmark two_nodes 500 4 o = Ret p → bp_window p = Some w → w = 1 ∨ 2 * w * Z.min 4 64 ≤ 126) as Hw.
    { intros p w E Hp. apply benchmark_plan_fits in E as (fp & _ & _ & _ & _ & E). rewrite Hp in E. apply E. }
    do 2 eexists. split; [vm_compute; reflexivity|]. split; [vm_compute; reflexivity|].
    eapply Hw; vm_compute; reflexivity.
Defined.
